(* ===== verification/_CoqProject ===== *)
-Q . S2P
Prelude.v
Riscv.v
Memory.v
Kalloc.v
Vm.v
VmInv.v
VmWalk.v
VmRef.v
VmOps.v
Cow.v
VmUser.v
CopyUser.v
CopyPut.v
Fork.v
Isolation.v
VmRoot.v
Kvm.v
Boot.v
VmFree.v
ProcVm.v
Spinlock.v
Proc.v
ProcOps.v
Sched.v
ProcMem.v
ProcFork.v
ProcExit.v
ProcWait.v
Syscall.v
Trap.v
FsState.v
Sleeplock.v
Bio.v
BioOps.v
BioSpec.v
Log.v
LogOps.v
LogCommit.v
LogRecover.v
Tx.v
TxOps.v
TxLog.v
Fs.v
FsBlocks.v
FsInode.v
FsFile.v
FsRw.v
FsDir.v
FsPath.v
Pipe.v
PipeOps.v
File.v
Exec.v
ExecOps.v
Sysfile.v
Ulib.v
Grep.v
Printf.v
Console.v
ConsoleOps.v
Sh.v
ShRun.v
Tools.v
Mkfs.v
MkfsOps.v
Umalloc.v
Virtio.v
VirtioOps.v
Examples.v
ExamplesProc.v
ExamplesFs.v
ExamplesPath.v
ExamplesCon.v
ExamplesPipe.v
ExamplesRw.v
ExamplesVirtio.v
ExamplesMalloc.v
ExamplesMkfs.v
ExamplesKvm.v
ExamplesExec.v
