(* ===== verification/Prelude.v ===== *)
(** * A verification library for xv6 with priority scheduling and copy-on-write fork

    The program is the xv6 kernel for RISC-V (src/kernel), with two extensions:
    fork shares pages copy-on-write (kalloc.c, vm.c), and the scheduler runs
    processes by priority with aging (proc.c); its user programs (src/user); and the
    program that makes the first file system (src/mkfs).

    ** Parts of the program and their models

    Machine and memory.
    - [Prelude]: outcomes of kernel code (a result, a panic, or out of fuel), the
      state monad [M] in which the code is written, total-correctness rules
      [wp], fixed-width arithmetic, and functions as arrays.
    - [Riscv]: the page and page-table macros of riscv.h, memlayout.h, param.h.
    - [Memory]: memory as bytes, and string.c.
    - [Kalloc]: kalloc.c, the free list threaded through the free pages and a
      reference count per page.
    - [Vm]: vm.c on page tables as bytes of memory; [VmInv], [VmWalk], [VmRef], [VmOps],
      [VmUser], [VmRoot], [VmFree] develop the ownership of pages and the
      lemmas on each routine; [Cow] the write fault, [CopyUser] and [CopyPut] the
      copies to and from user space, [Fork] the sharing of an address space, and
      [Isolation] what processes see of each other after it.
    - [Kvm]: the page table of the kernel (kvmmake, kvminit, kvminithart of vm.c,
      proc_mapstacks of proc.c) and the register satp.
    - [ProcVm]: the page table of a process (proc_pagetable, proc_freepagetable).
    - [Boot]: start.c, on a file of control registers, and plic.c.

    Processes.
    - [Spinlock]: spinlock.c, with acquire and release split into the steps that
      other CPUs can observe.
    - [Proc]: proc.c and struct proc.  [ProcOps], [ProcMem], [ProcFork],
      [ProcExit], [ProcWait] and [Sched] hold the lemmas and theorems.
    - [Syscall]: syscall.c and sysproc.c.  [Trap]: trap.c.

    File system.
    - [FsState]: the structures of buf.h, fs.h, file.h, log.c as one record.
    - [Sleeplock]: sleeplock.c.  [Bio]: bio.c, with [BioOps] and [BioSpec].
    - [Log]: log.c.  [LogOps], [LogCommit] and [LogRecover] treat the commit,
      crashes and recovery; [Tx], [TxOps] and [TxLog] the view that code inside a
      transaction has of the blocks.
    - [Fs]: fs.c, with [FsBlocks] on the free map, [FsInode] on inodes,
      [FsFile] and [FsRw] on the contents of files, [FsDir] on directories,
      [FsPath] on path names.
    - [Pipe], [File], [Exec], [Sysfile]: pipe.c, file.c, exec.c, sysfile.c;
      [PipeOps] has the theorems on pipes, [ExecOps] those on exec.
    - [Mkfs]: mkfs.c on an array of sectors, with [MkfsOps].

    Devices.
    - [Console]: console.c, uart.c, printk.c and procdump, with [ConsoleOps].
    - [Virtio]: virtio_disk.c and virtio.h, with [VirtioOps]: the steps of calls,
      device and interrupt handler, and the simulation.

    User programs.
    - [Ulib]: the string and memory routines of ulib.c.  [Printf]: printf.c.
    - [Umalloc]: umalloc.c on the bytes of a process.
    - [Grep]: grep.c.  [Sh]: the parser of sh.c.  [ShRun]: runcmd and main of sh.c
      as trees of system calls, and what the kernel does with their descriptors.
    - [Tools]: wc.c, cat.c, echo.c, ls.c, rm.c, mkdir.c, ln.c, kill.c.

    The files whose names start with Examples run the models on concrete
    machines and apply the theorems there.

    ** How the parts interact

    proc.c reaches the file system through the class [FileOps], syscall.c
    through [SysFile]; [Sysfile] gives the instances.  Theorems on processes
    assume the laws [FileOpsOk] of that interface.  What other threads do while
    a thread is switched out is the class [Switch]; device input and output is
    the class [Devices].  The layout of the kernel image is the class [Layout],
    the device switch table [Devsw].  To the buffer cache the disk driver is the
    transfer of a block between a buffer and the disk ([virtio_disk_rw] of
    [FsState]), with every write recorded in order; [VirtioOps] shows that the
    driver does this.  The registers of the UART and of the disk are the classes
    [Uart] and [VDev], what the disk does the class [BlockDev] with the laws
    [BlockLaws], and the system call under malloc the class [Sbrk].

    ** What the theorems show

    - Copy-on-write ([Cow], [Fork], [CopyUser], [Isolation]): a fault changes no byte
      that an address space reads; fork gives the child the memory of the parent,
      or nothing; the kernel's copies move exactly the bytes of the user; after a
      fork, stores and copies in any order act as on memories that were copied.
    - Allocation ([Kalloc], [VmUser]): the free list refines an abstract set of
      pages with counts; growing undoes itself when memory runs out.
    - Boot ([Kvm], [Boot]): the page table that the kernel switches to maps exactly
      what is intended, the code read-only and each stack between guards; start
      enters main in supervisor mode; the interrupt controller offers the two
      interrupts in use.
    - Locks ([Spinlock]): mutual exclusion in every interleaving, and the panics
      of spinlock.c unreachable for code that uses locks in pairs.
    - Life of processes ([ProcFork], [ProcExit], [ProcWait], [Syscall]): fork,
      exit, wait and setpriority on every branch; wait puts exactly the pages of
      the child on the free list.
    - Starting programs ([ExecOps]): exec moves the process to the new address space
      with its arguments on the stack, or leaves everything as it was.
    - Scheduling ([Sched]): a pass switches only to processes of the best effective
      priority, and to all of them that are left alone until their turn; aging
      bounds the time a process waits.  A process that runs may change the table;
      what is assumed of it is the contract [returned].  A pass is the work of one
      CPU: others act while a process runs, not between two entries.
    - Buffer cache ([BioSpec]): it refines contents, references and locks per
      block, and recycles the least recently used buffer.
    - Log ([LogRecover], [TxLog]): a crash at any write of a commit, followed by
      recovery, leaves all of a transaction or nothing; a transaction changes
      the disk by exactly the blocks it logged.
    - File system ([FsBlocks], [FsInode], [FsRw], [FsDir], [FsPath]): the free
      map, the inodes on disk, the table of inodes in memory; what is written to
      a file, from user memory too, is read back, a name that is linked is found, and a path leads
      where its names lead on the disk, with no reference or lock left behind.
    - Making a file system ([MkfsOps]): the image has the files it was given, and
      satisfies what fs.c relies on.
    - Pipes and console ([PipeOps], [ConsoleOps]): the rings refine queues, and
      the console edits lines as its abstract specification does.
    - Disk driver ([VirtioOps]): in all interleavings the calls and returns are those
      of a disk that carries out each request at one moment, and none reaches a
      panic.  The laws of the device have it complete a request within the capacity
      without an I/O error, on which the driver would panic.
    - User programs ([Umalloc], [Printf], [Grep], [Sh], [ShRun], [Tools]): blocks handed out by
      malloc never overlap; printed numbers are read back; the matcher decides
      the language of its pattern; the parser terminates and its words are
      strings; grep writes the matching lines up to the first that does not fit
      its buffer; the shell runs each program with exactly the descriptors that its
      line means, and leaves no end of a pipe open whichever calls fail; wc counts
      and cat copies however the reads are split.

    ** Bounds and fuel

    Loops that the code bounds by a size recurse on that size, and their fuel is
    enough for every input: walk over 3 levels, page loops over the pages between
    two addresses, copies over the number of bytes, scans over the tables.  The
    loops that wait for other threads (sleep) take their fuel as an argument or
    from the class [Patience]; theorems on them give the result for all fuel
    above the number of waits.  Integers are in Z with the wrap-around of the C
    types written out ([u16], [u32], [u64], [s16], [s32]).

    ** Not modelled

    The order of initialisation in main.c: the components have separate states
    here.  Assembly (entry.S, kernelvec.S, swtch.S, trampoline.S), which works below
    the level of these models.  The inline assembly of riscv.h beyond the registers
    that start.c, vm.c and trap.c use.  init, which only starts shells for ever, and
    the tests (usertests, grind, stressfs, cowtest, schedtest and the like), which
    are scripts of system calls without a specification of their own.  Messages
    printed by modelled functions of the kernel are left out.  The translation
    cache of user page tables: sfence_vma has no effect there.
    Failures of malloc in the constructors of the shell, which does not test for
    them.  The kernel under the shell is a table of descriptors ([eval] of [ShRun]),
    not the models of sysfile.c. *)

From Stdlib Require Export ZArith Lia.
From stdpp Require Export base tactics numbers list gmap sets strings functions.
From stdpp Require Export list_basics list_relations list_monad list_misc list_tactics.

#[global] Open Scope Z_scope.

(** ** Outcomes of kernel code

    A kernel routine either returns, or stops the machine in [panic], or (only
    for the routines whose recursion is bounded by fuel in the model) exhausts
    its fuel.  [wp] below rules out the last two. *)

Inductive res (A : Type) : Type :=
  | Ok (a : A)
  | Panic (msg : string)
  | NoFuel.
Arguments Ok {A} a.
Arguments Panic {A} msg.
Arguments NoFuel {A}.

(** ** The state monad of kernel code over a state type [S] *)

Definition M (S A : Type) : Type := S → res (A * S).

#[export] Instance M_ret {S} : MRet (M S) := λ A a s, Ok (a, s).
#[export] Instance M_bind {S} : MBind (M S) := λ A B k c s,
  match c s with
  | Ok (a, s') => k a s'
  | Panic msg => Panic msg
  | NoFuel => NoFuel
  end.

Definition get {S} : M S S := λ s, Ok (s, s).
Definition gets {S A} (f : S → A) : M S A := λ s, Ok (f s, s).
Definition modify {S} (f : S → S) : M S unit := λ s, Ok (tt, f s).
Definition panic {S A} (msg : string) : M S A := λ _, Panic msg.
Definition nofuel {S A} : M S A := λ _, NoFuel.

(** [when b c] is the C statement [if (b) c]. *)
Definition when {S} (b : bool) (c : M S unit) : M S unit :=
  if b then c else mret tt.

(** [zoom] runs a routine of a component on the component's part of a larger
    state. *)
Definition zoom {S T A} (proj : T → S) (put : S → T → T) (c : M S A) : M T A :=
  λ t, match c (proj t) with
       | Ok (a, s) => Ok (a, put s t)
       | Panic msg => Panic msg
       | NoFuel => NoFuel
       end.

(** [for_up n a d body] runs [body a; body (a+d); ...], [n] iterations. *)
Fixpoint for_up {S} (n : nat) (a d : Z) (body : Z → M S unit) : M S unit :=
  match n with
  | O => mret tt
  | Datatypes.S n' => body a ;; for_up n' (a + d) d body
  end.

(** ** Total-correctness weakest preconditions

    [wp c s Q]: from [s], [c] terminates without a panic, in a state and with a
    result that satisfy [Q]. *)

Definition wp {S A} (c : M S A) (s : S) (Q : A → S → Prop) : Prop :=
  match c s with
  | Ok (a, s') => Q a s'
  | _ => False
  end.

Section wp_rules.
Context {S : Type}.

Lemma wp_ret {A} (a : A) (s : S) Q : Q a s → wp (mret a) s Q.
Proof. done. Qed.

Lemma wp_bind {A B} (c : M S A) (k : A → M S B) (s : S) Q :
  wp c s (λ a s', wp (k a) s' Q) → wp (c ≫= k) s Q.
Proof. unfold wp, mbind, M_bind. by destruct (c s) as [[a s']| |]. Qed.

Lemma wp_bind_inv {A B} (c : M S A) (k : A → M S B) (s : S) Q :
  wp (c ≫= k) s Q → wp c s (λ a s', wp (k a) s' Q).
Proof. unfold wp, mbind, M_bind. by destruct (c s) as [[a s']| |]. Qed.

Lemma wp_mono {A} (c : M S A) (s : S) (P Q : A → S → Prop) :
  wp c s P → (∀ a s', P a s' → Q a s') → wp c s Q.
Proof. unfold wp. destruct (c s) as [[a s']| |]; naive_solver. Qed.

Lemma wp_get (s : S) Q : Q s s → wp get s Q.
Proof. done. Qed.

Lemma wp_gets {A} (f : S → A) (s : S) Q : Q (f s) s → wp (gets f) s Q.
Proof. done. Qed.

Lemma wp_modify (f : S → S) (s : S) Q : Q tt (f s) → wp (modify f) s Q.
Proof. done. Qed.

Lemma wp_when (b : bool) c (s : S) Q :
  (b = true → wp c s Q) → (b = false → Q tt s) → wp (when b c) s Q.
Proof. destruct b; naive_solver. Qed.

Lemma wp_eq {A} (c c' : M S A) (s : S) Q : c' s = c s → wp c' s Q → wp c s Q.
Proof. unfold wp. by intros ->. Qed.
Lemma wp_Ok {A} (c : M S A) (s s' : S) a Q :
  c s = Ok (a, s') → Q a s' → wp c s Q.
Proof. unfold wp. by intros ->. Qed.

Lemma wp_run {A} (c : M S A) (s : S) Q :
  wp c s Q → ∃ a s', c s = Ok (a, s') ∧ Q a s'.
Proof. unfold wp. destruct (c s) as [[a s']| |]; naive_solver. Qed.

(** Two and three steps as one. *)
Lemma wp_seq2 {A} (c1 c2 : M S unit) (k : M S A) (s : S) Q :
  wp (c1 ;; c2) s (λ _ s', wp k s' Q) → wp (c1 ;; c2 ;; k) s Q.
Proof.
  intros Hw%wp_bind_inv. apply wp_bind, (wp_mono _ _ _ _ Hw). intros _ s1 Hw1. apply wp_bind, (wp_mono _ _ _ _ Hw1). by intros [].
Qed.
Lemma wp_seq3 {A} (c1 c2 c3 : M S unit) (k : M S A) (s : S) Q :
  wp (c1 ;; c2 ;; c3) s (λ _ s', wp k s' Q) → wp (c1 ;; c2 ;; c3 ;; k) s Q.
Proof.
  intros Hw%wp_bind_inv. apply wp_bind, (wp_mono _ _ _ _ Hw). intros _ s1. apply wp_seq2.
Qed.

(** A computation that panics after a first part that does not, and at once. *)
Lemma panic_bind {A B} (c : M S A) (k : A → M S B) (s : S) msg :
  wp c s (λ a s', k a s' = Panic msg) → (c ≫= k) s = Panic msg.
Proof. intros (a & s' & E & HP)%wp_run. unfold mbind, M_bind. by rewrite E. Qed.
Lemma panic_first {A B} (c : M S A) (k : A → M S B) (s : S) msg :
  c s = Panic msg → (c ≫= k) s = Panic msg.
Proof. intros E. unfold mbind, M_bind. by rewrite E. Qed.

(** The rule for counting loops: an invariant indexed by the iterations done. *)
Lemma wp_for_up (I : nat → S → Prop) n a d body (s : S) Q :
  I 0%nat s →
  (∀ k s', (k < n)%nat → I k s' →
     wp (body (a + Z.of_nat k * d)) s' (λ _ s'', I (Datatypes.S k) s'')) →
  (∀ s', I n s' → Q tt s') →
  wp (for_up n a d body) s Q.
Proof.
  revert I a s. induction n as [|n IH]; intros I a s H0 Hstep HQ; simpl.
  - by apply HQ.
  - apply wp_bind. eapply wp_mono.
    { pose proof (Hstep 0%nat s ltac:(lia) H0) as Hb.
      rewrite Z.mul_0_l, Z.add_0_r in Hb. exact Hb. }
    intros [] s1 H1. apply (IH (λ k, I (Datatypes.S k)) (a + d)); [done| |done].
    intros k s2 Hk H2. replace (a + d + Z.of_nat k * d) with
      (a + Z.of_nat (Datatypes.S k) * d) by lia. apply Hstep; [lia|done].
Qed.

End wp_rules.

Lemma wp_zoom {S T A} (proj : T → S) put (c : M S A) (t : T) Q :
  wp c (proj t) (λ a s, Q a (put s t)) → wp (zoom proj put c) t Q.
Proof. unfold wp, zoom. by destruct (c (proj t)) as [[a s]| |]. Qed.

(** ** Machine integers

    Values of the C types are kept as [Z]; the wrap-around of the unsigned
    types and the conversions between widths are explicit. *)

Definition u64 (x : Z) : Z := x mod 2 ^ 64.
Definition u32 (x : Z) : Z := x mod 2 ^ 32.
(** conversion to [int]: two's complement, 32 bits *)
Definition s32 (x : Z) : Z := (x + 2 ^ 31) mod 2 ^ 32 - 2 ^ 31.

(** conversion to [ushort] and to [short] *)
Definition u16 (x : Z) : Z := x mod 2 ^ 16.
Definition s16 (x : Z) : Z := (x + 2 ^ 15) mod 2 ^ 16 - 2 ^ 15.

Lemma u64_small x : 0 ≤ x < 2 ^ 64 → u64 x = x.
Proof. intros. by apply Z.mod_small. Qed.
Lemma u32_small x : 0 ≤ x < 2 ^ 32 → u32 x = x.
Proof. intros. by apply Z.mod_small. Qed.
Lemma s32_small x : - 2 ^ 31 ≤ x < 2 ^ 31 → s32 x = x.
Proof. intros. unfold s32. rewrite Z.mod_small; lia. Qed.
Lemma u16_small x : 0 ≤ x < 2 ^ 16 → u16 x = x.
Proof. intros. by apply Z.mod_small. Qed.
Lemma s16_small x : - 2 ^ 15 ≤ x < 2 ^ 15 → s16 x = x.
Proof. intros. unfold s16. rewrite Z.mod_small; lia. Qed.
Lemma u64_range x : 0 ≤ u64 x < 2 ^ 64.
Proof. by apply Z.mod_pos_bound. Qed.
Lemma u32_range x : 0 ≤ u32 x < 2 ^ 32.
Proof. by apply Z.mod_pos_bound. Qed.
Lemma s32_range x : - 2 ^ 31 ≤ s32 x < 2 ^ 31.
Proof.
  unfold s32. pose proof (Z.mod_pos_bound (x + 2 ^ 31) (2 ^ 32)). lia.
Qed.

(** ** Tactics *)

(** Reflects the boolean comparisons of the code into propositions. *)
Ltac breflect :=
  repeat match goal with
  | H : (_ && _) = true |- _ => apply andb_prop in H; destruct H
  | H : (_ || _) = false |- _ => apply orb_false_elim in H; destruct H
  | H : negb _ = true |- _ => apply negb_true_iff in H
  | H : negb _ = false |- _ => apply negb_false_iff in H
  | H : (_ =? _) = true |- _ => apply Z.eqb_eq in H
  | H : (_ =? _) = false |- _ => apply Z.eqb_neq in H
  | H : (_ <? _) = true |- _ => apply Z.ltb_lt in H
  | H : (_ <? _) = false |- _ => apply Z.ltb_ge in H
  | H : (_ <=? _) = true |- _ => apply Z.leb_le in H
  | H : (_ <=? _) = false |- _ => apply Z.leb_gt in H
  end.

(** [lia] with the definitions of quotient and remainder. *)
Ltac dlia := Z.to_euclidean_division_equations; lia.

(** One step of symbolic execution of a monadic routine. *)
Ltac wp_step :=
  lazymatch goal with
  | |- wp (mbind _ _) _ _ => apply wp_bind
  | |- wp (mret _) _ _ => apply wp_ret
  | |- wp get _ _ => apply wp_get
  | |- wp (gets _) _ _ => apply wp_gets
  | |- wp (modify _) _ _ => apply wp_modify
  | |- wp (when _ _) _ _ => apply wp_when; intros ?
  | |- wp (zoom _ _ _) _ _ => apply wp_zoom
  | |- wp (let _ := _ in _) _ _ => cbv zeta
  end.
Ltac wp_steps := repeat (wp_step; cbv beta).

(** Exposes the definition of the monad, to run a routine on a given state. *)
Ltac munfold :=
  unfold mbind, M_bind, mret, M_ret, gets, get, modify, panic, when in *; cbv beta iota.

(** Case analysis on the next [if] of the routine under execution. *)
Ltac wp_if :=
  lazymatch goal with
  | |- wp (if ?b then _ else _) _ _ =>
      let E := fresh "E" in destruct b eqn:E; breflect
  end.

(** Case analysis on whether two arguments of an updated function are the same. *)
Ltac fn_case p q :=
  let E := fresh "E" in
  destruct (decide (p = q)) as [E|];
  [first [subst q|rewrite <-E in *]; rewrite ?fn_lookup_insert|rewrite ?fn_lookup_insert_ne by done].

(** The hint database of the development. *)
Create HintDb xv6.
