(* ===== verification/Riscv.v ===== *)
(** * Constants, page-table entries and address arithmetic

    The macros of [kernel/riscv.h], [kernel/memlayout.h] and [kernel/param.h]:
    page rounding, the layout of an Sv39 page-table entry with the software
    bit [PTE_COW], the three 9-bit indices of a virtual address.  The lemmas
    turn the bit-level macros into arithmetic on page numbers and flags, which
    is how the other files use them. *)

From S2P Require Import Prelude.

(** ** param.h *)

Definition NPROC : nat := 64.
Definition NCPU : nat := 8.
Definition PRIORITY_MIN : Z := 0.
Definition PRIORITY_MAX : Z := 4.
Definition DEFAULT_PRIORITY : Z := 2.
Definition AGING_INTERVAL : Z := 20.
Definition NOFILE : nat := 16.
Definition USERSTACK : Z := 1.
Definition MAXARG : Z := 32.

(** ** memlayout.h and riscv.h *)

Definition PGSIZE : Z := 4096.
Definition PGSHIFT : Z := 12.

Definition MAXVA : Z := Z.shiftl 1 (9 + 9 + 9 + 12 - 1).
Definition KERNBASE : Z := 0x80000000.
Definition PHYSTOP : Z := KERNBASE + 128 * 1024 * 1024.
Definition UART0 : Z := 0x10000000.
Definition VIRTIO0 : Z := 0x10001000.
Definition PLIC : Z := 0x0c000000.
Definition TRAMPOLINE : Z := MAXVA - PGSIZE.
Definition TRAPFRAME : Z := TRAMPOLINE - PGSIZE.
Definition KSTACK (p : Z) : Z := TRAMPOLINE - (p + 1) * 2 * PGSIZE.

Definition PGROUNDUP (sz : Z) : Z := Z.land (u64 (sz + PGSIZE - 1)) (Z.lnot (PGSIZE - 1)).
Definition PGROUNDDOWN (a : Z) : Z := Z.land a (Z.lnot (PGSIZE - 1)).

Definition PTE_V : Z := Z.shiftl 1 0.
Definition PTE_R : Z := Z.shiftl 1 1.
Definition PTE_W : Z := Z.shiftl 1 2.
Definition PTE_X : Z := Z.shiftl 1 3.
Definition PTE_U : Z := Z.shiftl 1 4.
Definition PTE_COW : Z := Z.shiftl 1 8.

Definition PA2PTE (pa : Z) : Z := u64 (Z.shiftl (Z.shiftr pa 12) 10).
Definition PTE2PA (pte : Z) : Z := u64 (Z.shiftl (Z.shiftr pte 10) 12).
Definition PTE_FLAGS (pte : Z) : Z := Z.land pte 0x3FF.

Definition PXMASK : Z := 0x1FF.
Definition PXSHIFT (level : Z) : Z := PGSHIFT + 9 * level.
Definition PX (level va : Z) : Z := Z.land (Z.shiftr va (PXSHIFT level)) PXMASK.

Definition SATP_SV39 : Z := Z.shiftl 8 60.
Definition MAKE_SATP (pagetable : Z) : Z := Z.lor SATP_SV39 (Z.shiftr pagetable 12).

(** The C test [(pte & flag) != 0]. *)
Definition has (pte flag : Z) : bool := negb (Z.land pte flag =? 0).

(** ** The symbols that the linker script places

    [kernel.ld] defines [etext] and [end], and puts the trampoline page inside
    the text section, aligned to a page. *)

Class Layout := {
  etext : Z;        (** end of kernel code *)
  trampoline : Z;   (** the page of trampoline.S *)
  kend : Z;         (** [end]: first address after the kernel *)
}.

Class LayoutOk `{Layout} : Prop := {
  etext_range : KERNBASE ≤ etext ≤ kend;
  trampoline_range : KERNBASE ≤ trampoline ∧ trampoline + PGSIZE ≤ etext;
  trampoline_aligned : trampoline mod PGSIZE = 0;
  kend_range : kend < PHYSTOP;
}.

(** ** Page arithmetic *)

Lemma land_lnot_4095 a : Z.land a (Z.lnot (PGSIZE - 1)) = a / PGSIZE * PGSIZE.
Proof.
  replace (Z.lnot (PGSIZE - 1)) with (Z.lnot (Z.ones 12)) by reflexivity.
  rewrite <-Z.ldiff_land, Z.ldiff_ones_r by lia.
  rewrite Z.shiftl_mul_pow2, Z.shiftr_div_pow2 by lia. reflexivity.
Qed.

Lemma PGROUNDDOWN_eq a : PGROUNDDOWN a = a / PGSIZE * PGSIZE.
Proof. apply land_lnot_4095. Qed.

Lemma PGROUNDUP_eq a :
  0 ≤ a → a + PGSIZE - 1 < 2 ^ 64 →
  PGROUNDUP a = (a + PGSIZE - 1) / PGSIZE * PGSIZE.
Proof.
  intros. unfold PGROUNDUP. rewrite land_lnot_4095, u64_small; [done|].
  unfold PGSIZE in *. lia.
Qed.

Lemma PGROUNDDOWN_spec a :
  PGROUNDDOWN a mod PGSIZE = 0 ∧ PGROUNDDOWN a ≤ a < PGROUNDDOWN a + PGSIZE.
Proof. rewrite PGROUNDDOWN_eq. unfold PGSIZE. dlia. Qed.

Lemma PGROUNDUP_spec a :
  0 ≤ a → a + PGSIZE - 1 < 2 ^ 64 →
  PGROUNDUP a mod PGSIZE = 0 ∧ a ≤ PGROUNDUP a < a + PGSIZE.
Proof. intros. rewrite PGROUNDUP_eq by done. unfold PGSIZE in *. dlia. Qed.

(** ** Indices of a virtual address *)

Lemma PX_eq l va : 0 ≤ l → PX l va = (va / 2 ^ (12 + 9 * l)) mod 512.
Proof.
  intros. unfold PX, PXMASK, PXSHIFT, PGSHIFT.
  replace 0x1FF with (Z.ones 9) by reflexivity.
  by rewrite Z.land_ones, Z.shiftr_div_pow2 by lia.
Qed.

Lemma PX_range l va : 0 ≤ l → 0 ≤ PX l va < 512.
Proof. intros. rewrite PX_eq by done. dlia. Qed.

Lemma PX0_eq va : PX 0 va = (va / 4096) mod 512.
Proof. by rewrite PX_eq. Qed.
Lemma PX1_eq va : PX 1 va = (va / 2097152) mod 512.
Proof. by rewrite PX_eq. Qed.
Lemma PX2_eq va : PX 2 va = (va / 1073741824) mod 512.
Proof. by rewrite PX_eq. Qed.

(** ** Page-table entries *)

Lemma has_testbit pte i : 0 ≤ i → has pte (Z.shiftl 1 i) = Z.testbit pte i.
Proof.
  intros Hi. unfold has. rewrite Z.shiftl_1_l.
  destruct (Z.testbit pte i) eqn:E; simpl.
  - apply negb_true_iff, Z.eqb_neq. intros H0.
    assert (Z.testbit (Z.land pte (2 ^ i)) i = true) as Ht.
    { by rewrite Z.land_spec, E, Z.pow2_bits_true by done. }
    rewrite H0, Z.testbit_0_l in Ht. done.
  - apply negb_false_iff, Z.eqb_eq, Z.bits_inj_iff. intros j.
    rewrite Z.land_spec, Z.testbit_0_l, Z.pow2_bits_eqb by done.
    destruct (Z.eqb_spec i j) as [->|]; [by rewrite E|by rewrite andb_false_r].
Qed.

Lemma has_V pte : has pte PTE_V = Z.testbit pte 0.
Proof. by apply has_testbit. Qed.
Lemma has_R pte : has pte PTE_R = Z.testbit pte 1.
Proof. by apply has_testbit. Qed.
Lemma has_W pte : has pte PTE_W = Z.testbit pte 2.
Proof. by apply has_testbit. Qed.
Lemma has_X pte : has pte PTE_X = Z.testbit pte 3.
Proof. by apply has_testbit. Qed.
Lemma has_U pte : has pte PTE_U = Z.testbit pte 4.
Proof. by apply has_testbit. Qed.
Lemma has_COW pte : has pte PTE_COW = Z.testbit pte 8.
Proof. by apply has_testbit. Qed.
Create Rewrite HintDb pte.
#[export] Hint Rewrite has_V has_R has_W has_X has_U has_COW : pte.

(** A physical page that a PTE can name. *)
Definition paddr (pa : Z) : Prop := pa mod PGSIZE = 0 ∧ 0 ≤ pa < 2 ^ 56.

Lemma PA2PTE_eq pa : paddr pa → PA2PTE pa = pa / 4096 * 1024.
Proof.
  intros [? ?]. unfold PA2PTE. rewrite Z.shiftr_div_pow2, Z.shiftl_mul_pow2 by lia.
  change (2 ^ 12) with 4096. change (2 ^ 10) with 1024. apply u64_small. dlia.
Qed.

Lemma lor_add_low k f :
  0 ≤ f < 1024 → Z.lor (k * 1024) f = k * 1024 + f.
Proof.
  intros Hf. symmetry. change 1024 with (2 ^ 10).
  rewrite <-(Z.shiftl_mul_pow2 k 10) by lia.
  rewrite Z.add_nocarry_lxor, Z.lxor_lor; try done.
  all: apply Z.bits_inj_iff; intros j; rewrite Z.land_spec, Z.testbit_0_l;
    destruct (Z.lt_ge_cases j 10).
  1,3: by rewrite Z.shiftl_spec_low.
  all: rewrite <-(Z.mod_small f (2 ^ 10)) by lia;
    rewrite Z.mod_pow2_bits_high by lia; apply andb_false_r.
Qed.

(** Building an entry and reading it back. *)
Section entry.
Context (pa f : Z).
Hypothesis Hpa : paddr pa.
Hypothesis Hf : 0 ≤ f < 1024.

Lemma pte_make_eq : Z.lor (PA2PTE pa) f = pa / 4096 * 1024 + f.
Proof. rewrite PA2PTE_eq by done. by apply lor_add_low. Qed.

Lemma pte_make_range : 0 ≤ Z.lor (PA2PTE pa) f < 2 ^ 64.
Proof. rewrite pte_make_eq. destruct Hpa. dlia. Qed.

Lemma PTE2PA_make : PTE2PA (Z.lor (PA2PTE pa) f) = pa.
Proof.
  rewrite pte_make_eq. unfold PTE2PA. destruct Hpa as [Ha ?].
  rewrite Z.shiftr_div_pow2, Z.shiftl_mul_pow2 by lia. unfold PGSIZE in Ha.
  change (2 ^ 12) with 4096. change (2 ^ 10) with 1024.
  rewrite Z.div_add_l, (Z.div_small f) by lia. rewrite u64_small; dlia.
Qed.

Lemma PTE_FLAGS_make : PTE_FLAGS (Z.lor (PA2PTE pa) f) = f.
Proof.
  rewrite pte_make_eq. unfold PTE_FLAGS.
  replace 0x3FF with (Z.ones 10) by reflexivity. rewrite Z.land_ones by lia.
  change (2 ^ 10) with 1024. rewrite Z.add_comm, Z_mod_plus_full. by apply Z.mod_small.
Qed.

Lemma testbit_make i : 0 ≤ i < 10 → Z.testbit (Z.lor (PA2PTE pa) f) i = Z.testbit f i.
Proof.
  intros. rewrite Z.lor_spec, PA2PTE_eq by done.
  change 1024 with (2 ^ 10). by rewrite Z.mul_pow2_bits_low by lia.
Qed.
End entry.

Lemma PTE_FLAGS_range pte : 0 ≤ PTE_FLAGS pte < 1024.
Proof.
  unfold PTE_FLAGS. replace 0x3FF with (Z.ones 10) by reflexivity.
  rewrite Z.land_ones by lia. change (2 ^ 10) with 1024. dlia.
Qed.

Lemma testbit_FLAGS pte i : 0 ≤ i < 10 → Z.testbit (PTE_FLAGS pte) i = Z.testbit pte i.
Proof.
  intros. unfold PTE_FLAGS. replace 0x3FF with (Z.ones 10) by reflexivity.
  rewrite Z.land_spec, Z.testbit_ones by lia.
  replace (_ && (i <? 10)) with true; [apply andb_true_r|].
  symmetry. apply andb_true_intro. split; [apply Z.leb_le|apply Z.ltb_lt]; lia.
Qed.

Lemma PTE2PA_aligned pte : PTE2PA pte mod PGSIZE = 0.
Proof.
  unfold PTE2PA, u64. rewrite Z.shiftl_mul_pow2 by lia. unfold PGSIZE.
  change (2 ^ 12) with 4096. dlia.
Qed.

(** ** Flag computations

    A property of the ten flag bits is checked on all their values. *)

Lemma flags_forall (P : Z → bool) :
  forallb P (seqZ 0 1024) = true → ∀ f, 0 ≤ f < 1024 → P f = true.
Proof.
  intros HP f Hf. rewrite forallb_forall in HP. apply HP.
  apply list_elem_of_In, elem_of_seqZ. lia.
Qed.

(** The flags [uvmcopy] gives to a writable page, and those [cowfault] gives. *)
Definition share_flags (f : Z) : Z := Z.lor (Z.land f (Z.lnot PTE_W)) PTE_COW.
Definition cow_flags (f : Z) : Z := Z.land (Z.lor f PTE_W) (Z.lnot PTE_COW).

Definition in_flags (f : Z) : bool := (0 <=? f) && (f <? 1024).
Definition same_bits (f f' : Z) (l : list Z) : bool :=
  forallb (λ i, Bool.eqb (Z.testbit f i) (Z.testbit f' i)) l.

Lemma share_flags_spec f :
  0 ≤ f < 1024 → 0 ≤ share_flags f < 1024 ∧
  Z.testbit (share_flags f) 0 = Z.testbit f 0 ∧ Z.testbit (share_flags f) 4 = Z.testbit f 4 ∧
  Z.testbit (share_flags f) 2 = false ∧ Z.testbit (share_flags f) 8 = true.
Proof.
  intros Hf. assert (H := flags_forall (λ f, in_flags (share_flags f) &&
    same_bits (share_flags f) f [0; 4] && negb (Z.testbit (share_flags f) 2) &&
    Z.testbit (share_flags f) 8) ltac:(by vm_compute) f Hf).
  unfold in_flags, same_bits in H. cbn [forallb] in H. breflect.
  repeat match goal with E : Bool.eqb _ _ = true |- _ => apply eqb_prop in E end. auto.
Qed.

Lemma cow_flags_spec f :
  0 ≤ f < 1024 → 0 ≤ cow_flags f < 1024 ∧
  Z.testbit (cow_flags f) 0 = Z.testbit f 0 ∧ Z.testbit (cow_flags f) 4 = Z.testbit f 4 ∧
  Z.testbit (cow_flags f) 2 = true ∧ Z.testbit (cow_flags f) 8 = false.
Proof.
  intros Hf. assert (H := flags_forall (λ f, in_flags (cow_flags f) &&
    same_bits (cow_flags f) f [0; 4] && Z.testbit (cow_flags f) 2 &&
    negb (Z.testbit (cow_flags f) 8)) ltac:(by vm_compute) f Hf).
  unfold in_flags, same_bits in H. cbn [forallb] in H. breflect.
  repeat match goal with E : Bool.eqb _ _ = true |- _ => apply eqb_prop in E end. auto.
Qed.
