(* ===== verification/Memory.v ===== *)
(** * Byte-addressed memory and the routines of kernel/string.c

    Memory is a function from addresses to bytes.  The first part defines the
    typed accesses that compiled C performs (little-endian words of 2, 4 and 8
    bytes).  The second part translates the loops of [string.c], and shows
    that [memset] and [memmove] are the simultaneous updates [fill] and [copy]
    (also when the ranges of [memmove] overlap), so that the other components
    are modelled with [fill] and [copy]. *)

From S2P Require Import Prelude.
From Stdlib Require Import FunctionalExtensionality.

Definition memory : Type := Z → Z.

(** Every cell holds a byte. *)
Definition bytes_ok (m : memory) : Prop := ∀ a, 0 ≤ m a < 256.

Definition upd (m : memory) (a v : Z) : memory := λ x, if x =? a then v else m x.

(** Byte [k] of an integer. *)
Definition byte_at (v k : Z) : Z := (v / 2 ^ (8 * k)) mod 256.

Fixpoint load_le (n : nat) (m : memory) (a : Z) : Z :=
  match n with
  | O => 0
  | S n' => m a + 256 * load_le n' m (a + 1)
  end.

Definition store_le (n : nat) (m : memory) (a v : Z) : memory :=
  λ x, if (a <=? x) && (x <? a + Z.of_nat n) then byte_at v (x - a) else m x.

Definition load64 : memory → Z → Z := load_le 8.
Definition store64 : memory → Z → Z → memory := store_le 8.
Definition load32 : memory → Z → Z := load_le 4.
Definition store32 : memory → Z → Z → memory := store_le 4.
Definition load16 : memory → Z → Z := load_le 2.
Definition store16 : memory → Z → Z → memory := store_le 2.

(** [n] bytes at [a] set to [c]; [n] bytes at [d] replaced by those at [s]. *)
Definition fill (m : memory) (a c n : Z) : memory :=
  λ x, if (a <=? x) && (x <? a + n) then c mod 256 else m x.
Definition copy (m : memory) (d s n : Z) : memory :=
  λ x, if (d <=? x) && (x <? d + n) then m (s + (x - d)) else m x.

(** ** string.c *)

Fixpoint memset_loop (n : nat) (i : Z) (m : memory) (dst c : Z) : memory :=
  match n with
  | O => m
  | S n' => memset_loop n' (i + 1) (upd m (dst + i) (c mod 256)) dst c
  end.
Definition memset (m : memory) (dst c n : Z) : memory :=
  memset_loop (Z.to_nat n) 0 m dst c.

Fixpoint memcmp_loop (n : nat) (m : memory) (s1 s2 : Z) : Z :=
  match n with
  | O => 0
  | S n' => if negb (m s1 =? m s2) then m s1 - m s2
            else memcmp_loop n' m (s1 + 1) (s2 + 1)
  end.
Definition memcmp (m : memory) (v1 v2 n : Z) : Z := memcmp_loop (Z.to_nat n) m v1 v2.

Fixpoint memmove_up (n : nat) (m : memory) (d s : Z) : memory :=
  match n with
  | O => m
  | S n' => memmove_up n' (upd m d (m s)) (d + 1) (s + 1)
  end.
Fixpoint memmove_down (n : nat) (m : memory) (d s : Z) : memory :=
  match n with
  | O => m
  | S n' => memmove_down n' (upd m (d - 1) (m (s - 1))) (d - 1) (s - 1)
  end.
Definition memmove (m : memory) (dst src n : Z) : memory :=
  if n =? 0 then m
  else if (src <? dst) && (dst <? src + n)
  then memmove_down (Z.to_nat n) m (dst + n) (src + n)
  else memmove_up (Z.to_nat n) m dst src.

Definition memcpy (m : memory) (dst src n : Z) : memory := memmove m dst src n.

Fixpoint strncmp_loop (n : nat) (m : memory) (p q : Z) : Z :=
  match n with
  | O => 0
  | S n' => if negb (m p =? 0) && (m p =? m q) then strncmp_loop n' m (p + 1) (q + 1)
            else m p - m q
  end.
Definition strncmp (m : memory) (p q n : Z) : Z := strncmp_loop (Z.to_nat n) m p q.

(** The second loop of [strncpy], which pads with zeros. *)
Fixpoint strncpy_pad (n : nat) (m : memory) (s : Z) : memory :=
  match n with
  | O => m
  | S n' => strncpy_pad n' (upd m s 0) (s + 1)
  end.
Fixpoint strncpy_loop (n : nat) (m : memory) (s t : Z) : memory :=
  match n with
  | O => m
  | S n' => let c := m t in
            let m' := upd m s c in
            if negb (c =? 0) then strncpy_loop n' m' (s + 1) (t + 1)
            else strncpy_pad n' m' (s + 1)
  end.
Definition strncpy (m : memory) (s t n : Z) : memory := strncpy_loop (Z.to_nat n) m s t.

(** [n] counts the characters that may still be copied before the final NUL. *)
Fixpoint safestrcpy_loop (n : nat) (m : memory) (s t : Z) : memory :=
  match n with
  | O => upd m s 0
  | S n' => let c := m t in
            let m' := upd m s c in
            if negb (c =? 0) then safestrcpy_loop n' m' (s + 1) (t + 1)
            else upd m' (s + 1) 0
  end.
Definition safestrcpy (m : memory) (s t n : Z) : memory :=
  if n <=? 0 then m else safestrcpy_loop (Z.to_nat (n - 1)) m s t.

(** [strlen] scans for a NUL; [fuel] bounds the scan. *)
Fixpoint strlen_loop (fuel : nat) (m : memory) (s n : Z) : option Z :=
  match fuel with
  | O => None
  | S fuel' => if m (s + n) =? 0 then Some n else strlen_loop fuel' m s (n + 1)
  end.
Definition strlen (fuel : nat) (m : memory) (s : Z) : option Z := strlen_loop fuel m s 0.

(** ** Memories are compared pointwise *)

Lemma mem_ext (m m' : memory) : (∀ a, m a = m' a) → m = m'.
Proof. intros. by apply functional_extensionality. Qed.

Ltac mem_cases :=
  repeat match goal with
  | |- context [if ?b then _ else _] => let E := fresh "E" in destruct b eqn:E
  end;
  repeat match goal with
  | H : (_ && _) = false |- _ => apply andb_false_iff in H; destruct H
  end; breflect.

(** ** Typed accesses *)

Lemma load_le_ext n m m' a :
  (∀ x, a ≤ x < a + Z.of_nat n → m x = m' x) → load_le n m a = load_le n m' a.
Proof.
  revert a. induction n as [|n IH]; intros a H; simpl; [done|].
  rewrite H by lia. f_equal. f_equal. apply IH. intros. apply H. lia.
Qed.

Lemma load_le_range n m a :
  bytes_ok m → 0 ≤ load_le n m a < 2 ^ (8 * Z.of_nat n).
Proof.
  intros Hm. revert a. induction n as [|n IH]; intros a; simpl; [lia|].
  specialize (IH (a + 1)). specialize (Hm a).
  replace (8 * Z.of_nat (S n)) with (8 * Z.of_nat n + 8) by lia.
  rewrite Z.pow_add_r by lia. change (2 ^ 8) with 256. lia.
Qed.

Lemma byte_at_range v k : 0 ≤ byte_at v k < 256.
Proof. unfold byte_at. dlia. Qed.

Lemma byte_at_div v k : 0 ≤ k → byte_at (v / 256) k = byte_at v (k + 1).
Proof.
  intros. unfold byte_at. replace (8 * (k + 1)) with (8 + 8 * k) by lia.
  rewrite Z.pow_add_r by lia. change (2 ^ 8) with 256.
  rewrite Z.div_div by lia. done.
Qed.

Lemma load_le_bytes n m a v :
  (∀ k, 0 ≤ k < Z.of_nat n → m (a + k) = byte_at v k) →
  load_le n m a = v mod 2 ^ (8 * Z.of_nat n).
Proof.
  revert a v. induction n as [|n IH]; intros a v H.
  - simpl. by rewrite Z.mod_1_r.
  - cbn [load_le]. rewrite (IH (a + 1) (v / 256)).
    + specialize (H 0 ltac:(lia)). rewrite Z.add_0_r in H. rewrite H.
      unfold byte_at. rewrite Z.mul_0_r, Z.div_1_r.
      replace (8 * Z.of_nat (S n)) with (8 + 8 * Z.of_nat n) by lia.
      rewrite Z.pow_add_r by lia. change (2 ^ 8) with 256.
      rewrite Z.rem_mul_r by lia. lia.
    + intros k Hk. rewrite byte_at_div by lia.
      replace (a + 1 + k) with (a + (k + 1)) by lia. apply H. lia.
Qed.

Lemma load_store_same n m a v :
  0 ≤ v < 2 ^ (8 * Z.of_nat n) → load_le n (store_le n m a v) a = v.
Proof.
  intros Hv. erewrite load_le_bytes; [by apply Z.mod_small|].
  intros k Hk. unfold store_le. mem_cases; [f_equal; lia|lia|lia].
Qed.

Lemma load_store_other n n' m a b v :
  b + Z.of_nat n ≤ a ∨ a + Z.of_nat n' ≤ b →
  load_le n (store_le n' m a v) b = load_le n m b.
Proof.
  intros. apply load_le_ext. intros. unfold store_le. mem_cases; [lia|done|done].
Qed.

Lemma load_fill_other n m a c len b :
  b + Z.of_nat n ≤ a ∨ a + len ≤ b → load_le n (fill m a c len) b = load_le n m b.
Proof.
  intros. apply load_le_ext. intros. unfold fill. mem_cases; [lia|done|done].
Qed.

Lemma load_copy_other n m d s len b :
  b + Z.of_nat n ≤ d ∨ d + len ≤ b → load_le n (copy m d s len) b = load_le n m b.
Proof.
  intros. apply load_le_ext. intros. unfold copy. mem_cases; [lia|done|done].
Qed.

Lemma load_fill_zero n m a len b :
  a ≤ b → b + Z.of_nat n ≤ a + len → load_le n (fill m a 0 len) b = 0.
Proof.
  intros. rewrite (load_le_bytes _ _ _ 0); [by rewrite Zmod_0_l|].
  intros k Hk. unfold fill, byte_at. rewrite Z.div_0_l by (apply Z.pow_nonzero; lia).
  mem_cases; [done|lia|lia].
Qed.

Lemma bytes_ok_store n m a v : bytes_ok m → bytes_ok (store_le n m a v).
Proof. intros H x. unfold store_le. mem_cases; auto using byte_at_range. Qed.
Lemma bytes_ok_fill m a c n : bytes_ok m → bytes_ok (fill m a c n).
Proof. intros H x. unfold fill. mem_cases; [dlia|done|done]. Qed.
Lemma bytes_ok_copy m d s n : bytes_ok m → bytes_ok (copy m d s n).
Proof. intros H x. unfold copy. mem_cases; auto. Qed.
Lemma bytes_ok_upd m a v : bytes_ok m → 0 ≤ v < 256 → bytes_ok (upd m a v).
Proof. intros H Hv x. unfold upd. mem_cases; auto. Qed.
Lemma bytes_ok_store64 m a v : bytes_ok m → bytes_ok (store64 m a v).
Proof. apply bytes_ok_store. Qed.
#[export] Hint Resolve bytes_ok_store64 bytes_ok_store bytes_ok_fill bytes_ok_copy : xv6.

(** ** The loops of string.c *)

Lemma memset_loop_fill n : ∀ i m dst c,
  memset_loop n i m dst c = fill m (dst + i) c (Z.of_nat n).
Proof.
  induction n as [|n IH]; intros i m dst c; apply mem_ext; intros x; cbn [memset_loop].
  - unfold fill. mem_cases; [lia|done|done].
  - rewrite IH. unfold fill, upd. mem_cases; try done; lia.
Qed.

Lemma memmove_up_copy n : ∀ m d s,
  d ≤ s ∨ s + Z.of_nat n ≤ d → memmove_up n m d s = copy m d s (Z.of_nat n).
Proof.
  induction n as [|n IH]; intros m d s H; apply mem_ext; intros x; cbn [memmove_up].
  - unfold copy. mem_cases; [lia|done|done].
  - rewrite IH by lia. unfold copy, upd. mem_cases; try done; try lia; f_equal; lia.
Qed.

Lemma memmove_down_copy n : ∀ m d s,
  s ≤ d → memmove_down n m d s = copy m (d - Z.of_nat n) (s - Z.of_nat n) (Z.of_nat n).
Proof.
  induction n as [|n IH]; intros m d s H; apply mem_ext; intros x; cbn [memmove_down].
  - unfold copy. mem_cases; [lia|done|done].
  - rewrite IH by lia. unfold copy, upd. mem_cases; try done; try lia; f_equal; lia.
Qed.

Lemma strncpy_pad_fill n : ∀ m s, strncpy_pad n m s = fill m s 0 (Z.of_nat n).
Proof.
  induction n as [|n IH]; intros m s; apply mem_ext; intros x; cbn [strncpy_pad].
  - unfold fill. mem_cases; [lia|done|done].
  - rewrite IH. unfold fill, upd. mem_cases; try done; lia.
Qed.

(** [memset] writes the low byte of its argument to exactly the requested
    range: the byte loop of string.c is the range update [fill]. *)
Lemma memset_fill (m : memory) (dst c n : Z) :
  0 ≤ n → memset m dst c n = fill m dst c n.
Proof.
  intros. unfold memset. rewrite memset_loop_fill. f_equal; lia.
Qed.

(** [memmove] copies the bytes that the source range held before the
    call, whatever the overlap of the two ranges: the choice between the
    ascending and the descending loop is right. *)
Lemma memmove_copy (m : memory) (dst src n : Z) :
  0 ≤ n → memmove m dst src n = copy m dst src n.
Proof.
  intros. unfold memmove. destruct (Z.eqb_spec n 0) as [->|].
  { apply mem_ext; intros x. unfold copy. mem_cases; [lia|done|done]. }
  mem_cases.
  - rewrite memmove_down_copy by lia. f_equal; lia.
  - rewrite memmove_up_copy by lia. f_equal; lia.
  - rewrite memmove_up_copy by lia. f_equal; lia.
Qed.
