(* ===== verification/Kalloc.v ===== *)
(** * The physical page allocator, kernel/kalloc.c

    [kmem] is the state of the allocator together with the physical memory it
    hands out: the free list is threaded through the free pages themselves
    ([struct run]), and [refcount] counts the references to each page.  The counts
    are ints in C and integers here: a page has at most as many references as
    there are page-table entries in the memory, fewer than 2^24.
    Locking: [kmem.lock] is a flag; acquiring it twice on a CPU panics as in
    spinlock.c, and each routine is one critical section. *)

From S2P Require Import Prelude Riscv Memory.

Record kmem := mkKmem {
  mem : memory;          (** physical memory *)
  klock : bool;          (** kmem.lock *)
  freelist : Z;          (** kmem.freelist, 0 when empty *)
  refcount : Z → Z;      (** refcount[], indexed by page number *)
}.

Definition set_mem (m : memory) (s : kmem) : kmem :=
  mkKmem m (klock s) (freelist s) (refcount s).
Definition set_klock (b : bool) (s : kmem) : kmem :=
  mkKmem (mem s) b (freelist s) (refcount s).
Definition set_freelist (p : Z) (s : kmem) : kmem :=
  mkKmem (mem s) (klock s) p (refcount s).
Definition set_refcount (index n : Z) (s : kmem) : kmem :=
  mkKmem (mem s) (klock s) (freelist s) (<[index := n]> (refcount s)).

Definition acquire_kmem : M kmem unit :=
  l ← gets klock; if l : bool then panic "acquire" else modify (set_klock true).
Definition release_kmem : M kmem unit :=
  l ← gets klock; if l : bool then modify (set_klock false) else panic "release".

(** Writes to physical memory. *)
Definition kmemset (dst c n : Z) : M kmem unit :=
  modify (λ s, set_mem (fill (mem s) dst c n) s).
Definition kmemmove (dst src n : Z) : M kmem unit :=
  modify (λ s, set_mem (copy (mem s) dst src n) s).
Definition write64 (a v : Z) : M kmem unit :=
  modify (λ s, set_mem (store64 (mem s) a v) s).
Definition read64 (a : Z) : M kmem Z := gets (λ s, load64 (mem s) a).

Section kalloc.
Context `{Layout}.

(** The check at the head of [kfree], [kaddref] and [kgetref]. *)
Definition bad_page (pa : Z) : bool :=
  negb (pa mod PGSIZE =? 0) || (pa <? kend) || (PHYSTOP <=? pa).

Definition kfree (pa : Z) : M kmem unit :=
  if bad_page pa then panic "kfree" else
  let index := pa / PGSIZE in
  acquire_kmem ;;
  c ← gets (λ s, refcount s index);
  if c <? 1 then panic "kfree refcount" else
  modify (set_refcount index (c - 1)) ;;
  c ← gets (λ s, refcount s index);
  if 0 <? c then release_kmem else
  kmemset pa 1 PGSIZE ;;
  head ← gets freelist;
  write64 pa head ;;
  modify (set_freelist pa) ;;
  release_kmem.

Definition kalloc : M kmem Z :=
  acquire_kmem ;;
  r ← gets freelist;
  when (negb (r =? 0))
    (next ← read64 r;
     modify (set_freelist next) ;;
     modify (set_refcount (r / PGSIZE) 1)) ;;
  release_kmem ;;
  when (negb (r =? 0)) (kmemset r 5 PGSIZE) ;;
  mret r.

Definition kaddref (pa : Z) : M kmem unit :=
  let index := pa / PGSIZE in
  if bad_page pa then panic "kaddref" else
  acquire_kmem ;;
  c ← gets (λ s, refcount s index);
  if c <? 1 then panic "kaddref refcount" else
  modify (set_refcount index (c + 1)) ;;
  release_kmem.

Definition kgetref (pa : Z) : M kmem Z :=
  let index := pa / PGSIZE in
  if bad_page pa then panic "kgetref" else
  acquire_kmem ;;
  count ← gets (λ s, refcount s index);
  release_kmem ;;
  mret count.

(** Number of iterations of a loop over whole pages from [a] up to [stop]. *)
Definition pages_between (a stop : Z) : nat := Z.to_nat ((stop - a) / PGSIZE).

Definition freerange (pa_start pa_end : Z) : M kmem unit :=
  let p := PGROUNDUP pa_start in
  for_up (pages_between p pa_end) p PGSIZE kfree.

Definition kinit : M kmem unit :=
  modify (set_klock false) ;;
  let pa := PGROUNDUP kend in
  for_up (pages_between pa PHYSTOP) pa PGSIZE
    (λ pa, modify (set_refcount (pa / PGSIZE) 1)) ;;
  freerange kend PHYSTOP.

(** ** The invariant of the allocator

    [fl] is the list of free pages, in the order of the free list. *)

Definition page_ok (p : Z) : Prop := p mod PGSIZE = 0 ∧ kend ≤ p ∧ p < PHYSTOP.

Fixpoint chain (m : memory) (p : Z) (l : list Z) : Prop :=
  match l with
  | [] => p = 0
  | q :: l' => p = q ∧ chain m (load64 m q) l'
  end.

Record kinv (fl : list Z) (s : kmem) : Prop := {
  ki_lock : klock s = false;
  ki_bytes : bytes_ok (mem s);
  ki_chain : chain (mem s) (freelist s) fl;
  ki_nodup : NoDup fl;
  ki_pages : Forall page_ok fl;
  ki_free p : page_ok p → p ∈ fl ↔ refcount s (p / PGSIZE) = 0;
  ki_nonneg p : page_ok p → 0 ≤ refcount s (p / PGSIZE);
}.

(** ** Pages *)

Context `{!LayoutOk}.

Lemma kend_pos : KERNBASE ≤ kend.
Proof. pose proof etext_range. lia. Qed.

Lemma page_ok_pos p : page_ok p → 0 < p.
Proof.
  intros (_ & ? & _). pose proof kend_pos. unfold KERNBASE in *. lia.
Qed.

Lemma page_ok_paddr p : page_ok p → paddr p.
Proof.
  intros Hp. pose proof (page_ok_pos p Hp). destruct Hp as (? & ? & ?). split; [done|].
  assert (PHYSTOP < 2 ^ 56) by reflexivity. lia.
Qed.

Lemma bad_page_false p : page_ok p → bad_page p = false.
Proof.
  intros (H1 & ? & ?). unfold bad_page. rewrite H1. simpl.
  apply orb_false_intro; [apply Z.ltb_ge|apply Z.leb_gt]; lia.
Qed.

Lemma page_eq_index p q : page_ok p → page_ok q → p / PGSIZE = q / PGSIZE → p = q.
Proof. unfold page_ok, PGSIZE. intros (? & _) (? & _) ?. dlia. Qed.

(** Distinct pages do not overlap. *)
Lemma page_disjoint p q : page_ok p → page_ok q → p ≠ q → p + PGSIZE ≤ q ∨ q + PGSIZE ≤ p.
Proof. unfold page_ok, PGSIZE. intros (? & _) (? & _) ?. dlia. Qed.

(** ** Chains *)

Lemma chain_frame m m' p l :
  chain m p l → (∀ q, q ∈ l → load64 m' q = load64 m q) → chain m' p l.
Proof.
  revert p. induction l as [|q l IH]; intros p; simpl; [done|].
  intros [-> Hc] Hm. split; [done|]. rewrite Hm by set_solver.
  apply IH; [done|]. intros. apply Hm. set_solver.
Qed.

Lemma chain_frame_page m m' p l pg :
  chain m p l → Forall page_ok l → page_ok pg → pg ∉ l →
  (∀ x, x < pg ∨ pg + PGSIZE ≤ x → m' x = m x) → chain m' p l.
Proof.
  intros Hc Hl Hpg Hn Hm. eapply chain_frame; [done|]. intros q Hq.
  rewrite Forall_forall in Hl. specialize (Hl q Hq).
  destruct (page_disjoint q pg) as [?|?]; [done..|set_solver| |];
    apply load_le_ext; intros x Hx; apply Hm; unfold PGSIZE in *; lia.
Qed.

(** ** Runs of the routines

    The state after each routine, for a page the caller may name. *)

Definition alloc_state (p : Z) (s : kmem) : kmem :=
  mkKmem (fill (mem s) p 5 PGSIZE) false (load64 (mem s) p)
         (<[p / PGSIZE := 1]> (refcount s)).
Definition free_state (p : Z) (s : kmem) : kmem :=
  mkKmem (store64 (fill (mem s) p 1 PGSIZE) p (freelist s)) false p
         (<[p / PGSIZE := 0]> (refcount s)).
Definition kfree_state (p : Z) (s : kmem) : kmem :=
  let c := refcount s (p / PGSIZE) in
  if c =? 1 then free_state p s else set_refcount (p / PGSIZE) (c - 1) s.

Lemma kmem_unlocked s : klock s = false → set_klock false s = s.
Proof. by destruct s; simpl; intros ->. Qed.

#[local] Ltac krun :=
  unfold acquire_kmem, release_kmem, kmemset, write64, read64, set_refcount, set_klock,
    set_freelist, set_mem; munfold;
  cbn -[Z.ltb Z.div Z.eqb fill store64 load64 insert Z.sub].

Lemma kfree_run s p :
  klock s = false → page_ok p → 1 ≤ refcount s (p / PGSIZE) →
  kfree p s = Ok (tt, kfree_state p s).
Proof.
  intros Hl Hp Hc. destruct s as [m l f r]; simpl in *; subst l.
  unfold kfree, kfree_state, free_state. rewrite bad_page_false by done.
  krun.
  destruct (Z.ltb_spec (r (p / PGSIZE)) 1) as [?|_]; [lia|].
  cbn -[Z.ltb Z.div Z.eqb fill store64 insert Z.sub]. rewrite fn_lookup_insert.
  destruct (Z.eqb_spec (r (p / PGSIZE)) 1) as [->|].
  - destruct (Z.ltb_spec 0 (1 - 1)); [lia|]. done.
  - destruct (Z.ltb_spec 0 (r (p / PGSIZE) - 1)); [done|lia].
Qed.

Lemma kalloc_run_empty s : klock s = false → freelist s = 0 → kalloc s = Ok (0, s).
Proof. intros. destruct s as [m l f r]; simpl in *; by subst. Qed.

Lemma kalloc_run s :
  klock s = false → freelist s ≠ 0 →
  kalloc s = Ok (freelist s, alloc_state (freelist s) s).
Proof.
  intros Hl Hf. destruct s as [m l f r]; simpl in *; subst l. unfold kalloc, alloc_state.
  krun.
  destruct (Z.eqb_spec f 0); [done|]. done.
Qed.

Lemma kaddref_run s p :
  klock s = false → page_ok p → 1 ≤ refcount s (p / PGSIZE) →
  kaddref p s = Ok (tt, set_refcount (p / PGSIZE) (refcount s (p / PGSIZE) + 1) s).
Proof.
  intros Hl Hp Hc. destruct s as [m l f r]; simpl in *; subst l.
  unfold kaddref. rewrite bad_page_false by done. krun.
  destruct (Z.ltb_spec (r (p / PGSIZE)) 1); [lia|done].
Qed.

Lemma kgetref_run s p :
  klock s = false → page_ok p → kgetref p s = Ok (refcount s (p / PGSIZE), s).
Proof.
  intros Hl Hp. destruct s as [m l f r]; simpl in *; subst l.
  unfold kgetref. rewrite bad_page_false by done. krun. done.
Qed.

(** ** Preservation of the invariant *)

Lemma refcount_set_other s p q n :
  page_ok p → page_ok q → p ≠ q →
  refcount (set_refcount (p / PGSIZE) n s) (q / PGSIZE) = refcount s (q / PGSIZE).
Proof.
  intros. simpl. apply fn_lookup_insert_ne. intros ?%page_eq_index; done.
Qed.

Lemma kinv_set_refcount fl s p n :
  kinv fl s → page_ok p → p ∉ fl → 1 ≤ n → kinv fl (set_refcount (p / PGSIZE) n s).
Proof.
  intros [] Hp Hfl Hn. split; try done; intros q Hq;
    (destruct (decide (p = q)) as [<-|];
      [simpl; rewrite fn_lookup_insert|rewrite refcount_set_other by done; auto]); [|lia].
  split; [done|lia].
Qed.

Lemma kinv_alloc p fl s : kinv (p :: fl) s → kinv fl (alloc_state p s).
Proof.
  intros [? ? Hc Hnd Hpg Hfree Hnn]. destruct Hc as [Hhd Hc].
  apply NoDup_cons in Hnd as [Hp Hnd]. apply Forall_cons in Hpg as [Hpp Hpg].
  split; simpl; auto with xv6.
  - eapply chain_frame_page; [done..|]. intros x Hx. unfold fill. mem_cases; [lia|done|done].
  - intros q Hq. destruct (decide (p = q)) as [<-|Hne].
    + rewrite fn_lookup_insert. split; [done|lia].
    + rewrite fn_lookup_insert_ne by (intros ?%page_eq_index; done).
      rewrite <-Hfree by done. rewrite elem_of_cons. intuition congruence.
  - intros q Hq. destruct (decide (p = q)) as [<-|Hne].
    + rewrite fn_lookup_insert. lia.
    + rewrite fn_lookup_insert_ne by (intros ?%page_eq_index; done). auto.
Qed.

Lemma kinv_free p fl s :
  kinv fl s → page_ok p → 1 ≤ refcount s (p / PGSIZE) → kinv (p :: fl) (free_state p s).
Proof.
  intros [? ? Hc Hnd Hpg Hfree Hnn] Hp Hrc.
  assert (p ∉ fl) as Hpfl by (rewrite Hfree by done; lia).
  pose proof (page_ok_pos p Hp) as Hpos.
  assert (0 ≤ freelist s < 2 ^ 64) as Hfl.
  { destruct fl as [|q fl]; simpl in Hc; [lia|]. destruct Hc as [-> _].
    apply Forall_cons in Hpg as [Hq _]. pose proof (page_ok_pos q Hq).
    destruct Hq as (_ & _ & ?). assert (PHYSTOP < 2 ^ 64) by reflexivity. lia. }
  split; simpl; auto with xv6.
  - split; [done|]. unfold load64, store64. rewrite load_store_same by exact Hfl.
    eapply chain_frame_page; [done..|]. intros x Hx. unfold store_le, fill, PGSIZE in *.
    mem_cases; done || lia.
  - by constructor.
  - intros q Hq. destruct (decide (p = q)) as [<-|Hne].
    + rewrite fn_lookup_insert, elem_of_cons. intuition congruence.
    + rewrite fn_lookup_insert_ne by (intros ?%page_eq_index; done).
      rewrite <-Hfree by done. rewrite elem_of_cons. intuition congruence.
  - intros q Hq. destruct (decide (p = q)) as [<-|Hne].
    + rewrite fn_lookup_insert. lia.
    + rewrite fn_lookup_insert_ne by (intros ?%page_eq_index; done). auto.
Qed.

(** Writing outside the free pages keeps the allocator's invariant. *)
Lemma kinv_set_mem fl s m' :
  kinv fl s → bytes_ok m' → (∀ q, q ∈ fl → load64 m' q = load64 (mem s) q) →
  kinv fl (set_mem m' s).
Proof. intros [] ? ?. split; simpl; eauto using chain_frame. Qed.

(** ** The allocator as a set of free pages and a count per page *)

(** What the allocator promises, on the free pages and the counts of the pages
    in use: [None] is a call the allocator refuses. *)
Record astate := mkA { afree : list Z; acount : Z → Z }.

Definition a_alloc (a : astate) : Z * astate :=
  match afree a with
  | [] => (0, a)
  | p :: fl => (p, mkA fl (<[p := 1]> (acount a)))
  end.
Definition a_free (p : Z) (a : astate) : option astate :=
  if bad_page p || (acount a p <? 1) then None
  else if acount a p =? 1 then Some (mkA (p :: afree a) (<[p := 0]> (acount a)))
  else Some (mkA (afree a) (<[p := acount a p - 1]> (acount a))).
Definition a_addref (p : Z) (a : astate) : option astate :=
  if bad_page p || (acount a p <? 1) then None
  else Some (mkA (afree a) (<[p := acount a p + 1]> (acount a))).

(** The state of kalloc.c represents [a]. *)
Definition represents (a : astate) (s : kmem) : Prop :=
  kinv (afree a) s ∧ ∀ p, page_ok p → acount a p = refcount s (p / PGSIZE).

(** The pages other than [p] keep their contents. *)
Definition only_page (p : Z) (s s' : kmem) : Prop :=
  ∀ x, x < p ∨ p + PGSIZE ≤ x → mem s' x = mem s x.

Lemma bad_page_spec p : bad_page p = false ↔ page_ok p.
Proof.
  split; [|apply bad_page_false]. unfold bad_page, page_ok. intros Hb.
  apply orb_false_iff in Hb as [[E%negb_false_iff ?]%orb_false_iff ?]. breflect. done.
Qed.

Lemma represents_update a fl s' p n :
  kinv fl s' → page_ok p → refcount s' (p / PGSIZE) = n →
  (∀ q, page_ok q → q ≠ p → acount a q = refcount s' (q / PGSIZE)) →
  represents (mkA fl (<[p := n]> (acount a))) s'.
Proof. intros K Hp Hn Hq. split; [done|]. intros q Hqp. simpl. fn_case p q; auto. Qed.

Lemma refcount_other (f : Z → Z) p q n :
  page_ok p → page_ok q → q ≠ p → <[p / PGSIZE := n]> f (q / PGSIZE) = f (q / PGSIZE).
Proof. intros. apply fn_lookup_insert_ne. intros ?%page_eq_index; congruence. Qed.

Lemma free_state_only p s : only_page p s (free_state p s).
Proof. intros x Hx. simpl. unfold store64, store_le, fill, PGSIZE in *. mem_cases; done || lia. Qed.

Lemma panic_locked {A} (k : unit → M kmem A) s msg :
  klock s = false → k tt (set_klock true s) = Panic msg → (acquire_kmem ≫= k) s = Panic msg.
Proof. intros Hl Hk. unfold acquire_kmem. munfold. by rewrite Hl. Qed.

(** The page arithmetic of [freerange] and of the loop of [kinit]. *)
Definition npages : nat := pages_between (PGROUNDUP kend) PHYSTOP.

Lemma freerange_page k :
  (k < npages)%nat → page_ok (PGROUNDUP kend + Z.of_nat k * PGSIZE).
Proof.
  pose proof kend_pos. pose proof kend_range. intros Hk. unfold npages, pages_between, page_ok in *.
  destruct (PGROUNDUP_spec kend) as [? ?]; [unfold KERNBASE in *; lia|unfold PHYSTOP, KERNBASE, PGSIZE in *; lia|].
  unfold PGSIZE in *. split_and!; [dlia|lia|]. change PHYSTOP with (KERNBASE + 134217728) in *. unfold KERNBASE in *. dlia.
Qed.

Lemma page_freerange p : page_ok p → ∃ k, (k < npages)%nat ∧ p = PGROUNDUP kend + Z.of_nat k * PGSIZE.
Proof.
  pose proof kend_pos. pose proof kend_range. intros (Ha & Hlo & Hhi). unfold npages, pages_between.
  destruct (PGROUNDUP_spec kend) as [? ?]; [unfold KERNBASE in *; lia|unfold PHYSTOP, KERNBASE, PGSIZE in *; lia|].
  exists (Z.to_nat ((p - PGROUNDUP kend) / PGSIZE)). change PHYSTOP with (KERNBASE + 134217728) in *.
  unfold PGSIZE, KERNBASE in *. split; dlia.
Qed.

Lemma page_index_inj i j :
  PGROUNDUP kend + Z.of_nat i * PGSIZE = PGROUNDUP kend + Z.of_nat j * PGSIZE → i = j.
Proof. unfold PGSIZE. lia. Qed.

Lemma wp_kinit s Q :
  bytes_ok (mem s) → freelist s = 0 →
  (∀ fl s', kinv fl s' → (∀ p, p ∈ fl ↔ page_ok p) → Q tt s') → wp kinit s Q.
Proof.
  intros Hb Hf HQ. unfold kinit. wp_steps.
  apply (wp_for_up (λ k s1, klock s1 = false ∧ bytes_ok (mem s1) ∧ freelist s1 = 0 ∧
    ∀ i, (i < k)%nat → refcount s1 ((PGROUNDUP kend + Z.of_nat i * PGSIZE) / PGSIZE) = 1)).
  - split_and!; try done. lia.
  - intros k s1 Hk (? & ? & ? & Hrc). wp_steps. split_and!; try done. intros i Hi. simpl.
    destruct (decide (i = k)) as [->|Hne]; [by rewrite fn_lookup_insert|].
    rewrite refcount_other; [apply Hrc; lia|by apply freerange_page|by apply freerange_page; fold npages in Hk; lia|].
    by intros ?%page_index_inj.
  - intros s1 (Hl & Hb1 & Hf1 & Hrc). unfold freerange.
    apply (wp_for_up (λ k s2, ∃ fl, kinv fl s2 ∧
      (∀ p, p ∈ fl ↔ ∃ i, (i < k)%nat ∧ p = PGROUNDUP kend + Z.of_nat i * PGSIZE) ∧
      ∀ i, (k ≤ i < npages)%nat → refcount s2 ((PGROUNDUP kend + Z.of_nat i * PGSIZE) / PGSIZE) = 1)).
    + exists []. split_and!; [split; simpl; try done; [constructor|..]| |].
      * intros p (i & Hi & ->)%page_freerange. rewrite Hrc by done. set_solver.
      * intros p (i & Hi & ->)%page_freerange. rewrite Hrc by done. lia.
      * intros p. split; [set_solver|]. intros (i & ? & _). lia.
      * intros i Hi. apply Hrc. fold npages. lia.
    + intros k s2 Hk (fl & K & Hfl & Hrc2). fold npages in Hk. pose proof (freerange_page k Hk) as Hp.
      assert (refcount s2 ((PGROUNDUP kend + Z.of_nat k * PGSIZE) / PGSIZE) = 1) as E1 by (apply Hrc2; lia).
      eapply wp_Ok; [apply kfree_run; [apply K|done|lia]|]. unfold kfree_state. rewrite E1. cbn [Z.eqb].
      eexists. split_and!; [apply kinv_free; [exact K|done|lia]|..].
      * intros q. rewrite elem_of_cons, Hfl. split.
        -- intros [->|(i & ? & ->)]; eauto with lia.
        -- intros (i & Hi & ->). destruct (decide (i = k)) as [->|]; [by left|]. right. exists i. split; [lia|done].
      * intros i Hi. simpl. rewrite refcount_other; [apply Hrc2; lia|done|apply freerange_page; lia|].
        intros ?%page_index_inj. lia.
    + intros s2 (fl & K & Hfl & _). apply (HQ fl); [done|]. intros p. rewrite Hfl. fold npages. split.
      * intros (i & Hi & ->). by apply freerange_page.
      * intros (i & Hi & ->)%page_freerange. eauto.
Qed.

(** ** The theorems *)

(** [kinit] turns arbitrary memory into a working allocator: it returns,
    and the free pages are exactly the whole pages between the end of the
    kernel and [PHYSTOP], each with count 0. *)
Lemma kinit_frees_all s :
  bytes_ok (mem s) → freelist s = 0 →
  wp kinit s (λ _ s', ∃ fl, kinv fl s' ∧ ∀ p, page_ok p → p ∈ fl ∧ refcount s' (p / PGSIZE) = 0).
Proof.
  intros Hb Hf. apply wp_kinit; [done..|]. intros fl s' K Hfl. exists fl. split; [done|].
  intros p Hp. assert (p ∈ fl) by (by apply Hfl). split; [done|]. by apply (ki_free _ _ K).
Qed.

(** [kalloc] refines [a_alloc]: it returns the first free page, which is
    not 0, is no longer free and has count 1, or 0 when no page is free; no
    other page changes. *)
Lemma kalloc_refines a s :
  represents a s →
  wp kalloc s (λ r s', r = (a_alloc a).1 ∧ represents (a_alloc a).2 s' ∧ only_page r s s' ∧
    (r = 0 ↔ afree a = []) ∧ (r ≠ 0 → page_ok r)).
Proof.
  destruct a as [fl c]. intros [K Hc]. unfold a_alloc. simpl in *. pose proof K as [Hl _ Hch _ Hpg _ _].
  destruct fl as [|p fl]; simpl in *.
  { eapply wp_Ok; [by apply kalloc_run_empty|]. unfold only_page. by split_and!. }
  destruct Hch as [Hf _]. apply Forall_cons in Hpg as [Hp _]. pose proof (page_ok_pos p Hp).
  eapply wp_Ok; [apply kalloc_run; [done|lia]|]. rewrite Hf. split_and!; try done; [|..].
  - apply (represents_update (mkA (p :: fl) c)); [by apply kinv_alloc|done|by apply fn_lookup_insert|].
    intros q Hq Hne. simpl. rewrite refcount_other by done. auto.
  - intros x Hx. simpl. unfold fill. mem_cases; done || lia.
  - split; [lia|done].
Qed.

(** C31. [kfree] refines [a_free]: it drops one reference, and the last one
    returns the page to the free list; a page outside the allocator's range
    and a page that is already free are refused by a panic, so a double free
    never corrupts the list. *)
Theorem kfree_refines a s p :
  represents a s →
  match a_free p a with
  | Some a' => wp (kfree p) s (λ _ s', represents a' s' ∧ only_page p s s' ∧
      (acount a p ≠ 1 → mem s' = mem s))
  | None => ∃ msg, kfree p s = Panic msg
  end.
Proof.
  destruct a as [fl c]. intros [K Hc]. unfold a_free. simpl in *.
  destruct (bad_page p) eqn:Hb; simpl.
  { exists "kfree"%string. unfold kfree. rewrite Hb. done. }
  apply bad_page_spec in Hb as Hp. rewrite (Hc p Hp). pose proof (ki_lock _ _ K) as Hl.
  destruct (Z.ltb_spec (refcount s (p / PGSIZE)) 1) as [Hlt|Hge].
  { exists "kfree refcount"%string. unfold kfree. rewrite Hb. apply panic_locked; [done|].
    munfold. simpl. by destruct (Z.ltb_spec (refcount s (p / PGSIZE)) 1); [|lia]. }
  pose proof (kfree_run s p Hl Hp Hge) as E. unfold kfree_state in E.
  assert (∀ q n, page_ok q → q ≠ p → c q = <[p / PGSIZE := n]> (refcount s) (q / PGSIZE)) as Hoth.
  { intros q n Hq Hne. rewrite refcount_other by done. auto. }
  destruct (refcount s (p / PGSIZE) =? 1) eqn:E1; breflect; (eapply wp_Ok; [exact E|]).
  - split_and!; [|apply free_state_only|done].
    apply (represents_update (mkA fl c)); [by apply kinv_free|done|by apply fn_lookup_insert|by intros; apply Hoth].
  - split_and!; [|by intros|done].
    apply (represents_update (mkA fl c)); [|done|by apply fn_lookup_insert|by intros; apply Hoth].
    apply kinv_set_refcount; [done|done| |lia]. rewrite (ki_free _ _ K) by done. lia.
Qed.

End kalloc.
