(* ===== verification/Vm.v ===== *)
(** * Virtual memory, kernel/vm.c

    Page tables live in the physical memory of [Kalloc]: a [pagetable_t] is the
    address of a page of 512 entries, [&pagetable[i]] is the address of an
    entry, and every routine reads and writes memory through these addresses.
    [myproc()->sz] and [myproc()->pagetable], which [vmfault] reads, are the
    fields of the argument [p].  Buffers of kernel code ([src] of [copyout],
    [dst] of [copyin]) are lists of bytes.  [sfence_vma] has no effect on the
    state. *)

From S2P Require Import Prelude Riscv Memory Kalloc.

(** The fields of [myproc()] that vm.c reads. *)
Record uproc := mkUproc { usz : Z; upagetable : Z }.

(** [a[0..]] := [bs] *)
Definition store_bytes (m : memory) (a : Z) (bs : list Z) : memory :=
  λ x, if (a <=? x) && (x <? a + Z.of_nat (length bs))
       then nth (Z.to_nat (x - a)) bs 0 else m x.
Definition load_bytes (m : memory) (a : Z) (n : Z) : list Z :=
  (λ k, m (a + Z.of_nat k)) <$> seq 0 (Z.to_nat n).

Definition write_bytes (a : Z) (bs : list Z) : M kmem unit :=
  modify (λ s, set_mem (store_bytes (mem s) a bs) s).
Definition read_bytes (a n : Z) : M kmem (list Z) := gets (λ s, load_bytes (mem s) a n).

Definition sfence_vma : M kmem unit := mret tt.

Section vm.
Context `{Layout}.

(** The descent of [walk]: [level] is the loop variable. *)
Fixpoint walk_loop (level : nat) (pagetable va : Z) (alloc : bool) : M kmem Z :=
  match level with
  | O => mret (pagetable + 8 * PX 0 va)
  | S level' =>
      let pte := pagetable + 8 * PX (Z.of_nat level) va in
      v ← read64 pte;
      if has v PTE_V then walk_loop level' (PTE2PA v) va alloc
      else if negb alloc then mret 0
      else
        p ← kalloc;
        if p =? 0 then mret 0 else
        kmemset p 0 PGSIZE ;;
        write64 pte (Z.lor (PA2PTE p) PTE_V) ;;
        walk_loop level' p va alloc
  end.

Definition walk (pagetable va : Z) (alloc : bool) : M kmem Z :=
  if MAXVA <=? va then panic "walk" else walk_loop 2 pagetable va alloc.

Definition walkaddr (pagetable va : Z) : M kmem Z :=
  if MAXVA <=? va then mret 0 else
  pte ← walk pagetable va false;
  if pte =? 0 then mret 0 else
  v ← read64 pte;
  if negb (has v PTE_V) then mret 0 else
  if negb (has v PTE_U) then mret 0 else
  mret (PTE2PA v).

(** The [for(;;)] loop of [mappages]; it runs [size / PGSIZE] times. *)
Fixpoint mappages_loop (fuel : nat) (pagetable a last pa perm : Z) : M kmem Z :=
  match fuel with
  | O => nofuel
  | S fuel' =>
      pte ← walk pagetable a true;
      if pte =? 0 then mret (-1) else
      v ← read64 pte;
      if has v PTE_V then panic "mappages: remap" else
      write64 pte (Z.lor (Z.lor (PA2PTE pa) perm) PTE_V) ;;
      if a =? last then mret 0 else
      mappages_loop fuel' pagetable (u64 (a + PGSIZE)) last (u64 (pa + PGSIZE)) perm
  end.

Definition mappages (pagetable va size pa perm : Z) : M kmem Z :=
  if negb (va mod PGSIZE =? 0) then panic "mappages: va not aligned" else
  if negb (size mod PGSIZE =? 0) then panic "mappages: size not aligned" else
  if size =? 0 then panic "mappages: size" else
  mappages_loop (Z.to_nat (size / PGSIZE)) pagetable va (u64 (va + size - PGSIZE)) pa perm.

Definition kvmmap (kpgtbl va pa sz perm : Z) : M kmem unit :=
  r ← mappages kpgtbl va sz pa perm;
  if negb (r =? 0) then panic "kvmmap" else mret tt.

Definition uvmcreate : M kmem Z :=
  pagetable ← kalloc;
  if pagetable =? 0 then mret 0 else
  kmemset pagetable 0 PGSIZE ;;
  mret pagetable.

(** The body of the loop of [uvmunmap]. *)
Definition uvmunmap_page (pagetable : Z) (do_free : bool) (a : Z) : M kmem unit :=
  pte ← walk pagetable a false;
  if pte =? 0 then mret tt else
  v ← read64 pte;
  if negb (has v PTE_V) then mret tt else
  when do_free (kfree (PTE2PA v)) ;;
  write64 pte 0.

Definition uvmunmap (pagetable va npages : Z) (do_free : bool) : M kmem unit :=
  if negb (va mod PGSIZE =? 0) then panic "uvmunmap: not aligned" else
  for_up (pages_between va (u64 (va + u64 (npages * PGSIZE)))) va PGSIZE
    (uvmunmap_page pagetable do_free).

Definition uvmdealloc (pagetable oldsz newsz : Z) : M kmem Z :=
  if oldsz <=? newsz then mret oldsz else
  when (PGROUNDUP newsz <? PGROUNDUP oldsz)
    (let npages := s32 ((PGROUNDUP oldsz - PGROUNDUP newsz) / PGSIZE) in
     uvmunmap pagetable (PGROUNDUP newsz) (u64 npages) true) ;;
  mret newsz.

(** The loop of [uvmalloc] over the pages from [a] to [newsz]; it runs at most
    [pages_between oldsz newsz + 1] times. *)
Fixpoint uvmalloc_loop (fuel : nat) (pagetable oldsz a newsz xperm : Z) : M kmem Z :=
  match fuel with
  | O => nofuel
  | S fuel' =>
      if negb (a <? newsz) then mret newsz else
      mem ← kalloc;
      if mem =? 0 then uvmdealloc pagetable a oldsz ;; mret 0 else
      kmemset mem 0 PGSIZE ;;
      r ← mappages pagetable a PGSIZE mem (Z.lor (Z.lor PTE_R PTE_U) xperm);
      if negb (r =? 0) then
        kfree mem ;;
        uvmdealloc pagetable a oldsz ;;
        mret 0
      else uvmalloc_loop fuel' pagetable oldsz (u64 (a + PGSIZE)) newsz xperm
  end.

Definition uvmalloc (pagetable oldsz newsz xperm : Z) : M kmem Z :=
  if newsz <? oldsz then mret oldsz else
  let oldsz := PGROUNDUP oldsz in
  uvmalloc_loop (S (S (pages_between oldsz newsz))) pagetable oldsz oldsz newsz xperm.

(** [fuel] bounds the depth of the recursion: 3 for an Sv39 table. *)
Fixpoint freewalk (fuel : nat) (pagetable : Z) : M kmem unit :=
  match fuel with
  | O => nofuel
  | S fuel' =>
      for_up 512 0 1 (λ i,
        pte ← read64 (pagetable + 8 * i);
        if has pte PTE_V && (Z.land pte (Z.lor (Z.lor PTE_R PTE_W) PTE_X) =? 0) then
          freewalk fuel' (PTE2PA pte) ;;
          write64 (pagetable + 8 * i) 0
        else if has pte PTE_V then panic "freewalk: leaf"
        else mret tt) ;;
      kfree pagetable
  end.

Definition uvmfree (pagetable sz : Z) : M kmem unit :=
  when (0 <? sz) (uvmunmap pagetable 0 (PGROUNDUP sz / PGSIZE) true) ;;
  freewalk 3 pagetable.

(** The loop of [uvmcopy]; the [err] label unmaps the pages before [i]. *)
Fixpoint uvmcopy_loop (fuel : nat) (old new sz i : Z) : M kmem Z :=
  match fuel with
  | O => nofuel
  | S fuel' =>
      if negb (i <? sz) then mret 0 else
      let continue := uvmcopy_loop fuel' old new sz (u64 (i + PGSIZE)) in
      pte ← walk old i false;
      if pte =? 0 then continue else
      v ← read64 pte;
      if negb (has v PTE_V) then continue else
      let pa := PTE2PA v in
      let flags := PTE_FLAGS v in
      flags ← (if has flags PTE_W then
                 let flags := Z.lor (Z.land flags (Z.lnot PTE_W)) PTE_COW in
                 write64 pte (Z.lor (PA2PTE pa) flags) ;;
                 sfence_vma ;;
                 mret flags
               else mret flags);
      r ← mappages new i PGSIZE pa flags;
      if negb (r =? 0) then
        uvmunmap new 0 (i / PGSIZE) true ;;
        mret (-1)
      else
        kaddref pa ;;
        continue
  end.

Definition uvmcopy (old new sz : Z) : M kmem Z :=
  uvmcopy_loop (S (S (pages_between 0 sz))) old new sz 0.

Definition uvmclear (pagetable va : Z) : M kmem unit :=
  pte ← walk pagetable va false;
  if pte =? 0 then panic "uvmclear" else
  v ← read64 pte;
  write64 pte (Z.land v (Z.lnot PTE_U)).

Definition cowfault (pagetable va : Z) : M kmem Z :=
  if MAXVA <=? va then mret 0 else
  let va := PGROUNDDOWN va in
  pte ← walk pagetable va false;
  if pte =? 0 then mret 0 else
  v ← read64 pte;
  if negb (has v PTE_V) || negb (has v PTE_U) || negb (has v PTE_COW) then mret 0 else
  let pa := PTE2PA v in
  let flags := PTE_FLAGS v in
  c ← kgetref pa;
  if c =? 1 then
    let flags := Z.land (Z.lor flags PTE_W) (Z.lnot PTE_COW) in
    write64 pte (Z.lor (PA2PTE pa) flags) ;;
    sfence_vma ;;
    mret pa
  else
    mem ← kalloc;
    if mem =? 0 then mret 0 else
    kmemmove mem pa PGSIZE ;;
    let flags := Z.land (Z.lor flags PTE_W) (Z.lnot PTE_COW) in
    write64 pte (Z.lor (PA2PTE mem) flags) ;;
    kfree pa ;;
    sfence_vma ;;
    mret mem.

Definition ismapped (pagetable va : Z) : M kmem bool :=
  pte ← walk pagetable va false;
  if pte =? 0 then mret false else
  v ← read64 pte;
  if has v PTE_V then mret true else mret false.

Definition vmfault (p : uproc) (pagetable va : Z) : M kmem Z :=
  if usz p <=? va then mret 0 else
  let va := PGROUNDDOWN va in
  m ← ismapped pagetable va;
  if m : bool then mret 0 else
  mem ← kalloc;
  if mem =? 0 then mret 0 else
  kmemset mem 0 PGSIZE ;;
  r ← mappages (upagetable p) va PGSIZE mem (Z.lor (Z.lor PTE_W PTE_U) PTE_R);
  if negb (r =? 0) then kfree mem ;; mret 0 else
  mret mem.

(** The loop of [copyout]; [src] is what is left to copy.  Every round copies
    at least one byte, so [length src] rounds are enough. *)
Fixpoint copyout_loop (fuel : nat) (p : uproc) (pagetable dstva : Z) (src : list Z) : M kmem Z :=
  match fuel with
  | O => nofuel
  | S fuel' =>
      match src with
      | [] => mret 0
      | _ =>
          let va0 := PGROUNDDOWN dstva in
          if MAXVA <=? va0 then mret (-1) else
          pa0 ← walkaddr pagetable va0;
          pa0 ← (if pa0 =? 0 then vmfault p pagetable va0 else mret pa0);
          if pa0 =? 0 then mret (-1) else
          pte ← walk pagetable va0 false;
          if pte =? 0 then mret (-1) else
          v ← read64 pte;
          if negb (has v PTE_V) || negb (has v PTE_U) then mret (-1) else
          r ← (if has v PTE_COW then
                 pa0 ← cowfault pagetable va0;
                 if pa0 =? 0 then mret None else
                 pte ← walk pagetable va0 false;
                 mret (Some (pa0, pte))
               else mret (Some (pa0, pte)));
          match r with
          | None => mret (-1)
          | Some (pa0, pte) =>
              v ← read64 pte;
              if negb (has v PTE_W) then mret (-1) else
              let n := Z.min (PGSIZE - (dstva - va0)) (Z.of_nat (length src)) in
              write_bytes (pa0 + (dstva - va0)) (take (Z.to_nat n) src) ;;
              copyout_loop fuel' p pagetable (u64 (va0 + PGSIZE)) (drop (Z.to_nat n) src)
          end
      end
  end.

Definition copyout (p : uproc) (pagetable dstva : Z) (src : list Z) : M kmem Z :=
  copyout_loop (S (length src)) p pagetable dstva src.

(** The loop of [copyin]; the result is the C result and the bytes copied. *)
Fixpoint copyin_loop (fuel : nat) (p : uproc) (pagetable srcva len : Z) (dst : list Z)
    : M kmem (Z * list Z) :=
  match fuel with
  | O => nofuel
  | S fuel' =>
      if negb (0 <? len) then mret (0, dst) else
      let va0 := PGROUNDDOWN srcva in
      pa0 ← walkaddr pagetable va0;
      pa0 ← (if pa0 =? 0 then vmfault p pagetable va0 else mret pa0);
      if pa0 =? 0 then mret (-1, dst) else
      let n := Z.min (PGSIZE - (srcva - va0)) len in
      bs ← read_bytes (pa0 + (srcva - va0)) n;
      copyin_loop fuel' p pagetable (u64 (va0 + PGSIZE)) (len - n) (dst ++ bs)
  end.

Definition copyin (p : uproc) (pagetable srcva len : Z) : M kmem (Z * list Z) :=
  copyin_loop (S (Z.to_nat len)) p pagetable srcva len [].

(** The inner loop of [copyinstr]: up to [n] bytes from [p] until a NUL;
    returns the bytes written and whether the NUL was met. *)
Fixpoint copyinstr_page (n : nat) (m : memory) (p : Z) : list Z * bool :=
  match n with
  | O => ([], false)
  | S n' => if m p =? 0 then ([0], true)
            else let (bs, b) := copyinstr_page n' m (p + 1) in (m p :: bs, b)
  end.

Fixpoint copyinstr_loop (fuel : nat) (pagetable srcva max : Z) (dst : list Z)
    : M kmem (Z * list Z) :=
  match fuel with
  | O => nofuel
  | S fuel' =>
      if negb (0 <? max) then mret (-1, dst) else
      let va0 := PGROUNDDOWN srcva in
      pa0 ← walkaddr pagetable va0;
      if pa0 =? 0 then mret (-1, dst) else
      let n := Z.min (PGSIZE - (srcva - va0)) max in
      r ← gets (λ s, copyinstr_page (Z.to_nat n) (mem s) (pa0 + (srcva - va0)));
      let (bs, got_null) := r : list Z * bool in
      if got_null then mret (0, dst ++ bs) else
      copyinstr_loop fuel' pagetable (u64 (va0 + PGSIZE)) (max - n) (dst ++ bs)
  end.

Definition copyinstr (pagetable srcva max : Z) : M kmem (Z * list Z) :=
  copyinstr_loop (S (Z.to_nat max)) pagetable srcva max [].

End vm.
