(* ===== verification/VmInv.v ===== *)
(** * The invariant of page tables and of the reference counts

    Every physical page has an owner: it is free, it is a page-table page (with
    the table, the level and the prefix of the virtual addresses it
    translates), or it holds data.  [tinv] says that the page tables in memory
    follow this assignment.  [rinv] adds the reference counts: the counter of a
    page is the number of user mappings of it plus the number of pointers the
    kernel holds to it, and a page that some address space can write has no
    other mapping.  The two are kept apart because the routines of vm.c update
    an entry and a counter at different moments. *)

From S2P Require Import Prelude Riscv Memory Kalloc Vm.

Inductive owner :=
  | ONone                          (** not managed by the allocator *)
  | OFree
  | OPT (r : Z) (l : nat) (pre : Z) (** level-[l] page of table [r] *)
  | OData.

Record ghost := mkGhost {
  own : Z → owner;
  gfl : list Z;               (** the free list *)
  roots : gset Z;             (** the user page tables *)
  refs : Z → gset (Z * Z);    (** user mappings (table, page number) of a page *)
  kref : Z → Z;               (** pointers to the page held by the kernel *)
}.

(** ** Reading a page table *)

(** The address [walk] returns without allocating, 0 when a table is missing. *)
Fixpoint slot (l : nat) (m : memory) (pt va : Z) : Z :=
  match l with
  | O => pt + 8 * PX 0 va
  | S l' => let v := load64 m (pt + 8 * PX (Z.of_nat l) va) in
            if has v PTE_V then slot l' m (PTE2PA v) va else 0
  end.

(** The entry for [va]; 0, which is not valid, when a table is missing. *)
Definition pte_at (l : nat) (m : memory) (pt va : Z) : Z :=
  let a := slot l m pt va in if a =? 0 then 0 else load64 m a.
Abbreviation pte_of := (pte_at 2).

(** The part of [va] that selects the level-[l] page. *)
Definition pfx (l : nat) (va : Z) : Z := va / 2 ^ (21 + 9 * Z.of_nat l).

(** User addresses lie below the trapframe page. *)
Definition UPAGES : Z := TRAPFRAME / PGSIZE.
Definition VPAGES : Z := MAXVA / PGSIZE.

Section inv.
Context `{Layout}.

Record tinv (g : ghost) (s : kmem) : Prop := {
  ti_k : kinv (gfl g) s;
  ti_free p : p ∈ gfl g ↔ own g p = OFree;
  ti_page p : own g p ≠ ONone ↔ page_ok p;
  ti_level p r l pre : own g p = OPT r l pre → (l ≤ 2)%nat ∧ own g r = OPT r 2 0 ∧
    0 ≤ pre ∧ pre * 2 ^ (9 * Z.of_nat l) < 2 ^ 17;
  ti_root p r pre : own g p = OPT r 2 pre → p = r ∧ pre = 0;
  ti_entry p r l pre i : own g p = OPT r (S l) pre → 0 ≤ i < 512 →
    has (load64 (mem s) (p + 8 * i)) PTE_V = true →
    ∃ c, load64 (mem s) (p + 8 * i) = Z.lor (PA2PTE c) PTE_V ∧ own g c = OPT r l (pre * 512 + i);
  ti_parent p r l pre : own g p = OPT r l pre → (l < 2)%nat →
    ∃ q, own g q = OPT r (S l) (pre / 512) ∧
         load64 (mem s) (q + 8 * (pre mod 512)) = Z.lor (PA2PTE p) PTE_V;
}.

(** The reference layer, stated on the entries [P table page] of the user
    tables and on the counters. *)
Record rinv (g : ghost) (P : Z → Z → Z) (rc : Z → Z) : Prop := {
  ri_root r : r ∈ roots g → own g r = OPT r 2 0;
  ri_leaf r v : r ∈ roots g → 0 ≤ v < UPAGES → has (P r v) PTE_V = true →
    own g (PTE2PA (P r v)) = OData ∧ (r, v) ∈ refs g (PTE2PA (P r v));
  ri_write r v : r ∈ roots g → 0 ≤ v < UPAGES → has (P r v) PTE_V = true →
    has (P r v) PTE_W = true →
    refs g (PTE2PA (P r v)) = {[(r, v)]} ∧ kref g (PTE2PA (P r v)) = 0;
  ri_refs p r v : (r, v) ∈ refs g p →
    r ∈ roots g ∧ 0 ≤ v < UPAGES ∧ has (P r v) PTE_V = true ∧ PTE2PA (P r v) = p;
  ri_count p : page_ok p → rc (p / PGSIZE) = Z.of_nat (size (refs g p)) + kref g p;
  ri_nonneg p : 0 ≤ kref g p;
  ri_pt p r l pre : own g p = OPT r l pre → kref g p = 1;
  ri_high r v : r ∈ roots g → UPAGES ≤ v < VPAGES → has (P r v) PTE_U = false;
}.

Definition upte (s : kmem) (r v : Z) : Z := pte_of (mem s) r (v * PGSIZE).

Record vinv (g : ghost) (s : kmem) : Prop := {
  vi_t : tinv g s;
  vi_r : rinv g (upte s) (refcount s);
}.

Context `{!LayoutOk}.

(** ** Entries of page-table pages *)

Lemma load_entry_fill m p q c i :
  page_ok p → page_ok q → p ≠ q → 0 ≤ i < 512 →
  load64 (fill m p c PGSIZE) (q + 8 * i) = load64 m (q + 8 * i).
Proof.
  intros Hp Hq Hne Hi. apply load_fill_other.
  destruct (page_disjoint p q Hp Hq Hne); unfold PGSIZE in *; lia.
Qed.

Lemma load_entry_zero m p i :
  0 ≤ i < 512 → load64 (fill m p 0 PGSIZE) (p + 8 * i) = 0.
Proof. intros. apply load_fill_zero; unfold PGSIZE; lia. Qed.

Lemma entry_eq p q i j :
  page_ok p → page_ok q → 0 ≤ i < 512 → 0 ≤ j < 512 → p + 8 * i = q + 8 * j → p = q ∧ i = j.
Proof. unfold page_ok, PGSIZE. intros (? & _) (? & _) ???. dlia. Qed.

Lemma load_entry_store m p q i j v :
  page_ok p → page_ok q → 0 ≤ i < 512 → 0 ≤ j < 512 → (p, i) ≠ (q, j) →
  load64 (store64 m (p + 8 * i) v) (q + 8 * j) = load64 m (q + 8 * j).
Proof.
  intros Hp Hq Hi Hj Hne. apply load_store_other.
  assert (p + 8 * i ≠ q + 8 * j) by (intros [-> ->]%entry_eq; done).
  unfold page_ok, PGSIZE in *. destruct Hp as (? & _), Hq as (? & _). dlia.
Qed.

Lemma load64_store64 m a v : 0 ≤ v < 2 ^ 64 → load64 (store64 m a v) a = v.
Proof. intros. by apply load_store_same. Qed.

(** ** Prefixes *)

Lemma pfx_child l va : pfx l va = pfx (S l) va * 512 + PX (Z.of_nat (S l)) va.
Proof.
  unfold pfx. rewrite PX_eq by lia.
  replace (12 + 9 * Z.of_nat (S l)) with (21 + 9 * Z.of_nat l) by lia.
  replace (21 + 9 * Z.of_nat (S l)) with (21 + 9 * Z.of_nat l + 9) by lia.
  assert (0 ≤ 21 + 9 * Z.of_nat l) as Hk by lia. revert Hk.
  generalize (21 + 9 * Z.of_nat l) as k. intros k Hk.
  rewrite Z.pow_add_r by lia. change (2 ^ 9) with 512.
  rewrite <-Z.div_div by lia. generalize (va / 2 ^ k) as x. intros x. dlia.
Qed.

Lemma pfx_root va : 0 ≤ va < MAXVA → pfx 2 va = 0.
Proof. intros. unfold pfx. apply Z.div_small. change MAXVA with (2 ^ 38) in *. simpl. lia. Qed.

Lemma pfx_nonneg l va : 0 ≤ va → 0 ≤ pfx l va.
Proof. intros. unfold pfx. apply Z.div_pos; lia. Qed.

(** The prefixes of addresses below [MAXVA]. *)
Lemma pfx_bound l va : 0 ≤ va < MAXVA → pfx l va * 2 ^ (9 * Z.of_nat l) < 2 ^ 17.
Proof.
  intros Hva. change MAXVA with (2 ^ 17 * 2 ^ 21) in Hva. unfold pfx. rewrite Z.pow_add_r by lia.
  rewrite <-Z.div_div by lia. assert (va / 2 ^ 21 < 2 ^ 17) by (apply Z.div_lt_upper_bound; lia).
  pose proof (Z.mul_div_le (va / 2 ^ 21) (2 ^ (9 * Z.of_nat l))). lia.
Qed.

Lemma pfx0_PX0 va : va / PGSIZE = pfx 0 va * 512 + PX 0 va.
Proof.
  unfold pfx. rewrite PX0_eq. change (2 ^ (21 + 9 * Z.of_nat 0)) with (4096 * 512).
  unfold PGSIZE. rewrite <-Z.div_div by lia. dlia.
Qed.

(** Translation does not depend on the offset in the page. *)
Lemma PX_page l va va' : 0 ≤ l → va / PGSIZE = va' / PGSIZE → PX l va = PX l va'.
Proof.
  intros Hl E. rewrite !PX_eq by done. rewrite !Z.pow_add_r by lia.
  change (2 ^ 12) with PGSIZE. rewrite <-!Z.div_div by (unfold PGSIZE; lia). by rewrite E.
Qed.

Lemma slot_page l m pt va va' :
  va / PGSIZE = va' / PGSIZE → slot l m pt va = slot l m pt va'.
Proof.
  intros E. revert pt. induction l as [|l IH]; intros pt; cbn [slot].
  - by rewrite (PX_page 0 va va').
  - rewrite (PX_page _ va va') by (done || lia). destruct (has _ _); [apply IH|done].
Qed.

(** ** Consequences of the table invariant *)

Section tables.
Context (g : ghost) (s : kmem).
Hypothesis T : tinv g s.

Lemma own_page_ok p : own g p ≠ ONone → page_ok p.
Proof. apply (ti_page _ _ T). Qed.

Lemma own_OPT_page p r l pre : own g p = OPT r l pre → page_ok p.
Proof. intros E. apply own_page_ok. by rewrite E. Qed.

Lemma own_OData_page p : own g p = OData → page_ok p.
Proof. intros E. apply own_page_ok. by rewrite E. Qed.

(** A valid entry of an inner page leads to the next page of the table. *)
Lemma entry_child p r l pre i :
  own g p = OPT r (S l) pre → 0 ≤ i < 512 →
  has (load64 (mem s) (p + 8 * i)) PTE_V = true →
  own g (PTE2PA (load64 (mem s) (p + 8 * i))) = OPT r l (pre * 512 + i).
Proof.
  intros Hp Hi Hv. destruct (ti_entry _ _ T _ _ _ _ _ Hp Hi Hv) as (c & -> & Hc).
  rewrite PTE2PA_make; [done| |by vm_compute].
  by eapply page_ok_paddr, own_OPT_page.
Qed.

(** Labels of page-table pages are unique. *)
Lemma label_inj r l pre p q :
  own g p = OPT r l pre → own g q = OPT r l pre → p = q.
Proof.
  intros Hp Hq. destruct (ti_level _ _ T _ _ _ _ Hp) as [Hl _].
  revert pre p q Hp Hq. remember (2 - l)%nat as k eqn:Ek.
  revert l Hl Ek. induction k as [|k IH]; intros l Hl Ek pre p q Hp Hq.
  - replace l with 2%nat in * by lia.
    apply (ti_root _ _ T) in Hp as [-> _]. by apply (ti_root _ _ T) in Hq as [-> _].
  - destruct (ti_parent _ _ T _ _ _ _ Hp) as (p' & Hp' & Ep); [lia|].
    destruct (ti_parent _ _ T _ _ _ _ Hq) as (q' & Hq' & Eq); [lia|].
    assert (p' = q') as <- by (eapply (IH (S l)); eauto; lia).
    rewrite Ep in Eq. apply own_OPT_page, page_ok_paddr in Hp, Hq.
    rewrite <-(PTE2PA_make p PTE_V), <-(PTE2PA_make q PTE_V) by done. by rewrite Eq.
Qed.

Lemma slot_inv l pt r va :
  own g pt = OPT r l (pfx l va) → slot l (mem s) pt va ≠ 0 →
  ∃ p0, own g p0 = OPT r 0 (pfx 0 va) ∧ slot l (mem s) pt va = p0 + 8 * PX 0 va.
Proof.
  revert pt. induction l as [|l IH]; intros pt Hpt; cbn [slot]; [by eauto|].
  destruct (has _ PTE_V) eqn:Hv; [|done]. apply IH.
  erewrite entry_child by (eauto using PX_range with lia). by rewrite <-pfx_child.
Qed.

Lemma slot_root r va :
  own g r = OPT r 2 0 → 0 ≤ va < MAXVA → slot 2 (mem s) r va ≠ 0 →
  ∃ p0, own g p0 = OPT r 0 (pfx 0 va) ∧ slot 2 (mem s) r va = p0 + 8 * PX 0 va.
Proof. intros Hr Hva. apply slot_inv. by rewrite pfx_root. Qed.

(** Conversely, the descent reaches the page with the right label. *)
Lemma slot_up p r l va :
  own g p = OPT r l (pfx l va) → (l < 2)%nat →
  ∃ q, own g q = OPT r (S l) (pfx (S l) va) ∧
       slot (S l) (mem s) q va = slot l (mem s) p va.
Proof.
  intros Hp Hl. destruct (ti_parent _ _ T _ _ _ _ Hp Hl) as (q & Hq & E). exists q.
  assert (0 ≤ PX (Z.of_nat (S l)) va < 512) as Hj by (apply PX_range; lia).
  rewrite pfx_child in Hq, E.
  replace ((pfx (S l) va * 512 + PX (Z.of_nat (S l)) va) / 512) with (pfx (S l) va) in Hq by dlia.
  replace ((pfx (S l) va * 512 + PX (Z.of_nat (S l)) va) mod 512)
    with (PX (Z.of_nat (S l)) va) in E by dlia.
  split; [done|]. cbn [slot]. rewrite E. apply own_OPT_page, page_ok_paddr in Hp.
  rewrite has_V, testbit_make by (done || lia). by rewrite PTE2PA_make.
Qed.

Lemma slot_complete p0 r va :
  own g p0 = OPT r 0 (pfx 0 va) → slot 2 (mem s) r va = p0 + 8 * PX 0 va.
Proof.
  intros Hp0. destruct (slot_up _ _ _ _ Hp0) as (p1 & Hp1 & E1); [lia|].
  destruct (slot_up _ _ _ _ Hp1) as (p2 & Hp2 & E2); [lia|].
  destruct (ti_root _ _ T _ _ _ Hp2) as [-> _]. by rewrite E2, E1.
Qed.

(** Two translations that reach the same entry are of the same page. *)
Lemma slot_inj r r' va va' :
  own g r = OPT r 2 0 → own g r' = OPT r' 2 0 → 0 ≤ va < MAXVA → 0 ≤ va' < MAXVA →
  slot 2 (mem s) r va ≠ 0 → slot 2 (mem s) r va = slot 2 (mem s) r' va' →
  r = r' ∧ va / PGSIZE = va' / PGSIZE.
Proof.
  intros Hr Hr' Hva Hva' Hn E.
  destruct (slot_root r va) as (p & Hp & Ep); [done..|].
  destruct (slot_root r' va') as (q & Hq & Eq); [done..|congruence|].
  rewrite Ep, Eq in E. apply entry_eq in E as [<- Ei];
    [|eauto using own_OPT_page, PX_range with lia..].
  rewrite Hp in Hq. simplify_eq. rewrite !pfx0_PX0, Ei. split; congruence.
Qed.

End tables.

(** [slot] reads only the inner pages of the table. *)
Lemma slot_frame g s m' l pt r pre va :
  tinv g s → own g pt = OPT r l pre →
  (∀ p l' pre' i, own g p = OPT r (S l') pre' → 0 ≤ i < 512 →
     load64 m' (p + 8 * i) = load64 (mem s) (p + 8 * i)) →
  slot l m' pt va = slot l (mem s) pt va.
Proof.
  intros T Hpt Hm. revert pt pre Hpt. induction l as [|l IH]; intros pt pre Hpt; cbn [slot]; [done|].
  assert (0 ≤ PX (Z.of_nat (S l)) va < 512) by (apply PX_range; lia).
  rewrite (Hm _ _ _ _ Hpt) by done. destruct (has _ PTE_V) eqn:Hv; [|done].
  eapply IH, entry_child; eauto.
Qed.

(** ** Updates of memory that keep the tables *)

Lemma tinv_mem g s m' :
  tinv g s → bytes_ok m' → (∀ q, q ∈ gfl g → load64 m' q = load64 (mem s) q) →
  (∀ p r l pre i, own g p = OPT r (S l) pre → 0 ≤ i < 512 →
     load64 m' (p + 8 * i) = load64 (mem s) (p + 8 * i)) →
  tinv g (set_mem m' s).
Proof.
  intros [] Hb Hf Hm. split; simpl; eauto using kinv_set_mem.
  - intros p r l pre i Hp Hi. rewrite (Hm p r l pre i) by done. eauto.
  - intros p r l pre Hp Hl. destruct (ti_parent0 _ _ _ _ Hp Hl) as (q & Hq & E).
    exists q. split; [done|]. rewrite (Hm _ _ _ _ _ Hq) by dlia. done.
Qed.

Lemma free_page_ok g s q : tinv g s → q ∈ gfl g → page_ok q.
Proof. intros T Hq. apply (own_page_ok g s T). apply (ti_free _ _ T) in Hq. by rewrite Hq. Qed.

(** Writes inside a page that is neither free nor a page-table page. *)
Lemma load_entry_outside g s m' d q i :
  tinv g s → page_ok q → page_ok d → q ≠ d → 0 ≤ i < 512 →
  (∀ x, x < d ∨ d + PGSIZE ≤ x → m' x = mem s x) →
  load64 m' (q + 8 * i) = load64 (mem s) (q + 8 * i).
Proof.
  intros T Hq Hd Hne Hi Hm. apply load_le_ext. intros x Hx. apply Hm.
  destruct (page_disjoint q d); [done..| |]; unfold PGSIZE in *; lia.
Qed.

Lemma tinv_write_data g s m' d :
  tinv g s → own g d = OData → bytes_ok m' →
  (∀ x, x < d ∨ d + PGSIZE ≤ x → m' x = mem s x) →
  tinv g (set_mem m' s).
Proof.
  intros T Hd Hb Hm. apply tinv_mem; [done..| |].
  - intros q Hq. rewrite <-(Z.add_0_r q), <-(Z.mul_0_r 8).
    eapply load_entry_outside; eauto using free_page_ok, own_OData_page; [|lia].
    intros ->. apply (ti_free _ _ T) in Hq. congruence.
  - intros p r l pre i Hp Hi.
    eapply load_entry_outside; eauto using own_OPT_page, own_OData_page. congruence.
Qed.

Lemma pte_of_write_data g s m' d r va :
  tinv g s → own g d = OData → (∀ x, x < d ∨ d + PGSIZE ≤ x → m' x = mem s x) →
  own g r = OPT r 2 0 → 0 ≤ va < MAXVA → pte_of m' r va = pte_of (mem s) r va.
Proof.
  intros T Hd Hm Hr Hva. unfold pte_at. rewrite (slot_frame g s m' 2 r r 0) by
    (try done; intros; eapply load_entry_outside; eauto using own_OPT_page, own_OData_page; congruence).
  destruct (Z.eqb_spec (slot 2 (mem s) r va) 0); [done|].
  destruct (slot_root g s T r va) as (p & Hp & ->); [done..|].
  eapply load_entry_outside; eauto using own_OPT_page, own_OData_page, PX_range with lia. congruence.
Qed.

Lemma tinv_store_leaf g s r va v :
  tinv g s → own g r = OPT r 2 0 → 0 ≤ va < MAXVA → slot 2 (mem s) r va ≠ 0 →
  tinv g (set_mem (store64 (mem s) (slot 2 (mem s) r va) v) s).
Proof.
  intros T Hr Hva Hs. destruct (slot_root g s T r va) as (p & Hp & ->); [done..|].
  apply tinv_mem; [done|apply bytes_ok_store64, T| |].
  - intros q Hq. rewrite <-(Z.add_0_r q), <-(Z.mul_0_r 8).
    apply load_entry_store; eauto using own_OPT_page, free_page_ok, PX_range with lia.
    intros [= -> _]. apply (ti_free _ _ T) in Hq. congruence.
  - intros q r' l pre i Hq Hi.
    apply load_entry_store; eauto using own_OPT_page, PX_range with lia. congruence.
Qed.

Lemma pte_of_store_leaf g s r va v r' va' :
  tinv g s → own g r = OPT r 2 0 → own g r' = OPT r' 2 0 → 0 ≤ va < MAXVA → 0 ≤ va' < MAXVA →
  slot 2 (mem s) r va ≠ 0 → 0 ≤ v < 2 ^ 64 →
  pte_of (store64 (mem s) (slot 2 (mem s) r va) v) r' va' =
    if decide (r' = r ∧ va' / PGSIZE = va / PGSIZE) then v else pte_of (mem s) r' va'.
Proof.
  intros T Hr Hr' Hva Hva' Hs Hv. unfold pte_at.
  rewrite (slot_frame g s _ 2 r' r' 0); [|done..|].
  2:{ intros p l pre i Hp Hi. destruct (slot_root g s T r va) as (p0 & Hp0 & ->); [done..|].
      apply load_entry_store; eauto using own_OPT_page, PX_range with lia. congruence. }
  destruct (Z.eqb_spec (slot 2 (mem s) r' va') 0) as [E|E].
  - destruct (decide _) as [[-> Hpg]|]; [|done]. exfalso. apply Hs. rewrite <-E.
    by apply slot_page.
  - destruct (decide _) as [[-> Hpg]|Hne].
    + rewrite (slot_page _ _ _ va' va) by done. by apply load64_store64.
    + destruct (slot_root g s T r va) as (p & Hp & Ep); [done..|].
      destruct (slot_root g s T r' va') as (q & Hq & Eq); [done..|].
      assert (slot 2 (mem s) r va ≠ slot 2 (mem s) r' va') as Hd.
      { intros Es. apply Hne. destruct (slot_inj g s T r r' va va'); done. }
      rewrite Ep, Eq in *. apply load_entry_store; eauto using own_OPT_page, PX_range with lia.
      congruence.
Qed.

(** ** Consequences of the full invariant *)

Lemma upage_va v : 0 ≤ v < UPAGES → 0 ≤ v * PGSIZE < MAXVA.
Proof. unfold UPAGES, PGSIZE. change TRAPFRAME with (2 ^ 38 - 8192). change MAXVA with (2 ^ 38). dlia. Qed.

Lemma vpage_va v : 0 ≤ v < VPAGES → 0 ≤ v * PGSIZE < MAXVA.
Proof. unfold VPAGES, PGSIZE. change MAXVA with (2 ^ 38). dlia. Qed.

Lemma va_vpage va : 0 ≤ va < MAXVA → 0 ≤ va / PGSIZE < VPAGES.
Proof. unfold VPAGES, PGSIZE. change MAXVA with (2 ^ 38). dlia. Qed.

Lemma upage_vpage v : 0 ≤ v < UPAGES → 0 ≤ v < VPAGES.
Proof. assert (UPAGES < VPAGES) by done. lia. Qed.

Lemma refs_iff g s p r v :
  vinv g s → (r, v) ∈ refs g p ↔
  r ∈ roots g ∧ 0 ≤ v < UPAGES ∧ has (upte s r v) PTE_V = true ∧ PTE2PA (upte s r v) = p.
Proof.
  intros V. split; [apply V|]. intros (Hr & Hv & HV & <-). by apply (ri_leaf _ _ _ (vi_r _ _ V)).
Qed.

Lemma refs_data g s p r v : vinv g s → (r, v) ∈ refs g p → own g p = OData.
Proof.
  intros [T R] Hp. destruct (ri_refs _ _ _ R _ _ _ Hp) as (Hr & Hv & HV & <-).
  by apply (ri_leaf _ _ _ R).
Qed.

Lemma nondata_no_refs g s p : vinv g s → own g p ≠ OData → refs g p = ∅.
Proof.
  intros V Hn. apply set_eq. intros [r v]. split; [|set_solver].
  intros ?%(refs_data g s); done.
Qed.

Lemma free_no_refs g s p : vinv g s → own g p = OFree → refs g p = ∅.
Proof. intros V E. eapply nondata_no_refs; [done|]. by rewrite E. Qed.

End inv.
