(* ===== verification/VmWalk.v ===== *)
(** * Walking and extending page tables

    [walk] without allocation computes [slot]; with allocation it only adds
    empty page-table pages taken from the free list, so that no translation
    changes ([grows]). *)

From S2P Require Import Prelude Riscv Memory Kalloc Vm VmInv.

Section walk.
Context `{Layout, !LayoutOk}.

Lemma walk_loop_run l pt va s : walk_loop l pt va false s = Ok (slot l (mem s) pt va, s).
Proof.
  revert pt. induction l as [|l IH]; intros pt; cbn [walk_loop slot]; [done|].
  unfold read64. munfold. destruct (has _ _); [apply IH|done].
Qed.

Lemma walk_run pt va s :
  va < MAXVA → walk pt va false s = Ok (slot 2 (mem s) pt va, s).
Proof.
  intros. unfold walk. destruct (Z.leb_spec MAXVA va); [lia|]. apply walk_loop_run.
Qed.

Lemma wp_walk pt va s Q :
  va < MAXVA → Q (slot 2 (mem s) pt va) s → wp (walk pt va false) s Q.
Proof. intros. eapply wp_Ok; [by apply walk_run|done]. Qed.

(** ** What extending a table leaves unchanged *)

Record grows (g : ghost) (s : kmem) (g' : ghost) (s' : kmem) : Prop := {
  gr_refs : refs g' = refs g;
  gr_roots : roots g' = roots g;
  gr_data p : own g p = OData → own g' p = OData ∧ kref g' p = kref g p;
  gr_pt p r l pre : own g p = OPT r l pre → own g' p = OPT r l pre;
  gr_pte r va : own g r = OPT r 2 0 → 0 ≤ va < MAXVA → pte_of (mem s') r va = pte_of (mem s) r va;
  gr_mem p x : own g p = OData → p ≤ x < p + PGSIZE → mem s' x = mem s x;
  gr_rc p : own g p = OData → refcount s' (p / PGSIZE) = refcount s (p / PGSIZE);
  gr_own p : own g' p = OData → own g p = OData;
}.

Lemma grows_refl g s : grows g s g s.
Proof. split; auto. Qed.

Lemma grows_trans g s g1 s1 g2 s2 : grows g s g1 s1 → grows g1 s1 g2 s2 → grows g s g2 s2.
Proof.
  intros A B. destruct A as [a1 a2 a3 a4 a5 a6 a7 a8], B as [b1 b2 b3 b4 b5 b6 b7 b8].
  split; try congruence; eauto.
  - intros p Hp. destruct (a3 p Hp) as [? E]. rewrite <-E. auto.
  - intros r va Hr Hva. rewrite b5; eauto.
  - intros p x Hp Hx. destruct (a3 p Hp). rewrite (b6 p); eauto.
  - intros p Hp. destruct (a3 p Hp). rewrite b7; eauto.
Qed.

(** ** A new page-table page

    The effect of the allocating branch of [walk]: page [p], taken from the
    free list, becomes the child of entry [i] of [pt]. *)

Section new_table.
Context (g : ghost) (s : kmem) (p : Z) (fl : list Z) (pt r : Z) (l : nat) (pre i : Z).
Hypothesis V : vinv g s.
Hypothesis Hfl : gfl g = p :: fl.
Hypothesis Hpt : own g pt = OPT r (S l) pre.
Hypothesis Hi : 0 ≤ i < 512.
Hypothesis Hinv : has (load64 (mem s) (pt + 8 * i)) PTE_V = false.
Hypothesis Hbound : (pre * 512 + i) * 2 ^ (9 * Z.of_nat l) < 2 ^ 17.

Definition nt_entry : Z := Z.lor (PA2PTE p) PTE_V.
Definition nt_mem : memory :=
  store64 (fill (fill (mem s) p 5 PGSIZE) p 0 PGSIZE) (pt + 8 * i) nt_entry.
Definition nt_state : kmem := set_mem nt_mem (alloc_state p s).
Definition nt_ghost : ghost :=
  mkGhost (<[p := OPT r l (pre * 512 + i)]> (own g)) fl (roots g) (refs g)
          (<[p := 1]> (kref g)).

#[local] Abbreviation T := (vi_t _ _ V).
#[local] Abbreviation R := (vi_r _ _ V).

Lemma nt_free : own g p = OFree.
Proof. apply (ti_free _ _ T). rewrite Hfl. constructor. Qed.
Lemma nt_page : page_ok p.
Proof. apply (own_page_ok _ _ T). by rewrite nt_free. Qed.
Lemma nt_pt_page : page_ok pt.
Proof. by eapply own_OPT_page; [apply T|]. Qed.

Lemma nt_entry_range : 0 ≤ nt_entry < 2 ^ 64.
Proof. apply pte_make_range; [apply page_ok_paddr, nt_page|by vm_compute]. Qed.
Lemma nt_entry_V : has nt_entry PTE_V = true.
Proof.
  unfold nt_entry. rewrite has_V, testbit_make; [done|apply page_ok_paddr, nt_page|lia].
Qed.
Lemma nt_entry_pa : PTE2PA nt_entry = p.
Proof. apply PTE2PA_make; [apply page_ok_paddr, nt_page|by vm_compute]. Qed.

Lemma nt_load_pt : load64 nt_mem (pt + 8 * i) = nt_entry.
Proof. apply load64_store64, nt_entry_range. Qed.

Lemma nt_load_new j : 0 ≤ j < 512 → load64 nt_mem (p + 8 * j) = 0.
Proof.
  intros. pose proof nt_free. unfold nt_mem.
  rewrite load_entry_store by (eauto using nt_page, nt_pt_page; congruence).
  by apply load_entry_zero.
Qed.

Lemma nt_load_old q j :
  page_ok q → q ≠ p → 0 ≤ j < 512 → (q, j) ≠ (pt, i) →
  load64 nt_mem (q + 8 * j) = load64 (mem s) (q + 8 * j).
Proof.
  intros. unfold nt_mem. rewrite load_entry_store by (eauto using nt_pt_page; congruence).
  by rewrite !load_entry_fill by (eauto using nt_page).
Qed.

Lemma nt_tinv : tinv nt_ghost nt_state.
Proof.
  pose proof nt_free as Hfree. pose proof nt_page as Hp.
  assert (kinv (p :: fl) s) as K by (rewrite <-Hfl; apply T).
  pose proof (ki_nodup _ _ K) as Hnd. apply NoDup_cons in Hnd as [Hpfl Hnd].
  split.
  - apply kinv_set_mem; simpl; [by apply kinv_alloc|..].
    { repeat apply bytes_ok_store64 || apply bytes_ok_fill. apply K. }
    intros q Hq. assert (q ∈ gfl g) as Hq' by (rewrite Hfl; by right).
    assert (q ≠ p) by congruence. pose proof (free_page_ok _ _ _ T Hq') as Hqp.
    apply (ti_free _ _ T) in Hq'. rewrite <-(Z.add_0_r q), <-(Z.mul_0_r 8).
    rewrite load_entry_fill by (done || lia). apply nt_load_old; [done..|lia|congruence].
  - intros q. simpl. destruct (decide (p = q)) as [<-|].
    + rewrite fn_lookup_insert. split; [done|congruence].
    + rewrite fn_lookup_insert_ne by done. rewrite <-(ti_free _ _ T), Hfl, elem_of_cons.
      intuition congruence.
  - intros q. simpl. destruct (decide (p = q)) as [<-|].
    + by rewrite fn_lookup_insert.
    + rewrite fn_lookup_insert_ne by done. apply T.
  - intros q r' l' pre'. simpl. destruct (ti_level _ _ T _ _ _ _ Hpt) as (Hl & Hr & Hpre).
    destruct (decide (p = q)) as [<-|].
    + rewrite fn_lookup_insert. intros [= <- <- <-].
      rewrite fn_lookup_insert_ne by congruence. split; [lia|]. split; [done|lia].
    + rewrite fn_lookup_insert_ne by done. intros Hq.
      destruct (ti_level _ _ T _ _ _ _ Hq) as (? & Hr' & ?).
      rewrite fn_lookup_insert_ne by congruence. done.
  - intros q r' pre'. simpl. destruct (ti_level _ _ T _ _ _ _ Hpt) as (Hl & _ & _).
    destruct (decide (p = q)) as [<-|].
    + rewrite fn_lookup_insert. intros [= <- Hl' <-]. lia.
    + rewrite fn_lookup_insert_ne by done. apply T.
  - intros q r' l' pre' j. simpl. destruct (decide (p = q)) as [<-|].
    + intros _ Hj. by rewrite nt_load_new.
    + rewrite fn_lookup_insert_ne by done. intros Hq Hj Hv.
      assert (page_ok q) by (by eapply own_OPT_page; [apply T|]).
      destruct (decide ((q, j) = (pt, i))) as [[= -> ->]|Hne].
      * rewrite nt_load_pt. exists p. rewrite fn_lookup_insert. split; [done|congruence].
      * rewrite nt_load_old in Hv |- * by done.
        destruct (ti_entry _ _ T _ _ _ _ _ Hq Hj Hv) as (c & -> & Hc).
        exists c. rewrite fn_lookup_insert_ne by congruence. done.
  - intros q r' l' pre'. simpl. destruct (decide (p = q)) as [<-|].
    + rewrite fn_lookup_insert. intros [= <- <- <-] _. exists pt.
      rewrite fn_lookup_insert_ne by congruence.
      replace ((pre * 512 + i) / 512) with pre by dlia.
      replace ((pre * 512 + i) mod 512) with i by dlia. split; [done|apply nt_load_pt].
    + rewrite fn_lookup_insert_ne by done. intros Hq Hl.
      destruct (ti_parent _ _ T _ _ _ _ Hq Hl) as (q' & Hq' & E). exists q'.
      rewrite fn_lookup_insert_ne by congruence. split; [done|].
      rewrite nt_load_old; [done|by eapply own_OPT_page; [apply T|]|congruence|dlia|].
      intros [= -> Ei]. rewrite Ei in E. rewrite E in Hinv.
      rewrite has_V, testbit_make in Hinv; [done| |lia].
      by eapply page_ok_paddr, own_OPT_page; [apply T|].
Qed.

(** No translation changes. *)
Lemma nt_pte_zero l' va : pte_at l' nt_mem p va = 0.
Proof.
  unfold pte_at. destruct l' as [|l']; cbn [slot].
  - rewrite nt_load_new by (apply PX_range; lia). by case_match.
  - rewrite nt_load_new by (apply PX_range; lia). done.
Qed.

Lemma nt_pte_at l' q r' pre' va :
  own g q = OPT r' l' pre' → pte_at l' nt_mem q va = pte_at l' (mem s) q va.
Proof.
  pose proof nt_free as Hfree.
  revert q pre'. induction l' as [|l' IH]; intros q pre' Hq.
  - unfold pte_at; cbn [slot]. rewrite nt_load_old; [done| | | |congruence].
    + by eapply own_OPT_page; [apply T|].
    + congruence.
    + apply PX_range; lia.
  - assert (0 ≤ PX (Z.of_nat (S l')) va < 512) as Hj by (apply PX_range; lia).
    destruct (decide ((q, PX (Z.of_nat (S l')) va) = (pt, i))) as [[= -> Ej]|Hne].
    + unfold pte_at at 2; cbn [slot]. rewrite Ej, Hinv. simpl.
      transitivity (pte_at l' nt_mem p va); [|apply nt_pte_zero].
      unfold pte_at; cbn [slot]. by rewrite Ej, nt_load_pt, nt_entry_V, nt_entry_pa.
    + assert (load64 nt_mem (q + 8 * PX (Z.of_nat (S l')) va) =
              load64 (mem s) (q + 8 * PX (Z.of_nat (S l')) va)) as E.
      { apply nt_load_old; [by eapply own_OPT_page; [apply T|]|congruence|done..]. }
      destruct (has (load64 (mem s) (q + 8 * PX (Z.of_nat (S l')) va)) PTE_V) eqn:Hv.
      * specialize (IH _ _ (entry_child _ _ T _ _ _ _ _ Hq Hj Hv)).
        unfold pte_at in *; cbn [slot]. by rewrite E, Hv.
      * unfold pte_at; cbn [slot]. by rewrite E, Hv.
Qed.

Lemma nt_grows : grows g s nt_ghost nt_state.
Proof.
  pose proof nt_free as Hfree. pose proof nt_page as Hp.
  split; simpl; [done|done|..].
  - intros q Hq. by rewrite !fn_lookup_insert_ne by congruence.
  - intros q r' l' pre' Hq. by rewrite fn_lookup_insert_ne by congruence.
  - intros r' va Hr' _. by eapply nt_pte_at.
  - intros q x Hq Hx.
    assert (page_ok q) as Hqp by (by eapply own_OData_page; [apply T|]).
    assert (q ≠ p) by congruence. assert (q ≠ pt) by congruence.
    pose proof nt_pt_page as Hptp. unfold nt_mem, store64, store_le, fill.
    destruct (page_disjoint q p Hqp Hp), (page_disjoint q pt Hqp Hptp); try done;
      unfold PGSIZE in *; mem_cases; done || lia.
  - intros q Hq. apply fn_lookup_insert_ne. intros ?%page_eq_index; [congruence|done|].
    by eapply own_OData_page; [apply T|].
  - intros q. destruct (decide (p = q)) as [<-|]; [by rewrite fn_lookup_insert|].
    by rewrite fn_lookup_insert_ne.
Qed.

Lemma nt_rinv : rinv nt_ghost (upte nt_state) (refcount nt_state).
Proof.
  pose proof nt_free as Hfree. pose proof nt_page as Hp. pose proof nt_grows as G.
  destruct R as [Rroot Rleaf Rwrite Rrefs Rcount Rnn Rpt Rhigh].
  assert (∀ r' v, r' ∈ roots g → 0 ≤ v < VPAGES → upte nt_state r' v = upte s r' v) as EP.
  { intros r' v Hr' Hv. apply (gr_pte _ _ _ _ G); [auto|]. by apply vpage_va. }
  split; simpl.
  - intros r' Hr'. rewrite fn_lookup_insert_ne; [auto|]. intros <-. specialize (Rroot p Hr'). congruence.
  - intros r' v Hr' Hv. rewrite EP by auto using upage_vpage. intros HV.
    destruct (Rleaf r' v Hr' Hv HV) as [Ho ?]. rewrite fn_lookup_insert_ne by congruence. done.
  - intros r' v Hr' Hv. rewrite EP by auto using upage_vpage. intros HV HW.
    destruct (Rleaf r' v Hr' Hv HV) as [Ho ?]. rewrite fn_lookup_insert_ne by congruence. auto.
  - intros q r' v Hq. destruct (Rrefs q r' v Hq) as (? & ? & ?). rewrite EP; auto using upage_vpage.
  - intros q Hq. destruct (decide (p = q)) as [<-|].
    + rewrite !fn_lookup_insert. rewrite (free_no_refs g s p V Hfree). done.
    + rewrite !fn_lookup_insert_ne; [auto|done|]. intros ?%page_eq_index; done.
  - intros q. destruct (decide (p = q)) as [<-|].
    + rewrite fn_lookup_insert. lia.
    + rewrite fn_lookup_insert_ne by done. auto.
  - intros q r' l' pre'. destruct (decide (p = q)) as [<-|].
    + by rewrite !fn_lookup_insert.
    + rewrite !fn_lookup_insert_ne by done. apply Rpt.
  - intros r' v Hr' Hv. assert (0 ≤ UPAGES) by done. rewrite EP by (done || lia). auto.
Qed.

Lemma nt_vinv : vinv nt_ghost nt_state.
Proof. split; [apply nt_tinv|apply nt_rinv]. Qed.

End new_table.

(** ** [walk] with allocation *)

Lemma kalloc_cases g s :
  vinv g s →
  (gfl g = [] ∧ kalloc s = Ok (0, s)) ∨
  ∃ p fl, gfl g = p :: fl ∧ page_ok p ∧ p ≠ 0 ∧ own g p = OFree ∧
          kalloc s = Ok (p, alloc_state p s).
Proof.
  intros V. pose proof (ti_k _ _ (vi_t _ _ V)) as K. destruct K as [Hl _ Hc _ Hp _ _].
  destruct (gfl g) as [|p fl] eqn:E; simpl in Hc.
  - left. split; [done|]. by apply kalloc_run_empty.
  - right. destruct Hc as [Hf _]. apply Forall_cons in Hp as [Hp _].
    pose proof (page_ok_pos p Hp). exists p, fl. split_and!; [done..|lia| |].
    + apply (ti_free _ _ (vi_t _ _ V)). rewrite E. by left.
    + rewrite <-Hf. apply kalloc_run; [done|lia].
Qed.

(** The pages taken for [va] are tables on the way to it. *)
Definition took (r va : Z) (l : nat) (g g' : ghost) : Prop :=
  ∃ new, gfl g = new ++ gfl g' ∧ ∀ p, p ∈ new → ∃ l', (l' < l)%nat ∧ own g' p = OPT r l' (pfx l' va).

Lemma took_none r va l g : took r va l g g.
Proof. exists []. split; [done|]. intros p Hp. by apply elem_of_nil in Hp. Qed.

Lemma wp_walk_loop_alloc l va r : ∀ g s pt,
  0 ≤ va < MAXVA → vinv g s → own g pt = OPT r l (pfx l va) →
  wp (walk_loop l pt va true) s (λ a s', ∃ g', vinv g' s' ∧ grows g s g' s' ∧ took r va l g g' ∧
    ((a = 0 ∧ gfl g' = []) ∨ ∃ p0, own g' p0 = OPT r 0 (pfx 0 va) ∧ a = p0 + 8 * PX 0 va)).
Proof.
  induction l as [|l IH]; intros g s pt Hva V Hpt; cbn [walk_loop].
  - apply wp_ret. exists g. eauto 10 using grows_refl, took_none.
  - assert (0 ≤ PX (Z.of_nat (S l)) va < 512) as Hi by (apply PX_range; lia).
    wp_steps. unfold read64. wp_steps. wp_if.
    + eapply wp_mono; [apply (IH g); [done..|]|].
      { erewrite entry_child by (eauto using vi_t). by rewrite <-pfx_child. }
      intros a s' (g' & V' & G & (new & En & Hnew) & Hc). exists g'. split_and!; [done|done| |done].
      exists new. split; [done|]. intros p Hp. destruct (Hnew p Hp) as (l' & ? & ?). exists l'. split; [lia|done].
    + cbn [negb]. wp_steps. pose proof (pfx_bound l va Hva) as Hb. rewrite pfx_child in Hb.
      destruct (kalloc_cases g s V) as [[Hfl E']|(p & fl & Hfl & Hp & Hp0 & Hfr & E')].
      { eapply wp_Ok; [done|]. simpl. apply wp_ret. exists g. eauto 10 using grows_refl, took_none. }
      eapply wp_Ok; [done|]. destruct (Z.eqb_spec p 0); [done|].
      unfold kmemset, write64. wp_steps.
      eapply wp_mono.
      { apply (IH (nt_ghost g p fl r l (pfx (S l) va) (PX (Z.of_nat (S l)) va))); [done|by apply nt_vinv|].
        simpl. by rewrite fn_lookup_insert, <-pfx_child. }
      intros a s' (g' & V' & G & (new & En & Hnew) & Hc). exists g'. split_and!; [done| | |done].
      * eapply grows_trans; [|exact G]. by apply nt_grows.
      * exists (p :: new). split; [change (fl = new ++ gfl g') in En; by rewrite Hfl, En|]. intros q [->|Hq]%elem_of_cons.
        -- exists l. split; [lia|]. apply (gr_pt _ _ _ _ G). simpl. by rewrite fn_lookup_insert, <-pfx_child.
        -- destruct (Hnew q Hq) as (l' & ? & ?). exists l'. split; [lia|done].
Qed.

Lemma wp_walk_tables g s r va :
  vinv g s → own g r = OPT r 2 0 → 0 ≤ va < MAXVA →
  wp (walk r va true) s (λ a s', ∃ g', vinv g' s' ∧ grows g s g' s' ∧ took r va 2 g g' ∧
    ((a = 0 ∧ gfl g' = []) ∨ (a ≠ 0 ∧ a = slot 2 (mem s') r va))).
Proof.
  intros V Hr Hva. unfold walk. destruct (Z.leb_spec MAXVA va); [lia|].
  eapply wp_mono; [apply (wp_walk_loop_alloc 2 va r g); [done|done|by rewrite pfx_root]|].
  intros a s' (g' & V' & G & Ht & [?|(p0 & Hp0 & ->)]); exists g'; [by auto|].
  split; [done|]. split; [done|]. split; [done|]. right. split.
  - pose proof (page_ok_pos p0 (own_OPT_page _ _ (vi_t _ _ V') _ _ _ _ Hp0)).
    assert (0 ≤ PX 0 va < 512) by (apply PX_range; lia). lia.
  - symmetry. apply (slot_complete _ _ (vi_t _ _ V')). done.
Qed.

Lemma wp_walk_alloc g s r va :
  vinv g s → own g r = OPT r 2 0 → 0 ≤ va < MAXVA →
  wp (walk r va true) s (λ a s', ∃ g', vinv g' s' ∧ grows g s g' s' ∧
    ((a = 0 ∧ gfl g' = []) ∨ (a ≠ 0 ∧ a = slot 2 (mem s') r va))).
Proof. intros V Hr Hva. eapply wp_mono; [by apply wp_walk_tables|]. intros a s' (g' & V' & G & _ & Hc). by exists g'. Qed.

End walk.
