(* ===== verification/VmRef.v ===== *)
(** * Changes of mappings and of reference counts

    The elementary steps of vm.c on the invariant: writing a leaf entry,
    taking a page from the allocator, adding and dropping a reference.  Each
    step is first shown on the reference layer [rinv], where a step is a
    change of one entry of the table and of one counter, and then on machine
    states. *)

From S2P Require Import Prelude Riscv Memory Kalloc Vm VmInv VmWalk.

(** The entries after writing [e] for page [v] of table [r]. *)
Definition upd2 (P : Z → Z → Z) (r v e : Z) : Z → Z → Z :=
  λ r' v', if decide (r' = r ∧ v' = v) then e else P r' v'.

Lemma upd2_eq P r v e : upd2 P r v e r v = e.
Proof. unfold upd2. by rewrite decide_True. Qed.
Lemma upd2_ne P r v e r' v' : (r', v') ≠ (r, v) → upd2 P r v e r' v' = P r' v'.
Proof. intros Hne. unfold upd2. rewrite decide_False; [done|]. by intros [-> ->]. Qed.

Lemma size_nonempty (X : gset (Z * Z)) x : x ∈ X → size X ≠ 0%nat.
Proof. intros Hx HX. apply size_empty_inv in HX. set_solver. Qed.

(** ** Ghost steps *)

Definition g_map (pa r v : Z) (g : ghost) : ghost :=
  mkGhost (own g) (gfl g) (roots g) (<[pa := {[(r, v)]} ∪ refs g pa]> (refs g))
          (<[pa := kref g pa - 1]> (kref g)).
Definition g_unmap (pa r v : Z) (g : ghost) : ghost :=
  mkGhost (own g) (gfl g) (roots g) (<[pa := refs g pa ∖ {[(r, v)]}]> (refs g))
          (<[pa := kref g pa + 1]> (kref g)).
Definition g_kref (pa n : Z) (g : ghost) : ghost :=
  mkGhost (own g) (gfl g) (roots g) (refs g) (<[pa := n]> (kref g)).
(** a page leaves the free list; a page joins it *)
Definition g_alloc (p : Z) (fl : list Z) (g : ghost) : ghost :=
  mkGhost (<[p := OData]> (own g)) fl (roots g) (refs g) (<[p := 1]> (kref g)).
Definition g_free (p : Z) (g : ghost) : ghost :=
  mkGhost (<[p := OFree]> (own g)) (p :: gfl g) (roots g) (refs g) (<[p := 0]> (kref g)).

(** Reduces the projections of ghost and machine states. *)
Ltac gsimpl :=
  cbn [own gfl roots refs kref g_map g_unmap g_kref g_alloc g_free
       mem klock freelist refcount set_mem set_klock set_freelist set_refcount
       alloc_state free_state].

Section steps.
Context `{Layout}.

Lemma rinv_ext g P P' rc :
  rinv g P rc → (∀ r v, r ∈ roots g → 0 ≤ v < VPAGES → P' r v = P r v) → rinv g P' rc.
Proof.
  intros [A B C D E F G HH] HP. split; try done.
  - intros r v Hr Hv. rewrite HP by auto using upage_vpage. auto.
  - intros r v Hr Hv. rewrite HP by auto using upage_vpage. auto.
  - intros p r v Hp. destruct (D p r v Hp) as (? & ? & ?). rewrite HP; auto using upage_vpage.
  - intros r v Hr Hv. assert (0 ≤ UPAGES) by done. rewrite HP by (done || lia). auto.
Qed.

Section one_entry.
Context (g : ghost) (P : Z → Z → Z) (rc : Z → Z) (r v : Z).
Hypothesis R : rinv g P rc.
Hypothesis Hr : r ∈ roots g.
Hypothesis Hv : 0 ≤ v < UPAGES.

Lemma rinv_high_upd2 e r' v' :
  r' ∈ roots g → UPAGES ≤ v' < VPAGES → has (upd2 P r v e r' v') PTE_U = false.
Proof.
  intros Hr' Hv'. rewrite upd2_ne; [by apply (ri_high _ _ _ R)|]. intros [= -> ->]. lia.
Qed.

(** Same page, other permissions. *)
Lemma rinv_protect e :
  has (P r v) PTE_V = true → has e PTE_V = true → PTE2PA e = PTE2PA (P r v) →
  (has e PTE_W = true → refs g (PTE2PA e) = {[(r, v)]} ∧ kref g (PTE2PA e) = 0) →
  rinv g (upd2 P r v e) rc.
Proof.
  intros HV HeV Hpa HW. destruct R as [A B C D E F G HH]. split; try done.
  - intros r' v' Hr' Hv'. destruct (decide ((r', v') = (r, v))) as [[= -> ->]|].
    + rewrite upd2_eq, Hpa. auto.
    + rewrite upd2_ne by done. auto.
  - intros r' v' Hr' Hv'. destruct (decide ((r', v') = (r, v))) as [[= -> ->]|].
    + rewrite upd2_eq. auto.
    + rewrite upd2_ne by done. auto.
  - intros p r' v' Hp. destruct (D p r' v' Hp) as (? & ? & ? & ?).
    destruct (decide ((r', v') = (r, v))) as [[= -> ->]|].
    + rewrite upd2_eq, Hpa. auto.
    + rewrite upd2_ne by done. auto.
  - auto using rinv_high_upd2.
Qed.

(** A kernel reference becomes a mapping. *)
Lemma rinv_map e :
  let pa := PTE2PA e in
  has (P r v) PTE_V = false → has e PTE_V = true → own g pa = OData → 1 ≤ kref g pa →
  (has e PTE_W = true → refs g pa = ∅ ∧ kref g pa = 1) →
  rinv (g_map pa r v g) (upd2 P r v e) rc.
Proof.
  intros pa HV HeV Ho Hk HW. destruct R as [A B C D E F G HH].
  assert ((r, v) ∉ refs g pa) as Hnew.
  { intros (_ & _ & ? & _)%D. congruence. }
  split; simpl; try done.
  - intros r' v' Hr' Hv'. destruct (decide ((r', v') = (r, v))) as [[= -> ->]|Hne].
    + rewrite upd2_eq. fold pa. rewrite fn_lookup_insert. intros _.
      split; [done|]. by apply elem_of_union_l, elem_of_singleton.
    + rewrite upd2_ne by done. intros HV'. destruct (B r' v' Hr' Hv' HV') as [? ?].
      split; [done|]. fn_case pa (PTE2PA (P r' v')); [by apply elem_of_union_r|done].
  - intros r' v' Hr' Hv'. destruct (decide ((r', v') = (r, v))) as [[= -> ->]|Hne].
    + rewrite upd2_eq. fold pa. rewrite !fn_lookup_insert. intros _ HW'.
      destruct (HW HW') as [-> ->]. split; [clear; set_solver|lia].
    + rewrite upd2_ne by done. intros HV' HW'. destruct (C r' v' Hr' Hv' HV' HW') as [? Hk0].
      fn_case pa (PTE2PA (P r' v')); [lia|done].
  - intros p r' v'. fn_case pa p.
    + rewrite elem_of_union, elem_of_singleton. intros [[= -> ->]|Hin].
      * by rewrite upd2_eq.
      * rewrite upd2_ne by congruence. auto.
    + intros Hin. rewrite upd2_ne; [auto|]. intros [= -> ->].
      destruct (D p r v Hin) as (_ & _ & ? & _). congruence.
  - intros p Hp. rewrite E by done. fn_case pa p; [|done].
    rewrite size_union by (apply disjoint_singleton_l; done). rewrite size_singleton. lia.
  - intros p. fn_case pa p; [lia|auto].
  - intros p r' l pre Hp. rewrite fn_lookup_insert_ne by congruence. eauto.
  - auto using rinv_high_upd2.
Qed.

(** A mapping becomes a kernel reference. *)
Lemma rinv_unmap e :
  let pa := PTE2PA (P r v) in
  has (P r v) PTE_V = true → has e PTE_V = false →
  rinv (g_unmap pa r v g) (upd2 P r v e) rc.
Proof.
  intros pa HV HeV. destruct R as [A B C D E F G HH].
  destruct (B r v Hr Hv HV) as [Ho Hin]. fold pa in Ho, Hin.
  split; simpl; try done.
  - intros r' v' Hr' Hv'. destruct (decide ((r', v') = (r, v))) as [[= -> ->]|Hne].
    + rewrite upd2_eq. congruence.
    + rewrite upd2_ne by done. intros HV'. destruct (B r' v' Hr' Hv' HV') as [? ?].
      split; [done|]. fn_case pa (PTE2PA (P r' v')); [|done].
      apply elem_of_difference. by rewrite not_elem_of_singleton.
  - intros r' v' Hr' Hv'. destruct (decide ((r', v') = (r, v))) as [[= -> ->]|Hne].
    + rewrite upd2_eq. congruence.
    + rewrite upd2_ne by done. intros HV' HW'. destruct (C r' v' Hr' Hv' HV' HW') as [Hs ?].
      fn_case pa (PTE2PA (P r' v')); [|done].
      rewrite Hs, elem_of_singleton in Hin. congruence.
  - intros p r' v'. fn_case pa p.
    + rewrite elem_of_difference, not_elem_of_singleton. intros [? ?].
      rewrite upd2_ne by done. auto.
    + intros Hin'. rewrite upd2_ne; [auto|]. intros [= -> ->].
      destruct (D p r v Hin') as (_ & _ & _ & ?). done.
  - intros p Hp. rewrite E by done. fn_case pa p; [|done].
    rewrite size_difference by (by apply singleton_subseteq_l). rewrite size_singleton.
    assert (size (refs g pa) ≠ 0%nat) by (eapply size_nonempty; eauto).
    lia.
  - intros p. fn_case pa p; [|auto]. specialize (F pa). lia.
  - intros p r' l pre Hp. rewrite fn_lookup_insert_ne by congruence. eauto.
  - auto using rinv_high_upd2.
Qed.
End one_entry.

(** The kernel takes, or drops, a reference to a page that nobody can write. *)
Lemma rinv_kref g P rc pa n :
  rinv g P rc → own g pa = OData → page_ok pa → 0 ≤ n →
  (∀ r v, (r, v) ∈ refs g pa → has (P r v) PTE_W = true → n = 0) →
  rinv (g_kref pa n g) P (<[pa / PGSIZE := rc (pa / PGSIZE) + (n - kref g pa)]> rc).
Proof.
  intros [A B C D E F G HH] Ho Hpa Hn HW. split; simpl; try done.
  - intros r v Hr Hv HV HW'. destruct (C r v Hr Hv HV HW') as [Hs ?]. split; [done|].
    fn_case pa (PTE2PA (P r v)); [|done]. apply (HW r v); [|done].
    rewrite Hs. by apply elem_of_singleton.
  - intros p Hp. destruct (decide (pa = p)) as [<-|].
    + rewrite !fn_lookup_insert, E by done. lia.
    + rewrite !fn_lookup_insert_ne; auto. intros ?%page_eq_index; done.
  - intros p. fn_case pa p; auto.
  - intros p r l pre Hp. rewrite fn_lookup_insert_ne by congruence. eauto.
Qed.

Lemma rinv_alloc g P rc p fl :
  rinv g P rc → own g p = OFree → page_ok p → refs g p = ∅ →
  rinv (g_alloc p fl g) P (<[p / PGSIZE := 1]> rc).
Proof.
  intros [A B C D E F G HH] Ho Hp Hrefs.
  assert (∀ r v, r ∈ roots g → 0 ≤ v < UPAGES → has (P r v) PTE_V = true → p ≠ PTE2PA (P r v)) as Hne.
  { intros r v Hr Hv HV ->. destruct (B r v Hr Hv HV). congruence. }
  split; simpl; try done.
  - intros r Hr. rewrite fn_lookup_insert_ne; [auto|]. intros <-. specialize (A p Hr). congruence.
  - intros r v Hr Hv HV. rewrite fn_lookup_insert_ne by auto. auto.
  - intros r v Hr Hv HV HW. rewrite fn_lookup_insert_ne by auto. auto.
  - intros q Hq. destruct (decide (p = q)) as [<-|].
    + rewrite !fn_lookup_insert, Hrefs. done.
    + rewrite !fn_lookup_insert_ne; auto. intros ?%page_eq_index; done.
  - intros q. fn_case p q; [lia|auto].
  - intros q r l pre. fn_case p q; [done|]. apply G.
Qed.

Lemma rinv_free g P rc p :
  rinv g P rc → own g p = OData → page_ok p → refs g p = ∅ →
  rinv (g_free p g) P (<[p / PGSIZE := 0]> rc).
Proof.
  intros [A B C D E F G HH] Ho Hp Hrefs.
  assert (∀ r v, r ∈ roots g → 0 ≤ v < UPAGES → has (P r v) PTE_V = true → p ≠ PTE2PA (P r v)) as Hne.
  { intros r v Hr Hv HV ->. destruct (B r v Hr Hv HV) as [_ Hin].
    rewrite Hrefs in Hin. by apply not_elem_of_empty in Hin. }
  split; simpl; try done.
  - intros r Hr. rewrite fn_lookup_insert_ne; [auto|]. intros <-. specialize (A p Hr). congruence.
  - intros r v Hr Hv HV. rewrite fn_lookup_insert_ne by auto. auto.
  - intros r v Hr Hv HV HW. rewrite fn_lookup_insert_ne by auto. auto.
  - intros q Hq. destruct (decide (p = q)) as [<-|].
    + rewrite !fn_lookup_insert, Hrefs. done.
    + rewrite !fn_lookup_insert_ne; auto. intros ?%page_eq_index; done.
  - intros q. fn_case p q; [lia|auto].
  - intros q r l pre. fn_case p q; [done|]. apply G.
Qed.

(** ** Steps on machine states *)

(** Writing the entry for [va] in the table [r]. *)
Definition set_pte (r va e : Z) (s : kmem) : kmem :=
  set_mem (store64 (mem s) (slot 2 (mem s) r va) e) s.

(** The caller drops a reference it holds: the page is freed when it was the
    last one. *)
Definition g_drop (p : Z) (g : ghost) : ghost :=
  if decide (Z.of_nat (size (refs g p)) + kref g p = 1) then g_free p g
  else g_kref p (kref g p - 1) g.

Context `{!LayoutOk}.

Lemma slot_valid m r va : has (pte_of m r va) PTE_V = true → slot 2 m r va ≠ 0.
Proof. unfold pte_at. intros Hv E. by rewrite E in Hv. Qed.

Lemma div_page v : v * PGSIZE / PGSIZE = v.
Proof. apply Z.div_mul. unfold PGSIZE. lia. Qed.

Lemma upte_set_pte g s r v e r' v' :
  tinv g s → own g r = OPT r 2 0 → own g r' = OPT r' 2 0 →
  0 ≤ v * PGSIZE < MAXVA → 0 ≤ v' * PGSIZE < MAXVA →
  slot 2 (mem s) r (v * PGSIZE) ≠ 0 → 0 ≤ e < 2 ^ 64 →
  upte (set_pte r (v * PGSIZE) e s) r' v' = upd2 (upte s) r v e r' v'.
Proof.
  intros T Hr Hr' Hv Hv' Hs He. unfold upte, set_pte, upd2. cbn [mem set_mem].
  rewrite (pte_of_store_leaf g s) by done. by rewrite !div_page.
Qed.

Lemma set_pte_data g s r va e p x :
  tinv g s → own g r = OPT r 2 0 → 0 ≤ va < MAXVA → slot 2 (mem s) r va ≠ 0 →
  own g p = OData → p ≤ x < p + PGSIZE → mem (set_pte r va e s) x = mem s x.
Proof.
  intros T Hr Hva Hs Hp Hx. destruct (slot_root g s T r va) as (q & Hq & E); [done..|].
  unfold set_pte. cbn [mem set_mem]. rewrite E. unfold store64, store_le.
  assert (page_ok p) as Hpp by (eauto using own_OData_page).
  assert (page_ok q) as Hqp by (eauto using own_OPT_page).
  assert (0 ≤ PX 0 va < 512) by (apply PX_range; lia).
  destruct (page_disjoint p q Hpp Hqp); [congruence|..];
    unfold PGSIZE in *; mem_cases; done || lia.
Qed.

Section drop.
Context (p : Z) (g : ghost).
Hypothesis Hp : own g p = OData.

Lemma g_drop_roots : roots (g_drop p g) = roots g.
Proof. unfold g_drop. by case_decide. Qed.
Lemma g_drop_refs : refs (g_drop p g) = refs g.
Proof. unfold g_drop. by case_decide. Qed.
Lemma g_drop_own_ne q : p ≠ q → own (g_drop p g) q = own g q.
Proof. intros. unfold g_drop. case_decide; gsimpl; by rewrite ?fn_lookup_insert_ne. Qed.
Lemma g_drop_kref_ne q : p ≠ q → kref (g_drop p g) q = kref g q.
Proof. intros. unfold g_drop. case_decide; gsimpl; by rewrite ?fn_lookup_insert_ne. Qed.

Lemma g_drop_pt q r l pre : own (g_drop p g) q = OPT r l pre ↔ own g q = OPT r l pre.
Proof.
  destruct (decide (p = q)) as [<-|]; [|by rewrite g_drop_own_ne].
  unfold g_drop. case_decide; gsimpl; [|done]. rewrite fn_lookup_insert. intuition congruence.
Qed.

Lemma g_drop_data q :
  own (g_drop p g) q = OData →
  own g q = OData ∧ (p ≠ q ∨ Z.of_nat (size (refs g p)) + kref g p ≠ 1).
Proof.
  destruct (decide (p = q)) as [<-|]; [|rewrite g_drop_own_ne; auto].
  unfold g_drop. case_decide; gsimpl; [by rewrite fn_lookup_insert|]. auto.
Qed.

Lemma g_drop_keep :
  Z.of_nat (size (refs g p)) + kref g p ≠ 1 →
  own (g_drop p g) p = OData ∧ kref (g_drop p g) p = kref g p - 1.
Proof. intros. unfold g_drop. case_decide; [done|]. gsimpl. by rewrite fn_lookup_insert. Qed.
End drop.

Section state_steps.
Context (g : ghost) (s : kmem).
Hypothesis V : vinv g s.
#[local] Abbreviation T := (vi_t _ _ V).
#[local] Abbreviation R := (vi_r _ _ V).

Section leaf.
Context (r v e : Z).
Hypothesis Hr : r ∈ roots g.
Hypothesis Hv : 0 ≤ v < UPAGES.
Hypothesis Hs : slot 2 (mem s) r (v * PGSIZE) ≠ 0.
Hypothesis He : 0 ≤ e < 2 ^ 64.

Lemma root_label r' : r' ∈ roots g → own g r' = OPT r' 2 0.
Proof. apply (ri_root _ _ _ R). Qed.

Lemma set_pte_tinv : tinv g (set_pte r (v * PGSIZE) e s).
Proof. apply tinv_store_leaf; [apply T|by apply root_label|by apply upage_va|done]. Qed.

Lemma set_pte_ext r' v' :
  r' ∈ roots g → 0 ≤ v' < VPAGES →
  upte (set_pte r (v * PGSIZE) e s) r' v' = upd2 (upte s) r v e r' v'.
Proof.
  intros. eapply upte_set_pte; eauto using root_label, upage_va, vpage_va, vi_t.
Qed.

Lemma vinv_protect :
  has (upte s r v) PTE_V = true → has e PTE_V = true → PTE2PA e = PTE2PA (upte s r v) →
  (has e PTE_W = true → refs g (PTE2PA e) = {[(r, v)]} ∧ kref g (PTE2PA e) = 0) →
  vinv g (set_pte r (v * PGSIZE) e s).
Proof.
  intros. split; [apply set_pte_tinv|].
  eapply rinv_ext; [|apply set_pte_ext]. apply rinv_protect; auto. apply R.
Qed.

Lemma vinv_map :
  let pa := PTE2PA e in
  has (upte s r v) PTE_V = false → has e PTE_V = true → own g pa = OData → 1 ≤ kref g pa →
  (has e PTE_W = true → refs g pa = ∅ ∧ kref g pa = 1) →
  vinv (g_map pa r v g) (set_pte r (v * PGSIZE) e s).
Proof.
  intros pa ? ? ? ? ?. split; [by destruct set_pte_tinv|].
  eapply rinv_ext; [|apply set_pte_ext]. apply rinv_map; auto. apply R.
Qed.

Lemma vinv_unmap :
  let pa := PTE2PA (upte s r v) in
  has (upte s r v) PTE_V = true → has e PTE_V = false →
  vinv (g_unmap pa r v g) (set_pte r (v * PGSIZE) e s).
Proof.
  intros pa ? ?. split; [by destruct set_pte_tinv|].
  eapply rinv_ext; [|apply set_pte_ext]. apply rinv_unmap; auto. apply R.
Qed.
End leaf.

(** Entries above the user part of the address space are not counted. *)
Lemma vinv_set_pte_high r v e :
  own g r = OPT r 2 0 → UPAGES ≤ v < VPAGES → slot 2 (mem s) r (v * PGSIZE) ≠ 0 →
  0 ≤ e < 2 ^ 64 → has e PTE_U = false → vinv g (set_pte r (v * PGSIZE) e s).
Proof.
  intros Hr Hv Hs He HU. assert (0 ≤ UPAGES) by done.
  assert (0 ≤ v * PGSIZE < MAXVA) by (apply vpage_va; lia).
  split; [by apply tinv_store_leaf; [apply T|..]|].
  assert (∀ r' v', r' ∈ roots g → 0 ≤ v' < VPAGES →
    upte (set_pte r (v * PGSIZE) e s) r' v' = upd2 (upte s) r v e r' v') as EP.
  { intros. eapply upte_set_pte; eauto using root_label, vpage_va, vi_t. }
  assert (∀ r' v', 0 ≤ v' < UPAGES → upd2 (upte s) r v e r' v' = upte s r' v') as EU.
  { intros r' v' Hv'. apply upd2_ne. intros [= -> ->]. lia. }
  eapply rinv_ext; [|exact EP]. destruct R as [A B C D E F G HH].
  split; try done.
  - intros r' v' Hr' Hv'. rewrite EU by done. auto.
  - intros r' v' Hr' Hv'. rewrite EU by done. auto.
  - intros p r' v' Hp. destruct (D p r' v' Hp) as (? & ? & ? & ?). rewrite EU by done. auto.
  - intros r' v' Hr' Hv'. unfold upd2. case_decide; auto.
Qed.

Lemma vinv_write_data m' d :
  own g d = OData → bytes_ok m' → (∀ x, x < d ∨ d + PGSIZE ≤ x → m' x = mem s x) →
  vinv g (set_mem m' s).
Proof.
  intros Hd Hb Hm. split; [eapply tinv_write_data; eauto using vi_t|].
  eapply rinv_ext; [apply R|]. intros r v Hr Hv. unfold upte. cbn [mem set_mem].
  eapply pte_of_write_data; eauto using root_label, vpage_va, vi_t.
Qed.

(** Memory outside page [p] decides the tables when [p] is not one of them. *)
Lemma slot_outside m' p r v :
  page_ok p → own g p = OFree ∨ own g p = OData →
  (∀ x, x < p ∨ p + PGSIZE ≤ x → m' x = mem s x) →
  own g r = OPT r 2 0 → slot 2 m' r v = slot 2 (mem s) r v.
Proof.
  intros Hp Ho Hm Hr. apply (slot_frame g s m' 2 r r 0); [apply V|done|].
  intros q l pre i Hq Hi. eapply load_entry_outside; eauto using own_OPT_page, vi_t.
  intros ->. destruct Ho; congruence.
Qed.

Lemma upte_outside m' p r v :
  page_ok p → own g p = OFree ∨ own g p = OData →
  (∀ x, x < p ∨ p + PGSIZE ≤ x → m' x = mem s x) →
  own g r = OPT r 2 0 → 0 ≤ v < MAXVA → pte_of m' r v = pte_of (mem s) r v.
Proof.
  intros Hp Ho Hm Hr Hv.
  assert (∀ q r' l pre i, own g q = OPT r' l pre → 0 ≤ i < 512 →
    load64 m' (q + 8 * i) = load64 (mem s) (q + 8 * i)) as Hl.
  { intros q r' l pre i Hq Hi. eapply load_entry_outside; eauto using own_OPT_page, vi_t.
    intros ->. destruct Ho; congruence. }
  unfold pte_at. rewrite (slot_frame g s m' 2 r r 0) by (eauto using vi_t).
  destruct (Z.eqb_spec (slot 2 (mem s) r v) 0); [done|].
  destruct (slot_root g s T r v) as (q & Hq & ->); [done..|].
  eapply Hl; [done|]. apply PX_range. lia.
Qed.

(** A page that is not a page-table page changes owner. *)
Lemma tinv_retype p o fl rf kr s' :
  page_ok p → own g p = OFree ∨ own g p = OData → o = OFree ∨ o = OData →
  (∀ q, q ∈ fl ↔ <[p := o]> (own g) q = OFree) → kinv fl s' →
  (∀ x, x < p ∨ p + PGSIZE ≤ x → mem s' x = mem s x) →
  tinv (mkGhost (<[p := o]> (own g)) fl (roots g) rf kr) s'.
Proof.
  intros Hp Ho Ho' Hfl K Hm.
  assert (∀ q r l pre, <[p := o]> (own g) q = OPT r l pre ↔ own g q = OPT r l pre) as Hpt.
  { intros q r l pre. destruct (decide (p = q)) as [<-|].
    - rewrite fn_lookup_insert. intuition congruence.
    - by rewrite fn_lookup_insert_ne. }
  assert (∀ q r l pre i, own g q = OPT r l pre → 0 ≤ i < 512 →
    load64 (mem s') (q + 8 * i) = load64 (mem s) (q + 8 * i)) as Hl.
  { intros q r l pre i Hq Hi. eapply load_entry_outside; eauto using own_OPT_page, vi_t.
    intros ->. destruct Ho; congruence. }
  split; cbn [own gfl]; try done.
  - intros q. destruct (decide (p = q)) as [<-|].
    + rewrite fn_lookup_insert. split; [done|]. intros _. destruct Ho' as [-> | ->]; done.
    + rewrite fn_lookup_insert_ne by done. apply T.
  - intros q r l pre Hq. apply Hpt in Hq. destruct (ti_level _ _ T _ _ _ _ Hq) as (? & ? & ?).
    rewrite Hpt. done.
  - intros q r pre Hq. apply Hpt in Hq. by eapply (ti_root _ _ T).
  - intros q r l pre i Hq Hi. apply Hpt in Hq. rewrite (Hl _ _ _ _ _ Hq) by done. intros HV.
    destruct (ti_entry _ _ T _ _ _ _ _ Hq Hi HV) as (c & ? & ?). exists c. by rewrite Hpt.
  - intros q r l pre Hq Hll. apply Hpt in Hq.
    destruct (ti_parent _ _ T _ _ _ _ Hq Hll) as (q' & Hq' & E). exists q'. rewrite Hpt.
    split; [done|]. rewrite (Hl _ _ _ _ _ Hq') by dlia. done.
Qed.

(** The tables do not depend on the counters. *)
Lemma tinv_counts rt rf kr s' :
  kinv (gfl g) s' → mem s' = mem s → tinv (mkGhost (own g) (gfl g) rt rf kr) s'.
Proof. intros K Hm. pose proof T as []. split; cbn [own gfl]; try done; by rewrite Hm. Qed.

Lemma upte_ext s' p :
  page_ok p → own g p = OFree ∨ own g p = OData →
  (∀ x, x < p ∨ p + PGSIZE ≤ x → mem s' x = mem s x) →
  ∀ r v, r ∈ roots g → 0 ≤ v < VPAGES → upte s' r v = upte s r v.
Proof.
  intros Hp Ho Hm r v Hr Hv. unfold upte.
  eapply upte_outside; eauto using root_label, vpage_va.
Qed.

Lemma alloc_state_outside p x :
  x < p ∨ p + PGSIZE ≤ x → mem (alloc_state p s) x = mem s x.
Proof. intros. simpl. unfold fill. mem_cases; done || lia. Qed.

Lemma free_state_outside p x :
  x < p ∨ p + PGSIZE ≤ x → mem (free_state p s) x = mem s x.
Proof. intros. simpl. unfold store64, store_le, fill, PGSIZE in *. mem_cases; done || lia. Qed.

Lemma vinv_alloc p fl : gfl g = p :: fl → vinv (g_alloc p fl g) (alloc_state p s).
Proof.
  intros Hfl. assert (own g p = OFree) as Ho by (apply (ti_free _ _ T); rewrite Hfl; by left).
  assert (page_ok p) as Hp by (apply (own_page_ok _ _ T); by rewrite Ho).
  pose proof (ti_k _ _ T) as K. rewrite Hfl in K.
  pose proof (ki_nodup _ _ K) as Hnd. apply NoDup_cons in Hnd as [Hn _].
  split.
  - apply tinv_retype; auto using kinv_alloc, alloc_state_outside.
    intros q. destruct (decide (p = q)) as [<-|].
    + rewrite fn_lookup_insert. done.
    + rewrite fn_lookup_insert_ne by done. rewrite <-(ti_free _ _ T), Hfl, elem_of_cons.
      intuition congruence.
  - eapply rinv_ext; [apply rinv_alloc; eauto using free_no_refs; apply R|].
    apply (upte_ext _ p); auto using alloc_state_outside.
Qed.

Lemma count_pos p : own g p = OData → 1 ≤ refcount s (p / PGSIZE).
Proof.
  intros Ho. assert (page_ok p) as Hp by (by eapply own_OData_page; [apply T|]).
  pose proof (ti_k _ _ T) as K. pose proof (ki_nonneg _ _ K p Hp).
  assert (refcount s (p / PGSIZE) ≠ 0).
  { rewrite <-(ki_free _ _ K) by done. rewrite (ti_free _ _ T). congruence. }
  lia.
Qed.

(** Nobody can write a page the kernel holds a reference to. *)
Lemma kref_no_write p r v :
  1 ≤ kref g p → (r, v) ∈ refs g p → has (upte s r v) PTE_W = false.
Proof.
  intros Hk Hin. destruct (ri_refs _ _ _ R _ _ _ Hin) as (? & ? & ? & E).
  destruct (has (upte s r v) PTE_W) eqn:HW; [|done].
  destruct (ri_write _ _ _ R r v) as [_ Hk0]; [done..|]. rewrite E in Hk0. lia.
Qed.

Lemma vinv_drop p :
  own g p = OData → 1 ≤ kref g p → vinv (g_drop p g) (kfree_state p s).
Proof.
  intros Ho Hk. assert (page_ok p) as Hp by (by eapply own_OData_page; [apply T|]).
  pose proof (ri_count _ _ _ R p Hp) as Hc. pose proof (ti_k _ _ T) as K.
  unfold g_drop, kfree_state. rewrite <-Hc.
  destruct (decide (refcount s (p / PGSIZE) = 1)) as [E|E].
  - rewrite E, Z.eqb_refl. assert (refs g p = ∅) as He.
    { apply leibniz_equiv, size_empty_inv. lia. }
    split.
    + apply tinv_retype; auto using free_state_outside.
      * intros q. destruct (decide (p = q)) as [<-|].
        -- rewrite fn_lookup_insert, elem_of_cons. tauto.
        -- rewrite fn_lookup_insert_ne, elem_of_cons by done.
           rewrite (ti_free _ _ T). intuition congruence.
      * apply kinv_free; [done..|lia].
    + eapply rinv_ext; [apply rinv_free; eauto; apply R|].
      apply (upte_ext _ p); auto using free_state_outside.
  - destruct (Z.eqb_spec (refcount s (p / PGSIZE)) 1); [done|].
    pose proof (count_pos p Ho). split.
    + apply tinv_counts; [|done]. apply kinv_set_refcount; try done; [|lia].
      intros Hf. apply (ti_free _ _ T) in Hf. congruence.
    + cbn [set_refcount refcount mem]. replace (refcount s (p / PGSIZE) - 1) with
        (refcount s (p / PGSIZE) + (kref g p - 1 - kref g p)) by lia.
      apply rinv_kref; try done; [apply R|lia|].
      intros r v Hin HW. change (has (upte s r v) PTE_W = true) in HW.
      rewrite (kref_no_write p) in HW; done.
Qed.

Lemma vinv_addref p :
  own g p = OData → (∀ r v, (r, v) ∈ refs g p → has (upte s r v) PTE_W = false) →
  vinv (g_kref p (kref g p + 1) g)
       (set_refcount (p / PGSIZE) (refcount s (p / PGSIZE) + 1) s).
Proof.
  intros Ho HW. assert (page_ok p) as Hp by (by eapply own_OData_page; [apply T|]).
  pose proof (count_pos p Ho). pose proof (ri_nonneg _ _ _ R p). split.
  - apply tinv_counts; [|done]. apply kinv_set_refcount; try done; [apply T| |lia].
    intros Hf. apply (ti_free _ _ T) in Hf. congruence.
  - cbn [set_refcount refcount mem]. replace (refcount s (p / PGSIZE) + 1) with
      (refcount s (p / PGSIZE) + (kref g p + 1 - kref g p)) by lia.
    apply rinv_kref; try done; [apply R|lia|].
    intros r v Hin HW'. change (has (upte s r v) PTE_W = true) in HW'.
    rewrite HW in HW'; done.
Qed.

(** [kfree] on a page the caller holds. *)
Lemma kfree_vrun p : own g p = OData → kfree p s = Ok (tt, kfree_state p s).
Proof.
  intros Ho. apply kfree_run; [apply T|by eapply own_OData_page; [apply T|]|by apply count_pos].
Qed.

(** Contents after dropping a reference: only the page itself can change, and
    only when it is freed. *)
Lemma kfree_state_mem p q x :
  own g p = OData → own (g_drop p g) q = OData → q ≤ x < q + PGSIZE →
  mem (kfree_state p s) x = mem s x.
Proof.
  intros Hp Hq Hx. destruct (g_drop_data p g q Hq) as [Hq' Hd].
  assert (page_ok p) as Hpp by (by eapply own_OData_page, Hp; apply T).
  assert (page_ok q) as Hqp by (by eapply own_OData_page, Hq'; apply T).
  unfold kfree_state. destruct (Z.eqb_spec (refcount s (p / PGSIZE)) 1) as [Hc|]; [|done].
  rewrite (ri_count _ _ _ R) in Hc by done. destruct Hd as [Hne|]; [|done].
  apply free_state_outside. destruct (page_disjoint p q Hpp Hqp Hne); lia.
Qed.

Lemma drop_ptes p r v :
  own g p = OData → own g r = OPT r 2 0 → 0 ≤ v * PGSIZE < MAXVA →
  upte (kfree_state p s) r v = upte s r v.
Proof.
  intros Hp Hr Hv. unfold upte, kfree_state. case_match; [|done].
  assert (page_ok p) by (by eapply own_OData_page, Hp; apply T).
  eapply upte_outside; eauto using free_state_outside.
Qed.

End state_steps.
End steps.
