(* ===== verification/VmOps.v ===== *)
(** * Mapping and unmapping user pages

    Specifications of [mappages] (for one page, the only way user mappings are
    made), [uvmunmap], [uvmdealloc] and [uvmalloc] against the invariant. *)

From S2P Require Import Prelude Riscv Memory Kalloc Vm VmInv VmWalk VmRef.

Section ops.
Context `{Layout, !LayoutOk}.

(** ** mappages *)

Lemma wp_mappages1 g s r va pa perm Q :
  vinv g s → own g r = OPT r 2 0 → 0 ≤ va < MAXVA → va mod PGSIZE = 0 →
  has (pte_of (mem s) r va) PTE_V = false →
  (∀ g' s', vinv g' s' → grows g s g' s' → gfl g' = [] → Q (-1) s') →
  (∀ g' s', vinv g' s' → grows g s g' s' → slot 2 (mem s') r va ≠ 0 →
     Q 0 (set_pte r va (Z.lor (Z.lor (PA2PTE pa) perm) PTE_V) s')) →
  wp (mappages r va PGSIZE pa perm) s Q.
Proof.
  intros V Hr Hva Hal Hinv Hfail Hok. unfold mappages. rewrite Hal. cbn [Z.eqb negb].
  change (PGSIZE mod PGSIZE =? 0) with true. change (PGSIZE =? 0) with false.
  change (Z.to_nat (PGSIZE / PGSIZE)) with 1%nat. cbn [negb mappages_loop].
  wp_steps. eapply wp_mono; [by apply (wp_walk_alloc g)|].
  intros a s' (g' & V' & G & [[-> Hfl]|[Ha ->]]).
  { cbn [Z.eqb]. apply wp_ret. eauto. }
  destruct (Z.eqb_spec (slot 2 (mem s') r va) 0); [done|]. unfold read64. wp_steps.
  assert (load64 (mem s') (slot 2 (mem s') r va) = pte_of (mem s) r va) as ->.
  { rewrite <-(gr_pte _ _ _ _ G) by done. unfold pte_at. by destruct (Z.eqb_spec (slot 2 (mem s') r va) 0). }
  rewrite Hinv. unfold write64. wp_steps.
  replace (va + PGSIZE - PGSIZE) with va by lia. rewrite u64_small, Z.eqb_refl.
  { apply wp_ret. by apply Hok with g'. }
  change MAXVA with (2 ^ 38) in Hva. lia.
Qed.

(** ** uvmunmap *)

(** Freeing the page and clearing the entry commute: they touch different
    pages. *)
Lemma kfree_set_pte_comm g s r va pa :
  tinv g s → own g r = OPT r 2 0 → 0 ≤ va < MAXVA → slot 2 (mem s) r va ≠ 0 →
  own g pa = OData →
  set_mem (store64 (mem (kfree_state pa s)) (slot 2 (mem s) r va) 0) (kfree_state pa s)
  = kfree_state pa (set_pte r va 0 s).
Proof.
  intros T Hr Hva Hs Hpa. destruct (slot_root g s T r va) as (q & Hq & E); [done..|].
  unfold set_pte. rewrite E. unfold kfree_state. cbn [refcount set_mem].
  destruct (refcount s (pa / PGSIZE) =? 1); [|done].
  unfold free_state, set_mem. cbn [mem klock freelist refcount]. f_equal.
  assert (page_ok pa) as Hpp by (eauto using own_OData_page).
  assert (page_ok q) as Hqp by (eauto using own_OPT_page).
  assert (0 ≤ PX 0 va < 512) by (apply PX_range; lia).
  apply mem_ext. intros x. unfold store64, store_le, fill.
  destruct (page_disjoint pa q Hpp Hqp); [congruence|..];
    unfold PGSIZE in *; mem_cases; done || lia.
Qed.

(** One iteration of [uvmunmap] with [do_free]. *)
Lemma uvmunmap_page_run g s r v :
  vinv g s → r ∈ roots g → 0 ≤ v < UPAGES →
  uvmunmap_page r true (v * PGSIZE) s =
    Ok (tt, if has (upte s r v) PTE_V
            then kfree_state (PTE2PA (upte s r v)) (set_pte r (v * PGSIZE) 0 s) else s).
Proof.
  intros V Hr Hv. unfold uvmunmap_page. pose proof (upage_va v Hv) as Hva. munfold.
  rewrite walk_run by lia. unfold upte, pte_at.
  destruct (Z.eqb_spec (slot 2 (mem s) r (v * PGSIZE)) 0) as [E|E]; [done|].
  unfold read64. munfold. destruct (has _ PTE_V) eqn:HV; [|done]. cbn [negb].
  assert (upte s r v = load64 (mem s) (slot 2 (mem s) r (v * PGSIZE))) as Eu.
  { unfold upte, pte_at. by destruct (Z.eqb_spec (slot 2 (mem s) r (v * PGSIZE)) 0). }
  rewrite <-Eu in *. destruct (ri_leaf _ _ _ (vi_r _ _ V) r v Hr Hv HV) as [Ho _].
  rewrite (kfree_vrun g s V) by done. unfold write64. munfold. do 2 f_equal.
  eapply kfree_set_pte_comm; eauto using vi_t, root_label.
Qed.

(** What removing the mappings of pages [lo <= v < hi] of table [r] does. *)
Record unmapped (r lo hi : Z) (g : ghost) (s : kmem) (g' : ghost) (s' : kmem) : Prop := {
  um_roots : roots g' = roots g;
  um_pt p r' l pre : own g' p = OPT r' l pre ↔ own g p = OPT r' l pre;
  um_data p : own g' p = OData → own g p = OData ∧ kref g' p = kref g p ∧
    ∀ x, p ≤ x < p + PGSIZE → mem s' x = mem s x;
  um_kref p : own g p = OData → 1 ≤ kref g p → own g' p = OData;
  um_pte r' v : own g r' = OPT r' 2 0 → 0 ≤ v * PGSIZE < MAXVA → ¬ (r' = r ∧ lo ≤ v < hi) →
    upte s' r' v = upte s r' v;
  um_inv v : lo ≤ v < hi → has (upte s' r v) PTE_V = false;
}.

Lemma unmapped_refl r lo g s : unmapped r lo lo g s g s.
Proof. split; try done; lia. Qed.

Lemma unmapped_trans r lo mid hi g s g1 s1 g2 s2 :
  own g r = OPT r 2 0 → 0 ≤ lo * PGSIZE → hi * PGSIZE ≤ MAXVA → lo ≤ mid ≤ hi →
  unmapped r lo mid g s g1 s1 → unmapped r mid hi g1 s1 g2 s2 → unmapped r lo hi g s g2 s2.
Proof.
  intros Hr Hlo Hhi Hm [a1 a2 a3 a4 a5 a6] [b1 b2 b3 b4 b5 b6]. split.
  - congruence.
  - intros p r' l pre. by rewrite b2.
  - intros p Hp. destruct (b3 p Hp) as (Hp1 & E & Em). destruct (a3 p Hp1) as (? & ? & Em').
    split; [done|]. split; [congruence|]. intros x Hx. rewrite Em by done. auto.
  - intros p Hp Hk. pose proof (a4 p Hp Hk) as Hp1. apply b4; [done|].
    destruct (a3 p Hp1) as (_ & -> & _). done.
  - intros r' v Hr' Hv Hn. rewrite b5, a5; try done; [lia|by apply a2|lia].
  - intros v Hv. destruct (Z.lt_ge_cases v mid) as [?|?]; [|apply b6; lia].
    rewrite b5; [apply a6; lia|by apply a2| |lia].
    unfold PGSIZE, MAXVA in *. simpl in *. lia.
Qed.

Lemma unmapped_page g s r v :
  vinv g s → r ∈ roots g → 0 ≤ v < UPAGES →
  ∃ g' s', uvmunmap_page r true (v * PGSIZE) s = Ok (tt, s') ∧ vinv g' s' ∧
           unmapped r v (v + 1) g s g' s'.
Proof.
  intros V Hr Hv. rewrite (uvmunmap_page_run g) by done.
  pose proof (vi_t _ _ V) as T. pose proof (root_label _ _ V r Hr) as Hrl.
  pose proof (upage_va v Hv) as Hva.
  destruct (has (upte s r v) PTE_V) eqn:HV.
  2:{ exists g, s. split; [done|]. split; [done|]. split; try done.
      intros v' Hv'. by replace v' with v by lia. }
  assert (slot 2 (mem s) r (v * PGSIZE) ≠ 0) as Hs by (by apply slot_valid).
  set (pa := PTE2PA (upte s r v)). set (s1 := set_pte r (v * PGSIZE) 0 s).
  set (g1 := g_unmap pa r v g).
  assert (vinv g1 s1) as V1 by (apply vinv_unmap; done).
  destruct (ri_leaf _ _ _ (vi_r _ _ V) r v Hr Hv HV) as [Ho Hin]. fold pa in Ho, Hin.
  assert (kref g1 pa = kref g pa + 1) as Hk1 by (unfold g1; gsimpl; by rewrite fn_lookup_insert).
  assert (∀ q, pa ≠ q → kref g1 q = kref g q) as Hk2.
  { intros. unfold g1; gsimpl. by rewrite fn_lookup_insert_ne. }
  pose proof (ri_nonneg _ _ _ (vi_r _ _ V) pa) as Hnn. assert (own g1 pa = OData) as Ho1 by done.
  exists (g_drop pa g1), (kfree_state pa s1). split; [done|].
  split; [apply vinv_drop; [done..|lia]|].
  assert (∀ r' v', own g r' = OPT r' 2 0 → 0 ≤ v' * PGSIZE < MAXVA →
    upte (kfree_state pa s1) r' v' = upd2 (upte s) r v 0 r' v') as EP.
  { intros r' v' Hr' Hv'. rewrite (drop_ptes g1) by done. unfold s1. by rewrite (upte_set_pte g) by (done || lia). }
  split.
  - by rewrite g_drop_roots.
  - intros p r' l pre. by rewrite g_drop_pt.
  - intros p Hp. destruct (g_drop_data pa g1 p Hp) as [Hop Hd]. split; [done|]. split.
    + destruct (decide (pa = p)) as [<-|Hne].
      * destruct (g_drop_keep pa g1 Ho1) as [_ ->]; [tauto|lia].
      * rewrite g_drop_kref_ne by done. auto.
    + intros x Hx. rewrite (kfree_state_mem g1 s1 V1 pa p) by done. by eapply set_pte_data.
  - intros p Hp Hk. destruct (decide (pa = p)) as [<-|]; [|by rewrite g_drop_own_ne].
    apply g_drop_keep; [done|]. rewrite Hk1. lia.
  - intros r' v' Hr' Hv' Hn. rewrite EP by done. apply upd2_ne. intros [= -> ->]. apply Hn. lia.
  - intros v' Hv'. replace v' with v by lia. rewrite EP by done. by rewrite upd2_eq.
Qed.

Lemma wp_uvmunmap g s r lo n Q :
  vinv g s → r ∈ roots g → 0 ≤ lo → 0 ≤ n → lo + n ≤ UPAGES →
  (∀ g' s', vinv g' s' → unmapped r lo (lo + n) g s g' s' → Q tt s') →
  wp (uvmunmap r (lo * PGSIZE) n true) s Q.
Proof.
  intros V Hr Hlo Hn Hhi HQ. unfold uvmunmap.
  assert (lo * PGSIZE mod PGSIZE = 0) as -> by (unfold PGSIZE; dlia). cbn [Z.eqb negb].
  assert (UPAGES * PGSIZE < 2 ^ 64) as HU by reflexivity.
  assert (pages_between (lo * PGSIZE) (u64 (lo * PGSIZE + u64 (n * PGSIZE))) = Z.to_nat n) as ->.
  { unfold pages_between. unfold PGSIZE in *. rewrite (u64_small (n * 4096)), u64_small by lia.
    f_equal. dlia. }
  pose proof (root_label _ _ V r Hr) as Hrl.
  apply (wp_for_up (λ k s', ∃ g', vinv g' s' ∧ unmapped r lo (lo + Z.of_nat k) g s g' s')).
  - exists g. rewrite Z.add_0_r. eauto using unmapped_refl.
  - intros k s1 Hk (g1 & V1 & U1).
    replace (lo * PGSIZE + Z.of_nat k * PGSIZE) with ((lo + Z.of_nat k) * PGSIZE) by lia.
    destruct (unmapped_page g1 s1 r (lo + Z.of_nat k)) as (g2 & s2 & E & V2 & U2); [done| |lia|].
    { by rewrite (um_roots _ _ _ _ _ _ _ U1). }
    eapply wp_Ok; [done|]. exists g2. split; [done|].
    replace (Z.of_nat (S k)) with (Z.of_nat k + 1) by lia. rewrite Z.add_assoc.
    eapply unmapped_trans; [done|..|exact U1|exact U2]; [unfold PGSIZE; lia| |lia].
    assert (UPAGES * PGSIZE ≤ MAXVA) by done. unfold PGSIZE in *. lia.
  - intros s' (g' & V' & U'). rewrite Z2Nat.id in U' by done. eauto.
Qed.

(** ** uvmdealloc *)

(** The number of pages that [sz] bytes occupy. *)
Definition npg (sz : Z) : Z := PGROUNDUP sz / PGSIZE.

Lemma PGROUNDUP_npg sz : 0 ≤ sz ≤ TRAPFRAME → PGROUNDUP sz = npg sz * PGSIZE.
Proof.
  intros Hsz. change TRAPFRAME with (2 ^ 38 - 8192) in Hsz. unfold npg.
  destruct (PGROUNDUP_spec sz); [lia|unfold PGSIZE; lia|]. unfold PGSIZE in *. dlia.
Qed.

Lemma npg_range sz : 0 ≤ sz ≤ TRAPFRAME → 0 ≤ npg sz ≤ UPAGES.
Proof.
  intros Hsz. unfold npg, UPAGES. change TRAPFRAME with (2 ^ 38 - 8192) in *.
  destruct (PGROUNDUP_spec sz); [lia|unfold PGSIZE; lia|]. unfold PGSIZE in *. dlia.
Qed.

Lemma npg_mono a b : 0 ≤ a ≤ b → b ≤ TRAPFRAME → npg a ≤ npg b.
Proof.
  intros Hab Hb. change TRAPFRAME with (2 ^ 38 - 8192) in *. unfold npg.
  rewrite !PGROUNDUP_eq by (unfold PGSIZE; lia). unfold PGSIZE. dlia.
Qed.

(** Page [v] lies within the first [sz] bytes. *)
Lemma npg_lt sz v : 0 ≤ sz ≤ TRAPFRAME → v < npg sz ↔ v * PGSIZE < sz.
Proof.
  intros Hsz. change TRAPFRAME with (2 ^ 38 - 8192) in *. unfold npg.
  rewrite PGROUNDUP_eq by (unfold PGSIZE; lia). unfold PGSIZE. dlia.
Qed.

Lemma wp_uvmdealloc g s r oldsz newsz Q :
  vinv g s → r ∈ roots g → 0 ≤ newsz → 0 ≤ oldsz ≤ TRAPFRAME →
  (oldsz ≤ newsz → Q oldsz s) →
  (newsz < oldsz → ∀ g' s', vinv g' s' → unmapped r (npg newsz) (npg oldsz) g s g' s' → Q newsz s') →
  wp (uvmdealloc r oldsz newsz) s Q.
Proof.
  intros V Hr Hnew Hold Hsame Hless. unfold uvmdealloc. wp_if; [by apply wp_ret, Hsame|].
  pose proof (npg_mono newsz oldsz) as Hmono. pose proof (npg_range oldsz Hold) as Hro.
  pose proof (npg_range newsz) as Hrn. assert (UPAGES < 2 ^ 31) as HU by done.
  rewrite !PGROUNDUP_npg by lia. apply wp_bind, wp_when.
  - intros Hb. breflect.
    assert ((npg oldsz * PGSIZE - npg newsz * PGSIZE) / PGSIZE = npg oldsz - npg newsz) as ->.
    { unfold PGSIZE. dlia. }
    rewrite s32_small, u64_small by lia. apply (wp_uvmunmap g); [done|done|lia|lia|lia|].
    intros g' s' V' U'. apply wp_ret. replace (npg newsz + (npg oldsz - npg newsz))
      with (npg oldsz) in U' by lia. by eapply Hless.
  - intros Hb. breflect. apply wp_ret. apply (Hless ltac:(lia) g); [done|].
    assert (npg newsz = npg oldsz) as -> by (unfold PGSIZE in *; lia). apply unmapped_refl.
Qed.

(** ** Mapping a fresh page *)

(** Existing data pages and page tables are not disturbed. *)
Record stable (g : ghost) (s : kmem) (g' : ghost) (s' : kmem) : Prop := {
  sb_roots : roots g' = roots g;
  sb_pt p r l pre : own g p = OPT r l pre → own g' p = OPT r l pre;
  sb_data p : own g p = OData →
    own g' p = OData ∧ kref g' p = kref g p ∧ refs g' p = refs g p ∧
    ∀ x, p ≤ x < p + PGSIZE → mem s' x = mem s x;
}.

Lemma stable_refl g s : stable g s g s.
Proof. split; auto. Qed.

Lemma stable_trans g s g1 s1 g2 s2 : stable g s g1 s1 → stable g1 s1 g2 s2 → stable g s g2 s2.
Proof.
  intros [a1 a2 a3] [b1 b2 b3]. split; [congruence|auto|].
  intros p Hp. destruct (a3 p Hp) as (Hp1 & Ek & Er & Em). destruct (b3 p Hp1) as (? & ? & ? & Em').
  split_and!; [done|congruence|congruence|]. intros x Hx. rewrite Em' by done. auto.
Qed.

Lemma grows_stable g s g' s' : grows g s g' s' → stable g s g' s'.
Proof.
  intros [e1 e2 e3 e4 e5 e6 e7]. split; [done|done|]. intros p Hp. destruct (e3 p Hp).
  rewrite e1. eauto 10.
Qed.

(** The entries of all tables, user or not. *)
Definition same_ptes (g : ghost) (P P' : Z → Z → Z) : Prop :=
  ∀ r v, own g r = OPT r 2 0 → 0 ≤ v * PGSIZE < MAXVA → P' r v = P r v.

Lemma grows_same_ptes g s g' s' : grows g s g' s' → same_ptes g (upte s) (upte s').
Proof. intros G r v Hr Hv. by apply (gr_pte _ _ _ _ G). Qed.

Lemma same_ptes_trans g g1 P P1 P2 :
  (∀ r, own g r = OPT r 2 0 → own g1 r = OPT r 2 0) →
  same_ptes g P P1 → same_ptes g1 P1 P2 → same_ptes g P P2.
Proof. intros Hr A B r v Hrv Hv. rewrite B by auto. by apply A. Qed.

(** A page fresh from [kalloc], filled with zeros. *)
Definition zeroed (p : Z) (s : kmem) : kmem :=
  set_mem (fill (mem (alloc_state p s)) p 0 PGSIZE) (alloc_state p s).

Lemma zeroed_outside p s x : x < p ∨ p + PGSIZE ≤ x → mem (zeroed p s) x = mem s x.
Proof. intros. unfold zeroed. gsimpl. unfold fill. mem_cases; done || lia. Qed.

Section fresh.
Context (g : ghost) (s : kmem) (p : Z) (fl : list Z).
Hypothesis V : vinv g s.
Hypothesis Hfl : gfl g = p :: fl.

Lemma fresh_free : own g p = OFree.
Proof. apply (ti_free _ _ (vi_t _ _ V)). rewrite Hfl. by left. Qed.
Lemma fresh_page : page_ok p.
Proof. apply (own_page_ok _ _ (vi_t _ _ V)). by rewrite fresh_free. Qed.

Lemma fresh_vinv : vinv (g_alloc p fl g) (zeroed p s).
Proof.
  unfold zeroed. apply vinv_write_data with p.
  - by apply vinv_alloc.
  - gsimpl. by rewrite fn_lookup_insert.
  - apply bytes_ok_fill, bytes_ok_fill. apply V.
  - intros x Hx. unfold fill at 1. mem_cases; done || lia.
Qed.

Lemma fresh_stable : stable g s (g_alloc p fl g) (zeroed p s).
Proof.
  pose proof fresh_free as Hf. split; gsimpl; [done|..].
  - intros q r l pre Hq. rewrite fn_lookup_insert_ne; congruence.
  - intros q Hq. rewrite !fn_lookup_insert_ne by congruence. split_and!; try done.
    intros x Hx. apply zeroed_outside.
    destruct (page_disjoint p q); [apply fresh_page|by eapply own_OData_page, Hq; apply V|congruence|lia|lia].
Qed.

Lemma fresh_same_ptes : same_ptes g (upte s) (upte (zeroed p s)).
Proof.
  intros r v Hr Hv. unfold upte.
  eapply (upte_outside g s V); eauto using fresh_page, fresh_free, zeroed_outside.
Qed.

Lemma fresh_zero x : p ≤ x < p + PGSIZE → mem (zeroed p s) x = 0.
Proof. intros. unfold zeroed. gsimpl. unfold fill. mem_cases; done || lia. Qed.
End fresh.

(** [vmfault] and [uvmalloc] share this sequence of calls. *)
Definition map_fresh (r va perm : Z) : M kmem Z :=
  mem ← kalloc;
  if mem =? 0 then mret 0 else
  kmemset mem 0 PGSIZE ;;
  c ← mappages r va PGSIZE mem perm;
  if negb (c =? 0) then kfree mem ;; mret 0 else
  mret mem.

Definition user_perm (perm : Z) : Prop := 0 ≤ perm < 1024.

(** The entry [mappages] writes. *)
Definition mk_pte (pa perm : Z) : Z := Z.lor (Z.lor (PA2PTE pa) perm) PTE_V.

Lemma mk_pte_spec pa perm :
  paddr pa → user_perm perm →
  mk_pte pa perm = Z.lor (PA2PTE pa) (Z.lor perm PTE_V) ∧ 0 ≤ Z.lor perm PTE_V < 1024.
Proof.
  intros Hpa Hp. unfold mk_pte. split; [by rewrite Z.lor_assoc|]. unfold user_perm in Hp.
  split; [apply Z.lor_nonneg; split; [lia|done]|].
  destruct (Z.eq_dec perm 0) as [->|]; [done|].
  apply Z.log2_lt_cancel. rewrite Z.log2_lor by (done || lia).
  change (Z.log2 1024) with 10. apply Z.max_lub_lt; [|done].
  apply Z.log2_lt_pow2; lia.
Qed.

Lemma mk_pte_range pa perm : paddr pa → user_perm perm → 0 ≤ mk_pte pa perm < 2 ^ 64.
Proof. intros Hpa Hp. destruct (mk_pte_spec pa perm) as [-> ?]; [done..|]. by apply pte_make_range. Qed.
Lemma mk_pte_pa pa perm : paddr pa → user_perm perm → PTE2PA (mk_pte pa perm) = pa.
Proof. intros Hpa Hp. destruct (mk_pte_spec pa perm) as [-> ?]; [done..|]. by apply PTE2PA_make. Qed.
Lemma mk_pte_V pa perm : paddr pa → user_perm perm → has (mk_pte pa perm) PTE_V = true.
Proof.
  intros Hpa Hp. destruct (mk_pte_spec pa perm) as [-> ?]; [done..|].
  rewrite has_V, testbit_make by (done || lia). rewrite Z.lor_spec. by rewrite orb_true_r.
Qed.
Lemma mk_pte_bit pa perm i :
  paddr pa → user_perm perm → 0 < i < 10 → Z.testbit (mk_pte pa perm) i = Z.testbit perm i.
Proof.
  intros Hpa Hp Hi. destruct (mk_pte_spec pa perm) as [-> ?]; [done..|].
  rewrite testbit_make by (done || lia). rewrite Z.lor_spec.
  change PTE_V with (2 ^ 0). rewrite Z.pow2_bits_false by lia. apply orb_false_r.
Qed.

(** Dropping, or mapping, a page that is new does not disturb the old ones. *)
Lemma stable_drop g s g1 s1 p :
  vinv g1 s1 → stable g s g1 s1 → own g p = OFree → own g1 p = OData → vinv g s →
  stable g s (g_drop p g1) (kfree_state p s1).
Proof.
  intros V1 [a1 a2 a3] Hp Hp1 V. split.
  - by rewrite g_drop_roots.
  - intros q r l pre Hq. apply g_drop_pt; auto.
  - intros q Hq. destruct (a3 q Hq) as (Hq1 & ? & ? & Em). assert (p ≠ q) by congruence.
    rewrite g_drop_own_ne, g_drop_kref_ne, g_drop_refs by done. split_and!; try done.
    intros x Hx. rewrite <-Em by done. apply (kfree_state_mem g1 s1 V1 p q); [done| |done].
    by rewrite g_drop_own_ne.
Qed.

(** Page [v] of [r] is backed by the fresh page [p], filled with zeros. *)
Record mapped_fresh (r v perm p : Z) (g : ghost) (s : kmem) (g' : ghost) (s' : kmem) : Prop := {
  mf_stable : stable g s g' s';
  mf_ptes : same_ptes g (upd2 (upte s) r v (mk_pte p perm)) (upte s');
  mf_free : own g p = OFree;
  mf_own : own g' p = OData;
  mf_refs : refs g' p = {[(r, v)]};
  mf_kref : kref g' p = 0;
  mf_zero x : p ≤ x < p + PGSIZE → mem s' x = 0;
  mf_data q : own g' q = OData → own g q = OData ∨ q = p;
}.

(** The entry is written after [mappages] has built the path in [s2]. *)
Lemma mapped_fresh_ok g s r v perm p fl g2 s2 :
  vinv g s → r ∈ roots g → 0 ≤ v < UPAGES → has (upte s r v) PTE_V = false → user_perm perm →
  gfl g = p :: fl → vinv g2 s2 → grows (g_alloc p fl g) (zeroed p s) g2 s2 →
  slot 2 (mem s2) r (v * PGSIZE) ≠ 0 →
  vinv (g_map p r v g2) (set_pte r (v * PGSIZE) (mk_pte p perm) s2) ∧
  mapped_fresh r v perm p g s (g_map p r v g2) (set_pte r (v * PGSIZE) (mk_pte p perm) s2).
Proof.
  intros V Hr Hv Hinv Hperm Hfl V2 G2 Hs.
  pose proof (fresh_stable g s p fl V Hfl) as S1. pose proof (fresh_same_ptes g s p fl V Hfl) as P1.
  pose proof (fresh_free g s p fl V Hfl) as Hfr. pose proof (fresh_page g s p fl V Hfl) as Hp.
  assert (own (g_alloc p fl g) p = OData ∧ kref (g_alloc p fl g) p = 1) as [Ho1 Hk1]
    by (gsimpl; by rewrite !fn_lookup_insert).
  assert (own g2 r = OPT r 2 0) as Hrl2.
  { apply (gr_pt _ _ _ _ G2), (sb_pt _ _ _ _ S1). by apply (root_label _ _ V). }
  pose proof (upage_va v Hv) as Hva. pose proof (page_ok_paddr _ Hp) as Hpp.
  destruct (gr_data _ _ _ _ G2 p Ho1) as [Ho2 Hk2].
  assert (refs g2 p = ∅) as Hre by (rewrite (gr_refs _ _ _ _ G2); exact (free_no_refs g s p V Hfr)).
  assert (PTE2PA (mk_pte p perm) = p) as Epa by (by apply mk_pte_pa).
  assert (∀ r' v', own g r' = OPT r' 2 0 → 0 ≤ v' * PGSIZE < MAXVA → upte s2 r' v' = upte s r' v') as E2.
  { intros. rewrite (grows_same_ptes _ _ _ _ G2), P1; eauto using sb_pt. }
  split; [|split].
  - rewrite <-Epa at 1. apply vinv_map; eauto using mk_pte_range, mk_pte_V; rewrite ?Epa;
      [by rewrite (gr_roots _ _ _ _ G2)| |done|lia|split; [done|lia]].
    rewrite E2; [done|by apply (root_label _ _ V)|done].
  - pose proof (stable_trans _ _ _ _ _ _ S1 (grows_stable _ _ _ _ G2)) as [b1 b2 b3].
    split; [done|done|]. intros q Hq. destruct (b3 q Hq) as (? & ? & ? & Em).
    assert (p ≠ q) by congruence. gsimpl. rewrite !fn_lookup_insert_ne by done.
    split_and!; try done. intros x Hx. rewrite <-Em by done.
    by eapply (set_pte_data g2); [apply V2|..].
  - intros r' v' Hr' Hv'. rewrite (upte_set_pte g2) by (eauto using mk_pte_range, vi_t, gr_pt, sb_pt).
    unfold upd2. case_decide; [done|]. by apply E2.
  - done.
  - done.
  - gsimpl. rewrite fn_lookup_insert, Hre. apply (right_id_L ∅ (∪)).
  - gsimpl. rewrite fn_lookup_insert. lia.
  - intros x Hx. rewrite (set_pte_data g2 s2 r (v * PGSIZE) _ p x); eauto using vi_t.
    rewrite (gr_mem _ _ _ _ G2 p) by done. by apply fresh_zero.
  - intros q Hq%(gr_own _ _ _ _ G2). revert Hq. gsimpl.
    destruct (decide (p = q)) as [<-|]; [auto|]. rewrite fn_lookup_insert_ne by done. auto.
Qed.

Lemma wp_map_fresh g s r v perm Q :
  vinv g s → r ∈ roots g → 0 ≤ v < UPAGES → has (upte s r v) PTE_V = false → user_perm perm →
  (∀ g' s', vinv g' s' → stable g s g' s' → same_ptes g (upte s) (upte s') →
     (∀ q, own g' q = OData → own g q = OData) → Q 0 s') →
  (∀ g' s' p, p ≠ 0 → vinv g' s' → mapped_fresh r v perm p g s g' s' → Q p s') →
  wp (map_fresh r (v * PGSIZE) perm) s Q.
Proof.
  intros V Hr Hv Hinv Hperm Hfail Hok. unfold map_fresh. wp_steps.
  pose proof (root_label _ _ V r Hr) as Hrl. pose proof (upage_va v Hv) as Hva.
  destruct (kalloc_cases g s V) as [[Hfl E]|(p & fl & Hfl & Hp & Hp0 & Hfr & E)].
  { eapply wp_Ok; [done|]. cbn [Z.eqb]. apply wp_ret.
    apply (Hfail g); [done|apply stable_refl|by intros ??|done]. }
  eapply wp_Ok; [done|]. destruct (Z.eqb_spec p 0); [done|]. unfold kmemset. wp_steps.
  fold (zeroed p s). set (g1 := g_alloc p fl g).
  pose proof (fresh_vinv g s p fl V Hfl) as V1. pose proof (fresh_stable g s p fl V Hfl) as S1.
  pose proof (fresh_same_ptes g s p fl V Hfl) as P1.
  assert (own g1 p = OData ∧ kref g1 p = 1) as [Ho1 Hk1] by (unfold g1; gsimpl; by rewrite !fn_lookup_insert).
  assert (refs g1 p = ∅) as Hr1 by exact (free_no_refs g s p V Hfr).
  eapply (wp_mappages1 g1); [done|by apply (sb_pt _ _ _ _ S1)|done|unfold PGSIZE; dlia| |..].
  { fold (upte (zeroed p s) r v). by rewrite P1. }
  - intros g2 s2 V2 G2 _. cbn [Z.eqb negb]. wp_steps.
    destruct (gr_data _ _ _ _ G2 p Ho1) as [Ho2 Hk2].
    eapply wp_Ok; [by eapply (kfree_vrun g2 s2 V2)|]. apply wp_ret.
    eapply Hfail; [apply (vinv_drop g2 s2 V2 p); [done|lia]| | |].
    + apply stable_drop; eauto using stable_trans, grows_stable.
    + eapply (same_ptes_trans g g1); [by intros; apply (sb_pt _ _ _ _ S1)|done|].
      eapply (same_ptes_trans g1 g2); [by intros; apply (gr_pt _ _ _ _ G2)|by eapply grows_same_ptes|].
      intros r' v' Hr' Hv'. by apply (drop_ptes g2).
    + intros q Hq. destruct (g_drop_data p g2 q Hq) as [Hq2%(gr_own _ _ _ _ G2) Hc].
      rewrite (gr_refs _ _ _ _ G2), Hr1, size_empty, Hk2, Hk1 in Hc.
      revert Hq2. unfold g1. gsimpl. rewrite fn_lookup_insert_ne; [done|]. by destruct Hc.
  - intros g2 s2 V2 G2 Hs. cbn [Z.eqb negb]. wp_steps. fold (mk_pte p perm).
    destruct (mapped_fresh_ok g s r v perm p fl g2 s2) as [? ?]; eauto.
Qed.

End ops.
