(* ===== verification/Cow.v ===== *)
(** * Copy-on-write

    The memory an address space sees ([uread]), and the routines that share
    and unshare pages: [cowfault], [vmfault], [uvmcopy] and the copies between
    kernel and user memory. *)

From S2P Require Import Prelude Riscv Memory Kalloc Vm VmInv VmWalk VmRef VmOps.

(** The byte that user code with page table [r] reads at [va]; [None] is a page
    fault. *)
Definition uread (s : kmem) (r va : Z) : option Z :=
  let e := pte_of (mem s) r va in
  if has e PTE_V && has e PTE_U then Some (mem s (PTE2PA e + va mod PGSIZE)) else None.

(** A store by user code: it faults unless the page is writable. *)
Definition ustore (r va b : Z) (s : kmem) : option kmem :=
  let e := pte_of (mem s) r va in
  if has e PTE_V && has e PTE_U && has e PTE_W
  then Some (set_mem (upd (mem s) (PTE2PA e + va mod PGSIZE) b) s) else None.

Section cow.
Context `{Layout, !LayoutOk}.

(** ** Reading through a page table *)

Lemma pte_page s r va : pte_of (mem s) r va = upte s r (va / PGSIZE).
Proof.
  unfold upte, pte_at. rewrite (slot_page 2 _ _ va (va / PGSIZE * PGSIZE)); [done|].
  by rewrite div_page.
Qed.

Lemma uread_eq s r va :
  uread s r va = let e := upte s r (va / PGSIZE) in
    if has e PTE_V && has e PTE_U then Some (mem s (PTE2PA e + va mod PGSIZE)) else None.
Proof. unfold uread. by rewrite pte_page. Qed.

(** A user page that is mapped lies below the trapframe. *)
Lemma user_upage g s r v :
  vinv g s → r ∈ roots g → 0 ≤ v < VPAGES → has (upte s r v) PTE_U = true → v < UPAGES.
Proof.
  intros V Hr Hv HU. destruct (Z.lt_ge_cases v UPAGES) as [|Hge]; [done|].
  by rewrite (ri_high _ _ _ (vi_r _ _ V)) in HU by (done || lia).
Qed.

(** Two states in which [va] has the same entry, up to permissions, on pages
    with the same contents. *)
Lemma uread_same g s s' r va e e' :
  vinv g s → r ∈ roots g → 0 ≤ va < MAXVA →
  upte s r (va / PGSIZE) = e → upte s' r (va / PGSIZE) = e' →
  has e' PTE_V = has e PTE_V → has e' PTE_U = has e PTE_U →
  (0 ≤ va / PGSIZE < UPAGES → has e PTE_V = true →
     ∀ k, 0 ≤ k < PGSIZE → mem s' (PTE2PA e' + k) = mem s (PTE2PA e + k)) →
  uread s' r va = uread s r va.
Proof.
  intros V Hr Hva He He' HV HU Hm. rewrite !uread_eq, He, He'. cbv zeta. rewrite HV, HU.
  destruct (has e PTE_V) eqn:E1; [|done]. destruct (has e PTE_U) eqn:E2; [|done]. simpl.
  rewrite Hm; [done| |done|apply Z.mod_pos_bound; done].
  pose proof (va_vpage va Hva). split; [lia|]. apply (user_upage g s r); [done..|]. by rewrite He.
Qed.

(** ** Permission changes *)

Lemma set_pte_twice g s r va e e' :
  tinv g s → own g r = OPT r 2 0 → 0 ≤ va < MAXVA → slot 2 (mem s) r va ≠ 0 →
  set_pte r va e' (set_pte r va e s) = set_pte r va e' s.
Proof.
  intros T Hr Hva Hs. unfold set_pte. gsimpl.
  rewrite (slot_frame g s (store64 (mem s) (slot 2 (mem s) r va) e) 2 r r 0 va); [|done..|].
  - unfold set_mem. gsimpl. f_equal. apply mem_ext. intros x. unfold store64, store_le.
    mem_cases; done || lia.
  - intros p l pre i Hp Hi. destruct (slot_root g s T r va) as (p0 & Hp0 & ->); [done..|].
    apply load_entry_store; eauto using own_OPT_page, PX_range with lia. congruence.
Qed.

Lemma slot_set_pte g s r va e :
  tinv g s → own g r = OPT r 2 0 → 0 ≤ va < MAXVA → slot 2 (mem s) r va ≠ 0 →
  slot 2 (mem (set_pte r va e s)) r va = slot 2 (mem s) r va.
Proof.
  intros T Hr Hva Hs. unfold set_pte. gsimpl.
  apply (slot_frame g s _ 2 r r 0 va); [done..|].
  intros p l pre i Hp Hi. destruct (slot_root g s T r va) as (p0 & Hp0 & ->); [done..|].
  apply load_entry_store; eauto using own_OPT_page, PX_range with lia. congruence.
Qed.

(** A mapping moves from one data page to another that the kernel holds. *)
Lemma vinv_remap g s r v e :
  let pa := PTE2PA (upte s r v) in
  let p := PTE2PA e in
  vinv g s → r ∈ roots g → 0 ≤ v < UPAGES → 0 ≤ e < 2 ^ 64 →
  has (upte s r v) PTE_V = true → has e PTE_V = true →
  own g p = OData → p ≠ pa → refs g p = ∅ → kref g p = 1 →
  vinv (g_map p r v (g_unmap pa r v g)) (set_pte r (v * PGSIZE) e s).
Proof.
  intros pa p V Hr Hv He HV HeV Ho Hne Href Hk.
  pose proof (root_label _ _ V r Hr) as Hrl. pose proof (upage_va v Hv) as Hva.
  pose proof (slot_valid _ _ _ HV) as Hs.
  assert (vinv (g_unmap pa r v g) (set_pte r (v * PGSIZE) 0 s)) as V1 by (by apply vinv_unmap).
  rewrite <-(set_pte_twice g s r (v * PGSIZE) 0 e) by (done || apply V).
  apply vinv_map; try done.
  - rewrite (slot_set_pte g) by (done || apply V). done.
  - rewrite (upte_set_pte g) by (done || apply V || lia). by rewrite upd2_eq.
  - gsimpl. rewrite fn_lookup_insert_ne by done. fold p. lia.
  - gsimpl. rewrite !fn_lookup_insert_ne by done. done.
Qed.

(** ** cowfault *)

Definition cow_pte (a e : Z) : Z := Z.lor (PA2PTE a) (cow_flags (PTE_FLAGS e)).

(** The page [v] of table [r] is now backed, privately, by [a]. *)
Record cow_done (r v a : Z) (g : ghost) (s : kmem) (g' : ghost) (s' : kmem) : Prop := {
  cd_roots : roots g' = roots g;
  cd_pt p r' l pre : own g p = OPT r' l pre → own g' p = OPT r' l pre;
  cd_ptes : same_ptes g (upd2 (upte s) r v (cow_pte a (upte s r v))) (upte s');
  cd_own : own g' a = OData;
  cd_refs : refs g' a = {[(r, v)]};
  cd_kref : kref g' a = 0;
  cd_copy k : 0 ≤ k < PGSIZE → mem s' (a + k) = mem s (PTE2PA (upte s r v) + k);
  cd_data p : own g' p = OData → p ≠ a → own g p = OData ∧ kref g' p = kref g p ∧
    ∀ x, p ≤ x < p + PGSIZE → mem s' x = mem s x;
  cd_held p : own g p = OData → p ≠ PTE2PA (upte s r v) → own g' p = OData;
  cd_new : a = PTE2PA (upte s r v) ∨ own g a = OFree;
}.

Lemma cow_pte_spec a e :
  paddr a → 0 ≤ cow_pte a e < 2 ^ 64 ∧ PTE2PA (cow_pte a e) = a ∧
  has (cow_pte a e) PTE_V = has e PTE_V ∧ has (cow_pte a e) PTE_U = has e PTE_U ∧
  has (cow_pte a e) PTE_W = true ∧ has (cow_pte a e) PTE_COW = false.
Proof.
  intros Ha. destruct (cow_flags_spec (PTE_FLAGS e) (PTE_FLAGS_range e)) as (Hr & E0 & E4 & E2 & E8).
  unfold cow_pte. rewrite has_V, has_U, has_W, has_COW, !testbit_make by (done || lia).
  rewrite E0, E4, !testbit_FLAGS, <-has_V, <-has_U by lia.
  split_and!; try done; [by apply pte_make_range..|by apply PTE2PA_make].
Qed.

Lemma refs_one g s r v p :
  vinv g s → page_ok p → (r, v) ∈ refs g p → refcount s (p / PGSIZE) = 1 →
  refs g p = {[(r, v)]} ∧ kref g p = 0.
Proof.
  intros V Hp Hin Hc. rewrite (ri_count _ _ _ (vi_r _ _ V)) in Hc by done.
  pose proof (size_nonempty _ _ Hin). pose proof (ri_nonneg _ _ _ (vi_r _ _ V) p).
  split; [|lia]. assert (size (refs g p) = 1%nat) as Hsz by lia.
  apply size_1_elem_of in Hsz as [x Hx]. apply leibniz_equiv in Hx. rewrite Hx in *.
  apply elem_of_singleton in Hin. by subst.
Qed.

(** The case of a page with a single reference: only the permissions change. *)
Lemma cow_single g s r v :
  let pa := PTE2PA (upte s r v) in
  vinv g s → r ∈ roots g → 0 ≤ v < UPAGES → has (upte s r v) PTE_V = true →
  refcount s (pa / PGSIZE) = 1 →
  vinv g (set_pte r (v * PGSIZE) (cow_pte pa (upte s r v)) s) ∧
  cow_done r v pa g s g (set_pte r (v * PGSIZE) (cow_pte pa (upte s r v)) s).
Proof.
  intros pa V Hr Hv HV Hc. destruct (ri_leaf _ _ _ (vi_r _ _ V) r v Hr Hv HV) as [Ho Hin].
  fold pa in Ho, Hin. assert (page_ok pa) as Hp by (by eapply own_OData_page, Ho; apply V).
  destruct (refs_one g s r v pa V Hp Hin Hc) as [Hrefs Hk].
  destruct (cow_pte_spec pa (upte s r v) (page_ok_paddr _ Hp)) as (He & Epa & EV & EU & EW & EC).
  pose proof (slot_valid _ _ _ HV) as Hs. pose proof (root_label _ _ V r Hr) as Hrl.
  pose proof (upage_va v Hv) as Hva.
  split; [apply vinv_protect; rewrite ?Epa; congruence || auto|].
  split; try done.
  - intros r' v' Hr' Hv'. rewrite (upte_set_pte g) by (done || apply V). done.
  - intros k Hk'. apply (set_pte_data g s r _ _ pa); try done; [apply V|lia].
  - intros p Hp' _. split; [done|]. split; [done|]. intros x Hx.
    by apply (set_pte_data g s r _ _ p); [apply V|..].
  - by left.
Qed.

(** The case of a shared page: a private copy replaces it. *)
Definition copied (p pa : Z) (s : kmem) : kmem :=
  set_mem (copy (mem (alloc_state p s)) p pa PGSIZE) (alloc_state p s).

Lemma copied_outside p pa s x : x < p ∨ p + PGSIZE ≤ x → mem (copied p pa s) x = mem s x.
Proof. intros. unfold copied. gsimpl. unfold copy, fill. mem_cases; done || lia. Qed.

Section shared.
Context (g : ghost) (s : kmem) (r v p : Z) (fl : list Z).
Hypothesis V : vinv g s.
Hypothesis Hr : r ∈ roots g.
Hypothesis Hv : 0 ≤ v < UPAGES.
Hypothesis HV : has (upte s r v) PTE_V = true.
Hypothesis Hfl : gfl g = p :: fl.
#[local] Abbreviation e0 := (upte s r v).
#[local] Abbreviation pa := (PTE2PA e0).
#[local] Abbreviation e := (cow_pte p e0).
#[local] Abbreviation s1 := (copied p pa s).
#[local] Abbreviation g1 := (g_alloc p fl g).
#[local] Abbreviation s2 := (set_pte r (v * PGSIZE) e s1).
#[local] Abbreviation g2 := (g_map p r v (g_unmap pa r v g1)).

Lemma shared_pages : page_ok p ∧ page_ok pa ∧ p ≠ pa ∧ own g pa = OData ∧ own g p = OFree.
Proof.
  pose proof (fresh_free g s p fl V Hfl) as Hfr. pose proof (fresh_page g s p fl V Hfl).
  destruct (ri_leaf _ _ _ (vi_r _ _ V) r v Hr Hv HV) as [Ho Hin].
  assert (page_ok pa) by (by eapply own_OData_page, Ho; apply V).
  split_and!; congruence || done.
Qed.

Lemma shared_copy_vinv : vinv g1 s1.
Proof.
  unfold copied. apply vinv_write_data with p.
  - by apply vinv_alloc.
  - gsimpl. by rewrite fn_lookup_insert.
  - apply bytes_ok_copy, bytes_ok_fill. apply V.
  - intros x Hx. gsimpl. unfold copy. mem_cases; done || lia.
Qed.

Lemma shared_copy_ptes : same_ptes g (upte s) (upte s1).
Proof.
  destruct shared_pages as (Hp & _ & _ & _ & Hfr). intros r' v' Hr' Hv'. unfold upte.
  eapply (upte_outside g s V); eauto using copied_outside.
Qed.

Lemma shared_root : own g1 r = OPT r 2 0.
Proof.
  pose proof (root_label _ _ V r Hr). destruct shared_pages as (_ & _ & _ & _ & Hfr).
  gsimpl. rewrite fn_lookup_insert_ne; congruence.
Qed.

Lemma shared_pte : upte s1 r v = e0.
Proof. apply shared_copy_ptes; [by apply (root_label _ _ V)|by apply upage_va]. Qed.

Lemma shared_entry : 0 ≤ e < 2 ^ 64 ∧ PTE2PA e = p ∧ has e PTE_V = true.
Proof.
  destruct shared_pages as (Hp & _). destruct (cow_pte_spec p e0 (page_ok_paddr _ Hp)) as (? & ? & E & _).
  by rewrite E.
Qed.

Lemma shared_map_vinv : vinv g2 s2.
Proof.
  destruct shared_pages as (Hp & Hpa & Hne & Ho & Hfr). destruct shared_entry as (He & Epa & EV).
  pose proof (vinv_remap g1 s1 r v e) as Hm. cbv zeta in Hm. rewrite shared_pte, Epa in Hm.
  apply Hm; try done; [apply shared_copy_vinv|..]; gsimpl; rewrite ?fn_lookup_insert; try done.
  by eapply free_no_refs.
Qed.

Lemma shared_held : own g2 pa = OData ∧ kref g2 pa = kref g pa + 1.
Proof.
  destruct shared_pages as (Hp & Hpa & Hne & Ho & Hfr). gsimpl.
  rewrite !fn_lookup_insert_ne by done. rewrite fn_lookup_insert.
  by rewrite fn_lookup_insert_ne by done.
Qed.

Lemma shared_new : own g2 p = OData ∧ refs g2 p = {[(r, v)]} ∧ kref g2 p = 0.
Proof.
  destruct shared_pages as (Hp & Hpa & Hne & Ho & Hfr). gsimpl.
  rewrite !fn_lookup_insert. rewrite !(fn_lookup_insert_ne _ pa p) by done.
  rewrite fn_lookup_insert, (free_no_refs g s p V Hfr).
  split_and!; [done|apply (right_id_L ∅ (∪))|done].
Qed.

Lemma shared_data q x :
  own g q = OData → q ≤ x < q + PGSIZE → mem s2 x = mem s x.
Proof.
  intros Hq Hx. destruct shared_pages as (Hp & Hpa & Hne & Ho & Hfr).
  assert (page_ok q) as Hqp by (by eapply own_OData_page, Hq; apply V).
  rewrite (set_pte_data g1 s1 r (v * PGSIZE) e q x); try done.
  - apply copied_outside. destruct (page_disjoint p q Hp Hqp); [congruence|lia|lia].
  - apply shared_copy_vinv.
  - apply shared_root.
  - by apply upage_va.
  - apply slot_valid. fold (upte s1 r v). by rewrite shared_pte.
  - gsimpl. rewrite fn_lookup_insert_ne; congruence.
Qed.

Lemma shared_copy k : 0 ≤ k < PGSIZE → mem s2 (p + k) = mem s (pa + k).
Proof.
  intros Hk. destruct shared_pages as (Hp & Hpa & Hne & Ho & Hfr).
  rewrite (set_pte_data g1 s1 r (v * PGSIZE) e p (p + k)); try done.
  - unfold copied. gsimpl. unfold copy, fill. replace (pa + (p + k - p)) with (pa + k) by lia.
    destruct (page_disjoint p pa Hp Hpa Hne); mem_cases; done || lia.
  - apply shared_copy_vinv.
  - apply shared_root.
  - by apply upage_va.
  - apply slot_valid. fold (upte s1 r v). by rewrite shared_pte.
  - gsimpl. by rewrite fn_lookup_insert.
  - lia.
Qed.

Lemma shared_vinv : vinv (g_drop pa g2) (kfree_state pa s2).
Proof.
  destruct shared_held as [Ho Hk]. pose proof (ri_nonneg _ _ _ (vi_r _ _ V) pa).
  apply vinv_drop; [apply shared_map_vinv|done|lia].
Qed.

Lemma shared_done : cow_done r v p g s (g_drop pa g2) (kfree_state pa s2).
Proof.
  destruct shared_pages as (Hp & Hpa & Hne & Ho & Hfr). destruct shared_held as [Ho2 Hk2].
  destruct shared_new as (Hop & Hrp & Hkp). pose proof shared_map_vinv as V2.
  assert (own (g_drop pa g2) p = OData) as Hdp by (by rewrite g_drop_own_ne).
  split.
  - by rewrite g_drop_roots.
  - intros q r' l pre Hq. apply g_drop_pt; [done|]. gsimpl. rewrite fn_lookup_insert_ne; congruence.
  - intros r' v' Hr' Hv'. assert (own g1 r' = OPT r' 2 0) as Hr1.
    { gsimpl. rewrite fn_lookup_insert_ne; congruence. }
    rewrite (drop_ptes g2 s2 V2) by done.
    rewrite (upte_set_pte g1 s1); try done.
    + unfold upd2. case_decide; [done|]. by apply shared_copy_ptes.
    + apply shared_copy_vinv.
    + apply shared_root.
    + by apply upage_va.
    + apply slot_valid. fold (upte s1 r v). by rewrite shared_pte.
    + apply shared_entry.
  - done.
  - by rewrite g_drop_refs.
  - by rewrite g_drop_kref_ne.
  - intros k Hk. rewrite (kfree_state_mem g2 s2 V2 pa p) by (done || lia). by apply shared_copy.
  - intros q Hq Hqp. destruct (g_drop_data pa g2 q Hq) as [Hq2 Hd].
    assert (own g q = OData) as Hq0 by (revert Hq2; gsimpl; by rewrite fn_lookup_insert_ne).
    split; [done|]. split.
    + destruct (decide (pa = q)) as [<-|].
      * destruct (g_drop_keep pa g2 Ho2) as [_ ->]; [tauto|lia].
      * rewrite g_drop_kref_ne by done. gsimpl. by rewrite !fn_lookup_insert_ne.
    + intros x Hx. rewrite (kfree_state_mem g2 s2 V2 pa q) by done. by apply (shared_data q).
  - intros q Hq Hqp. rewrite g_drop_own_ne by done. gsimpl. destruct (decide (p = q)) as [<-|].
    + by rewrite fn_lookup_insert.
    + by rewrite fn_lookup_insert_ne.
  - right. apply shared_pages.
Qed.
End shared.

(** The outcomes of [cowfault]. *)
Lemma wp_cowfault g s r va Q :
  vinv g s → r ∈ roots g → 0 ≤ va →
  (let e := upte s r (va / PGSIZE) in
   MAXVA ≤ va ∨ (has e PTE_V && has e PTE_U && has e PTE_COW = false) ∨ gfl g = [] → Q 0 s) →
  (∀ a g' s', a ≠ 0 → 0 ≤ va / PGSIZE < UPAGES → has (upte s r (va / PGSIZE)) PTE_V = true →
     has (upte s r (va / PGSIZE)) PTE_U = true →
     vinv g' s' → cow_done r (va / PGSIZE) a g s g' s' → Q a s') →
  wp (cowfault r va) s Q.
Proof.
  intros V Hr Hva Hno Hyes. unfold cowfault. wp_if; [apply wp_ret; auto|].
  rewrite PGROUNDDOWN_eq. set (v := va / PGSIZE) in *.
  pose proof (va_vpage va ltac:(lia)) as Hv. fold v in Hv.
  wp_steps. apply wp_walk; [apply vpage_va in Hv; lia|].
  destruct (Z.eqb_spec (slot 2 (mem s) r (v * PGSIZE)) 0) as [Es|Es].
  { apply wp_ret, Hno. right; left. unfold upte, pte_at. by rewrite Es. }
  unfold read64. wp_steps.
  assert (load64 (mem s) (slot 2 (mem s) r (v * PGSIZE)) = upte s r v) as ->.
  { unfold upte, pte_at. by destruct (Z.eqb_spec (slot 2 (mem s) r (v * PGSIZE)) 0). }
  wp_if.
  { apply wp_ret, Hno. right; left.
    destruct (has _ PTE_V), (has _ PTE_U), (has _ PTE_COW); done. }
  pose proof (user_upage g s r v V Hr Hv ltac:(done)) as HU.
  assert (0 ≤ v < UPAGES) as Hu by lia.
  destruct (ri_leaf _ _ _ (vi_r _ _ V) r v Hr Hu ltac:(done)) as [Ho _].
  assert (page_ok (PTE2PA (upte s r v))) as Hpa by (by eapply own_OData_page, Ho; apply V).
  apply wp_bind. eapply wp_Ok; [apply kgetref_run; [apply V|done]|]. wp_if.
  { destruct (cow_single g s r v) as [? ?]; [done..|].
    unfold write64, sfence_vma. wp_steps. eapply Hyes; try done. pose proof (page_ok_pos _ Hpa). lia. }
  apply wp_bind. destruct (kalloc_cases g s V) as [[Hfl Ek]|(p & fl & Hfl & Hp & Hp0 & Hfr & Ek)].
  { eapply wp_Ok; [done|]. simpl. apply wp_ret, Hno. auto. }
  eapply wp_Ok; [done|]. destruct (Z.eqb_spec p 0) as [|_]; [done|].
  unfold kmemmove, write64. wp_steps.
  change (set_mem (copy _ _ _ _) _) with (copied p (PTE2PA (upte s r v)) s).
  rewrite <-(slot_outside g s V (mem (copied p (PTE2PA (upte s r v)) s)) p)
    by (auto using copied_outside; by apply (root_label g s V)).
  eapply wp_Ok; [eapply kfree_vrun; [by apply (shared_map_vinv g s r v p fl)|by apply (shared_held g s r v p fl)]|].
  unfold sfence_vma. wp_steps. eapply Hyes; try done.
  - by apply (shared_vinv g s r v p fl).
  - by apply (shared_done g s r v p fl).
Qed.

(** ** What the address spaces see *)

Definition reads_same (g : ghost) (s s' : kmem) : Prop :=
  ∀ r va, r ∈ roots g → 0 ≤ va < MAXVA → uread s' r va = uread s r va.

(** Page [v] of [r] can be written, and nothing else refers to its memory. *)
Definition private (g : ghost) (s : kmem) (r v : Z) : Prop :=
  let e := upte s r v in
  has e PTE_V = true ∧ has e PTE_U = true ∧ has e PTE_W = true ∧ has e PTE_COW = false ∧
  refs g (PTE2PA e) = {[(r, v)]} ∧ refcount s (PTE2PA e / PGSIZE) = 1.

Lemma roots_le g s g' s' : vinv g s → roots g' = roots g → vinv g' s' →
  ∀ r, r ∈ roots g → own g' r = OPT r 2 0.
Proof. intros V E V' r Hr. apply (root_label _ _ V'). by rewrite E. Qed.

Lemma cow_done_reads g s g' s' r v a :
  vinv g s → vinv g' s' → r ∈ roots g → 0 ≤ v < UPAGES → paddr a →
  cow_done r v a g s g' s' → reads_same g s s'.
Proof.
  intros V V' Hr Hv Ha D r' va Hr' Hva. pose proof (va_vpage va Hva) as Hp.
  pose proof (root_label _ _ V r' Hr') as Hrl.
  pose proof (cd_ptes _ _ _ _ _ _ _ D r' (va / PGSIZE) Hrl (vpage_va _ Hp)) as E. unfold upd2 in E.
  destruct (decide (r' = r ∧ va / PGSIZE = v)) as [[-> Ev]|Hne].
  - destruct (cow_pte_spec a (upte s r v) Ha) as (_ & Epa & EV & EU & _).
    eapply (uread_same g s _ _ _ _ _ V Hr' Hva eq_refl E); rewrite Ev; try done.
    intros _ _ k Hk. rewrite Epa. by apply D.
  - eapply (uread_same g s _ _ _ _ _ V Hr' Hva eq_refl E); [done|done|].
    intros Hu HV k Hk. assert (r' ∈ roots g') as Hr2 by (by rewrite (cd_roots _ _ _ _ _ _ _ D)).
    destruct (ri_leaf _ _ _ (vi_r _ _ V') r' (va / PGSIZE) Hr2 Hu) as [Ho Hin]; [by rewrite E|].
    rewrite E in Ho, Hin.
    destruct (cd_data _ _ _ _ _ _ _ D _ Ho) as (_ & _ & Hm); [|apply Hm; lia].
    intros Ea. rewrite Ea, (cd_refs _ _ _ _ _ _ _ D) in Hin. apply elem_of_singleton in Hin. naive_solver.
Qed.

Lemma cow_done_private g s g' s' r v a :
  vinv g s → vinv g' s' → r ∈ roots g → 0 ≤ v < UPAGES → page_ok a →
  has (upte s r v) PTE_V = true → has (upte s r v) PTE_U = true →
  cow_done r v a g s g' s' → private g' s' r v ∧ PTE2PA (upte s' r v) = a.
Proof.
  intros V V' Hr Hv Ha HV HU D.
  assert (upte s' r v = cow_pte a (upte s r v)) as E.
  { rewrite (cd_ptes _ _ _ _ _ _ _ D r v); [|by apply (root_label _ _ V)|by apply upage_va].
    unfold upd2. by rewrite decide_True. }
  destruct (cow_pte_spec a (upte s r v) (page_ok_paddr _ Ha)) as (_ & Epa & EV & EU & EW & EC).
  unfold private. cbv zeta. rewrite E, Epa, EV, EU.
  rewrite (ri_count _ _ _ (vi_r _ _ V') a Ha), (cd_refs _ _ _ _ _ _ _ D), (cd_kref _ _ _ _ _ _ _ D).
  rewrite size_singleton. done.
Qed.

(** Writing to a page through a writable entry reaches no other page: a page
    that can be written is mapped once. *)
Lemma page_write_effect g s r v m' :
  let e := upte s r v in
  vinv g s → r ∈ roots g → 0 ≤ v < UPAGES →
  has e PTE_V = true → has e PTE_U = true → has e PTE_W = true → bytes_ok m' →
  (∀ x, x < PTE2PA e ∨ PTE2PA e + PGSIZE ≤ x → m' x = mem s x) →
  vinv g (set_mem m' s) ∧ (∀ r' v', r' ∈ roots g → 0 ≤ v' < VPAGES → upte (set_mem m' s) r' v' = upte s r' v') ∧
  ∀ r' va, r' ∈ roots g → 0 ≤ va < MAXVA →
    uread (set_mem m' s) r' va =
      if decide (r' = r ∧ va / PGSIZE = v) then Some (m' (PTE2PA e + va mod PGSIZE)) else uread s r' va.
Proof.
  intros e V Hr Hv HV HU HW Hb Hout.
  destruct (ri_leaf _ _ _ (vi_r _ _ V) r v Hr Hv HV) as [Ho Hin].
  destruct (ri_write _ _ _ (vi_r _ _ V) r v Hr Hv HV HW) as [Hone _]. fold e in Ho, Hin, Hone.
  assert (page_ok (PTE2PA e)) as Hpe by (by eapply own_OData_page, Ho; apply V).
  assert (vinv g (set_mem m' s)) as V' by (by eapply vinv_write_data; eauto).
  assert (∀ r' v', r' ∈ roots g → 0 ≤ v' < VPAGES → upte (set_mem m' s) r' v' = upte s r' v') as EP
    by (eapply (upte_ext g s V (set_mem m' s) (PTE2PA e)); eauto).
  split; [done|]. split; [done|]. intros r' va Hr' Hva. pose proof (va_vpage va Hva) as Hp.
  destruct (decide (r' = r ∧ va / PGSIZE = v)) as [[-> Ev]|Hne].
  { rewrite uread_eq, Ev, EP by auto using upage_vpage. cbv zeta. fold e. by rewrite HV, HU. }
  eapply (uread_same g s _ _ _ _ _ V Hr' Hva eq_refl); [by apply EP|done|done|].
  intros Hu HV' k Hk. destruct (ri_leaf _ _ _ (vi_r _ _ V) r' _ Hr' Hu HV') as [Ho' Hin'].
  assert (page_ok (PTE2PA (upte s r' (va / PGSIZE)))) as Hpe' by (by eapply own_OData_page, Ho'; apply V).
  apply Hout. destruct (decide (PTE2PA (upte s r' (va / PGSIZE)) = PTE2PA e)) as [Ep|Ep].
  - exfalso. rewrite Ep, Hone in Hin'. apply elem_of_singleton in Hin'. apply Hne. by injection Hin' as -> ->.
  - destruct (page_disjoint _ _ Hpe' Hpe Ep); lia.
Qed.

(** C1. Copy-on-write faults are invisible.  [cowfault] returns for every
    address of every address space; it keeps the invariant and changes no byte
    that any address space reads.  When it returns 0 nothing has changed, and
    that happens only for an address that is not on a copy-on-write page or
    when no page is free; otherwise the page is backed by memory of its own,
    writable, with reference count 1. *)
Theorem cowfault_transparent g s r va :
  vinv g s → r ∈ roots g → 0 ≤ va →
  wp (cowfault r va) s (λ a s', ∃ g', vinv g' s' ∧ roots g' = roots g ∧ reads_same g s s' ∧
    if decide (a = 0) then
      s' = s ∧ (MAXVA ≤ va ∨ gfl g = [] ∨
        let e := upte s r (va / PGSIZE) in has e PTE_V && has e PTE_U && has e PTE_COW = false)
    else private g' s' r (va / PGSIZE) ∧ PTE2PA (upte s' r (va / PGSIZE)) = a).
Proof.
  intros V Hr Hva. eapply wp_cowfault; [done..| |].
  - intros e Hc. exists g. rewrite decide_True by done. unfold reads_same. tauto.
  - intros a g' s' Ha Hv HV HU V' D. assert (page_ok a) as Hp.
    { eapply own_OData_page; [apply V'|by eapply cd_own]. }
    exists g'. rewrite decide_False by done. split_and!; try done; [by eapply cd_roots| |..].
    + eapply cow_done_reads; eauto using page_ok_paddr.
    + eapply (cow_done_private g s); eauto.
    + eapply (cow_done_private g s); eauto.
Qed.

(** A store by user code through its page table changes the byte it names and
    no other byte of any address space, and keeps the invariant. *)
Lemma ustore_effect g s r va b s' :
  vinv g s → r ∈ roots g → 0 ≤ va < MAXVA → 0 ≤ b < 256 → ustore r va b s = Some s' →
  vinv g s' ∧ ∀ r' va', r' ∈ roots g → 0 ≤ va' < MAXVA →
    uread s' r' va' = if decide (r' = r ∧ va' = va) then Some b else uread s r' va'.
Proof.
  intros V Hr Hva Hb. unfold ustore. rewrite pte_page. set (v := va / PGSIZE). set (e := upte s r v).
  destruct (has e PTE_V) eqn:HV; [|done]. destruct (has e PTE_U) eqn:HU; [|done].
  destruct (has e PTE_W) eqn:HW; [|done]. intros [= <-].
  pose proof (va_vpage va Hva) as Hp. pose proof (user_upage g s r _ V Hr Hp HU) as Hu.
  assert (0 ≤ va mod PGSIZE < PGSIZE) as Hoff by (by apply Z.mod_pos_bound).
  destruct (page_write_effect g s r v (upd (mem s) (PTE2PA e + va mod PGSIZE) b)) as (V' & _ & E); try done; [lia|..].
  { apply bytes_ok_upd; [apply V|done]. }
  { intros x Hx. unfold upd. mem_cases; [fold e in Hx; lia|done]. }
  split; [done|]. intros r' va' Hr' Hva'. rewrite E by done.
  pose proof (Z.div_mod va PGSIZE ltac:(done)) as D. pose proof (Z.div_mod va' PGSIZE ltac:(done)) as D'. fold v in D.
  destruct (decide (r' = r ∧ va' / PGSIZE = v)) as [[-> Ev]|Hne].
  - fold e. unfold upd. destruct (Z.eqb_spec (PTE2PA e + va' mod PGSIZE) (PTE2PA e + va mod PGSIZE)) as [Ex|Ex].
    + rewrite decide_True; [done|]. split; [done|lia].
    + rewrite decide_False; [|intros [_ ->]; lia]. rewrite uread_eq, Ev. cbv zeta. fold e. by rewrite HV, HU.
  - rewrite decide_False; [done|]. intros [-> ->]. by apply Hne.
Qed.

End cow.
