(* ===== verification/VmUser.v ===== *)
(** * User memory: growing, faulting in, and copying

    What [uvmalloc], [vmfault], [copyout], [copyin] and [copyinstr] do to the
    bytes the address spaces see. *)

From S2P Require Import Prelude Riscv Memory Kalloc Vm VmInv VmWalk VmRef VmOps Cow.

Section user.
Context `{Layout, !LayoutOk}.

(** ** Fresh pages *)

Lemma stable_reads g s g' s' :
  vinv g s → stable g s g' s' → same_ptes g (upte s) (upte s') → reads_same g s s'.
Proof.
  intros V St P r va Hr Hva. pose proof (va_vpage va Hva) as Hp.
  eapply (uread_same g s _ _ _ _ _ V Hr Hva eq_refl).
  - apply P; [by apply (root_label _ _ V)|by apply vpage_va].
  - done.
  - done.
  - intros Hu HV k Hk. destruct (ri_leaf _ _ _ (vi_r _ _ V) r _ Hr Hu HV) as [Ho _].
    apply (sb_data _ _ _ _ St _ Ho). lia.
Qed.

Lemma fresh_entry p perm :
  paddr p → user_perm perm → has (mk_pte p perm) PTE_U = has perm PTE_U.
Proof. intros. rewrite !has_U. by apply mk_pte_bit. Qed.

Lemma mapped_fresh_reads g s g' s' r v perm p r' va :
  vinv g s → vinv g' s' → user_perm perm → has perm PTE_U = true →
  mapped_fresh r v perm p g s g' s' → r' ∈ roots g → 0 ≤ va < MAXVA →
  uread s' r' va = if decide (r' = r ∧ va / PGSIZE = v) then Some 0 else uread s r' va.
Proof.
  intros V V' Hperm HU F Hr' Hva. pose proof (va_vpage va Hva) as Hp.
  pose proof (mf_ptes _ _ _ _ _ _ _ _ F r' (va / PGSIZE) ltac:(by apply (root_label _ _ V))
    ltac:(by apply vpage_va)) as E. unfold upd2 in E.
  assert (page_ok p) as Hpp by (eapply own_OData_page; [apply V'|by eapply mf_own]).
  destruct (decide (r' = r ∧ va / PGSIZE = v)) as [Heq|Hne].
  - rewrite uread_eq, E. cbv zeta.
    rewrite mk_pte_V, fresh_entry, HU, mk_pte_pa by (by try apply page_ok_paddr). simpl. f_equal.
    apply (mf_zero _ _ _ _ _ _ _ _ F). pose proof (Z.mod_pos_bound va PGSIZE ltac:(done)). lia.
  - eapply (uread_same g s _ _ _ _ _ V Hr' Hva eq_refl E); [done|done|].
    intros Hu HV k Hk. destruct (ri_leaf _ _ _ (vi_r _ _ V) r' _ Hr' Hu HV) as [Ho _].
    apply (sb_data _ _ _ _ (mf_stable _ _ _ _ _ _ _ _ F) _ Ho). lia.
Qed.

(** The error paths of [uvmalloc] end alike, so its loop body is [map_fresh]
    followed by a test of the page it returns. *)
Lemma map_fresh_cases r va perm (F K : M kmem Z) s :
  (mem ← kalloc;
   if mem =? 0 then F else
   kmemset mem 0 PGSIZE ;;
   c ← mappages r va PGSIZE mem perm;
   if negb (c =? 0) then kfree mem ;; F else K) s =
  (a ← map_fresh r va perm; if a =? 0 then F else K) s.
Proof.
  unfold map_fresh. munfold. destruct (kalloc s) as [[p s1]| |]; [|done..].
  destruct (p =? 0) eqn:Hp; [done|]. destruct (kmemset p 0 PGSIZE s1) as [[[] s2]| |]; [|done..].
  destruct (mappages r va PGSIZE p perm s2) as [[c s3]| |]; [|done..].
  destruct (negb (c =? 0)); [|by rewrite Hp]. by destruct (kfree p s3) as [[[] s4]| |].
Qed.

(** ** [uvmalloc] *)

(** Pages [lo..hi) of [r] are backed by fresh pages filled with zeros. *)
Record grown (r lo hi perm : Z) (g : ghost) (s : kmem) (g' : ghost) (s' : kmem) : Prop := {
  gw_stable : stable g s g' s';
  gw_ptes r' v : own g r' = OPT r' 2 0 → 0 ≤ v * PGSIZE < MAXVA → ¬ (r' = r ∧ lo ≤ v < hi) →
    upte s' r' v = upte s r' v;
  gw_new v : lo ≤ v < hi → ∃ p, upte s' r v = mk_pte p perm ∧ own g' p = OData ∧
    refs g' p = {[(r, v)]} ∧ kref g' p = 0 ∧ ∀ x, p ≤ x < p + PGSIZE → mem s' x = 0;
  gw_data q : own g' q = OData → own g q = OData ∨ (kref g' q = 0 ∧ ∃ v, lo ≤ v < hi ∧ refs g' q = {[(r, v)]});
}.

Lemma grown_refl r lo perm g s : grown r lo lo perm g s g s.
Proof. split; auto using stable_refl; lia. Qed.

Lemma grown_step r lo v perm p g s g1 s1 g2 s2 :
  own g r = OPT r 2 0 → lo ≤ v → 0 ≤ lo → v < UPAGES →
  grown r lo v perm g s g1 s1 → mapped_fresh r v perm p g1 s1 g2 s2 →
  grown r lo (v + 1) perm g s g2 s2.
Proof.
  intros Hr Hlo Hlo0 Hv G F. pose proof (gw_stable _ _ _ _ _ _ _ _ G) as S1.
  pose proof (mf_stable _ _ _ _ _ _ _ _ F) as S2. split.
  - by eapply stable_trans.
  - intros r' v' Hr' Hv' Hn. rewrite (mf_ptes _ _ _ _ _ _ _ _ F); [|by apply (sb_pt _ _ _ _ S1)|done].
    unfold upd2. rewrite decide_False; [apply G; [done..|]|]; intros [-> ?]; apply Hn; (split; [done|lia]).
  - intros v' Hv'. rewrite (mf_ptes _ _ _ _ _ _ _ _ F); [|by apply (sb_pt _ _ _ _ S1)|apply upage_va; lia].
    unfold upd2. destruct (decide (r = r ∧ v' = v)) as [[_ ->]|Hne].
    + exists p. destruct F. split_and!; auto.
    + destruct (gw_new _ _ _ _ _ _ _ _ G v') as (q & E & Ho & Hrf & Hk & Hz); [naive_solver lia|].
      destruct (sb_data _ _ _ _ S2 q Ho) as (? & Hk' & Hrf' & Hm).
      exists q. rewrite Hk', Hrf'. split_and!; try done. intros x Hx. rewrite Hm; auto.
  - intros q Hq. destruct (mf_data _ _ _ _ _ _ _ _ F q Hq) as [Hq1| ->].
    + destruct (gw_data _ _ _ _ _ _ _ _ G q Hq1) as [?|(Hk & v' & Hv' & Hrf)]; [auto|].
      destruct (sb_data _ _ _ _ S2 q Hq1) as (_ & -> & -> & _). right. split; [done|]. exists v'. split; [lia|done].
    + right. destruct F. split; [done|]. exists v. split; [lia|done].
Qed.

Lemma grown_stable_step r lo v perm g s g1 s1 g2 s2 :
  own g r = OPT r 2 0 → 0 ≤ lo → v ≤ UPAGES →
  grown r lo v perm g s g1 s1 → stable g1 s1 g2 s2 → same_ptes g1 (upte s1) (upte s2) →
  (∀ q, own g2 q = OData → own g1 q = OData) → grown r lo v perm g s g2 s2.
Proof.
  intros Hr Hlo Hv G S2 P Hd. pose proof (gw_stable _ _ _ _ _ _ _ _ G) as S1. split.
  - by eapply stable_trans.
  - intros r' v' Hr' Hv' Hn. rewrite P; [by apply G|by apply (sb_pt _ _ _ _ S1)|done].
  - intros v' Hv'. rewrite P; [|by apply (sb_pt _ _ _ _ S1)|apply upage_va; lia].
    destruct (gw_new _ _ _ _ _ _ _ _ G v' Hv') as (q & E & Ho & Hrf & Hk & Hz).
    destruct (sb_data _ _ _ _ S2 q Ho) as (? & Hk' & Hrf' & Hm).
    exists q. rewrite Hk', Hrf'. split_and!; try done. intros x Hx. rewrite Hm; auto.
  - intros q Hq. apply Hd in Hq as Hq1. destruct (sb_data _ _ _ _ S2 q Hq1) as (_ & -> & -> & _).
    by apply G.
Qed.

Lemma grown_reads r lo hi perm g s g' s' r' va :
  vinv g s → vinv g' s' → user_perm perm → has perm PTE_U = true →
  grown r lo hi perm g s g' s' → r' ∈ roots g → 0 ≤ va < MAXVA →
  uread s' r' va = if decide (r' = r ∧ lo ≤ va / PGSIZE < hi) then Some 0 else uread s r' va.
Proof.
  intros V V' Hperm HU G Hr' Hva. pose proof (va_vpage va Hva) as Hp.
  destruct (decide (r' = r ∧ lo ≤ va / PGSIZE < hi)) as [[-> Hv]|Hne].
  - destruct (gw_new _ _ _ _ _ _ _ _ G _ Hv) as (p & E & Ho & _ & _ & Hz).
    assert (page_ok p) as Hpp by (eapply own_OData_page; [apply V'|done]).
    rewrite uread_eq, E. cbv zeta.
    rewrite mk_pte_V, fresh_entry, HU, mk_pte_pa by (by try apply page_ok_paddr). simpl. f_equal.
    apply Hz. pose proof (Z.mod_pos_bound va PGSIZE ltac:(done)). lia.
  - eapply (uread_same g s _ _ _ _ _ V Hr' Hva eq_refl).
    + apply (gw_ptes _ _ _ _ _ _ _ _ G); [by apply (root_label _ _ V)|by apply vpage_va|done].
    + done.
    + done.
    + intros Hu HV k Hk. destruct (ri_leaf _ _ _ (vi_r _ _ V) r' _ Hr' Hu HV) as [Ho _].
      apply (sb_data _ _ _ _ (gw_stable _ _ _ _ _ _ _ _ G) _ Ho). lia.
Qed.

(** A page that only the kernel uses, through one pointer. *)
Definition private_page (g : ghost) (p : Z) : Prop := own g p = OData ∧ kref g p = 1 ∧ refs g p = ∅.

(** Nothing that can be read has changed, pages [lo..hi) of [r] are not mapped,
    no page of memory is kept, and the pages of the kernel are as they were. *)
Record undone (r lo hi : Z) (g : ghost) (s : kmem) (g' : ghost) (s' : kmem) : Prop := {
  ud_roots : roots g' = roots g;
  ud_reads : reads_same g s s';
  ud_inv v : lo ≤ v < hi → has (upte s' r v) PTE_V = false;
  ud_ptes r' v : own g r' = OPT r' 2 0 → 0 ≤ v * PGSIZE < MAXVA → ¬ (r' = r ∧ lo ≤ v < hi) →
    upte s' r' v = upte s r' v;
  ud_data q : own g' q = OData → own g q = OData;
  ud_page q : private_page g q → private_page g' q ∧ ∀ x, q ≤ x < q + PGSIZE → mem s' x = mem s x;
}.

Lemma grown_undo_data r lo hi perm g s g1 s1 g2 s2 q :
  vinv g1 s1 → vinv g2 s2 → r ∈ roots g → roots g1 = roots g →
  grown r lo hi perm g s g1 s1 → unmapped r lo hi g1 s1 g2 s2 → own g2 q = OData → own g q = OData.
Proof.
  intros V1 V2 Hr Er G U Hq. destruct (um_data _ _ _ _ _ _ _ U q Hq) as (Hq1 & Hk & _).
  destruct (gw_data _ _ _ _ _ _ _ _ G q Hq1) as [?|(Hk1 & v & Hv & Hrf)]; [done|]. exfalso.
  pose proof (count_pos _ _ V2 q Hq) as Hc. assert (page_ok q) as Hqp by (by eapply own_OData_page, Hq; apply V2).
  rewrite (ri_count _ _ _ (vi_r _ _ V2) q Hqp), Hk, Hk1 in Hc.
  destruct (set_choose_or_empty (refs g2 q)) as [[[r' v'] Hin]|He%size_empty_iff]; [|lia].
  destruct (ri_refs _ _ _ (vi_r _ _ V2) q r' v' Hin) as (Hr' & Hv' & HV & Epa).
  rewrite (um_roots _ _ _ _ _ _ _ U) in Hr'.
  destruct (decide (r' = r ∧ lo ≤ v' < hi)) as [[-> Hv'']|Hne].
  { rewrite (um_inv _ _ _ _ _ _ _ U v' Hv'') in HV. done. }
  rewrite (um_pte _ _ _ _ _ _ _ U r' v') in HV, Epa; eauto using upage_va, root_label.
  destruct (ri_leaf _ _ _ (vi_r _ _ V1) r' v' Hr' Hv' HV) as [_ Hin1].
  rewrite Epa, Hrf in Hin1. apply elem_of_singleton in Hin1. naive_solver.
Qed.

Lemma grown_undo_page r lo hi perm g s g1 s1 g2 s2 q :
  vinv g1 s1 → vinv g2 s2 → grown r lo hi perm g s g1 s1 → unmapped r lo hi g1 s1 g2 s2 →
  private_page g q → private_page g2 q ∧ ∀ x, q ≤ x < q + PGSIZE → mem s2 x = mem s x.
Proof.
  intros V1 V2 G U (Hq & Hk & Hrf). destruct (sb_data _ _ _ _ (gw_stable _ _ _ _ _ _ _ _ G) q Hq) as (Hq1 & Hk1 & Hr1 & Hm1).
  assert (own g2 q = OData) as Hq2 by (apply (um_kref _ _ _ _ _ _ _ U); [done|lia]).
  destruct (um_data _ _ _ _ _ _ _ U q Hq2) as (_ & Hk2 & Hm2). split; [|intros x Hx; rewrite Hm2; auto].
  split_and!; [done|congruence|]. apply set_eq. intros [r' v']. split; [|set_solver]. intros Hin.
  destruct (ri_refs _ _ _ (vi_r _ _ V2) q r' v' Hin) as (Hr' & Hv' & HV & Epa). rewrite (um_roots _ _ _ _ _ _ _ U) in Hr'.
  destruct (decide (r' = r ∧ lo ≤ v' < hi)) as [[-> Hv'']|Hne]; [by rewrite (um_inv _ _ _ _ _ _ _ U v' Hv'') in HV|].
  rewrite (um_pte _ _ _ _ _ _ _ U r' v') in HV, Epa; eauto using upage_va, root_label.
  destruct (ri_leaf _ _ _ (vi_r _ _ V1) r' v' Hr' Hv' HV) as [_ Hin1]. by rewrite Epa, Hr1, Hrf in Hin1.
Qed.

Lemma grown_undo r lo hi perm g s g1 s1 g2 s2 :
  vinv g s → vinv g1 s1 → vinv g2 s2 → r ∈ roots g →
  (∀ v, lo ≤ v < hi → has (upte s r v) PTE_V = false) →
  grown r lo hi perm g s g1 s1 → unmapped r lo hi g1 s1 g2 s2 → undone r lo hi g s g2 s2.
Proof.
  intros V V1 V2 Hr Hinv G U. pose proof (sb_roots _ _ _ _ (gw_stable _ _ _ _ _ _ _ _ G)) as Er.
  assert (roots g2 = roots g) as Er2 by (by rewrite (um_roots _ _ _ _ _ _ _ U)).
  assert (∀ r' v, own g r' = OPT r' 2 0 → 0 ≤ v * PGSIZE < MAXVA → ¬ (r' = r ∧ lo ≤ v < hi) →
    upte s2 r' v = upte s r' v) as EP.
  { intros r' v Hr' Hv Hn. rewrite (um_pte _ _ _ _ _ _ _ U); [by apply (gw_ptes _ _ _ _ _ _ _ _ G)|..]; try done.
    by apply (sb_pt _ _ _ _ (gw_stable _ _ _ _ _ _ _ _ G)). }
  split; [done| |apply U|done|by intros q; eapply (grown_undo_data r lo hi perm g s g1 s1 g2 s2)|by intros q; eapply (grown_undo_page r lo hi perm g s g1 s1 g2 s2)].
  intros r' va Hr' Hva. pose proof (va_vpage va Hva) as Hp.
  destruct (decide (r' = r ∧ lo ≤ va / PGSIZE < hi)) as [[-> Hv]|Hne].
  { rewrite !uread_eq. cbv zeta. by rewrite (Hinv _ Hv), (um_inv _ _ _ _ _ _ _ U _ Hv). }
  assert (upte s2 r' (va / PGSIZE) = upte s r' (va / PGSIZE)) as E.
  { apply EP; [by apply (root_label _ _ V)|by apply vpage_va|done]. }
  eapply (uread_same g s _ _ _ _ _ V Hr' Hva eq_refl E); [done|done|].
  intros Hu HV k Hk. destruct (ri_leaf _ _ _ (vi_r _ _ V) r' _ Hr' Hu HV) as [Ho _].
  destruct (ri_leaf _ _ _ (vi_r _ _ V2) r' (va / PGSIZE)) as [Ho2 _]; [by rewrite Er2|done|by rewrite E|].
  rewrite E in Ho2. destruct (um_data _ _ _ _ _ _ _ U _ Ho2) as (_ & _ & Hm). rewrite Hm by lia.
  apply (sb_data _ _ _ _ (gw_stable _ _ _ _ _ _ _ _ G) _ Ho). lia.
Qed.

Lemma npg_page v : 0 ≤ v ≤ UPAGES → npg (v * PGSIZE) = v.
Proof.
  intros Hv. change UPAGES with (2 ^ 26 - 2) in Hv. unfold npg, PGSIZE in *.
  rewrite PGROUNDUP_eq by (unfold PGSIZE; lia). unfold PGSIZE. dlia.
Qed.

Lemma upage_size v : v ≤ UPAGES → v * PGSIZE ≤ TRAPFRAME.
Proof. change UPAGES with (2 ^ 26 - 2). change TRAPFRAME with (2 ^ 38 - 8192). unfold PGSIZE. lia. Qed.

Lemma wp_uvm_undo r lo v perm g s g1 s1 Q :
  vinv g s → vinv g1 s1 → r ∈ roots g → 0 ≤ lo ≤ v → v ≤ UPAGES →
  (∀ v', lo ≤ v' < v → has (upte s r v') PTE_V = false) →
  grown r lo v perm g s g1 s1 →
  (∀ g2 s2, vinv g2 s2 → undone r lo v g s g2 s2 → Q 0 s2) →
  wp (uvmdealloc r (v * PGSIZE) (lo * PGSIZE) ;; mret 0) s1 Q.
Proof.
  intros V V1 Hr Hlo Hv Hinv G HQ. pose proof (gw_stable _ _ _ _ _ _ _ _ G) as S1.
  wp_steps. eapply (wp_uvmdealloc g1);
    [done|by rewrite (sb_roots _ _ _ _ S1)|unfold PGSIZE; lia|split; [unfold PGSIZE; lia|by apply upage_size]|..].
  - intros Hle. assert (v = lo) as -> by (unfold PGSIZE in Hle; lia). wp_steps.
    apply (HQ g1); [done|]. eapply grown_undo; eauto. apply unmapped_refl.
  - intros _ g2 s2 V2 U. rewrite !npg_page in U by lia. wp_steps.
    apply (HQ g2); [done|]. eapply (grown_undo r lo v perm g s g1 s1); eauto.
Qed.

Lemma wp_uvmalloc_loop n g s r lo v newsz xperm g1 s1 Q :
  let perm := Z.lor (Z.lor PTE_R PTE_U) xperm in
  vinv g s → r ∈ roots g → 0 ≤ lo ≤ v → 0 ≤ newsz ≤ TRAPFRAME → v ≤ npg newsz → user_perm perm →
  (∀ v', lo ≤ v' < npg newsz → has (upte s r v') PTE_V = false) →
  vinv g1 s1 → grown r lo v perm g s g1 s1 → npg newsz - v < Z.of_nat n →
  (∀ g' s', vinv g' s' → grown r lo (npg newsz) perm g s g' s' → Q newsz s') →
  (∀ g' s' hi, vinv g' s' → hi ≤ npg newsz → undone r lo hi g s g' s' → Q 0 s') →
  wp (uvmalloc_loop n r (lo * PGSIZE) (v * PGSIZE) newsz xperm) s1 Q.
Proof.
  intros perm V Hr Hlo Hsz Hv Hperm Hinv V1 G Hn Hok Hfail.
  pose proof (npg_range newsz Hsz) as Hnp. revert v g1 s1 Hlo Hv V1 G Hn.
  induction n as [|n IH]; intros v g1 s1 Hlo Hv V1 G Hn; [lia|]. cbn [uvmalloc_loop].
  pose proof (npg_lt newsz v Hsz) as Hlt. wp_if.
  { assert (v = npg newsz) as -> by lia. apply wp_ret. by apply (Hok g1). }
  assert (v < npg newsz) as Hvlt by (apply Hlt; lia).
  pose proof (gw_stable _ _ _ _ _ _ _ _ G) as S1. pose proof (root_label _ _ V r Hr) as Hrl.
  assert (r ∈ roots g1) as Hr1 by (by rewrite (sb_roots _ _ _ _ S1)).
  assert (has (upte s1 r v) PTE_V = false) as Hiv.
  { rewrite (gw_ptes _ _ _ _ _ _ _ _ G); [apply Hinv; lia|done|apply upage_va; lia|lia]. }
  assert (wp (map_fresh r (v * PGSIZE) perm) s1 (λ a s', ∃ g', vinv g' s' ∧
    if decide (a = 0) then grown r lo v perm g s g' s' else grown r lo (v + 1) perm g s g' s')) as W.
  { eapply (wp_map_fresh g1); [done|done|lia|done|done|..].
    - intros g2 s2 V2 S2 P2 D2. exists g2. rewrite decide_True by done. split; [done|].
      eapply grown_stable_step; eauto; lia.
    - intros g2 s2 p Hp V2 F. exists g2. rewrite decide_False by done. split; [done|].
      eapply grown_step; eauto; lia. }
  eapply wp_eq; [symmetry; apply map_fresh_cases|]. wp_steps. eapply wp_mono; [exact W|].
  intros a s2 (g2 & V2 & G2). clear W. destruct (Z.eqb_spec a 0) as [Ha|Ha].
  - rewrite decide_True in G2 by done. eapply (wp_uvm_undo r lo v perm g s g2); eauto with lia.
  - rewrite decide_False in G2 by done.
    assert (u64 (v * PGSIZE + PGSIZE) = (v + 1) * PGSIZE) as ->.
    { rewrite u64_small; [unfold PGSIZE; lia|]. pose proof (upage_size v). change TRAPFRAME with (2 ^ 38 - 8192) in *.
      unfold PGSIZE in *. lia. }
    apply (IH (v + 1) g2); auto; lia.
Qed.

(** ** [vmfault] *)

Lemma user_perm_lor a b : user_perm a → user_perm b → user_perm (Z.lor a b).
Proof.
  unfold user_perm. intros Ha Hb. split; [apply Z.lor_nonneg; lia|].
  destruct (Z.eq_dec a 0) as [->|]; [rewrite Z.lor_0_l; lia|].
  destruct (Z.eq_dec b 0) as [->|]; [rewrite Z.lor_0_r; lia|].
  pose proof (Z.lor_nonneg a b). assert (Z.lor a b ≠ 0) by (intros ?%Z.lor_eq_0_iff; lia).
  change 1024 with (2 ^ 10). apply Z.log2_lt_pow2; [lia|]. rewrite Z.log2_lor by lia.
  apply Z.max_lub_lt; apply Z.log2_lt_pow2; lia.
Qed.

(** A page of the current process that was not mapped may have been faulted
    in, filled with zeros; every other read is unchanged. *)
Definition faulted (p : uproc) (s s' : kmem) (r va : Z) : Prop :=
  uread s' r va = uread s r va ∨
  (r = upagetable p ∧ va / PGSIZE * PGSIZE < usz p ∧ uread s r va = None ∧ uread s' r va = Some 0).

Definition only_faulted (g : ghost) (p : uproc) (s s' : kmem) : Prop :=
  ∀ r va, r ∈ roots g → 0 ≤ va < MAXVA → faulted p s s' r va.

Lemma reads_faulted g p s s' : reads_same g s s' → only_faulted g p s s'.
Proof. intros R r va Hr Hva. left. by apply R. Qed.

Lemma faulted_trans p s s1 s2 r va : faulted p s s1 r va → faulted p s1 s2 r va → faulted p s s2 r va.
Proof. unfold faulted. intros [?|(? & ? & ? & ?)] [?|(? & ? & ? & ?)]; [left|right|right|]; try split_and!; congruence. Qed.

(** ** What a process cannot touch through its own memory operations *)

(** The pages of the kernel are as they were, and no page was mapped or
    unmapped outside the current process's memory. *)
Record confined (p : uproc) (g : ghost) (s : kmem) (g' : ghost) (s' : kmem) : Prop := {
  cf_roots : roots g' = roots g;
  cf_valid r v : r ∈ roots g → 0 ≤ v < VPAGES → r ≠ upagetable p ∨ usz p ≤ v * PGSIZE →
    has (upte s' r v) PTE_V = has (upte s r v) PTE_V;
  cf_page q : private_page g q → private_page g' q ∧ ∀ x, q ≤ x < q + PGSIZE → mem s' x = mem s x;
}.

Lemma confined_refl p g s : confined p g s g s.
Proof. by split. Qed.

Lemma confined_trans p g s g1 s1 g2 s2 :
  confined p g s g1 s1 → confined p g1 s1 g2 s2 → confined p g s g2 s2.
Proof.
  intros [a1 a2 a3] [b1 b2 b3]. split.
  - congruence.
  - intros. rewrite b2, a2; rewrite ?a1; auto.
  - intros q Hq. destruct (a3 q Hq) as [Hq1 Hm]. destruct (b3 q Hq1) as [Hq2 Hm2]. split; [done|].
    intros x Hx. rewrite Hm2; auto.
Qed.

Lemma stable_private g s g' s' q :
  stable g s g' s' → private_page g q → private_page g' q ∧ ∀ x, q ≤ x < q + PGSIZE → mem s' x = mem s x.
Proof.
  intros S (Ho & Hk & Hr). destruct (sb_data _ _ _ _ S q Ho) as (Ho' & Hk' & Hr' & Hm).
  split; [split_and!; congruence|done].
Qed.

Lemma confined_stable p g s g' s' :
  vinv g s → stable g s g' s' → same_ptes g (upte s) (upte s') → confined p g s g' s'.
Proof.
  intros V S P. split; [apply S| |intros; by eapply stable_private].
  intros r v Hr Hv _. rewrite P; [done|by apply (root_label _ _ V)|by apply vpage_va].
Qed.

Lemma confined_fresh p g s g' s' v perm a :
  vinv g s → 0 ≤ v < UPAGES → v * PGSIZE < usz p →
  mapped_fresh (upagetable p) v perm a g s g' s' → confined p g s g' s'.
Proof.
  intros V Hv Hlt F. pose proof (mf_stable _ _ _ _ _ _ _ _ F) as S. split; [apply S| |intros; by eapply stable_private].
  intros r v' Hr Hv' Hne. rewrite (mf_ptes _ _ _ _ _ _ _ _ F); [|by apply (root_label _ _ V)|by apply vpage_va].
  rewrite upd2_ne; [done|]. intros [= -> ->]. lia.
Qed.

Lemma confined_cow p g s g' s' r v a :
  vinv g s → vinv g' s' → r ∈ roots g → 0 ≤ v < UPAGES → has (upte s r v) PTE_V = true → paddr a →
  cow_done r v a g s g' s' → confined p g s g' s'.
Proof.
  intros V V' Hr Hv HV Ha D. destruct (ri_leaf _ _ _ (vi_r _ _ V) r v Hr Hv HV) as [Ho Hin].
  destruct (cow_pte_spec a (upte s r v) Ha) as (_ & Epa & EV & _).
  assert (∀ r' v', r' ∈ roots g → 0 ≤ v' < VPAGES → upte s' r' v' = upd2 (upte s) r v (cow_pte a (upte s r v)) r' v') as EP.
  { intros r' v' Hr' Hv'. apply (cd_ptes _ _ _ _ _ _ _ D); [by apply (root_label _ _ V)|by apply vpage_va]. }
  split.
  - apply D.
  - intros r' v' Hr' Hv' _. rewrite EP by done. unfold upd2. case_decide as E; [|done]. destruct E as [-> ->]. done.
  - intros q (Hq & Hk & Hre). assert (q ≠ PTE2PA (upte s r v)) as Hne by (intros ->; set_solver).
    assert (q ≠ a) as Hqa by (destruct (cd_new _ _ _ _ _ _ _ D); congruence).
    pose proof (cd_held _ _ _ _ _ _ _ D q Hq Hne) as Hq'. destruct (cd_data _ _ _ _ _ _ _ D q Hq' Hqa) as (_ & Hk' & Hm).
    split; [|done]. split_and!; [done|congruence|]. apply set_eq. intros [r' v']. split; [|set_solver].
    intros (Hr' & Hv' & HV' & E)%(refs_iff g' s' q r' v' V'). rewrite (cd_roots _ _ _ _ _ _ _ D) in Hr'.
    rewrite EP in HV', E by auto using upage_vpage. unfold upd2 in HV', E. case_decide; [congruence|].
    assert ((r', v') ∈ refs g q) as Hx by (apply (refs_iff g s q r' v' V); done). by rewrite Hre in Hx.
Qed.

(** Writing to a page of the process. *)
Lemma confined_write p g s r v m' :
  vinv g s → r ∈ roots g → 0 ≤ v < UPAGES → has (upte s r v) PTE_V = true →
  (∀ r' v', r' ∈ roots g → 0 ≤ v' < VPAGES → upte (set_mem m' s) r' v' = upte s r' v') →
  (∀ x, x < PTE2PA (upte s r v) ∨ PTE2PA (upte s r v) + PGSIZE ≤ x → m' x = mem s x) →
  confined p g s g (set_mem m' s).
Proof.
  intros V Hr Hv HV EP Hm. destruct (ri_leaf _ _ _ (vi_r _ _ V) r v Hr Hv HV) as [Ho Hin]. split; [done| |].
  - intros r' v' Hr' Hv' _. by rewrite EP.
  - intros q Hq. split; [done|]. destruct Hq as (Hq & _ & Hre). intros x Hx. apply Hm.
    assert (q ≠ PTE2PA (upte s r v)) as Hne by (intros ->; set_solver).
    destruct (page_disjoint q (PTE2PA (upte s r v))); [by eapply own_OData_page, Hq; apply V|by eapply own_OData_page, Ho; apply V|done|lia|lia].
Qed.

(** The result of bringing page [v] of [r] in: its entry maps page [a]. *)
Definition present (s : kmem) (r v a : Z) : Prop :=
  0 ≤ v < UPAGES ∧ has (upte s r v) PTE_V = true ∧ has (upte s r v) PTE_U = true ∧
  PTE2PA (upte s r v) = a ∧ a ≠ 0.

Lemma wp_ismapped g s r v Q :
  vinv g s → r ∈ roots g → 0 ≤ v < VPAGES →
  Q (has (upte s r v) PTE_V) s → wp (ismapped r (v * PGSIZE)) s Q.
Proof.
  intros V Hr Hv HQ. unfold ismapped. wp_steps. apply wp_walk; [apply vpage_va in Hv; lia|].
  unfold upte, pte_at in HQ. destruct (Z.eqb_spec (slot 2 (mem s) r (v * PGSIZE)) 0); [by apply wp_ret|].
  unfold read64. wp_steps. by destruct (has _ PTE_V); apply wp_ret.
Qed.

Lemma wp_vmfault g s p va Q :
  let r := upagetable p in let v := va / PGSIZE in
  vinv g s → r ∈ roots g → usz p ≤ TRAPFRAME → 0 ≤ va →
  (∀ g' s', vinv g' s' → roots g' = roots g → reads_same g s s' → confined p g s g' s' → Q 0 s') →
  (∀ g' s' a, va < usz p → has (upte s r v) PTE_V = false →
     vinv g' s' → mapped_fresh r v (Z.lor (Z.lor PTE_W PTE_U) PTE_R) a g s g' s' → present s' r v a → Q a s') →
  wp (vmfault p r va) s Q.
Proof.
  intros r v V Hr Hsz Hva Hno Hyes. unfold vmfault. assert (reads_same g s s) by (by intros ??).
  pose proof (confined_refl p g s) as C0. wp_if; [by apply wp_ret, (Hno g)|]. rewrite PGROUNDDOWN_eq. fold v.
  assert (0 ≤ v < UPAGES) as Hv.
  { unfold v. change UPAGES with (2 ^ 26 - 2). change TRAPFRAME with (2 ^ 38 - 8192) in *. unfold PGSIZE. dlia. }
  wp_steps. apply (wp_ismapped g); [done|done|by apply upage_vpage|].
  destruct (has (upte s r v) PTE_V) eqn:HV; [by apply wp_ret, (Hno g)|].
  fold (map_fresh (upagetable p) (v * PGSIZE) (Z.lor (Z.lor PTE_W PTE_U) PTE_R)). fold r.
  assert (user_perm (Z.lor (Z.lor PTE_W PTE_U) PTE_R)) as Hp by done.
  eapply (wp_map_fresh g); [done|done|done|done|done|..].
  - intros g' s' V' St P _. apply (Hno g'); eauto using sb_roots, stable_reads, confined_stable.
  - intros g' s' a Ha V' F. apply (Hyes g'); [done..|].
    assert (paddr a) by (eapply page_ok_paddr, own_OData_page; [apply V'|by eapply mf_own]).
    assert (upte s' r v = mk_pte a (Z.lor (Z.lor PTE_W PTE_U) PTE_R)) as Ee.
    { rewrite (mf_ptes _ _ _ _ _ _ _ _ F); [apply upd2_eq|by apply (root_label _ _ V)|by apply upage_va]. }
    unfold present. rewrite Ee, mk_pte_V, fresh_entry, mk_pte_pa by done. done.
Qed.

Lemma mapped_fresh_faulted g s g' s' p v perm a :
  vinv g s → vinv g' s' → user_perm perm → has perm PTE_U = true →
  v * PGSIZE < usz p → has (upte s (upagetable p) v) PTE_V = false →
  mapped_fresh (upagetable p) v perm a g s g' s' → only_faulted g p s s'.
Proof.
  intros V V' Hp HU Hlt Hinv F r' va Hr' Hva. unfold faulted.
  rewrite (mapped_fresh_reads g s g' s' (upagetable p) v perm a r' va) by done.
  case_decide as Hc; [|by left]. destruct Hc as [-> <-]. right. split_and!; [done..| |done].
  rewrite uread_eq. cbv zeta. by rewrite Hinv.
Qed.

Lemma wp_walkaddr g s r v Q :
  vinv g s → r ∈ roots g → 0 ≤ v →
  (∀ a, a ≠ 0 → present s r v a → Q a s) →
  ((v < VPAGES → has (upte s r v) PTE_V && has (upte s r v) PTE_U = false) → Q 0 s) →
  wp (walkaddr r (v * PGSIZE)) s Q.
Proof.
  intros V Hr Hv Hyes Hno. unfold walkaddr. wp_if.
  { apply wp_ret, Hno. intros ?%(conj Hv)%vpage_va. lia. }
  assert (0 ≤ v < VPAGES) as Hvp.
  { unfold VPAGES, PGSIZE in *. change MAXVA with (2 ^ 38) in *. dlia. }
  wp_steps. apply wp_walk; [done|]. unfold read64.
  destruct (Z.eqb_spec (slot 2 (mem s) r (v * PGSIZE)) 0) as [Es|Es].
  { apply wp_ret, Hno. intros _. unfold upte, pte_at. by rewrite Es. }
  wp_steps. assert (load64 (mem s) (slot 2 (mem s) r (v * PGSIZE)) = upte s r v) as ->.
  { unfold upte, pte_at. by destruct (Z.eqb_spec (slot 2 (mem s) r (v * PGSIZE)) 0). }
  wp_if; [apply wp_ret, Hno; intros; by rewrite E0|]. wp_if; [apply wp_ret, Hno; intros; by rewrite E1, andb_false_r|].
  pose proof (user_upage g s r v V Hr Hvp ltac:(done)) as Hu.
  destruct (ri_leaf _ _ _ (vi_r _ _ V) r v Hr ltac:(lia) ltac:(done)) as [Ho _].
  assert (page_ok (PTE2PA (upte s r v))) as Hpe%page_ok_pos by (by eapply own_OData_page, Ho; apply V).
  apply wp_ret. apply Hyes; [lia|]. unfold present. split_and!; done || lia.
Qed.

Lemma wp_uvmalloc g s r oldsz newsz xperm Q :
  let perm := Z.lor (Z.lor PTE_R PTE_U) xperm in
  vinv g s → r ∈ roots g → 0 ≤ oldsz ≤ newsz → newsz ≤ TRAPFRAME → user_perm xperm →
  (∀ v, npg oldsz ≤ v < npg newsz → has (upte s r v) PTE_V = false) →
  (∀ g' s', vinv g' s' → grown r (npg oldsz) (npg newsz) perm g s g' s' → Q newsz s') →
  (∀ g' s', vinv g' s' → undone r (npg oldsz) (npg newsz) g s g' s' → Q 0 s') →
  wp (uvmalloc r oldsz newsz xperm) s Q.
Proof.
  intros perm V Hr Hsz Hmax Hx Hinv Hok Hfail. unfold uvmalloc. wp_if; [lia|].
  pose proof (npg_mono oldsz newsz Hsz Hmax) as Hm. pose proof (npg_range oldsz ltac:(lia)) as Hn.
  rewrite PGROUNDUP_npg by lia.
  apply (wp_uvmalloc_loop _ g s r (npg oldsz) (npg oldsz) newsz xperm g s); auto using grown_refl; try lia.
  - by apply user_perm_lor.
  - unfold pages_between. pose proof (npg_lt newsz (npg newsz - 1) ltac:(lia)) as Hlt. unfold PGSIZE in *. dlia.
  - intros g' s' hi V' Hhi [u1 u2 u3 u4 u5 u6]. apply (Hfail g'); [done|].
    pose proof (root_label _ _ V r Hr) as Hrl. pose proof (npg_range newsz ltac:(lia)) as Hnn.
    split; [done|done| |intros; apply u4; naive_solver lia|done|done].
    intros v Hv. destruct (decide (v < hi)); [apply u3; lia|].
    rewrite u4; [by apply Hinv|done|apply upage_va; lia|lia].
Qed.

(** [uvmalloc] from [oldsz] to [newsz] returns [newsz] or 0.  On [newsz]
    every byte of the new pages reads 0 and no other byte of any address space
    has changed; on 0 no byte has changed, none of the new pages is mapped and
    no page of memory has been kept. *)
Lemma uvmalloc_grows g s r oldsz newsz xperm :
  vinv g s → r ∈ roots g → 0 ≤ oldsz ≤ newsz → newsz ≤ TRAPFRAME → user_perm xperm →
  (∀ v, npg oldsz ≤ v < npg newsz → has (upte s r v) PTE_V = false) →
  wp (uvmalloc r oldsz newsz xperm) s (λ sz s', ∃ g', vinv g' s' ∧ roots g' = roots g ∧
    (sz = newsz ∧ (∀ r' va, r' ∈ roots g → 0 ≤ va < MAXVA → uread s' r' va =
       if decide (r' = r ∧ npg oldsz ≤ va / PGSIZE < npg newsz) then Some 0 else uread s r' va) ∨
     sz = 0 ∧ reads_same g s s' ∧
       (∀ v, npg oldsz ≤ v < npg newsz → has (upte s' r v) PTE_V = false) ∧
       (∀ q, own g' q = OData → own g q = OData))).
Proof.
  intros V Hr Hsz Hmax Hx Hinv. eapply (wp_uvmalloc g); try done.
  - intros g' s' V' G. exists g'. split; [done|]. split; [apply G|]. left. split; [done|].
    intros. apply (grown_reads r _ _ (Z.lor (Z.lor PTE_R PTE_U) xperm) g s g'); auto; [by apply user_perm_lor|].
    by rewrite has_U, !Z.lor_spec, orb_true_r.
  - intros g' s' V' [u1 u2 u3 u4 u5 u6]. exists g'. auto 10.
Qed.

End user.
