(* ===== verification/CopyUser.v ===== *)
(** * Copies between kernel and user memory

    [copyout], [copyin] and [copyinstr], byte by byte, in terms of what the
    address spaces read. *)

From S2P Require Import Prelude Riscv Memory Kalloc Vm VmInv VmWalk VmRef VmOps Cow VmUser.

Section copy.
Context `{Layout, !LayoutOk}.

(** [src] has been written at [lo] of the current process's memory, and pages
    may have been faulted in; nothing else has changed. *)
Definition wrote (g : ghost) (p : uproc) (lo : Z) (src : list Z) (s s' : kmem) : Prop :=
  ∀ r va, r ∈ roots g → 0 ≤ va < MAXVA →
    if decide (r = upagetable p ∧ lo ≤ va < lo + Z.of_nat (length src))
    then uread s' r va = src !! Z.to_nat (va - lo) else faulted p s s' r va.

Lemma wrote_nil g p lo s s' : only_faulted g p s s' → wrote g p lo [] s s'.
Proof. intros F r va Hr Hva. rewrite decide_False by (simpl; lia). auto. Qed.

Lemma wrote_faulted g p lo src s s1 s2 :
  only_faulted g p s s1 → wrote g p lo src s1 s2 → wrote g p lo src s s2.
Proof.
  intros F W r va Hr Hva. specialize (W r va Hr Hva). case_decide; [done|].
  eapply faulted_trans; eauto.
Qed.

Lemma wrote_app g p lo b1 b2 s s1 s2 :
  wrote g p lo b1 s s1 → wrote g p (lo + Z.of_nat (length b1)) b2 s1 s2 → wrote g p lo (b1 ++ b2) s s2.
Proof.
  intros W1 W2 r va Hr Hva. specialize (W1 r va Hr Hva). specialize (W2 r va Hr Hva).
  rewrite length_app, Nat2Z.inj_add.
  destruct (decide (r = upagetable p ∧ lo ≤ va < lo + Z.of_nat (length b1))) as [[-> H1]|H1].
  - rewrite decide_True by (split; [done|lia]). rewrite decide_False in W2 by lia.
    rewrite lookup_app_l by lia. destruct (lookup_lt_is_Some_2 b1 (Z.to_nat (va - lo))) as [b Hb]; [lia|].
    rewrite Hb in W1. destruct W2 as [->|(_ & _ & E & _)]; congruence.
  - destruct (decide (r = upagetable p ∧ lo + Z.of_nat (length b1) ≤ va <
        lo + Z.of_nat (length b1) + Z.of_nat (length b2))) as [[-> H2]|H2].
    + rewrite decide_True by (split; [done|lia]). rewrite lookup_app_r by lia. rewrite W2. f_equal. lia.
    + rewrite decide_False by lia. eapply faulted_trans; eauto.
Qed.

(** ** The parts of a round *)

(** [walkaddr], then [vmfault] for a page that is not there. *)
Lemma wp_fault_in {A} g s p v (k : Z → M kmem A) Q :
  let r := upagetable p in
  vinv g s → r ∈ roots g → usz p ≤ TRAPFRAME → 0 ≤ v →
  (∀ g' s' a, vinv g' s' → roots g' = roots g → only_faulted g p s s' → confined p g s g' s' →
     a = 0 ∨ present s' r v a → wp (k a) s' Q) →
  wp (a ← walkaddr r (v * PGSIZE);
      a ← (if a =? 0 then vmfault p r (v * PGSIZE) else mret a); k a) s Q.
Proof.
  intros r V Hr Hsz Hv HQ. assert (reads_same g s s) as Rs by (by intros ??).
  apply wp_bind, (wp_walkaddr g); [done..| |].
  - intros a Ha P. destruct (Z.eqb_spec a 0); [done|]. apply wp_bind, wp_ret.
    apply (HQ g); auto using reads_faulted, confined_refl.
  - intros _. cbn [Z.eqb]. apply wp_bind, (wp_vmfault g); [done|done|done|unfold PGSIZE; lia|..].
    + intros g' s' V' Er Rs' C. apply (HQ g'); auto using reads_faulted.
    + rewrite div_page. intros g' s' a Hlt Hinv V' F P. apply (HQ g'); auto.
      * apply F.
      * by eapply mapped_fresh_faulted; eauto.
      * eapply confined_fresh; eauto. apply P.
Qed.

(** The copy-on-write branch of [copyout]. *)
Lemma wp_unshare p g s r v a Q :
  vinv g s → r ∈ roots g → present s r v a →
  (∀ g' s', vinv g' s' → roots g' = roots g → reads_same g s s' → confined p g s g' s' → Q None s') →
  (∀ g' s' a', vinv g' s' → roots g' = roots g → reads_same g s s' → confined p g s g' s' → present s' r v a' →
     Q (Some (a', slot 2 (mem s') r (v * PGSIZE))) s') →
  wp (if has (upte s r v) PTE_COW then
        pa0 ← cowfault r (v * PGSIZE);
        if pa0 =? 0 then mret None else
        pte ← walk r (v * PGSIZE) false;
        mret (Some (pa0, pte))
      else mret (Some (a, slot 2 (mem s) r (v * PGSIZE)))) s Q.
Proof.
  intros V Hr (Hv & HV & HU & Ea & Ha) Hno Hyes. assert (reads_same g s s) as Rs by (by intros ??).
  pose proof (upage_va v Hv) as Hva.
  wp_if; [|apply wp_ret, (Hyes g); unfold present; auto using confined_refl].
  wp_steps. eapply (wp_cowfault g); [done|done|lia|..].
  - intros _ _. cbn [Z.eqb]. apply wp_ret, (Hno g); auto using confined_refl.
  - rewrite div_page. intros a' g' s' Ha' _ _ _ V' D. destruct (Z.eqb_spec a' 0); [done|].
    assert (page_ok a') as Hp by (eapply own_OData_page; [apply V'|by eapply cd_own]).
    destruct (cow_done_private g s g' s' r v a') as [(? & ? & _) ?]; try done.
    wp_steps. apply wp_walk; [lia|]. apply wp_ret, (Hyes g'); [done|by eapply cd_roots| | |by unfold present].
    + eapply cow_done_reads; eauto using page_ok_paddr.
    + eapply confined_cow; eauto using page_ok_paddr.
Qed.

Definition are_bytes (bs : list Z) : Prop := Forall (λ b, 0 ≤ b < 256) bs.

Lemma bytes_ok_store_bytes m a bs : bytes_ok m → are_bytes bs → bytes_ok (store_bytes m a bs).
Proof.
  intros Hm Hb x. unfold store_bytes. mem_cases; [|done..].
  unfold are_bytes in Hb. rewrite Forall_forall in Hb. apply Hb, list_elem_of_In, nth_In. lia.
Qed.

(** [memmove] into a page that is present and writable. *)
Lemma page_write_wrote g s p v a off bs :
  let r := upagetable p in let s' := set_mem (store_bytes (mem s) (a + off) bs) s in
  vinv g s → r ∈ roots g → present s r v a → has (upte s r v) PTE_W = true → are_bytes bs →
  0 ≤ off → off + Z.of_nat (length bs) ≤ PGSIZE →
  vinv g s' ∧ wrote g p (v * PGSIZE + off) bs s s' ∧ confined p g s g s'.
Proof.
  intros r s' V Hr (Hv & HV & HU & Ea & Ha) HW Hb Hoff Hlen.
  destruct (page_write_effect g s r v (store_bytes (mem s) (a + off) bs)) as (V' & EP & E); try done.
  { apply bytes_ok_store_bytes; [apply V|done]. }
  { rewrite Ea. intros x Hx. unfold store_bytes. mem_cases; [lia|done..]. }
  split; [done|]. split.
  2: { eapply confined_write; eauto. fold r in Ea. rewrite Ea. intros x Hx. unfold store_bytes. mem_cases; [lia|done..]. }
  intros r' va Hr' Hva. unfold faulted, s'. rewrite (E r' va) by done.
  assert (0 ≤ va mod PGSIZE < PGSIZE) as Hm by (by apply Z.mod_pos_bound).
  pose proof (Z.div_mod va PGSIZE ltac:(done)) as D. fold r. rewrite Ea. unfold store_bytes.
  destruct (decide (r' = r ∧ va / PGSIZE = v)) as [[-> Ev]|Hne].
  - case_decide as Hc.
    + mem_cases; [|lia..].
      replace (a + va mod PGSIZE - (a + off)) with (va - (v * PGSIZE + off)) by lia.
      by destruct (nth_lookup_or_length bs (Z.to_nat (va - (v * PGSIZE + off))) 0); [|lia].
    + left. rewrite uread_eq, Ev. cbv zeta. rewrite HV, HU, Ea. simpl. mem_cases; [|done..]. exfalso. apply Hc. split; [done|lia].
  - rewrite decide_False; [by left|]. intros [-> Hr2]. apply Hne. split; [done|]. unfold PGSIZE in *. dlia.
Qed.

Lemma are_bytes_take n bs : are_bytes bs → are_bytes (take n bs).
Proof. apply Forall_take. Qed.
Lemma are_bytes_drop n bs : are_bytes bs → are_bytes (drop n bs).
Proof. apply Forall_drop. Qed.

(** The size of a round, and where the next one starts. *)
Definition round (va : Z) (len : nat) : Z := Z.min (PGSIZE - (va - va / PGSIZE * PGSIZE)) (Z.of_nat len).

Lemma round_bounds va len :
  0 ≤ va → (0 < len)%nat → 0 < round va len ≤ Z.of_nat len ∧
  0 ≤ va - va / PGSIZE * PGSIZE ∧ va - va / PGSIZE * PGSIZE + round va len ≤ PGSIZE.
Proof. intros. unfold round. pose proof (Z.mod_pos_bound va PGSIZE ltac:(done)). pose proof (Z.div_mod va PGSIZE ltac:(done)). lia. Qed.

Lemma round_next va len :
  0 ≤ va → va / PGSIZE * PGSIZE < MAXVA → round va len < Z.of_nat len →
  u64 (va / PGSIZE * PGSIZE + PGSIZE) = va + round va len.
Proof.
  intros Hva Hlt Hr. unfold round in *. rewrite u64_small; [lia|].
  change MAXVA with (2 ^ 38) in Hlt. unfold PGSIZE in *. dlia.
Qed.

Definition copyout_post (g : ghost) (p : uproc) (lo : Z) (src : list Z) (s : kmem) (c : Z) (s' : kmem) : Prop :=
  ∃ g' k, vinv g' s' ∧ confined p g s g' s' ∧ wrote g p lo (take k src) s s' ∧
    (c = 0 ∧ (length src ≤ k)%nat ∨ c = -1).

Lemma copyout_fails g g' p lo src s s' :
  vinv g' s' → confined p g s g' s' → only_faulted g p s s' → copyout_post g p lo src s (-1) s'.
Proof. intros. exists g', 0%nat. split_and!; auto. rewrite take_0. by apply wrote_nil. Qed.

Lemma wrote_roots g g' p lo src s s' : roots g' = roots g → wrote g' p lo src s s' → wrote g p lo src s s'.
Proof. unfold wrote. by intros ->. Qed.

Lemma only_faulted_roots g g' p s s' : roots g' = roots g → only_faulted g' p s s' → only_faulted g p s s'.
Proof. unfold only_faulted. by intros ->. Qed.

Lemma only_faulted_trans g p s s1 s2 :
  only_faulted g p s s1 → only_faulted g p s1 s2 → only_faulted g p s s2.
Proof. intros A B r va Hr Hva. eapply faulted_trans; eauto. Qed.

(** The rounds after one that wrote [n] bytes at [lo]. *)
Lemma copyout_rest g g1 p lo lo' src s s1 c s' n :
  confined p g s g1 s1 → (n ≤ length src)%nat →
  wrote g p lo (take n src) s s1 → ((n < length src)%nat → lo' = lo + Z.of_nat n) →
  copyout_post g1 p lo' (drop n src) s1 c s' → copyout_post g p lo src s c s'.
Proof.
  intros C1 Hn W1 Hlo (g' & k & V & C2 & W2 & Hc). exists g', (n + k)%nat. pose proof (cf_roots _ _ _ _ _ C1) as Er.
  split; [done|]. split; [by eapply confined_trans|]. rewrite length_drop in Hc. split; [|naive_solver lia].
  apply wrote_roots with (g := g) in W2; [|done]. rewrite <-take_take_drop.
  destruct (decide (n < length src)%nat) as [Hlt|Hge].
  - eapply wrote_app; [done|]. rewrite length_take_le by lia. by rewrite <-Hlo.
  - rewrite (drop_ge src n), take_nil in * by lia. eapply wrote_app; [done|].
    intros r va Hr Hva. specialize (W2 r va Hr Hva). rewrite decide_False in W2 by (simpl; lia).
    by rewrite decide_False by (simpl; lia).
Qed.

Lemma wp_copyout_loop fuel g s p lo src :
  let r := upagetable p in
  (length src < fuel)%nat → vinv g s → r ∈ roots g → usz p ≤ TRAPFRAME → 0 ≤ lo → are_bytes src →
  wp (copyout_loop fuel p r lo src) s (copyout_post g p lo src s).
Proof.
  intros r. revert g s lo src. induction fuel as [|fuel IH]; intros g s lo src Hf V Hr Hsz Hlo Hb; [lia|].
  cbn [copyout_loop]. destruct src as [|b0 src0] eqn:Esrc.
  { apply wp_ret. exists g, 0%nat. split_and!; auto using confined_refl. by apply wrote_nil, reads_faulted. }
  rewrite <-Esrc in *. assert (0 < length src)%nat as Hlen by (subst; simpl; lia). clear Esrc b0 src0.
  rewrite PGROUNDDOWN_eq. set (v := lo / PGSIZE).
  assert (0 ≤ v) as Hv by (by apply Z.div_pos).
  wp_if; [by apply wp_ret, (copyout_fails g g); [..|apply reads_faulted]; auto using confined_refl|].
  apply (wp_fault_in g); [done..|]. intros g1 s1 a V1 Er1 F1 C1 Ha.
  destruct (Z.eqb_spec a 0) as [Ha0|Ha0]; [by apply wp_ret, (copyout_fails g g1)|].
  destruct Ha as [|P1]; [done|]. wp_steps. apply wp_walk; [done|].
  pose proof P1 as (Hvu & HV1 & HU1 & _). fold r in HV1, HU1.
  assert (slot 2 (mem s1) r (v * PGSIZE) ≠ 0) as Hs1 by (by apply slot_valid).
  destruct (Z.eqb_spec (slot 2 (mem s1) r (v * PGSIZE)) 0) as [|_]; [done|]. unfold read64. wp_steps.
  assert (∀ st, slot 2 (mem st) r (v * PGSIZE) ≠ 0 → load64 (mem st) (slot 2 (mem st) r (v * PGSIZE)) = upte st r v) as Eld.
  { intros st Hst. unfold upte, pte_at. by destruct (Z.eqb_spec (slot 2 (mem st) r (v * PGSIZE)) 0). }
  rewrite Eld, HV1, HU1 by done. cbn [negb orb].
  apply wp_bind, (wp_unshare p g1); [done|by rewrite Er1|done|..].
  { intros g2 s2 V2 Er2 R2 C2. apply wp_ret, (copyout_fails g g2); [done|by eapply confined_trans|].
    eapply only_faulted_trans; [done|]. apply (only_faulted_roots g g1); [done|]. by apply reads_faulted. }
  intros g2 s2 a2 V2 Er2 R2 C2 P2. wp_steps. rewrite Eld by (apply slot_valid, P2).
  assert (confined p g s g2 s2) as C12 by (by eapply confined_trans).
  assert (only_faulted g p s s2) as F2.
  { eapply only_faulted_trans; [done|]. apply (only_faulted_roots g g1); [done|]. by apply reads_faulted. }
  wp_if; [by apply wp_ret, (copyout_fails g g2)|].
  fold (round lo (length src)). destruct (round_bounds lo (length src)) as (Hn & Ho & Hfit); [done..|].
  set (n := round lo (length src)) in *. unfold write_bytes. wp_steps.
  destruct (page_write_wrote g2 s2 p v a2 (lo - v * PGSIZE) (take (Z.to_nat n) src)) as (V3 & W3 & C3);
    try done; [by rewrite Er2, Er1|by apply are_bytes_take|fold v in Ho, Hfit; rewrite length_take_le; lia|].
  eapply wp_mono; [apply (IH g2); [rewrite length_drop; lia|done|by rewrite Er2, Er1|done| |by apply are_bytes_drop]|].
  { unfold u64. apply Z.mod_pos_bound. done. }
  intros c s' Hpost. eapply (copyout_rest g g2 p lo _ src s _ c s' (Z.to_nat n)); [by eapply confined_trans|lia| | |exact Hpost].
  - eapply wrote_faulted; [exact F2|].
    replace (v * PGSIZE + (lo - v * PGSIZE)) with lo in W3 by lia.
    apply wrote_roots with (g := g) in W3; [|congruence]. done.
  - intros Hlt. unfold v. rewrite (round_next lo (length src)); [fold n; lia|done|fold v; lia|fold n; lia].
Qed.

(** ** [copyin] *)

Lemma lookup_load_bytes m a n i b :
  load_bytes m a n !! i = Some b ↔ (i < Z.to_nat n)%nat ∧ b = m (a + Z.of_nat i).
Proof.
  unfold load_bytes. rewrite list_lookup_fmap, fmap_Some. setoid_rewrite lookup_seq. naive_solver.
Qed.
Lemma length_load_bytes m a n : length (load_bytes m a n) = Z.to_nat n.
Proof. unfold load_bytes. by rewrite length_fmap, length_seq. Qed.

(** The bytes that can be read at [lo]. *)
Definition reads_at (s : kmem) (r lo : Z) (bs : list Z) : Prop :=
  ∀ i b, bs !! i = Some b → lo + Z.of_nat i < MAXVA ∧ uread s r (lo + Z.of_nat i) = Some b.

Lemma reads_at_nil s r lo : reads_at s r lo [].
Proof. intros i b. by rewrite lookup_nil. Qed.

Lemma reads_at_app s r lo b1 b2 :
  reads_at s r lo b1 → (b2 ≠ [] → reads_at s r (lo + Z.of_nat (length b1)) b2) → reads_at s r lo (b1 ++ b2).
Proof.
  intros H1 H2 i b [Hi|[Hle Hi]]%lookup_app_Some; [auto|].
  assert (b2 ≠ []) as Hne by (by intros ->; rewrite lookup_nil in Hi).
  replace (lo + Z.of_nat i) with (lo + Z.of_nat (length b1) + Z.of_nat (i - length b1)) by lia.
  by apply H2.
Qed.

Lemma reads_at_faulted g p s s' r lo bs :
  only_faulted g p s s' → r ∈ roots g → 0 ≤ lo → reads_at s r lo bs → reads_at s' r lo bs.
Proof.
  intros F Hr Hlo R i b Hi. destruct (R i b Hi) as [Hlt E]. split; [done|].
  destruct (F r (lo + Z.of_nat i) Hr) as [->|(_ & _ & E' & _)]; [lia|done|congruence].
Qed.

(** The part of a page that a round reads. *)
Lemma page_reads_at s r va a n :
  present s r (va / PGSIZE) a → 0 ≤ va → va - va / PGSIZE * PGSIZE + n ≤ PGSIZE →
  reads_at s r va (load_bytes (mem s) (a + (va - va / PGSIZE * PGSIZE)) n).
Proof.
  intros (Hv & HV & HU & Ea & _) Hva Hfit i b (Hi & ->)%lookup_load_bytes.
  assert ((va + Z.of_nat i) / PGSIZE = va / PGSIZE) as Ed.
  { unfold PGSIZE in *. dlia. }
  assert ((va + Z.of_nat i) mod PGSIZE = va - va / PGSIZE * PGSIZE + Z.of_nat i) as Em.
  { unfold PGSIZE in *. dlia. }
  split.
  - apply upage_va in Hv. change MAXVA with (2 ^ 38) in *. unfold PGSIZE in *. dlia.
  - rewrite uread_eq, Ed, Em. cbv zeta. rewrite HV, HU, Ea. simpl. f_equal. f_equal. lia.
Qed.

Definition copyin_post (g : ghost) (p : uproc) (lo len : Z) (dst : list Z) (s : kmem)
    (res : Z * list Z) (s' : kmem) : Prop :=
  ∃ g' bs, vinv g' s' ∧ confined p g s g' s' ∧ only_faulted g p s s' ∧ res.2 = dst ++ bs ∧
    reads_at s' (upagetable p) lo bs ∧ Z.of_nat (length bs) ≤ Z.max 0 len ∧
    (res.1 = 0 ∧ Z.of_nat (length bs) = Z.max 0 len ∨ res.1 = -1).

Lemma copyin_stops g g' p lo len dst s s' c :
  vinv g' s' → confined p g s g' s' → only_faulted g p s s' → c = 0 ∧ len ≤ 0 ∨ c = -1 →
  copyin_post g p lo len dst s (c, dst) s'.
Proof.
  intros V Er F Hc. exists g', []. rewrite app_nil_r. split_and!; auto using reads_at_nil; simpl; [lia|].
  naive_solver lia.
Qed.

Lemma copyin_rest g g1 p lo lo' len dst b1 s s1 res s' n :
  upagetable p ∈ roots g → confined p g s g1 s1 → 0 ≤ lo → only_faulted g p s s1 →
  reads_at s1 (upagetable p) lo b1 → Z.of_nat (length b1) = n → n ≤ len → (n < len → lo' = lo + n) →
  copyin_post g1 p lo' (len - n) (dst ++ b1) s1 res s' → copyin_post g p lo len dst s res s'.
Proof.
  intros Hr C1 Hlo F R1 Hn Hle Hlo' (g' & b2 & V & C2 & F2 & E2 & R2 & Hl & Hc). pose proof (cf_roots _ _ _ _ _ C1) as Er.
  apply only_faulted_roots with (g := g) in F2; [|done].
  exists g', (b1 ++ b2). rewrite E2, length_app, app_assoc. split_and!; [done|by eapply confined_trans| |done| |lia|lia].
  - by eapply only_faulted_trans.
  - apply reads_at_app; [by eapply reads_at_faulted|].
    intros Hne. rewrite Hn, <-Hlo'; [done|]. destruct b2; [done|simpl in Hl; lia].
Qed.

Lemma wp_copyin_loop fuel g s p lo len dst :
  let r := upagetable p in
  Z.max 0 len < Z.of_nat fuel → vinv g s → r ∈ roots g → usz p ≤ TRAPFRAME → 0 ≤ lo →
  wp (copyin_loop fuel p r lo len dst) s (copyin_post g p lo len dst s).
Proof.
  intros r. revert g s lo len dst.
  induction fuel as [|fuel IH]; intros g s lo len dst Hf V Hr Hsz Hlo; [lia|].
  cbn [copyin_loop].
  wp_if; [apply wp_ret, (copyin_stops g g); [done|apply confined_refl|by apply reads_faulted|lia]|].
  rewrite PGROUNDDOWN_eq. apply (wp_fault_in g); [done..|by apply Z.div_pos|].
  intros g1 s1 a V1 Er1 F1 C1 Ha.
  destruct (Z.eqb_spec a 0) as [Ha0|Ha0]; [apply wp_ret, (copyin_stops g g1); auto|].
  destruct Ha as [|P1]; [done|]. unfold read_bytes. wp_steps.
  destruct (round_bounds lo (Z.to_nat len)) as (Hn & Ho & Hfit); [done|lia|].
  assert (round lo (Z.to_nat len) = Z.min (PGSIZE - (lo - lo / PGSIZE * PGSIZE)) len) as En
    by (unfold round; by rewrite Z2Nat.id by lia).
  rewrite <-En. set (n := round lo (Z.to_nat len)) in *.
  eapply wp_mono; [apply (IH g1); [lia|done|by rewrite Er1|done|]|].
  { unfold u64. apply Z.mod_pos_bound. done. }
  intros [c out] s' Hpost.
  eapply (copyin_rest g g1 p lo _ len dst _ s s1 _ s' n); [done|done|done|done| | | | |exact Hpost].
  - by apply page_reads_at.
  - rewrite length_load_bytes. lia.
  - lia.
  - intros Hlt. rewrite (round_next lo (Z.to_nat len)); [done|done| |fold n; lia].
    destruct P1 as (Hv%upage_va & _). lia.
Qed.

(** ** [copyinstr] *)

Lemma load_bytes_cons m a n : load_bytes m a (Z.of_nat (S n)) = m a :: load_bytes m (a + 1) (Z.of_nat n).
Proof.
  unfold load_bytes. rewrite !Nat2Z.id. cbn [seq fmap list_fmap]. f_equal; [f_equal; lia|].
  rewrite <-seq_shift, <-list_fmap_compose. apply list_fmap_ext. intros i k _. simpl. f_equal. lia.
Qed.

(** A string with its NUL. *)
Definition c_string (bs : list Z) : Prop := ∃ str, bs = str ++ [0] ∧ 0 ∉ str.

Lemma copyinstr_page_spec n m a :
  let '(bs, got) := copyinstr_page n m a in
  bs = load_bytes m a (Z.of_nat (length bs)) ∧ (length bs ≤ n)%nat ∧
  if got : bool then c_string bs else length bs = n ∧ 0 ∉ bs.
Proof.
  revert a. induction n as [|n IH]; intros a; cbn [copyinstr_page].
  { split_and!; try done; set_solver. }
  destruct (Z.eqb_spec (m a) 0) as [E0|E0].
  { split_and!; simpl; [|lia|by exists []; split; [done|set_solver]].
    unfold load_bytes. simpl. by rewrite Z.add_0_r, E0. }
  specialize (IH (a + 1)). destruct (copyinstr_page n m (a + 1)) as [bs got]. destruct IH as (Eb & Hl & Hg).
  cbn [length]. rewrite load_bytes_cons, <-Eb. split; [done|]. split; [lia|].
  destruct got.
  - destruct Hg as (str & -> & Hn). exists (m a :: str). split; [done|]. rewrite elem_of_cons. naive_solver.
  - destruct Hg as [-> Hn]. split; [done|]. rewrite elem_of_cons. naive_solver.
Qed.

Definition copyinstr_post (r lo max : Z) (dst : list Z) (s : kmem) (res : Z * list Z) (s' : kmem) : Prop :=
  s' = s ∧ ∃ bs, res.2 = dst ++ bs ∧ reads_at s r lo bs ∧ Z.of_nat (length bs) ≤ Z.max 0 max ∧
    (res.1 = 0 ∧ c_string bs ∨
     res.1 = -1 ∧ 0 ∉ bs ∧ (Z.of_nat (length bs) = Z.max 0 max ∨
       MAXVA ≤ lo + Z.of_nat (length bs) ∨ uread s r (lo + Z.of_nat (length bs)) = None)).

Lemma copyinstr_rest r lo lo' max dst b1 s res s' n :
  reads_at s r lo b1 → Z.of_nat (length b1) = n → 0 ∉ b1 → n ≤ max → (n < max → lo' = lo + n) →
  copyinstr_post r lo' (max - n) (dst ++ b1) s res s' → copyinstr_post r lo max dst s res s'.
Proof.
  intros R1 Hn Hz Hle Hlo (-> & b2 & E2 & R2 & Hl & Hc). split; [done|].
  exists (b1 ++ b2). rewrite E2, app_assoc, length_app. split; [done|].
  assert (b2 ≠ [] → n < max) as Hlt by (destruct b2; [done|simpl in Hl; lia]).
  split_and!; [|lia|].
  - apply reads_at_app; [done|]. intros Hne. by rewrite Hn, <-Hlo by auto.
  - destruct Hc as [(? & str & -> & Hs)|(? & Hs & Hc)].
    + left. split; [done|]. exists (b1 ++ str). rewrite app_assoc. split; [done|]. set_solver.
    + right. split; [done|]. split; [set_solver|]. destruct (decide (n < max)) as [Hnm|Hnm].
      * rewrite Hlo in Hc by done. rewrite Nat2Z.inj_add, Hn, Z.add_assoc. naive_solver lia.
      * left. destruct b2; [simpl; lia|]. exfalso. by apply Hnm, Hlt.
Qed.

Lemma wp_copyinstr_loop fuel g s r lo max dst :
  Z.max 0 max < Z.of_nat fuel → vinv g s → r ∈ roots g → 0 ≤ lo →
  wp (copyinstr_loop fuel r lo max dst) s (copyinstr_post r lo max dst s).
Proof.
  revert lo max dst. induction fuel as [|fuel IH]; intros lo max dst Hf V Hr Hlo; [lia|]. cbn [copyinstr_loop].
  wp_if.
  { apply wp_ret. split; [done|]. exists []. rewrite app_nil_r. simpl.
    split_and!; auto using reads_at_nil; [lia|]. right. split_and!; [done|set_solver|left; lia]. }
  rewrite PGROUNDDOWN_eq. apply wp_bind, (wp_walkaddr g); [done|done|by apply Z.div_pos|..].
  2: { intros Hno. cbn [Z.eqb]. apply wp_ret. split; [done|]. exists []. rewrite app_nil_r. simpl.
       split_and!; auto using reads_at_nil; [lia|]. right. split_and!; [done|set_solver|].
       rewrite Z.add_0_r. right. destruct (Z.le_gt_cases MAXVA lo); [by left|]. right.
       rewrite uread_eq. cbv zeta. rewrite Hno; [done|]. by apply va_vpage. }
  intros a Ha P. destruct (Z.eqb_spec a 0) as [|_]; [done|]. wp_steps.
  destruct (round_bounds lo (Z.to_nat max)) as (Hn & Ho & Hfit); [done|lia|].
  assert (round lo (Z.to_nat max) = Z.min (PGSIZE - (lo - lo / PGSIZE * PGSIZE)) max) as En
    by (unfold round; by rewrite Z2Nat.id by lia).
  rewrite <-En. set (n := round lo (Z.to_nat max)) in *.
  pose proof (copyinstr_page_spec (Z.to_nat n) (mem s) (a + (lo - lo / PGSIZE * PGSIZE))) as Hpg.
  destruct (copyinstr_page _ _ _) as [bs got]. destruct Hpg as (Eb & Hl & Hg).
  assert (reads_at s r lo bs) as Rb by (rewrite Eb; apply page_reads_at; [done|done|lia]).
  destruct got.
  { apply wp_ret. split; [done|]. exists bs. split_and!; auto. simpl. lia. }
  destruct Hg as [Hlen Hz]. eapply wp_mono; [apply IH; [lia|done|done|unfold u64; by apply Z.mod_pos_bound]|].
  intros res s' Hpost. eapply (copyinstr_rest r lo _ max dst bs s res s' n); [exact Rb|lia|done|lia| |exact Hpost].
  intros Hlt. rewrite (round_next lo (Z.to_nat max)); [done|done| |fold n; lia].
  destruct P as (Hv%upage_va & _). lia.
Qed.

(** ** The theorems *)

(** C5. [copyout] into the current process returns 0 or -1 for every address
    and length.  On 0 the process reads [src] at [dstva]; on -1 it reads a
    prefix of [src] there.  Every other byte of every address space is
    unchanged, except that pages of the process below its size may have been
    faulted in with zeros; the pages that only the kernel uses are untouched. *)
Theorem copyout_correct g s p dstva src :
  vinv g s → upagetable p ∈ roots g → usz p ≤ TRAPFRAME → 0 ≤ dstva → are_bytes src →
  wp (copyout p (upagetable p) dstva src) s (λ c s', ∃ g' k,
    vinv g' s' ∧ confined p g s g' s' ∧ wrote g p dstva (take k src) s s' ∧
    (c = 0 ∧ (length src ≤ k)%nat ∨ c = -1)).
Proof. intros. unfold copyout. apply wp_copyout_loop; auto. Qed.

(** C6. [copyin] returns 0 or -1; on 0 it delivers exactly the [len] bytes the
    process reads at [srcva], and no address space changes but for pages
    faulted in with zeros. *)
Theorem copyin_correct g s p srcva len :
  vinv g s → upagetable p ∈ roots g → usz p ≤ TRAPFRAME → 0 ≤ srcva → 0 ≤ len →
  wp (copyin p (upagetable p) srcva len) s (λ '(c, bs) s', ∃ g',
    vinv g' s' ∧ confined p g s g' s' ∧ only_faulted g p s s' ∧
    reads_at s' (upagetable p) srcva bs ∧ (c = 0 ∧ Z.of_nat (length bs) = len ∨ c = -1)).
Proof.
  intros. unfold copyin. eapply wp_mono; [apply (wp_copyin_loop _ g); auto; lia|].
  intros [c bs] s' (g' & bs' & ? & ? & ? & E & ? & ? & ?). simpl in E. subst bs'.
  exists g'. split_and!; auto. simpl in *. rewrite Z.max_r in * by lia. tauto.
Qed.

(** [copyinstr] changes nothing.  It returns 0 exactly with a
    NUL-terminated string of at most [max] bytes that the process reads at
    [srcva]; it returns -1 only when the first [max] bytes have no NUL or a
    byte before the NUL cannot be read. *)
Lemma copyinstr_correct g s r srcva max :
  vinv g s → r ∈ roots g → 0 ≤ srcva → 0 ≤ max →
  wp (copyinstr r srcva max) s (λ '(c, bs) s', s' = s ∧ reads_at s r srcva bs ∧
    Z.of_nat (length bs) ≤ max ∧
    (c = 0 ∧ c_string bs ∨
     c = -1 ∧ 0 ∉ bs ∧ (Z.of_nat (length bs) = max ∨ MAXVA ≤ srcva + Z.of_nat (length bs) ∨
       uread s r (srcva + Z.of_nat (length bs)) = None))).
Proof.
  intros. unfold copyinstr. eapply wp_mono; [apply (wp_copyinstr_loop _ g); auto; lia|].
  intros [c bs] s' (-> & bs' & E & R & Hl & Hc). simpl in E, Hc. subst bs'.
  rewrite Z.max_r in * by lia. auto.
Qed.

End copy.
