(* ===== verification/CopyPut.v ===== *)
(** * Copies that succeed

    [copyout] and [copyin] at pages of a process that are there: nothing is faulted
    in, nothing fails, and exactly the bytes arrive. *)

From S2P Require Import Prelude Riscv Memory Kalloc Vm VmInv VmWalk VmRef VmOps Cow VmUser CopyUser.

Section memory.
Context `{Layout, !LayoutOk}.

(** ** Copying to pages that can be written *)

Definition writable (s : kmem) (r v : Z) : Prop :=
  0 ≤ v < UPAGES ∧ has (upte s r v) PTE_V = true ∧ has (upte s r v) PTE_U = true ∧
  has (upte s r v) PTE_W = true ∧ has (upte s r v) PTE_COW = false.

(** [bs] was stored at [lo] in [r], and nothing else happened that can be seen. *)
Record put (r lo : Z) (bs : list Z) (g : ghost) (s s' : kmem) : Prop := {
  put_v : vinv g s';
  put_ptes r' v : r' ∈ roots g → 0 ≤ v < VPAGES → upte s' r' v = upte s r' v;
  put_reads r' va : r' ∈ roots g → 0 ≤ va < MAXVA →
    uread s' r' va = if decide (r' = r ∧ lo ≤ va < lo + Z.of_nat (length bs)) then bs !! Z.to_nat (va - lo) else uread s r' va;
  put_page q x : private_page g q → q ≤ x < q + PGSIZE → mem s' x = mem s x;
}.

Lemma put_nil r lo g s : vinv g s → put r lo [] g s s.
Proof. intros V. split; try done. intros r' va _ _. rewrite decide_False by (simpl; lia). done. Qed.

Lemma put_app r lo b1 b2 g s s1 s2 :
  put r lo b1 g s s1 → put r (lo + Z.of_nat (length b1)) b2 g s1 s2 → put r lo (b1 ++ b2) g s s2.
Proof.
  intros [a1 a2 a3 a4] [c1 c2 c3 c4]. split; [done| | |].
  - intros. by rewrite c2, a2.
  - intros r' va Hr Hva. rewrite c3, a3 by done. rewrite length_app. repeat case_decide; try lia.
    + rewrite lookup_app_r by lia. f_equal. lia.
    + by rewrite lookup_app_l by lia.
    + done.
  - intros q x Hq Hx. by rewrite (c4 q), (a4 q).
Qed.

Lemma put_store g s r v off bs :
  let a := PTE2PA (upte s r v) in
  vinv g s → r ∈ roots g → writable s r v → are_bytes bs → 0 ≤ off → off + Z.of_nat (length bs) ≤ PGSIZE →
  put r (v * PGSIZE + off) bs g s (set_mem (store_bytes (mem s) (a + off) bs) s).
Proof.
  intros a V Hr (Hv & HV & HU & HW & _) Hb Hoff Hlen. set (m' := store_bytes (mem s) (a + off) bs).
  assert (∀ x, x < a ∨ a + PGSIZE ≤ x → m' x = mem s x) as Hout by (intros x Hx; unfold m', store_bytes; mem_cases; [lia|done..]).
  destruct (page_write_effect g s r v m') as (V' & EP & E); try done; [by apply bytes_ok_store_bytes; [apply V|]|].
  split; [done|done| |].
  - intros r' va Hr' Hva. rewrite E by done. assert (0 ≤ va mod PGSIZE < PGSIZE) as Hm by (by apply Z.mod_pos_bound).
    pose proof (Z.div_mod va PGSIZE ltac:(done)) as D. destruct (decide (r' = r ∧ va / PGSIZE = v)) as [[-> Ev]|Hne].
    + fold a. unfold m', store_bytes. case_decide as Hc.
      * mem_cases; [|lia..]. replace (a + va mod PGSIZE - (a + off)) with (va - (v * PGSIZE + off)) by lia.
        by destruct (nth_lookup_or_length bs (Z.to_nat (va - (v * PGSIZE + off))) 0); [|lia].
      * rewrite uread_eq, Ev. cbv zeta. rewrite HV, HU. fold a. cbn [andb]. mem_cases; [|done..]. exfalso. apply Hc. split; [done|lia].
    + rewrite decide_False; [done|]. intros [-> Hr2]. apply Hne. split; [done|]. unfold PGSIZE in *. dlia.
  - intros q x Hq Hx. by apply (cf_page _ _ _ _ _ (confined_write (mkUproc 0 r) g s r v m' V Hr Hv HV EP Hout) q Hq).
Qed.

(** The pages of [n] bytes at [lo] can be written. *)
Definition span_writable (s : kmem) (r lo : Z) (n : nat) : Prop :=
  ∀ va, lo ≤ va < lo + Z.of_nat n → writable s r (va / PGSIZE).

Lemma put_writable r lo bs g s s' r' v : r' ∈ roots g → put r lo bs g s s' → writable s r' v → writable s' r' v.
Proof. intros Hr P (Hv & Hw). unfold writable. rewrite (put_ptes _ _ _ _ _ _ P) by (done || by apply upage_vpage). done. Qed.

Lemma writable_present g s r v : vinv g s → r ∈ roots g → writable s r v → present s r v (PTE2PA (upte s r v)).
Proof.
  intros V Hr (Hv & HV & HU & _). destruct (ri_leaf _ _ _ (vi_r _ _ V) r v Hr Hv HV) as [Ho _].
  assert (page_ok (PTE2PA (upte s r v))) as Hp%page_ok_pos by (by eapply own_OData_page, Ho; apply V). unfold present. split_and!; try done; lia.
Qed.

Lemma wp_copyout_put up r g lo src s Q :
  vinv g s → r ∈ roots g → 0 ≤ lo → are_bytes src → span_writable s r lo (length src) →
  (∀ s', put r lo src g s s' → Q 0 s') → wp (copyout up r lo src) s Q.
Proof.
  unfold copyout. assert (length src < S (length src))%nat as Hf by lia. revert Hf. generalize (S (length src)) as fuel. intros fuel.
  revert lo src s Q. induction fuel as [|fuel IH]; intros lo src s Q Hf V Hr Hlo Hb Hw HQ; [lia|].
  cbn [copyout_loop]. destruct src as [|b0 src0] eqn:Esrc; [by apply wp_ret, HQ, put_nil|].
  rewrite <-Esrc in *. assert (0 < length src)%nat as Hlen by (subst; simpl; lia). clear Esrc b0 src0.
  rewrite PGROUNDDOWN_eq. set (v := lo / PGSIZE). assert (0 ≤ v) as Hv0 by (by apply Z.div_pos).
  assert (writable s r v) as W by (apply Hw; lia). pose proof W as (Hv & HV & HU & HW & HC).
  pose proof (upage_va v Hv) as Hva. wp_if; [lia|].
  apply wp_bind, (wp_walkaddr g); [done..| |intros Hn; rewrite HV, HU in Hn; discriminate Hn; by apply upage_vpage].
  intros a Ha (_ & _ & _ & Ea & _). rewrite (proj2 (Z.eqb_neq _ _) Ha). apply wp_bind, wp_ret. rewrite (proj2 (Z.eqb_neq _ _) Ha).
  assert (slot 2 (mem s) r (v * PGSIZE) ≠ 0) as Hs by (by apply slot_valid).
  apply wp_bind, wp_walk; [done|]. rewrite (proj2 (Z.eqb_neq _ _) Hs). unfold read64. apply wp_bind, wp_gets.
  assert (load64 (mem s) (slot 2 (mem s) r (v * PGSIZE)) = upte s r v) as Eld.
  { unfold upte, pte_at. by rewrite (proj2 (Z.eqb_neq _ _) Hs). }
  rewrite Eld, HV, HU, HC. cbn [negb orb]. apply wp_bind, wp_ret. apply wp_bind, wp_gets. rewrite Eld, HW. cbn [negb].
  fold (round lo (length src)). destruct (round_bounds lo (length src)) as (Hn & Ho & Hfit); [done..|]. fold v in Ho, Hfit.
  set (n := round lo (length src)) in *. unfold write_bytes. apply wp_bind, wp_modify.
  pose proof (put_store g s r v (lo - v * PGSIZE) (take (Z.to_nat n) src) V Hr W (are_bytes_take _ _ Hb) Ho ltac:(rewrite length_take_le; lia)) as P1.
  replace (v * PGSIZE + (lo - v * PGSIZE)) with lo in P1 by lia. rewrite Ea in P1. set (s1 := set_mem _ s) in *.
  destruct (decide (n < Z.of_nat (length src))) as [Hlt|Hge].
  - assert (u64 (v * PGSIZE + PGSIZE) = lo + n) as -> by (unfold v, n; apply round_next; [done|fold v; lia|fold n; lia]).
    apply IH; [rewrite length_drop; lia|apply P1|done|lia|by apply are_bytes_drop| |].
    + intros va Hva'. rewrite length_drop in Hva'. eapply put_writable; [done|exact P1|]. apply Hw. lia.
    + intros s2 P2. apply HQ. rewrite <-(take_drop (Z.to_nat n) src). eapply put_app; [exact P1|]. rewrite length_take_le by lia.
      by rewrite Z2Nat.id by lia.
  - rewrite drop_ge by lia. rewrite take_ge in P1 by lia. destruct fuel; [lia|]. cbn [copyout_loop]. by apply wp_ret, HQ.
Qed.

(** ** Copying from pages that are there *)

Lemma reads_at_unique s r lo b1 b2 : length b1 = length b2 → reads_at s r lo b1 → reads_at s r lo b2 → b1 = b2.
Proof.
  intros Hl R1 R2. apply list_eq_same_length with (length b2); [done|done|]. intros i x y Hi Hx Hy.
  destruct (R1 i x Hx) as [_ E1], (R2 i y Hy) as [_ E2]. congruence.
Qed.

Lemma reads_at_take s r lo n bs : reads_at s r lo bs → reads_at s r lo (take n bs).
Proof. intros R i b [Hi _]%lookup_take_Some. by apply R. Qed.
Lemma reads_at_drop s r lo n bs : reads_at s r lo bs → reads_at s r (lo + Z.of_nat n) (drop n bs).
Proof.
  intros R i b Hi. rewrite lookup_drop in Hi. destruct (R _ _ Hi) as [? E].
  replace (lo + Z.of_nat (n + i)) with (lo + Z.of_nat n + Z.of_nat i) in * by lia. done.
Qed.

Lemma reads_at_bytes g s r lo bs : vinv g s → reads_at s r lo bs → are_bytes bs.
Proof.
  intros V R. apply Forall_lookup. intros i b Hi. destruct (R i b Hi) as [_ E]. unfold uread in E. destruct (_ && _); [|done].
  injection E as <-. apply (ki_bytes _ _ (ti_k _ _ (vi_t _ _ V))).
Qed.

(** All bytes can be read: they arrive, and nothing changes. *)
Lemma wp_copyin_reads p g lo bs s Q :
  vinv g s → upagetable p ∈ roots g → 0 ≤ lo → reads_at s (upagetable p) lo bs → Q (0, bs) s →
  wp (copyin p (upagetable p) lo (Z.of_nat (length bs))) s Q.
Proof.
  intros V Hr. unfold copyin. rewrite Nat2Z.id. change bs with ([] ++ bs) at 2.
  assert (length bs < S (length bs))%nat as Hf by lia. revert Hf. generalize (S (length bs)) as fuel, (@nil Z) as dst. intros fuel.
  revert lo bs. induction fuel as [|fuel IH]; intros lo bs dst Hf Hlo R HQ; [lia|]. cbn [copyin_loop]. destruct bs as [|b0 bs0] eqn:Ebs.
  { apply wp_ret. by rewrite app_nil_r in HQ. }
  rewrite <-Ebs in *. assert (0 < length bs)%nat as Hlen by (subst; simpl; lia).
  assert (lo < MAXVA ∧ ∃ b, uread s (upagetable p) lo = Some b) as [Hmax [b Hb]].
  { destruct (R 0%nat b0) as [? E]; [by subst|]. rewrite Z.add_0_r in *. eauto. }
  clear Ebs b0 bs0. wp_if; [lia|]. rewrite PGROUNDDOWN_eq. set (v := lo / PGSIZE). assert (0 ≤ v) as Hv0 by (by apply Z.div_pos).
  rewrite uread_eq in Hb. fold v in Hb. cbv zeta in Hb.
  apply wp_bind, (wp_walkaddr g); [done..| |intros Hn; rewrite Hn in Hb; [done|apply va_vpage; lia]].
  intros a Ha P. rewrite (proj2 (Z.eqb_neq _ _) Ha). apply wp_bind, wp_ret. rewrite (proj2 (Z.eqb_neq _ _) Ha).
  destruct (round_bounds lo (length bs)) as (Hn & Ho & Hfit); [done..|]. fold v in Ho, Hfit.
  change (Z.min _ _) with (round lo (length bs)). set (n := round lo (length bs)) in *. unfold read_bytes. apply wp_bind, wp_gets.
  assert (load_bytes (mem s) (a + (lo - v * PGSIZE)) n = take (Z.to_nat n) bs) as ->.
  { apply (reads_at_unique s (upagetable p) lo); [rewrite length_load_bytes, length_take; lia| |by apply reads_at_take].
    apply page_reads_at; [done|done|unfold v in *; lia]. }
  replace (Z.of_nat (length bs) - n) with (Z.of_nat (length (drop (Z.to_nat n) bs))) by (rewrite length_drop; lia).
  destruct (decide (n < Z.of_nat (length bs))) as [Hlt|Hge].
  - assert (u64 (v * PGSIZE + PGSIZE) = lo + n) as ->.
    { unfold v, n. apply round_next; [done|fold v; lia|fold n; lia]. }
    apply IH; [rewrite length_drop; lia|lia| |by rewrite <-app_assoc, take_drop].
    replace (lo + n) with (lo + Z.of_nat (Z.to_nat n)) by lia. by apply reads_at_drop.
  - rewrite drop_ge by lia. rewrite take_ge by lia. destruct fuel; [lia|]. cbn [copyin_loop length Z.of_nat Z.ltb Z.compare negb]. by apply wp_ret.
Qed.
End memory.
