(* ===== verification/Fork.v ===== *)
(** * Sharing an address space

    [uvmcopy], the memory half of [fork]: every mapped page of the parent is
    mapped in the child, writable pages become read-only copy-on-write pages
    in both, and reference counts follow. *)

From S2P Require Import Prelude Riscv Memory Kalloc Vm VmInv VmWalk VmRef VmOps Cow VmUser.

(** The entry a parent keeps for a page it has shared. *)
Definition ro (e : Z) : Z :=
  if has e PTE_V && has e PTE_W then Z.lor (PA2PTE (PTE2PA e)) (share_flags (PTE_FLAGS e)) else e.
(** The entry the child gets for a page the parent maps with [e]. *)
Definition child (e : Z) : Z := mk_pte (PTE2PA e) (PTE_FLAGS (ro e)).

(** The entries once pages below [hp] of [old] are protected and pages below
    [hc] are mapped in [new]. *)
Definition fork_pte (old new hp hc : Z) (P : Z → Z → Z) (r v : Z) : Z :=
  if decide (r = old ∧ 0 ≤ v < hp) then ro (P old v)
  else if decide (r = new ∧ 0 ≤ v < hc ∧ has (P old v) PTE_V = true) then child (P old v)
  else P r v.

Section fork.
Context `{Layout, !LayoutOk}.

Lemma has_FLAGS e i : 0 ≤ i < 10 → Z.testbit (PTE_FLAGS e) i = Z.testbit e i.
Proof. apply testbit_FLAGS. Qed.

Lemma ro_spec e :
  0 ≤ e < 2 ^ 64 → page_ok (PTE2PA e) → 0 ≤ ro e < 2 ^ 64 ∧ PTE2PA (ro e) = PTE2PA e ∧
  has (ro e) PTE_V = has e PTE_V ∧ has (ro e) PTE_U = has e PTE_U ∧
  (has e PTE_V = true → has (ro e) PTE_W = false).
Proof.
  intros He Hp%page_ok_paddr. unfold ro. destruct (has e PTE_V) eqn:HV, (has e PTE_W) eqn:HW; try done.
  cbn [andb]. destruct (share_flags_spec (PTE_FLAGS e) (PTE_FLAGS_range e)) as (Hr & Hb0 & Hb4 & Hb2 & _).
  split; [by apply pte_make_range|]. split_and!; [by apply PTE2PA_make|..].
  - rewrite has_V, testbit_make, Hb0, has_FLAGS, <-has_V by (done || lia). done.
  - rewrite !has_U, testbit_make, Hb4, has_FLAGS by (done || lia). done.
  - rewrite has_W, testbit_make by (done || lia). done.
Qed.

Lemma child_spec e :
  0 ≤ e < 2 ^ 64 → page_ok (PTE2PA e) → has e PTE_V = true →
  0 ≤ child e < 2 ^ 64 ∧ PTE2PA (child e) = PTE2PA e ∧
  has (child e) PTE_V = true ∧ has (child e) PTE_U = has e PTE_U ∧ has (child e) PTE_W = false.
Proof.
  intros He Hp HV. destruct (ro_spec e He Hp) as (Hr & Epa & _ & EU & EW). specialize (EW HV).
  apply page_ok_paddr in Hp. pose proof (PTE_FLAGS_range (ro e)) as Hf. unfold child.
  split; [by apply mk_pte_range|]. split_and!; [by apply mk_pte_pa|by apply mk_pte_V|..].
  - rewrite <-EU, !has_U, mk_pte_bit, has_FLAGS by (done || lia). done.
  - rewrite <-EW, !has_W, mk_pte_bit, has_FLAGS by (done || lia). done.
Qed.

(** Progress of the copy: the parent is protected below [hp], the child mapped
    below [hc]; apart from page-table pages no memory has changed. *)
Record shared (old new hp hc : Z) (g : ghost) (s : kmem) (g' : ghost) (s' : kmem) : Prop := {
  sh_roots : roots g' = roots g;
  sh_pt p r l pre : own g p = OPT r l pre → own g' p = OPT r l pre;
  sh_data p : own g p = OData → own g' p = OData ∧ kref g' p = kref g p ∧
    ∀ x, p ≤ x < p + PGSIZE → mem s' x = mem s x;
  sh_own p : own g' p = OData → own g p = OData;
  sh_ptes : same_ptes g (fork_pte old new hp hc (upte s)) (upte s');
}.

Lemma shared_refl old new g s : shared old new 0 0 g s g s.
Proof.
  split; auto. intros r v _ _. unfold fork_pte. rewrite !decide_False by lia. done.
Qed.

Lemma shared_grows old new hp hc g s g1 s1 g2 s2 :
  shared old new hp hc g s g1 s1 → grows g1 s1 g2 s2 → shared old new hp hc g s g2 s2.
Proof.
  intros [a1 a2 a3 a4 a5] G. split.
  - by rewrite (gr_roots _ _ _ _ G).
  - intros. by apply (gr_pt _ _ _ _ G), a2.
  - intros p Hp. destruct (a3 p Hp) as (Hp1 & Hk & Hm). destruct (gr_data _ _ _ _ G p Hp1) as [? ->].
    split_and!; try done. intros x Hx. rewrite (gr_mem _ _ _ _ G p); auto.
  - intros p Hp. apply a4. by apply (gr_own _ _ _ _ G).
  - intros r v Hr Hv. rewrite (grows_same_ptes _ _ _ _ G); auto.
Qed.

(** A page that the parent does not map. *)
Lemma shared_skip old new v g s g1 s1 :
  old ≠ new → has (upte s old v) PTE_V = false →
  shared old new v v g s g1 s1 → shared old new (v + 1) (v + 1) g s g1 s1.
Proof.
  intros Hne HV [a1 a2 a3 a4 a5]. split; auto. intros r v' Hr Hv'. rewrite a5 by done. unfold fork_pte.
  destruct (decide (v' = v)) as [->|Hnv].
  - rewrite !(decide_False (P := _ ∧ 0 ≤ v < v)), !(decide_False (P := _ ∧ 0 ≤ v < v ∧ _)) by lia.
    case_decide as H1; [destruct H1 as [-> _]; unfold ro; by rewrite HV|].
    rewrite decide_False; [done|]. intros (_ & _ & ?). congruence.
  - assert (0 ≤ v' < v + 1 ↔ 0 ≤ v' < v) as E by lia. repeat case_decide; tauto.
Qed.

Lemma upte_range g s r v : vinv g s → 0 ≤ upte s r v < 2 ^ 64.
Proof.
  intros V. unfold upte, pte_at. destruct (_ =? 0); [done|].
  apply (load_le_range 8). apply V.
Qed.

Section step.
Context (old new v : Z) (g : ghost) (s : kmem) (g1 : ghost) (s1 : kmem).
Hypothesis V : vinv g s.
Hypothesis V1 : vinv g1 s1.
Hypothesis Hold : old ∈ roots g.
Hypothesis Hnew : new ∈ roots g.
Hypothesis Hne : old ≠ new.
Hypothesis Hv : 0 ≤ v < UPAGES.
Hypothesis Sh : shared old new v v g s g1 s1.
#[local] Abbreviation e := (upte s old v).
#[local] Abbreviation pa := (PTE2PA e).
Hypothesis HV : has e PTE_V = true.
Hypothesis Hinv : has (upte s new v) PTE_V = false.

(** The state after the parent's entry has been rewritten. *)
Definition protect : kmem := if has e PTE_W then set_pte old (v * PGSIZE) (ro e) s1 else s1.

Lemma step_entry r : r ∈ roots g → upte s1 r v = upte s r v.
Proof.
  intros Hr. rewrite (sh_ptes _ _ _ _ _ _ _ _ Sh); [|by apply (root_label _ _ V)|by apply upage_va].
  unfold fork_pte. by rewrite !decide_False by lia.
Qed.

Lemma step_page : own g pa = OData ∧ page_ok pa ∧ own g1 pa = OData ∧ (old, v) ∈ refs g1 pa.
Proof.
  destruct (ri_leaf _ _ _ (vi_r _ _ V) old v Hold Hv HV) as [Ho _].
  destruct (ri_leaf _ _ _ (vi_r _ _ V1) old v) as [Ho1 Hin]; try done.
  { by rewrite (sh_roots _ _ _ _ _ _ _ _ Sh). }
  { by rewrite step_entry. }
  rewrite step_entry in Ho1, Hin by done. split_and!; try done. by eapply own_OData_page, Ho; apply V.
Qed.

Lemma step_roots r : r ∈ roots g → own g1 r = OPT r 2 0 ∧ r ∈ roots g1.
Proof.
  intros Hr. split; [|by rewrite (sh_roots _ _ _ _ _ _ _ _ Sh)].
  apply (sh_pt _ _ _ _ _ _ _ _ Sh). by apply (root_label _ _ V).
Qed.

Lemma step_slot : slot 2 (mem s1) old (v * PGSIZE) ≠ 0.
Proof. apply slot_valid. fold (upte s1 old v). by rewrite step_entry. Qed.

Lemma ro_same : has e PTE_W = false → ro e = e.
Proof. intros HW. unfold ro. by rewrite HW, andb_false_r. Qed.

Lemma protect_ptes r' v' :
  own g1 r' = OPT r' 2 0 → 0 ≤ v' * PGSIZE < MAXVA →
  upte protect r' v' = upd2 (upte s1) old v (ro e) r' v'.
Proof.
  intros Hr' Hv'. unfold protect. destruct (has e PTE_W) eqn:HW.
  - destruct step_page as (_ & Hp & _). destruct (ro_spec e) as [? _]; [by eapply upte_range|done|].
    apply (upte_set_pte g1); try done; [apply V1|by apply step_roots|by apply upage_va|apply step_slot].
  - unfold upd2. case_decide as Hc; [|done]. destruct Hc as [-> ->]. by rewrite step_entry, ro_same.
Qed.

Lemma protect_vinv : vinv g1 protect.
Proof.
  unfold protect. destruct (has e PTE_W) eqn:HW; [|done]. destruct step_page as (_ & Hp & _).
  destruct (ro_spec e) as (? & ? & EV & _ & EW); [by eapply upte_range|done|].
  apply vinv_protect; try done; [by apply step_roots|apply step_slot|..];
    rewrite ?step_entry by done; rewrite ?EV; try done. by rewrite EW.
Qed.

Lemma protect_data p x : own g1 p = OData → p ≤ x < p + PGSIZE → mem protect x = mem s1 x.
Proof.
  intros Hp Hx. unfold protect. destruct (has e PTE_W); [|done].
  apply (set_pte_data g1 _ _ _ _ p); try done; [apply V1|by apply step_roots|by apply upage_va|apply step_slot].
Qed.

Lemma protect_shared : shared old new (v + 1) v g s g1 protect.
Proof.
  destruct Sh as [a1 a2 a3 a4 a5]. split; auto.
  - intros p Hp. destruct (a3 p Hp) as (? & ? & Hm). split_and!; try done. intros x Hx.
    rewrite (protect_data p); auto.
  - intros r v' Hr Hv'. rewrite protect_ptes by auto. unfold upd2, fork_pte.
    destruct (decide (r = old ∧ v' = v)) as [[-> ->]|Hn].
    + by rewrite decide_True by lia.
    + rewrite a5 by done. unfold fork_pte.
      assert (r = old ∧ 0 ≤ v' < v + 1 ↔ r = old ∧ 0 ≤ v' < v) as E by (split; intros [-> ?]; split; lia).
      by rewrite (decide_ext _ _ _ _ E).
Qed.

(** Nothing can write to the page any more. *)
Lemma protect_readonly r' v' : (r', v') ∈ refs g1 pa → has (upte protect r' v') PTE_W = false.
Proof.
  intros Hin. destruct step_page as (_ & Hp & _ & Hin0).
  destruct (ri_refs _ _ _ (vi_r _ _ V1) pa r' v' Hin) as (Hr' & Hv' & HV' & Epa).
  assert (own g1 r' = OPT r' 2 0) as Hrl by (by apply (root_label _ _ V1)).
  rewrite protect_ptes by auto using upage_va. unfold upd2. case_decide as Hc.
  - destruct (ro_spec e) as (_ & _ & _ & _ & EW); [by eapply upte_range|done|]. by apply EW.
  - destruct (has (upte s1 r' v') PTE_W) eqn:HW; [|done].
    destruct (ri_write _ _ _ (vi_r _ _ V1) r' v' Hr' Hv' HV' HW) as [Hone _].
    rewrite Epa in Hone. rewrite Hone in Hin0. apply elem_of_singleton in Hin0. exfalso. apply Hc. by injection Hin0 as -> ->.
Qed.

Lemma ro_flags : PTE_FLAGS (ro e) = if has (PTE_FLAGS e) PTE_W then share_flags (PTE_FLAGS e) else PTE_FLAGS e.
Proof.
  destruct step_page as (_ & Hp%page_ok_paddr & _).
  unfold ro. rewrite HV, (has_W (PTE_FLAGS e)), has_FLAGS, <-has_W by lia. cbn [andb].
  destruct (has e PTE_W); [|done].
  apply PTE_FLAGS_make; [done|]. apply share_flags_spec, PTE_FLAGS_range.
Qed.

Section child.
Context (g2 : ghost) (s2 : kmem).
Hypothesis V2 : vinv g2 s2.
Hypothesis G2 : grows g1 protect g2 s2.
Hypothesis Hs : slot 2 (mem s2) new (v * PGSIZE) ≠ 0.

Definition child_ghost : ghost := g_map pa new v (g_kref pa (kref g2 pa + 1) g2).
Definition child_state : kmem :=
  set_refcount (pa / PGSIZE) (refcount s2 (pa / PGSIZE) + 1) (set_pte new (v * PGSIZE) (child e) s2).

Lemma child_entry : 0 ≤ child e < 2 ^ 64 ∧ PTE2PA (child e) = pa ∧ has (child e) PTE_V = true ∧
  has (child e) PTE_W = false.
Proof.
  destruct step_page as (_ & Hp & _).
  destruct (child_spec e) as (? & ? & ? & _ & ?); [by eapply upte_range|done..|]. done.
Qed.

Lemma child_own : own g2 pa = OData ∧ kref g2 pa = kref g1 pa ∧ refs g2 = refs g1.
Proof.
  destruct step_page as (_ & _ & Ho & _). destruct (gr_data _ _ _ _ G2 pa Ho).
  by rewrite (gr_refs _ _ _ _ G2).
Qed.

Lemma child_ptes r : r ∈ roots g → ∀ v', 0 ≤ v' < VPAGES → upte s2 r v' = upte protect r v'.
Proof.
  intros Hr v' Hv'. apply (grows_same_ptes _ _ _ _ G2); [by apply step_roots|by apply vpage_va].
Qed.

Lemma child_addref :
  kaddref pa (set_pte new (v * PGSIZE) (child e) s2) = Ok (tt, child_state).
Proof.
  destruct child_own as (Ho & _). destruct step_page as (_ & Hp & _).
  pose proof (count_pos _ _ V2 pa Ho). apply kaddref_run; [apply V2|done|done].
Qed.

Lemma child_vinv : vinv child_ghost child_state.
Proof.
  destruct child_own as (Ho & Hk & Hrf). destruct child_entry as (Hc & Epa & EV & EW).
  assert (new ∈ roots g2) as Hn2 by (by rewrite (gr_roots _ _ _ _ G2); apply step_roots).
  pose proof (ri_nonneg _ _ _ (vi_r _ _ V2) pa) as Hk0.
  assert (vinv (g_kref pa (kref g2 pa + 1) g2)
    (set_refcount (pa / PGSIZE) (refcount s2 (pa / PGSIZE) + 1) s2)) as V3.
  { apply vinv_addref; [done|done|]. rewrite Hrf. intros r' v' Hin.
    destruct (ri_refs _ _ _ (vi_r _ _ V1) pa r' v' Hin) as (Hr' & Hv' & _).
    rewrite (sh_roots _ _ _ _ _ _ _ _ Sh) in Hr'.
    rewrite child_ptes by auto using upage_vpage. by apply protect_readonly. }
  unfold child_ghost, child_state. rewrite <-Epa at 1.
  apply (vinv_map _ _ V3 new v (child e)); try done; rewrite ?Epa; gsimpl.
  - change (has (upte s2 new v) PTE_V = false). rewrite child_ptes by auto using upage_vpage.
    rewrite protect_ptes by (by apply step_roots || by apply upage_va). unfold upd2.
    rewrite decide_False by (by intros [-> _]). by rewrite step_entry.
  - done.
  - rewrite fn_lookup_insert. lia.
  - by rewrite EW.
Qed.

Lemma child_shared : shared old new (v + 1) (v + 1) g s child_ghost child_state.
Proof.
  destruct (shared_grows _ _ _ _ _ _ _ _ _ _ protect_shared G2) as [a1 a2 a3 a4 a5].
  destruct child_entry as (Hc & _). assert (own g2 new = OPT new 2 0) as Hn2 by (apply a2; by apply (root_label _ _ V)).
  pose proof (upage_va v Hv) as Hva. split.
  - done.
  - done.
  - intros p Hp. destruct (a3 p Hp) as (? & Hk & Hm). split; [done|]. split.
    + unfold child_ghost. gsimpl. destruct (decide (pa = p)) as [<-|].
      * rewrite !fn_lookup_insert. lia.
      * by rewrite !fn_lookup_insert_ne.
    + intros x Hx. rewrite <-Hm by done. apply (set_pte_data g2 s2 new _ _ p); try done. apply V2.
  - done.
  - intros r v' Hr Hv'. transitivity (upd2 (upte s2) new v (child e) r v').
    { apply (upte_set_pte g2); try done; [apply V2|by apply a2]. }
    unfold upd2, fork_pte. destruct (decide (r = new ∧ v' = v)) as [[-> ->]|Hn].
    + rewrite decide_False by (by intros [-> _]). by rewrite decide_True by (split_and!; done || lia).
    + rewrite a5 by done. unfold fork_pte. case_decide; [done|].
      assert (r = new ∧ 0 ≤ v' < v + 1 ∧ has (upte s old v') PTE_V = true ↔
              r = new ∧ 0 ≤ v' < v ∧ has (upte s old v') PTE_V = true) as E.
      { split; intros (-> & ? & ?); split_and!; done || lia. }
      by rewrite (decide_ext _ _ _ _ E).
Qed.
End child.

End step.

Section copy.
Context (old new sz : Z) (g : ghost) (s : kmem) (Q : Z → kmem → Prop).
Hypothesis V : vinv g s.
Hypothesis Hold : old ∈ roots g.
Hypothesis Hnew : new ∈ roots g.
Hypothesis Hne : old ≠ new.
Hypothesis Hsz : 0 ≤ sz ≤ TRAPFRAME.
Hypothesis Hinv : ∀ v, 0 ≤ v < npg sz → has (upte s new v) PTE_V = false.
Hypothesis Hok : ∀ g' s', vinv g' s' → shared old new (npg sz) (npg sz) g s g' s' → Q 0 s'.
Hypothesis Hfail : ∀ v g2 s2 g' s', 0 ≤ v < npg sz → vinv g2 s2 → shared old new (v + 1) v g s g2 s2 →
  vinv g' s' → unmapped new 0 v g2 s2 g' s' → Q (-1) s'.

Lemma wp_uvmcopy_map v g1 s1 (K : M kmem Z) :
  0 ≤ v < npg sz → vinv g1 s1 → shared old new v v g s g1 s1 → has (upte s old v) PTE_V = true →
  (∀ g' s', vinv g' s' → shared old new (v + 1) (v + 1) g s g' s' → wp K s' Q) →
  wp (r ← mappages new (v * PGSIZE) PGSIZE (PTE2PA (upte s old v)) (PTE_FLAGS (ro (upte s old v)));
      if negb (r =? 0) then uvmunmap new 0 (v * PGSIZE / PGSIZE) true ;; mret (-1)
      else kaddref (PTE2PA (upte s old v)) ;; K) (protect old v s s1) Q.
Proof.
  intros Hv V1 Sh HV HK. pose proof (Hinv v Hv) as Hi. pose proof (npg_range sz Hsz) as Hn. assert (0 ≤ v < UPAGES) as Hu by lia.
  pose proof (protect_vinv old new v g s g1 s1 V V1 Hold Hu Sh HV) as Vp.
  pose proof (protect_shared old new v g s g1 s1 V V1 Hold Hu Sh HV) as Shp.
  assert (own g1 new = OPT new 2 0) as Hnl by (by eapply (step_roots old new v g s g1 s1)).
  apply wp_bind, (wp_mappages1 g1); [done|done|by apply upage_va|unfold PGSIZE; dlia|..].
  - change (has (upte (protect old v s s1) new v) PTE_V = false).
    rewrite (sh_ptes _ _ _ _ _ _ _ _ Shp); [|by apply (root_label _ _ V)|by apply upage_va].
    unfold fork_pte. rewrite !decide_False by naive_solver lia. by apply Hinv.
  - intros g2 s2 V2 G2 _. cbn [Z.eqb negb]. rewrite div_page. apply wp_bind.
    pose proof (shared_grows _ _ _ _ _ _ _ _ _ _ Shp G2) as Sh2.
    apply (wp_uvmunmap g2 s2 new 0 v); [done|by rewrite (sh_roots _ _ _ _ _ _ _ _ Sh2)|lia..|].
    intros g3 s3 V3 U. apply wp_ret. by eapply (Hfail v g2 s2 g3).
  - intros g2 s2 V2 G2 Hs. cbn [Z.eqb negb]. apply wp_bind.
    eapply wp_Ok; [by apply (child_addref old new v g s g1 s1 V V1 Hold Hu Sh HV g2 s2)|].
    apply (HK (child_ghost old new v s g2)).
    + apply (child_vinv old new v g s g1 s1); auto.
    + apply (child_shared old new v g s g1 s1); auto.
Qed.

Lemma wp_uvmcopy_loop n v g1 s1 :
  0 ≤ v ≤ npg sz → vinv g1 s1 → shared old new v v g s g1 s1 → npg sz - v < Z.of_nat n →
  wp (uvmcopy_loop n old new sz (v * PGSIZE)) s1 Q.
Proof.
  revert v g1 s1. induction n as [|n IH]; intros v g1 s1 Hv V1 Sh Hn; [lia|]. cbn [uvmcopy_loop].
  pose proof (npg_lt sz v Hsz) as Hlt. pose proof (npg_range sz Hsz) as Hnp. wp_if.
  { assert (v = npg sz) as -> by lia. apply wp_ret. by apply (Hok g1). }
  assert (v < npg sz) as Hvlt by (apply Hlt; lia). assert (0 ≤ v < UPAGES) as Hu by lia.
  pose proof (upage_va v Hu) as Hva.
  assert (u64 (v * PGSIZE + PGSIZE) = (v + 1) * PGSIZE) as ->.
  { rewrite u64_small; [unfold PGSIZE; lia|]. change MAXVA with (2 ^ 38) in Hva. unfold PGSIZE in *. lia. }
  assert (∀ g' s', vinv g' s' → shared old new (v + 1) (v + 1) g s g' s' →
    wp (uvmcopy_loop n old new sz ((v + 1) * PGSIZE)) s' Q) as HK by (intros; eapply IH; eauto; lia).
  pose proof (step_entry old new v g s g1 s1 V Hu Sh old Hold) as Ee.
  wp_steps. apply wp_walk; [lia|].
  destruct (Z.eqb_spec (slot 2 (mem s1) old (v * PGSIZE)) 0) as [Es|Es].
  { apply (HK g1); [done|]. apply shared_skip; try done. rewrite <-Ee. unfold upte, pte_at. by rewrite Es. }
  unfold read64. wp_steps. assert (load64 (mem s1) (slot 2 (mem s1) old (v * PGSIZE)) = upte s old v) as ->.
  { rewrite <-Ee. unfold upte, pte_at. by destruct (Z.eqb_spec (slot 2 (mem s1) old (v * PGSIZE)) 0). }
  destruct (has (upte s old v) PTE_V) eqn:HV; cbn [negb]; [|by apply (HK g1), shared_skip].
  pose proof (wp_uvmcopy_map v g1 s1 _ ltac:(lia) V1 Sh HV HK) as W.
  rewrite (ro_flags old new v g s g1 s1 V V1 Hold Hu Sh HV) in W.
  rewrite (has_W (PTE_FLAGS _)), has_FLAGS, <-has_W in W |- * by lia. unfold protect, ro in W. rewrite HV in W.
  destruct (has (upte s old v) PTE_W) eqn:HW; cbn [andb] in W.
  - unfold write64, sfence_vma. wp_steps. by apply wp_bind_inv in W.
  - wp_steps. by apply wp_bind_inv in W.
Qed.
End copy.

(** ** What the copy means for the address spaces *)

(** Entries that map the same page, with the same user permission. *)
Definition like (e e' : Z) : Prop :=
  has e' PTE_V = has e PTE_V ∧
  (has e PTE_V = true → has e' PTE_U = has e PTE_U ∧ PTE2PA e' = PTE2PA e).

Lemma like_reads g s g' s' r0 r va :
  vinv g s → r0 ∈ roots g → 0 ≤ va < MAXVA → like (upte s r0 (va / PGSIZE)) (upte s' r (va / PGSIZE)) →
  (∀ p, own g p = OData → p = PTE2PA (upte s' r (va / PGSIZE)) → has (upte s' r (va / PGSIZE)) PTE_V = true →
     0 ≤ va / PGSIZE < UPAGES → own g' p = OData) →
  (∀ p x, own g' p = OData → own g p = OData → p ≤ x < p + PGSIZE → mem s' x = mem s x) →
  uread s' r va = uread s r0 va.
Proof.
  intros V Hr0 Hva (EV & EP) Hown Hm. rewrite !uread_eq. cbv zeta. rewrite EV.
  destruct (has (upte s r0 (va / PGSIZE)) PTE_V) eqn:HV; [|done]. destruct (EP eq_refl) as [EU EA].
  rewrite EU. destruct (has (upte s r0 (va / PGSIZE)) PTE_U) eqn:HU; [|done]. simpl. rewrite EA. f_equal.
  pose proof (va_vpage va Hva) as Hp. pose proof (user_upage g s r0 _ V Hr0 Hp HU) as Hu.
  destruct (ri_leaf _ _ _ (vi_r _ _ V) r0 (va / PGSIZE) Hr0 ltac:(lia) HV) as [Ho _].
  apply (Hm (PTE2PA (upte s r0 (va / PGSIZE)))); [|done|].
  - apply Hown; [done|by rewrite EA|done|lia].
  - pose proof (Z.mod_pos_bound va PGSIZE ltac:(done)). lia.
Qed.

Section result.
Context (old new hp hc : Z) (g : ghost) (s : kmem) (g1 : ghost) (s1 : kmem).
Hypothesis V : vinv g s.
Hypothesis V1 : vinv g1 s1.
Hypothesis Hold : old ∈ roots g.
Hypothesis Hnew : new ∈ roots g.
Hypothesis Hne : old ≠ new.
Hypothesis Hhp : hc ≤ hp ≤ UPAGES.
Hypothesis Hinv : ∀ v, 0 ≤ v < hc → has (upte s new v) PTE_V = false.
Hypothesis Sh : shared old new hp hc g s g1 s1.

Lemma ro_like v : 0 ≤ v < UPAGES → like (upte s old v) (ro (upte s old v)).
Proof.
  intros Hv. destruct (has (upte s old v) PTE_V) eqn:HV.
  - destruct (ri_leaf _ _ _ (vi_r _ _ V) old v Hold Hv HV) as [Ho _].
    destruct (ro_spec (upte s old v)) as (_ & ? & ? & ? & _); [by eapply upte_range| |by split_and!].
    by eapply own_OData_page, Ho; apply V.
  - unfold ro, like. rewrite HV. done.
Qed.

Lemma fork_like r v : r ∈ roots g → 0 ≤ v < VPAGES → r ≠ new → like (upte s r v) (upte s1 r v).
Proof.
  intros Hr Hv Hrn. rewrite (sh_ptes _ _ _ _ _ _ _ _ Sh); [|by apply (root_label _ _ V)|by apply vpage_va].
  unfold fork_pte. case_decide as H1; [destruct H1 as [-> ?]; apply ro_like; lia|].
  by rewrite decide_False by naive_solver.
Qed.

Lemma fork_child v : 0 ≤ v < hc → like (upte s old v) (upte s1 new v).
Proof.
  intros Hv. rewrite (sh_ptes _ _ _ _ _ _ _ _ Sh); [|by apply (root_label _ _ V)|by apply upage_va; lia].
  unfold fork_pte. rewrite decide_False by naive_solver.
  destruct (has (upte s old v) PTE_V) eqn:HV.
  - rewrite decide_True by (split_and!; done || lia).
    destruct (ri_leaf _ _ _ (vi_r _ _ V) old v Hold ltac:(lia) HV) as [Ho _].
    destruct (child_spec (upte s old v)) as (_ & ? & ? & ? & _); [by eapply upte_range| |done|].
    + by eapply own_OData_page, Ho; apply V.
    + unfold like. rewrite HV. by split_and!.
  - rewrite decide_False by naive_solver. unfold like. by rewrite HV, Hinv.
Qed.

Lemma fork_reads r va : r ∈ roots g → r ≠ new → 0 ≤ va < MAXVA → uread s1 r va = uread s r va.
Proof.
  intros Hr Hrn Hva. apply (like_reads g s g1); try done.
  - apply fork_like; [done|by apply va_vpage|done].
  - intros p Hp _ _ _. by apply (sh_data _ _ _ _ _ _ _ _ Sh).
  - intros p x _ Hp. by apply (sh_data _ _ _ _ _ _ _ _ Sh).
Qed.

Lemma fork_child_reads va : 0 ≤ va < hc * PGSIZE → uread s1 new va = uread s old va.
Proof.
  intros Hva. assert (0 ≤ va / PGSIZE < hc) as Hv by (unfold PGSIZE in *; dlia).
  apply (like_reads g s g1); try done.
  - assert (0 ≤ va / PGSIZE < UPAGES) as Hu%upage_va by lia.
    change MAXVA with (2 ^ 38) in *. unfold PGSIZE in *. dlia.
  - by apply fork_child.
  - intros p Hp _ _ _. by apply (sh_data _ _ _ _ _ _ _ _ Sh).
  - intros p x _ Hp. by apply (sh_data _ _ _ _ _ _ _ _ Sh).
Qed.

Lemma fork_readonly r v :
  r = old ∨ r = new → 0 ≤ v < hc → has (upte s1 r v) PTE_V = true → has (upte s1 r v) PTE_W = false.
Proof.
  intros Hr Hv. assert (r ∈ roots g) as Hrg by naive_solver.
  rewrite (sh_ptes _ _ _ _ _ _ _ _ Sh); [|by apply (root_label _ _ V)|apply upage_va; lia].
  assert (has (upte s old v) PTE_V = true → 0 ≤ upte s old v < 2 ^ 64 ∧ page_ok (PTE2PA (upte s old v))) as Hpe.
  { intros HV. split; [by eapply upte_range|].
    destruct (ri_leaf _ _ _ (vi_r _ _ V) old v Hold ltac:(lia) HV) as [Ho _].
    by eapply own_OData_page, Ho; apply V. }
  unfold fork_pte. case_decide as H1; [destruct H1 as [-> _]|case_decide as H2].
  - destruct (has (upte s old v) PTE_V) eqn:HV; [|unfold ro; rewrite HV; cbn [andb]; by rewrite HV].
    destruct (Hpe eq_refl) as [? ?]. destruct (ro_spec (upte s old v)) as (_ & _ & _ & _ & EW); auto.
  - destruct H2 as (-> & _ & HV). destruct (Hpe HV) as [? ?].
    by destruct (child_spec (upte s old v)) as (_ & _ & _ & _ & EW).
  - intros HV. destruct Hr as [-> | ->]; [naive_solver lia|]. by rewrite Hinv in HV.
Qed.

(** Which entries refer to a page afterwards. *)
Lemma fork_refs p r v :
  (r, v) ∈ refs g1 p ↔ (r, v) ∈ refs g p ∨ (r = new ∧ 0 ≤ v < hc ∧ (old, v) ∈ refs g p).
Proof.
  rewrite (refs_iff g1 s1 p r v V1), (refs_iff g s p r v V), (refs_iff g s p old v V).
  rewrite (sh_roots _ _ _ _ _ _ _ _ Sh). destruct (decide (r = new)) as [->|Hrn].
  - destruct (decide (0 ≤ v < hc)) as [Hv|Hv].
    + destruct (fork_child v Hv) as [EV EP]. rewrite EV, (Hinv v Hv). split.
      * intros (_ & Hu & HV & <-). right. destruct (EP HV) as [_ ->]. done.
      * intros [(_ & _ & ? & _)|(_ & _ & _ & Hu & HV & <-)]; [done|]. destruct (EP HV) as [_ ->]. done.
    + split; [|intros [(Hr & Hu & HV & Ep)|(_ & ? & _)]; [|done]].
      * intros (_ & Hu & HV & Ep). left. revert HV Ep.
        rewrite (sh_ptes _ _ _ _ _ _ _ _ Sh); [|by apply (root_label _ _ V)|by apply upage_va].
        unfold fork_pte. rewrite !decide_False by naive_solver. done.
      * rewrite (sh_ptes _ _ _ _ _ _ _ _ Sh); [|by apply (root_label _ _ V)|by apply upage_va].
        unfold fork_pte. by rewrite !decide_False by naive_solver.
  - split; [|intros [(Hr & Hu & HV & Ep)|(? & _)]; [|done]].
    + intros (Hr & Hu & HV & Ep). left. destruct (fork_like r v Hr (upage_vpage _ Hu) Hrn) as [EV EP].
      rewrite EV in HV. destruct (EP HV) as [_ E]. rewrite E in Ep. done.
    + destruct (fork_like r v Hr (upage_vpage _ Hu) Hrn) as [EV EP]. rewrite EV. destruct (EP HV) as [_ ->]. done.
Qed.
(** The error path: the child's entries below [hc] are removed again. *)
Section undo.
Context (g2 : ghost) (s2 : kmem).
Hypothesis V2 : vinv g2 s2.
Hypothesis U : unmapped new 0 hc g1 s1 g2 s2.

Lemma undo_roots : roots g2 = roots g.
Proof. by rewrite (um_roots _ _ _ _ _ _ _ U), (sh_roots _ _ _ _ _ _ _ _ Sh). Qed.

Lemma undo_pte r v : r ∈ roots g → 0 ≤ v < VPAGES → ¬ (r = new ∧ 0 ≤ v < hc) → upte s2 r v = upte s1 r v.
Proof.
  intros Hr Hv Hn. apply (um_pte _ _ _ _ _ _ _ U); [|by apply vpage_va|done].
  apply (sh_pt _ _ _ _ _ _ _ _ Sh). by apply (root_label _ _ V).
Qed.

Lemma undo_refs p : refs g2 p = refs g p.
Proof.
  apply set_eq. intros [r v]. rewrite (refs_iff g2 s2 p r v V2), undo_roots.
  destruct (decide (r = new ∧ 0 ≤ v < hc)) as [[-> Hv]|Hn].
  - rewrite (um_inv _ _ _ _ _ _ _ U v Hv), (refs_iff g s p new v V), (Hinv v Hv). naive_solver.
  - split.
    + intros (Hr & Hu & HV & Ep). rewrite undo_pte in HV, Ep by auto using upage_vpage.
      assert ((r, v) ∈ refs g1 p) as Hin.
      { apply (refs_iff g1 s1 p r v V1). by rewrite (sh_roots _ _ _ _ _ _ _ _ Sh). }
      apply fork_refs in Hin as [?|(-> & ? & _)]; [done|]. by destruct Hn.
    + intros Hin. assert ((r, v) ∈ refs g1 p) as Hin1 by (apply fork_refs; auto).
      apply (refs_iff g1 s1 p r v V1) in Hin1 as (Hr & Hu & HV & Ep).
      rewrite (sh_roots _ _ _ _ _ _ _ _ Sh) in Hr. rewrite undo_pte by auto using upage_vpage. done.
Qed.

Lemma undo_own p : own g p = OData ↔ own g2 p = OData.
Proof.
  split.
  - intros Ho. destruct (sh_data _ _ _ _ _ _ _ _ Sh p Ho) as (Ho1 & Hk & _).
    pose proof (count_pos _ _ V p Ho) as Hc.
    rewrite (ri_count _ _ _ (vi_r _ _ V)) in Hc by (by eapply own_OData_page, Ho; apply V).
    destruct (set_choose_or_empty (refs g p)) as [[[r v] Hin]|He%size_empty_iff].
    + rewrite <-undo_refs in Hin. apply (refs_iff g2 s2 p r v V2) in Hin as (? & ? & ? & <-).
      by apply (ri_leaf _ _ _ (vi_r _ _ V2)).
    + apply (um_kref _ _ _ _ _ _ _ U); [done|lia].
  - intros Ho. apply (sh_own _ _ _ _ _ _ _ _ Sh). by apply (um_data _ _ _ _ _ _ _ U).
Qed.

Lemma undo_refcount p : own g p = OData → refcount s2 (p / PGSIZE) = refcount s (p / PGSIZE).
Proof.
  intros Ho. assert (page_ok p) as Hp by (by eapply own_OData_page, Ho; apply V).
  rewrite (ri_count _ _ _ (vi_r _ _ V) p Hp), (ri_count _ _ _ (vi_r _ _ V2) p Hp), undo_refs.
  destruct (sh_data _ _ _ _ _ _ _ _ Sh p Ho) as (_ & <- & _). apply undo_own in Ho.
  by destruct (um_data _ _ _ _ _ _ _ U p Ho) as (_ & <- & _).
Qed.

Lemma undo_reads r va : r ∈ roots g → r ≠ new → 0 ≤ va < MAXVA → uread s2 r va = uread s r va.
Proof.
  intros Hr Hrn Hva. rewrite <-fork_reads by done. apply (like_reads g1 s1 g2).
  - done.
  - by rewrite (sh_roots _ _ _ _ _ _ _ _ Sh).
  - done.
  - rewrite undo_pte; [done|done|by apply va_vpage|naive_solver].
  - intros p Ho -> HV Hu. apply undo_own. by apply (sh_own _ _ _ _ _ _ _ _ Sh).
  - intros p x Ho _. by apply (um_data _ _ _ _ _ _ _ U).
Qed.
End undo.

End result.

(** ** The theorem *)

(** [new] sees below [n] pages what [old] saw, on pages that neither can write;
    the pages they share have one more reference each. *)
Record forked (old new n : Z) (g : ghost) (s : kmem) (g' : ghost) (s' : kmem) : Prop := {
  fk_reads va : 0 ≤ va < n * PGSIZE → uread s' new va = uread s old va;
  fk_readonly r v : r = old ∨ r = new → 0 ≤ v < n → has (upte s' r v) PTE_V = true →
    has (upte s' r v) PTE_W = false;
  fk_refs p r v : (r, v) ∈ refs g' p ↔ (r, v) ∈ refs g p ∨ (r = new ∧ 0 ≤ v < n ∧ (old, v) ∈ refs g p);
}.

Lemma wp_uvmcopy g s old new sz Q :
  vinv g s → old ∈ roots g → new ∈ roots g → old ≠ new → 0 ≤ sz ≤ TRAPFRAME →
  (∀ v, 0 ≤ v < npg sz → has (upte s new v) PTE_V = false) →
  (∀ g' s', vinv g' s' → shared old new (npg sz) (npg sz) g s g' s' → Q 0 s') →
  (∀ v g2 s2 g' s', 0 ≤ v < npg sz → vinv g2 s2 → shared old new (v + 1) v g s g2 s2 →
     vinv g' s' → unmapped new 0 v g2 s2 g' s' → Q (-1) s') →
  wp (uvmcopy old new sz) s Q.
Proof.
  intros V Hold Hnew Hne Hsz Hinv Hok Hfail. unfold uvmcopy. pose proof (npg_range sz Hsz) as Hn.
  apply (wp_uvmcopy_loop old new sz g s) with (v := 0) (g1 := g); auto using shared_refl; [lia|].
  unfold pages_between. pose proof (PGROUNDUP_npg sz Hsz). unfold npg in *.
  change TRAPFRAME with (2 ^ 38 - 8192) in Hsz. rewrite PGROUNDUP_eq by (unfold PGSIZE; lia).
  unfold PGSIZE. dlia.
Qed.

(** C4. [uvmcopy] gives the child the parent's memory without copying it.  It
    always returns; it keeps the invariant and changes no byte that any
    address space but the child's reads.  On 0 the child reads what the parent
    reads, neither can write the shared pages, and the reference sets have
    grown by the child's entries; on -1 the child maps nothing and every page
    of memory has the reference count it had. *)
Theorem uvmcopy_shares g s old new sz :
  vinv g s → old ∈ roots g → new ∈ roots g → old ≠ new → 0 ≤ sz ≤ TRAPFRAME →
  (∀ v, 0 ≤ v < npg sz → has (upte s new v) PTE_V = false) →
  wp (uvmcopy old new sz) s (λ c s', ∃ g', vinv g' s' ∧ roots g' = roots g ∧
    (∀ r va, r ∈ roots g → r ≠ new → 0 ≤ va < MAXVA → uread s' r va = uread s r va) ∧
    (c = 0 ∧ forked old new (npg sz) g s g' s' ∨
     c = -1 ∧ (∀ v, 0 ≤ v < npg sz → has (upte s' new v) PTE_V = false) ∧
       (∀ p, own g p = OData ↔ own g' p = OData) ∧
       (∀ p, own g p = OData → refcount s' (p / PGSIZE) = refcount s (p / PGSIZE)))).
Proof.
  intros V Hold Hnew Hne Hsz Hinv. pose proof (npg_range sz Hsz) as Hn. apply (wp_uvmcopy g); try done.
  - intros g' s' V' Sh. exists g'. split; [done|]. split; [by eapply sh_roots|]. split.
    { intros. by eapply (fork_reads old new (npg sz) (npg sz) g s g'); eauto with lia. }
    left. split; [done|]. split; intros.
    + by eapply (fork_child_reads old new (npg sz) (npg sz) g s g'); eauto with lia.
    + by eapply (fork_readonly old new (npg sz) (npg sz) g s g'); eauto with lia.
    + by eapply (fork_refs old new (npg sz) (npg sz) g s g' s'); eauto with lia.
  - intros v g2 s2 g' s' Hv V2 Sh V' U. assert (∀ v', 0 ≤ v' < v → has (upte s new v') PTE_V = false) as Hi.
    { intros. apply Hinv. lia. }
    exists g'. split; [done|]. split; [by eapply (undo_roots old new (v + 1) v g s g2)|]. split.
    { intros. eapply (undo_reads old new (v + 1) v g s g2); eauto with lia. }
    right. split_and!; [done|..].
    + intros v' Hv'. destruct (decide (v' < v)); [apply (um_inv _ _ _ _ _ _ _ U); lia|].
      rewrite (undo_pte old new (v + 1) v g s g2 s2 V Sh g' s' U) by (done || lia || (apply upage_vpage; lia)).
      rewrite (sh_ptes _ _ _ _ _ _ _ _ Sh); [|by apply (root_label _ _ V)|apply upage_va; lia].
      unfold fork_pte. rewrite !decide_False by naive_solver lia. by apply Hinv.
    + intros p. eapply (undo_own old new (v + 1) v g s g2); eauto with lia.
    + intros p. eapply (undo_refcount old new (v + 1) v g s g2); eauto with lia.
Qed.

End fork.
