(* ===== verification/Isolation.v ===== *)
(** * Isolation after fork

    Parent and child share their pages after [uvmcopy].  Whatever stores the two
    make afterwards, through the page-fault handler, and whatever the kernel
    copies to them, each reads the memory at the fork with its own writes, as if
    the pages had been copied. *)

From S2P Require Import Prelude Riscv Memory Kalloc Vm VmInv VmWalk VmRef VmOps Cow VmUser CopyUser Fork.

Section isolation.
Context `{Layout, !LayoutOk}.

(** The two branches of [usertrap] for a store that faults. *)
Definition store_fault (p : uproc) (va : Z) : M kmem bool :=
  a ← cowfault (upagetable p) va;
  if negb (a =? 0) then mret true else
  a ← vmfault p (upagetable p) va;
  mret (negb (a =? 0)).

(** The store itself, by the hardware; whether it was done. *)
Definition try_store (r va b : Z) : M kmem bool := λ s,
  match ustore r va b s with Some s' => Ok (true, s') | None => Ok (false, s) end.

(** A store instruction of a process: when it faults and the handler succeeds, it
    is executed again.  The result [false] is that the process is killed. *)
Definition user_store (p : uproc) (va b : Z) : M kmem bool :=
  ok ← try_store (upagetable p) va b;
  if ok : bool then mret true else
  ok ← store_fault p va;
  if ok : bool then try_store (upagetable p) va b else mret false.

(** What changes the memory of a process: its stores, and what the kernel copies
    to it. *)
Inductive act :=
  | UserStore (p : uproc) (va b : Z)
  | KernelCopy (p : uproc) (dst : Z) (src : list Z).

Definition actor (a : act) : uproc := match a with UserStore p _ _ | KernelCopy p _ _ => p end.

Definition act_ok (R : gset Z) (a : act) : Prop :=
  upagetable (actor a) ∈ R ∧ usz (actor a) ≤ TRAPFRAME ∧
  match a with
  | UserStore _ va b => 0 ≤ va < MAXVA ∧ 0 ≤ b < 256
  | KernelCopy _ dst src => 0 ≤ dst ∧ are_bytes src
  end.

Definition run_act (a : act) : M kmem bool :=
  match a with
  | UserStore p va b => user_store p va b
  | KernelCopy p dst src => c ← copyout p (upagetable p) dst src; mret (c =? 0)
  end.

Fixpoint run_acts (l : list act) : M kmem (list bool) :=
  match l with
  | [] => mret []
  | a :: l' => ok ← run_act a; oks ← run_acts l'; mret (ok :: oks)
  end.

(** ** Processes with memories of their own *)

(** The byte that the action writes at [va] of its process. *)
Definition named (a : act) (va : Z) : option Z :=
  match a with
  | UserStore _ va' b => if decide (va = va') then Some b else None
  | KernelCopy _ dst src => if decide (dst ≤ va) then src !! Z.to_nat (va - dst) else None
  end.

(** A byte of a page that is not there reads as zero once it is faulted in. *)
Definition grew (x y : option Z) : Prop := y = x ∨ x = None ∧ y = Some 0.

(** What the process [r] read at [va] before an action, and what after it. *)
Definition effect (a : act) (ok : bool) (r va : Z) (x y : option Z) : Prop :=
  if decide (r = upagetable (actor a)) then
    match named a va with
    | Some b => y = Some b ∨ ok = false ∧ grew x y
    | None => grew x y
    end
  else y = x.

Fixpoint history (l : list (act * bool)) (r va : Z) (x y : option Z) : Prop :=
  match l with
  | [] => y = x
  | (a, ok) :: l' => ∃ z, effect a ok r va x z ∧ history l' r va z y
  end.

(** ** One action *)

(** Nothing changed but pages of [p] that were faulted in. *)
Definition only_grew (g : ghost) (p : uproc) (s s' : kmem) : Prop :=
  ∀ r va, r ∈ roots g → 0 ≤ va < MAXVA →
    if decide (r = upagetable p) then grew (uread s r va) (uread s' r va) else uread s' r va = uread s r va.

Lemma faulted_grew g p s s' : only_faulted g p s s' → only_grew g p s s'.
Proof. intros F r va Hr Hva. destruct (F r va Hr Hva) as [E|(-> & _ & E1 & E2)]; case_decide; unfold grew; naive_solver. Qed.

(** The page can be stored to. *)
Definition storable (s : kmem) (r v : Z) : Prop :=
  let e := upte s r v in has e PTE_V = true ∧ has e PTE_U = true ∧ has e PTE_W = true.

Lemma wp_store_fault g s p va Q :
  vinv g s → upagetable p ∈ roots g → usz p ≤ TRAPFRAME → 0 ≤ va →
  (∀ ok g' s', vinv g' s' → roots g' = roots g → only_grew g p s s' →
     (ok = true → storable s' (upagetable p) (va / PGSIZE)) → Q ok s') →
  wp (store_fault p va) s Q.
Proof.
  intros V Hr Hsz Hva HQ. apply wp_bind, (wp_cowfault g); [done..| |].
  - intros _ _. cbn [Z.eqb negb]. apply wp_bind, (wp_vmfault g); [done..| |].
    + intros g' s' V' Er Rs _. cbn [Z.eqb negb]. apply wp_ret, (HQ false g'); [done|done|by apply faulted_grew, reads_faulted|done].
    + intros g' s' a Hlt Hinv V' F P. destruct P as (Hv & HV & HU & Ea & Ha). destruct (Z.eqb_spec a 0); [done|]. apply wp_ret, (HQ true g'); [done|apply F| |].
      * apply faulted_grew. eapply (mapped_fresh_faulted g s g' s' p); [done|done| | | |exact Hinv|exact F]; [done|done|]. unfold PGSIZE in *. dlia.
      * intros _. assert (paddr a) as Hpa by (eapply page_ok_paddr, own_OData_page; [apply V'|by eapply mf_own]).
        split_and!; [done|done|]. rewrite (mf_ptes _ _ _ _ _ _ _ _ F), upd2_eq; [|by apply (root_label _ _ V)|by apply upage_va].
        by rewrite has_W, mk_pte_bit.
  - intros a g' s' Ha Hv HV HU V' D. destruct (Z.eqb_spec a 0); [done|]. cbn [negb]. apply wp_ret.
    assert (page_ok a) as Hp by (eapply own_OData_page; [apply V'|by eapply cd_own]).
    apply (HQ true g'); [done|by eapply cd_roots| |].
    + apply faulted_grew, reads_faulted. eapply cow_done_reads; eauto using page_ok_paddr.
    + intros _. destruct (cow_done_private g s g' s' (upagetable p) (va / PGSIZE) a) as [(? & ? & ? & _) _]; try done.
Qed.

(** The store that is executed. *)
Lemma wp_try_store g s r va b Q :
  vinv g s → r ∈ roots g → 0 ≤ va < MAXVA → 0 ≤ b < 256 →
  (∀ s', vinv g s' → (∀ r' va', r' ∈ roots g → 0 ≤ va' < MAXVA →
     uread s' r' va' = if decide (r' = r ∧ va' = va) then Some b else uread s r' va') → Q true s') →
  (¬ storable s r (va / PGSIZE) → Q false s) → wp (try_store r va b) s Q.
Proof.
  intros V Hr Hva Hb Hy Hn. unfold try_store, wp. destruct (ustore r va b s) as [s'|] eqn:E.
  - destruct (ustore_effect g s r va b s' V Hr Hva Hb E). by apply Hy.
  - apply Hn. unfold ustore in E. rewrite pte_page in E. intros (HV & HU & HW). by rewrite HV, HU, HW in E.
Qed.

Lemma store_effect p va b ok r va' x y :
  (r = upagetable p → va' = va → y = Some b ∨ ok = false ∧ grew x y) → (r = upagetable p → va' ≠ va → grew x y) →
  (r ≠ upagetable p → y = x) → effect (UserStore p va b) ok r va' x y.
Proof. intros H1 H2 H3. unfold effect, named. cbn [actor]. destruct (decide (r = _)); [|by auto]. destruct (decide (va' = va)); by auto. Qed.

(** A store of the process changes the byte it names, and what is faulted in. *)
Lemma wp_user_store g s p va b Q :
  vinv g s → upagetable p ∈ roots g → usz p ≤ TRAPFRAME → 0 ≤ va < MAXVA → 0 ≤ b < 256 →
  (∀ ok g' s', vinv g' s' → roots g' = roots g →
     (∀ r va', r ∈ roots g → 0 ≤ va' < MAXVA → effect (UserStore p va b) ok r va' (uread s r va') (uread s' r va')) → Q ok s') →
  wp (user_store p va b) s Q.
Proof.
  intros V Hr Hsz Hva Hb HQ. apply wp_bind, (wp_try_store g); [done..| |].
  - intros s' V' E. apply wp_ret, (HQ true g); [done|done|]. intros r va' Hr' Hva'. rewrite E by done. apply store_effect.
    + intros -> ->. rewrite decide_True by done. by left.
    + intros _ Hne. rewrite decide_False by naive_solver. by left.
    + intros Hne. by rewrite decide_False by naive_solver.
  - intros _. apply wp_bind, (wp_store_fault g); [done..|lia|]. intros [] g' s' V' Er F St.
    + assert (upagetable p ∈ roots g') as Hr' by (by rewrite Er). apply (wp_try_store g'); [done..| |by intros []; apply St].
      intros s2 V2 E. apply (HQ true g'); [done|done|]. intros r va' Hr2 Hva2. specialize (F r va' Hr2 Hva2). rewrite E by (by rewrite ?Er). apply store_effect.
      * intros -> ->. rewrite decide_True by done. by left.
      * intros -> Hne. rewrite decide_True in F by done. by rewrite decide_False by naive_solver.
      * intros Hne. rewrite decide_False in F by done. by rewrite decide_False by naive_solver.
    + apply wp_ret, (HQ false g'); [done|done|]. intros r va' Hr2 Hva2. specialize (F r va' Hr2 Hva2).
      apply store_effect; intros Hr3; [intros _; right; split; [done|]|intros _|]; by case_decide.
Qed.

Lemma wp_kernel_copy g s p dst src Q :
  vinv g s → upagetable p ∈ roots g → usz p ≤ TRAPFRAME → 0 ≤ dst → are_bytes src →
  (∀ ok g' s', vinv g' s' → roots g' = roots g →
     (∀ r va, r ∈ roots g → 0 ≤ va < MAXVA → effect (KernelCopy p dst src) ok r va (uread s r va) (uread s' r va)) → Q ok s') →
  wp (run_act (KernelCopy p dst src)) s Q.
Proof.
  intros V Hr Hsz Hd Hb HQ. apply wp_bind. eapply wp_mono; [by apply (wp_copyout_loop (S (length src)) g); [lia|..]|].
  intros c s' (g' & k & V' & C & W & Hc). apply wp_ret, (HQ _ g'); [done|by eapply cf_roots|]. intros r va Hr' Hva. specialize (W r va Hr' Hva). unfold effect, named. cbn [actor].
  destruct (decide (r = upagetable p)) as [->|Hne].
  - assert (∀ s1, faulted p s s1 (upagetable p) va → grew (uread s (upagetable p) va) (uread s1 (upagetable p) va)) as Hg by (unfold faulted, grew; naive_solver).
    destruct (decide (dst ≤ va)) as [Hle|Hlt]; [|rewrite decide_False in W by lia; by apply Hg].
    destruct (decide (va < dst + Z.of_nat (length (take k src)))) as [Hin|Hout].
    + rewrite decide_True in W by (split; [done|lia]). rewrite length_take in Hin. rewrite lookup_take_lt in W by lia.
      destruct (lookup_lt_is_Some_2 src (Z.to_nat (va - dst))) as [b Eb]; [lia|]. rewrite Eb in W |- *. by left.
    + rewrite decide_False in W by lia. apply Hg in W. destruct (src !! Z.to_nat (va - dst)) as [b|] eqn:Eb; [|done]. right. split; [|done].
      apply lookup_lt_Some in Eb. rewrite length_take in Hout. destruct Hc as [[-> ?]| ->]; [lia|done].
  - rewrite decide_False in W by naive_solver. destruct W as [W|(? & _)]; done.
Qed.

Lemma wp_run_act g s a Q :
  vinv g s → act_ok (roots g) a →
  (∀ ok g' s', vinv g' s' → roots g' = roots g →
     (∀ r va, r ∈ roots g → 0 ≤ va < MAXVA → effect a ok r va (uread s r va) (uread s' r va)) → Q ok s') →
  wp (run_act a) s Q.
Proof.
  intros V. destruct a as [p va b|p dst src]; intros (Hr & Hsz & Ha & Hb) HQ; [by apply (wp_user_store g)|by apply (wp_kernel_copy g)].
Qed.

Lemma wp_run_acts g s l Q :
  vinv g s → Forall (act_ok (roots g)) l →
  (∀ oks g' s', length oks = length l → vinv g' s' → roots g' = roots g →
     (∀ r va, r ∈ roots g → 0 ≤ va < MAXVA → history (zip l oks) r va (uread s r va) (uread s' r va)) → Q oks s') →
  wp (run_acts l) s Q.
Proof.
  revert g s Q. induction l as [|a l IH]; intros g s Q V Ha HQ; [by apply wp_ret, (HQ [] g)|].
  apply Forall_cons in Ha as [Ha Hl]. apply wp_bind, (wp_run_act g); [done..|]. intros ok g1 s1 V1 E1 F1.
  apply wp_bind, (IH g1); [done|by rewrite E1|]. intros oks g2 s2 Ho V2 E2 F2. apply wp_ret, (HQ _ g2); [simpl; congruence|done|congruence|].
  intros r va Hr Hva. exists (uread s1 r va). split; [by apply F1|]. apply F2; [by rewrite E1|done].
Qed.

(** C3. Isolation after fork.  After a successful [uvmcopy], let parent, child
    and other processes store to their memory, through the page-fault handler
    where a page is shared or not there, and let the kernel copy bytes to them
    with [copyout], in any order.  What a process reads is the result of its own
    writes, in their order, on what it read before; for the child, on what the
    parent read at the fork.  A write of another process never shows.  A write
    that does not fail is read back; one that fails, with the process killed or
    -1, may have been done in part. *)
Theorem fork_isolates g s old new sz l :
  vinv g s → old ∈ roots g → new ∈ roots g → old ≠ new → 0 ≤ sz ≤ TRAPFRAME →
  (∀ v, 0 ≤ v < npg sz → has (upte s new v) PTE_V = false) → Forall (act_ok (roots g)) l →
  wp (c ← uvmcopy old new sz; if c =? 0 then oks ← run_acts l; mret (Some oks) else mret None) s (λ res s',
    ∃ g', vinv g' s' ∧ roots g' = roots g ∧
    match res with
    | None => ∀ r va, r ∈ roots g → r ≠ new → 0 ≤ va < MAXVA → uread s' r va = uread s r va
    | Some oks => length oks = length l ∧
        ∀ r va, r ∈ roots g → 0 ≤ va < MAXVA → (r = new → va < npg sz * PGSIZE) →
          history (zip l oks) r va (uread s (if decide (r = new) then old else r) va) (uread s' r va)
    end).
Proof.
  intros V Hold Hnew Hne Hsz Hinv Hl. pose proof (npg_range sz Hsz) as Hn. apply wp_bind, (wp_uvmcopy g); [done..| |].
  - intros g1 s1 V1 Sh. cbn [Z.eqb]. assert (roots g1 = roots g) as E1 by (by eapply sh_roots).
    apply wp_bind, (wp_run_acts g1); [done|by rewrite E1|]. intros oks g2 s2 Ho V2 E2 F. apply wp_ret. exists g2.
    split; [done|]. split; [congruence|]. split; [done|]. intros r va Hr Hva Hc. specialize (F r va ltac:(by rewrite E1) Hva).
    destruct (decide (r = new)) as [->|Hrn].
    + rewrite <-(fork_child_reads old new (npg sz) (npg sz) g s g1 s1); [done|eauto with lia..].
    + assert (uread s1 r va = uread s r va) as <-; [|done]. eapply (fork_reads old new (npg sz) (npg sz) g s g1); eauto with lia.
  - intros v g2 s2 g' s' Hv V2 Sh V' U. change (-1 =? 0) with false. apply wp_ret. exists g'. split; [done|]. split; [by eapply (undo_roots old new (v + 1) v g s g2)|].
    intros r va Hr Hrn Hva. eapply (undo_reads old new (v + 1) v g s g2); eauto with lia.
Qed.
End isolation.
