(* ===== verification/VmRoot.v ===== *)
(** * Creating address spaces

    [uvmcreate], and the empty machine: the state [kinit] leaves is one in
    which every page is free. *)

From S2P Require Import Prelude Riscv Memory Kalloc Vm VmInv VmWalk VmRef VmOps Cow VmUser.

Section root.
Context `{Layout, !LayoutOk}.

(** A zeroed page that the kernel holds becomes an empty page table. *)
Definition g_root (p : Z) (g : ghost) : ghost :=
  mkGhost (<[p := OPT p 2 0]> (own g)) (gfl g) ({[p]} ∪ roots g) (refs g) (kref g).

Section new_root.
Context (g : ghost) (s : kmem) (p : Z).
Hypothesis V : vinv g s.
Hypothesis Ho : own g p = OData.
Hypothesis Hrefs : refs g p = ∅.
Hypothesis Hk : kref g p = 1.
Hypothesis Hz : ∀ x, p ≤ x < p + PGSIZE → mem s x = 0.

Lemma new_root_load i : 0 ≤ i < 512 → load64 (mem s) (p + 8 * i) = 0.
Proof.
  intros Hi. unfold load64. rewrite (load_le_ext 8 (mem s) (λ _, 0)); [done|].
  intros x Hx. apply Hz. unfold PGSIZE. lia.
Qed.

Lemma new_root_pte va : pte_of (mem s) p va = 0.
Proof.
  unfold pte_at. cbn [slot]. rewrite new_root_load by (apply PX_range; lia). done.
Qed.

Lemma new_root_tinv : tinv (g_root p g) s.
Proof.
  pose proof (vi_t _ _ V) as T. split; cbn [own gfl g_root].
  - apply T.
  - intros q. fn_case p q; [|apply T]. rewrite (ti_free _ _ T). split; congruence.
  - intros q. fn_case p q; [|apply T]. split; [intros _|done]. by eapply own_OData_page, Ho.
  - intros q r l pre. fn_case p q.
    + intros [= <- <- <-]. by rewrite fn_lookup_insert.
    + intros Hq. destruct (ti_level _ _ T _ _ _ _ Hq) as (? & Hr & ?).
      by rewrite fn_lookup_insert_ne by congruence.
  - intros q r pre. fn_case p q; [by intros [= <- <-]|apply T].
  - intros q r l pre i. fn_case p q.
    + intros _ Hi. by rewrite new_root_load.
    + intros Hq Hi HV. destruct (ti_entry _ _ T _ _ _ _ _ Hq Hi HV) as (c & E & Hc).
      exists c. by rewrite fn_lookup_insert_ne by congruence.
  - intros q r l pre. fn_case p q; [intros [= <- <- <-]; lia|].
    intros Hq Hl. destruct (ti_parent _ _ T _ _ _ _ Hq Hl) as (q' & Hq' & E).
    exists q'. by rewrite fn_lookup_insert_ne by congruence.
Qed.

Lemma new_root_rinv : rinv (g_root p g) (upte s) (refcount s).
Proof.
  pose proof (vi_r _ _ V) as R. assert (∀ v, has (upte s p v) PTE_V = false) as Hno.
  { intros v. unfold upte. by rewrite new_root_pte. }
  assert (∀ r v, r ∈ roots g → 0 ≤ v < UPAGES → has (upte s r v) PTE_V = true → PTE2PA (upte s r v) ≠ p) as Hne.
  { intros r v Hr Hv HV <-. destruct (ri_leaf _ _ _ R r v Hr Hv HV) as [_ Hin]. rewrite Hrefs in Hin. set_solver. }
  assert (p ∉ roots g) as Hpr by (intros Hin%(ri_root _ _ _ R); congruence).
  split; cbn [own gfl roots refs kref g_root].
  - intros r. rewrite elem_of_union, elem_of_singleton. intros [->|Hr]; [by rewrite fn_lookup_insert|].
    rewrite fn_lookup_insert_ne by congruence. by apply R.
  - intros r v [->%elem_of_singleton|Hr]%elem_of_union Hv HV; [by rewrite Hno in HV|].
    rewrite fn_lookup_insert_ne by (symmetry; by apply Hne). by apply (ri_leaf _ _ _ R).
  - intros r v [->%elem_of_singleton|Hr]%elem_of_union Hv HV; [by rewrite Hno in HV|].
    by apply (ri_write _ _ _ R).
  - intros q r v Hin. destruct (ri_refs _ _ _ R q r v Hin) as (? & ? & ? & ?).
    rewrite elem_of_union. auto.
  - apply R.
  - apply R.
  - intros q r l pre. fn_case p q; [done|apply R].
  - intros r v [->%elem_of_singleton|Hr]%elem_of_union Hv; [unfold upte; by rewrite new_root_pte|].
    by apply (ri_high _ _ _ R).
Qed.

Lemma new_root_vinv : vinv (g_root p g) s.
Proof. split; [apply new_root_tinv|apply new_root_rinv]. Qed.
End new_root.

(** [uvmcreate] *)
Lemma wp_uvmcreate g s Q :
  vinv g s →
  (gfl g = [] → Q 0 s) →
  (∀ p fl, gfl g = p :: fl → p ≠ 0 → own g p = OFree → vinv (g_root p (g_alloc p fl g)) (zeroed p s) →
     reads_same g s (zeroed p s) → (∀ v, upte (zeroed p s) p v = 0) → Q p (zeroed p s)) →
  wp uvmcreate s Q.
Proof.
  intros V Hno Hyes. unfold uvmcreate. wp_steps.
  destruct (kalloc_cases g s V) as [[Hfl E]|(p & fl & Hfl & Hp & Hp0 & Hfr & E)].
  { eapply wp_Ok; [done|]. cbn [Z.eqb]. apply wp_ret. auto. }
  eapply wp_Ok; [done|]. destruct (Z.eqb_spec p 0); [done|]. unfold kmemset. wp_steps.
  fold (zeroed p s). eapply Hyes; try done.
  - apply new_root_vinv; gsimpl; rewrite ?fn_lookup_insert; try done.
    + by apply fresh_vinv.
    + by eapply free_no_refs.
    + intros x. by apply fresh_zero.
  - eapply stable_reads; [done|by eapply fresh_stable|by eapply fresh_same_ptes].
  - intros v. apply new_root_pte. intros x. by apply fresh_zero.
Qed.

(** ** The machine after [kinit] *)

Definition g_boot (fl : list Z) : ghost :=
  mkGhost (λ p, if bad_page p then ONone else OFree) fl ∅ (λ _, ∅) (λ _, 0).

Lemma boot_vinv fl s : kinv fl s → (∀ p, p ∈ fl ↔ page_ok p) → vinv (g_boot fl) s.
Proof.
  intros K Hfl. assert (∀ p, own (g_boot fl) p = if bad_page p then ONone else OFree) as Eo by done.
  assert (∀ p r l pre, own (g_boot fl) p = OPT r l pre → False) as Hpt.
  { intros p r l pre. rewrite Eo. by destruct (bad_page p). }
  split; split; try done;
    try (intros p r l pre Hp; destruct (Hpt p r l pre Hp)); try (intros p r l Hp; destruct (Hpt p r 2%nat l Hp));
    try (intros p r l pre i Hp; destruct (Hpt p r (S l) pre Hp)).
  - intros p. rewrite Eo, Hfl, <-bad_page_spec. by destruct (bad_page p).
  - intros p. rewrite Eo, <-bad_page_spec. by destruct (bad_page p).
  - intros p Hp. cbn [refs kref g_boot]. rewrite size_empty.
    apply (ki_free _ _ K p Hp). by apply Hfl.
Qed.

End root.
