(* ===== verification/Kvm.v ===== *)
(** * The kernel's page table

    [kvmmake] of vm.c with [proc_mapstacks] of proc.c: it succeeds when enough
    pages are free, and the table it builds holds exactly the intended mappings. *)

From S2P Require Import Prelude Riscv Memory Kalloc Vm VmInv VmWalk VmRef VmOps Cow VmUser VmRoot.

Section code.
Context `{Layout}.

Definition proc_mapstacks (kpgtbl : Z) : M kmem unit :=
  for_up NPROC 0 1 (λ p,
    pa ← kalloc;
    if pa =? 0 then panic "kalloc" else
    let va := KSTACK p in
    kvmmap kpgtbl va pa PGSIZE (Z.lor PTE_R PTE_W)).

Definition kvmmake : M kmem Z :=
  kpgtbl ← kalloc;
  kmemset kpgtbl 0 PGSIZE ;;
  kvmmap kpgtbl UART0 UART0 PGSIZE (Z.lor PTE_R PTE_W) ;;
  kvmmap kpgtbl VIRTIO0 VIRTIO0 PGSIZE (Z.lor PTE_R PTE_W) ;;
  kvmmap kpgtbl PLIC PLIC 0x4000000 (Z.lor PTE_R PTE_W) ;;
  kvmmap kpgtbl KERNBASE KERNBASE (u64 (etext - KERNBASE)) (Z.lor PTE_R PTE_X) ;;
  kvmmap kpgtbl etext etext (u64 (PHYSTOP - etext)) (Z.lor PTE_R PTE_W) ;;
  kvmmap kpgtbl TRAMPOLINE trampoline PGSIZE (Z.lor PTE_R PTE_X) ;;
  proc_mapstacks kpgtbl ;;
  mret kpgtbl.

(** A processor with the memory: the global [kernel_pagetable], the register
    satp, and whether translations of an earlier table may still be cached. *)
Record hart := mkHart { hmem : kmem; kernel_pagetable : Z; hsatp : Z; cached : bool }.

Definition w_satp (x : Z) : M hart unit := modify (λ h, mkHart (hmem h) (kernel_pagetable h) x true).
Definition sfence_vma : M hart unit := modify (λ h, mkHart (hmem h) (kernel_pagetable h) (hsatp h) false).

Definition kvminit : M hart unit :=
  kpgtbl ← zoom hmem (λ m h, mkHart m (kernel_pagetable h) (hsatp h) (cached h)) kvmmake;
  modify (λ h, mkHart (hmem h) kpgtbl (hsatp h) (cached h)).

Definition kvminithart : M hart unit :=
  sfence_vma ;;
  kpgtbl ← gets kernel_pagetable;
  w_satp (MAKE_SATP kpgtbl) ;;
  sfence_vma.
End code.

Section kvm.
Context `{Layout, !LayoutOk}.

(** ** A table that belongs to no process *)

Definition g_kroot (p : Z) (g : ghost) : ghost :=
  mkGhost (<[p := OPT p 2 0]> (own g)) (gfl g) (roots g) (refs g) (kref g).

Lemma kroot_vinv g s p :
  vinv g s → own g p = OData → refs g p = ∅ → kref g p = 1 → (∀ x, p ≤ x < p + PGSIZE → mem s x = 0) → vinv (g_kroot p g) s.
Proof.
  intros V Ho Hrefs Hk Hz. split; [destruct (new_root_tinv g s p V Ho Hz); by split|]. pose proof (vi_r _ _ V) as R. split; cbn [own gfl roots refs kref g_kroot].
  - intros r Hr. pose proof (ri_root _ _ _ R r Hr). rewrite fn_lookup_insert_ne by congruence. done.
  - intros r v Hr Hv HV. destruct (ri_leaf _ _ _ R r v Hr Hv HV) as [Hl Hin]. rewrite fn_lookup_insert_ne; [done|]. intros E. rewrite <-E, Hrefs in Hin. set_solver.
  - apply R.
  - apply R.
  - apply R.
  - apply R.
  - intros q r l pre. fn_case p q; [done|apply R].
  - apply R.
Qed.

Lemma vinv_set_pte_kernel g s r v e :
  vinv g s → own g r = OPT r 2 0 → r ∉ roots g → 0 ≤ v < VPAGES → slot 2 (mem s) r (v * PGSIZE) ≠ 0 → 0 ≤ e < 2 ^ 64 →
  vinv g (set_pte r (v * PGSIZE) e s).
Proof.
  intros V Hr Hn Hv Hs He. assert (0 ≤ v * PGSIZE < MAXVA) by (apply vpage_va; lia). split; [by apply tinv_store_leaf; [apply V|..]|].
  eapply rinv_ext; [apply V|]. intros r' v' Hr' Hv'. change (refcount (set_pte r (v * PGSIZE) e s)) with (refcount s).
  rewrite (upte_set_pte g s) by (eauto using vpage_va, vi_t, root_label). apply upd2_ne. intros [= -> _]. done.
Qed.

(** There is one table for each part of the address space. *)
Lemma table_unique g s r : tinv g s → ∀ l pre p p', own g p = OPT r l pre → own g p' = OPT r l pre → p = p'.
Proof.
  intros T l. assert (∀ m pre p p', (l + m = 2)%nat → own g p = OPT r l pre → own g p' = OPT r l pre → p = p') as Hall.
  2: { intros pre p p' Hp Hp'. destruct (ti_level _ _ T _ _ _ _ Hp) as [Hl _]. apply (Hall (2 - l)%nat pre); [lia|done|done]. }
  intros m. revert l. induction m as [|m IH]; intros l pre p p' Hl Hp Hp'.
  - assert (l = 2%nat) as -> by lia. destruct (ti_root _ _ T _ _ _ Hp) as [-> _]. by destruct (ti_root _ _ T _ _ _ Hp') as [-> _].
  - destruct (ti_parent _ _ T _ _ _ _ Hp ltac:(lia)) as (q & Hq & E). destruct (ti_parent _ _ T _ _ _ _ Hp' ltac:(lia)) as (q' & Hq' & E').
    assert (q = q') as <- by (apply (IH (S l) (pre / 512)); [lia|done|done]). rewrite E in E'.
    assert (∀ a, own g a = OPT r l pre → PTE2PA (Z.lor (PA2PTE a) PTE_V) = a) as Ha.
    { intros a Ho. apply PTE2PA_make; [by eapply page_ok_paddr, own_OPT_page|by vm_compute]. }
    rewrite <-(Ha p Hp), <-(Ha p' Hp'). by rewrite E'.
Qed.

(** ** Counting the pages *)

(** The tables that the mappings need: level and part of the address space. *)
Definition touched : list (nat * Z) :=
  [(1%nat, 0); (1%nat, 2); (1%nat, 255); (0%nat, 128); (0%nat, 131071)] ++ ((λ i, (0%nat, i)) <$> (seqZ 96 32 ++ seqZ 1024 64)).
Definition near (a : Z) : Prop := ∀ l, (l < 2)%nat → (l, pfx l a) ∈ touched.

(** While the table [r] is built: [km] are its entries, [tabs] its other pages, [stk]
    the stacks, out of [N] pages. *)
Record kmap (N : nat) (r : Z) (g : ghost) (s : kmem) (km : Z → Z) (tabs stk : list Z) : Prop := {
  kp_v : vinv g s;
  kp_root : own g r = OPT r 2 0;
  kp_alone : r ∉ roots g;
  kp_pte v : 0 ≤ v < VPAGES → upte s r v = km v;
  kp_nodup : NoDup tabs;
  kp_tabs p : p ∈ tabs → ∃ l pre, (l, pre) ∈ touched ∧ own g p = OPT r l pre;
  kp_distinct : NoDup stk;
  kp_stk p : p ∈ stk → own g p = OData;
  kp_count : (length (gfl g) + length tabs + length stk = N)%nat;
}.

Definition label (g : ghost) (p : Z) : nat * Z := match own g p with OPT _ l pre => (l, pre) | _ => (0%nat, 0) end.

Lemma tabs_bound N r g s km tabs stk : kmap N r g s km tabs stk → (length tabs ≤ length touched)%nat.
Proof.
  intros K. rewrite <-(length_fmap (label g) tabs). apply submseteq_length, NoDup_submseteq.
  - apply NoDup_fmap_2_strong, K. intros p p' Hp Hp' E. destruct (kp_tabs _ _ _ _ _ _ _ K p Hp) as (l & pre & _ & O). destruct (kp_tabs _ _ _ _ _ _ _ K p' Hp') as (l' & pre' & _ & O').
    unfold label in E. rewrite O, O' in E. injection E as -> ->. by apply (table_unique g s r (vi_t _ _ (kp_v _ _ _ _ _ _ _ K)) l' pre').
  - intros x (p & -> & Hp)%list_elem_of_fmap. destruct (kp_tabs _ _ _ _ _ _ _ K p Hp) as (l & pre & Ht & O). unfold label. by rewrite O.
Qed.

Lemma near_below l a : near a → (l < 2)%nat → (l, pfx l a) ∈ touched.
Proof. auto. Qed.

(** Extending the table for an address. *)
Lemma kmap_grows N r g s km tabs stk g' s' va :
  kmap N r g s km tabs stk → near va → vinv g' s' → grows g s g' s' → took r va 2 g g' → ∃ tabs', kmap N r g' s' km tabs' stk.
Proof.
  intros K Hn V' G (new & En & Hnew). pose proof K as [k1 k2 k3 k4 k5 k6 k7 k8 k9]. pose proof (ti_k _ _ (vi_t _ _ k1)) as Kk. pose proof (ki_nodup _ _ Kk) as Hnd. rewrite En in Hnd. apply NoDup_app in Hnd as (Hn1 & _ & _).
  assert (∀ p, p ∈ new → own g p = OFree) as Hfree by (intros p Hp; apply (ti_free _ _ (vi_t _ _ k1)); rewrite En; apply elem_of_app; by left).
  exists (tabs ++ new). split; try done.
  - by apply (gr_pt _ _ _ _ G).
  - by rewrite (gr_roots _ _ _ _ G).
  - intros v Hv. rewrite <-k4 by done. apply (gr_pte _ _ _ _ G); [done|by apply vpage_va].
  - apply NoDup_app. split_and!; [done| |done]. intros p Hp Hp'. destruct (k6 p Hp) as (l & pre & _ & O). specialize (Hfree p Hp'). congruence.
  - intros p [Hp|Hp]%elem_of_app.
    + destruct (k6 p Hp) as (l & pre & Ht & O). exists l, pre. split; [done|]. by apply (gr_pt _ _ _ _ G).
    + destruct (Hnew p Hp) as (l & Hl & O). exists l, (pfx l va). split; [by apply Hn|done].
  - intros p Hp. by apply (gr_data _ _ _ _ G), k8.
  - rewrite En in k9. rewrite length_app in *. lia.
Qed.

(** Writing an entry. *)
Lemma kmap_set N r g s km tabs stk v e :
  kmap N r g s km tabs stk → 0 ≤ v < VPAGES → slot 2 (mem s) r (v * PGSIZE) ≠ 0 → 0 ≤ e < 2 ^ 64 →
  kmap N r g (set_pte r (v * PGSIZE) e s) (λ w, if decide (w = v) then e else km w) tabs stk.
Proof.
  intros [k1 k2 k3 k4 k5 k6 k7 k8 k9] Hv Hs He. split; try done; [by apply vinv_set_pte_kernel|].
  intros w Hw. rewrite (upte_set_pte g s) by (eauto using vpage_va, vi_t). unfold upd2. repeat case_decide; naive_solver.
Qed.

Definition spanned (v n pa perm : Z) (km : Z → Z) : Z → Z :=
  λ w, if decide (v ≤ w < v + n) then mk_pte (pa + (w - v) * PGSIZE) perm else km w.

Lemma kmap_ext N r g s km km' tabs stk : (∀ v, 0 ≤ v < VPAGES → km' v = km v) → kmap N r g s km tabs stk → kmap N r g s km' tabs stk.
Proof. intros E [k1 k2 k3 k4 k5 k6 k7 k8 k9]. split; try done. intros v Hv. rewrite E by done. auto. Qed.

Lemma wp_mappages_loop N r perm stk Q n : ∀ g s km tabs v pa,
  kmap N r g s km tabs stk → (length touched + length stk < N)%nat → user_perm perm → (0 < n)%nat →
  0 ≤ v → v + Z.of_nat n ≤ VPAGES → pa mod PGSIZE = 0 → 0 ≤ pa → pa + Z.of_nat n * PGSIZE ≤ 2 ^ 55 →
  (∀ w, v ≤ w < v + Z.of_nat n → has (km w) PTE_V = false ∧ near (w * PGSIZE)) →
  (∀ g' s' tabs', kmap N r g' s' (spanned v (Z.of_nat n) pa perm km) tabs' stk → Q 0 s') →
  wp (mappages_loop n r (v * PGSIZE) ((v + Z.of_nat n - 1) * PGSIZE) pa perm) s Q.
Proof.
  induction n as [|n IH]; intros g s km tabs v pa K HN Hp Hn Hv Hvn Hal Hpa Hpn Hfr HQ; [lia|]. cbn [mappages_loop].
  assert (0 ≤ v < VPAGES) as Hvp by lia. pose proof (vpage_va v Hvp) as Hva. destruct (Hfr v ltac:(lia)) as [Hinv Hnear]. assert (paddr pa) as Hpd by (unfold PGSIZE in *; split; [done|lia]). pose proof (mk_pte_range pa perm Hpd Hp) as He.
  wp_steps. eapply wp_mono; [exact (wp_walk_tables g s r (v * PGSIZE) (kp_v _ _ _ _ _ _ _ K) (kp_root _ _ _ _ _ _ _ K) Hva)|]. intros a s' (g' & V' & G & Ht & Hc). destruct (kmap_grows _ _ _ _ _ _ _ _ _ _ K Hnear V' G Ht) as (tabs' & K').
  destruct Hc as [[-> Hfl]|[Ha ->]]; [pose proof (tabs_bound _ _ _ _ _ _ _ K') as Hb; pose proof (kp_count _ _ _ _ _ _ _ K') as Hct; rewrite Hfl in Hct; simpl in Hct; lia|].
  destruct (Z.eqb_spec (slot 2 (mem s') r (v * PGSIZE)) 0); [done|]. unfold read64. wp_steps.
  assert (load64 (mem s') (slot 2 (mem s') r (v * PGSIZE)) = km v) as ->.
  { rewrite <-(kp_pte _ _ _ _ _ _ _ K') by done. unfold upte, pte_at. by destruct (Z.eqb_spec (slot 2 (mem s') r (v * PGSIZE)) 0). }
  rewrite Hinv. unfold write64. wp_steps. fold (mk_pte pa perm). fold (set_pte r (v * PGSIZE) (mk_pte pa perm) s').
  pose proof (kmap_set _ _ _ _ _ _ _ v _ K' Hvp ltac:(done) He) as K2. change MAXVA with (2 ^ 38) in *. unfold VPAGES in *. change (MAXVA / PGSIZE) with (2 ^ 26) in *. unfold PGSIZE in *.
  destruct (Z.eqb_spec (v * 4096) ((v + Z.of_nat (S n) - 1) * 4096)) as [E|E].
  - apply wp_ret. eapply HQ, kmap_ext, K2. intros w Hw. unfold spanned, PGSIZE. repeat case_decide; try lia; try done; f_equal; lia.
  - rewrite !u64_small by lia. replace (v * 4096 + 4096) with ((v + 1) * 4096) by lia. replace (v + Z.of_nat (S n) - 1) with (v + 1 + Z.of_nat n - 1) by lia.
    eapply (IH g' _ _ tabs' (v + 1) (pa + 4096) K2); [done|done|lia|lia|lia|dlia|lia|lia| |].
    + intros w Hw. rewrite decide_False by lia. apply Hfr. lia.
    + intros g2 s2 tabs2 K3. eapply HQ, kmap_ext, K3. intros w Hw. unfold spanned, PGSIZE. repeat case_decide; try lia; try done; f_equal; lia.
Qed.

Lemma wp_kvmmap N r g s km tabs stk v n pa perm Q :
  kmap N r g s km tabs stk → (length touched + length stk < N)%nat → user_perm perm → 0 < n →
  0 ≤ v → v + n ≤ VPAGES → pa mod PGSIZE = 0 → 0 ≤ pa → pa + n * PGSIZE ≤ 2 ^ 55 →
  (∀ w, v ≤ w < v + n → has (km w) PTE_V = false ∧ near (w * PGSIZE)) →
  (∀ g' s' tabs', kmap N r g' s' (spanned v n pa perm km) tabs' stk → Q tt s') →
  wp (kvmmap r (v * PGSIZE) pa (n * PGSIZE) perm) s Q.
Proof.
  intros K HN Hp Hn Hv Hvn Hal Hpa Hpn Hfr HQ. unfold kvmmap, mappages. rewrite !Z.mod_mul by done. cbn [Z.eqb negb]. rewrite (proj2 (Z.eqb_neq (n * PGSIZE) 0)) by (unfold PGSIZE; lia). rewrite Z.div_mul by done.
  change MAXVA with (2 ^ 38) in *. assert (VPAGES = 2 ^ 26) as EV by done. rewrite u64_small by (unfold PGSIZE; lia). replace (v * PGSIZE + n * PGSIZE - PGSIZE) with ((v + n - 1) * PGSIZE) by lia.
  rewrite <-(Z2Nat.id n) at 2 by lia. apply wp_bind, (wp_mappages_loop N r perm stk _ (Z.to_nat n) g s km tabs); rewrite ?Z2Nat.id by lia; [done|done|done|lia|done|done|done|done|done|done|].
  intros g' s' tabs' K'. by apply wp_ret, (HQ g' s' tabs').
Qed.

(** ** The mappings *)

Lemma touched_leaf x : x = 128 ∨ x = 131071 ∨ 96 ≤ x < 128 ∨ 1024 ≤ x < 1088 → (0%nat, x) ∈ touched.
Proof.
  intros Hx. unfold touched. apply elem_of_app. destruct Hx as [->|[->|Hx]]; [left; set_solver..|right]. apply list_elem_of_fmap. exists x. split; [done|]. apply elem_of_app. rewrite !elem_of_seqZ. lia.
Qed.
Lemma touched_inner x : x = 0 ∨ x = 2 ∨ x = 255 → (1%nat, x) ∈ touched.
Proof. intros Hx. unfold touched. apply elem_of_app. left. destruct Hx as [->|[->| ->]]; set_solver. Qed.

Lemma near_parts a : (a / 2 ^ 21 = 128 ∨ a / 2 ^ 21 = 131071 ∨ 96 ≤ a / 2 ^ 21 < 128 ∨ 1024 ≤ a / 2 ^ 21 < 1088) → (a / 2 ^ 30 = 0 ∨ a / 2 ^ 30 = 2 ∨ a / 2 ^ 30 = 255) → near a.
Proof. intros Ha0 Ha1 l Hl. assert (l = 0%nat ∨ l = 1%nat) as [->| ->] by lia; [by apply touched_leaf|by apply touched_inner]. Qed.
Lemma near_devices a : PLIC ≤ a < VIRTIO0 + PGSIZE → near a.
Proof. unfold PLIC, VIRTIO0, PGSIZE. intros Ha. apply near_parts; [|left]; change (2 ^ 21) with 2097152; change (2 ^ 30) with 1073741824; dlia. Qed.
Lemma near_ram a : KERNBASE ≤ a < PHYSTOP → near a.
Proof. change KERNBASE with 2147483648. change PHYSTOP with 2281701376. intros Ha. apply near_parts; [|right; left]; change (2 ^ 21) with 2097152; change (2 ^ 30) with 1073741824; dlia. Qed.
Lemma near_top a : KSTACK 64 ≤ a ≤ TRAMPOLINE → near a.
Proof. change (KSTACK 64) with 274877370368. change TRAMPOLINE with 274877902848. intros Ha. apply near_parts; [right; left|right; right]; change (2 ^ 21) with 2097152; change (2 ^ 30) with 1073741824; dlia. Qed.

(** The entry for page [v], with the stacks [stk]. *)
Definition kernel_map (stk : list Z) (v : Z) : Z :=
  let a := v * PGSIZE in
  let k := (TRAMPOLINE - a) / PGSIZE in
  if decide (a = UART0 ∨ a = VIRTIO0 ∨ PLIC ≤ a < PLIC + 0x4000000) then mk_pte a (Z.lor PTE_R PTE_W)
  else if decide (KERNBASE ≤ a < etext) then mk_pte a (Z.lor PTE_R PTE_X)
  else if decide (etext ≤ a < PHYSTOP) then mk_pte a (Z.lor PTE_R PTE_W)
  else if decide (a = TRAMPOLINE) then mk_pte trampoline (Z.lor PTE_R PTE_X)
  else if decide (0 < k ∧ k mod 2 = 0) then
    match stk !! Z.to_nat (k / 2 - 1) with Some p => mk_pte p (Z.lor PTE_R PTE_W) | None => 0 end
  else 0.

(** A stack page leaves the free list. *)
Lemma kmap_alloc N r g s km tabs stk p fl :
  kmap N r g s km tabs stk → gfl g = p :: fl → kmap N r (g_alloc p fl g) (alloc_state p s) km tabs (stk ++ [p]).
Proof.
  intros [k1 k2 k3 k4 k5 k6 k7 k8 k9] Hfl. assert (own g p = OFree) as Hf by (apply (ti_free _ _ (vi_t _ _ k1)); rewrite Hfl; by left). assert (page_ok p) as Hpp by (apply (own_page_ok _ _ (vi_t _ _ k1)); by rewrite Hf).
  split; gsimpl; try done.
  - by apply vinv_alloc.
  - by rewrite fn_lookup_insert_ne by congruence.
  - intros v Hv. rewrite <-k4 by done. unfold upte. apply (upte_outside g s k1 _ p); [done|by left|intros x Hx; by apply alloc_state_outside|done|by apply vpage_va].
  - intros q Hq. destruct (k6 q Hq) as (l & pre & Ht & O). exists l, pre. split; [done|]. by rewrite fn_lookup_insert_ne by congruence.
  - apply NoDup_app. split_and!; [done| |by apply NoDup_singleton]. intros q Hq ->%list_elem_of_singleton. specialize (k8 p Hq). congruence.
  - intros q [Hq| ->%list_elem_of_singleton]%elem_of_app; [|by rewrite fn_lookup_insert]. pose proof (k8 q Hq). by rewrite fn_lookup_insert_ne by congruence.
  - rewrite Hfl in k9. rewrite length_app. simpl in *. lia.
Qed.

Lemma stack_index v : (TRAMPOLINE - v * PGSIZE) / PGSIZE = 67108863 - v.
Proof. change TRAMPOLINE with (67108863 * PGSIZE). rewrite <-Z.mul_sub_distr_r. by apply Z.div_mul. Qed.
Lemma kstack_page k : KSTACK k = (67108861 - 2 * k) * PGSIZE.
Proof. unfold KSTACK. change TRAMPOLINE with (67108863 * PGSIZE). lia. Qed.

Lemma high_page stk v : 67108733 ≤ v < 67108863 →
  kernel_map stk v = if decide ((67108863 - v) mod 2 = 0) then match stk !! Z.to_nat ((67108863 - v) / 2 - 1) with Some p => mk_pte p (Z.lor PTE_R PTE_W) | None => 0 end else 0.
Proof.
  intros Hv. pose proof etext_range as He. pose proof kend_range as Hk. change PHYSTOP with 2281701376 in *. unfold kernel_map. rewrite stack_index. change TRAMPOLINE with 274877902848. change PHYSTOP with 2281701376. change KERNBASE with 2147483648. unfold UART0, VIRTIO0, PLIC, PGSIZE.
  do 4 rewrite decide_False by lia. repeat case_decide; try done; lia.
Qed.

Lemma kernel_map_stack stk pa w : (length stk < 64)%nat →
  kernel_map (stk ++ [pa]) w = spanned (67108861 - 2 * Z.of_nat (length stk)) 1 pa (Z.lor PTE_R PTE_W) (kernel_map stk) w.
Proof.
  intros Hl. unfold spanned. case_decide as Hw.
  - assert (w = 67108861 - 2 * Z.of_nat (length stk)) as -> by lia. rewrite high_page by lia. rewrite decide_True by dlia.
    replace (Z.to_nat _) with (length stk) by dlia. rewrite list_lookup_middle by done. f_equal. lia.
  - unfold kernel_map. rewrite stack_index. repeat (case_decide; [done|]). case_decide as Hk; [|done]. set (i := Z.to_nat _). assert (i ≠ length stk) as Hi by (unfold i; dlia).
    destruct (decide (i < length stk)%nat); [by rewrite lookup_app_l|]. rewrite !lookup_ge_None_2; [done|lia|rewrite length_app; simpl; lia].
Qed.

Lemma kmem_alloc N r g s km tabs stk :
  kmap N r g s km tabs stk → (length touched + length stk < N)%nat → ∃ p fl, gfl g = p :: fl ∧ page_ok p ∧ p ≠ 0 ∧ kalloc s = Ok (p, alloc_state p s).
Proof.
  intros K HN. pose proof (tabs_bound _ _ _ _ _ _ _ K) as Hb. pose proof (kp_count _ _ _ _ _ _ _ K) as Hc.
  destruct (kalloc_cases g s (kp_v _ _ _ _ _ _ _ K)) as [[Hfl _]|(p & fl & Hfl & Hp & Hp0 & _ & E)]; [rewrite Hfl in Hc; simpl in Hc; lia|]. by exists p, fl.
Qed.

Lemma wp_proc_mapstacks N r g s tabs Q :
  kmap N r g s (kernel_map []) tabs [] → (length touched + NPROC < N)%nat →
  (∀ g' s' tabs' stk, length stk = NPROC → kmap N r g' s' (kernel_map stk) tabs' stk → Q tt s') →
  wp (proc_mapstacks r) s Q.
Proof.
  intros K HN HQ. unfold proc_mapstacks. apply (wp_for_up (λ k s', ∃ g' tabs' stk, length stk = k ∧ kmap N r g' s' (kernel_map stk) tabs' stk)).
  - by exists g, tabs, [].
  - intros k s1 Hk (g1 & tabs1 & stk & El & K1). unfold NPROC in *. destruct (kmem_alloc _ _ _ _ _ _ _ K1 ltac:(lia)) as (p & fl & Hfl & Hp & Hp0 & E). pose proof (kmap_alloc _ _ _ _ _ _ _ p fl K1 Hfl) as K2.
    apply wp_bind. eapply wp_Ok; [exact E|]. destruct (Z.eqb_spec p 0); [done|]. cbv zeta. rewrite Z.mul_1_r, Z.add_0_l, kstack_page. replace PGSIZE with (1 * PGSIZE) at 2 by done.
    destruct Hp as (Hal & Hlo & Hhi). pose proof etext_range. pose proof kend_range. change KERNBASE with 2147483648 in *. change PHYSTOP with 2281701376 in *. assert (VPAGES = 67108864) as EV by done.
    apply (wp_kvmmap N r _ _ _ _ _ _ _ _ _ _ K2); [rewrite length_app; change (length [p]) with 1%nat; lia|done|done|lia|lia|done|lia|unfold PGSIZE; lia| |].
    + intros w Hw. split; [|apply near_top; change (KSTACK 64) with 274877370368; change TRAMPOLINE with 274877902848; unfold PGSIZE; lia]. rewrite high_page by lia. case_decide; [|done].
      rewrite lookup_ge_None_2; [done|]. assert (w = 67108861 - 2 * Z.of_nat k) as -> by lia. dlia.
    + intros g3 s3 tabs3 K3. exists g3, tabs3, (stk ++ [p]). split; [rewrite length_app; simpl; lia|]. eapply kmap_ext, K3. intros w _. rewrite kernel_map_stack by lia. by rewrite El.
  - intros s' (g' & tabs' & stk & El & K'). by apply (HQ g' s' tabs' stk).
Qed.

(** The six mappings before the stacks. *)
Definition stage (E : Z) (n : nat) : Z → Z :=
  let rw := Z.lor PTE_R PTE_W in let rx := Z.lor PTE_R PTE_X in
  foldr (λ (f : (Z → Z) → Z → Z) k, f k) (λ _, 0) (drop (6 - n)
    [spanned 67108863 1 trampoline rx; spanned E (557056 - E) (E * PGSIZE) rw; spanned 524288 (E - 524288) KERNBASE rx;
     spanned 49152 16384 PLIC rw; spanned 65537 1 VIRTIO0 rw; spanned 65536 1 UART0 rw]).

Lemma stage_all E v : etext = E * PGSIZE → 0 ≤ v < VPAGES → stage E 6 v = kernel_map [] v.
Proof.
  intros Ee Hv. pose proof etext_range as H1. pose proof kend_range as H2. pose proof trampoline_range as H3. assert (VPAGES = 67108864) as EV by done. change KERNBASE with (524288 * PGSIZE) in *. change PHYSTOP with (557056 * PGSIZE) in *. rewrite Ee in *.
  unfold kernel_map. rewrite stack_index, Ee. change (stage E 6 v) with (spanned 67108863 1 trampoline (Z.lor PTE_R PTE_X) (spanned E (557056 - E) (E * PGSIZE) (Z.lor PTE_R PTE_W) (spanned 524288 (E - 524288) KERNBASE (Z.lor PTE_R PTE_X) (spanned 49152 16384 PLIC (Z.lor PTE_R PTE_W) (spanned 65537 1 VIRTIO0 (Z.lor PTE_R PTE_W) (spanned 65536 1 UART0 (Z.lor PTE_R PTE_W) (λ _, 0)))))) v).
  unfold spanned. change KERNBASE with (524288 * PGSIZE). change PHYSTOP with (557056 * PGSIZE). change TRAMPOLINE with (67108863 * PGSIZE). change UART0 with (65536 * PGSIZE). change VIRTIO0 with (65537 * PGSIZE). change PLIC with (49152 * PGSIZE). change 0x4000000 with (16384 * PGSIZE). unfold PGSIZE in *.
  repeat (case_decide; try lia); rewrite ?lookup_nil; try done; f_equal; lia.
Qed.

(** The pages of a range are free so far, and their tables are counted. *)
#[local] Ltac kvm_fresh :=
  intros w Hw; split; [unfold spanned; repeat (rewrite decide_False by lia); done|
    first [apply near_devices; unfold PLIC, VIRTIO0, PGSIZE; lia
          |apply near_ram; change KERNBASE with (524288 * PGSIZE); change PHYSTOP with (557056 * PGSIZE); unfold PGSIZE; lia
          |apply near_top; change (KSTACK 64) with 274877370368; change TRAMPOLINE with (67108863 * PGSIZE); unfold PGSIZE; lia]].

(** [kvmmake], started with 167 free pages, returns a page table in which every page of the
    address space is mapped as intended and no other is: the devices and the memory
    behind the kernel's code readable and writable at their own addresses, the code
    readable and executable and not writable, the trampoline at the top, and below
    it, each next to pages that are not mapped, one stack for each process in a page of
    its own. *)
Lemma kvmmake_maps g s :
  vinv g s → etext mod PGSIZE = 0 → (length touched + NPROC + 2 ≤ length (gfl g))%nat →
  wp kvmmake s (λ r s', ∃ g' stk, vinv g' s' ∧ own g' r = OPT r 2 0 ∧ r ∉ roots g' ∧
    length stk = NPROC ∧ NoDup stk ∧ (∀ p, p ∈ stk → own g' p = OData) ∧
    ∀ v, 0 ≤ v < VPAGES → upte s' r v = kernel_map stk v).
Proof.
  intros V Hal HN. pose proof etext_range as H1. pose proof kend_range as H2. pose proof trampoline_range as H3. pose proof trampoline_aligned as H4. set (E := etext / PGSIZE).
  assert (etext = E * PGSIZE) as Ee by (unfold E; pose proof (Z.div_mod etext PGSIZE ltac:(done)); lia). change KERNBASE with (524288 * PGSIZE) in *. change PHYSTOP with (557056 * PGSIZE) in *.
  assert (524288 < E < 557056) as HE by (unfold PGSIZE in *; lia). assert (VPAGES = 67108864) as EV by done.
  destruct (kalloc_cases g s V) as [[Hfl _]|(r & fl & Hfl & Hp & Hp0 & Hfr & Ek)]; [rewrite Hfl in HN; simpl in HN; lia|]. unfold kvmmake. apply wp_bind. eapply wp_Ok; [exact Ek|]. unfold kmemset. apply wp_bind, wp_modify. fold (zeroed r s).
  set (N := length fl). rewrite Hfl in HN. cbn [length] in HN. fold N in HN.
  assert (kmap N r (g_kroot r (g_alloc r fl g)) (zeroed r s) (stage E 0) [] []) as K0.
  { assert (∀ x, r ≤ x < r + PGSIZE → mem (zeroed r s) x = 0) as Hz by (intros x; by apply fresh_zero). split; gsimpl; try done.
    - apply kroot_vinv; gsimpl; rewrite ?fn_lookup_insert; [by apply fresh_vinv|done|by eapply free_no_refs|done|done].
    - cbn. by rewrite fn_lookup_insert.
    - cbn. intros Hr%(ri_root _ _ _ (vi_r _ _ V)). congruence.
    - intros v _. by apply new_root_pte.
    - apply NoDup_nil_2.
    - intros p Hq. by apply elem_of_nil in Hq.
    - apply NoDup_nil_2.
    - intros p Hq. by apply elem_of_nil in Hq.
    - change (N + 0 + 0 = N)%nat. lia. }
  assert (length touched + length (@nil Z) < N)%nat as HN0 by (cbn [length]; lia). change (kvmmap r UART0 UART0 PGSIZE) with (kvmmap r (65536 * PGSIZE) UART0 (1 * PGSIZE)). change (kvmmap r VIRTIO0 VIRTIO0 PGSIZE) with (kvmmap r (65537 * PGSIZE) VIRTIO0 (1 * PGSIZE)).
  change (kvmmap r PLIC PLIC 0x4000000) with (kvmmap r (49152 * PGSIZE) PLIC (16384 * PGSIZE)). change (kvmmap r TRAMPOLINE trampoline PGSIZE) with (kvmmap r (67108863 * PGSIZE) trampoline (1 * PGSIZE)).
  change (kvmmap r KERNBASE KERNBASE) with (kvmmap r (524288 * PGSIZE) KERNBASE). rewrite Ee. replace (u64 (E * PGSIZE - KERNBASE)) with ((E - 524288) * PGSIZE) by (change KERNBASE with (524288 * PGSIZE); rewrite u64_small by (unfold PGSIZE; lia); lia).
  replace (u64 (PHYSTOP - E * PGSIZE)) with ((557056 - E) * PGSIZE) by (change PHYSTOP with (557056 * PGSIZE); rewrite u64_small by (unfold PGSIZE; lia); lia).
  apply wp_bind, (wp_kvmmap N r _ _ _ _ _ _ _ _ _ _ K0 HN0); [done|done|done|done|done|done|done|kvm_fresh|]. intros g1 s1 t1 K1.
  apply wp_bind, (wp_kvmmap N r _ _ _ _ _ _ _ _ _ _ K1 HN0); [done|done|done|done|done|done|done|kvm_fresh|]. intros g2 s2 t2 K2.
  apply wp_bind, (wp_kvmmap N r _ _ _ _ _ _ _ _ _ _ K2 HN0); [done|done|done|done|done|done|done|kvm_fresh|]. intros g3 s3 t3 K3.
  apply wp_bind, (wp_kvmmap N r _ _ _ _ _ _ _ _ _ _ K3 HN0); [done|lia|lia|lia|done|done|change KERNBASE with (524288 * PGSIZE); unfold PGSIZE; lia|kvm_fresh|]. intros g4 s4 t4 K4.
  apply wp_bind, (wp_kvmmap N r _ _ _ _ _ _ _ _ _ _ K4 HN0); [done|lia|lia|lia|by apply Z.mod_mul|unfold PGSIZE; lia|unfold PGSIZE; lia|kvm_fresh|]. intros g5 s5 t5 K5.
  apply wp_bind, (wp_kvmmap N r _ _ _ _ _ _ _ _ _ _ K5 HN0); [done|done|done|done|done|unfold PGSIZE in *; lia|unfold PGSIZE in *; lia|kvm_fresh|]. intros g6 s6 t6 K6.
  apply wp_bind, (wp_proc_mapstacks N r g6 s6 t6); [eapply kmap_ext, K6; intros v Hv; symmetry; by apply stage_all|lia|]. intros g7 s7 t7 stk Es [k1 k2 k3 k4 k5 k6 k7 k8 k9]. apply wp_ret. by exists g7, stk.
Qed.

(** What the hardware reads from satp. *)
Definition satp_mode (x : Z) : Z := Z.shiftr x 60.
Definition satp_root (x : Z) : Z := Z.shiftl (Z.land x (Z.ones 44)) 12.

Lemma make_satp_fields p : page_ok p → satp_mode (MAKE_SATP p) = 8 ∧ satp_root (MAKE_SATP p) = p.
Proof.
  intros (Hm & Hk & Hp). pose proof etext_range. pose proof kend_range. change PHYSTOP with 2281701376 in *. change KERNBASE with 2147483648 in *.
  assert (0 ≤ p) by lia. rewrite (Z.div_mod p PGSIZE) by done. rewrite Hm, Z.add_0_r. set (k := p / PGSIZE).
  assert (0 ≤ k < 2 ^ 44) as Hk' by (unfold k, PGSIZE; dlia). unfold satp_mode, satp_root, MAKE_SATP.
  rewrite (Z.shiftr_div_pow2 _ 12) by lia. change (2 ^ 12) with PGSIZE. rewrite (Z.mul_comm PGSIZE), Z.div_mul by done.
  rewrite Z.shiftr_lor, Z.land_lor_distr_l. rewrite (Z.land_ones k), (Z.mod_small k) by lia. change (Z.shiftr SATP_SV39 60) with 8. change (Z.land SATP_SV39 (Z.ones 44)) with 0.
  rewrite (Z.shiftr_div_pow2 k), (Z.div_small k), Z.shiftl_mul_pow2 by lia. split; [done|]. by rewrite Z.lor_0_l.
Qed.

(** C13. Booting with 167 free pages, [kvminit] and then [kvminithart] leave the processor in
    the three-level paging mode, with no cached translation, on a page table in which every
    page of the address space is mapped as intended and no other is:
    the devices and the memory
    behind the kernel's code readable and writable at their own addresses, the code
    readable and executable and not writable, the trampoline at the top, and below
    it, each next to pages that are not mapped, one stack for each process in a page of
    its own. *)
Theorem kvminit_maps g h :
  vinv g (hmem h) → etext mod PGSIZE = 0 → (length touched + NPROC + 2 ≤ length (gfl g))%nat →
  wp (kvminit ;; kvminithart) h (λ _ h', satp_mode (hsatp h') = 8 ∧ cached h' = false ∧
    let r := satp_root (hsatp h') in
    r = kernel_pagetable h' ∧ ∃ g' stk, vinv g' (hmem h') ∧ own g' r = OPT r 2 0 ∧ r ∉ roots g' ∧
    length stk = NPROC ∧ NoDup stk ∧ (∀ p, p ∈ stk → own g' p = OData) ∧
    ∀ v, 0 ≤ v < VPAGES → upte (hmem h') r v = kernel_map stk v).
Proof.
  intros V He HN. unfold kvminit, kvminithart, sfence_vma, w_satp. apply wp_bind, wp_bind, wp_zoom. eapply wp_mono; [by apply (kvmmake_maps g)|].
  intros r s' (g' & stk & V' & Ho & Hm). assert (page_ok r) as Hp by (apply (ti_page _ _ (vi_t _ _ V')); congruence).
  apply wp_modify. wp_steps. cbn. destruct (make_satp_fields r Hp) as [E1 E2]. rewrite E2. split_and!; [done|done|done|]. by exists g', stk.
Qed.
End kvm.
