(* ===== verification/Boot.v ===== *)
(** * From power-on to [main], and the interrupt controller

    kernel/start.c and kernel/plic.c.  The control registers are a map from their
    names to 64-bit values; [mret] does what the instruction does.  The registers
    of the interrupt controller are a map from addresses to 32-bit values, and the
    controller offers an interrupt to a processor when its priority is above the
    threshold of the processor and it is enabled there. *)

From S2P Require Import Prelude Riscv.

Inductive csr :=
  | mstatus | mepc | satp | medeleg | mideleg | sie | pmpaddr0 | pmpcfg0 | menvcfg | mcounteren | stimecmp | time | mhartid | tp.
#[export] Instance csr_eq_dec : EqDecision csr.
Proof. solve_decision. Defined.

(** Privilege 3 is machine mode, 1 supervisor mode. *)
Record core := mkCore { regs : csr → Z; priv : Z; pc : Z }.

Definition csrr (r : csr) : M core Z := gets (λ s, regs s r).
Definition csrw (r : csr) (x : Z) : M core unit := modify (λ s, mkCore (<[r := x]> (regs s)) (priv s) (pc s)).

Definition MSTATUS_MPP_MASK : Z := Z.shiftl 3 11.
Definition MSTATUS_MPP_S : Z := Z.shiftl 1 11.
Definition SIE_SEIE : Z := Z.shiftl 1 9.
Definition SIE_STIE : Z := Z.shiftl 1 5.

(** Return to the mode in the field MPP of mstatus, at mepc; interrupts are
    enabled as they were before the trap. *)
Definition mret_ : M core unit :=
  modify (λ s,
    let x := regs s mstatus in
    let x := Z.lor (Z.ldiff x (Z.shiftl 1 3)) (Z.shiftl (Z.land (Z.shiftr x 7) 1) 3) in
    mkCore (<[mstatus := Z.ldiff (Z.lor x (Z.shiftl 1 7)) MSTATUS_MPP_MASK]> (regs s))
      (Z.land (Z.shiftr (regs s mstatus) 11) 3) (regs s mepc)).

Definition timerinit : M core unit :=
  e ← csrr menvcfg;
  csrw menvcfg (Z.lor e (Z.shiftl 1 63)) ;;
  c ← csrr mcounteren;
  csrw mcounteren (Z.lor c 2) ;;
  t ← csrr time;
  csrw stimecmp (u64 (t + 1000000)).

(** [main_addr] is the address of [main]. *)
Definition start (main_addr : Z) : M core unit :=
  x ← csrr mstatus;
  let x := Z.land x (u64 (Z.lnot MSTATUS_MPP_MASK)) in
  let x := Z.lor x MSTATUS_MPP_S in
  csrw mstatus x ;;
  csrw mepc main_addr ;;
  csrw satp 0 ;;
  csrw medeleg 0xffff ;;
  csrw mideleg 0xffff ;;
  e ← csrr sie;
  csrw sie (Z.lor (Z.lor e SIE_SEIE) SIE_STIE) ;;
  csrw pmpaddr0 0x3fffffffffffff ;;
  csrw pmpcfg0 0xf ;;
  timerinit ;;
  id ← csrr mhartid;
  csrw tp (s32 id) ;;
  mret_.

(** ** The interrupt controller *)

Definition UART0_IRQ : Z := 10.
Definition VIRTIO0_IRQ : Z := 1.
Definition PLIC_SENABLE (hart : Z) : Z := PLIC + 0x2080 + hart * 0x100.
Definition PLIC_SPRIORITY (hart : Z) : Z := PLIC + 0x201000 + hart * 0x2000.
Definition PLIC_SCLAIM (hart : Z) : Z := PLIC + 0x201004 + hart * 0x2000.

Notation plic := (Z → Z).
Definition store32 (a x : Z) : M plic unit := modify (<[a := x]>).

Definition plicinit : M plic unit :=
  store32 (PLIC + UART0_IRQ * 4) 1 ;;
  store32 (PLIC + VIRTIO0_IRQ * 4) 1.

Definition plicinithart (hart : Z) : M plic unit :=
  store32 (PLIC_SENABLE hart) (Z.lor (Z.shiftl 1 UART0_IRQ) (Z.shiftl 1 VIRTIO0_IRQ)) ;;
  store32 (PLIC_SPRIORITY hart) 0.

Definition plic_claim (hart : Z) : M plic Z := irq ← gets (λ m, m (PLIC_SCLAIM hart)); mret (s32 irq).
Definition plic_complete (hart irq : Z) : M plic unit := store32 (PLIC_SCLAIM hart) (u32 irq).

(** ** What they do *)

Lemma mpp_supervisor x : 0 ≤ x < 2 ^ 64 → Z.land (Z.shiftr (Z.lor (Z.land x (u64 (Z.lnot MSTATUS_MPP_MASK))) MSTATUS_MPP_S) 11) 3 = 1.
Proof.
  intros Hx. rewrite Z.shiftr_lor, Z.shiftr_land. change (Z.shiftr (u64 (Z.lnot MSTATUS_MPP_MASK)) 11) with 0x1ffffffffffffc.
  change (Z.shiftr MSTATUS_MPP_S 11) with 1. rewrite Z.land_lor_distr_l, <-Z.land_assoc. change (Z.land 0x1ffffffffffffc 3) with 0. by rewrite Z.land_0_r.
Qed.

Lemma wp_csrr {A} r R p c (k : Z → M core A) Q : wp (k (R r)) (mkCore R p c) Q → wp (x ← csrr r; k x) (mkCore R p c) Q.
Proof. done. Qed.
Lemma wp_csrw {A} r x R p c (k : M core A) Q :
  (∀ R', R' = <[r := x]> R → wp k (mkCore R' p c) Q) → wp (csrw r x ;; k) (mkCore R p c) Q.
Proof. intros H. by apply (H (<[r := x]> R)). Qed.

Lemma wp_timerinit R p c (Q : unit → core → Prop) :
  (∀ R', R' = <[stimecmp := u64 (R time + 1000000)]> (<[mcounteren := Z.lor (R mcounteren) 2]> (<[menvcfg := Z.lor (R menvcfg) (Z.shiftl 1 63)]> R)) →
    Q tt (mkCore R' p c)) → wp timerinit (mkCore R p c) Q.
Proof.
  intros H. unfold timerinit. apply wp_csrr, wp_csrw. intros R1 E1. apply wp_csrr, wp_csrw. intros R2 E2. apply wp_csrr, wp_modify. cbn [regs priv pc].
  apply H. subst R2 R1. by rewrite !fn_lookup_insert_ne by done.
Qed.

(** [start] goes on in supervisor mode at [main], without paging, with all of the
    memory open to supervisor mode (the first region of the memory protection
    extends from 0 to four times its address register, with all rights), with
    traps delegated, the interrupts of devices and clock enabled, the clock set,
    and the number of the processor in tp. *)
Lemma start_enters_main addr s : 0 ≤ regs s mstatus < 2 ^ 64 → 0 ≤ regs s mhartid < Z.of_nat NCPU →
  wp (start addr) s (λ _ s', priv s' = 1 ∧ pc s' = addr ∧ regs s' satp = 0 ∧ regs s' tp = regs s mhartid ∧
    (∀ a, 0 ≤ a < 2 ^ 56 - 4 → a < 4 * regs s' pmpaddr0) ∧ regs s' pmpcfg0 = 0xf ∧
    regs s' medeleg = 0xffff ∧ regs s' mideleg = 0xffff ∧
    Z.testbit (regs s' sie) 9 = true ∧ Z.testbit (regs s' sie) 5 = true ∧
    Z.testbit (regs s' menvcfg) 63 = true ∧ regs s' stimecmp = u64 (regs s time + 1000000)).
Proof.
  destruct s as [R p c]. cbn [regs]. intros Hm Hh. unfold start. apply wp_csrr. cbv zeta. do 5 (apply wp_csrw; intros ? ->).
  apply wp_csrr. do 3 (apply wp_csrw; intros ? ->). apply wp_bind, wp_timerinit. intros ? ->. apply wp_csrr, wp_csrw. intros R' ER.
  apply wp_modify. cbn [regs priv pc]. subst R'. 
  repeat (first [rewrite fn_lookup_insert|rewrite fn_lookup_insert_ne by done]). assert (∀ x b k, Z.testbit (Z.lor x (Z.shiftl 1 k)) b = Z.testbit x b || Z.testbit (Z.shiftl 1 k) b) as Hb by (intros; apply Z.lor_spec).
  split_and!; try done.
  - by apply mpp_supervisor.
  - rewrite s32_small; [done|]. unfold NCPU in Hh. lia.
  - intros a Ha. lia.
  - unfold SIE_STIE, SIE_SEIE. rewrite !Hb. cbn. by rewrite orb_true_r.
  - unfold SIE_STIE. rewrite Hb. cbn. by rewrite orb_true_r.
  - rewrite Hb. cbn. by rewrite orb_true_r.
Qed.

(** The controller offers interrupt [irq] to processor [hart]. *)
Definition offered (m : plic) (hart irq : Z) : bool :=
  (m (PLIC_SPRIORITY hart) <? m (PLIC + irq * 4)) && Z.testbit (m (PLIC_SENABLE hart)) irq.

Definition served (irq : Z) : bool := bool_decide (irq = UART0_IRQ) || bool_decide (irq = VIRTIO0_IRQ).

(** Setting up one processor does not touch another. *)
Lemma wp_plicinithart m hart (Q : unit → plic → Prop) : 0 ≤ hart < 8 →
  (∀ m', (∀ h irq, 0 ≤ h < 8 → 0 ≤ irq < 32 → m' (PLIC + irq * 4) = m (PLIC + irq * 4) ∧
     offered m' h irq = if h =? hart then (0 <? m (PLIC + irq * 4)) && served irq else offered m h irq) → Q tt m') →
  wp (plicinithart hart) m Q.
Proof.
  intros H1 HQ. unfold plicinithart, store32. wp_steps. apply HQ. intros h irq H2 H3. unfold offered.
  assert (∀ x a (f : plic) v, a ≠ x → <[a := v]> f x = f x) as Hne by (intros; by apply fn_lookup_insert_ne).
  unfold PLIC_SPRIORITY, PLIC_SENABLE. rewrite (Hne (PLIC + irq * 4)), (Hne (PLIC + irq * 4)) by lia. split; [done|]. destruct (Z.eqb_spec h hart) as [->|Hn].
  - rewrite fn_lookup_insert, (Hne (PLIC + 0x2080 + hart * 0x100)), fn_lookup_insert by lia. f_equal.
    assert (irq ∈ seqZ 0 32) as Hi by (apply elem_of_seqZ; lia). revert Hi. generalize irq. clear. apply Forall_forall. by apply (bool_decide_unpack _).
  - by rewrite !Hne by lia.
Qed.

Fixpoint plicinitharts (harts : list Z) : M plic unit :=
  match harts with [] => mret tt | h :: harts' => plicinithart h ;; plicinitharts harts' end.

Lemma wp_plicinitharts harts m h irq : Forall (λ k, 0 ≤ k < 8) harts → 0 ≤ h < 8 → 0 ≤ irq < 32 →
  wp (plicinitharts harts) m (λ _ m', offered m' h irq =
    if bool_decide (h ∈ harts) then (0 <? m (PLIC + irq * 4)) && served irq else offered m h irq).
Proof.
  intros Hh H1 H2. revert m. induction Hh as [|k harts Hk _ IH]; intros m; cbn [plicinitharts].
  - by apply wp_ret.
  - apply wp_bind, wp_plicinithart; [done|]. intros m1 Hm. destruct (Hm h irq H1 H2) as [Ep Eo]. eapply wp_mono; [apply IH|]. intros u m' ->. rewrite Ep, Eo.
    destruct (Z.eqb_spec h k) as [->|Hn]; [rewrite (bool_decide_true (k ∈ k :: harts)) by apply list_elem_of_here; by case_bool_decide|].
    by rewrite (bool_decide_ext (h ∈ k :: harts) (h ∈ harts)) by (rewrite elem_of_cons; naive_solver).
Qed.

(** After [plicinit] and [plicinithart] on some of the processors, started with all
    registers 0, the controller offers to each of these exactly the interrupts of the
    disk and of the serial line, and to the others none. *)
Lemma plic_offers harts h irq : Forall (λ k, 0 ≤ k < 8) harts → 0 ≤ h < 8 → 0 ≤ irq < 32 →
  wp (plicinit ;; plicinitharts harts) (λ _, 0) (λ _ m, offered m h irq = bool_decide (h ∈ harts) && served irq).
Proof.
  intros Hh H1 H2. apply wp_bind. unfold plicinit, store32. wp_steps. eapply wp_mono; [by apply wp_plicinitharts|]. intros u m' ->.
  set (m := <[_ := _]> _). assert (∀ a, PLIC + 0x2000 ≤ a → m a = 0) as Hz.
  { intros a Ha. subst m. unfold PLIC, UART0_IRQ, VIRTIO0_IRQ in *. by rewrite !fn_lookup_insert_ne by lia. }
  assert (offered m h irq = false) as -> by (unfold offered, PLIC_SENABLE; rewrite (Hz (PLIC + 0x2080 + h * 0x100)), Z.bits_0 by lia; by rewrite andb_false_r).
  case_bool_decide; [|done]. cbn [andb]. destruct (served irq) eqn:Es; [|by rewrite andb_false_r]. rewrite andb_true_r. apply Z.ltb_lt. unfold served in Es.
  apply orb_true_iff in Es as [->%bool_decide_eq_true| ->%bool_decide_eq_true]; subst m; by vm_compute.
Qed.
