(* ===== verification/VmFree.v ===== *)
(** * Freeing page tables

    [freewalk] and [uvmfree]: an address space whose pages have been unmapped
    is taken apart, and every page of its table returns to the free list. *)

From S2P Require Import Prelude Riscv Memory Kalloc Vm VmInv VmWalk VmRef VmOps Cow VmUser.

Section free.
Context `{Layout, !LayoutOk}.

(** All entries of the page [p] are invalid. *)
Definition no_entries (s : kmem) (p : Z) : Prop :=
  ∀ i, 0 ≤ i < 512 → has (load64 (mem s) (p + 8 * i)) PTE_V = false.

(** ** Detaching an empty table from its parent *)

Definition g_data (c : Z) (g : ghost) : ghost :=
  mkGhost (<[c := OData]> (own g)) (gfl g) (roots g) (refs g) (kref g).

(** The reference layer looks only at valid entries. *)
Lemma rinv_weaken g P P' rc :
  rinv g P rc →
  (∀ r v, r ∈ roots g → 0 ≤ v < VPAGES → P' r v = P r v ∨ has (P r v) PTE_V = false ∧ P' r v = 0) →
  rinv g P' rc.
Proof.
  intros [A B C D E F G HH] HP. split; try done.
  - intros r v Hr Hv HV. destruct (HP r v Hr (upage_vpage _ Hv)) as [Ep|[_ Ep]]; rewrite Ep in *; [auto|done].
  - intros r v Hr Hv HV. destruct (HP r v Hr (upage_vpage _ Hv)) as [Ep|[_ Ep]]; rewrite Ep in *; [auto|done].
  - intros p r v Hp. destruct (D p r v Hp) as (? & ? & HV & ?).
    destruct (HP r v) as [Ep|[HV' _]]; auto using upage_vpage; [by rewrite Ep|congruence].
  - intros r v Hr Hv. assert (0 ≤ UPAGES) by done.
    destruct (HP r v Hr) as [Ep|[_ Ep]]; [lia| |]; rewrite Ep; [auto|done].
Qed.

Section detach.
Context (g : ghost) (s : kmem) (pt c r : Z) (l : nat) (pre i : Z).
Hypothesis V : vinv g s.
Hypothesis Hpt : own g pt = OPT r (S l) pre.
Hypothesis Hi : 0 ≤ i < 512.
Hypothesis Hc : own g c = OPT r l (pre * 512 + i).
Hypothesis Hno : no_entries s c.

#[local] Abbreviation T := (vi_t _ _ V).
Definition dt_mem : memory := store64 (mem s) (pt + 8 * i) 0.

Lemma dt_pt_page : page_ok pt.
Proof. by eapply own_OPT_page; [apply T|]. Qed.
Lemma dt_c_page : page_ok c.
Proof. by eapply own_OPT_page; [apply T|]. Qed.
Lemma dt_ne : c ≠ pt.
Proof. clear V Hno. intros ->. rewrite Hpt in Hc. injection Hc. lia. Qed.

Lemma dt_load q j : page_ok q → 0 ≤ j < 512 → (q, j) ≠ (pt, i) →
  load64 dt_mem (q + 8 * j) = load64 (mem s) (q + 8 * j).
Proof. intros. apply load_entry_store; auto using dt_pt_page. Qed.

Lemma dt_load_pt : load64 dt_mem (pt + 8 * i) = 0.
Proof. by apply load64_store64. Qed.

(** Only entry [i] of [pt] points to [c]. *)
Lemma dt_child q r' l' pre' j :
  own g q = OPT r' (S l') pre' → 0 ≤ j < 512 → own g c = OPT r' l' (pre' * 512 + j) → (q, j) = (pt, i).
Proof.
  intros Hq Hj Hc'. rewrite Hc in Hc'. injection Hc' as <- <- E.
  assert (pre' = pre ∧ j = i) as [-> ->] by lia. f_equal. by eapply label_inj; [apply T|..].
Qed.

(** [c] is the parent of no table. *)
Lemma dt_parent q r' l' pre' :
  own g q = OPT r' l' pre' → (l' < 2)%nat → own g c ≠ OPT r' (S l') (pre' / 512).
Proof.
  intros Hq Hl Hc'. destruct (ti_parent _ _ T _ _ _ _ Hq Hl) as (q' & Hq' & E).
  assert (q' = c) as -> by (by eapply label_inj; [apply T|..]).
  assert (0 ≤ pre' mod 512 < 512) as Hm by (by apply Z.mod_pos_bound).
  specialize (Hno _ Hm). rewrite E, has_V, testbit_make in Hno; [done| |lia].
  by eapply page_ok_paddr, own_OPT_page; [apply T|].
Qed.

Lemma dt_kinv : kinv (gfl g) (set_mem dt_mem s).
Proof.
  apply kinv_set_mem; [apply T|apply bytes_ok_store64, T|].
  intros q Hq. pose proof (free_page_ok _ _ _ T Hq) as Hqp. apply (ti_free _ _ T) in Hq.
  rewrite <-(Z.add_0_r q), <-(Z.mul_0_r 8). apply dt_load; [done|lia|congruence].
Qed.

Lemma dt_tinv : tinv (g_data c g) (set_mem dt_mem s).
Proof.
  assert (∀ q r' l' pre', <[c := OData]> (own g) q = OPT r' l' pre' ↔ q ≠ c ∧ own g q = OPT r' l' pre') as Hpt'.
  { intros q r' l' pre'. fn_case c q; [naive_solver|]. naive_solver. }
  split; cbn [own gfl g_data mem set_mem].
  - apply dt_kinv.
  - intros q. fn_case c q; [|apply T]. rewrite (ti_free _ _ T). split; congruence.
  - intros q. fn_case c q; [|apply T]. split; [intros _|done]. apply dt_c_page.
  - intros q r' l' pre' [Hqc Hq]%Hpt'. destruct (ti_level _ _ T _ _ _ _ Hq) as (? & Hr' & ? & ?).
    split_and!; try done. apply Hpt'. split; [|done]. intros ->.
    destruct (ti_level _ _ T _ _ _ _ Hpt) as (Hll & _). rewrite Hc in Hr'. injection Hr'. lia.
  - intros q r' pre' [_ Hq]%Hpt'. by eapply (ti_root _ _ T).
  - intros q r' l' pre' j [Hqc Hq]%Hpt' Hj. destruct (decide ((q, j) = (pt, i))) as [[= -> ->]|Hne].
    { by rewrite dt_load_pt. }
    assert (page_ok q) by (by eapply own_OPT_page; [apply T|]). rewrite dt_load by done. intros HV.
    destruct (ti_entry _ _ T _ _ _ _ _ Hq Hj HV) as (c' & E & Hc'). exists c'. split; [done|].
    apply Hpt'. split; [|done]. intros ->. exact (Hne (dt_child q r' l' pre' j Hq Hj Hc')).
  - intros q r' l' pre' [Hqc Hq]%Hpt' Hl. destruct (ti_parent _ _ T _ _ _ _ Hq Hl) as (q' & Hq' & E).
    exists q'. assert (page_ok q') by (by eapply own_OPT_page; [apply T|]).
    assert (0 ≤ pre' mod 512 < 512) as Hm by (by apply Z.mod_pos_bound). split.
    + apply Hpt'. split; [|done]. intros ->. exact (dt_parent q r' l' pre' Hq Hl Hq').
    + rewrite dt_load; [done|done|done|]. intros [= -> Ei]. apply Hqc.
      rewrite Hpt in Hq'. injection Hq' as <- <- Ep. eapply label_inj; [apply T| |exact Hc].
      rewrite Hq. f_equal. rewrite Ep, <-Ei. pose proof (Z.div_mod pre' 512 ltac:(done)). lia.
Qed.

(** Translations through [c] were invalid and are now absent. *)
Lemma dt_pte l' q r' pre' va :
  own g q = OPT r' l' pre' →
  pte_at l' dt_mem q va = pte_at l' (mem s) q va ∨
  has (pte_at l' (mem s) q va) PTE_V = false ∧ pte_at l' dt_mem q va = 0.
Proof.
  revert q pre'. induction l' as [|l' IH]; intros q pre' Hq;
    assert (page_ok q) as Hqp by (by eapply own_OPT_page; [apply T|]).
  - left. unfold pte_at; cbn [slot]. rewrite dt_load; [done|done|apply PX_range; lia|]. congruence.
  - assert (0 ≤ PX (Z.of_nat (S l')) va < 512) as Hj by (apply PX_range; lia).
    destruct (decide ((q, PX (Z.of_nat (S l')) va) = (pt, i))) as [[= -> Ej]|Hne].
    + right. unfold pte_at at 2; cbn [slot]. rewrite Ej, dt_load_pt. split; [|done].
      unfold pte_at; cbn [slot]. rewrite Ej.
      destruct (has (load64 (mem s) (pt + 8 * i)) PTE_V) eqn:HV; [|done].
      pose proof (entry_child _ _ T _ _ _ _ _ Hpt Hi HV) as Hch.
      assert (PTE2PA (load64 (mem s) (pt + 8 * i)) = c) as -> by (by eapply label_inj; [apply T|..]).
      rewrite Hpt in Hq. injection Hq as <- <- <-. destruct l as [|l'']; cbn [slot].
      * destruct (_ =? 0); [done|]. apply Hno, PX_range. lia.
      * by rewrite Hno by (apply PX_range; lia).
    + assert (load64 dt_mem (q + 8 * PX (Z.of_nat (S l')) va) =
              load64 (mem s) (q + 8 * PX (Z.of_nat (S l')) va)) as E by (by apply dt_load).
      destruct (has (load64 (mem s) (q + 8 * PX (Z.of_nat (S l')) va)) PTE_V) eqn:HV.
      * specialize (IH _ _ (entry_child _ _ T _ _ _ _ _ Hq Hj HV)).
        unfold pte_at in *; cbn [slot]. by rewrite E, HV.
      * left. unfold pte_at; cbn [slot]. by rewrite E, HV.
Qed.

Lemma dt_upte r' v : own g r' = OPT r' 2 0 →
  upte (set_mem dt_mem s) r' v = upte s r' v ∨
  has (upte s r' v) PTE_V = false ∧ upte (set_mem dt_mem s) r' v = 0.
Proof. intros Hr'. by eapply dt_pte. Qed.

Lemma dt_not_leaf r' v : r' ∈ roots g → 0 ≤ v < UPAGES → has (upte s r' v) PTE_V = true → PTE2PA (upte s r' v) ≠ c.
Proof. intros Hr' Hv HV E. destruct (ri_leaf _ _ _ (vi_r _ _ V) r' v Hr' Hv HV) as [Ho _]. congruence. Qed.

Lemma dt_vinv : vinv (g_data c g) (set_mem dt_mem s).
Proof.
  split; [apply dt_tinv|]. pose proof (vi_r _ _ V) as R.
  assert (rinv (g_data c g) (upte s) (refcount s)) as R'.
  { destruct R as [A B C D E F G HH]. split; cbn [own roots refs kref g_data]; try done.
    - intros r' Hr'. rewrite fn_lookup_insert_ne; [auto|]. intros <-. specialize (A c Hr'). rewrite Hc in A.
      destruct (ti_level _ _ T _ _ _ _ Hpt) as (Hll & _). injection A. lia.
    - intros r' v Hr' Hv HV. rewrite fn_lookup_insert_ne by (symmetry; by apply dt_not_leaf). auto.
    - intros q r' l' pre'. fn_case c q; [done|]. apply G. }
  eapply rinv_weaken; [exact R'|]. intros r' v Hr' Hv. apply dt_upte. by apply R.
Qed.
End detach.

(** ** Removing an empty root *)

Definition g_unroot (r : Z) (g : ghost) : ghost :=
  mkGhost (<[r := OData]> (own g)) (gfl g) (roots g ∖ {[r]}) (refs g) (kref g).

Section unroot.
Context (g : ghost) (s : kmem) (r : Z).
Hypothesis V : vinv g s.
Hypothesis Hr : own g r = OPT r 2 0.
Hypothesis Hno : no_entries s r.

#[local] Abbreviation T := (vi_t _ _ V).

Lemma ur_only q l pre : own g q = OPT r l pre → q = r.
Proof.
  intros Hq. destruct (ti_level _ _ T _ _ _ _ Hq) as (Hl & _).
  assert (∀ q' pre', own g q' = OPT r 1 pre' → False) as H1.
  { intros q' pre' Hq'. destruct (ti_parent _ _ T _ _ _ _ Hq') as (q'' & Hq'' & E); [lia|].
    destruct (ti_root _ _ T _ _ _ Hq'') as [-> _].
    assert (0 ≤ pre' mod 512 < 512) as Hm by (by apply Z.mod_pos_bound).
    specialize (Hno _ Hm). rewrite E, has_V, testbit_make in Hno; [done| |lia].
    by eapply page_ok_paddr, own_OPT_page; [apply T|]. }
  destruct l as [|[|[|l]]]; [| |by apply (ti_root _ _ T) in Hq as [-> _]|lia].
  - destruct (ti_parent _ _ T _ _ _ _ Hq) as (q' & Hq' & _); [lia|]. by destruct (H1 q' _ Hq').
  - by destruct (H1 q _ Hq).
Qed.

Lemma ur_pte va : pte_of (mem s) r va = 0.
Proof. unfold pte_at; cbn [slot]. by rewrite Hno by (apply PX_range; lia). Qed.

Lemma ur_vinv : vinv (g_unroot r g) s.
Proof.
  assert (∀ q r' l' pre', <[r := OData]> (own g) q = OPT r' l' pre' ↔ r' ≠ r ∧ own g q = OPT r' l' pre') as Hpt'.
  { intros q r' l' pre'. fn_case r q.
    - split; [done|]. intros [Hn E]. rewrite Hr in E. by injection E as <-.
    - split; [|by intros [_ ?]]. intros Hq. split; [|done]. intros ->. by apply ur_only in Hq as ->. }
  pose proof (vi_r _ _ V) as [A B C D E F G HH].
  split; split; cbn [own gfl roots refs kref g_unroot]; try apply T; try done.
  - intros q. fn_case r q; [|apply T]. rewrite (ti_free _ _ T). split; congruence.
  - intros q. fn_case r q; [|apply T]. split; [intros _|done]. by eapply own_OPT_page; [apply T|].
  - intros q r' l' pre' [Hn Hq]%Hpt'. destruct (ti_level _ _ T _ _ _ _ Hq) as (? & Hr' & ? & ?).
    split_and!; try done. by apply Hpt'.
  - intros q r' pre' [_ Hq]%Hpt'. by eapply (ti_root _ _ T).
  - intros q r' l' pre' j [Hn Hq]%Hpt' Hj HV. destruct (ti_entry _ _ T _ _ _ _ _ Hq Hj HV) as (c & ? & ?).
    exists c. split; [done|]. by apply Hpt'.
  - intros q r' l' pre' [Hn Hq]%Hpt' Hl. destruct (ti_parent _ _ T _ _ _ _ Hq Hl) as (q' & ? & ?).
    exists q'. split; [|done]. by apply Hpt'.
  - intros r' [Hr' Hn%not_elem_of_singleton]%elem_of_difference. apply Hpt'. auto.
  - intros r' v [Hr' _]%elem_of_difference Hv HV. destruct (B r' v Hr' Hv HV) as [Ho ?].
    rewrite fn_lookup_insert_ne by congruence. done.
  - intros r' v [Hr' _]%elem_of_difference. by apply C.
  - intros p r' v Hin. destruct (D p r' v Hin) as (? & ? & HV & ?). split; [|done].
    apply elem_of_difference. split; [done|]. intros ->%elem_of_singleton.
    unfold upte in HV. by rewrite ur_pte in HV.
  - intros q r' l' pre' [_ Hq]%Hpt'. by eapply G.
  - intros r' v [Hr' _]%elem_of_difference. by apply HH.
Qed.
End unroot.

(** ** What [freewalk] leaves alone

    Freeing the tables of [r] below level [k] may change the entries of [pt]
    and touches no other page that stays. *)
Record pruned (r : Z) (k : nat) (pt : Z) (g : ghost) (s : kmem) (g' : ghost) (s' : kmem) : Prop := {
  pr_roots : roots g' = roots g;
  pr_refs : refs g' = refs g;
  pr_data p : own g p = OData → own g' p = OData ∧ kref g' p = kref g p ∧
    ∀ x, p ≤ x < p + PGSIZE → mem s' x = mem s x;
  pr_own p : own g' p = OData → own g p = OData;
  pr_keep p r' l pre : own g p = OPT r' l pre → r' ≠ r ∨ (k ≤ l)%nat → own g' p = OPT r' l pre;
  pr_back p r' l pre : own g' p = OPT r' l pre → own g p = OPT r' l pre;
  pr_mem p r' l pre x : own g' p = OPT r' l pre → p ≠ pt → p ≤ x < p + PGSIZE → mem s' x = mem s x;
}.

Lemma pruned_refl r k pt g s : pruned r k pt g s g s.
Proof. split; auto. Qed.

Lemma pruned_trans r k pt g s g1 s1 g2 s2 :
  pruned r k pt g s g1 s1 → pruned r k pt g1 s1 g2 s2 → pruned r k pt g s g2 s2.
Proof.
  intros [a1 a2 a3 a4 a5 a6 a7] [b1 b2 b3 b4 b5 b6 b7]. split; try congruence; eauto.
  - intros p Hp. destruct (a3 p Hp) as (Hp1 & <- & Hm). destruct (b3 p Hp1) as (? & <- & Hm1).
    split_and!; try done. intros x Hx. rewrite Hm1; auto.
  - intros p r' l pre x Hp Hk Hx. rewrite (b7 p r' l pre) by done. eapply a7; eauto.
Qed.

(** ** One entry of [freewalk]'s loop

    The recursive call has emptied the child [c] and handed it to [kfree]; the
    entry that pointed to it is cleared next.  The result is the one of
    clearing the entry first. *)
Section entry.
Context (g : ghost) (s : kmem) (pt c r : Z) (l : nat) (pre i : Z).
Hypothesis V : vinv g s.
Hypothesis Hpt : own g pt = OPT r (S l) pre.
Hypothesis Hi : 0 ≤ i < 512.
Hypothesis Hc : own g c = OPT r l (pre * 512 + i).
Hypothesis Hno : no_entries s c.

Definition fe_ghost : ghost := g_drop c (g_data c g).
Definition fe_state : kmem := set_mem (store64 (mem (kfree_state c s)) (pt + 8 * i) 0) (kfree_state c s).

Lemma fe_count : refcount s (c / PGSIZE) = 1 ∧ refs g c = ∅ ∧ kref g c = 1.
Proof.
  assert (page_ok c) as Hp by (by eapply own_OPT_page; [apply V|]).
  assert (refs g c = ∅) as Hrf by (eapply nondata_no_refs; [exact V|congruence]).
  pose proof (ri_pt _ _ _ (vi_r _ _ V) _ _ _ _ Hc) as Hk.
  rewrite (ri_count _ _ _ (vi_r _ _ V) c Hp), Hrf, Hk. done.
Qed.

Lemma fe_comm : fe_state = kfree_state c (set_mem (dt_mem s pt i) s).
Proof.
  destruct fe_count as (Hrc & _). unfold fe_state, kfree_state. cbn [refcount set_mem]. rewrite Hrc, Z.eqb_refl.
  unfold free_state, set_mem, dt_mem. gsimpl. f_equal. apply mem_ext. intros x.
  pose proof (dt_pt_page g s pt r l pre V Hpt) as Hp1. pose proof (dt_c_page g s c r l pre i V Hc) as Hp2.
  pose proof (dt_ne g pt c r l pre i Hpt Hc) as Hne.
  unfold store64, store_le, fill. destruct (page_disjoint c pt Hp2 Hp1 Hne); unfold PGSIZE in *; mem_cases; done || lia.
Qed.

Lemma fe_vinv : vinv fe_ghost fe_state.
Proof.
  rewrite fe_comm. destruct fe_count as (_ & _ & Hk). apply vinv_drop.
  - by apply (dt_vinv g s pt c r l pre i).
  - cbn [own g_data]. apply fn_lookup_insert.
  - cbn [kref g_data]. lia.
Qed.

Lemma fe_own q : own fe_ghost q = if decide (q = c) then OFree else own g q.
Proof.
  destruct fe_count as (_ & Hrf & Hk). unfold fe_ghost, g_drop. cbn [refs kref g_data]. rewrite Hrf, Hk, size_empty.
  rewrite decide_True by done. cbn [own g_free g_data]. case_decide as E; [subst; apply fn_lookup_insert|].
  by rewrite !fn_lookup_insert_ne.
Qed.

Lemma fe_mem q x :
  page_ok q → q ≠ c → q ≤ x < q + PGSIZE → (q ≠ pt ∨ x < pt + 8 * i ∨ pt + 8 * i + 8 ≤ x) →
  mem fe_state x = mem s x.
Proof.
  intros Hq Hne Hx Hout. rewrite fe_comm. destruct fe_count as (Hrc & _).
  pose proof (dt_pt_page g s pt r l pre V Hpt) as Hp1. pose proof (dt_c_page g s c r l pre i V Hc) as Hp2.
  unfold kfree_state. cbn [refcount set_mem]. rewrite Hrc, Z.eqb_refl. unfold free_state, dt_mem. gsimpl.
  assert (x < pt + 8 * i ∨ pt + 8 * i + 8 ≤ x).
  { destruct Hout as [Hqpt|?]; [|done]. destruct (page_disjoint q pt Hq Hp1 Hqpt); unfold PGSIZE in *; lia. }
  unfold store64, store_le, fill. destruct (page_disjoint q c Hq Hp2 Hne); unfold PGSIZE in *; mem_cases; done || lia.
Qed.

Lemma fe_pruned g0 s0 : pruned r l c g0 s0 g s → pruned r (S l) pt g0 s0 fe_ghost fe_state.
Proof.
  intros [a1 a2 a3 a4 a5 a6 a7]. destruct fe_count as (_ & Hrf & Hk).
  assert (roots fe_ghost = roots g ∧ refs fe_ghost = refs g) as [Er Ef].
  { unfold fe_ghost. by rewrite g_drop_roots, g_drop_refs. }
  split; [congruence|congruence|..].
  - intros p Hp. destruct (a3 p Hp) as (Hp1 & <- & Hm). assert (p ≠ c) as Hpc by congruence.
    rewrite fe_own, decide_False by done. split; [done|]. split.
    + unfold fe_ghost. by rewrite g_drop_kref_ne.
    + intros x Hx. rewrite <-Hm by done. apply (fe_mem p); [by eapply own_OData_page; [apply V|]|done|done|].
      left. congruence.
  - intros p. rewrite fe_own. case_decide; [done|]. apply a4.
  - intros p r' l' pre' Hp Hk'. assert (own g p = OPT r' l' pre') as Hp1.
    { apply a5; [done|]. destruct Hk'; [by left|right; lia]. }
    rewrite fe_own, decide_False; [done|]. intros ->. rewrite Hc in Hp1. injection Hp1 as <- <- _. destruct Hk'; [done|lia].
  - intros p r' l' pre'. rewrite fe_own. case_decide; [done|]. apply a6.
  - intros p r' l' pre' x. rewrite fe_own. case_decide as Hpc; [done|]. intros Hp Hpt' Hx.
    rewrite (fe_mem p); [|by eapply own_OPT_page; [apply V|]|done|done|by left]. by eapply a7.
Qed.

Lemma fe_entry j : 0 ≤ j < 512 → load64 (mem fe_state) (pt + 8 * j) = if decide (j = i) then 0 else load64 (mem s) (pt + 8 * j).
Proof.
  intros Hj. pose proof (dt_pt_page g s pt r l pre V Hpt) as Hp1. case_decide as E.
  - subst j. unfold fe_state. gsimpl. by apply load64_store64.
  - apply load_le_ext. intros x Hx. apply (fe_mem pt); [done| |unfold PGSIZE; lia|right; lia].
    intros E'. by apply (dt_ne g pt c r l pre i Hpt Hc).
Qed.
End entry.

(** ** [freewalk] *)

(** The level-0 tables of [r] map nothing. *)
Definition leafless (r : Z) (g : ghost) (s : kmem) : Prop :=
  ∀ q pre, own g q = OPT r 0 pre → no_entries s q.

Lemma no_entries_ext s s' p : (∀ x, p ≤ x < p + PGSIZE → mem s' x = mem s x) → no_entries s p → no_entries s' p.
Proof.
  intros Hm Hno i Hi. unfold load64. rewrite (load_le_ext 8 (mem s') (mem s)); [by apply Hno|].
  intros x Hx. apply Hm. unfold PGSIZE. lia.
Qed.

Lemma pruned_leafless r k pt pre g s g' s' :
  pruned r k pt g s g' s' → own g pt = OPT r k pre → k ≠ 0%nat → leafless r g s → leafless r g' s'.
Proof.
  intros P Hpt Hk L q pre' Hq. pose proof (pr_back _ _ _ _ _ _ _ P _ _ _ _ Hq) as Hq0.
  eapply no_entries_ext; [|by eapply L]. intros x. eapply pr_mem; eauto. intros ->. congruence.
Qed.

(** A valid entry of an inner table is a pointer, not a leaf. *)
Lemma pointer_bits c : paddr c → Z.land (Z.lor (PA2PTE c) PTE_V) (Z.lor (Z.lor PTE_R PTE_W) PTE_X) = 0.
Proof.
  intros Hc. apply Z.bits_inj_0. intros n. rewrite Z.land_spec.
  destruct (decide (0 ≤ n < 4)) as [Hn|Hn].
  - rewrite testbit_make by (done || lia). assert (n = 0 ∨ n = 1 ∨ n = 2 ∨ n = 3) as [->|[->|[->| ->]]] by lia; done.
  - change (Z.lor (Z.lor PTE_R PTE_W) PTE_X) with 14. destruct (decide (n < 0)); [by rewrite !Z.testbit_neg_r by lia|].
    rewrite (Z.bits_above_log2 14 n); [apply andb_false_r|done|]. change (Z.log2 14) with 3. lia.
Qed.

Definition walked (r : Z) (l : nat) (pt pre : Z) (g : ghost) (s : kmem) (k : nat) (s' : kmem) : Prop :=
  ∃ g', vinv g' s' ∧ pruned r l pt g s g' s' ∧ own g' pt = OPT r l pre ∧ leafless r g' s' ∧
    ∀ j, 0 ≤ j < Z.of_nat k → has (load64 (mem s') (pt + 8 * j)) PTE_V = false.

Lemma walked_start r l pt pre g s : vinv g s → own g pt = OPT r l pre → leafless r g s → walked r l pt pre g s 0 s.
Proof. intros. exists g. split_and!; auto using pruned_refl. lia. Qed.

Lemma wp_walked_end r l pt pre g s s' (Q : unit → kmem → Prop) :
  walked r l pt pre g s 512 s' →
  (∀ g1 s1, vinv g1 s1 → pruned r l pt g s g1 s1 → own g1 pt = OPT r l pre → no_entries s1 pt →
     Q tt (kfree_state pt s1)) →
  wp (kfree pt) s' Q.
Proof.
  intros (g1 & V1 & P & Hpt & L & Hk) HQ. assert (page_ok pt) as Hp by (by eapply own_OPT_page; [apply V1|]).
  eapply wp_Ok; [apply kfree_run; [apply V1|done|]|].
  - rewrite (ri_count _ _ _ (vi_r _ _ V1) pt Hp), (ri_pt _ _ _ (vi_r _ _ V1) _ _ _ _ Hpt). lia.
  - by apply (HQ g1).
Qed.

(** The entry [k] of an inner table has been cleared. *)
Lemma walked_next r l pt pre g s k c g1 s1 g2 s2 :
  (k < 512)%nat → vinv g1 s1 → pruned r (S l) pt g s g1 s1 → own g1 pt = OPT r (S l) pre → leafless r g1 s1 →
  (∀ j, 0 ≤ j < Z.of_nat k → has (load64 (mem s1) (pt + 8 * j)) PTE_V = false) →
  vinv g2 s2 → pruned r l c g1 s1 g2 s2 → own g2 c = OPT r l (pre * 512 + Z.of_nat k) → no_entries s2 c →
  walked r (S l) pt pre g s (S k) (fe_state s2 pt c (Z.of_nat k)).
Proof.
  intros Hk V1 P Hpt1 L1 Hj V2 P2 Hc2 Hno. assert (0 ≤ Z.of_nat k < 512) as Hkr by lia.
  assert (own g2 pt = OPT r (S l) pre) as Hpt2 by (apply (pr_keep _ _ _ _ _ _ _ P2); [done|right; lia]).
  pose proof (fe_pruned g2 s2 pt c r l pre (Z.of_nat k) V2 Hpt2 Hkr Hc2 g1 s1 P2) as P3.
  exists (fe_ghost g2 c). split_and!.
  - exact (fe_vinv g2 s2 pt c r l pre (Z.of_nat k) V2 Hpt2 Hkr Hc2 Hno).
  - eapply pruned_trans; [exact P|exact P3].
  - apply (pr_keep _ _ _ _ _ _ _ P3); [done|right; lia].
  - exact (pruned_leafless r (S l) pt pre g1 s1 _ _ P3 Hpt1 ltac:(done) L1).
  - intros j Hj'. rewrite (fe_entry g2 s2 pt c r l pre (Z.of_nat k) V2 Hpt2 Hkr Hc2 j) by lia.
    case_decide as Ejk; [done|].
    assert (c ≠ pt) as Hne by (by eapply (dt_ne g2 pt c r l pre (Z.of_nat k))).
    unfold load64. rewrite (load_le_ext 8 (mem s2) (mem s1)); [apply Hj; lia|].
    intros x Hx. apply (pr_mem _ _ _ _ _ _ _ P2 pt r (S l) pre); [done|done|unfold PGSIZE; lia].
Qed.

Lemma wp_freewalk l r : ∀ g s pt pre Q,
  vinv g s → own g pt = OPT r l pre → leafless r g s →
  (∀ g1 s1, vinv g1 s1 → pruned r l pt g s g1 s1 → own g1 pt = OPT r l pre → no_entries s1 pt →
     Q tt (kfree_state pt s1)) →
  wp (freewalk (S l) pt) s Q.
Proof.
  induction l as [|l IH]; intros g s pt pre Q V Hpt L HQ; cbn [freewalk]; apply wp_bind.
  - apply (wp_for_up (walked r 0 pt pre g s)); [by apply walked_start| |intros; by eapply wp_walked_end].
    intros k s' Hk (g1 & V1 & P & Hpt1 & L1 & Hj). unfold read64. wp_steps.
    assert (0 + Z.of_nat k * 1 = Z.of_nat k) as -> by lia.
    rewrite (L1 pt pre Hpt1 (Z.of_nat k)) by lia. cbn [andb]. apply wp_ret.
    exists g1. split_and!; try done. intros j Hj'. apply (L1 pt pre Hpt1). lia.
  - apply (wp_for_up (walked r (S l) pt pre g s)); [by apply walked_start| |intros; by eapply wp_walked_end].
    intros k s' Hk (g1 & V1 & P & Hpt1 & L1 & Hj). unfold read64. wp_steps.
    assert (0 + Z.of_nat k * 1 = Z.of_nat k) as -> by lia. assert (0 ≤ Z.of_nat k < 512) as Hkr by lia.
    destruct (has (load64 (mem s') (pt + 8 * Z.of_nat k)) PTE_V) eqn:HV; cbn [andb].
    + destruct (ti_entry _ _ (vi_t _ _ V1) _ _ _ _ _ Hpt1 Hkr HV) as (c & E & Hc).
      assert (paddr c) as Hcp by (by eapply page_ok_paddr, own_OPT_page; [apply V1|]).
      rewrite E, pointer_bits, PTE2PA_make by (done || by vm_compute). cbn [Z.eqb].
      apply wp_bind, (IH g1 s' c (pre * 512 + Z.of_nat k)); [done..|].
      intros g2 s2 V2 P2 Hc2 Hno. unfold write64. wp_steps. by apply (walked_next r l pt pre g s k c g1 s' g2 s2).
    + apply wp_ret. exists g1. split_and!; try done. intros j Hj'.
      destruct (decide (j = Z.of_nat k)) as [->|]; [done|]. apply Hj. lia.
Qed.

Lemma pruned_upte r k pt g s g' s' r' v :
  vinv g s → pruned r k pt g s g' s' → own g pt = OPT r k 0 → r' ≠ r → own g r' = OPT r' 2 0 →
  0 ≤ v * PGSIZE < MAXVA → upte s' r' v = upte s r' v.
Proof.
  intros V P Hpt Hne Hr' Hv. assert (∀ q l pre i, own g q = OPT r' l pre → 0 ≤ i < 512 →
    load64 (mem s') (q + 8 * i) = load64 (mem s) (q + 8 * i)) as Hl.
  { intros q l pre i Hq Hi. apply load_le_ext. intros x Hx.
    apply (pr_mem _ _ _ _ _ _ _ P q r' l pre); [by apply (pr_keep _ _ _ _ _ _ _ P); auto|congruence|unfold PGSIZE; lia]. }
  unfold upte, pte_at. rewrite (slot_frame g s (mem s') 2 r' r' 0) by (eauto using vi_t).
  destruct (Z.eqb_spec (slot 2 (mem s) r' (v * PGSIZE)) 0); [done|].
  destruct (slot_root g s (vi_t _ _ V) r' (v * PGSIZE)) as (q & Hq & ->); [done..|].
  eapply Hl; [done|]. apply PX_range. lia.
Qed.

(** ** [uvmfree] *)

(** The address space [r] is gone, with all the pages of its table; the other
    address spaces and the pages the kernel holds are as before. *)
Record freed (r : Z) (g : ghost) (s : kmem) (g' : ghost) (s' : kmem) : Prop := {
  fd_roots : roots g' = roots g ∖ {[r]};
  fd_reads r' va : r' ∈ roots g → r' ≠ r → 0 ≤ va < MAXVA → uread s' r' va = uread s r' va;
  fd_ptes r' v : own g r' = OPT r' 2 0 → r' ≠ r → 0 ≤ v * PGSIZE < MAXVA → upte s' r' v = upte s r' v;
  fd_tables p l pre : own g' p ≠ OPT r l pre;
  fd_data p : own g' p = OData → own g p = OData ∧ kref g' p = kref g p ∧
    ∀ x, p ≤ x < p + PGSIZE → mem s' x = mem s x;
  fd_held p : own g p = OData → 1 ≤ kref g p → own g' p = OData;
  fd_keep p r' l pre : own g p = OPT r' l pre → r' ≠ r → own g' p = OPT r' l pre;
  fd_back p r' l pre : own g' p = OPT r' l pre → own g p = OPT r' l pre;
}.

(** What only the address space [r] needs: the pages of its table, and the pages
    that it maps and neither another address space nor the kernel uses. *)
Definition exclusive (r : Z) (g : ghost) (p : Z) : Prop :=
  (∃ l pre, own g p = OPT r l pre) ∨
  own g p = OData ∧ kref g p = 0 ∧ ∀ r' v, (r', v) ∈ refs g p → r' = r.

(** A page that holds data is in use. *)
Lemma data_used g s p : vinv g s → own g p = OData → 1 ≤ kref g p ∨ ∃ r v, (r, v) ∈ refs g p.
Proof.
  intros V Hp. assert (page_ok p) as Hpg by (by eapply own_OData_page; [apply V|]).
  destruct (set_choose_or_empty (refs g p)) as [[[r v] Hin]|He%size_empty_iff]; [right; eauto|left].
  pose proof (ri_count _ _ _ (vi_r _ _ V) p Hpg) as E. pose proof (count_pos _ _ V p Hp). lia.
Qed.

(** Exactly those pages are free afterwards, besides the ones that were. *)
Lemma freed_exact r g s g' s' p :
  vinv g s → vinv g' s' → r ∈ roots g → freed r g s g' s' →
  own g' p = OFree ↔ own g p = OFree ∨ exclusive r g p.
Proof.
  intros V V' Hr [f1 f2 f3 f4 f5 f6 f7 f8].
  assert (own g p = ONone ↔ own g' p = ONone) as Hn.
  { pose proof (ti_page _ _ (vi_t _ _ V) p) as E. pose proof (ti_page _ _ (vi_t _ _ V') p) as E'. destruct (own g p), (own g' p); naive_solver. }
  assert (∀ r' v, r' ∈ roots g → r' ≠ r → 0 ≤ v < UPAGES → upte s' r' v = upte s r' v) as EP.
  { intros r' v Hr' Hne Hv. apply f3; [by apply (root_label _ _ V)|done|by apply vpage_va, upage_vpage]. }
  split.
  - intros Hf. destruct (own g p) as [| |r' l pre|] eqn:Ho; [by rewrite (proj1 Hn eq_refl) in Hf|by left|right..].
    + destruct (decide (r' = r)) as [->|Hne]; [left; eauto|]. by rewrite (f7 _ _ _ _ Ho Hne) in Hf.
    + right. split; [done|]. split.
      * destruct (decide (1 ≤ kref g p)) as [Hk|Hk]; [by rewrite f6 in Hf|]. pose proof (ri_nonneg _ _ _ (vi_r _ _ V) p). lia.
      * intros r' v Hin. destruct (decide (r' = r)) as [|Hne]; [done|]. destruct (ri_refs _ _ _ (vi_r _ _ V) p r' v Hin) as (Hr' & Hv & HV & <-).
        rewrite <-EP in HV, Hf by done. destruct (ri_leaf _ _ _ (vi_r _ _ V') r' v) as [Hd _]; [rewrite f1; set_solver|done|done|congruence].
  - intros Hf. destruct (own g' p) as [| |r' l pre|] eqn:Ho; [|done|..].
    + destruct Hf as [Hf|[(l & pre & Hf)|[Hf _]]]; rewrite (proj2 Hn eq_refl) in Hf; done.
    + pose proof (f8 _ _ _ _ Ho) as Ho'. destruct Hf as [Hf|[(l' & pre' & Hf)|[Hf _]]]; [congruence| |congruence].
      rewrite Ho' in Hf. injection Hf as -> _ _. by destruct (f4 p l pre).
    + destruct (f5 p Ho) as (Ho' & Hk & _). destruct Hf as [Hf|[(l & pre & Hf)|(_ & Hk0 & Hex)]]; [congruence..|].
      destruct (data_used _ _ _ V' Ho) as [|(r' & v & Hin)]; [lia|]. destruct (ri_refs _ _ _ (vi_r _ _ V') p r' v Hin) as (Hr' & Hv & HV & E).
      rewrite f1 in Hr'. apply elem_of_difference in Hr' as [Hr' Hne%not_elem_of_singleton]. rewrite EP in HV, E by done.
      destruct Hne. apply (Hex r' v). rewrite <-E. by apply (ri_leaf _ _ _ (vi_r _ _ V)).
Qed.

Lemma leaf_entry g s r q pre i :
  vinv g s → own g q = OPT r 0 pre → 0 ≤ i < 512 →
  0 ≤ pre * 512 + i < VPAGES ∧ load64 (mem s) (q + 8 * i) = upte s r (pre * 512 + i).
Proof.
  intros V Hq Hi. destruct (ti_level _ _ (vi_t _ _ V) _ _ _ _ Hq) as (_ & _ & Hp & Hb).
  rewrite Z.mul_1_r in Hb. assert (0 ≤ pre * 512 + i < VPAGES) as Hv by (change VPAGES with (2 ^ 26); lia).
  split; [done|]. pose proof (pfx0_PX0 ((pre * 512 + i) * PGSIZE)) as E. rewrite div_page in E.
  assert (0 ≤ PX 0 ((pre * 512 + i) * PGSIZE) < 512) by (apply PX_range; lia).
  assert (pfx 0 ((pre * 512 + i) * PGSIZE) = pre ∧ PX 0 ((pre * 512 + i) * PGSIZE) = i) as [Ep Ei] by lia.
  unfold upte, pte_at. rewrite (slot_complete g s (vi_t _ _ V) q) by (by rewrite Ep). rewrite Ei.
  assert (page_ok q) as Hqp%page_ok_pos by (by eapply own_OPT_page; [apply V|]).
  destruct (Z.eqb_spec (q + 8 * i) 0); [lia|done].
Qed.

Lemma unmapped_leafless g s r : vinv g s → (∀ v, 0 ≤ v < VPAGES → has (upte s r v) PTE_V = false) → leafless r g s.
Proof.
  intros V Hno q pre Hq i Hi. destruct (leaf_entry g s r q pre i V Hq Hi) as [Hv ->]. by apply Hno.
Qed.

(** Taking apart the table of an address space that maps nothing. *)
Lemma wp_freewalk_root g s r Q :
  vinv g s → r ∈ roots g → (∀ v, 0 ≤ v < VPAGES → has (upte s r v) PTE_V = false) →
  (∀ g' s', vinv g' s' → freed r g s g' s' → Q tt s') →
  wp (freewalk 3 r) s Q.
Proof.
  intros V Hr Hno HQ. pose proof (root_label _ _ V r Hr) as Hrl.
  eapply (wp_freewalk 2 r g s r 0); [done|done|by apply unmapped_leafless|].
  intros g1 s1 V1 P Hr1 Hn1. pose proof (ur_vinv g1 s1 r V1 Hr1 Hn1) as V2.
  pose proof (ri_pt _ _ _ (vi_r _ _ V1) _ _ _ _ Hr1) as Hk.
  assert (refs g1 r = ∅) as Hrf by (eapply nondata_no_refs; [exact V1|congruence]).
  assert (own (g_unroot r g1) r = OData) as Ho by (cbn [own g_unroot]; apply fn_lookup_insert).
  assert (vinv (g_drop r (g_unroot r g1)) (kfree_state r s1)) as V3.
  { apply vinv_drop; [done|done|]. cbn [kref g_unroot]. lia. }
  assert (∀ p, own (g_drop r (g_unroot r g1)) p = if decide (p = r) then OFree else own g1 p) as Eo.
  { intros p. unfold g_drop. cbn [refs kref g_unroot]. rewrite Hrf, Hk, size_empty, decide_True by done.
    cbn [own g_free g_unroot]. case_decide as E; [subst; apply fn_lookup_insert|]. by rewrite !fn_lookup_insert_ne. }
  assert (∀ p, own g1 p = OData → p ≠ r) as Hpr by congruence.
  assert (∀ p x, own g1 p = OData → p ≤ x < p + PGSIZE → mem (kfree_state r s1) x = mem s1 x) as Hm.
  { intros p x Hp Hx. apply (kfree_state_mem _ _ V2 r p); [done| |done]. rewrite Eo, decide_False; auto. }
  assert (∀ r' v, own g r' = OPT r' 2 0 → r' ≠ r → 0 ≤ v * PGSIZE < MAXVA →
    upte (kfree_state r s1) r' v = upte s r' v) as EP.
  { intros r' v Hr' Hne Hv.
    assert (own (g_unroot r g1) r' = OPT r' 2 0) as Hu.
    { cbn [own g_unroot]. rewrite fn_lookup_insert_ne by done. apply (pr_keep _ _ _ _ _ _ _ P); auto. }
    rewrite (drop_ptes _ _ V2 r) by auto. apply (pruned_upte r 2 r g s g1); auto. }
  apply (HQ (g_drop r (g_unroot r g1))); [done|]. split; [| |done|..].
  - rewrite g_drop_roots. cbn [roots g_unroot]. by rewrite (pr_roots _ _ _ _ _ _ _ P).
  - intros r' va Hr' Hne Hva. pose proof (va_vpage va Hva) as Hp.
    eapply (uread_same g s _ _ _ _ _ V Hr' Hva eq_refl (EP r' _ (root_label _ _ V r' Hr') Hne (vpage_va _ Hp))); [done|done|].
    intros Hu HV k Hk'. destruct (ri_leaf _ _ _ (vi_r _ _ V) r' _ Hr' Hu HV) as [Hd _].
    destruct (pr_data _ _ _ _ _ _ _ P _ Hd) as (Hd1 & _ & Hm1).
    rewrite (Hm (PTE2PA (upte s r' (va / PGSIZE)))) by (done || lia). apply Hm1. lia.
  - intros p l pre. rewrite Eo. case_decide as E; [done|]. intros Hp. apply E. by eapply (ur_only g1 s1).
  - intros p. rewrite Eo. case_decide as E; [done|]. intros Hp. pose proof (pr_own _ _ _ _ _ _ _ P p Hp) as Hp0.
    destruct (pr_data _ _ _ _ _ _ _ P p Hp0) as (_ & Hk' & Hm1). split; [done|]. split.
    + rewrite g_drop_kref_ne by done. exact Hk'.
    + intros x Hx. rewrite (Hm p) by done. by apply Hm1.
  - intros p Hp _. destruct (pr_data _ _ _ _ _ _ _ P p Hp) as (Hp1 & _). rewrite Eo, decide_False; auto.
  - intros p r' l pre Hp Hne. rewrite Eo. pose proof (pr_keep _ _ _ _ _ _ _ P p r' l pre Hp (or_introl Hne)) as Hp1.
    rewrite decide_False; [done|]. intros ->. congruence.
  - intros p r' l pre. rewrite Eo. case_decide; [done|]. apply (pr_back _ _ _ _ _ _ _ P).
Qed.

Lemma unmapped_freed g s g1 s1 g2 s2 r hi :
  vinv g s → vinv g1 s1 → r ∈ roots g → unmapped r 0 hi g s g1 s1 → freed r g1 s1 g2 s2 → freed r g s g2 s2.
Proof.
  intros V V1 Hr [u1 u2 u3 u4 u5 u6] [f1 f2 f3 f4 f5 f6 f7 f8].
  assert (∀ r' v, own g r' = OPT r' 2 0 → r' ≠ r → 0 ≤ v * PGSIZE < MAXVA → upte s1 r' v = upte s r' v) as EP.
  { intros r' v Hr' Hne Hv. apply u5; [done|done|by intros [? _]]. }
  rewrite u1 in *. split; [done| | |done|..].
  - intros r' va Hr' Hne Hva. rewrite f2 by done. pose proof (va_vpage va Hva) as Hp.
    eapply (uread_same g s _ _ _ _ _ V Hr' Hva eq_refl (EP r' _ (root_label _ _ V r' Hr') Hne (vpage_va _ Hp))); [done|done|].
    intros Hu HV k Hk. destruct (ri_leaf _ _ _ (vi_r _ _ V1) r' (va / PGSIZE)) as [Ho _];
      [by rewrite u1|done|by rewrite EP by (auto using vpage_va; by apply (root_label _ _ V))|].
    rewrite EP in Ho by (auto using vpage_va; by apply (root_label _ _ V)). apply (u3 _ Ho). lia.
  - intros r' v Hr' Hne Hv. rewrite f3 by (done || by apply u2). by apply EP.
  - intros p Hp. destruct (f5 p Hp) as (Hp1 & Hk1 & Hm1). destruct (u3 p Hp1) as (? & <- & Hm).
    split_and!; try done. intros x Hx. rewrite Hm1; auto.
  - intros p Hp Hk. pose proof (u4 p Hp Hk) as Hp1. destruct (u3 p Hp1) as (_ & E & _). apply f6; [done|lia].
  - intros p r' l pre Hp Hne. apply f7; [by apply u2|done].
  - intros p r' l pre Hp. by apply u2, f8.
Qed.

Lemma wp_uvmfree g s r sz Q :
  vinv g s → r ∈ roots g → 0 ≤ sz ≤ TRAPFRAME →
  (∀ v, npg sz ≤ v < VPAGES → has (upte s r v) PTE_V = false) →
  (∀ g' s', vinv g' s' → freed r g s g' s' → Q tt s') →
  wp (uvmfree r sz) s Q.
Proof.
  intros V Hr Hsz Hno HQ. unfold uvmfree. apply wp_bind, wp_when; intros Hb; breflect.
  - pose proof (npg_range sz Hsz) as Hn. fold (npg sz).
    apply (wp_uvmunmap g s r 0 (npg sz)); [done|done|lia|lia|lia|]. rewrite Z.add_0_l. intros g1 s1 V1 U.
    apply (wp_freewalk_root g1); [done|by rewrite (um_roots _ _ _ _ _ _ _ U)| |].
    + intros v Hv. destruct (decide (v < npg sz)); [apply (um_inv _ _ _ _ _ _ _ U); lia|].
      rewrite (um_pte _ _ _ _ _ _ _ U); [apply Hno; lia|by apply (root_label _ _ V)|by apply vpage_va|lia].
    + intros g2 s2 V2 F. apply (HQ g2); [done|]. by eapply (unmapped_freed g s g1 s1).
  - assert (npg sz = 0) as E by (assert (sz = 0) as -> by lia; done). rewrite E in Hno.
    apply (wp_freewalk_root g); auto.
Qed.

End free.
