(* ===== verification/ProcVm.v ===== *)
(** * The page table of a process

    [proc_pagetable] and [proc_freepagetable] of proc.c: an empty address space
    with the trampoline and the trapframe mapped at its top, and its end. *)

From S2P Require Import Prelude Riscv Memory Kalloc Vm VmInv VmWalk VmRef VmOps Cow VmUser VmRoot VmFree.

Section procvm.
Context `{Layout}.

Definition proc_pagetable (trapframe : Z) : M kmem Z :=
  pagetable ← uvmcreate;
  if pagetable =? 0 then mret 0 else
  r ← mappages pagetable TRAMPOLINE PGSIZE trampoline (Z.lor PTE_R PTE_X);
  if r <? 0 then uvmfree pagetable 0 ;; mret 0 else
  r ← mappages pagetable TRAPFRAME PGSIZE trapframe (Z.lor PTE_R PTE_W);
  if r <? 0 then
    uvmunmap pagetable TRAMPOLINE 1 false ;;
    uvmfree pagetable 0 ;;
    mret 0
  else mret pagetable.

Definition proc_freepagetable (pagetable sz : Z) : M kmem unit :=
  uvmunmap pagetable TRAMPOLINE 1 false ;;
  uvmunmap pagetable TRAPFRAME 1 false ;;
  uvmfree pagetable sz.

(** ** What creating and freeing tables leaves unchanged *)

Record keeps (g : ghost) (s : kmem) (g' : ghost) (s' : kmem) : Prop := {
  kp_pt p r l pre : own g p = OPT r l pre → own g' p = OPT r l pre;
  kp_data p : own g p = OData → own g' p = OData ∧ kref g' p = kref g p ∧
    ∀ x, p ≤ x < p + PGSIZE → mem s' x = mem s x;
  kp_own p : own g' p = OData → own g p = OData;
  kp_ptes : same_ptes g (upte s) (upte s');
}.

Context `{!LayoutOk}.

Lemma keeps_refl g s : keeps g s g s.
Proof. split; auto. by intros ??. Qed.

Lemma keeps_trans g s g1 s1 g2 s2 : keeps g s g1 s1 → keeps g1 s1 g2 s2 → keeps g s g2 s2.
Proof.
  intros [a1 a2 a3 a4] [b1 b2 b3 b4]. split; eauto.
  - intros p Hp. destruct (a2 p Hp) as (Hp1 & <- & Hm). destruct (b2 p Hp1) as (? & <- & Hm1).
    split_and!; try done. intros x Hx. rewrite Hm1; auto.
  - intros r v Hr Hv. rewrite b4 by auto. by apply a4.
Qed.

Lemma keeps_grows g s g1 s1 : grows g s g1 s1 → keeps g s g1 s1.
Proof.
  intros G. split; [apply G| |apply G|by eapply grows_same_ptes].
  intros p Hp. destruct (gr_data _ _ _ _ G p Hp). split_and!; try done. intros x Hx. by apply (gr_mem _ _ _ _ G p).
Qed.

Lemma keeps_reads g s g' s' : vinv g s → keeps g s g' s' → reads_same g s s'.
Proof.
  intros V K r va Hr Hva. pose proof (va_vpage va Hva) as Hp.
  eapply (uread_same g s _ _ _ _ _ V Hr Hva eq_refl); [|done|done|].
  - apply (kp_ptes _ _ _ _ K); [by apply (root_label _ _ V)|by apply vpage_va].
  - intros Hu HV k Hk. destruct (ri_leaf _ _ _ (vi_r _ _ V) r _ Hr Hu HV) as [Ho _].
    apply (kp_data _ _ _ _ K _ Ho). lia.
Qed.

(** Writing an entry of a table that is not one of [g]. *)
Lemma keeps_set_pte g s g1 s1 r v e :
  vinv g1 s1 → keeps g s g1 s1 → own g r = OFree → own g1 r = OPT r 2 0 → 0 ≤ v * PGSIZE < MAXVA →
  slot 2 (mem s1) r (v * PGSIZE) ≠ 0 → 0 ≤ e < 2 ^ 64 → keeps g s g1 (set_pte r (v * PGSIZE) e s1).
Proof.
  intros V1 K Hfr Hr Hv Hs He. split; [apply K| |apply K|].
  - intros p Hp. destruct (kp_data _ _ _ _ K p Hp) as (Hp1 & Hk & Hm). split_and!; try done.
    intros x Hx. rewrite <-Hm by done. by apply (set_pte_data g1 s1 r (v * PGSIZE) e p); [apply V1|..].
  - intros r' v' Hr' Hv'. rewrite (upte_set_pte g1) by (eauto using vi_t, kp_pt).
    rewrite upd2_ne by congruence. by apply (kp_ptes _ _ _ _ K).
Qed.

(** Freeing a table that is not one of [g]. *)
Lemma keeps_freed g s g1 s1 g2 s2 r :
  vinv g s → vinv g1 s1 → vinv g2 s2 → keeps g s g1 s1 → roots g1 = {[r]} ∪ roots g → r ∉ roots g →
  own g r = OFree → freed r g1 s1 g2 s2 → keeps g s g2 s2 ∧ roots g2 = roots g.
Proof.
  intros V V1 V2 [a1 a2 a3 a4] Er Hnr Hfr [f1 f2 f3 f4 f5 f6 f7 f8].
  assert (roots g2 = roots g) as Er2 by (rewrite f1, Er; set_solver). split; [|done].
  assert (same_ptes g (upte s) (upte s2)) as EP.
  { intros r' v Hr' Hv. rewrite f3; [by apply a4|by apply a1|congruence|done]. }
  split.
  - intros p r' l pre Hp. apply f7; [auto|]. intros ->.
    destruct (ti_level _ _ (vi_t _ _ V) _ _ _ _ Hp) as (_ & Hr & _). congruence.
  - intros p Hp. destruct (a2 p Hp) as (Hp1 & Hk & Hm).
    assert (own g2 p = OData) as Hp2.
    { destruct (decide (1 ≤ kref g1 p)) as [Hk1|Hk1]; [by apply f6|].
      pose proof (count_pos _ _ V p Hp) as Hc.
      rewrite (ri_count _ _ _ (vi_r _ _ V)) in Hc by (by eapply own_OData_page, Hp; apply V).
      destruct (set_choose_or_empty (refs g p)) as [[[r' v] Hin]|He%size_empty_iff]; [|lia].
      destruct (ri_refs _ _ _ (vi_r _ _ V) p r' v Hin) as (Hr' & Hv & HV & <-).
      rewrite <-EP in HV |- * by (auto using upage_va; by apply (root_label _ _ V)).
      apply (ri_leaf _ _ _ (vi_r _ _ V2) r' v); [by rewrite Er2|done|done]. }
    destruct (f5 p Hp2) as (_ & Hk2 & Hm2). split_and!; [done|congruence|]. intros x Hx. rewrite Hm2; auto.
  - intros p Hp. apply a3. by apply f5.
  - done.
Qed.

(** ** The top of an address space *)

Definition TPAGE : Z := TRAMPOLINE / PGSIZE.

Lemma trampoline_page : TRAMPOLINE = TPAGE * PGSIZE ∧ UPAGES ≤ TPAGE < VPAGES.
Proof. by vm_compute. Qed.
Lemma trapframe_page : TRAPFRAME = UPAGES * PGSIZE ∧ UPAGES ≤ UPAGES < VPAGES ∧ UPAGES ≠ TPAGE.
Proof. by vm_compute. Qed.
Lemma trampoline_paddr : paddr trampoline.
Proof.
  pose proof trampoline_aligned. pose proof trampoline_range. pose proof etext_range. pose proof kend_range.
  split; [done|]. change PHYSTOP with (KERNBASE + 134217728) in *. unfold KERNBASE, PGSIZE in *. lia.
Qed.

(** Clearing an entry of the top without freeing the page. *)
Lemma wp_uvmunmap_high g s r v Q :
  vinv g s → own g r = OPT r 2 0 → UPAGES ≤ v < VPAGES →
  (∀ s', vinv g s' → s' = s ∨ slot 2 (mem s) r (v * PGSIZE) ≠ 0 ∧ s' = set_pte r (v * PGSIZE) 0 s →
     has (upte s' r v) PTE_V = false → Q tt s') →
  wp (uvmunmap r (v * PGSIZE) 1 false) s Q.
Proof.
  intros V Hr Hv HQ. assert (0 ≤ UPAGES) as Hu0 by done. assert (0 ≤ v < VPAGES) as Hv0 by lia.
  pose proof (vpage_va v Hv0) as Hva. unfold uvmunmap.
  assert (v * PGSIZE mod PGSIZE = 0) as -> by (unfold PGSIZE; dlia). cbn [Z.eqb negb].
  assert (pages_between (v * PGSIZE) (u64 (v * PGSIZE + u64 (1 * PGSIZE))) = 1%nat) as ->.
  { change MAXVA with (2 ^ 38) in Hva. unfold pages_between, PGSIZE in *.
    rewrite (u64_small (1 * 4096)) by lia. rewrite u64_small by lia.
    replace (v * 4096 + 1 * 4096 - v * 4096) with 4096 by lia. done. }
  cbn [for_up]. wp_steps. unfold uvmunmap_page. wp_steps. apply wp_walk; [lia|].
  destruct (Z.eqb_spec (slot 2 (mem s) r (v * PGSIZE)) 0) as [Es|Es].
  { apply wp_ret, wp_ret, HQ; [done|by left|]. unfold upte, pte_at. by rewrite Es. }
  unfold read64. wp_steps. assert (load64 (mem s) (slot 2 (mem s) r (v * PGSIZE)) = upte s r v) as ->.
  { unfold upte, pte_at. by destruct (Z.eqb_spec (slot 2 (mem s) r (v * PGSIZE)) 0). }
  destruct (has (upte s r v) PTE_V) eqn:HV; cbn [negb]; [|apply wp_ret, wp_ret, HQ; auto].
  cbn [when]. unfold write64. wp_steps. apply HQ.
  - by apply vinv_set_pte_high.
  - by right.
  - change (has (upte (set_pte r (v * PGSIZE) 0 s) r v) PTE_V = false).
    by rewrite (upte_set_pte g), upd2_eq by (done || apply V).
Qed.

(** ** [proc_pagetable] *)

Record created (tf r : Z) (g : ghost) (s : kmem) (g' : ghost) (s' : kmem) : Prop := {
  cr_keeps : keeps g s g' s';
  cr_roots : roots g' = {[r]} ∪ roots g;
  cr_new : own g r = OFree;
  cr_user v : 0 ≤ v < UPAGES → has (upte s' r v) PTE_V = false;
  cr_tramp : upte s' r TPAGE = mk_pte trampoline (Z.lor PTE_R PTE_X);
  cr_tf : upte s' r UPAGES = mk_pte tf (Z.lor PTE_R PTE_W);
}.

Lemma new_root_keeps g s p fl :
  vinv g s → gfl g = p :: fl → keeps g s (g_root p (g_alloc p fl g)) (zeroed p s).
Proof.
  intros V Hfl. pose proof (fresh_stable g s p fl V Hfl) as [b1 b2 b3]. pose proof (fresh_free g s p fl V Hfl) as Hfr.
  assert (∀ q, q ≠ p → own (g_root p (g_alloc p fl g)) q = own g q) as Eo.
  { intros q Hq. cbn [own g_root g_alloc]. by rewrite !fn_lookup_insert_ne by congruence. }
  split.
  - intros q r l pre Hq. rewrite Eo; [done|congruence].
  - intros q Hq. destruct (b3 q Hq) as (_ & ? & _ & ?). rewrite Eo by congruence. done.
  - intros q. destruct (decide (q = p)) as [->|]; [|by rewrite Eo].
    cbn [own g_root]. by rewrite fn_lookup_insert.
  - by eapply fresh_same_ptes.
Qed.

(** The table [r] being built on top of [g]. *)
Definition building (r : Z) (g : ghost) (s : kmem) (g1 : ghost) (s1 : kmem) : Prop :=
  vinv g1 s1 ∧ keeps g s g1 s1 ∧ roots g1 = {[r]} ∪ roots g ∧ own g r = OFree.

Section build.
Context (g : ghost) (s : kmem) (r : Z).
Hypothesis V : vinv g s.

Lemma building_root g1 s1 : building r g s g1 s1 → own g1 r = OPT r 2 0 ∧ r ∈ roots g1 ∧ r ∉ roots g.
Proof.
  intros (V1 & _ & Er & Hfr). assert (r ∈ roots g1) as Hr by (rewrite Er; set_solver).
  split_and!; [by apply (root_label _ _ V1)|done|]. intros Hin%(root_label _ _ V). congruence.
Qed.

Lemma wp_abandon Q g1 s1 :
  (∀ g' s', vinv g' s' → keeps g s g' s' → roots g' = roots g → Q 0 s') →
  building r g s g1 s1 → (∀ v, 0 ≤ v < VPAGES → has (upte s1 r v) PTE_V = false) →
  wp (uvmfree r 0 ;; mret 0) s1 Q.
Proof.
  intros Hfail B Hno. destruct (building_root _ _ B) as (_ & Hr & Hnr). destruct B as (V1 & K & Er & Hfr).
  apply wp_bind, (wp_uvmfree g1); [done|done|by vm_compute|exact Hno|].
  intros g2 s2 V2 F. apply wp_ret. destruct (keeps_freed g s g1 s1 g2 s2 r) as [? ?]; auto.
  apply (Hfail g2); auto.
Qed.

Lemma building_grows g1 s1 g2 s2 : building r g s g1 s1 → vinv g2 s2 → grows g1 s1 g2 s2 → building r g s g2 s2.
Proof.
  intros (V1 & K & Er & Hfr) V2 G. split_and!; auto.
  - eapply keeps_trans; eauto using keeps_grows.
  - by rewrite (gr_roots _ _ _ _ G).
Qed.

Lemma building_set g1 s1 v e :
  building r g s g1 s1 → UPAGES ≤ v < VPAGES → slot 2 (mem s1) r (v * PGSIZE) ≠ 0 → 0 ≤ e < 2 ^ 64 →
  has e PTE_U = false → building r g s g1 (set_pte r (v * PGSIZE) e s1).
Proof.
  intros B Hv Hs He HU. destruct (building_root _ _ B) as (Hrl & _). destruct B as (V1 & K & Er & Hfr).
  assert (0 ≤ UPAGES) as Hu0 by done. assert (0 ≤ v < VPAGES) as Hv0 by lia. split_and!; auto.
  - by apply vinv_set_pte_high.
  - apply keeps_set_pte; auto using vpage_va.
Qed.

Lemma building_upte g1 s1 v e v' :
  building r g s g1 s1 → UPAGES ≤ v < VPAGES → slot 2 (mem s1) r (v * PGSIZE) ≠ 0 → 0 ≤ e < 2 ^ 64 → 0 ≤ v' < VPAGES →
  upte (set_pte r (v * PGSIZE) e s1) r v' = if decide (v' = v) then e else upte s1 r v'.
Proof.
  intros B Hv Hs He Hv'. destruct (building_root _ _ B) as (Hrl & _). destruct B as (V1 & _).
  assert (0 ≤ UPAGES) as Hu0 by done. assert (0 ≤ v < VPAGES) as Hv0 by lia.
  rewrite (upte_set_pte g1) by (done || (apply V1) || by apply vpage_va). unfold upd2.
  case_decide as H1; case_decide as H2; naive_solver.
Qed.
End build.

Lemma high_entry pa perm :
  paddr pa → user_perm perm → has perm PTE_U = false →
  0 ≤ mk_pte pa perm < 2 ^ 64 ∧ has (mk_pte pa perm) PTE_U = false.
Proof. intros. split; [by apply mk_pte_range|]. by rewrite fresh_entry. Qed.

(** The trapframe page, and the ways [proc_pagetable] can go from there. *)
Lemma wp_map_trapframe g s r tf g1 s1 Q :
  vinv g s → paddr tf → building r g s g1 s1 → r ≠ 0 →
  (∀ v, 0 ≤ v < VPAGES → v ≠ TPAGE → has (upte s1 r v) PTE_V = false) →
  upte s1 r TPAGE = mk_pte trampoline (Z.lor PTE_R PTE_X) →
  (∀ g' s', vinv g' s' → keeps g s g' s' → roots g' = roots g → Q 0 s') →
  (∀ g' s', vinv g' s' → created tf r g s g' s' → Q r s') →
  wp (c ← mappages r TRAPFRAME PGSIZE tf (Z.lor PTE_R PTE_W);
      if c <? 0 then uvmunmap r (TPAGE * PGSIZE) 1 false ;; uvmfree r 0 ;; mret 0 else mret r) s1 Q.
Proof.
  intros V Htf B Hr0 Hno Htr Hfail Hok. destruct trampoline_page as [Et Ht]. destruct trapframe_page as (Ef & Hf & Hne).
  destruct (building_root g s r V _ _ B) as (Hrl & _). assert (0 ≤ UPAGES) as Hu0 by done.
  rewrite Ef. apply wp_bind, (wp_mappages1 g1); [apply B|done|apply vpage_va; lia|unfold PGSIZE; dlia|..].
  - apply Hno; [lia|done].
  - intros g2 s2 V2 G _. cbn [Z.ltb Z.compare]. pose proof (building_grows g s r _ _ _ _ B V2 G) as B2.
    assert (∀ v, 0 ≤ v < VPAGES → upte s2 r v = upte s1 r v) as E2.
    { intros v Hv. apply (grows_same_ptes _ _ _ _ G); [done|by apply vpage_va]. }
    apply wp_bind, (wp_uvmunmap_high g2); [done|by apply (building_root g s r V _ _ B2)|done|].
    intros s3 V3 Hs3 Hz. destruct Hs3 as [->|[Hs ->]].
    + apply (wp_abandon g s r V Q g2); [done|done|]. intros v Hv.
      destruct (decide (v = TPAGE)) as [->|]; [done|]. rewrite E2 by done. by apply Hno.
    + apply (wp_abandon g s r V Q g2); [done|by apply building_set|]. intros v Hv.
      rewrite (building_upte g s r V g2) by done. case_decide as E; [done|]. rewrite E2 by done. by apply Hno.
  - intros g2 s2 V2 G Hs. cbn [Z.ltb Z.compare]. fold (mk_pte tf (Z.lor PTE_R PTE_W)).
    pose proof (building_grows g s r _ _ _ _ B V2 G) as B2.
    destruct (high_entry tf (Z.lor PTE_R PTE_W) Htf ltac:(done) eq_refl) as [He HU].
    apply wp_ret, (Hok g2); [by apply (building_set g s r V g2)|].
    assert (∀ v, 0 ≤ v < VPAGES → upte (set_pte r (UPAGES * PGSIZE) (mk_pte tf (Z.lor PTE_R PTE_W)) s2) r v =
      if decide (v = UPAGES) then mk_pte tf (Z.lor PTE_R PTE_W) else upte s1 r v) as E3.
    { intros v Hv. rewrite (building_upte g s r V g2) by done. case_decide; [done|].
      apply (grows_same_ptes _ _ _ _ G); [done|by apply vpage_va]. }
    split.
    + by apply (building_set g s r V g2).
    + apply B2.
    + apply B2.
    + intros v Hv. rewrite E3 by (by apply upage_vpage). rewrite decide_False by lia. apply Hno; [by apply upage_vpage|lia].
    + rewrite E3 by lia. by rewrite decide_False.
    + rewrite E3 by lia. by rewrite decide_True.
Qed.

Lemma wp_proc_pagetable g s tf Q :
  vinv g s → paddr tf →
  (∀ g' s', vinv g' s' → keeps g s g' s' → roots g' = roots g → Q 0 s') →
  (∀ g' s' r, r ≠ 0 → vinv g' s' → created tf r g s g' s' → Q r s') →
  wp (proc_pagetable tf) s Q.
Proof.
  intros V Htf Hfail Hok. unfold proc_pagetable. destruct trampoline_page as [Et Ht]. assert (0 ≤ UPAGES) as Hu0 by done.
  apply wp_bind, (wp_uvmcreate g); [done|intros _; apply wp_ret, (Hfail g); auto using keeps_refl|].
  intros r fl Hfl Hr0 Hfr V1 _ Hz. destruct (Z.eqb_spec r 0) as [|_]; [done|].
  assert (building r g s (g_root r (g_alloc r fl g)) (zeroed r s)) as B by (split_and!; auto using new_root_keeps).
  destruct (building_root g s r V _ _ B) as (Hrl & _).
  rewrite Et. apply wp_bind, (wp_mappages1 (g_root r (g_alloc r fl g))); [done|done|apply vpage_va; lia|unfold PGSIZE; dlia|..].
  - fold (upte (zeroed r s) r TPAGE). by rewrite Hz.
  - intros g2 s2 V2 G _. cbn [Z.ltb Z.compare]. apply (wp_abandon g s r V Q g2); [done|..].
    + by eapply building_grows.
    + intros v Hv. rewrite (grows_same_ptes _ _ _ _ G); [by rewrite Hz|done|by apply vpage_va].
  - intros g2 s2 V2 G Hs. cbn [Z.ltb Z.compare]. fold (mk_pte trampoline (Z.lor PTE_R PTE_X)).
    pose proof (building_grows g s r _ _ _ _ B V2 G) as B2.
    destruct (high_entry trampoline (Z.lor PTE_R PTE_X) trampoline_paddr ltac:(done) eq_refl) as [He HU].
    assert (∀ v, 0 ≤ v < VPAGES → upte (set_pte r (TPAGE * PGSIZE) (mk_pte trampoline (Z.lor PTE_R PTE_X)) s2) r v =
      if decide (v = TPAGE) then mk_pte trampoline (Z.lor PTE_R PTE_X) else 0) as E3.
    { intros v Hv. rewrite (building_upte g s r V g2) by done. case_decide; [done|].
      rewrite (grows_same_ptes _ _ _ _ G); [by rewrite Hz|done|by apply vpage_va]. }
    apply (wp_map_trapframe g s r tf g2); auto.
    + by apply building_set.
    + intros v Hv Hne. rewrite E3 by done. by rewrite decide_False.
    + intros g3 s3 V3 C. by apply (Hok g3).
Qed.

(** ** [proc_freepagetable] *)

(** The pages of [r] above its size are unmapped, but for the two at the top. *)
Definition topped (s : kmem) (r sz : Z) : Prop :=
  ∀ v, npg sz ≤ v < UPAGES → has (upte s r v) PTE_V = false.

Lemma high_pages v : UPAGES ≤ v < VPAGES → v = UPAGES ∨ v = TPAGE.
Proof. change UPAGES with (2 ^ 26 - 2). change VPAGES with (2 ^ 26). change TPAGE with (2 ^ 26 - 1). lia. Qed.

Lemma unmap_high_freed g s s1 r v g2 s2 :
  vinv g s → r ∈ roots g → UPAGES ≤ v < VPAGES →
  s1 = s ∨ slot 2 (mem s) r (v * PGSIZE) ≠ 0 ∧ s1 = set_pte r (v * PGSIZE) 0 s →
  freed r g s1 g2 s2 → freed r g s g2 s2.
Proof.
  intros V Hr Hv [->|[Hs ->]] F; [done|]. pose proof (root_label _ _ V r Hr) as Hrl.
  assert (0 ≤ UPAGES) as Hu0 by done. assert (0 ≤ v * PGSIZE < MAXVA) as Hva by (apply vpage_va; lia).
  destruct F as [f1 f2 f3 f4 f5 f6 f7 f8].
  assert (∀ r' v', own g r' = OPT r' 2 0 → r' ≠ r → 0 ≤ v' * PGSIZE < MAXVA →
    upte (set_pte r (v * PGSIZE) 0 s) r' v' = upte s r' v') as EP.
  { intros r' v' Hr' Hne Hv'. rewrite (upte_set_pte g) by (done || apply V). by rewrite upd2_ne by congruence. }
  assert (∀ p x, own g p = OData → p ≤ x < p + PGSIZE → mem (set_pte r (v * PGSIZE) 0 s) x = mem s x) as Hm.
  { intros p x Hp Hx. by apply (set_pte_data g s r (v * PGSIZE) 0 p); [apply V|..]. }
  split; try done.
  - intros r' va Hr' Hne Hva'. rewrite f2 by done. pose proof (va_vpage va Hva') as Hp.
    eapply (uread_same g s _ _ _ _ _ V Hr' Hva' eq_refl (EP r' _ (root_label _ _ V r' Hr') Hne (vpage_va _ Hp))); [done|done|].
    intros Hu HV k Hk. destruct (ri_leaf _ _ _ (vi_r _ _ V) r' _ Hr' Hu HV) as [Ho _]. apply (Hm _ _ Ho). lia.
  - intros r' v' Hr' Hne Hv'. rewrite f3 by done. by apply EP.
  - intros p Hp. destruct (f5 p Hp) as (Hp1 & Hk & Hm1). split_and!; try done. intros x Hx. rewrite Hm1 by done. by apply (Hm p).
Qed.

Lemma wp_proc_freepagetable g s r sz Q :
  vinv g s → r ∈ roots g → 0 ≤ sz ≤ TRAPFRAME → topped s r sz →
  (∀ g' s', vinv g' s' → freed r g s g' s' → Q tt s') →
  wp (proc_freepagetable r sz) s Q.
Proof.
  intros V Hr Hsz Htop HQ. unfold proc_freepagetable. pose proof (root_label _ _ V r Hr) as Hrl.
  destruct trampoline_page as [Et Ht]. destruct trapframe_page as (Ef & Hf & Hne). rewrite Et, Ef.
  assert (0 ≤ UPAGES) as Hu0 by done. pose proof (npg_range sz Hsz) as Hn.
  apply wp_bind, (wp_uvmunmap_high g); [done..|]. intros s1 V1 Hs1 Hz1.
  apply wp_bind, (wp_uvmunmap_high g); [done..|]. intros s2 V2 Hs2 Hz2.
  assert (0 ≤ TPAGE * PGSIZE < MAXVA) as Hta by (apply vpage_va; lia).
  assert (0 ≤ UPAGES * PGSIZE < MAXVA) as Hfa by (apply vpage_va; lia).
  assert (0 ≤ 0 < 2 ^ 64) as H64 by lia.
  assert (∀ v, 0 ≤ v < VPAGES → v ≠ TPAGE → upte s1 r v = upte s r v) as E1.
  { intros v Hv Hvt. destruct Hs1 as [->|[Hs ->]]; [done|].
    rewrite (upte_set_pte g s) by auto using vi_t, vpage_va. by rewrite upd2_ne by congruence. }
  assert (∀ v, 0 ≤ v < VPAGES → v ≠ UPAGES → upte s2 r v = upte s1 r v) as E2.
  { intros v Hv Hvt. destruct Hs2 as [->|[Hs ->]]; [done|].
    rewrite (upte_set_pte g s1) by auto using vi_t, vpage_va. by rewrite upd2_ne by congruence. }
  apply (wp_uvmfree g s2 r sz); [done..| |].
  - intros v Hv. destruct (decide (v < UPAGES)) as [Hlt|Hge].
    + rewrite E2, E1 by (change UPAGES with (2 ^ 26 - 2) in *; change TPAGE with (2 ^ 26 - 1) in *; lia). apply Htop. lia.
    + destruct (high_pages v) as [->| ->]; [lia|done|]. rewrite E2 by (done || lia). done.
  - intros g' s' V' F. apply (HQ g'); [done|].
    eapply (unmap_high_freed g s s1); [done|done|exact Ht|done|].
    by eapply (unmap_high_freed g s1 s2).
Qed.

End procvm.
