(* ===== verification/Spinlock.v ===== *)
(** * Spin locks

    spinlock.c.  [push_off] and [pop_off] on one CPU; [acquire] and [release]
    as the steps that CPUs interleave: the call, each turn of the exchange
    loop, the recording of the owner, and on the way out the clearing of the
    owner, the store of 0 and [pop_off]. *)

From Stdlib Require Import FunctionalExtensionality.
From S2P Require Import Prelude.

(** struct spinlock, without its debugging name. *)
Record spinlock := mkLock { locked : bool; lcpu : option nat }.

(** struct cpu as far as locks use it, and the SIE bit of sstatus. *)
Record cpu := mkCpu { noff : Z; intena : bool; sie : bool }.

Definition initlock : spinlock := mkLock false None.

Definition holding (c : nat) (lk : spinlock) : bool :=
  locked lk && bool_decide (lcpu lk = Some c).

Definition intr_get : M cpu bool := gets sie.
Definition intr_on : M cpu unit := modify (λ c, mkCpu (noff c) (intena c) true).
Definition intr_off : M cpu unit := modify (λ c, mkCpu (noff c) (intena c) false).

Definition push_off : M cpu unit :=
  old ← intr_get;
  intr_off ;;
  n ← gets noff;
  when (n =? 0) (modify (λ c, mkCpu (noff c) old (sie c))) ;;
  modify (λ c, mkCpu (noff c + 1) (intena c) (sie c)).

Definition pop_off : M cpu unit :=
  on ← intr_get;
  if on : bool then panic "pop_off - interruptible" else
  n ← gets noff;
  if n <? 1 then panic "pop_off" else
  modify (λ c, mkCpu (noff c - 1) (intena c) (sie c)) ;;
  n ← gets noff;
  e ← gets intena;
  when ((n =? 0) && e) intr_on.

(** ** CPUs that share locks *)

(** Where a CPU is in [acquire] or [release]. *)
Inductive pc :=
  | Run                  (** in neither *)
  | Spin (l : nat)       (** in the exchange loop for [l] *)
  | Take (l : nat)       (** the exchange returned 0; lk->cpu is not yet set *)
  | Drop (l : nat)       (** lk->cpu is cleared; the store of 0 is next *)
  | Pop.                 (** [pop_off] is next *)

#[export] Instance pc_eq_dec : EqDecision pc.
Proof. solve_decision. Defined.

Record smp := mkSmp {
  cpus : nat → cpu;
  locks : nat → spinlock;
  at_ : nat → pc;
  held : nat → gset nat;   (** locks whose [acquire] has returned; ghost *)
}.

(** The call of [acquire]: [push_off], then the check that panics. *)
Definition acquire_call (c l : nat) (s : smp) : res smp :=
  match push_off (cpus s c) with
  | Ok (_, k) => if holding c (locks s l) then Panic "acquire"
                 else Ok (mkSmp (<[c := k]> (cpus s)) (locks s) (<[c := Spin l]> (at_ s)) (held s))
  | Panic m => Panic m
  | NoFuel => NoFuel
  end.

(** One [__atomic_exchange_n]. *)
Definition exchange (c l : nat) (s : smp) : smp :=
  if locked (locks s l) then s
  else mkSmp (cpus s) (<[l := mkLock true (lcpu (locks s l))]> (locks s)) (<[c := Take l]> (at_ s)) (held s).

Definition record_owner (c l : nat) (s : smp) : smp :=
  mkSmp (cpus s) (<[l := mkLock (locked (locks s l)) (Some c)]> (locks s)) (<[c := Run]> (at_ s))
        (<[c := {[l]} ∪ held s c]> (held s)).

(** The call of [release], up to the clearing of lk->cpu. *)
Definition release_call (c l : nat) (s : smp) : res smp :=
  if negb (holding c (locks s l)) then Panic "release"
  else Ok (mkSmp (cpus s) (<[l := mkLock (locked (locks s l)) None]> (locks s)) (<[c := Drop l]> (at_ s))
                 (<[c := held s c ∖ {[l]}]> (held s))).

Definition store_unlocked (c l : nat) (s : smp) : smp :=
  mkSmp (cpus s) (<[l := mkLock false (lcpu (locks s l))]> (locks s)) (<[c := Pop]> (at_ s)) (held s).

Definition pop_call (c : nat) (s : smp) : res smp :=
  match pop_off (cpus s c) with
  | Ok (_, k) => Ok (mkSmp (<[c := k]> (cpus s)) (locks s) (<[c := Run]> (at_ s)) (held s))
  | Panic m => Panic m
  | NoFuel => NoFuel
  end.

Inductive step : smp → smp → Prop :=
  | StepAcquire c l s s' : at_ s c = Run → acquire_call c l s = Ok s' → step s s'
  | StepExchange c l s : at_ s c = Spin l → step s (exchange c l s)
  | StepOwner c l s : at_ s c = Take l → step s (record_owner c l s)
  | StepRelease c l s s' : at_ s c = Run → release_call c l s = Ok s' → step s s'
  | StepUnlock c l s : at_ s c = Drop l → step s (store_unlocked c l s)
  | StepPop c s s' : at_ s c = Pop → pop_call c s = Ok s' → step s s'
  (** code outside the lock routines may turn interrupts on and off, but not
      while it holds a lock *)
  | StepIntr c b s : at_ s c = Run → noff (cpus s c) = 0 →
      step s (mkSmp (<[c := mkCpu 0 (intena (cpus s c)) b]> (cpus s)) (locks s) (at_ s) (held s)).

Definition boot (s : smp) : Prop :=
  (∀ c, noff (cpus s c) = 0 ∧ at_ s c = Run ∧ held s c = ∅) ∧ (∀ l, locks s l = initlock).

Definition reachable (s : smp) : Prop := ∃ s0, boot s0 ∧ rtc step s0 s.

(** ** Balance of [push_off] and [pop_off] *)

(** Properly nested sequences of calls. *)
Inductive nested : list bool → Prop :=
  | nested_nil : nested []
  | nested_wrap u v : nested u → nested v → nested (true :: u ++ false :: v).

(** [true] is [push_off], [false] is [pop_off]. *)
Fixpoint calls (l : list bool) : M cpu unit :=
  match l with
  | [] => mret tt
  | b :: l' => (if b : bool then push_off else pop_off) ;; calls l'
  end.

(** With the counter above zero interrupts are off. *)
Definition cpu_ok (k : cpu) : Prop := 0 ≤ noff k ∧ (0 < noff k → sie k = false).

Lemma push_off_run k : push_off k = Ok (tt, mkCpu (noff k + 1) (if noff k =? 0 then sie k else intena k) false).
Proof. destruct k as [n e i]. unfold push_off, intr_get, intr_off. munfold. simpl. by destruct (n =? 0). Qed.

Lemma pop_off_run k :
  sie k = false → 0 < noff k →
  pop_off k = Ok (tt, mkCpu (noff k - 1) (intena k) ((noff k - 1 =? 0) && intena k)).
Proof.
  destruct k as [n e i]. simpl. intros -> Hn. unfold pop_off, intr_get, intr_on. munfold. simpl.
  destruct (Z.ltb_spec n 1); [lia|]. simpl. by destruct (n - 1 =? 0), e.
Qed.

Lemma wp_calls_app l1 l2 k Q :
  wp (calls l1) k (λ _ k1, wp (calls l2) k1 Q) → wp (calls (l1 ++ l2)) k Q.
Proof.
  revert k. induction l1 as [|b l1 IH]; intros k HQ; [exact HQ|]. cbn [calls app] in *.
  apply wp_bind. apply wp_bind_inv in HQ. eapply wp_mono; [exact HQ|]. intros [] k1. apply IH.
Qed.

(** However [push_off] and [pop_off] are nested, a balanced sequence of
    calls runs without a panic and leaves the depth and the interrupt enable as
    they were: interrupts come back on exactly when they were on before. *)
Lemma nested_calls_balanced l k :
  nested l → cpu_ok k →
  wp (calls l) k (λ _ k', noff k' = noff k ∧ sie k' = sie k ∧ (0 < noff k → intena k' = intena k)).
Proof.
  intros Hl. revert k. induction Hl as [|u v Hu IHu Hv IHv]; intros k Hk; [by apply wp_ret|].
  cbn [calls]. apply wp_bind. eapply wp_Ok; [apply push_off_run|]. apply wp_calls_app.
  set (k1 := mkCpu _ _ _). assert (cpu_ok k1) as Hk1 by (destruct Hk; split; simpl; [lia|done]).
  eapply wp_mono; [by apply IHu|]. intros _ k2 (E1 & E2 & E3). simpl in E1, E2, E3.
  cbn [calls]. destruct Hk as [Hn Hs]. specialize (E3 ltac:(lia)).
  apply wp_bind. eapply wp_Ok; [apply pop_off_run; [done|lia]|].
  set (k3 := mkCpu _ _ _).
  assert (noff k3 = noff k ∧ sie k3 = sie k ∧ (0 < noff k → intena k3 = intena k)) as (F1 & F2 & F3).
  { unfold k3; simpl. rewrite E1, E3. replace (noff k + 1 - 1) with (noff k) by lia.
    destruct (Z.eqb_spec (noff k) 0) as [E|E]; simpl; [by split_and!; [..|lia]|]. rewrite Hs by lia. done. }
  eapply wp_mono; [apply IHv; split; [lia|rewrite F1, F2; done]|].
  intros _ k4 (G1 & G2 & G3). rewrite G1, G2, F1, F2. split_and!; try done. intros Hp. rewrite G3, F3; [done|done|lia].
Qed.

(** ** Mutual exclusion *)

(** The CPUs that own lock [l]: those that have it, are about to record that
    they have it, or are about to store 0. *)
Definition owns (s : smp) (c l : nat) : Prop := l ∈ held s c ∨ at_ s c = Take l ∨ at_ s c = Drop l.

(** Locks the CPU holds, and one more while it is inside a routine. *)
Definition depth (s : smp) (c : nat) : Z :=
  Z.of_nat (size (held s c)) + if decide (at_ s c = Run) then 0 else 1.

Record linv (s : smp) : Prop := {
  li_owner l c c' : owns s c l → owns s c' l → c = c';
  li_locked l : locked (locks s l) = true ↔ ∃ c, owns s c l;
  li_cpu l c : lcpu (locks s l) = Some c ↔ l ∈ held s c;
  li_at c l : at_ s c = Take l ∨ at_ s c = Drop l ∨ at_ s c = Spin l → l ∉ held s c;
  li_noff c : noff (cpus s c) = depth s c;
  li_sie c : cpu_ok (cpus s c);
}.

Lemma linv_boot s : boot s → linv s.
Proof.
  intros [Hc Hl]. assert (∀ c l, ¬ owns s c l) as Hno.
  { intros c l. destruct (Hc c) as (_ & Ha & Hh). unfold owns. rewrite Ha, Hh. set_solver. }
  split.
  - intros l c c' H. by destruct (Hno c l).
  - intros l. rewrite Hl. split; [done|]. intros [c Ho]. by destruct (Hno c l).
  - intros l c. rewrite Hl. destruct (Hc c) as (_ & _ & ->). simpl. split; [done|set_solver].
  - intros c l. destruct (Hc c) as (_ & _ & ->). set_solver.
  - intros c. destruct (Hc c) as (-> & Ha & Hh). unfold depth. by rewrite Ha, Hh, size_empty.
  - intros c. destruct (Hc c) as (E & _ & _). split; rewrite E; lia.
Qed.

(** A step of [c] that leaves its locks and the fields of [l'] alone. *)
Lemma linv_at s c k p :
  linv s → (∀ l, p = Take l ↔ at_ s c = Take l) → (∀ l, p = Drop l ↔ at_ s c = Drop l) →
  (∀ l, p = Spin l → l ∉ held s c) → cpu_ok k →
  noff k = Z.of_nat (size (held s c)) + (if decide (p = Run) then 0 else 1) →
  linv (mkSmp (<[c := k]> (cpus s)) (locks s) (<[c := p]> (at_ s)) (held s)).
Proof.
  intros [A B C D E F] HT HD HS Hk Hn. set (s' := mkSmp _ _ _ _).
  assert (∀ c' l, owns s' c' l ↔ owns s c' l) as Ho.
  { intros c' l. unfold owns, s'. cbn [at_ held]. fn_case c c'; [|done]. by rewrite HT, HD. }
  split.
  - intros l c1 c2. rewrite !Ho. apply A.
  - intros l. cbn [locks s']. rewrite B. by setoid_rewrite Ho.
  - apply C.
  - intros c' l. unfold s'. cbn [at_ held]. fn_case c c'; [|apply D].
    intros [Hp|[Hp|Hp]]; [apply D; left; by apply HT|apply D; right; left; by apply HD|by apply HS].
  - intros c'. unfold depth, s'. cbn [at_ held cpus]. fn_case c c'; [done|apply E].
  - intros c'. unfold s'. cbn [cpus]. fn_case c c'; [done|apply F].
Qed.

Lemma holding_iff s c l : linv s → holding c (locks s l) = true ↔ l ∈ held s c.
Proof.
  intros L. unfold holding. rewrite andb_true_iff, bool_decide_eq_true, (li_cpu _ L).
  split; [by intros [_ ?]|]. intros Hin. split; [|done]. apply (li_locked _ L). exists c. by left.
Qed.

Lemma push_ok k : cpu_ok k → cpu_ok (mkCpu (noff k + 1) (if noff k =? 0 then sie k else intena k) false).
Proof. intros [? ?]. split; simpl; [lia|done]. Qed.

Lemma linv_acquire s c l s' : linv s → at_ s c = Run → acquire_call c l s = Ok s' → linv s'.
Proof.
  intros L Ha. unfold acquire_call. rewrite push_off_run. destruct (holding c (locks s l)) eqn:Hh; [done|].
  intros [= <-]. apply linv_at; try done.
  - intros l'. by rewrite Ha.
  - intros l'. by rewrite Ha.
  - intros l' [= <-]. rewrite <-(holding_iff s c l L). by rewrite Hh.
  - by apply push_ok, L.
  - cbn [noff]. rewrite (li_noff _ L). unfold depth. rewrite Ha, decide_True, decide_False by done. lia.
Qed.

Lemma linv_pop s c s' : linv s → at_ s c = Pop → pop_call c s = Ok s' → linv s'.
Proof.
  intros L Ha. unfold pop_call. pose proof (li_sie _ L c) as [Hn Hs].
  pose proof (li_noff _ L c) as En. unfold depth in En. rewrite Ha, decide_False in En by done.
  rewrite pop_off_run by (auto with lia). intros [= <-]. apply linv_at; try done.
  - intros l'. by rewrite Ha.
  - intros l'. by rewrite Ha.
  - split; simpl; [lia|]. intros Hp. by destruct (Z.eqb_spec (noff (cpus s c) - 1) 0); [lia|].
  - cbn [noff]. rewrite decide_True by done. lia.
Qed.

(** A step of [c] that changes only the fields of lock [l]. *)
Section lock_step.
Context (s : smp) (c l : nat) (lk : spinlock) (p : pc) (h : gset nat).
Hypothesis L : linv s.
#[local] Abbreviation s' := (mkSmp (cpus s) (<[l := lk]> (locks s)) (<[c := p]> (at_ s)) (<[c := h]> (held s))).
Hypothesis Hother : ∀ l', l' ≠ l → (l' ∈ h ↔ l' ∈ held s c) ∧ (p = Take l' ↔ at_ s c = Take l') ∧ (p = Drop l' ↔ at_ s c = Drop l').
Hypothesis Hspin : ∀ l', p = Take l' ∨ p = Drop l' ∨ p = Spin l' → l' ∉ h.
Hypothesis Hsize : Z.of_nat (size h) + (if decide (p = Run) then 0 else 1) = depth s c.
(** no other CPU owns the lock *)
Hypothesis Halone : ∀ c', c' ≠ c → ¬ owns s c' l.
Hypothesis Hlocked : locked lk = true ↔ l ∈ h ∨ p = Take l ∨ p = Drop l.
Hypothesis Hcpu : ∀ c', lcpu lk = Some c' ↔ c' = c ∧ l ∈ h.

Lemma owns_other c' l' : (c', l') ≠ (c, l) → owns s' c' l' ↔ owns s c' l'.
Proof.
  intros Hne. unfold owns. cbn [at_ held]. fn_case c c'; [|done].
  assert (l' ≠ l) as Hl by congruence. destruct (Hother l' Hl) as (-> & -> & ->). done.
Qed.

Lemma owns_this : owns s' c l ↔ l ∈ h ∨ p = Take l ∨ p = Drop l.
Proof. unfold owns. cbn [at_ held]. by rewrite !fn_lookup_insert. Qed.

Lemma linv_lock : linv s'.
Proof.
  destruct L as [A B C D E F].
  assert (∀ c', owns s' c' l → c' = c) as Hown.
  { intros c' Ho. destruct (decide (c' = c)) as [|Hne]; [done|]. rewrite owns_other in Ho by congruence. by destruct (Halone c' Hne). }
  split.
  - intros l' c1 c2. destruct (decide (l' = l)) as [->|Hl].
    + intros ->%Hown ->%Hown. done.
    + rewrite !owns_other by congruence. apply A.
  - intros l'. cbn [locks]. destruct (decide (l' = l)) as [->|Hl].
    + rewrite fn_lookup_insert, Hlocked, <-owns_this. split; [eauto|]. intros [c' Ho]. by rewrite (Hown c' Ho) in Ho.
    + rewrite fn_lookup_insert_ne by done. rewrite B. apply exist_proper. intros c'. rewrite owns_other by congruence. done.
  - intros l' c'. cbn [locks held]. destruct (decide (l' = l)) as [->|Hl].
    + rewrite fn_lookup_insert, Hcpu. fn_case c c'; [naive_solver|]. split; [naive_solver|].
      intros Hin. destruct (Halone c'); [congruence|]. by left.
    + rewrite fn_lookup_insert_ne by done. rewrite C. fn_case c c'; [|done]. by destruct (Hother l' Hl) as (-> & _).
  - intros c' l'. cbn [at_ held]. fn_case c c'; [apply Hspin|apply D].
  - intros c'. unfold depth. cbn [at_ held cpus]. rewrite E. fn_case c c'; [symmetry; apply Hsize|done].
  - apply F.
Qed.
End lock_step.

Lemma elem_size (X : gset nat) l : l ∈ X → (0 < size X)%nat.
Proof.
  intros Hin. destruct (decide (size X = 0%nat)) as [E%size_empty_iff|]; [|lia].
  apply leibniz_equiv in E. subst X. set_solver.
Qed.

Lemma held_id s c : <[c := held s c]> (held s) = held s.
Proof. apply functional_extensionality. intros c'. by fn_case c c'. Qed.

Lemma linv_exchange s c l : linv s → at_ s c = Spin l → linv (exchange c l s).
Proof.
  intros L Ha. unfold exchange. destruct (locked (locks s l)) eqn:El; [done|].
  assert (∀ c', ¬ owns s c' l) as Hno.
  { intros c' Ho. assert (locked (locks s l) = true) by (apply (li_locked _ L); eauto). congruence. }
  assert (l ∉ held s c) as Hl by (apply (li_at _ L); auto).
  rewrite <-(held_id s c). apply linv_lock; auto.
  - intros l' Hl'. rewrite Ha. split_and!; [done|split; congruence|done].
  - intros l' [[= <-]|[|]]; done.
  - unfold depth. by rewrite Ha, !decide_False.
  - naive_solver.
  - intros c'. simpl. rewrite (li_cpu _ L). split; [|naive_solver]. intros Hin. destruct (Hno c'). by left.
Qed.

Lemma linv_owner s c l : linv s → at_ s c = Take l → linv (record_owner c l s).
Proof.
  intros L Ha. assert (l ∉ held s c) as Hl by (apply (li_at _ L); auto).
  assert (owns s c l) as Ho by (right; by left).
  apply linv_lock; auto.
  - intros l' Hl'. rewrite Ha. split_and!; [set_solver|split; congruence|done].
  - intros l' [|[|]]; done.
  - unfold depth. rewrite Ha, decide_True, decide_False by done.
    rewrite size_union by set_solver. rewrite size_singleton. lia.
  - intros c' Hc' Ho'. apply Hc'. by apply (li_owner _ L l).
  - simpl. rewrite (li_locked _ L l). split; [set_solver|eauto].
  - intros c'. simpl. split; [intros [= <-]; split; [done|set_solver]|by intros [-> _]].
Qed.

Lemma linv_release s c l s' : linv s → at_ s c = Run → release_call c l s = Ok s' → linv s'.
Proof.
  intros L Ha. unfold release_call. destruct (holding c (locks s l)) eqn:Hh; [|done]. intros [= <-].
  apply (holding_iff s c l L) in Hh. assert (owns s c l) as Ho by (by left).
  apply linv_lock; auto.
  - intros l' Hl'. rewrite Ha. split_and!; [set_solver|done|split; congruence].
  - intros l' [|[[= <-]|]]; [done|set_solver|done].
  - unfold depth. rewrite Ha, decide_False, decide_True by done.
    rewrite size_difference by set_solver. rewrite size_singleton.
    pose proof (elem_size _ _ Hh). lia.
  - intros c' Hc' Ho'. apply Hc'. by apply (li_owner _ L l).
  - simpl. rewrite (li_locked _ L l). split; [auto|eauto].
  - intros c'. simpl. split; [done|]. intros [_ Hin]. set_solver.
Qed.

Lemma linv_unlock s c l : linv s → at_ s c = Drop l → linv (store_unlocked c l s).
Proof.
  intros L Ha. assert (l ∉ held s c) as Hl by (apply (li_at _ L); auto).
  assert (owns s c l) as Ho by (right; by right).
  unfold store_unlocked. rewrite <-(held_id s c). apply linv_lock; auto.
  - intros l' Hl'. rewrite Ha. split_and!; [done|done|split; congruence].
  - intros l' [|[|]]; done.
  - unfold depth. by rewrite Ha, !decide_False.
  - intros c' Hc' Ho'. apply Hc'. by apply (li_owner _ L l).
  - simpl. split; [done|]. intros [?|[|]]; done.
  - intros c'. simpl. rewrite (li_cpu _ L). split; [|naive_solver]. intros Hin.
    assert (c = c') as <- by (apply (li_owner _ L l); [done|by left]). done.
Qed.

Lemma linv_intr s c b : linv s → at_ s c = Run → noff (cpus s c) = 0 →
  linv (mkSmp (<[c := mkCpu 0 (intena (cpus s c)) b]> (cpus s)) (locks s) (at_ s) (held s)).
Proof.
  intros [A B C D E F] Ha Hn. split; try done.
  - intros c'. unfold depth. cbn [cpus at_ held]. fn_case c c'; [|apply E]. specialize (E c). rewrite Hn in E. exact E.
  - intros c'. cbn [cpus]. fn_case c c'; [by split|apply F].
Qed.

Lemma linv_step s s' : step s s' → linv s → linv s'.
Proof.
  intros []; intros; eauto using linv_acquire, linv_exchange, linv_owner, linv_release, linv_unlock, linv_pop, linv_intr.
Qed.

Lemma reachable_linv s : reachable s → linv s.
Proof.
  intros (s0 & Hb & Hs). apply linv_boot in Hb. induction Hs as [|? ? ? Hst _ IH]; eauto using linv_step.
Qed.

(** C10. Mutual exclusion: however the CPUs interleave the steps of [acquire]
    and [release], no lock is held by two CPUs; a CPU that holds a lock has
    interrupts off, and [holding] tells exactly whether the CPU holds it. *)
Theorem mutual_exclusion s c c' l :
  reachable s → l ∈ held s c →
  (l ∈ held s c' → c' = c) ∧ sie (cpus s c) = false ∧ holding c' (locks s l) = bool_decide (l ∈ held s c').
Proof.
  intros L%reachable_linv Hc. split_and!.
  - intros Hc'. symmetry. apply (li_owner _ L l); by left.
  - apply (li_sie _ L). rewrite (li_noff _ L). unfold depth.
    pose proof (elem_size _ _ Hc). case_decide; lia.
  - destruct (holding c' (locks s l)) eqn:E.
    + apply (holding_iff s c' l L) in E. by rewrite bool_decide_eq_true_2.
    + rewrite bool_decide_eq_false_2; [done|]. intros Hin%(holding_iff s c' l L). congruence.
Qed.

(** The panics of spinlock.c are unreachable for code that releases what it
    holds and does not acquire it twice: [acquire] of a lock the CPU does not
    hold, [release] of one it holds, and the [pop_off] that ends [release] all
    succeed, and a free lock is taken by the next exchange. *)
Lemma lock_progress s c l :
  reachable s →
  (at_ s c = Run → l ∉ held s c → ∃ s', acquire_call c l s = Ok s' ∧ at_ s' c = Spin l) ∧
  (at_ s c = Run → l ∈ held s c → ∃ s', release_call c l s = Ok s' ∧ at_ s' c = Drop l) ∧
  (at_ s c = Pop → ∃ s', pop_call c s = Ok s' ∧ at_ s' c = Run) ∧
  (at_ s c = Spin l → (∀ c', ¬ owns s c' l) → at_ (exchange c l s) c = Take l).
Proof.
  intros L%reachable_linv. split_and!.
  - intros Ha Hl. unfold acquire_call. rewrite push_off_run.
    destruct (holding c (locks s l)) eqn:E; [by apply (holding_iff s c l L) in E|].
    eexists. split; [done|]. apply fn_lookup_insert.
  - intros Ha Hl. unfold release_call. rewrite (proj2 (holding_iff s c l L) Hl).
    eexists. split; [done|]. apply fn_lookup_insert.
  - intros Ha. unfold pop_call. pose proof (li_sie _ L c) as [Hn Hs]. pose proof (li_noff _ L c) as En.
    unfold depth in En. rewrite Ha, decide_False in En by done. rewrite pop_off_run by (auto with lia).
    eexists. split; [done|]. apply fn_lookup_insert.
  - intros Ha Hno. unfold exchange. destruct (locked (locks s l)) eqn:El.
    + apply (li_locked _ L) in El as [c' Ho]. by destruct (Hno c').
    + apply fn_lookup_insert.
Qed.
