(* ===== verification/Proc.v ===== *)
(** * Processes

    proc.c and struct proc of proc.h: the process table, creation and end of
    processes, sleep and wakeup, and the scheduler with priorities and aging.

    The table is a list of [NPROC] records and a process is named by its
    index.  The locks are kept in one table, [lks], instead of inside the
    structures.  Everything runs on the CPU [mycpu]: [acquire] of a lock that
    another CPU has taken has no result ([NoFuel]: it spins).  The file system
    is reached through the operations of the class [FileOps], and what other
    threads do while a thread is switched out is the class [Switch]. *)

From S2P Require Import Prelude Riscv Memory Kalloc Vm ProcVm Spinlock.

Inductive procstate := UNUSED | USED | SLEEPING | RUNNABLE | RUNNING | ZOMBIE.
#[export] Instance procstate_eq_dec : EqDecision procstate.
Proof. solve_decision. Defined.

(** The values of p->chan: null, a process, &ticks, &log, the sleep lock of a
    buffer or of an inode, an address in a page (pipes), &cons.r, &tx_chan,
    &disk.free[0], or a buffer. *)
Inductive channel :=
  | ChanNull | ChanProc (i : nat) | ChanTicks
  | ChanLog | ChanBuf (i : nat) | ChanInode (i : nat) | ChanAddr (a : Z)
  | ChanCons | ChanTx | ChanFree | ChanReq (i : nat).
#[export] Instance channel_eq_dec : EqDecision channel.
Proof. solve_decision. Defined.

Record proc := mkProc {
  state : procstate;
  chan : channel;
  killedf : Z;
  xstate : Z;
  pid : Z;
  priority : Z;
  ready_since : Z;
  parent : option nat;
  kstack : Z;
  sz : Z;
  pagetable : Z;
  trapframe : Z;
  context : list Z;    (** ra, sp, s0 .. s11 *)
  ofile : list Z;      (** file pointers, 0 for none *)
  cwd : Z;
  name : list Z;
}.

Definition set_state (v : procstate) (p : proc) : proc :=
  mkProc v (chan p) (killedf p) (xstate p) (pid p) (priority p) (ready_since p) (parent p) (kstack p) (sz p) (pagetable p) (trapframe p) (context p) (ofile p) (cwd p) (name p).
Definition set_chan (v : channel) (p : proc) : proc :=
  mkProc (state p) v (killedf p) (xstate p) (pid p) (priority p) (ready_since p) (parent p) (kstack p) (sz p) (pagetable p) (trapframe p) (context p) (ofile p) (cwd p) (name p).
Definition set_killedf (v : Z) (p : proc) : proc :=
  mkProc (state p) (chan p) v (xstate p) (pid p) (priority p) (ready_since p) (parent p) (kstack p) (sz p) (pagetable p) (trapframe p) (context p) (ofile p) (cwd p) (name p).
Definition set_xstate (v : Z) (p : proc) : proc :=
  mkProc (state p) (chan p) (killedf p) v (pid p) (priority p) (ready_since p) (parent p) (kstack p) (sz p) (pagetable p) (trapframe p) (context p) (ofile p) (cwd p) (name p).
Definition set_pid (v : Z) (p : proc) : proc :=
  mkProc (state p) (chan p) (killedf p) (xstate p) v (priority p) (ready_since p) (parent p) (kstack p) (sz p) (pagetable p) (trapframe p) (context p) (ofile p) (cwd p) (name p).
Definition set_priority (v : Z) (p : proc) : proc :=
  mkProc (state p) (chan p) (killedf p) (xstate p) (pid p) v (ready_since p) (parent p) (kstack p) (sz p) (pagetable p) (trapframe p) (context p) (ofile p) (cwd p) (name p).
Definition set_ready (v : Z) (p : proc) : proc :=
  mkProc (state p) (chan p) (killedf p) (xstate p) (pid p) (priority p) v (parent p) (kstack p) (sz p) (pagetable p) (trapframe p) (context p) (ofile p) (cwd p) (name p).
Definition set_parent (v : option nat) (p : proc) : proc :=
  mkProc (state p) (chan p) (killedf p) (xstate p) (pid p) (priority p) (ready_since p) v (kstack p) (sz p) (pagetable p) (trapframe p) (context p) (ofile p) (cwd p) (name p).
Definition set_kstack (v : Z) (p : proc) : proc :=
  mkProc (state p) (chan p) (killedf p) (xstate p) (pid p) (priority p) (ready_since p) (parent p) v (sz p) (pagetable p) (trapframe p) (context p) (ofile p) (cwd p) (name p).
Definition set_sz (v : Z) (p : proc) : proc :=
  mkProc (state p) (chan p) (killedf p) (xstate p) (pid p) (priority p) (ready_since p) (parent p) (kstack p) v (pagetable p) (trapframe p) (context p) (ofile p) (cwd p) (name p).
Definition set_pagetable (v : Z) (p : proc) : proc :=
  mkProc (state p) (chan p) (killedf p) (xstate p) (pid p) (priority p) (ready_since p) (parent p) (kstack p) (sz p) v (trapframe p) (context p) (ofile p) (cwd p) (name p).
Definition set_trapframe (v : Z) (p : proc) : proc :=
  mkProc (state p) (chan p) (killedf p) (xstate p) (pid p) (priority p) (ready_since p) (parent p) (kstack p) (sz p) (pagetable p) v (context p) (ofile p) (cwd p) (name p).
Definition set_context (v : list Z) (p : proc) : proc :=
  mkProc (state p) (chan p) (killedf p) (xstate p) (pid p) (priority p) (ready_since p) (parent p) (kstack p) (sz p) (pagetable p) (trapframe p) v (ofile p) (cwd p) (name p).
Definition set_ofile (v : list Z) (p : proc) : proc :=
  mkProc (state p) (chan p) (killedf p) (xstate p) (pid p) (priority p) (ready_since p) (parent p) (kstack p) (sz p) (pagetable p) (trapframe p) (context p) v (cwd p) (name p).
Definition set_cwd (v : Z) (p : proc) : proc :=
  mkProc (state p) (chan p) (killedf p) (xstate p) (pid p) (priority p) (ready_since p) (parent p) (kstack p) (sz p) (pagetable p) (trapframe p) (context p) (ofile p) v (name p).
Definition set_name (v : list Z) (p : proc) : proc :=
  mkProc (state p) (chan p) (killedf p) (xstate p) (pid p) (priority p) (ready_since p) (parent p) (kstack p) (sz p) (pagetable p) (trapframe p) (context p) (ofile p) (cwd p) v.

(** ** The kernel state *)

(** The spin locks of the kernel; the sleep lock of a buffer and of an inode is
    guarded by a spin lock of its own, and a pipe has one in its page at [a]. *)
Inductive lockid :=
  | PidLock | WaitLock | TicksLock | ProcLock (i : nat)
  | BcacheLock | LogLock | ItableLock | FtableLock
  | BufLock (i : nat) | InodeLock (i : nat) | PipeLock (a : Z)
  | PrLock | ConsLock | TxLock | DiskLock.
#[export] Instance lockid_eq_dec : EqDecision lockid.
Proof. solve_decision. Defined.

Record kst (fsT : Type) := mkKst {
  lks : lockid → spinlock;
  kcpu : cpu;
  mycpu : nat;               (** the id of this CPU *)
  cproc : option nat;        (** c->proc *)
  procs : list proc;
  nextpid : Z;
  initproc : option nat;
  ticks : Z;
  mach : kmem;
  fsys : fsT;                (** the state of the file system *)
}.
Arguments mkKst {fsT}.
Arguments lks {fsT}.
Arguments kcpu {fsT}.
Arguments mycpu {fsT}.
Arguments cproc {fsT}.
Arguments procs {fsT}.
Arguments nextpid {fsT}.
Arguments initproc {fsT}.
Arguments ticks {fsT}.
Arguments mach {fsT}.
Arguments fsys {fsT}.

(** What proc.c asks of the file system.  The operations take locks, and some
    sleep and let other processes run, so they act on the whole state. *)
Class FileOps (fsT : Type) := {
  filedup : Z → M (kst fsT) Z;
  idup : Z → M (kst fsT) Z;
  fileclose : Z → M (kst fsT) unit;
  iput : Z → M (kst fsT) unit;
  begin_op : M (kst fsT) unit;
  end_op : M (kst fsT) unit;
  namei : list Z → M (kst fsT) Z;
}.

(** [to_scheduler i] is all that happens from the [swtch] of process [i] to its
    CPU's scheduler until process [i] is switched to again; [to_process i] is
    all that happens from the scheduler's [swtch] to process [i] until the
    scheduler is switched back to; [interrupts] is what the pending device
    interrupts do when the scheduler enables them. *)
Class Switch (fsT : Type) := {
  to_scheduler : nat → M (kst fsT) unit;
  to_process : nat → M (kst fsT) unit;
  interrupts : M (kst fsT) unit;
}.

(** The address of [forkret], chosen by the linker. *)
Class Code := { forkret : Z }.

Section proc.
Context {fsT : Type}.
Notation K := (kst fsT).

Definition set_lks (v : lockid → spinlock) (s : K) : K :=
  mkKst v (kcpu s) (mycpu s) (cproc s) (procs s) (nextpid s) (initproc s) (ticks s) (mach s) (fsys s).
Definition set_kcpu (v : cpu) (s : K) : K :=
  mkKst (lks s) v (mycpu s) (cproc s) (procs s) (nextpid s) (initproc s) (ticks s) (mach s) (fsys s).
Definition set_cproc (v : option nat) (s : K) : K :=
  mkKst (lks s) (kcpu s) (mycpu s) v (procs s) (nextpid s) (initproc s) (ticks s) (mach s) (fsys s).
Definition set_procs (v : list proc) (s : K) : K :=
  mkKst (lks s) (kcpu s) (mycpu s) (cproc s) v (nextpid s) (initproc s) (ticks s) (mach s) (fsys s).
Definition set_nextpid (v : Z) (s : K) : K :=
  mkKst (lks s) (kcpu s) (mycpu s) (cproc s) (procs s) v (initproc s) (ticks s) (mach s) (fsys s).
Definition set_initproc (v : option nat) (s : K) : K :=
  mkKst (lks s) (kcpu s) (mycpu s) (cproc s) (procs s) (nextpid s) v (ticks s) (mach s) (fsys s).
Definition set_ticks (v : Z) (s : K) : K :=
  mkKst (lks s) (kcpu s) (mycpu s) (cproc s) (procs s) (nextpid s) (initproc s) v (mach s) (fsys s).
Definition set_mach (v : kmem) (s : K) : K :=
  mkKst (lks s) (kcpu s) (mycpu s) (cproc s) (procs s) (nextpid s) (initproc s) (ticks s) v (fsys s).
Definition set_fsys (v : fsT) (s : K) : K :=
  mkKst (lks s) (kcpu s) (mycpu s) (cproc s) (procs s) (nextpid s) (initproc s) (ticks s) (mach s) v.

Definition on_cpu {A} (c : M cpu A) : M K A := zoom kcpu set_kcpu c.
Definition on_mem {A} (c : M kmem A) : M K A := zoom mach set_mach c.
Definition on_fs {A} (c : M fsT A) : M K A := zoom fsys set_fsys c.

(** ** Locks and the current process *)

Definition acquire (l : lockid) : M K unit :=
  on_cpu push_off ;;
  lk ← gets (λ s, lks s l);
  c ← gets mycpu;
  if holding c lk then panic "acquire" else
  if locked lk then nofuel else
  modify (λ s, set_lks (<[l := mkLock true (Some c)]> (lks s)) s).

Definition release (l : lockid) : M K unit :=
  lk ← gets (λ s, lks s l);
  c ← gets mycpu;
  if negb (holding c lk) then panic "release" else
  modify (λ s, set_lks (<[l := mkLock false None]> (lks s)) s) ;;
  on_cpu pop_off.

Definition myproc : M K (option nat) :=
  on_cpu push_off ;;
  p ← gets cproc;
  on_cpu pop_off ;;
  mret p.

(** [myproc()] where its result is dereferenced: a null pointer faults. *)
Definition current : M K nat :=
  p ← myproc;
  match p with Some i => mret i | None => panic "kerneltrap" end.

(** Reading a field of proc[i], and writing one. *)
Definition pget {A} (i : nat) (f : proc → A) : M K A :=
  s ← get;
  match procs s !! i with Some p => mret (f p) | None => panic "kerneltrap" end.
Definition pset (i : nat) (f : proc → proc) : M K unit :=
  modify (λ s, set_procs (alter f i (procs s)) s).

(** [for(p = proc; p < &proc[NPROC]; p++)], with [n] entries from [i] on. *)
Fixpoint for_procs (n i : nat) (body : nat → M K unit) : M K unit :=
  match n with
  | O => mret tt
  | S n' => body i ;; for_procs n' (S i) body
  end.

(** The search loops of the table: the first index at which [body] returns. *)
Fixpoint search_procs {A} (n i : nat) (body : nat → M K (option A)) : M K (option A) :=
  match n with
  | O => mret None
  | S n' =>
      r ← body i;
      match r with
      | Some a => mret (Some a)
      | None => search_procs n' (S i) body
      end
  end.

Definition procinit : M K unit :=
  modify (λ s, set_lks (<[PidLock := initlock]> (lks s)) s) ;;
  modify (λ s, set_lks (<[WaitLock := initlock]> (lks s)) s) ;;
  for_procs NPROC 0 (λ i,
    modify (λ s, set_lks (<[ProcLock i := initlock]> (lks s)) s) ;;
    pset i (set_state UNUSED) ;;
    pset i (set_kstack (KSTACK (Z.of_nat i)))).

Definition allocpid : M K Z :=
  acquire PidLock ;;
  pid ← gets nextpid;
  modify (set_nextpid (s32 (pid + 1))) ;;
  release PidLock ;;
  mret pid.

(** ** Waking, killing *)

(** The body of the loop of [wakeup]. *)
Definition wakeup_visit (ch : channel) (i : nat) : M K unit :=
  me ← myproc;
  if decide (me = Some i) then mret tt else
  acquire (ProcLock i) ;;
  st ← pget i state;
  c ← pget i chan;
  when (bool_decide (st = SLEEPING) && bool_decide (c = ch))
    (pset i (set_ready 0) ;; pset i (set_state RUNNABLE)) ;;
  release (ProcLock i).

Definition wakeup (ch : channel) : M K unit := for_procs NPROC 0 (wakeup_visit ch).

(** The body of the loop of [kkill]. *)
Definition kkill_visit (victim : Z) (i : nat) : M K (option Z) :=
  acquire (ProcLock i) ;;
  q ← pget i pid;
  if q =? victim then
    pset i (set_killedf 1) ;;
    st ← pget i state;
    when (bool_decide (st = SLEEPING))
      (pset i (set_ready 0) ;; pset i (set_state RUNNABLE)) ;;
    release (ProcLock i) ;;
    mret (Some 0)
  else
    release (ProcLock i) ;;
    mret None.

Definition kkill (victim : Z) : M K Z :=
  r ← search_procs NPROC 0 (kkill_visit victim);
  mret (default (-1) r).

Definition setkilled (i : nat) : M K unit :=
  acquire (ProcLock i) ;;
  pset i (set_killedf 1) ;;
  release (ProcLock i).

Definition killed (i : nat) : M K Z :=
  acquire (ProcLock i) ;;
  k ← pget i killedf;
  release (ProcLock i) ;;
  mret k.

(** ** Creation and end of processes *)

(** Offsets in struct trapframe, and its size. *)
Definition TF_KSATP : Z := 0.
Definition TF_KSP : Z := 8.
Definition TF_KTRAP : Z := 16.
Definition TF_EPC : Z := 24.
Definition TF_HARTID : Z := 32.
Definition TF_SP : Z := 48.
Definition TF_A0 : Z := 112.
Definition TF_SIZE : Z := 288.

Context `{Layout, Code, FileOps fsT, Switch fsT}.

Definition freeproc (i : nat) : M K unit :=
  tf ← pget i trapframe;
  when (negb (tf =? 0)) (on_mem (kfree tf)) ;;
  pset i (set_trapframe 0) ;;
  pt ← pget i pagetable;
  size ← pget i sz;
  when (negb (pt =? 0)) (on_mem (proc_freepagetable pt size)) ;;
  pset i (set_pagetable 0) ;;
  pset i (set_sz 0) ;;
  pset i (set_pid 0) ;;
  pset i (set_parent None) ;;
  pset i (λ p, set_name (<[0%nat := 0]> (name p)) p) ;;
  pset i (set_chan ChanNull) ;;
  pset i (set_killedf 0) ;;
  pset i (set_xstate 0) ;;
  pset i (set_priority DEFAULT_PRIORITY) ;;
  pset i (set_ready 0) ;;
  pset i (set_state UNUSED).

(** The search loop of [allocproc], which leaves the lock of the entry held. *)
Definition find_unused : M K (option nat) :=
  search_procs NPROC 0 (λ i,
    acquire (ProcLock i) ;;
    st ← pget i state;
    if decide (st = UNUSED) then mret (Some i) else
    release (ProcLock i) ;;
    mret None).

Definition allocproc : M K (option nat) :=
  r ← find_unused;
  match r with
  | None => mret None
  | Some i =>
      q ← allocpid;
      pset i (set_pid q) ;;
      pset i (set_state USED) ;;
      pset i (set_priority DEFAULT_PRIORITY) ;;
      pset i (set_ready 0) ;;
      tf ← on_mem kalloc;
      pset i (set_trapframe tf) ;;
      if tf =? 0 then
        freeproc i ;;
        release (ProcLock i) ;;
        mret None
      else
      pt ← on_mem (proc_pagetable tf);
      pset i (set_pagetable pt) ;;
      if pt =? 0 then
        freeproc i ;;
        release (ProcLock i) ;;
        mret None
      else
      ks ← pget i kstack;
      pset i (set_context (forkret :: u64 (ks + PGSIZE) :: replicate 12 0)) ;;
      mret (Some i)
  end.

Definition userinit : M K unit :=
  r ← allocproc;
  modify (set_initproc r) ;;
  match r with
  | None => panic "kerneltrap"
  | Some i =>
      d ← namei [47];
      pset i (set_cwd d) ;;
      pset i (set_ready 0) ;;
      pset i (set_state RUNNABLE) ;;
      release (ProcLock i)
  end.

Definition growproc (n : Z) : M K Z :=
  i ← current;
  size ← pget i sz;
  pt ← pget i pagetable;
  if 0 <? n then
    if TRAPFRAME <? u64 (size + n) then mret (-1) else
    size ← on_mem (uvmalloc pt size (u64 (size + n)) PTE_W);
    if size =? 0 then mret (-1) else
    pset i (set_sz size) ;;
    mret 0
  else if n <? 0 then
    size ← on_mem (uvmdealloc pt size (u64 (size + n)));
    pset i (set_sz size) ;;
    mret 0
  else
    pset i (set_sz size) ;;
    mret 0.

(** [safestrcpy(dst, src, 16)] on the 16 bytes of two name fields. *)
Definition copy_name (dst src : list Z) : list Z :=
  let m := store_bytes (store_bytes (λ _, 0) 0 dst) 16 src in
  load_bytes (safestrcpy m 0 16 16) 0 16.

(** [for (i = 0; i < NOFILE; i++) if (p->ofile[i]) ...], [n] entries from [fd]. *)
Fixpoint dup_files (n fd : nat) (i j : nat) : M K unit :=
  match n with
  | O => mret tt
  | S n' =>
      f ← pget i (λ p, default 0 (ofile p !! fd));
      when (negb (f =? 0))
        (g ← filedup f; pset j (λ p, set_ofile (<[fd := g]> (ofile p)) p)) ;;
      dup_files n' (S fd) i j
  end.

Definition kfork : M K Z :=
  i ← current;
  r ← allocproc;
  match r with
  | None => mret (-1)
  | Some j =>
      old ← pget i pagetable;
      new ← pget j pagetable;
      size ← pget i sz;
      c ← on_mem (uvmcopy old new size);
      if c <? 0 then
        freeproc j ;;
        release (ProcLock j) ;;
        mret (-1)
      else
      pset j (set_sz size) ;;
      src ← pget i trapframe;
      dst ← pget j trapframe;
      on_mem (modify (λ m, set_mem (copy (mem m) dst src TF_SIZE) m)) ;;
      on_mem (write64 (dst + TF_A0) 0) ;;
      dup_files NOFILE 0 i j ;;
      d ← pget i cwd;
      e ← idup d;
      pset j (set_cwd e) ;;
      nm ← pget i name;
      pset j (λ p, set_name (copy_name (name p) nm) p) ;;
      q ← pget j pid;
      release (ProcLock j) ;;
      acquire WaitLock ;;
      pset j (set_parent (Some i)) ;;
      release WaitLock ;;
      acquire (ProcLock j) ;;
      pr ← pget i priority;
      pset j (set_priority pr) ;;
      pset j (set_ready 0) ;;
      pset j (set_state RUNNABLE) ;;
      release (ProcLock j) ;;
      mret q
  end.

(** The channel that stands for a process pointer. *)
Definition proc_chan (o : option nat) : channel :=
  match o with Some i => ChanProc i | None => ChanNull end.

Definition reparent (i : nat) : M K unit :=
  for_procs NPROC 0 (λ j,
    pp ← pget j parent;
    when (bool_decide (pp = Some i))
      (init ← gets initproc;
       pset j (set_parent init) ;;
       wakeup (proc_chan init))).

(** ** Switching *)

(** [sched] up to its [swtch]: the checks and the saved intena. *)
Definition sched_enter : M K (nat * bool) :=
  i ← current;
  lk ← gets (λ s, lks s (ProcLock i));
  c ← gets mycpu;
  if negb (holding c lk) then panic "sched p->lock" else
  n ← on_cpu (gets noff);
  if negb (n =? 1) then panic "sched locks" else
  st ← pget i state;
  if decide (st = RUNNING) then panic "sched RUNNING" else
  on ← on_cpu intr_get;
  if on : bool then panic "sched interruptible" else
  intena ← on_cpu (gets intena);
  mret (i, intena).

Definition sched : M K unit :=
  r ← sched_enter;
  to_scheduler r.1 ;;
  on_cpu (modify (λ k, mkCpu (noff k) r.2 (sie k))).

Definition yield : M K unit :=
  i ← current;
  acquire (ProcLock i) ;;
  pset i (set_ready 0) ;;
  pset i (set_state RUNNABLE) ;;
  sched ;;
  release (ProcLock i).

Definition sleep (ch : channel) (lk : lockid) : M K unit :=
  i ← current;
  acquire (ProcLock i) ;;
  release lk ;;
  pset i (set_chan ch) ;;
  pset i (set_state SLEEPING) ;;
  sched ;;
  pset i (set_chan ChanNull) ;;
  release (ProcLock i) ;;
  acquire lk.

Fixpoint close_files (n fd i : nat) : M K unit :=
  match n with
  | O => mret tt
  | S n' =>
      f ← pget i (λ p, default 0 (ofile p !! fd));
      when (negb (f =? 0))
        (fileclose f ;; pset i (λ p, set_ofile (<[fd := 0]> (ofile p)) p)) ;;
      close_files n' (S fd) i
  end.

(** [kexit] from the point at which the files are closed up to its [sched]. *)
Definition kexit_zombie (i : nat) (status : Z) : M K unit :=
  acquire WaitLock ;;
  reparent i ;;
  pp ← pget i parent;
  wakeup (proc_chan pp) ;;
  acquire (ProcLock i) ;;
  pset i (set_xstate status) ;;
  pset i (set_state ZOMBIE) ;;
  release WaitLock.

Definition kexit (status : Z) : M K unit :=
  p ← myproc;
  init ← gets initproc;
  if decide (p = init) then panic "init exiting" else
  match p with
  | None => panic "kerneltrap"
  | Some i =>
      close_files NOFILE 0 i ;;
      begin_op ;;
      d ← pget i cwd;
      iput d ;;
      end_op ;;
      pset i (set_cwd 0) ;;
      kexit_zombie i status ;;
      sched ;;
      panic "zombie exit"
  end.

(** The bytes of an int in memory. *)
Definition int_bytes (x : Z) : list Z := map (λ k, byte_at (u32 x) (Z.of_nat k)) (seq 0 4).

Definition uproc_of (p : proc) : uproc := mkUproc (sz p) (pagetable p).

(** The scan of [kwait] over the [n] entries from [j]; [havekids] is the
    variable of that name, and a result [Some r] is a return of [r] with
    both locks released. *)
Fixpoint kwait_scan (n j i : nat) (addr : Z) (havekids : bool) : M K (option Z * bool) :=
  match n with
  | O => mret (None, havekids)
  | S n' =>
      pp ← pget j parent;
      if decide (pp = Some i) then
        acquire (ProcLock j) ;;
        st ← pget j state;
        if decide (st = ZOMBIE) then
          q ← pget j pid;
          x ← pget j xstate;
          up ← pget i uproc_of;
          r ← (if addr =? 0 then mret 0
               else on_mem (copyout up (upagetable up) addr (int_bytes x)));
          if r <? 0 then
            release (ProcLock j) ;;
            release WaitLock ;;
            mret (Some (-1), true)
          else
            freeproc j ;;
            release (ProcLock j) ;;
            release WaitLock ;;
            mret (Some q, true)
        else
          release (ProcLock j) ;;
          kwait_scan n' (S j) i addr true
      else kwait_scan n' (S j) i addr havekids
  end.

(** [fuel] bounds how often the parent sleeps. *)
Fixpoint kwait_loop (fuel : nat) (i : nat) (addr : Z) : M K Z :=
  match fuel with
  | O => nofuel
  | S fuel' =>
      r ← kwait_scan NPROC 0 i addr false;
      match r with
      | (Some q, _) => mret q
      | (None, havekids) =>
          k ← (if havekids : bool then killed i else mret 1);
          if negb havekids || negb (k =? 0) then
            release WaitLock ;;
            mret (-1)
          else
            sleep (ChanProc i) WaitLock ;;
            kwait_loop fuel' i addr
      end
  end.

Definition kwait (fuel : nat) (addr : Z) : M K Z :=
  i ← current;
  acquire WaitLock ;;
  kwait_loop fuel i addr.

Definition either_copyout (user_dst : bool) (dst : Z) (src : list Z) : M K Z :=
  p ← myproc;
  if user_dst then
    match p with
    | None => panic "kerneltrap"
    | Some i => up ← pget i uproc_of; on_mem (copyout up (upagetable up) dst src)
    end
  else
    on_mem (write_bytes dst src) ;;
    mret 0.

Definition either_copyin (user_src : bool) (src len : Z) : M K (Z * list Z) :=
  p ← myproc;
  if user_src then
    match p with
    | None => panic "kerneltrap"
    | Some i => up ← pget i uproc_of; on_mem (copyin up (upagetable up) src len)
    end
  else
    bs ← on_mem (read_bytes src len);
    mret (0, bs).

(** ** The scheduler *)

Definition effective_priority (now : Z) (p : proc) : Z :=
  let waited := u32 (now - ready_since p) in
  let aging_steps := s32 (waited / AGING_INTERVAL) in
  let effective_priority := s32 (priority p - aging_steps) in
  if effective_priority <? PRIORITY_MIN then PRIORITY_MIN else effective_priority.

(** The body of the loop over the table at one level; whether the process was
    switched to. *)
Definition scheduler_visit (now level : Z) (i : nat) : M K bool :=
  acquire (ProcLock i) ;;
  st ← pget i state;
  ran ← (if decide (st = RUNNABLE) then
           rs ← pget i ready_since;
           when (rs =? 0) (pset i (set_ready now)) ;;
           eff ← pget i (effective_priority now);
           if eff =? level then
             pset i (set_state RUNNING) ;;
             modify (set_cproc (Some i)) ;;
             to_process i ;;
             modify (set_cproc None) ;;
             mret true
           else mret false
         else mret false);
  release (ProcLock i) ;;
  mret ran.

(** The loop over the table at one level, [n] entries from [i]: the processes
    switched to, in order; level_found is that the list is not empty. *)
Fixpoint scheduler_level (n i : nat) (now level : Z) : M K (list nat) :=
  match n with
  | O => mret []
  | S n' =>
      ran ← scheduler_visit now level i;
      l ← scheduler_level n' (S i) now level;
      mret (if ran : bool then i :: l else l)
  end.

(** The loop over [n] levels from [level]; found is that the result is not
    empty. *)
Fixpoint scheduler_levels (n : nat) (now level : Z) : M K (list nat) :=
  match n with
  | O => mret []
  | S n' =>
      l ← scheduler_level NPROC 0 now level;
      match l with
      | [] => scheduler_levels n' now (level + 1)
      | _ => mret l
      end
  end.

(** The round after the interrupts. *)
Definition scheduler_pass : M K (list nat) :=
  acquire TicksLock ;;
  now ← gets ticks;
  release TicksLock ;;
  scheduler_levels (Z.to_nat (PRIORITY_MAX - PRIORITY_MIN + 1)) now PRIORITY_MIN.

(** One iteration of the [for(;;)] of [scheduler]. *)
Definition scheduler_round : M K (list nat) :=
  on_cpu intr_on ;;
  interrupts ;;
  on_cpu intr_off ;;
  scheduler_pass.

(** [n] iterations of [scheduler]. *)
Fixpoint scheduler_rounds (n : nat) : M K (list (list nat)) :=
  match n with
  | O => mret []
  | S n' => l ← scheduler_round; ls ← scheduler_rounds n'; mret (l :: ls)
  end.

Definition scheduler (n : nat) : M K (list (list nat)) :=
  modify (set_cproc None) ;;
  scheduler_rounds n.
End proc.
