(* ===== verification/ProcOps.v ===== *)
(** * Locks, sleeping and killing

    The rules for the locks and the current process of [Proc], and what
    [wakeup], [kkill], [killed], [setkilled], [reparent] and the last part of
    [kexit] do to the process table. *)

From Stdlib Require Import FunctionalExtensionality.
From S2P Require Import Prelude Riscv Memory Kalloc Vm Spinlock Proc.

(** A CPU's struct after [push_off], and after a balanced pair of [push_off] and [pop_off]. *)
Definition pushed (k : cpu) : cpu :=
  mkCpu (noff k + 1) (if noff k =? 0 then sie k else intena k) false.
Definition touch (k : cpu) : cpu := if noff k =? 0 then mkCpu 0 (sie k) (sie k) else k.

(** What [wakeup(ch)] does to a process that is not the caller. *)
Definition wake (ch : channel) (p : proc) : proc :=
  if bool_decide (state p = SLEEPING) && bool_decide (chan p = ch)
  then set_state RUNNABLE (set_ready 0 p) else p.
Definition woken (ch : channel) (me : option nat) (ps : list proc) : list proc :=
  imap (λ j p, if decide (me = Some j) then p else wake ch p) ps.

(** What [kkill] does to its victim. *)
Definition slain (p : proc) : proc :=
  let p := set_killedf 1 p in
  if decide (state p = SLEEPING) then set_state RUNNABLE (set_ready 0 p) else p.

(** The children of [i] handed to [init]. *)
Definition abandon (i : nat) (init : option nat) (ps : list proc) : list proc :=
  map (λ p, if decide (parent p = Some i) then set_parent init p else p) ps.
Definition has_child (i : nat) (ps : list proc) : bool :=
  existsb (λ p, bool_decide (parent p = Some i)) ps.
Definition reparented (i : nat) (init me : option nat) (ps : list proc) : list proc :=
  if has_child i ps then woken (proc_chan init) me (abandon i init ps) else ps.

Ltac opt := cbn [fmap option_fmap option_map].

Section ops.
Context {fsT : Type}.
Notation K := (kst fsT).

Definition relax (s : K) : K := set_kcpu (touch (kcpu s)) s.
Definition entered (l : lockid) (s : K) : K :=
  set_lks (<[l := mkLock true (Some (mycpu s))]> (lks s)) (set_kcpu (pushed (kcpu s)) s).

(** ** Locks *)

Lemma touch_touch k : touch (touch k) = touch k.
Proof. unfold touch. destruct (noff k =? 0) eqn:E; simpl; [done|by rewrite E]. Qed.

Lemma cpu_ok_touch k : cpu_ok k → cpu_ok (touch k).
Proof. intros [??]. unfold touch. destruct (noff k =? 0) eqn:E; [|done]. split; simpl; [lia|lia]. Qed.

Lemma cpu_ok_pushed k : cpu_ok k → cpu_ok (pushed k).
Proof. intros [??]. split; simpl; [lia|done]. Qed.

Lemma touch_pos k : 0 < noff k → touch k = k.
Proof. unfold touch. intros. destruct (Z.eqb_spec (noff k) 0); [lia|done]. Qed.

Lemma relax_relax s : relax (relax s) = relax s.
Proof. unfold relax, set_kcpu. simpl. by rewrite touch_touch. Qed.

Lemma relax_pos (s : K) : 0 < noff (kcpu s) → relax s = s.
Proof. intros. unfold relax. rewrite touch_pos by done. by destruct s. Qed.

Lemma wp_push_off (s : K) Q : Q tt (set_kcpu (pushed (kcpu s)) s) → wp (on_cpu push_off) s Q.
Proof. intros HQ. apply wp_zoom. by eapply wp_Ok; [apply push_off_run|]. Qed.

(** [pop_off] undoes the [push_off] of a CPU in state [k]. *)
Lemma wp_pop_off k (s : K) Q :
  cpu_ok k → kcpu s = pushed k → Q tt (set_kcpu (touch k) s) → wp (on_cpu pop_off) s Q.
Proof.
  intros [Hn Hs] E HQ. apply wp_zoom. rewrite E. eapply wp_Ok; [apply pop_off_run; simpl; [done|lia]|]. simpl.
  replace (noff k + 1 - 1) with (noff k) by lia. unfold touch in HQ.
  destruct (Z.eqb_spec (noff k) 0) as [E0|E0]; simpl; [by rewrite E0|].
  replace (mkCpu (noff k) (intena k) false) with k; [done|]. destruct k; simpl in *. rewrite Hs by lia. done.
Qed.

Lemma wp_acquire l (s : K) Q : lks s l = initlock → Q tt (entered l s) → wp (acquire l) s Q.
Proof.
  intros El HQ. unfold acquire. apply wp_bind, wp_push_off. apply wp_bind, wp_gets. apply wp_bind, wp_gets.
  simpl. rewrite El. apply wp_modify. exact HQ.
Qed.

Lemma wp_release l k (s : K) Q :
  cpu_ok k → kcpu s = pushed k → lks s l = mkLock true (Some (mycpu s)) →
  Q tt (set_kcpu (touch k) (set_lks (<[l := initlock]> (lks s)) s)) → wp (release l) s Q.
Proof.
  intros Hk Ek El HQ. unfold release. apply wp_bind, wp_gets. apply wp_bind, wp_gets.
  rewrite El. unfold holding. simpl. rewrite bool_decide_true by done. simpl.
  apply wp_bind, wp_modify. by apply (wp_pop_off k).
Qed.

(** Leaving the critical section of a lock that was free before. *)
Lemma wp_leave l (s : K) Q :
  cpu_ok (kcpu s) → lks s l = initlock → Q tt (relax s) → wp (release l) (entered l s) Q.
Proof.
  intros Hk El HQ. apply (wp_release l (kcpu s)); [done|done|simpl; by rewrite fn_lookup_insert|].
  replace (set_kcpu _ _) with (relax s); [done|]. unfold relax, set_kcpu. simpl. f_equal.
  extensionality l'. fn_case l l'; [done|]. done.
Qed.

Lemma wp_myproc (s : K) Q : cpu_ok (kcpu s) → Q (cproc s) (relax s) → wp myproc s Q.
Proof.
  intros Hk HQ. unfold myproc. apply wp_bind, wp_push_off. apply wp_bind, wp_gets. apply wp_bind.
  by apply (wp_pop_off (kcpu s)).
Qed.

Lemma wp_current i (s : K) Q : cpu_ok (kcpu s) → cproc s = Some i → Q i (relax s) → wp current s Q.
Proof. intros Hk Ei HQ. unfold current. apply wp_bind. apply wp_myproc; [done|]. by rewrite Ei. Qed.

Lemma wp_pget {A} i p (f : proc → A) (s : K) Q :
  procs s !! i = Some p → Q (f p) s → wp (pget i f) s Q.
Proof. intros E HQ. unfold pget. apply wp_bind, wp_get. by rewrite E. Qed.

Lemma alter_insert f (i : nat) (p : proc) (ps : list proc) : ps !! i = Some p → alter f i ps = <[i := f p]> ps.
Proof.
  intros E. apply list_eq. intros j. destruct (decide (i = j)) as [<-|].
  - rewrite list_lookup_alter_eq, E. symmetry. apply list_lookup_insert_eq. by eapply lookup_lt_Some.
  - by rewrite list_lookup_alter_ne, list_lookup_insert_ne.
Qed.

Definition with_proc (i : nat) (p : proc) (s : K) : K := set_procs (<[i := p]> (procs s)) s.

Lemma with_proc_twice i p q s : with_proc i q (with_proc i p s) = with_proc i q s.
Proof. unfold with_proc, set_procs. simpl. by rewrite list_insert_insert_eq. Qed.

Lemma with_proc_id i p s : procs s !! i = Some p → with_proc i p s = s.
Proof. intros E. unfold with_proc. rewrite list_insert_id by done. by destruct s. Qed.

Lemma with_proc_lookup i p s : (i < length (procs s))%nat → procs (with_proc i p s) !! i = Some p.
Proof. intros E. by apply list_lookup_insert_eq. Qed.

Lemma wp_pset i p f (s : K) Q :
  procs s !! i = Some p → Q tt (with_proc i (f p) s) → wp (pset i f) s Q.
Proof. intros E HQ. apply wp_modify. by rewrite (alter_insert _ _ p). Qed.

Lemma wp_pset_next i p f (s : K) Q :
  (i < length (procs s))%nat → Q tt (with_proc i (f p) s) → wp (pset i f) (with_proc i p s) Q.
Proof. intros E HQ. apply (wp_pset i p); [by apply with_proc_lookup|]. by rewrite with_proc_twice. Qed.

(** ** Loops over the table *)

Lemma wp_for_procs (I : nat → K → Prop) n i body (s : K) Q :
  I i s →
  (∀ k x, (i ≤ k < i + n)%nat → I k x → wp (body k) x (λ _ x', I (S k) x')) →
  (∀ x, I (i + n)%nat x → Q tt x) → wp (for_procs n i body) s Q.
Proof.
  revert i s. induction n as [|n IH]; intros i s Hi Hb HQ; simpl.
  - apply HQ. by rewrite Nat.add_0_r.
  - apply wp_bind. eapply wp_mono; [apply Hb; [lia|done]|]. intros [] x Hx. apply (IH (S i)); [done| |].
    + intros. apply Hb; [lia|done].
    + intros y. replace (S i + n)%nat with (i + S n)%nat by lia. apply HQ.
Qed.

(** A search that passes the entries below [n] and changes no more than [relax] does. *)
Lemma wp_search_none {A} n i body (s : K) (Q : option A → K → Prop) :
  (0 < n)%nat →
  (∀ k x, (i ≤ k < i + n)%nat → x = s ∨ x = relax s → wp (body k) x (λ r x', r = None ∧ x' = relax s)) →
  Q None (relax s) → wp (search_procs n i body) s Q.
Proof.
  intros Hn Hb HQ.
  assert (∀ m j x, (i ≤ j)%nat → (j + m = i + n)%nat → x = s ∧ m ≠ O ∨ x = relax s →
    wp (search_procs m j body) x Q) as Hl; [|apply Hl; [done..|left; split; [done|lia]]].
  induction m as [|m IH]; intros j x Hj Hm Hx; simpl.
  - destruct Hx as [[]| ->]; [done|]. by apply wp_ret.
  - apply wp_bind. eapply wp_mono; [apply Hb; [lia|naive_solver]|]. intros r x' [-> ->].
    apply IH; [lia|lia|by right].
Qed.

(** A search that stops at [i + d]. *)
Lemma wp_search_some {A} d n i body (s : K) (Q : option A → K → Prop) :
  (d < n)%nat →
  (∀ k x, (i ≤ k < i + d)%nat → x = s ∨ x = relax s → wp (body k) x (λ r x', r = None ∧ x' = relax s)) →
  (∀ x, x = s ∨ x = relax s → wp (body (i + d)%nat) x (λ r x', is_Some r ∧ Q r x')) →
  wp (search_procs n i body) s Q.
Proof.
  intros Hn Hb Hl.
  assert (∀ m n j x, (d = m + (j - i))%nat → (i ≤ j)%nat → (m < n)%nat → x = s ∨ x = relax s →
    wp (search_procs n j body) x Q) as Hs; [|apply (Hs d); [lia|lia|done|by left]].
  clear n Hn. induction m as [|m IH]; intros n j x Hm Hj Hn Hx; (destruct n as [|n]; [lia|]); simpl; apply wp_bind.
  - replace j with (i + d)%nat by lia. eapply wp_mono; [by apply Hl|]. intros r x' [[a ->] HQ]. by apply wp_ret.
  - eapply wp_mono; [apply Hb; [lia|done]|]. intros r x' [-> ->]. apply IH; [lia|lia|lia|by right].
Qed.

(** ** Waking and killing *)

(** The states in which no process lock is held and the table has its size. *)
Record unlocked (s : K) : Prop := {
  ul_cpu : cpu_ok (kcpu s);
  ul_locks j : lks s (ProcLock j) = initlock;
  ul_len : length (procs s) = NPROC;
}.

Lemma unlocked_relax s : unlocked s → unlocked (relax s).
Proof. intros [??]. split; [by apply cpu_ok_touch|done..]. Qed.

Lemma unlocked_procs ps s : unlocked s → length ps = NPROC → unlocked (set_procs ps s).
Proof. intros [??]. by split. Qed.

Lemma unlocked_with i p s : unlocked s → unlocked (with_proc i p s).
Proof. intros U. apply unlocked_procs; [done|]. rewrite length_insert. apply U. Qed.

Lemma wp_setkilled i p (s : K) Q :
  unlocked s → procs s !! i = Some p → Q tt (relax (with_proc i (set_killedf 1 p) s)) → wp (setkilled i) s Q.
Proof.
  intros U Hp HQ. apply wp_bind, wp_acquire; [apply U|]. apply wp_bind. apply (wp_pset i p); [done|].
  apply (wp_leave _ (with_proc _ _ s)); [apply U|apply U|done].
Qed.

Lemma wp_killed i p (s : K) Q :
  cpu_ok (kcpu s) → lks s (ProcLock i) = initlock → procs s !! i = Some p →
  Q (killedf p) (relax s) → wp (killed i) s Q.
Proof.
  intros Hk Hl Hp HQ. apply wp_bind, wp_acquire; [done|]. apply wp_bind. apply (wp_pget i p); [done|].
  apply wp_bind. by apply (wp_leave _ s).
Qed.

Lemma wp_wakeup_visit ch i p (s : K) Q :
  unlocked s → procs s !! i = Some p →
  Q tt (relax (with_proc i (if decide (cproc s = Some i) then p else wake ch p) s)) →
  wp (wakeup_visit ch i) s Q.
Proof.
  intros U Hp HQ. apply wp_bind. apply wp_myproc; [apply U|]. destruct (decide (cproc s = Some i)).
  { apply wp_ret. by rewrite with_proc_id in HQ. }
  apply wp_bind, wp_acquire; [apply U|]. apply wp_bind. apply (wp_pget i p); [done|]. apply wp_bind.
  apply (wp_pget i p); [done|]. apply wp_bind. unfold wake in HQ.
  assert (∀ q, wp (release (ProcLock i)) (with_proc i q (entered (ProcLock i) (relax s)))
    (λ _ x, x = relax (with_proc i q s))) as Hl.
  { intros q. apply (wp_leave _ (with_proc i q (relax s))); [apply cpu_ok_touch, U|apply U|]. apply (relax_relax (with_proc i q s)). }
  apply wp_when; intros E; rewrite E in HQ.
  - apply wp_bind. apply (wp_pset i p); [done|]. apply wp_pset_next; [by eapply lookup_lt_Some|].
    eapply wp_mono; [apply Hl|]. by intros [] ? ->.
  - specialize (Hl p). rewrite with_proc_id in Hl by done.
    eapply wp_mono; [apply Hl|]. by intros [] ? ->.
Qed.

Lemma woken_len ch me ps : length (woken ch me ps) = length ps.
Proof. apply length_imap. Qed.

Lemma wp_wakeup ch (s : K) Q :
  unlocked s → Q tt (relax (set_procs (woken ch (cproc s) (procs s)) s)) → wp (wakeup ch) s Q.
Proof.
  intros U HQ. set (ps k := woken ch (cproc s) (take k (procs s)) ++ drop k (procs s)).
  apply (wp_for_procs (λ k x, x = set_procs (ps k) (if decide (k = 0%nat) then s else relax s))).
  - simpl. unfold ps. simpl. rewrite drop_0. by destruct s.
  - intros k x [_ Hk] ->. rewrite <-(ul_len _ U) in Hk. destruct (lookup_lt_is_Some_2 _ _ Hk) as [p Hp].
    assert (length (woken ch (cproc s) (take k (procs s))) = k) as El by (rewrite woken_len, length_take; lia).
    apply (wp_wakeup_visit _ _ p).
    + apply unlocked_procs; [case_decide; [done|by apply unlocked_relax]|].
      unfold ps. rewrite length_app, El, length_drop. pose proof (ul_len _ U). lia.
    + simpl. unfold ps. rewrite lookup_app_r, El, Nat.sub_diag, lookup_drop, Nat.add_0_r by lia. done.
    + replace (cproc (set_procs (ps k) _)) with (cproc s) by (by case_decide).
      set (q := if decide (cproc s = Some k) then p else wake ch p).
      assert (<[k := q]> (ps k) = ps (S k)) as E.
      { unfold ps. rewrite insert_app_r_alt, El, Nat.sub_diag by lia. rewrite (drop_S _ p) by done. simpl.
        rewrite (take_S_r _ _ p) by done. unfold woken. rewrite imap_app. simpl. rewrite length_take_le by lia.
        rewrite Nat.add_0_r, <-app_assoc. done. }
      unfold with_proc. simpl. rewrite E. destruct (decide (k = 0%nat)); [done|].
      exact (relax_relax (set_procs (ps (S k)) s)).
  - intros x ->. unfold ps. rewrite Nat.add_0_l, decide_False by done.
    rewrite <-(ul_len _ U), take_ge, drop_ge, app_nil_r by lia. done.
Qed.

Lemma wp_kkill_pass victim i p (s : K) Q :
  unlocked s → procs s !! i = Some p → pid p ≠ victim → Q None (relax s) → wp (kkill_visit victim i) s Q.
Proof.
  intros U Hp Hv HQ. apply wp_bind, wp_acquire; [apply U|]. apply wp_bind. apply (wp_pget i p); [done|].
  destruct (Z.eqb_spec (pid p) victim); [done|]. apply wp_bind. by apply (wp_leave _ s); [apply U|apply U|].
Qed.

Lemma wp_kkill_hit i p (s : K) Q :
  unlocked s → procs s !! i = Some p → Q (Some 0) (relax (with_proc i (slain p) s)) →
  wp (kkill_visit (pid p) i) s Q.
Proof.
  intros U Hp HQ. pose proof (lookup_lt_Some _ _ _ Hp) as Hi.
  apply wp_bind, wp_acquire; [apply U|]. apply wp_bind. apply (wp_pget i p); [done|]. rewrite Z.eqb_refl.
  apply wp_bind. apply (wp_pset i p); [done|]. apply wp_bind.
  apply (wp_pget i (set_killedf 1 p)); [by apply with_proc_lookup|]. apply wp_bind.
  assert (slain p = if bool_decide (state p = SLEEPING) then set_state RUNNABLE (set_ready 0 (set_killedf 1 p))
                    else set_killedf 1 p) as E.
  { unfold slain. simpl. by case_bool_decide; case_decide. }
  rewrite E in HQ. apply wp_when; simpl; intros E1; rewrite E1 in HQ.
  - apply wp_bind, wp_pset_next; [done|]. apply wp_pset_next; [done|]. apply wp_bind.
    by apply (wp_leave _ (with_proc i _ s)); [apply U|apply U|].
  - apply wp_bind. by apply (wp_leave _ (with_proc i _ s)); [apply U|apply U|].
Qed.

Lemma relax_cases (s x : K) :
  unlocked s → x = s ∨ x = relax s → unlocked x ∧ procs x = procs s ∧ relax x = relax s.
Proof. intros U [-> | ->]; [done|]. split_and!; [by apply unlocked_relax|done|apply relax_relax]. Qed.

Lemma wp_kkill victim (s : K) Q :
  unlocked s →
  match list_find (λ p, pid p = victim) (procs s) with
  | Some (i, p) => Q 0 (relax (with_proc i (slain p) s))
  | None => Q (-1) (relax s)
  end → wp (kkill victim) s Q.
Proof.
  intros U HQ. unfold kkill. apply wp_bind.
  destruct (list_find _ _) as [[i p]|] eqn:E.
  - apply list_find_Some in E. destruct E as (Hp & <- & Hb). pose proof (lookup_lt_Some _ _ _ Hp) as Hi.
    apply (wp_search_some i); [by rewrite <-(ul_len _ U)|..].
    + intros k x [_ Hk] Hx. destruct (lookup_lt_is_Some_2 (procs s) k) as [q Hq]; [lia|].
      destruct (relax_cases _ _ U Hx) as (U' & Ep & Er). rewrite <-Ep in Hq.
      apply (wp_kkill_pass _ _ q); [done|done| |by rewrite Er]. rewrite Ep in Hq. apply (Hb k q Hq). lia.
    + intros x Hx. destruct (relax_cases _ _ U Hx) as (U' & Ep & Er).
      apply wp_kkill_hit; [done|by rewrite Ep|]. split; [done|]. apply wp_ret.
      destruct Hx as [-> | ->]; [done|]. by rewrite <-(relax_relax (with_proc i (slain p) s)) in HQ.
  - apply list_find_None in E. rewrite Forall_lookup in E. apply wp_search_none; [by apply Nat.ltb_lt| |by apply wp_ret].
    intros k x [_ Hk] Hx. rewrite Nat.add_0_l, <-(ul_len _ U) in Hk. destruct (lookup_lt_is_Some_2 _ _ Hk) as [q Hq].
    destruct (relax_cases _ _ U Hx) as (U' & Ep & Er).
    apply (wp_kkill_pass _ _ q); [done|by rewrite Ep|by eapply E|by rewrite Er].
Qed.

(** ** Handing children over *)

Lemma wake_parent ch p : parent (wake ch p) = parent p.
Proof. unfold wake. by destruct (_ && _). Qed.
Lemma wake_wake ch p : wake ch (wake ch p) = wake ch p.
Proof. unfold wake at 2 3. destruct (_ && _) eqn:E; [|unfold wake; by rewrite E]. done. Qed.
Lemma wake_set_parent ch o p : wake ch (set_parent o p) = set_parent o (wake ch p).
Proof. unfold wake. simpl. by destruct (_ && _). Qed.

(** The table after the entries before [k] were visited: [seen] says whether
    one of them was a child. *)
Definition visited (i : nat) (init me : option nat) (seen : bool) (k : nat) (ps : list proc) : list proc :=
  imap (λ j p, let p := if decide (j < k ∧ parent p = Some i)%nat then set_parent init p else p in
               if seen && negb (bool_decide (me = Some j)) then wake (proc_chan init) p else p) ps.

Lemma visited_none i init me ps : visited i init me false 0 ps = ps.
Proof.
  apply list_eq. intros j. unfold visited. rewrite list_lookup_imap. destruct (ps !! j); opt; [|done].
  by rewrite decide_False by (intros []; lia).
Qed.

Lemma visited_skip i init me b k p ps :
  ps !! k = Some p → parent p ≠ Some i → visited i init me b (S k) ps = visited i init me b k ps.
Proof.
  intros Hp Hne. apply list_eq. intros j. unfold visited. rewrite !list_lookup_imap.
  destruct (ps !! j) as [q|] eqn:Hq; opt; [|done]. destruct (decide (j = k)) as [->|].
  - simplify_eq. by rewrite !decide_False by naive_solver.
  - assert (j < S k ↔ j < k)%nat as E by lia. do 2 f_equal; by destruct (decide _), (decide _); try tauto.
Qed.

Lemma visited_child i init me b k p ps :
  ps !! k = Some p → parent p = Some i →
  woken (proc_chan init) me (alter (set_parent init) k (visited i init me b k ps)) = visited i init me true (S k) ps.
Proof.
  intros Hp He. apply list_eq. intros j. unfold woken. rewrite list_lookup_imap. unfold visited.
  rewrite !list_lookup_imap. destruct (decide (k = j)) as [<-|].
  - rewrite list_lookup_alter_eq, list_lookup_imap, Hp. opt. rewrite (decide_False (P := _ ∧ _)), (decide_True (P := _ ∧ _)) by (auto || (intros []; lia)).
    f_equal. destruct (decide (me = Some k)); [rewrite bool_decide_true by done|rewrite bool_decide_false by done]; simpl;
      [by rewrite andb_false_r|]. rewrite andb_true_r.
    destruct b; [|done]. by rewrite <-wake_set_parent, wake_wake.
  - rewrite list_lookup_alter_ne, list_lookup_imap by done. destruct (ps !! j) as [q|]; opt; [|done]. f_equal.
    assert (j < S k ↔ j < k)%nat as E by lia.
    assert ((if decide (j < k ∧ parent q = Some i)%nat then set_parent init q else q) =
            (if decide (j < S k ∧ parent q = Some i)%nat then set_parent init q else q)) as ->
      by (destruct (decide _), (decide _); tauto).
    destruct (decide (me = Some j)); [rewrite bool_decide_true by done|rewrite bool_decide_false by done]; simpl;
      [by rewrite andb_false_r|]. rewrite andb_true_r. destruct b; [apply wake_wake|done].
Qed.

Lemma visited_all i init me ps :
  visited i init me (has_child i ps) (length ps) ps = reparented i init me ps.
Proof.
  apply list_eq. intros j. unfold visited, reparented. rewrite list_lookup_imap.
  destruct (has_child i ps) eqn:E; unfold woken, abandon; [rewrite list_lookup_imap, list_lookup_fmap|];
    destruct (ps !! j) as [p|] eqn:Hp; opt; try done; apply lookup_lt_Some in Hp as Hj.
  - assert ((if decide (j < length ps ∧ parent p = Some i)%nat then set_parent init p else p) =
            (if decide (parent p = Some i) then set_parent init p else p)) as ->
      by (destruct (decide _), (decide _); tauto).
    by destruct (decide (me = Some j)); [rewrite bool_decide_true by done|rewrite bool_decide_false by done].
  - rewrite decide_False; [done|]. intros [_ Hc]. unfold has_child in E.
    rewrite <-not_true_iff_false, existsb_exists in E. apply E. exists p.
    split; [by apply list_elem_of_In, (list_elem_of_lookup_2 _ j)|by apply bool_decide_eq_true].
Qed.

Lemma has_child_S i k p ps :
  ps !! k = Some p → has_child i (take (S k) ps) = has_child i (take k ps) || bool_decide (parent p = Some i).
Proof. intros Hp. unfold has_child. rewrite (take_S_r _ _ p) by done. rewrite existsb_app. simpl. by rewrite orb_false_r. Qed.

Lemma visited_len i init me b k ps : length (visited i init me b k ps) = length ps.
Proof. apply length_imap. Qed.

Lemma wp_reparent `{FileOps fsT} i (s : K) Q :
  unlocked s → 0 < noff (kcpu s) →
  Q tt (set_procs (reparented i (initproc s) (cproc s) (procs s)) s) → wp (reparent i) s Q.
Proof.
  intros U Hn HQ. set (V b k := visited i (initproc s) (cproc s) b k (procs s)).
  apply (wp_for_procs (λ k x, x = set_procs (V (has_child i (take k (procs s))) k) s)).
  - unfold V. simpl. rewrite visited_none. by destruct s.
  - intros k x [_ Hk] ->. rewrite <-(ul_len _ U) in Hk. destruct (lookup_lt_is_Some_2 _ _ Hk) as [p Hp].
    set (b := has_child i (take k (procs s))).
    assert (V b k !! k = Some (if b && negb (bool_decide (cproc s = Some k)) then wake (proc_chan (initproc s)) p else p)) as E.
    { unfold V, visited. rewrite list_lookup_imap, Hp. opt. by rewrite decide_False by (intros []; lia). }
    apply wp_bind. eapply wp_pget; [exact E|]. rewrite (has_child_S _ _ p) by done. fold b.
    assert (∀ c : bool, parent (if c then wake (proc_chan (initproc s)) p else p) = parent p) as ->
      by (intros []; [apply wake_parent|done]).
    apply wp_when; intros Hc; rewrite Hc.
    + apply bool_decide_eq_true in Hc. apply wp_bind, wp_gets. apply wp_bind, wp_modify. apply wp_wakeup.
      { apply (unlocked_procs _ s); [done|]. simpl. rewrite length_alter. unfold V. by rewrite visited_len, (ul_len _ U). }
      rewrite orb_true_r. rewrite relax_pos by done. simpl. unfold V. by rewrite (visited_child _ _ _ _ _ p).
    + apply bool_decide_eq_false in Hc. rewrite orb_false_r. unfold V. by rewrite (visited_skip _ _ _ _ _ p).
  - intros x ->. rewrite Nat.add_0_l. unfold V. rewrite <-(ul_len _ U), take_ge by lia. by rewrite visited_all.
Qed.
End ops.
