(* ===== verification/Sched.v ===== *)
(** * The scheduler

    One pass of [scheduler]: which processes it switches to, in which order,
    and how aging bounds the time that a process can be passed over. *)

From stdpp Require Import sorting.
From S2P Require Import Prelude Riscv Memory Kalloc Vm Spinlock Proc ProcOps.

(** A process as the scheduler leaves it when it passes over it at tick [now]. *)
Definition stamp (now : Z) (p : proc) : proc :=
  if bool_decide (state p = RUNNABLE) && (ready_since p =? 0) then set_ready now p else p.

(** The level at which a pass at tick [now] finds a process. *)
Definition level_of (now : Z) (p : proc) : Z := effective_priority now (stamp now p).

Definition ready_at (now level : Z) (p : proc) : Prop := state p = RUNNABLE ∧ level_of now p = level.
#[export] Instance ready_at_dec now level p : Decision (ready_at now level p).
Proof. unfold ready_at. apply _. Defined.

Lemma stamp_state now p : state (stamp now p) = state p.
Proof. unfold stamp. by destruct (_ && _). Qed.
Lemma stamp_priority now p : priority (stamp now p) = priority p.
Proof. unfold stamp. by destruct (_ && _). Qed.
Lemma stamp_stamp now p : stamp now (stamp now p) = stamp now p.
Proof.
  unfold stamp at 2 3. destruct (_ && _) eqn:E; [|unfold stamp; by rewrite E].
  clear E. unfold stamp. by destruct (_ && _).
Qed.
Lemma level_stamp now p : level_of now (stamp now p) = level_of now p.
Proof. unfold level_of. by rewrite stamp_stamp. Qed.

Lemma ready_stamp now level p : ready_at now level (stamp now p) ↔ ready_at now level p.
Proof. unfold ready_at. by rewrite stamp_state, level_stamp. Qed.

(** ** Effective priorities *)

Lemma effective_small now p :
  0 ≤ priority p ≤ PRIORITY_MAX → 0 ≤ ready_since p ≤ now → now < 2 ^ 32 →
  effective_priority now p = Z.max 0 (priority p - (now - ready_since p) / AGING_INTERVAL).
Proof.
  intros Hp Hr Hn. unfold effective_priority, PRIORITY_MIN, PRIORITY_MAX, AGING_INTERVAL in *.
  rewrite u32_small by lia. assert (0 ≤ (now - ready_since p) / 20 ≤ 2 ^ 32 / 20) by (split; [dlia|apply Z.div_le_mono; lia]).
  change (2 ^ 32 / 20) with 214748364 in *.
  rewrite !s32_small by (rewrite ?s32_small by lia; lia). destruct (Z.ltb_spec (priority p - (now - ready_since p) / 20) 0); lia.
Qed.

Lemma effective_range now p :
  0 ≤ priority p ≤ PRIORITY_MAX → PRIORITY_MIN ≤ effective_priority now p ≤ priority p.
Proof.
  intros Hp. unfold effective_priority, PRIORITY_MIN, PRIORITY_MAX, AGING_INTERVAL in *.
  pose proof (u32_range (now - ready_since p)). set (w := u32 _) in *.
  assert (0 ≤ w / 20 ≤ 2 ^ 32 / 20) by (split; [dlia|apply Z.div_le_mono; lia]).
  change (2 ^ 32 / 20) with 214748364 in *.
  rewrite !s32_small by (rewrite ?s32_small by lia; lia). destruct (Z.ltb_spec (priority p - w / 20) 0); lia.
Qed.

Lemma level_range now p : 0 ≤ priority p ≤ PRIORITY_MAX → PRIORITY_MIN ≤ level_of now p ≤ PRIORITY_MAX.
Proof. intros Hp. pose proof (effective_range now (stamp now p)). rewrite stamp_priority in *. unfold level_of. lia. Qed.

(** ** What a wait depends on *)

(** Two entries that the scheduler does not tell apart. *)
Definition like (p q : proc) : Prop :=
  state q = state p ∧ priority q = priority p ∧ ready_since q = ready_since p.

Lemma like_trans p q r : like p q → like q r → like p r.
Proof. unfold like. intuition congruence. Qed.
Lemma like_effective now p q : like p q → effective_priority now q = effective_priority now p.
Proof. intros (_ & E1 & E2). unfold effective_priority. by rewrite E1, E2. Qed.
Lemma like_stamp now p q : like p q → like (stamp now p) (stamp now q).
Proof. intros (E1 & E2 & E3). unfold stamp. rewrite E1, E3. by destruct (_ && _). Qed.
Lemma like_level now p q : like p q → level_of now q = level_of now p.
Proof. intros L. unfold level_of. by apply like_effective, like_stamp. Qed.
Lemma like_ready now level p q : like p q → ready_at now level p ↔ ready_at now level q.
Proof. intros L. unfold ready_at. rewrite (like_level _ _ _ L). by destruct L as (-> & _). Qed.

Section sched.
Context {fsT : Type} `{Switch fsT}.
Notation K := (kst fsT).

(** The state in which a pass at tick [now] switches to process [i] at level [B]:
    the process has just been taken out of the RUNNABLE ones, its effective priority
    is [B], and its lock is the only lock of a process that is held. *)
Record dispatching (now B : Z) (i : nat) (s : K) : Prop := {
  di_cproc : cproc s = Some i;
  di_running : ∃ p, procs s !! i = Some p ∧ state p = RUNNING ∧ effective_priority now p = B;
  di_locks j : lks s (ProcLock j) = if decide (j = i) then mkLock true (Some (mycpu s)) else initlock;
  di_cpu : noff (kcpu s) = 1 ∧ sie (kcpu s) = false;
  di_len : length (procs s) = NPROC;
}.

(** The state in which the scheduler is switched back to: what [sched] makes sure
    of, and that the locks of the other processes can be taken.  The process
    that ran, and whatever else happened meanwhile, may have changed any entry;
    those of [calm] kept their state, priority and start of the wait if they
    were RUNNABLE. *)
Record returned (calm : nat → Prop) (i : nat) (s s' : K) : Prop := {
  rt_locks j : lks s' (ProcLock j) = if decide (j = i) then mkLock true (Some (mycpu s')) else initlock;
  rt_cpu : noff (kcpu s') = 1 ∧ sie (kcpu s') = false;
  rt_len : length (procs s') = NPROC;
  rt_calm j p : j ≠ i → calm j → procs s !! j = Some p → state p = RUNNABLE → ∃ p', procs s' !! j = Some p' ∧ like p p';
}.

(** ** One entry *)

Lemma wp_pass_over now level i p (s : K) Q :
  unlocked s → procs s !! i = Some p → ¬ ready_at now level p →
  Q false (relax (with_proc i (stamp now p) s)) → wp (scheduler_visit now level i) s Q.
Proof.
  intros U Hp Hn HQ. pose proof (lookup_lt_Some _ _ _ Hp) as Hi.
  apply wp_bind, wp_acquire; [apply U|]. apply wp_bind. apply (wp_pget i p); [done|]. apply wp_bind.
  assert (∀ q, q = stamp now p → wp (release (ProcLock i) ;; mret false) (with_proc i q (entered (ProcLock i) s)) Q) as Hl.
  { intros q ->. apply wp_bind. by apply (wp_leave _ (with_proc i (stamp now p) s)); [apply U|apply U|]. }
  destruct (decide (state p = RUNNABLE)) as [Er|Er].
  - apply wp_bind. apply (wp_pget i p); [done|]. apply wp_bind.
    assert (∀ q, q = stamp now p → wp (eff ← pget i (effective_priority now);
      if eff =? level then pset i (set_state RUNNING) ;; modify (set_cproc (Some i)) ;; to_process i ;;
        modify (set_cproc None) ;; mret true else mret false) (with_proc i q (entered (ProcLock i) s))
      (λ r x, wp (release (ProcLock i) ;; mret r) x Q)) as Hc.
    { intros q ->. apply wp_bind. apply (wp_pget i (stamp now p)); [by apply with_proc_lookup|].
      destruct (Z.eqb_spec (effective_priority now (stamp now p)) level); [by destruct Hn|]. apply wp_ret. by apply Hl. }
    unfold stamp in Hc. rewrite bool_decide_true in Hc by done.
    apply wp_when; intros E; rewrite E in Hc; simpl in Hc.
    + apply (wp_pset i p); [done|]. by apply Hc.
    + specialize (Hc p eq_refl). by rewrite with_proc_id in Hc.
  - apply wp_ret. specialize (Hl p). rewrite with_proc_id in Hl by done. apply Hl. unfold stamp.
    by rewrite bool_decide_false.
Qed.

(** The state of the scheduler between two entries. *)
Definition idle (s : K) : Prop := unlocked s ∧ noff (kcpu s) = 0.

Lemma idle_relax s : idle s → idle (relax s).
Proof.
  intros [U E]. split; [by apply unlocked_relax|]. simpl. unfold touch. by rewrite E.
Qed.

Lemma idle_with i p s : idle s → idle (with_proc i p s).
Proof. intros [U E]. split; [by apply unlocked_with|done]. Qed.

(** [B] is the best level of a RUNNABLE process. *)
Definition best (now : Z) (s : K) (B : Z) : Prop :=
  (∃ j p, procs s !! j = Some p ∧ ready_at now B p) ∧
  ∀ j p, procs s !! j = Some p → state p = RUNNABLE → B ≤ level_of now p.

Definition stamped (now : Z) (s x : K) : Prop := ∀ j, procs x !! j = stamp now <$> procs s !! j.

Lemma stamped_lookup now s x j p :
  stamped now s x → procs s !! j = Some p → procs x !! j = Some (stamp now p).
Proof. intros Hx Hp. by rewrite Hx, Hp. Qed.

Lemma stamped_inv now s x j q :
  stamped now s x → procs x !! j = Some q → ∃ p, procs s !! j = Some p ∧ q = stamp now p.
Proof. intros Hx Hq. rewrite Hx in Hq. destruct (procs s !! j) as [p|]; naive_solver. Qed.

Lemma stamped_best now s x B : stamped now s x → best now s B → best now x B.
Proof.
  intros Hx [(j & p & Hp & Hr) Hm]. split.
  - exists j, (stamp now p). by rewrite Hx, Hp, ready_stamp.
  - intros k q (p' & Hp' & ->)%(stamped_inv _ _ _ _ _ Hx). rewrite stamp_state, level_stamp. by apply (Hm k).
Qed.

Lemma exists_ready now level (s : K) :
  (∃ j p, procs s !! j = Some p ∧ ready_at now level p) ∨ (∀ k q, procs s !! k = Some q → ¬ ready_at now level q).
Proof.
  destruct (decide (Exists (ready_at now level) (procs s))) as [He|He].
  - left. apply Exists_exists in He as (p & (j & Hj)%list_elem_of_lookup & Hr). eauto.
  - right. intros k q Hq Hr. apply He, Exists_exists. eauto using list_elem_of_lookup_2.
Qed.

(** A RUNNABLE process has a priority that [setpriority] accepts. *)
Definition priorities_ok (s : K) : Prop :=
  ∀ j p, procs s !! j = Some p → state p = RUNNABLE → 0 ≤ priority p ≤ PRIORITY_MAX.

Lemma best_exists now (s : K) j p :
  procs s !! j = Some p → state p = RUNNABLE → priorities_ok s → ∃ B, best now s B ∧ 0 ≤ B ≤ level_of now p.
Proof.
  intros Hp Hr Hok. pose proof (level_range now p (Hok j p Hp Hr)) as Hlv.
  assert (∀ n, (∃ B, best now s B ∧ 0 ≤ B ≤ level_of now p) ∨
    (∀ k q, procs s !! k = Some q → state q = RUNNABLE → Z.of_nat n ≤ level_of now q)) as Hn.
  { induction n as [|n [IH|IH]]; [right|by left|].
    - intros k q Hq Hrq. pose proof (level_range now q (Hok k q Hq Hrq)). unfold PRIORITY_MIN in *. lia.
    - destruct (exists_ready now (Z.of_nat n) s) as [(k & q & Hq & Hrq)|Hx].
      + left. exists (Z.of_nat n). split; [split; [eauto|done]|]. specialize (IH j p Hp Hr). lia.
      + right. intros k q Hq Hrq. specialize (IH k q Hq Hrq). assert (level_of now q ≠ Z.of_nat n); [|lia].
        intros E. by destruct (Hx k q). }
  destruct (Hn (S (Z.to_nat (level_of now p)))) as [?|Hc]; [done|]. specialize (Hc j p Hp Hr). unfold PRIORITY_MIN in *. lia.
Qed.

(** ** A level at which nobody is ready *)

Lemma wp_level_none now level n i (s : K) Q :
  idle s → (i + n ≤ NPROC)%nat → (∀ k q, (i ≤ k < i + n)%nat → procs s !! k = Some q → ¬ ready_at now level q) →
  (∀ x, idle x → (∀ j, procs x !! j = if decide (i ≤ j < i + n)%nat then stamp now <$> procs s !! j else procs s !! j) → Q [] x) →
  wp (scheduler_level n i now level) s Q.
Proof.
  revert i s Q. induction n as [|n IH]; intros i s Q Hs Hn Hb HQ; simpl.
  - apply wp_ret, HQ; [done|]. intros j. by rewrite decide_False by lia.
  - destruct (lookup_lt_is_Some_2 (procs s) i) as [p Hp]; [rewrite (ul_len _ (proj1 Hs)); lia|]. apply wp_bind.
    apply (wp_pass_over _ _ _ p); [apply Hs|done|apply (Hb i p); [lia|done]|]. pose proof (lookup_lt_Some _ _ _ Hp) as Hi.
    assert (∀ j, procs (relax (with_proc i (stamp now p) s)) !! j = if decide (j = i) then Some (stamp now p) else procs s !! j) as El.
    { intros j. simpl. destruct (decide (j = i)) as [->|]; [by apply list_lookup_insert_eq|by apply list_lookup_insert_ne]. }
    apply wp_bind, IH; [by apply idle_relax, idle_with|lia| |].
    + intros k q Hk. rewrite El, decide_False by lia. apply Hb. lia.
    + intros x Hx Ex. apply wp_ret, HQ; [done|]. intros j. rewrite Ex, El. destruct (decide (j = i)) as [->|].
      * rewrite decide_False, decide_True, Hp by lia. done.
      * by destruct (decide _), (decide _); try lia.
Qed.

Lemma wp_level_stamps now level (s : K) Q :
  idle s → (∀ k q, procs s !! k = Some q → ¬ ready_at now level q) → (∀ x, idle x → stamped now s x → Q [] x) →
  wp (scheduler_level NPROC 0 now level) s Q.
Proof.
  intros Hs Hb HQ. apply wp_level_none; [done|lia|intros k q _; apply Hb|]. intros x Hx Ex. apply HQ; [done|]. intros j. rewrite Ex.
  destruct (procs s !! j) as [p|] eqn:Hp; [|by destruct (decide _)]. apply lookup_lt_Some in Hp. rewrite (ul_len _ (proj1 Hs)) in Hp. by rewrite decide_True by lia.
Qed.

(** ** The best level *)

Section best.
Context (now B : Z) (calm : nat → Prop).
Context (Hrun : ∀ i s, dispatching now B i s → wp (to_process i) s (λ _ s', returned calm i s s')).

Lemma wp_dispatch i p (s : K) Q :
  idle s → procs s !! i = Some p → ready_at now B p →
  (∀ x, idle x → (∀ j q, j ≠ i → calm j → procs s !! j = Some q → state q = RUNNABLE → ∃ q', procs x !! j = Some q' ∧ like q q') → Q true x) →
  wp (scheduler_visit now B i) s Q.
Proof.
  intros [U E0] Hp [Er El] HQ. pose proof (lookup_lt_Some _ _ _ Hp) as Hi. pose proof (ul_len _ U) as Hlen.
  apply wp_bind, wp_acquire; [apply U|]. apply wp_bind. apply (wp_pget i p); [done|]. rewrite decide_True by done.
  apply wp_bind, wp_bind. apply (wp_pget i p); [done|]. apply wp_bind.
  assert (∀ q, q = stamp now p → wp (eff ← pget i (effective_priority now);
      if eff =? B then pset i (set_state RUNNING) ;; modify (set_cproc (Some i)) ;; to_process i ;;
        modify (set_cproc None) ;; mret true else mret false) (with_proc i q (entered (ProcLock i) s))
      (λ r x, wp (release (ProcLock i) ;; mret r) x Q)) as Hc.
  { intros q ->. apply wp_bind. apply (wp_pget i (stamp now p)); [by apply with_proc_lookup|].
    fold (level_of now p). rewrite (proj2 (Z.eqb_eq _ _) El). apply wp_bind, wp_pset_next; [done|].
    apply wp_bind, wp_modify. set (d := set_cproc _ _). apply wp_bind. eapply wp_mono; [apply Hrun|].
    - split; [done|..].
      + eexists. split; [by apply with_proc_lookup|]. split; [done|]. exact El.
      + intros j. cbn [d lks set_cproc with_proc set_procs entered set_lks mycpu set_kcpu]. destruct (decide (j = i)) as [->|].
        * by rewrite fn_lookup_insert.
        * rewrite fn_lookup_insert_ne by congruence. apply U.
      + simpl. split; [lia|done].
      + simpl. by rewrite length_insert.
    - intros [] x R. apply wp_bind, wp_modify. apply wp_ret. apply wp_bind.
      apply (wp_release _ (mkCpu 0 (intena (kcpu x)) (intena (kcpu x)))).
      + split; simpl; [lia|done].
      + destruct (rt_cpu _ _ _ _ R) as [E1 E2]. simpl. destruct (kcpu x) as [n e b]. simpl in *. by subst.
      + simpl. rewrite (rt_locks _ _ _ _ R), decide_True by done. done.
      + apply wp_ret, HQ.
        * split; [split; simpl; [by split|..|apply (rt_len _ _ _ _ R)]|done]. intros j.
          destruct (decide (j = i)) as [->|]; [by rewrite fn_lookup_insert|].
          rewrite fn_lookup_insert_ne by congruence. by rewrite (rt_locks _ _ _ _ R), decide_False.
        * intros j q Hj Hcj Hq Hr. simpl. apply (rt_calm _ _ _ _ R); [done|done| |done]. simpl. by rewrite list_lookup_insert_ne. }
  unfold stamp in Hc. rewrite bool_decide_true in Hc by done.
  apply wp_when; intros E; rewrite E in Hc; simpl in Hc.
  - apply (wp_pset i p); [done|]. by apply Hc.
  - specialize (Hc p eq_refl). by rewrite with_proc_id in Hc.
Qed.

(** What a pass over the [n] entries from [i] has done: [l] lists the processes
    it switched to. *)
Record level_done (i n : nat) (s : K) (l : list nat) (x : K) : Prop := {
  ld_idle : idle x;
  ld_sorted : StronglySorted lt l;
  ld_range j : j ∈ l → (i ≤ j < i + n)%nat;
  ld_all j p : (i ≤ j < i + n)%nat → calm j → procs s !! j = Some p → ready_at now B p → j ∈ l;
  ld_other j p : calm j → procs s !! j = Some p → state p = RUNNABLE → ¬ ((i ≤ j < i + n)%nat ∧ ready_at now B p) →
    j ∉ l ∧ ∃ p', procs x !! j = Some p' ∧ like (if decide (i ≤ j < i + n)%nat then stamp now p else p) p';
  ld_head j p : (i ≤ j < i + n)%nat → procs s !! j = Some p → ready_at now B p →
    (∀ k q, (i ≤ k < j)%nat → procs s !! k = Some q → ¬ ready_at now B q) → head l = Some j;
}.

Lemma level_done_run i n (s x1 x : K) l p :
  procs s !! i = Some p → ready_at now B p →
  (∀ j q, j ≠ i → calm j → procs s !! j = Some q → state q = RUNNABLE → ∃ q', procs x1 !! j = Some q' ∧ like q q') →
  level_done (S i) n x1 l x → level_done i (S n) s (i :: l) x.
Proof.
  intros Hp Hr Hk [a1 a2 a3 a4 a5 a6]. split.
  - done.
  - constructor; [done|]. rewrite Forall_forall. intros j Hj. specialize (a3 j Hj). lia.
  - intros j [->|Hj]%elem_of_cons; [lia|]. specialize (a3 j Hj). lia.
  - intros j q Hj Hcj Hq Hrq. destruct (decide (j = i)) as [->|Hne]; [left|right].
    destruct (Hk j q Hne Hcj Hq (proj1 Hrq)) as (q' & Hq' & L). apply (a4 j q'); [lia|done|done|]. by apply (like_ready _ _ _ _ L).
  - intros j q Hcj Hq Hrq Hn. assert (j ≠ i) as Hne.
    { intros ->. apply Hn. split; [lia|]. by simplify_eq. }
    destruct (Hk j q Hne Hcj Hq Hrq) as (q' & Hq' & L).
    destruct (a5 j q') as [Hl (q2 & Hx & L2)]; [done|done|by rewrite (proj1 L)|intros [? ?%(like_ready _ _ _ _ L)]; apply Hn; split; [lia|done]|].
    split; [by intros [->|?]%elem_of_cons|]. exists q2. split; [done|]. eapply like_trans; [|exact L2].
    destruct (decide _), (decide _); try lia; [by apply like_stamp|done].
  - intros j q Hj Hq Hrq Hb. destruct (decide (j = i)) as [->|Hne]; [done|]. destruct (Hb i p); [lia|done..].
Qed.

Lemma like_refl p : like p p.
Proof. done. Qed.

Lemma level_done_pass i n (s x : K) l p :
  procs s !! i = Some p → ¬ ready_at now B p →
  level_done (S i) n (relax (with_proc i (stamp now p) s)) l x → level_done i (S n) s l x.
Proof.
  intros Hp Hr [a1 a2 a3 a4 a5 a6]. pose proof (lookup_lt_Some _ _ _ Hp) as Hi.
  assert (∀ j, procs (relax (with_proc i (stamp now p) s)) !! j = if decide (j = i) then Some (stamp now p) else procs s !! j) as El.
  { intros j. simpl. destruct (decide (j = i)) as [->|]; [by apply list_lookup_insert_eq|by apply list_lookup_insert_ne]. }
  assert (∀ j q, procs s !! j = Some q → ready_at now B q → j ≠ i) as Hne.
  { intros j q Hq Hrq ->. by simplify_eq. }
  split.
  - done.
  - done.
  - intros j Hj. specialize (a3 j Hj). lia.
  - intros j q Hj Hcj Hq Hrq. pose proof (Hne j q Hq Hrq). apply (a4 j q); [lia|done| |done]. by rewrite El, decide_False.
  - intros j q Hcj Hq Hrq Hn. destruct (decide (j = i)) as [->|Hji].
    + simplify_eq. destruct (a5 i (stamp now p)) as [Hl Hx]; [done|by rewrite El, decide_True|by rewrite stamp_state|lia|].
      split; [done|]. rewrite decide_False in Hx by lia. by rewrite decide_True by lia.
    + destruct (a5 j q) as [Hl Hx]; [done|by rewrite El, decide_False|done|intros [? ?]; apply Hn; split; [lia|done]|].
      split; [done|]. by destruct (decide (S i ≤ j < _)%nat), (decide (i ≤ j < _)%nat); try lia.
  - intros j q Hj Hq Hrq Hb. pose proof (Hne j q Hq Hrq).
    apply (a6 j q); [lia|by rewrite El, decide_False|done|]. intros k q' Hk. rewrite El, decide_False by lia. apply Hb. lia.
Qed.

Lemma wp_level n i (s : K) Q :
  idle s → (i + n ≤ NPROC)%nat → (∀ l x, level_done i n s l x → Q l x) →
  wp (scheduler_level n i now B) s Q.
Proof.
  revert i s Q. induction n as [|n IH]; intros i s Q Hs Hn HQ; simpl.
  - apply wp_ret, HQ. split; [done|constructor|set_solver|lia| |lia].
    intros j p _ Hp _ _. rewrite decide_False by lia. split; [set_solver|]. exists p. split; [done|apply like_refl].
  - destruct (lookup_lt_is_Some_2 (procs s) i) as [p Hp]; [rewrite (ul_len _ (proj1 Hs)); lia|]. apply wp_bind.
    destruct (decide (ready_at now B p)) as [Hr|Hr].
    + eapply wp_dispatch; [done..|]. intros x1 Hx1 Hk. apply wp_bind, IH; [done|lia|]. intros l x L.
      apply wp_ret, HQ. by eapply level_done_run.
    + apply (wp_pass_over _ _ _ p); [apply Hs|done|done|]. apply wp_bind, IH; [by apply idle_relax, idle_with|lia|].
      intros l x L. apply wp_ret, HQ. by eapply level_done_pass.
Qed.

(** The level that comes after the whole table was stamped. *)
Lemma level_done_stamped s x1 l x :
  idle s → stamped now s x1 → level_done 0 NPROC x1 l x → level_done 0 NPROC s l x.
Proof.
  intros [U _] Hx1 [a1 a2 a3 a4 a5 a6]. split; [done..| | |].
  - intros j p Hj Hcj Hp Hr. apply (a4 j (stamp now p)); [done|done|by rewrite Hx1, Hp|by apply ready_stamp].
  - intros j p Hcj Hp Hr Hn. destruct (a5 j (stamp now p)) as [Hl Hx].
    + done.
    + by rewrite Hx1, Hp.
    + by rewrite stamp_state.
    + by rewrite ready_stamp.
    + split; [done|]. apply lookup_lt_Some in Hp. rewrite (ul_len _ U) in Hp.
      rewrite decide_True in Hx by lia. rewrite decide_True by lia. by rewrite stamp_stamp in Hx.
  - intros j p Hj Hp Hr Hb. apply (a6 j (stamp now p)); [done|by rewrite Hx1, Hp|by apply ready_stamp|].
    intros k q Hk (p' & Hp' & ->)%(stamped_inv _ _ _ _ _ Hx1). rewrite ready_stamp. by apply (Hb k).
Qed.

(** The first process at the best level is switched to, whatever the others do. *)
Lemma level_done_some s l x j p :
  idle s → procs s !! j = Some p → ready_at now B p → level_done 0 NPROC s l x → l ≠ [].
Proof.
  intros [U _] Hp Hr L ->. revert p Hp Hr. induction j as [j IH] using lt_wf_ind. intros p Hp Hr.
  pose proof (lookup_lt_Some _ _ _ Hp) as Hj. rewrite (ul_len _ U) in Hj.
  assert (head (A := nat) [] = Some j); [|done]. apply (ld_head _ _ _ _ _ L j p); [lia|done|done|].
  intros k q [_ Hk] Hq Hrq. exact (IH k Hk q Hq Hrq).
Qed.

Lemma wp_levels n level (s : K) Q :
  idle s → best now s B → level ≤ B < level + Z.of_nat n → (∀ l x, level_done 0 NPROC s l x → Q l x) →
  wp (scheduler_levels n now level) s Q.
Proof.
  revert level s Q. induction n as [|n IH]; intros level s Q Hs Hb HB HQ; [lia|]. cbn [scheduler_levels]. apply wp_bind.
  destruct (decide (level = B)) as [->|Hne].
  - apply wp_level; [done|lia|]. intros l x L. destruct Hb as [(j & p & Hp & Hr) _].
    pose proof (level_done_some _ _ _ _ _ Hs Hp Hr L) as Hl. destruct l; [done|]. by apply wp_ret, HQ.
  - apply wp_level_stamps; [done| |].
    + intros k q Hq [Hr Hl]. pose proof (proj2 Hb k q Hq Hr). lia.
    + intros x Hx Hst. apply IH; [done|by eapply stamped_best|lia|]. intros l y L. apply HQ. by eapply level_done_stamped.
Qed.
End best.

Lemma best_range now (s : K) B : priorities_ok s → best now s B → 0 ≤ B < 0 + Z.of_nat 5.
Proof.
  intros Hok [(j & p & Hp & Hr & <-) _]. pose proof (level_range now p (Hok j p Hp Hr)). unfold PRIORITY_MIN, PRIORITY_MAX in *. lia.
Qed.

(** The pass when somebody is RUNNABLE. *)
Lemma wp_pass B calm (s : K) Q :
  (∀ i d, dispatching (ticks s) B i d → wp (to_process i) d (λ _ d', returned calm i d d')) →
  idle s → lks s TicksLock = initlock → priorities_ok s → best (ticks s) s B →
  (∀ l x, level_done (ticks s) B calm 0 NPROC (relax s) l x → Q l x) → wp scheduler_pass s Q.
Proof.
  intros Hrun Hs Hl Hok Hb HQ. unfold scheduler_pass. apply wp_bind, wp_acquire; [done|]. apply wp_bind, wp_gets.
  apply wp_bind. apply (wp_leave _ s); [apply Hs|done|]. change (Z.to_nat _) with 5%nat.
  apply (wp_levels (ticks s) B calm Hrun); [by apply idle_relax|done|by eapply best_range|done].
Qed.

(** ** Properties *)

(** C8. A pass of the scheduler runs the best level.  Let [B] be the lowest
    effective priority of a RUNNABLE process at the tick of the pass.  The pass
    switches to a process only in the states [dispatching B]: the process was
    RUNNABLE, its effective priority at that moment is [B], and its lock is the
    only one held; of a switch in another state nothing is assumed.  Nobody is
    switched to twice; the processes are taken in table order, starting with the
    first one at level [B].  A process that runs may change any entry of the
    table.  Of the processes of [calm], whose state, priority and start of the
    wait are left alone while they are RUNNABLE and another one runs, those at
    level [B] are switched to and no other is, and one that is passed over stays
    RUNNABLE, with the start of its wait recorded. *)
Theorem scheduler_runs_best_level calm B (s : K) :
  (∀ i d, dispatching (ticks s) B i d → wp (to_process i) d (λ _ d', returned calm i d d')) →
  idle s → lks s TicksLock = initlock → priorities_ok s → best (ticks s) s B →
  wp scheduler_pass s (λ l x,
    idle x ∧ StronglySorted lt l ∧
    (∀ j p, procs s !! j = Some p → ready_at (ticks s) B p →
       (∀ k q, (k < j)%nat → procs s !! k = Some q → ¬ ready_at (ticks s) B q) → head l = Some j) ∧
    (∀ j p, calm j → procs s !! j = Some p → state p = RUNNABLE →
       (j ∈ l ↔ level_of (ticks s) p = B) ∧
       (j ∉ l → ∃ p', procs x !! j = Some p' ∧ like (stamp (ticks s) p) p'))).
Proof.
  intros Hrun Hs Hl Hok HB. apply (wp_pass B calm); [done..|]. intros l x [a1 a2 a3 a4 a5 a6]. split; [done|].
  assert (∀ j p, procs s !! j = Some p → (0 ≤ j < 0 + NPROC)%nat) as Hlen.
  { intros j p Hj%lookup_lt_Some. rewrite (ul_len _ (proj1 Hs)) in Hj. lia. }
  split_and!; [done| |].
  - intros j p Hp Hr Hb. apply (a6 j p); [by eapply Hlen|done|done|]. intros k' q' Hk. apply Hb. lia.
  - intros j p Hcj Hp Hr. specialize (Hlen j p Hp). destruct (decide (level_of (ticks s) p = B)) as [E|E].
    + assert (j ∈ l) by (by apply (a4 j p)). split; [by split|done].
    + destruct (a5 j p) as [Hn Hy]; [done|done|done|by intros [_ [_ ?]]|]. rewrite decide_True in Hy by done. by split; [|intros _].
Qed.

(** C9. Aging bounds the time a process can be passed over.  Let process [i] be
    RUNNABLE when a pass begins at a tick above zero, its wait not begun in the
    future.  Either that pass switches to it; or any pass that begins
    [AGING_INTERVAL] times its priority later switches to it, whatever else is
    RUNNABLE.  The processes that run may change any entry of the table, but not
    the state, priority and start of the wait of process [i] while it is
    RUNNABLE; between the two passes these three stay as they were. *)
Theorem aging_bounds_waiting (s1 s2 : K) i p :
  (∀ now B j d, dispatching now B j d → wp (to_process j) d (λ _ d', returned (λ k, k = i) j d d')) →
  idle s1 → lks s1 TicksLock = initlock → priorities_ok s1 →
  idle s2 → lks s2 TicksLock = initlock → priorities_ok s2 →
  procs s1 !! i = Some p → state p = RUNNABLE → 0 ≤ ready_since p ≤ ticks s1 → 0 < ticks s1 →
  wp scheduler_pass s1 (λ l1 x1,
    i ∈ l1 ∨
    (∀ q1 q2, procs x1 !! i = Some q1 → procs s2 !! i = Some q2 → like q1 q2 →
     ticks s1 + AGING_INTERVAL * priority p ≤ ticks s2 < 2 ^ 32 →
     wp scheduler_pass s2 (λ l2 _, i ∈ l2))).
Proof.
  intros Hrun Hs1 Hl1 Hok1 Hs2 Hl2 Hok2 Hp Hr Hrs Ht.
  assert (∀ s j q, idle s → procs s !! j = Some q → (0 ≤ j < 0 + NPROC)%nat) as Hlen.
  { intros s j q [U _] Hj%lookup_lt_Some. rewrite (ul_len _ U) in Hj. lia. }
  destruct (best_exists (ticks s1) s1 i p) as (B & HB & HBr); [done..|].
  apply (wp_pass B (λ k, k = i)); [apply Hrun|done..|]. intros l x [a1 a2 a3 a4 a5 a6].
  destruct (decide (level_of (ticks s1) p = B)) as [E|E]; [left; apply (a4 i p); [by apply (Hlen s1 i p)|done|done|done]|].
  right. destruct (a5 i p) as [_ (q & Hx & L)]; [done|done|done|by intros [_ [_ ?]]|]. rewrite decide_True in L by (by apply (Hlen s1 i p)).
  intros q1 q2 H1 H2 L2 Ht2. rewrite Hx in H1. injection H1 as <-. pose proof (like_trans _ _ _ L L2) as (Lr & Lp & Ls).
  rewrite stamp_state in Lr. rewrite stamp_priority in Lp.
  assert (0 < ready_since q2 ≤ ticks s1) as Hsq.
  { rewrite Ls. unfold stamp. rewrite bool_decide_true by done. simpl. destruct (Z.eqb_spec (ready_since p) 0); simpl; lia. }
  assert (level_of (ticks s2) q2 = 0) as Hq0.
  { pose proof (Hok1 i p Hp Hr). unfold level_of, stamp. rewrite bool_decide_true by congruence.
    destruct (Z.eqb_spec (ready_since q2) 0); [lia|]. simpl.
    rewrite effective_small by (rewrite ?Lp; unfold AGING_INTERVAL in *; lia). rewrite Lp. unfold AGING_INTERVAL in *.
    assert (priority p ≤ (ticks s2 - ready_since q2) / 20); [apply Z.div_le_lower_bound; lia|lia]. }
  destruct (best_exists (ticks s2) s2 i q2) as (B2 & HB2 & HB2r); [done|congruence|done|]. assert (B2 = 0) as -> by lia.
  apply (wp_pass 0 (λ k, k = i)); [apply Hrun|done..|]. intros l2 x2 L0.
  apply (ld_all _ _ _ _ _ _ _ _ L0 i q2); [by apply (Hlen s2 i q2)|done|done|]. split; [congruence|done].
Qed.

Lemma wp_levels_none now n level (s : K) Q :
  idle s → (∀ j p, procs s !! j = Some p → state p ≠ RUNNABLE) → (∀ x, idle x → procs x = procs s → Q [] x) →
  wp (scheduler_levels n now level) s Q.
Proof.
  revert level s. induction n as [|n IH]; intros level s Hs Hn HQ; [by apply wp_ret, HQ|]. cbn [scheduler_levels]. apply wp_bind, wp_level_stamps; [done|by intros k q Hq [? _]; eapply Hn|].
  intros x Hx Hst. assert (procs x = procs s) as E.
  { apply list_eq. intros j. rewrite Hst. destruct (procs s !! j) as [p|] eqn:Hp; [|done]. simpl. unfold stamp. by rewrite bool_decide_false by (by apply (Hn j)). }
  apply IH; [done|by rewrite E|]. intros y Hy Ey. apply HQ; [done|]. by rewrite Ey.
Qed.

(** A pass that finds no RUNNABLE process switches to nobody and leaves
    the process table as it was. *)
Lemma scheduler_idles (s : K) :
  idle s → lks s TicksLock = initlock →
  (∀ j p, procs s !! j = Some p → state p ≠ RUNNABLE) →
  wp scheduler_pass s (λ l x, l = [] ∧ procs x = procs s).
Proof.
  intros Hs Hl Hn. unfold scheduler_pass. apply wp_bind, wp_acquire; [done|]. apply wp_bind, wp_gets.
  apply wp_bind. apply (wp_leave _ s); [apply Hs|done|]. apply wp_levels_none; [by apply idle_relax|done|by intros].
Qed.
End sched.

(** C40. A wait that another CPU recorded with a later tick than this CPU's
    snapshot underflows: the process looks as if it had waited for most of the
    range of the clock, and any priority becomes the highest one. *)
Theorem stale_clock_boosts now d p :
  state p = RUNNABLE → 0 ≤ priority p ≤ PRIORITY_MAX →
  ready_since p = now + d → 0 ≤ now → 0 < d ≤ 2 ^ 31 → now + d < 2 ^ 32 →
  level_of now p = PRIORITY_MIN.
Proof.
  intros Hr Hp Es Hn Hd Hm. unfold level_of, stamp. rewrite bool_decide_true by done.
  destruct (Z.eqb_spec (ready_since p) 0); [lia|]. simpl.
  unfold effective_priority, PRIORITY_MIN, PRIORITY_MAX, AGING_INTERVAL in *. rewrite Es.
  replace (now - (now + d)) with (- d) by lia. unfold u32. replace (- d) with (2 ^ 32 - d + (-1) * 2 ^ 32) by lia.
  rewrite Z.mod_add by lia. rewrite Z.mod_small by lia.
  assert (2 ^ 31 / 20 ≤ (2 ^ 32 - d) / 20 ≤ 2 ^ 32 / 20) as Hb by (split; apply Z.div_le_mono; lia).
  change (2 ^ 32 / 20) with 214748364 in Hb. change (2 ^ 31 / 20) with 107374182 in Hb.
  rewrite !s32_small by (rewrite ?s32_small by lia; lia). destruct (Z.ltb_spec (priority p - (2 ^ 32 - d) / 20) 0); lia.
Qed.
