(* ===== verification/ProcMem.v ===== *)
(** * Memory owned by processes

    [preserves D]: what the memory operations of proc.c leave alone when they
    create, copy or free one process - the address spaces and the trapframes of
    all others ([D] names the root and the pages that are excepted). *)

From S2P Require Import Prelude Riscv Memory Kalloc Vm VmInv VmWalk VmRef VmOps Cow VmUser Fork VmRoot VmFree ProcVm.

Section procmem.
Context `{Layout, !LayoutOk}.

Record preserves (D : gset Z) (g : ghost) (s : kmem) (g' : ghost) (s' : kmem) : Prop := {
  pv_root r : r ∈ roots g → r ∉ D → r ∈ roots g';
  pv_reads r va : r ∈ roots g → r ∉ D → 0 ≤ va < MAXVA → uread s' r va = uread s r va;
  pv_valid r v : r ∈ roots g → r ∉ D → 0 ≤ v < VPAGES → has (upte s' r v) PTE_V = has (upte s r v) PTE_V;
  pv_page p : private_page g p → p ∉ D → private_page g' p ∧ ∀ x, p ≤ x < p + PGSIZE → mem s' x = mem s x;
}.

Lemma preserves_refl D g s : preserves D g s g s.
Proof. by split. Qed.

(** [x] is neither a root nor a page that the kernel holds. *)
Definition unused (g : ghost) (x : Z) : Prop := x ∉ roots g ∧ own g x ≠ OData.

Lemma preserves_trans D D' g s g1 s1 g2 s2 :
  preserves D g s g1 s1 → preserves D' g1 s1 g2 s2 →
  (∀ x, x ∈ D' → x ∈ D ∨ unused g x) → preserves D g s g2 s2.
Proof.
  intros [a1 a2 a3 a4] [b1 b2 b3 b4] HD.
  assert (∀ r, r ∈ roots g → r ∉ D → r ∉ D') as Hr by (intros r ?? [?|[]]%HD; done).
  split.
  - auto.
  - intros. rewrite b2; auto.
  - intros. rewrite b3; auto.
  - intros p Hp HpD. destruct (a4 p Hp HpD) as [Hp1 Hm]. destruct (b4 p Hp1) as [Hp2 Hm2].
    { intros [?|[]]%HD; [done|]. by destruct Hp. }
    split; [done|]. intros x Hx. rewrite Hm2; auto.
Qed.

Lemma free_unused g s p : vinv g s → own g p = OFree → unused g p.
Proof. intros V Ho. split; [|congruence]. intros Hr%(root_label _ _ V). congruence. Qed.

(** No user mapping reaches a private page when every mapping already existed. *)
Lemma private_refs g s g' s' p :
  vinv g s → vinv g' s' → refs g p = ∅ →
  (∀ r v, r ∈ roots g' → 0 ≤ v < UPAGES → has (upte s' r v) PTE_V = true →
     ∃ r0, r0 ∈ roots g ∧ has (upte s r0 v) PTE_V = true ∧ PTE2PA (upte s' r v) = PTE2PA (upte s r0 v)) →
  refs g' p = ∅.
Proof.
  intros V V' He Hm. apply set_eq. intros [r v]. split; [|set_solver].
  intros (Hr & Hv & HV & E)%(refs_iff g' s' p r v V'). destruct (Hm r v Hr Hv HV) as (r0 & Hr0 & HV0 & E0).
  assert ((r0, v) ∈ refs g p) as Hin by (apply (refs_iff g s p r0 v V); split_and!; [done|lia|lia|done|congruence]).
  rewrite He in Hin. set_solver.
Qed.

(** ** The operations *)

Lemma preserves_alloc g s p fl :
  vinv g s → gfl g = p :: fl →
  preserves ∅ g s (g_alloc p fl g) (alloc_state p s) ∧ private_page (g_alloc p fl g) p.
Proof.
  intros V Hfl. pose proof (fresh_free g s p fl V Hfl) as Hfr. pose proof (fresh_page g s p fl V Hfl) as Hp.
  assert (∀ q x, own g q = OData → q ≤ x < q + PGSIZE → mem (alloc_state p s) x = mem s x) as Hm.
  { intros q x Hq Hx. apply alloc_state_outside.
    destruct (page_disjoint p q Hp ltac:(by eapply own_OData_page, Hq; apply V)); [congruence|lia|lia]. }
  assert (∀ r v, r ∈ roots g → 0 ≤ v < VPAGES → upte (alloc_state p s) r v = upte s r v) as HP.
  { apply (upte_ext g s V _ p); auto using alloc_state_outside. }
  split; [split|].
  - done.
  - intros r va Hr _ Hva. pose proof (va_vpage va Hva) as Hv.
    eapply (uread_same g s _ _ _ _ _ V Hr Hva eq_refl); [by apply HP|done|done|].
    intros Hu HV k Hk. destruct (ri_leaf _ _ _ (vi_r _ _ V) r _ Hr Hu HV) as [Ho _]. apply (Hm _ _ Ho). lia.
  - intros r v Hr _ Hv. by rewrite HP.
  - intros q (Hq & Hk & He) _. assert (p ≠ q) by congruence. split; [|intros; by eapply Hm].
    unfold private_page. gsimpl. by rewrite !fn_lookup_insert_ne.
  - unfold private_page. gsimpl. rewrite !fn_lookup_insert. split_and!; [done..|]. by eapply free_no_refs.
Qed.

Lemma preserves_keeps g s g' s' :
  vinv g s → vinv g' s' → keeps g s g' s' → roots g ⊆ roots g' →
  (∀ r v, r ∈ roots g' → r ∉ roots g → 0 ≤ v < UPAGES → has (upte s' r v) PTE_V = false) →
  preserves ∅ g s g' s'.
Proof.
  intros V V' K Hsub Hnew. split.
  - set_solver.
  - intros. by eapply keeps_reads.
  - intros r v Hr _ Hv. rewrite (kp_ptes _ _ _ _ K); [done|by apply (root_label _ _ V)|by apply vpage_va].
  - intros p (Hp & Hk & He) _. destruct (kp_data _ _ _ _ K p Hp) as (Hp' & Hk' & Hm). split; [|done].
    split_and!; [done|congruence|]. apply (private_refs g s g' s'); [done..|]. intros r v Hr Hv HV.
    destruct (decide (r ∈ roots g)) as [Hr0|Hr0]; [|by rewrite Hnew in HV]. exists r.
    rewrite (kp_ptes _ _ _ _ K) in *; [done|by apply (root_label _ _ V)|by apply upage_va|by apply (root_label _ _ V)|by apply upage_va].
Qed.

(** The entries of the child's table that [uvmcopy] does not reach. *)
Lemma shared_rest old new hp hc g s g' s' v :
  vinv g s → new ∈ roots g → old ≠ new → hc ≤ v < UPAGES → 0 ≤ hc →
  shared old new hp hc g s g' s' → upte s' new v = upte s new v.
Proof.
  intros V Hn Hne Hv Hc Sh. rewrite (sh_ptes _ _ _ _ _ _ _ _ Sh); [|by apply (root_label _ _ V)|apply upage_va; lia].
  unfold fork_pte. rewrite decide_False by naive_solver. rewrite decide_False by (intros (_ & ? & _); lia). done.
Qed.

Lemma preserves_shared old new n g s g' s' :
  vinv g s → vinv g' s' → old ∈ roots g → new ∈ roots g → old ≠ new → 0 ≤ n ≤ UPAGES →
  (∀ v, 0 ≤ v < UPAGES → has (upte s new v) PTE_V = false) →
  shared old new n n g s g' s' → preserves {[new]} g s g' s'.
Proof.
  intros V V' Ho Hn Hne Hnp Hinv Sh. assert (n ≤ n ≤ UPAGES) as Hnn by lia. split.
  - intros r Hr _. by rewrite (sh_roots _ _ _ _ _ _ _ _ Sh).
  - intros r va Hr Hrn Hva. apply (fork_reads old new n n g s g' s'); try done. set_solver.
  - intros r v Hr Hrn Hv. apply (fork_like old new n n g s g' s'); try done. set_solver.
  - intros p (Hp & Hk & He) _. destruct (sh_data _ _ _ _ _ _ _ _ Sh p Hp) as (Hp' & Hk' & Hm). split; [|done].
    split_and!; [done|congruence|]. apply set_eq. intros [r v]. split; [|set_solver].
    rewrite (fork_refs old new n n g s g' s'); try done; [|intros; apply Hinv; lia]. rewrite He. set_solver.
Qed.

Lemma preserves_undone old new hp hc g s g1 s1 g' s' :
  vinv g s → vinv g1 s1 → vinv g' s' → old ∈ roots g → new ∈ roots g → old ≠ new → 0 ≤ hc ≤ hp → hp ≤ UPAGES →
  (∀ v, 0 ≤ v < UPAGES → has (upte s new v) PTE_V = false) →
  shared old new hp hc g s g1 s1 → unmapped new 0 hc g1 s1 g' s' → preserves {[new]} g s g' s'.
Proof.
  intros V V1 V' Ho Hn Hne Hc Hp Hinv Sh U. assert (hc ≤ hp ≤ UPAGES) as Hh by lia.
  assert (∀ v, 0 ≤ v < hc → has (upte s new v) PTE_V = false) as Hi by (intros; apply Hinv; lia). split.
  - intros r Hr _. by rewrite (um_roots _ _ _ _ _ _ _ U), (sh_roots _ _ _ _ _ _ _ _ Sh).
  - intros r va Hr Hrn Hva. apply (undo_reads old new hp hc g s g1 s1) with g'; try done. set_solver.
  - intros r v Hr Hrn Hv. rewrite (undo_pte old new hp hc g s g1 s1 V Sh g' s' U) by (done || set_solver).
    apply (fork_like old new hp hc g s g1 s1); try done. set_solver.
  - intros p (Hpd & Hk & He) _. destruct (sh_data _ _ _ _ _ _ _ _ Sh p Hpd) as (Hp1 & Hk1 & Hm1).
    assert (own g' p = OData) as Hp' by (apply (um_kref _ _ _ _ _ _ _ U); [done|lia]).
    destruct (um_data _ _ _ _ _ _ _ U p Hp') as (_ & Hk' & Hm'). split; [|intros x Hx; rewrite Hm'; auto].
    split_and!; [done|congruence|]. by rewrite (undo_refs old new hp hc g s g1 s1 V V1 Ho Hn Hne Hh Hi Sh g' s' V' U).
Qed.

Lemma undone_child old new hp hc g s g1 s1 g' s' v :
  vinv g s → new ∈ roots g → old ≠ new → 0 ≤ hc →
  (∀ v, 0 ≤ v < UPAGES → has (upte s new v) PTE_V = false) →
  shared old new hp hc g s g1 s1 → unmapped new 0 hc g1 s1 g' s' → 0 ≤ v < UPAGES →
  has (upte s' new v) PTE_V = false.
Proof.
  intros V Hn Hne Hc Hinv Sh U Hv. destruct (decide (v < hc)); [apply (um_inv _ _ _ _ _ _ _ U); lia|].
  rewrite (undo_pte old new hp hc g s g1 s1 V Sh g' s' U) by (done || lia || by apply upage_vpage).
  rewrite (shared_rest old new hp hc g s g1 s1) by (done || lia). by apply Hinv.
Qed.

Lemma preserves_drop g s p :
  vinv g s → private_page g p →
  vinv (g_drop p g) (kfree_state p s) ∧ preserves {[p]} g s (g_drop p g) (kfree_state p s) ∧ own (g_drop p g) p = OFree.
Proof.
  intros V (Hp & Hk & He). assert (1 ≤ kref g p) as Hk1 by lia. pose proof (vinv_drop g s V p Hp Hk1) as V'.
  split; [done|]. split; [|].
  - split.
    + intros r Hr _. by rewrite g_drop_roots.
    + intros r va Hr _ Hva. eapply (uread_same g s _ _ _ _ _ V Hr Hva eq_refl); [|done|done|].
      * apply (drop_ptes g s V); [done|by apply (root_label _ _ V)|by apply vpage_va, va_vpage].
      * intros Hu HV k Hkk. destruct (ri_leaf _ _ _ (vi_r _ _ V) r _ Hr Hu HV) as [Ho Hin].
        apply (kfree_state_mem g s V p (PTE2PA (upte s r (va / PGSIZE))) _ Hp); [|lia]. rewrite g_drop_own_ne; [done|]. intros E. rewrite <-E, He in Hin. set_solver.
    + intros r v Hr _ Hv. by rewrite (drop_ptes g s V) by (auto using vpage_va; by apply (root_label _ _ V)).
    + intros q (Hq & Hkq & Heq) Hne. assert (p ≠ q) by set_solver.
      split; [split_and!; [by rewrite g_drop_own_ne|by rewrite g_drop_kref_ne|by rewrite g_drop_refs]|].
      intros x Hx. apply (kfree_state_mem g s V p q); [done|by rewrite g_drop_own_ne|done].
  - unfold g_drop. rewrite He, size_empty, Hk. case_decide; [gsimpl; by rewrite fn_lookup_insert|lia].
Qed.

Lemma preserves_freed r g s g' s' :
  vinv g s → vinv g' s' → freed r g s g' s' → preserves {[r]} g s g' s'.
Proof.
  intros V V' [f1 f2 f3 f4 f5 f6 f7 f8]. split.
  - intros r' Hr' Hne. rewrite f1. set_solver.
  - intros r' va Hr' Hne Hva. apply f2; set_solver.
  - intros r' v Hr' Hne Hv. rewrite f3; [done|by apply (root_label _ _ V)|set_solver|by apply vpage_va].
  - intros p (Hp & Hk & He) Hne. assert (own g' p = OData) as Hp' by (apply f6; [done|lia]).
    destruct (f5 p Hp') as (_ & Hk' & Hm). split; [|done]. split_and!; [done|congruence|].
    apply (private_refs g s g' s'); [done..|]. intros r' v Hr' Hv HV. rewrite f1 in Hr'. exists r'.
    assert (r' ∈ roots g ∧ r' ≠ r) as [Hr Hrr] by set_solver. split; [done|].
    rewrite f3 in HV |- *; auto using upage_va; by apply (root_label _ _ V).
Qed.

(** Writing a private page, as the kernel does with a trapframe. *)
Lemma preserves_write g s p m' :
  vinv g s → private_page g p → bytes_ok m' → (∀ x, x < p ∨ p + PGSIZE ≤ x → m' x = mem s x) →
  vinv g (set_mem m' s) ∧ preserves {[p]} g s g (set_mem m' s).
Proof.
  intros V (Hp & Hk & He) Hb Hm. pose proof (vinv_write_data g s V m' p Hp Hb Hm) as V'. split; [done|].
  assert (page_ok p) as Hpp by (by eapply own_OData_page, Hp; apply V).
  assert (∀ r v, r ∈ roots g → 0 ≤ v < VPAGES → upte (set_mem m' s) r v = upte s r v) as HP.
  { apply (upte_ext g s V _ p); auto. }
  assert (∀ q x, own g q = OData → p ≠ q → q ≤ x < q + PGSIZE → m' x = mem s x) as Hmq.
  { intros q x Hq Hne Hx. apply Hm. destruct (page_disjoint p q Hpp ltac:(by eapply own_OData_page, Hq; apply V)); [done|lia|lia]. }
  split.
  - done.
  - intros r va Hr _ Hva. eapply (uread_same g s _ _ _ _ _ V Hr Hva eq_refl); [by apply HP, va_vpage|done|done|].
    intros Hu HV k Hkk. destruct (ri_leaf _ _ _ (vi_r _ _ V) r _ Hr Hu HV) as [Ho Hin].
    apply (Hmq _ _ Ho); [|lia]. intros E. rewrite <-E, He in Hin. set_solver.
  - intros r v Hr _ Hv. by rewrite HP.
  - intros q Hq Hne. split; [done|]. intros x Hx. apply (Hmq q); [apply Hq|set_solver|done].
Qed.
End procmem.
