(* ===== verification/ProcFork.v ===== *)
(** * Creating and freeing processes

    The invariant that ties the process table to the memory ([pinv]), and what
    [freeproc], [allocproc] and [kfork] do to both. *)

From S2P Require Import Prelude Riscv Memory Kalloc Vm VmInv VmWalk VmRef VmOps Cow VmUser Fork VmRoot VmFree.
From S2P Require Import ProcVm Spinlock Proc ProcOps ProcMem.

(** An entry after [freeproc]. *)
Definition cleared (p : proc) : proc :=
  mkProc UNUSED ChanNull 0 0 0 DEFAULT_PRIORITY 0 None (kstack p) 0 0 0 (context p) (ofile p) (cwd p)
         (<[0%nat := 0]> (name p)).

(** The same with any saved context, which nobody uses. *)
Definition cleared_as (q c : proc) : Prop := ∃ ctx, c = set_context ctx (cleared q).

(** An entry that [allocproc] returns. *)
Definition born `{Code} (pid : Z) (q : proc) (tf pt : Z) : proc :=
  mkProc USED (chan q) (killedf q) (xstate q) pid DEFAULT_PRIORITY 0 (parent q) (kstack q) (sz q) pt tf
         (forkret :: u64 (kstack q + PGSIZE) :: replicate 12 0) (ofile q) (cwd q) (name q).

(** The child of process [i] with entry [p], in the slot of [q]. *)
Definition child_of `{Code} (i : nat) (p q : proc) (pid tf pt : Z) : proc :=
  mkProc RUNNABLE (chan q) (killedf q) (xstate q) pid (priority p) 0 (Some i) (kstack q) (sz p) pt tf
         (forkret :: u64 (kstack q + PGSIZE) :: replicate 12 0) (ofile p) (cwd p) (copy_name (name q) (name p)).

(** What [kfork] relies on of the file system: under a lock, duplicating an open
    file or a live inode returns it, changes the file system only, and closes
    nothing. *)
Class FileOpsOk (fsT : Type) `{FileOps fsT} := {
  file_open : fsT → Z → Prop;
  inode_live : fsT → Z → Prop;
  filedup_ok f s : cpu_ok (kcpu s) → 0 < noff (kcpu s) → lks s FtableLock = initlock → file_open (fsys s) f →
    wp (filedup f) s (λ r s', r = f ∧ ∃ x, s' = set_fsys x s ∧
      (∀ f', file_open (fsys s) f' → file_open x f') ∧ (∀ d, inode_live (fsys s) d → inode_live x d));
  idup_ok d s : cpu_ok (kcpu s) → 0 < noff (kcpu s) → lks s ItableLock = initlock → inode_live (fsys s) d →
    wp (idup d) s (λ r s', r = d ∧ ∃ x, s' = set_fsys x s ∧
      (∀ f', file_open (fsys s) f' → file_open x f') ∧ (∀ d, inode_live (fsys s) d → inode_live x d));
}.

Section fork.
Context {fsT : Type} `{Layout, !LayoutOk, Code, FileOps fsT, Switch fsT}.
Notation K := (kst fsT).

(** ** The invariant *)

(** The memory of a process in use: its page table, its trapframe, its size. *)
Record space (g : ghost) (m : kmem) (p : proc) : Prop := {
  sp_root : pagetable p ∈ roots g;
  sp_frame : private_page g (trapframe p);
  sp_size : 0 ≤ sz p ≤ TRAPFRAME;
  sp_top : topped m (pagetable p) (sz p);
}.

Definition used (p : proc) : Prop := state p ≠ UNUSED.

Record pinv (g : ghost) (s : K) : Prop := {
  pi_v : vinv g (mach s);
  pi_space i p : procs s !! i = Some p → used p → space g (mach s) p;
  pi_unused i p : procs s !! i = Some p → ¬ used p → trapframe p = 0 ∧ pagetable p = 0 ∧ sz p = 0 ∧ killedf p = 0;
  pi_files i p : procs s !! i = Some p → length (ofile p) = NOFILE ∧ (¬ used p ∨ state p = ZOMBIE → ofile p = replicate NOFILE 0);
  pi_tables i j p q : i ≠ j → procs s !! i = Some p → procs s !! j = Some q → used p → used q → pagetable p ≠ pagetable q;
  pi_frames i j p q : i ≠ j → procs s !! i = Some p → procs s !! j = Some q → used p → used q → trapframe p ≠ trapframe q;
  pi_next : 0 < nextpid s;
  pi_pid i p : procs s !! i = Some p → used p → 0 < pid p < nextpid s;
  pi_pids i j p q : i ≠ j → procs s !! i = Some p → procs s !! j = Some q → used p → used q → pid p ≠ pid q;
}.

(** An address space and a trapframe that are not excepted stay as they are. *)
Lemma space_preserved D g m g' m' p :
  preserves D g m g' m' → space g m p → pagetable p ∉ D → trapframe p ∉ D → space g' m' p.
Proof.
  intros P [a1 a2 a3 a4] Hpt Htf. split.
  - by apply (pv_root _ _ _ _ _ P).
  - by apply (pv_page _ _ _ _ _ P).
  - done.
  - intros v Hv. pose proof (npg_range _ a3). rewrite (pv_valid _ _ _ _ _ P) by (done || apply upage_vpage; lia). by apply a4.
Qed.

Lemma nonzero_page g m p : vinv g m → own g p ≠ ONone → p ≠ 0.
Proof. intros V Ho. assert (page_ok p) as Hp by (by apply (own_page_ok g m); [apply V|]). pose proof (page_ok_pos p Hp). lia. Qed.

(** ** freeproc *)

(** What [freeproc] needs of an entry: each of the trapframe and the table is
    absent or owned by this process. *)
Definition freeable (g : ghost) (m : kmem) (p : proc) : Prop :=
  (trapframe p = 0 ∨ trapframe p ≠ 0 ∧ private_page g (trapframe p)) ∧
  (pagetable p = 0 ∨ pagetable p ≠ 0 ∧ pagetable p ∈ roots g ∧ 0 ≤ sz p ≤ TRAPFRAME ∧ topped m (pagetable p) (sz p)).

(** The pages that become free with an entry: its trapframe, and what only its
    address space needs. *)
Definition belongings (p : proc) (g : ghost) (x : Z) : Prop :=
  trapframe p ≠ 0 ∧ x = trapframe p ∨ pagetable p ≠ 0 ∧ exclusive (pagetable p) g x.
Definition released (p : proc) (g g' : ghost) : Prop := ∀ x, own g' x = OFree ↔ own g x = OFree ∨ belongings p g x.

(** Only the trapframe is freed. *)
Definition frame_freed (t : Z) (g g' : ghost) : Prop :=
  refs g' = refs g ∧ (t ≠ 0 → own g' t = OFree) ∧ ∀ x, t = 0 ∨ x ≠ t → own g' x = own g x ∧ kref g' x = kref g x.

Lemma released_table p g g1 g2 m1 m2 :
  vinv g1 m1 → vinv g2 m2 → frame_freed (trapframe p) g g1 →
  (pagetable p = 0 ∧ g2 = g1 ∨ pagetable p ≠ 0 ∧ pagetable p ∈ roots g1 ∧ freed (pagetable p) g1 m1 g2 m2) → released p g g2.
Proof.
  intros V1 V2 (E1 & E2 & E3) Ht x. unfold belongings. transitivity (own g1 x = OFree ∨ pagetable p ≠ 0 ∧ exclusive (pagetable p) g1 x).
  { destruct Ht as [[Ht ->]|(Ht & Hr & F)]; [naive_solver|]. rewrite (freed_exact _ _ _ _ _ x V1 V2 Hr F). naive_solver. }
  unfold exclusive. rewrite E1. destruct (decide (trapframe p ≠ 0 ∧ x = trapframe p)) as [[Hz ->]|Hn].
  - rewrite E2 by done. naive_solver.
  - destruct (E3 x) as [-> ->]; [destruct (decide (trapframe p = 0)); [by left|right]; naive_solver|]. naive_solver.
Qed.

(** The two frees. *)
Lemma wp_free_frame g m p Q :
  vinv g m → freeable g m p →
  (∀ g1 m1, vinv g1 m1 → preserves {[trapframe p]} g m g1 m1 → frame_freed (trapframe p) g g1 → freeable g1 m1 (set_trapframe 0 p) → Q tt m1) →
  wp (when (negb (trapframe p =? 0)) (kfree (trapframe p))) m Q.
Proof.
  intros V [Hf Ht] HQ. destruct Hf as [E|[E Hp]]; rewrite ?E; [|rewrite (proj2 (Z.eqb_neq _ _) E)]; cbn [Z.eqb negb when].
  - apply wp_ret. apply (HQ g); [done|apply preserves_refl|by split_and!|]. split; [by left|exact Ht].
  - destruct (preserves_drop g m (trapframe p) V Hp) as (V1 & P & Ho).
    eapply wp_Ok; [apply (kfree_vrun g m V), Hp|]. apply (HQ (g_drop (trapframe p) g)); [done|done| |].
    { split_and!; [apply g_drop_refs|done|]. intros x [|Hx]; [done|]. split; [by apply g_drop_own_ne|by apply g_drop_kref_ne]. }
    split; [by left|]. cbn [pagetable sz set_trapframe]. destruct Ht as [?|(Hp0 & Hr & Hs & Htop)]; [by left|right].
    rewrite g_drop_roots. split_and!; [done|done|lia|lia|]. intros v Hv.
    rewrite (pv_valid _ _ _ _ _ P); [by apply Htop|done| |pose proof (npg_range _ Hs); apply upage_vpage; lia].
    intros E1%elem_of_singleton. destruct Hp as [Hp _]. pose proof (root_label _ _ V _ Hr). congruence.
Qed.

Lemma wp_free_table g m p Q :
  vinv g m → freeable g m p →
  (∀ g1 m1, vinv g1 m1 → preserves {[pagetable p]} g m g1 m1 →
     (pagetable p = 0 ∧ g1 = g ∨ pagetable p ≠ 0 ∧ pagetable p ∈ roots g ∧ freed (pagetable p) g m g1 m1) → Q tt m1) →
  wp (when (negb (pagetable p =? 0)) (proc_freepagetable (pagetable p) (sz p))) m Q.
Proof.
  intros V [_ Ht] HQ. destruct Ht as [E|(E & Hr & Hs & Htop)]; rewrite ?E; [|rewrite (proj2 (Z.eqb_neq _ _) E)]; cbn [Z.eqb negb when].
  - apply wp_ret. apply (HQ g); [done|apply preserves_refl|by left].
  - apply (wp_proc_freepagetable g); [done..|]. intros g1 m1 V1 F. apply (HQ g1); [done|by apply preserves_freed|by right].
Qed.

Lemma wp_when_mem b (c : M kmem unit) (s : K) Q :
  wp (when b c) (mach s) (λ a m, Q a (set_mach m s)) → wp (when b (on_mem c)) s Q.
Proof. destruct b; [apply wp_zoom|]. intros HQ. apply wp_ret. by destruct s. Qed.

Lemma wp_freeproc g i p (s : K) Q :
  vinv g (mach s) → procs s !! i = Some p → freeable g (mach s) p →
  (∀ g1 m1, vinv g1 m1 → preserves {[trapframe p; pagetable p]} g (mach s) g1 m1 → released p g g1 →
     Q tt (with_proc i (cleared p) (set_mach m1 s))) →
  wp (freeproc i) s Q.
Proof.
  intros V Hp Hf HQ. pose proof (lookup_lt_Some _ _ _ Hp) as Hi. unfold freeproc.
  apply wp_bind, (wp_pget i p); [done|]. apply wp_bind.
  apply wp_when_mem, (wp_free_frame g); [done..|]. intros g1 m1 V1 P1 Fr Hf1.
  apply wp_bind. apply (wp_pset i p); [done|]. apply wp_bind.
  apply (wp_pget i (set_trapframe 0 p)); [by apply with_proc_lookup|]. apply wp_bind.
  apply (wp_pget i (set_trapframe 0 p)); [by apply with_proc_lookup|]. apply wp_bind.
  apply wp_when_mem, (wp_free_table g1); [done..|]. intros g2 m2 V2 P2 Ft.
  change (set_mach m2 (with_proc i (set_trapframe 0 p) (set_mach m1 s))) with (with_proc i (set_trapframe 0 p) (set_mach m2 s)).
  repeat (apply wp_bind, wp_pset_next; [done|]). apply wp_pset_next; [done|].
  apply (HQ g2); [done| |exact (released_table p g g1 g2 m1 m2 V1 V2 Fr Ft)]. eapply preserves_trans; [|apply P2|].
  - destruct P1 as [a1 a2 a3 a4]. split; intros; [apply a1|apply a2|apply a3|apply a4]; set_solver.
  - set_solver.
Qed.

(** ** allocproc *)

Lemma pushed_touch k : pushed (touch k) = pushed k.
Proof. unfold touch. destruct (Z.eqb_spec (noff k) 0) as [E|E]; [|done]. unfold pushed. simpl. by rewrite E. Qed.

Lemma entered_relax l (s : K) : entered l (relax s) = entered l s.
Proof.
  unfold entered. change (kcpu (relax s)) with (touch (kcpu s)). by rewrite pushed_touch.
Qed.

Lemma wp_find_unused (s : K) Q :
  unlocked s → ((∀ j q, procs s !! j = Some q → used q) → Q None (relax s)) →
  (∀ j q, procs s !! j = Some q → ¬ used q → Q (Some j) (entered (ProcLock j) s)) → wp find_unused s Q.
Proof.
  intros U Hno Hyes.
  assert (∀ k q x, procs s !! k = Some q → used q → x = s ∨ x = relax s →
    wp (acquire (ProcLock k) ;; st ← pget k state;
        if decide (st = UNUSED) then mret (Some k) else release (ProcLock k) ;; mret None) x
       (λ r x', r = None ∧ x' = relax s)) as Hpass.
  { intros k q x Hq Hu Hx. destruct (relax_cases _ _ U Hx) as (U' & Ep & Er). apply wp_bind, wp_acquire; [apply U'|].
    apply wp_bind. apply (wp_pget k q); [simpl; by rewrite Ep|]. rewrite decide_False by done.
    apply wp_bind. apply wp_leave; [apply U'|apply U'|]. by apply wp_ret. }
  destruct (list_find (λ q, ¬ used q) (procs s)) as [[j q]|] eqn:E.
  - apply list_find_Some in E. destruct E as (Hq & Hu & Hb). pose proof (lookup_lt_Some _ _ _ Hq) as Hj.
    apply (wp_search_some j); [by rewrite <-(ul_len _ U)|..].
    + intros k x [_ Hk] Hx. destruct (lookup_lt_is_Some_2 (procs s) k) as [q' Hq']; [lia|].
      apply (Hpass k q'); [done| |done]. apply dec_stable, (Hb k q' Hq'). lia.
    + intros x Hx. destruct (relax_cases _ _ U Hx) as (U' & Ep & Er). rewrite Nat.add_0_l.
      apply wp_bind, wp_acquire; [apply U'|]. apply wp_bind. apply (wp_pget j q); [simpl; by rewrite Ep|].
      unfold used in Hu. rewrite decide_True by (by apply dec_stable). apply wp_ret. split; [done|].
      destruct Hx as [-> | ->]; [by eapply Hyes|rewrite entered_relax; by eapply Hyes].
  - apply list_find_None in E. rewrite Forall_lookup in E.
    assert (∀ k q, procs s !! k = Some q → used q) as Hu by (intros k q Hq; apply dec_stable, (E k q Hq)).
    apply wp_search_none; [by apply Nat.ltb_lt| |by apply Hno].
    intros k x [_ Hk] Hx. rewrite Nat.add_0_l, <-(ul_len _ U) in Hk. destruct (lookup_lt_is_Some_2 _ _ Hk) as [q Hq].
    apply (Hpass k q); eauto.
Qed.

Lemma wp_allocpid (s : K) Q :
  cpu_ok (kcpu s) → 0 < noff (kcpu s) → lks s PidLock = initlock →
  Q (nextpid s) (set_nextpid (s32 (nextpid s + 1)) s) → wp allocpid s Q.
Proof.
  intros Hk Hn Hl HQ. apply wp_bind, wp_acquire; [done|]. apply wp_bind, wp_gets. apply wp_bind, wp_modify.
  apply wp_bind. apply (wp_leave _ (set_nextpid (s32 (nextpid s + 1)) s)); [done|done|]. apply wp_ret.
  by rewrite relax_pos.
Qed.

(** The slot and the memory that a successful [allocproc] hands out. *)
Record allocated (g : ghost) (m : kmem) (tf pt : Z) (g' : ghost) (m' : kmem) : Prop := {
  al_v : vinv g' m';
  al_keep : preserves ∅ g m g' m';
  al_frame : private_page g' tf;
  al_root : pt ∈ roots g';
  al_new : own g tf = OFree ∧ own g pt = OFree;
  al_empty v : 0 ≤ v < UPAGES → has (upte m' pt v) PTE_V = false;
}.

Lemma allocated_nonzero g m tf pt g' m' : allocated g m tf pt g' m' → tf ≠ 0 ∧ pt ≠ 0.
Proof.
  intros A. pose proof (al_v _ _ _ _ _ _ A) as V. split; apply (nonzero_page g' m'); try done.
  - by destruct (al_frame _ _ _ _ _ _ A) as [-> _].
  - by rewrite (root_label _ _ V _ (al_root _ _ _ _ _ _ A)).
Qed.

Lemma created_allocated g m tf fl pt g' m' :
  vinv g m → gfl g = tf :: fl → vinv g' m' → created tf pt (g_alloc tf fl g) (alloc_state tf m) g' m' →
  allocated g m tf pt g' m'.
Proof.
  intros V Hfl V' C. destruct (preserves_alloc g m tf fl V Hfl) as [P1 Hp1]. pose proof (vinv_alloc g m V tf fl Hfl) as V1.
  assert (preserves ∅ (g_alloc tf fl g) (alloc_state tf m) g' m') as P2.
  { apply preserves_keeps; [done|done|apply (cr_keeps _ _ _ _ _ _ C)|rewrite (cr_roots _ _ _ _ _ _ C); set_solver|].
    intros r v Hr Hnr Hv. rewrite (cr_roots _ _ _ _ _ _ C) in Hr. assert (r = pt) as -> by set_solver.
    by apply (cr_user _ _ _ _ _ _ C). }
  split.
  - done.
  - eapply preserves_trans; [done|done|set_solver].
  - apply (pv_page _ _ _ _ _ P2); [done|set_solver].
  - rewrite (cr_roots _ _ _ _ _ _ C). set_solver.
  - pose proof (cr_new _ _ _ _ _ _ C) as Ho. simpl in Ho. split; [by eapply fresh_free|].
    destruct (decide (tf = pt)) as [->|]; [by rewrite fn_lookup_insert in Ho|by rewrite fn_lookup_insert_ne in Ho].
  - apply (cr_user _ _ _ _ _ _ C).
Qed.

Lemma unused_zero g m : vinv g m → unused g 0.
Proof.
  intros V. split.
  - intros Hr. apply (nonzero_page g m 0); [done|by rewrite (root_label _ _ V _ Hr)|done].
  - intros Ho. by apply (nonzero_page g m 0); [done|rewrite Ho|].
Qed.

(** Giving the new entry back. *)
Lemma wp_alloc_undo {A} (r : A) g m j p q g1 m1 (s : K) Q :
  unlocked s → (j < length (procs s))%nat → cleared p = cleared q →
  vinv g1 m1 → preserves ∅ g m g1 m1 → freeable g1 m1 p → unused g (trapframe p) → unused g (pagetable p) →
  (∀ g2 m2, vinv g2 m2 → preserves ∅ g m g2 m2 → Q r (relax (with_proc j (cleared q) (set_mach m2 s)))) →
  wp (freeproc j ;; release (ProcLock j) ;; mret r) (entered (ProcLock j) (with_proc j p (set_mach m1 s))) Q.
Proof.
  intros U Hj Ec V1 P1 Hf Ht Hp HQ. apply wp_bind. apply (wp_freeproc g1 j p); [done|by apply (with_proc_lookup j p (set_mach m1 s))|done|].
  intros g2 m2 V2 P2 _. apply wp_bind.
  change (with_proc j (cleared p) (set_mach m2 (entered (ProcLock j) (with_proc j p (set_mach m1 s)))))
    with (entered (ProcLock j) (with_proc j (cleared p) (with_proc j p (set_mach m2 s)))).
  rewrite with_proc_twice, Ec. apply wp_leave; [apply U|apply U|]. apply wp_ret. apply (HQ g2); [done|].
  eapply preserves_trans; [done|done|]. intros x Hx. assert (x = trapframe p ∨ x = pagetable p) as [-> | ->] by set_solver; auto.
Qed.

Lemma wp_allocproc g (s : K) Q :
  pinv g s → unlocked s → lks s PidLock = initlock →
  Q None (relax s) →
  (∀ j q g1 m1, procs s !! j = Some q → ¬ used q → vinv g1 m1 → preserves ∅ g (mach s) g1 m1 →
     Q None (relax (with_proc j (cleared q) (set_mach m1 (set_nextpid (s32 (nextpid s + 1)) s))))) →
  (∀ j q tf pt g1 m1, procs s !! j = Some q → ¬ used q → allocated g (mach s) tf pt g1 m1 →
     Q (Some j) (entered (ProcLock j)
       (with_proc j (born (nextpid s) q tf pt) (set_mach m1 (set_nextpid (s32 (nextpid s + 1)) s))))) →
  wp allocproc s Q.
Proof.
  intros I U Hpl Hnone Hmem Hok. pose proof (pi_v _ _ I) as V. apply wp_bind, wp_find_unused; [done|by intros _; apply wp_ret|].
  intros j q Hq Hu. pose proof (lookup_lt_Some _ _ _ Hq) as Hj. destruct (pi_unused _ _ I j q Hq Hu) as (Etf & Ept & Esz & _).
  apply wp_bind. apply wp_allocpid; [apply cpu_ok_pushed, U|simpl; pose proof (ul_cpu _ U) as []; lia|simpl; by rewrite fn_lookup_insert_ne|].
  set (s1 := set_nextpid (s32 (nextpid s + 1)) s).
  assert (unlocked s1) as U1 by (destruct U; by split).
  change (set_nextpid _ (entered (ProcLock j) s)) with (entered (ProcLock j) s1).
  apply wp_bind. apply (wp_pset j q); [done|]. do 3 (apply wp_bind, wp_pset_next; [done|]). apply wp_bind, wp_zoom.
  destruct (kalloc_cases g (mach s) V) as [[Hfl E]|(tf & fl & Hfl & Hp & Hp0 & Hfr & E)]; (eapply wp_Ok; [exact E|]); apply wp_bind.
  - apply (wp_pset_next j _ _ (set_mach (mach s) (entered (ProcLock j) s1))); [done|]. cbn [Z.eqb].
    eapply (wp_alloc_undo None g (mach s) j (set_trapframe 0 _) q g _ s1); [done|done|done|done|apply preserves_refl| | | |].
    + split; left; [done|exact Ept].
    + by eapply unused_zero.
    + simpl. rewrite Ept. by eapply unused_zero.
    + intros g2 m2 V2 P2. by eapply Hmem.
  - apply (wp_pset_next j _ _ (set_mach (alloc_state tf (mach s)) (entered (ProcLock j) s1))); [done|].
    rewrite (proj2 (Z.eqb_neq _ _) Hp0). apply wp_bind, wp_zoom.
    destruct (preserves_alloc g (mach s) tf fl V Hfl) as [P1 Hp1]. pose proof (vinv_alloc g (mach s) V tf fl Hfl) as V1.
    apply (wp_proc_pagetable (g_alloc tf fl g)); [done|by apply page_ok_paddr|..].
    + intros g2 m2 V2 Kp Er. apply wp_bind. apply (wp_pset_next j _ _ (set_mach m2 (entered (ProcLock j) s1))); [done|]. cbn [Z.eqb].
      assert (preserves ∅ (g_alloc tf fl g) (alloc_state tf (mach s)) g2 m2) as P2.
      { apply preserves_keeps; [done..|by rewrite Er|]. intros r v Hr Hnr. by rewrite Er in Hr. }
      eapply (wp_alloc_undo None g (mach s) j (set_pagetable 0 (set_trapframe tf _)) q g2 _ s1); [done|done|done|done| | | | |].
      * eapply preserves_trans; [done|done|set_solver].
      * split; [right; split; [done|apply (pv_page _ _ _ _ _ P2); [done|set_solver]]|by left].
      * by eapply free_unused.
      * by eapply unused_zero.
      * intros g3 m3 V3 P3. by eapply Hmem.
    + intros g2 m2 pt Hpt V2 C. apply wp_bind. apply (wp_pset_next j _ _ (set_mach m2 (entered (ProcLock j) s1))); [done|].
      rewrite (proj2 (Z.eqb_neq _ _) Hpt). apply wp_bind. eapply wp_pget; [by apply with_proc_lookup|].
      apply wp_bind. apply (wp_pset_next j _ _ (set_mach m2 (entered (ProcLock j) s1))); [done|]. apply wp_ret.
      apply (Hok j q tf pt g2 m2 Hq Hu). by eapply created_allocated.
Qed.

(** ** The memory of the child *)

(** [*(np->trapframe) = *(p->trapframe); np->trapframe->a0 = 0] *)
Definition frame_copy (dst src : Z) (m : kmem) : kmem :=
  set_mem (store64 (copy (mem m) dst src TF_SIZE) (dst + TF_A0) 0) m.

Record cloned (p : proc) (tf pt : Z) (g : ghost) (m : kmem) (g' : ghost) (m' : kmem) : Prop := {
  cl_v : vinv g' m';
  cl_keep : preserves ∅ g m g' m';
  cl_frame : private_page g' tf;
  cl_root : pt ∈ roots g';
  cl_new : own g tf = OFree ∧ own g pt = OFree;
  cl_top : topped m' pt (sz p);
  cl_reads va : 0 ≤ va < sz p → uread m' pt va = uread m (pagetable p) va;
  cl_regs k : 0 ≤ k < TF_SIZE → ¬ (TF_A0 ≤ k < TF_A0 + 8) → mem m' (tf + k) = mem m (trapframe p + k);
  cl_a0 : load64 (mem m') (tf + TF_A0) = 0;
}.

Lemma frame_copy_preserves g m tf src :
  vinv g m → private_page g tf →
  vinv g (frame_copy tf src m) ∧ preserves {[tf]} g m g (frame_copy tf src m).
Proof.
  intros V Hp. apply preserves_write; [done|done|apply bytes_ok_store64, bytes_ok_copy, V|].
  intros x Hx. unfold store64, store_le, copy, TF_A0, TF_SIZE, PGSIZE in *. mem_cases; done || lia.
Qed.

Lemma frame_copy_regs m tf src k :
  0 ≤ k < TF_SIZE → ¬ (TF_A0 ≤ k < TF_A0 + 8) → mem (frame_copy tf src m) (tf + k) = mem m (src + k).
Proof.
  intros Hk Ha. unfold frame_copy. simpl. unfold store64, store_le, copy, TF_A0, TF_SIZE in *.
  mem_cases; (lia || (f_equal; lia)).
Qed.

Lemma alloc_tables_ne g m p tf pt g1 m1 :
  vinv g m → space g m p → allocated g m tf pt g1 m1 →
  pagetable p ∈ roots g1 ∧ pagetable p ≠ pt ∧ trapframe p ≠ tf ∧ pt ≠ tf.
Proof.
  intros V [a1 a2 a3 a4] [b1 b2 b3 b4 [b5 b6] b7]. pose proof (root_label _ _ V _ a1). split_and!.
  - by apply (pv_root _ _ _ _ _ b2).
  - congruence.
  - intros E. destruct a2. congruence.
  - intros ->. destruct b3 as [b3 _]. pose proof (root_label _ _ b1 _ b4). congruence.
Qed.

Lemma clone_done g m p tf pt g1 m1 g2 m2 :
  vinv g m → space g m p → allocated g m tf pt g1 m1 → vinv g2 m2 →
  shared (pagetable p) pt (npg (sz p)) (npg (sz p)) g1 m1 g2 m2 →
  cloned p tf pt g m g2 (frame_copy tf (trapframe p) m2).
Proof.
  intros V S A V2 Sh. destruct (alloc_tables_ne _ _ _ _ _ _ _ V S A) as (Hold & Hne & Htf & Hpt).
  destruct S as [a1 a2 a3 a4]. destruct A as [b1 b2 b3 b4 b5 b6]. pose proof (npg_range _ a3) as Hn.
  assert (preserves {[pt]} g1 m1 g2 m2) as P2 by (by apply (preserves_shared (pagetable p) pt (npg (sz p)))).
  assert (private_page g2 tf) as Hf2 by (apply (pv_page _ _ _ _ _ P2); [done|set_solver]).
  assert (pt ∈ roots g2) as Hr2 by (by rewrite (sh_roots _ _ _ _ _ _ _ _ Sh)).
  destruct (frame_copy_preserves g2 m2 tf (trapframe p) V2 Hf2) as [V3 P3].
  assert (unused g pt ∧ unused g tf) as [U1 U2] by (destruct b5; split; by eapply free_unused).
  assert (preserves ∅ g m g2 m2) as P02 by (eapply preserves_trans; [done|done|intros x ->%elem_of_singleton; by right]).
  split; [done| |done|done|done| | | |].
  - eapply preserves_trans; [done|done|]. intros x ->%elem_of_singleton. by right.
  - intros v Hv. rewrite (pv_valid _ _ _ _ _ P3); [|done|set_solver|apply upage_vpage; lia].
    rewrite (shared_rest (pagetable p) pt (npg (sz p)) (npg (sz p)) g1 m1 g2) by (done || lia). apply b6. lia.
  - intros va Hva. assert (0 ≤ va < npg (sz p) * PGSIZE) as Hva'.
    { unfold npg. rewrite PGROUNDUP_eq by (change TRAPFRAME with (2 ^ 38 - 8192) in a3; unfold PGSIZE; lia). unfold PGSIZE. dlia. }
    assert (0 ≤ va < MAXVA) by (change TRAPFRAME with (2 ^ 38 - 8192) in a3; change MAXVA with (2 ^ 38); lia).
    rewrite (pv_reads _ _ _ _ _ P3) by (done || set_solver).
    rewrite (fork_child_reads (pagetable p) pt (npg (sz p)) (npg (sz p)) g1 m1 g2 m2) by (done || lia || (intros; apply b6; lia)).
    by apply (pv_reads _ _ _ _ _ b2); [done|set_solver|].
  - intros k Hk Ha. rewrite frame_copy_regs by done. apply (pv_page _ _ _ _ _ P02 (trapframe p)); [done|set_solver|unfold TF_SIZE, PGSIZE in *; lia].
  - by apply load64_store64.
Qed.

Lemma clone_failed g m p q tf pt g1 m1 v g2 m2 g3 m3 pid :
  vinv g m → space g m p → allocated g m tf pt g1 m1 → 0 ≤ v < npg (sz p) → sz q = 0 →
  vinv g2 m2 → shared (pagetable p) pt (v + 1) v g1 m1 g2 m2 → vinv g3 m3 → unmapped pt 0 v g2 m2 g3 m3 →
  preserves ∅ g m g3 m3 ∧ freeable g3 m3 (born pid q tf pt) ∧ unused g tf ∧ unused g pt.
Proof.
  intros V S A Hv Hq V2 Sh V3 U. destruct (alloc_tables_ne _ _ _ _ _ _ _ V S A) as (Hold & Hne & Htf & Hpt).
  destruct (allocated_nonzero _ _ _ _ _ _ A) as [Htf0 Hpt0].
  destruct S as [a1 a2 a3 a4]. destruct A as [b1 b2 b3 b4 b5 b6]. pose proof (npg_range _ a3) as Hn.
  assert (preserves {[pt]} g1 m1 g3 m3) as P by (by apply (preserves_undone (pagetable p) pt (v + 1) v g1 m1 g2 m2); [..|lia|lia| | |]).
  assert (unused g pt ∧ unused g tf) as [U1 U2] by (destruct b5; split; by eapply free_unused).
  split_and!; [|split; right; simpl; split_and!|done..].
  - eapply preserves_trans; [done|done|]. intros x ->%elem_of_singleton. by right.
  - done.
  - apply (pv_page _ _ _ _ _ P); [done|set_solver].
  - done.
  - by rewrite (um_roots _ _ _ _ _ _ _ U), (sh_roots _ _ _ _ _ _ _ _ Sh).
  - lia.
  - rewrite Hq. done.
  - rewrite Hq. intros v' Hv'. change (npg 0) with 0 in Hv'.
    apply (undone_child (pagetable p) pt (v + 1) v g1 m1 g2 m2 g3 m3); try done. lia.
Qed.

(** ** Files *)

Context `{!FileOpsOk fsT}.

Definition files_open (x : fsT) (p : proc) : Prop :=
  (∀ fd f, ofile p !! fd = Some f → f ≠ 0 → file_open x f) ∧ inode_live x (cwd p).

Lemma wp_dup_files i j p n fd (s : K) c Q :
  cpu_ok (kcpu s) → 0 < noff (kcpu s) → lks s FtableLock = initlock → i ≠ j → procs s !! i = Some p → (j < length (procs s))%nat → length (ofile p) = NOFILE → (fd + n = NOFILE)%nat →
  files_open (fsys s) p → ofile c = take fd (ofile p) ++ replicate n 0 →
  (∀ x, files_open x p → Q tt (with_proc j (set_ofile (ofile p) c) (set_fsys x s))) →
  wp (dup_files n fd i j) (with_proc j c s) Q.
Proof.
  revert fd s c. induction n as [|n IH]; intros fd s c Hk Hn0 Hft Hij Hp Hj Hlen Hfd Ho Ec HQ.
  - simpl in Ec. rewrite app_nil_r, take_ge in Ec by lia. apply wp_ret. specialize (HQ (fsys s) Ho).
    replace (set_ofile (ofile p) c) with c in HQ by (rewrite <-Ec; by destruct c). by destruct s.
  - cbn [dup_files]. destruct (lookup_lt_is_Some_2 (ofile p) fd) as [f Hf]; [lia|].
    apply wp_bind. apply (wp_pget i p); [simpl; by rewrite list_lookup_insert_ne|]. rewrite Hf. cbn [default from_option id].
    assert (length (take fd (ofile p)) = fd) as Elen by (rewrite length_take; lia).
    assert (take (S fd) (ofile p) ++ replicate n 0 = <[fd := f]> (take fd (ofile p) ++ replicate (S n) 0)) as Es.
    { rewrite (take_S_r _ _ f) by done. rewrite insert_app_r_alt by lia. rewrite Elen, Nat.sub_diag. simpl. by rewrite <-app_assoc. }
    apply wp_bind, wp_when; intros E; breflect.
    + apply wp_bind. eapply wp_mono; [apply filedup_ok; [done..|by eapply Ho]|]. intros r ? (-> & x & -> & Hx1 & Hx2).
      change (set_fsys x (with_proc j c s)) with (with_proc j c (set_fsys x s)).
      apply (wp_pset_next j c _ (set_fsys x s)); [done|].
      apply (IH (S fd) (set_fsys x s)); try done; [lia|destruct Ho; split; simpl; eauto|simpl; by rewrite Es, Ec].
    + apply (IH (S fd) s); try done; [lia|]. subst f. rewrite Es, Ec. symmetry. apply list_insert_id.
      rewrite lookup_app_r by lia. by rewrite Elen, Nat.sub_diag.
Qed.

(** ** The invariant after a change of one unused entry *)

(** An entry that joins the table with fresh memory and the next pid. *)
Record newborn (g : ghost) (g' : ghost) (m' : kmem) (n n' : Z) (c : proc) : Prop := {
  nb_space : space g' m' c;
  nb_new : own g (trapframe c) = OFree ∧ own g (pagetable c) = OFree;
  nb_pid : pid c = n ∧ n < n';
  nb_files : length (ofile c) = NOFILE;
  nb_state : state c ≠ ZOMBIE;
}.

Lemma pinv_update g s g' s' j q c :
  pinv g s → procs s !! j = Some q → ¬ used q → procs s' = <[j := c]> (procs s) →
  vinv g' (mach s') → preserves ∅ g (mach s) g' (mach s') → nextpid s ≤ nextpid s' →
  (used c → newborn g g' (mach s') (nextpid s) (nextpid s') c) →
  (¬ used c → trapframe c = 0 ∧ pagetable c = 0 ∧ sz c = 0 ∧ killedf c = 0 ∧ ofile c = replicate NOFILE 0) →
  pinv g' s'.
Proof.
  intros I Hq Hu Ep V' P Hn Hc Hc'. pose proof (lookup_lt_Some _ _ _ Hq) as Hj.
  assert (∀ i p, procs s' !! i = Some p → i = j ∧ p = c ∨ i ≠ j ∧ procs s !! i = Some p) as Hcase.
  { intros i p. rewrite Ep. destruct (decide (i = j)) as [->|].
    - rewrite list_lookup_insert_eq by done. naive_solver.
    - rewrite list_lookup_insert_ne by done. naive_solver. }
  assert (∀ i p, procs s !! i = Some p → used p → space g' (mach s') p) as Hsp.
  { intros i p Hp Hup. apply (space_preserved ∅ g (mach s)); [done|by eapply pi_space|set_solver..]. }
  assert (∀ i p, procs s !! i = Some p → used p → used c → pagetable p ≠ pagetable c ∧ trapframe p ≠ trapframe c ∧ pid p ≠ pid c) as Hdiff.
  { intros i p Hp Hup Huc. destruct (Hc Huc) as [b1 [b2 b3] [b4 b5] _ _]. destruct (pi_space _ _ I i p Hp Hup) as [a1 [a2 _] _ _].
    pose proof (root_label _ _ (pi_v _ _ I) _ a1). pose proof (pi_pid _ _ I i p Hp Hup). split_and!; [congruence|congruence|lia]. }
  split.
  - done.
  - intros i p [[-> ->]|[Hne Hp]]%Hcase; [intros Huc; apply Hc, Huc|by eapply Hsp].
  - intros i p [[-> ->]|[Hne Hp]]%Hcase Hup; [destruct (Hc' Hup) as (?&?&?&?&?); done|by eapply pi_unused].
  - intros i p [[-> ->]|[Hne Hp]]%Hcase; [|by eapply pi_files].
    destruct (decide (state c = UNUSED)) as [E|E].
    + destruct Hc' as (_ & _ & _ & _ & ->); [by intros []|]. by rewrite length_replicate.
    + destruct (Hc E) as [_ _ _ Hl Hz]. split; [done|]. by intros [?|?].
  - intros i k p p' Hne [[-> ->]|[Hi Hp]]%Hcase [[-> ->]|[Hk Hp']]%Hcase Hup Hup'; try done.
    + intros E. by destruct (Hdiff k p' Hp' Hup' Hup).
    + by destruct (Hdiff i p Hp Hup Hup').
    + by apply (pi_tables _ _ I i k).
  - intros i k p p' Hne [[-> ->]|[Hi Hp]]%Hcase [[-> ->]|[Hk Hp']]%Hcase Hup Hup'; try done.
    + intros E. by destruct (Hdiff k p' Hp' Hup' Hup) as (_ & ? & _).
    + by destruct (Hdiff i p Hp Hup Hup') as (_ & ? & _).
    + by apply (pi_frames _ _ I i k).
  - pose proof (pi_next _ _ I). lia.
  - intros i p [[-> ->]|[Hi Hp]]%Hcase Hup.
    + destruct (Hc Hup) as [_ _ [-> ?] _ _]. pose proof (pi_next _ _ I). lia.
    + pose proof (pi_pid _ _ I i p Hp Hup). lia.
  - intros i k p p' Hne [[-> ->]|[Hi Hp]]%Hcase [[-> ->]|[Hk Hp']]%Hcase Hup Hup'; try done.
    + intros E. by destruct (Hdiff k p' Hp' Hup' Hup) as (_ & _ & ?).
    + by destruct (Hdiff i p Hp Hup Hup') as (_ & _ & ?).
    + by apply (pi_pids _ _ I i k).
Qed.

(** A cleared entry is as good as the one before. *)
Lemma pinv_cleared g s g' s' j q c :
  pinv g s → procs s !! j = Some q → ¬ used q → cleared_as q c → procs s' = <[j := c]> (procs s) →
  vinv g' (mach s') → preserves ∅ g (mach s) g' (mach s') → nextpid s ≤ nextpid s' → pinv g' s'.
Proof.
  intros I Hq Hu [ctx ->] Ep V' P Hn. eapply (pinv_update g s g' s' j q (set_context ctx (cleared q))); try done.
  intros _. split_and!; try done. simpl. by apply (pi_files _ _ I j q Hq); left.
Qed.

(** ** kfork *)

(** The last steps, with the child's lock held at first: it gets its parent
    and becomes RUNNABLE. *)
(** A process whose memory, pid and files stay as they are may change otherwise. *)
Definition same_space (p p' : proc) : Prop :=
  pagetable p' = pagetable p ∧ trapframe p' = trapframe p ∧ sz p' = sz p ∧ pid p' = pid p.

Lemma pinv_entry g s i p p' :
  pinv g s → procs s !! i = Some p → used p → used p' → same_space p p' → length (ofile p') = NOFILE →
  (state p' = ZOMBIE → ofile p' = replicate NOFILE 0) → pinv g (with_proc i p' s).
Proof.
  intros I Hp Hu Hu' (E1 & E2 & E3 & E4) Hl Hz. pose proof (lookup_lt_Some _ _ _ Hp) as Hi.
  assert (∀ k q, procs (with_proc i p' s) !! k = Some q → ∃ q0, procs s !! k = Some q0 ∧
    (q = q0 ∨ k = i ∧ q = p' ∧ q0 = p)) as Hcase.
  { intros k q. simpl. destruct (decide (k = i)) as [->|].
    - rewrite list_lookup_insert_eq by done. intros [= <-]. exists p. auto.
    - rewrite list_lookup_insert_ne by done. eauto. }
  assert (∀ k q, procs (with_proc i p' s) !! k = Some q → used q → ∃ q0, procs s !! k = Some q0 ∧ used q0 ∧
    pagetable q = pagetable q0 ∧ trapframe q = trapframe q0 ∧ sz q = sz q0 ∧ pid q = pid q0) as Hused.
  { intros k q (q0 & Hq0 & [->|(-> & -> & ->)])%Hcase Hq; eauto 10. }
  split.
  - apply I.
  - intros k q Hk Hq. destruct (Hused k q Hk Hq) as (q0 & Hk0 & Hq0 & F1 & F2 & F3 & _).
    destruct (pi_space _ _ I k q0 Hk0 Hq0) as [a1 a2 a3 a4]. split; rewrite ?F1, ?F2, ?F3; done.
  - intros k q (q0 & Hk0 & [->|(-> & -> & ->)])%Hcase Hq; [by eapply pi_unused|done].
  - intros k q (q0 & Hk0 & [->|(-> & -> & ->)])%Hcase; [by eapply pi_files|]. split; [done|]. by intros [?|?]; [|apply Hz].
  - intros k l q r Hne Hk Hr Hq Hqr. destruct (Hused k q Hk Hq) as (q0 & ? & ? & -> & _), (Hused l r Hr Hqr) as (r0 & ? & ? & -> & _).
    by apply (pi_tables _ _ I k l).
  - intros k l q r Hne Hk Hr Hq Hqr.
    destruct (Hused k q Hk Hq) as (q0 & ? & ? & _ & -> & _), (Hused l r Hr Hqr) as (r0 & ? & ? & _ & -> & _).
    by apply (pi_frames _ _ I k l).
  - apply I.
  - intros k q Hk Hq. destruct (Hused k q Hk Hq) as (q0 & ? & ? & _ & _ & _ & ->). by apply (pi_pid _ _ I k).
  - intros k l q r Hne Hk Hr Hq Hqr.
    destruct (Hused k q Hk Hq) as (q0 & ? & ? & _ & _ & _ & ->), (Hused l r Hr Hqr) as (r0 & ? & ? & _ & _ & _ & ->).
    by apply (pi_pids _ _ I k l).
Qed.

Lemma wp_kfork_publish i j p c (s : K) Q :
  unlocked s → lks s WaitLock = initlock → i ≠ j → procs s !! i = Some p → (j < length (procs s))%nat →
  Q (pid c) (relax (with_proc j (set_state RUNNABLE (set_ready 0 (set_priority (priority p) (set_parent (Some i) c)))) s)) →
  wp (q ← pget j pid;
      release (ProcLock j) ;;
      acquire WaitLock ;;
      pset j (set_parent (Some i)) ;;
      release WaitLock ;;
      acquire (ProcLock j) ;;
      pr ← pget i priority;
      pset j (set_priority pr) ;;
      pset j (set_ready 0) ;;
      pset j (set_state RUNNABLE) ;;
      release (ProcLock j) ;;
      mret q) (entered (ProcLock j) (with_proc j c s)) Q.
Proof.
  intros U Hw Hij Hp Hj HQ. apply wp_bind, (wp_pget j c); [by apply (with_proc_lookup j c s)|].
  apply wp_bind, wp_leave; [apply U|apply U|]. apply wp_bind, wp_acquire; [done|].
  apply wp_bind. apply (wp_pset_next j c _ (entered WaitLock (relax s))); [done|]. set (c1 := set_parent (Some i) c) in *.
  apply wp_bind. apply (wp_leave _ (with_proc j c1 (relax s))); [apply cpu_ok_touch, U|done|].
  change (relax (with_proc j c1 (relax s))) with (with_proc j c1 (relax (relax s))). rewrite relax_relax.
  apply wp_bind, wp_acquire; [apply U|]. apply wp_bind, (wp_pget i p); [simpl; by rewrite list_lookup_insert_ne|].
  do 3 (apply wp_bind; apply (wp_pset_next j _ _ (entered (ProcLock j) (relax s))); [done|]).
  apply wp_bind. apply (wp_leave _ (with_proc j _ (relax s))); [apply cpu_ok_touch, U|apply U|]. apply wp_ret.
  by rewrite <-(relax_relax (with_proc j _ s)) in HQ.
Qed.

Lemma pinv_relax g s : pinv g s → pinv g (relax s).
Proof. intros []. by split. Qed.

Lemma wp_kfork g i p (s : K) Q :
  let n := nextpid s in let s1 := set_nextpid (s32 (n + 1)) (relax s) in
  pinv g s → unlocked s → lks s PidLock = initlock → lks s WaitLock = initlock →
  lks s FtableLock = initlock → lks s ItableLock = initlock → cproc s = Some i → procs s !! i = Some p → used p → files_open (fsys s) p →
  Q (-1) (relax s) →
  (∀ j q c g2 m2, procs s !! j = Some q → ¬ used q → cleared_as q c → vinv g2 m2 → preserves ∅ g (mach s) g2 m2 →
     Q (-1) (relax (with_proc j c (set_mach m2 s1)))) →
  (∀ j q tf pt g2 m2 x, procs s !! j = Some q → ¬ used q → cloned p tf pt g (mach s) g2 m2 →
     Q n (relax (with_proc j (child_of i p q n tf pt) (set_mach m2 (set_fsys x s1))))) →
  wp kfork s Q.
Proof.
  intros n s1 I U Hpl Hwl Hfl Hil Hc Hp Hup Hfo Hnone Hmem Hok. pose proof (pi_v _ _ I) as V. pose proof (pi_space _ _ I i p Hp Hup) as S.
  assert (unlocked s1) as U1 by (destruct U as [a b c]; split; [by apply cpu_ok_touch|done..]).
  apply wp_bind, (wp_current i); [apply U|done|].
  apply wp_bind, (wp_allocproc g); [by apply pinv_relax|by apply unlocked_relax|done|..].
  { apply wp_ret. by rewrite relax_relax. }
  { intros j q g1 m1 Hq Hu V1 P1. apply wp_ret. apply (Hmem j q (cleared q) g1 m1 Hq Hu); [by exists (context q)|done|done]. }
  intros j q tf pt g1 m1 Hq Hu A. change (mach (relax s)) with (mach s) in A. fold n. change (nextpid (relax s)) with n. fold s1.
  change (procs s !! j = Some q) in Hq. assert (i ≠ j) as Hij by (intros ->; rewrite Hp in Hq; by simplify_eq). pose proof (lookup_lt_Some _ _ _ Hq) as Hj. set (b := born n q tf pt).
  set (X m := entered (ProcLock j) (set_mach m s1)).
  assert (∀ c m, procs (with_proc j c (X m)) !! i = Some p) as Hpi by (intros; simpl; by rewrite list_lookup_insert_ne).
  assert (∀ c m, procs (with_proc j c (X m)) !! j = Some c) as Hpj by (intros c m; by apply (with_proc_lookup j c (X m))).
  destruct (pi_unused _ _ I j q Hq Hu) as (_ & _ & Esz & _). destruct (pi_files _ _ I j q Hq) as [_ Ezero].
  change (entered (ProcLock j) (with_proc j b (set_mach m1 s1))) with (with_proc j b (X m1)).
  apply wp_bind, (wp_pget i p); [apply Hpi|]. apply wp_bind, (wp_pget j b); [apply Hpj|]. apply wp_bind, (wp_pget i p); [apply Hpi|].
  destruct (alloc_tables_ne _ _ _ _ _ _ _ V S A) as (Hold & Hne & Htf & Hpt).
  apply wp_bind, wp_zoom, (wp_uvmcopy g1); [apply A|done|apply (al_root _ _ _ _ _ _ A)|done|apply S|..].
  { intros v Hv. apply (al_empty _ _ _ _ _ _ A). pose proof (npg_range _ (sp_size _ _ _ S)). lia. }
  2: { intros v g2 m2 g3 m3 Hv V2 Sh V3 Um. cbn [Z.ltb Z.compare].
    destruct (clone_failed g (mach s) p q tf pt g1 m1 v g2 m2 g3 m3 n) as (P3 & Hf3 & Ut & Up); [done..|].
    apply (wp_alloc_undo (-1) g (mach s) j b b g3 m3 s1); [exact U1|exact Hj|reflexivity|exact V3|exact P3|exact Hf3|exact Ut|exact Up|].
    intros g4 m4 V4 P4. apply (Hmem j q (cleared b) g4 m4 Hq Hu); [by eexists|done|done]. }
  intros g2 m2 V2 Sh. cbn [Z.ltb Z.compare]. change (set_mach m2 (with_proc j b (X m1))) with (with_proc j b (X m2)).
  apply wp_bind, (wp_pset_next j b _ (X m2)); [done|]. set (b1 := set_sz (sz p) b).
  apply wp_bind, (wp_pget i p); [apply Hpi|]. apply wp_bind, (wp_pget j b1); [apply Hpj|].
  apply wp_bind, wp_zoom, wp_modify. apply wp_bind, wp_zoom, wp_modify. set (m3 := frame_copy tf (trapframe p) m2).
  pose proof (clone_done g (mach s) p tf pt g1 m1 g2 m2 V S A V2 Sh) as Cl. fold m3 in Cl.
  change (set_mach _ (set_mach _ (with_proc j b1 (X m2)))) with (with_proc j b1 (X m3)).
  assert (∀ m, cpu_ok (kcpu (X m)) ∧ 0 < noff (kcpu (X m)) ∧ lks (X m) FtableLock = initlock ∧ lks (X m) ItableLock = initlock) as HX.
  { intros m. pose proof (ul_cpu _ U1) as Hk. split_and!; [by apply cpu_ok_pushed|destruct Hk; simpl in *; lia|..];
      simpl; by rewrite fn_lookup_insert_ne. }
  apply wp_bind, (wp_dup_files i j p NOFILE 0 (X m3) b1); try done; try apply HX; [apply (pi_files _ _ I i p Hp)|simpl; auto|].
  intros x Hfx. set (b2 := set_ofile (ofile p) b1). set (Y := set_fsys x (X m3)).
  apply wp_bind, (wp_pget i p); [apply (Hpi b2 m3)|]. apply wp_bind.
  eapply wp_mono; [apply idup_ok; [apply (HX m3)..|apply Hfx]|]. intros d ? (-> & x' & -> & _). set (Y' := set_fsys x' (X m3)).
  change (set_fsys x' (with_proc j b2 Y)) with (with_proc j b2 Y').
  apply wp_bind, (wp_pset_next j b2 _ Y'); [done|]. apply wp_bind, (wp_pget i p); [apply (Hpi (set_cwd (cwd p) b2) m3)|].
  apply wp_bind, (wp_pset_next j _ _ Y'); [done|].
  apply (wp_kfork_publish i j p _ (set_mach m3 (set_fsys x' s1))); [by destruct U1|done|done|done|done|].
  by apply (Hok j q tf pt g2 m3 x').
Qed.

(** C7. [kfork] always returns, keeps the invariant of the process table and
    of the memory, leaves every lock free, and changes nothing that an existing
    process reads.  If it returns -1, every process is as it was and no entry
    was taken.  Otherwise the result is the next pid and one unused entry has
    become a RUNNABLE child: it reads the same memory as the parent, starts with
    the parent's user registers except that a0 is 0, has the parent's open
    files, directory and priority, and is not killed. *)
Theorem kfork_clones g i p (s : K) :
  pinv g s → unlocked s → lks s PidLock = initlock → lks s WaitLock = initlock →
  lks s FtableLock = initlock → lks s ItableLock = initlock → cproc s = Some i → procs s !! i = Some p → used p → files_open (fsys s) p → nextpid s < 2 ^ 31 - 1 →
  wp kfork s (λ r s', ∃ g', pinv g' s' ∧ unlocked s' ∧ lks s' = lks s ∧ preserves ∅ g (mach s) g' (mach s') ∧
    (r = -1 ∧
       (∀ k q, procs s !! k = Some q → used q → procs s' !! k = Some q) ∧
       (∀ k q, procs s !! k = Some q → ¬ used q → ∃ q', procs s' !! k = Some q' ∧ ¬ used q') ∨
     r = nextpid s ∧ ∃ j q tf pt, procs s !! j = Some q ∧ ¬ used q ∧ killedf q = 0 ∧
       procs s' = <[j := child_of i p q r tf pt]> (procs s) ∧
       (∀ va, 0 ≤ va < sz p → uread (mach s') pt va = uread (mach s) (pagetable p) va) ∧
       (∀ k, 0 ≤ k < TF_SIZE → ¬ (TF_A0 ≤ k < TF_A0 + 8) →
          mem (mach s') (tf + k) = mem (mach s) (trapframe p + k)) ∧
       load64 (mem (mach s')) (tf + TF_A0) = 0)).
Proof.
  intros I U Hpl Hwl Hfl Hil Hc Hp Hup Hfo Hn. pose proof (pi_next _ _ I) as Hn0.
  assert (s32 (nextpid s + 1) = nextpid s + 1) as En by (apply s32_small; lia).
  apply (wp_kfork g i p); try done.
  - exists g. split_and!; [by apply pinv_relax|by apply unlocked_relax|done|apply preserves_refl|]. left.
    split_and!; [done|done|]. intros k q Hq Hu. by exists q.
  - intros j q c g2 m2 Hq Hu Hcl V2 P2. exists g2. split_and!.
    + eapply (pinv_cleared g s _ _ j q c); try done. simpl. lia.
    + apply unlocked_relax, unlocked_with. destruct U as [u1 u2 u3]. split; [by apply cpu_ok_touch|done..].
    + done.
    + done.
    + left. pose proof (lookup_lt_Some _ _ _ Hq) as Hj. split_and!; [done|..]; intros k q' Hk Hku; simpl.
      * rewrite list_lookup_insert_ne; [done|]. intros ->. rewrite Hk in Hq. by simplify_eq.
      * destruct (decide (j = k)) as [<-|]; [|rewrite list_lookup_insert_ne by done; eauto].
        rewrite list_lookup_insert_eq by done. destruct Hcl as [ctx ->]. eexists. split; [done|]. by intros [].
  - intros j q tf pt g2 m2 x Hq Hu [c1 c2 c3 c4 c5 c6 c7 c8 c9]. exists g2. destruct (pi_files _ _ I i p Hp) as [Hl _].
    split_and!; [..|right].
    + eapply (pinv_update g s _ _ j q); try done; simpl; [lia| |by intros []].
      intros _. split; try done; [|simpl; lia]. split; try done. apply (pi_space _ _ I i p Hp Hup).
    + apply unlocked_relax, unlocked_with. destruct U as [u1 u2 u3]. split; [by apply cpu_ok_touch|done..].
    + done.
    + done.
    + split; [done|]. exists j, q, tf, pt. destruct (pi_unused _ _ I j q Hq Hu) as (_ & _ & _ & ?). done.
Qed.
End fork.
