(* ===== verification/ProcExit.v ===== *)
(** * The end of a process

    The part of [kexit] that turns a process into a zombie, up to the switch to
    the scheduler, and the scan of [kwait] that collects it. *)

From Stdlib Require Import FunctionalExtensionality.
From S2P Require Import Prelude Riscv Memory Kalloc Vm VmInv VmWalk VmRef VmOps Cow VmUser CopyUser Fork VmRoot VmFree.
From S2P Require Import ProcVm Spinlock Proc ProcOps ProcMem ProcFork.

Section exit.
Context {fsT : Type} `{Layout, !LayoutOk, Code, FileOps fsT, Switch fsT}.
Notation K := (kst fsT).

(** ** kexit *)

(** The entry of another process after [i], a child of [pp], has exited. *)
Definition bereaved (i : nat) (init pp : option nat) (kids : bool) (q : proc) : proc :=
  let q1 := if decide (parent q = Some i) then set_parent init q else q in
  let q2 := if kids then wake (proc_chan init) q1 else q1 in
  wake (proc_chan pp) q2.

Definition ended (status : Z) (p : proc) : proc := set_state ZOMBIE (set_xstate status p).

Lemma reparented_lookup i init ps j q :
  ps !! j = Some q → j ≠ i →
  reparented i init (Some i) ps !! j = Some (let q1 := if decide (parent q = Some i) then set_parent init q else q in
    if has_child i ps then wake (proc_chan init) q1 else q1).
Proof.
  intros Hq Hj. unfold reparented. destruct (has_child i ps) eqn:E.
  - unfold woken, abandon. rewrite list_lookup_imap, list_lookup_fmap, Hq. opt. by rewrite decide_False by congruence.
  - rewrite decide_False; [done|]. intros Hc. unfold has_child in E. rewrite <-not_true_iff_false, existsb_exists in E.
    apply E. exists q. split; [by apply list_elem_of_In, (list_elem_of_lookup_2 _ j)|by apply bool_decide_eq_true].
Qed.

Lemma reparented_self i init ps p :
  ps !! i = Some p → parent p ≠ Some i → reparented i init (Some i) ps !! i = Some p.
Proof.
  intros Hp Hne. unfold reparented. destruct (has_child i ps); [|done].
  unfold woken, abandon. rewrite list_lookup_imap, list_lookup_fmap, Hp. opt. by rewrite decide_True, decide_False.
Qed.

Lemma reparented_len i init me ps : length (reparented i init me ps) = length ps.
Proof. unfold reparented. destruct (has_child i ps); [|done]. rewrite woken_len. apply length_fmap. Qed.

Lemma wp_cpu_gets {A} (f : cpu → A) (s : K) Q : Q (f (kcpu s)) s → wp (on_cpu (gets f)) s Q.
Proof. intros HQ. apply wp_zoom, wp_gets. by destruct s. Qed.

Lemma wp_sched_enter i p (s : K) Q :
  noff (kcpu s) = 1 → sie (kcpu s) = false → cproc s = Some i → lks s (ProcLock i) = mkLock true (Some (mycpu s)) →
  procs s !! i = Some p → state p ≠ RUNNING → Q (i, intena (kcpu s)) s → wp sched_enter s Q.
Proof.
  intros Hn Hs Hc Hl Hp Hst HQ. apply wp_bind, (wp_current i); [split; [lia|done]|done|]. rewrite relax_pos by lia.
  apply wp_bind, wp_gets. apply wp_bind, wp_gets. rewrite Hl. unfold holding. simpl. rewrite bool_decide_true by done. simpl.
  apply wp_bind, wp_cpu_gets. rewrite Hn. simpl.
  apply wp_bind, (wp_pget i p); [done|]. rewrite decide_False by done. apply wp_bind, wp_cpu_gets. rewrite Hs.
  apply wp_bind, wp_cpu_gets. by apply wp_ret.
Qed.

(** Releasing the outer of two nested locks. *)
Lemma wp_release_outer l l' (s : K) Q :
  cpu_ok (kcpu s) → l ≠ l' → lks s l' = initlock → Q tt (entered l s) → wp (release l') (entered l (entered l' s)) Q.
Proof.
  intros Hk Hne Hl HQ. apply (wp_release _ (pushed (kcpu s))); [by apply cpu_ok_pushed|done| |].
  - simpl. by rewrite fn_lookup_insert_ne, fn_lookup_insert.
  - rewrite touch_pos by (simpl; destruct Hk; lia). replace (set_kcpu _ _) with (entered l s); [done|].
    unfold entered, set_kcpu, set_lks. simpl. f_equal. symmetry. extensionality k.
    destruct (decide (l' = k)) as [<-|]; [by rewrite fn_lookup_insert, fn_lookup_insert_ne by done|].
    rewrite fn_lookup_insert_ne by done. destruct (decide (l = k)) as [<-|]; [by rewrite !fn_lookup_insert|].
    by rewrite !fn_lookup_insert_ne.
Qed.

Lemma wp_kexit_zombie i p status (s : K) Q :
  let ps1 := reparented i (initproc s) (Some i) (procs s) in
  unlocked s → noff (kcpu s) = 0 → lks s WaitLock = initlock → cproc s = Some i →
  procs s !! i = Some p → parent p ≠ Some i →
  Q (i, sie (kcpu s))
    (entered (ProcLock i) (with_proc i (ended status p) (set_procs (woken (proc_chan (parent p)) (Some i) ps1) s))) →
  wp (kexit_zombie i status ;; sched_enter) s Q.
Proof.
  intros ps1 U Hn Hw Hc Hp Hpp HQ. pose proof (lookup_lt_Some _ _ _ Hp) as Hi. apply wp_bind. unfold kexit_zombie.
  apply wp_bind, wp_acquire; [done|].
  assert (∀ ps, length ps = NPROC → unlocked (set_procs ps (entered WaitLock s))) as UW.
  { intros ps Hps. split; [apply cpu_ok_pushed, U| |done]. intros j. simpl. rewrite fn_lookup_insert_ne by done. apply U. }
  pose proof (UW (procs s) (ul_len _ U)) as UW0. replace (set_procs (procs s) (entered WaitLock s)) with (entered WaitLock s) in UW0 by done.
  apply wp_bind, wp_reparent; [done|simpl; lia|]. change (initproc (entered WaitLock s)) with (initproc s).
  change (cproc (entered WaitLock s)) with (cproc s). rewrite Hc. change (procs (entered WaitLock s)) with (procs s). fold ps1.
  assert (length ps1 = NPROC) as L1 by (unfold ps1; rewrite reparented_len; apply U).
  apply wp_bind, (wp_pget i p); [by apply reparented_self|]. apply wp_bind, wp_wakeup; [by apply UW|].
  rewrite relax_pos by (simpl; lia). change (procs (set_procs ps1 (entered WaitLock s))) with ps1.
  change (cproc (set_procs ps1 (entered WaitLock s))) with (cproc s). rewrite Hc.
  set (ps2 := woken (proc_chan (parent p)) (Some i) ps1) in *. set (s2 := set_procs ps2 s).
  change (set_procs ps2 (set_procs ps1 (entered WaitLock s))) with (entered WaitLock s2).
  apply wp_bind, wp_acquire; [simpl; rewrite fn_lookup_insert_ne by done; apply U|].
  assert (ps2 !! i = Some p) as Hp2.
  { unfold ps2, woken. rewrite list_lookup_imap. unfold ps1. rewrite (reparented_self _ _ _ p) by done. opt. by rewrite decide_True. }
  apply wp_bind, (wp_pset i p); [done|]. apply wp_bind.
  apply (wp_pset_next i _ _ (entered (ProcLock i) (entered WaitLock s2))); [by eapply lookup_lt_Some, Hp2|].
  apply (wp_release_outer (ProcLock i) WaitLock (with_proc i (ended status p) s2)); [apply U|done|done|].
  apply (wp_sched_enter i (ended status p)); [simpl; lia|done|done|simpl; by rewrite fn_lookup_insert| |done|].
  - by apply with_proc_lookup; eapply lookup_lt_Some.
  - simpl. rewrite Hn. exact HQ.
Qed.

Lemma wake_state ch q : state (wake ch q) = state q ∨ state q = SLEEPING ∧ state (wake ch q) = RUNNABLE.
Proof.
  unfold wake. destruct (_ && _) eqn:E; [|by left]. apply andb_prop in E as [E _].
  apply bool_decide_eq_true in E. by right.
Qed.

Lemma wake_sleeper ch q : state q = SLEEPING → chan q = ch → state (wake ch q) = RUNNABLE.
Proof. intros Hs Hc. unfold wake. by rewrite !bool_decide_true. Qed.

Lemma bereaved_parent i init pp kids q :
  parent (bereaved i init pp kids q) = if decide (parent q = Some i) then init else parent q.
Proof. unfold bereaved. rewrite wake_parent. destruct kids; rewrite ?wake_parent; by destruct (decide _). Qed.

Lemma bereaved_state i init pp kids q :
  state (bereaved i init pp kids q) = state q ∨ state q = SLEEPING ∧ state (bereaved i init pp kids q) = RUNNABLE.
Proof.
  unfold bereaved. set (q1 := if decide _ then _ else q). assert (state q1 = state q) as E1 by (unfold q1; by destruct (decide _)).
  assert (state (if kids then wake (proc_chan init) q1 else q1) = state q ∨
    state q = SLEEPING ∧ state (if kids then wake (proc_chan init) q1 else q1) = RUNNABLE) as Hq2.
  { destruct kids; [|by left]. rewrite <-E1. apply wake_state. }
  destruct (wake_state (proc_chan pp) (if kids then wake (proc_chan init) q1 else q1)) as [->|[Es ->]]; [done|].
  right. split; [|done]. destruct Hq2 as [Hq2|[? _]]; congruence.
Qed.

Lemma bereaved_wakes i init pp kids q :
  state q = SLEEPING → chan q = proc_chan pp → state (bereaved i init pp kids q) = RUNNABLE.
Proof.
  intros Hs Hc. unfold bereaved. set (q1 := if decide _ then _ else q).
  assert (state q1 = SLEEPING ∧ chan q1 = proc_chan pp) as [Hs1 Hc1] by (unfold q1; by destruct (decide _)).
  destruct kids; [|by apply wake_sleeper].
  unfold wake at 2. destruct (_ && _) eqn:E; [|by apply wake_sleeper]. unfold wake. simpl. done.
Qed.

(** C12. A process that exits becomes a zombie with its status and gives up the
    CPU with exactly its own lock held, as [sched] demands.  Its children are
    handed to init and nobody else changes parent; its parent is woken if it
    sleeps in [kwait]; no other process changes state, except sleepers that
    become RUNNABLE. *)
Theorem kexit_leaves_zombie i p status (s : K) :
  unlocked s → noff (kcpu s) = 0 → lks s WaitLock = initlock → cproc s = Some i →
  procs s !! i = Some p → parent p ≠ Some i →
  wp (kexit_zombie i status ;; sched_enter) s (λ r x,
    r.1 = i ∧ noff (kcpu x) = 1 ∧ sie (kcpu x) = false ∧
    lks x = <[ProcLock i := mkLock true (Some (mycpu s))]> (lks s) ∧
    procs x !! i = Some (ended status p) ∧
    ∀ j q, j ≠ i → procs s !! j = Some q → ∃ q', procs x !! j = Some q' ∧
      parent q' = (if decide (parent q = Some i) then initproc s else parent q) ∧
      (state q' = state q ∨ state q = SLEEPING ∧ state q' = RUNNABLE) ∧
      (parent p = Some j → state q = SLEEPING → chan q = ChanProc j → state q' = RUNNABLE)).
Proof.
  intros U Hn Hw Hc Hp Hpp. apply (wp_kexit_zombie i p); try done. split_and!; try done.
  - simpl. lia.
  - apply with_proc_lookup. simpl. rewrite woken_len, reparented_len. by eapply lookup_lt_Some.
  - intros j q Hj Hq. exists (bereaved i (initproc s) (parent p) (has_child i (procs s)) q). split_and!.
    + simpl. rewrite list_lookup_insert_ne by done. unfold woken. rewrite list_lookup_imap.
      rewrite (reparented_lookup _ _ _ _ q) by done. opt. by rewrite decide_False by congruence.
    + apply bereaved_parent.
    + apply bereaved_state.
    + intros Ep Hs Hch. apply bereaved_wakes; [done|]. by rewrite Ep.
Qed.
End exit.
