(* ===== verification/ProcWait.v ===== *)
(** * Waiting for a child

    [kwait] on a process that has an exited child: the status is copied out and
    everything the child owned is released.  [growproc] on the current process. *)

From S2P Require Import Prelude Riscv Memory Kalloc Vm VmInv VmWalk VmRef VmOps Cow VmUser CopyUser Fork VmRoot VmFree.
From S2P Require Import ProcVm Spinlock Proc ProcOps ProcMem ProcFork ProcExit.

Section wait.
Context {fsT : Type} `{Layout, !LayoutOk, Code, FileOps fsT, Switch fsT}.
Notation K := (kst fsT).

(** ** The invariant *)

Lemma pinv_confined g (s : K) i p g' m' :
  pinv g s → procs s !! i = Some p → used p → vinv g' m' → confined (uproc_of p) g (mach s) g' m' →
  pinv g' (set_mach m' s).
Proof.
  intros I Hp Hup V' [c1 c2 c3]. pose proof I as [a1 a2 a3 a4 a5 a6 a7 a8 a9]. split; try done.
  intros j q Hq Huq. change (procs s !! j = Some q) in Hq. destruct (a2 j q Hq Huq) as [b1 b2 b3 b4]. split.
  - by rewrite c1.
  - by apply c3.
  - done.
  - intros v Hv. pose proof (npg_range _ b3) as Hn. rewrite c2; [by apply b4|done|apply upage_vpage; lia|].
    destruct (decide (j = i)) as [->|Hne].
    + right. simplify_eq. simpl. destruct (Z.le_gt_cases (sz p) (v * PGSIZE)) as [|Hlt]; [done|].
      pose proof (proj2 (npg_lt (sz p) v b3) Hlt). lia.
    + left. by apply (a5 j i).
Qed.

(** Removing a process whose files are closed. *)
Lemma pinv_free g (s : K) j q g1 m1 :
  pinv g s → procs s !! j = Some q → state q = ZOMBIE → vinv g1 m1 →
  preserves {[trapframe q; pagetable q]} g (mach s) g1 m1 →
  pinv g1 (with_proc j (cleared q) (set_mach m1 s)).
Proof.
  intros I Hq Hz V1 P. pose proof (lookup_lt_Some _ _ _ Hq) as Hj. assert (used q) as Huq by (unfold used; congruence).
  assert (∀ i p, procs (with_proc j (cleared q) (set_mach m1 s)) !! i = Some p →
    i = j ∧ p = cleared q ∨ i ≠ j ∧ procs s !! i = Some p) as Hcase.
  { intros i p. simpl. destruct (decide (i = j)) as [->|].
    - rewrite list_lookup_insert_eq by done. naive_solver.
    - rewrite list_lookup_insert_ne by done. naive_solver. }
  assert (¬ used (cleared q)) as Hnu by (by intros []).
  pose proof (pi_v _ _ I) as V. destruct (pi_space _ _ I j q Hq Huq) as [q1 [q2 _] _ _].
  pose proof I as [a1 a2 a3 a4 a5 a6 a7 a8 a9]. split; try done.
  - intros i p [[-> ->]|[Hne Hp]]%Hcase Hup; [done|]. pose proof (a2 i p Hp Hup) as S. pose proof S as [b1 [b2 _] _ _].
    pose proof (root_label _ _ V _ b1). pose proof (root_label _ _ V _ q1).
    pose proof (a5 i j p q Hne Hp Hq Hup Huq). pose proof (a6 i j p q Hne Hp Hq Hup Huq).
    apply (space_preserved {[trapframe q; pagetable q]} g (mach s)); [done|done|set_unfold; naive_solver congruence..].
  - intros i p [[-> ->]|[Hne Hp]]%Hcase Hup; [done|by eapply a3].
  - intros i p [[-> ->]|[Hne Hp]]%Hcase; [|by eapply a4]. destruct (a4 j q Hq) as [Hl Hf]. split; [done|]. intros _. simpl. auto.
  - intros i k p p' Hne [[-> ->]|[Hi Hp]]%Hcase [[-> ->]|[Hk Hp']]%Hcase Hup Hup'; try done. by apply (a5 i k).
  - intros i k p p' Hne [[-> ->]|[Hi Hp]]%Hcase [[-> ->]|[Hk Hp']]%Hcase Hup Hup'; try done. by apply (a6 i k).
  - intros i p [[-> ->]|[Hne Hp]]%Hcase Hup; [done|by eapply a8].
  - intros i k p p' Hne [[-> ->]|[Hi Hp]]%Hcase [[-> ->]|[Hk Hp']]%Hcase Hup Hup'; try done. by apply (a9 i k).
Qed.

(** ** The scan *)

Definition zombie_child (i : nat) (q : proc) : Prop := parent q = Some i ∧ state q = ZOMBIE.

Lemma wp_kwait_skip n j i addr hk q (s : K) Q :
  unlocked s → procs s !! j = Some q → ¬ zombie_child i q →
  wp (kwait_scan n (S j) i addr (hk || bool_decide (parent q = Some i))) (entered WaitLock s) Q →
  wp (kwait_scan (S n) j i addr hk) (entered WaitLock s) Q.
Proof.
  intros U Hq Hz HQ. cbn [kwait_scan]. apply wp_bind, (wp_pget j q); [done|].
  destruct (decide (parent q = Some i)) as [Hp|Hp]; [rewrite bool_decide_true, orb_true_r in HQ by done|
    rewrite bool_decide_false, orb_false_r in HQ by done; done].
  assert (lks (entered WaitLock s) (ProcLock j) = initlock) as Hl by (simpl; rewrite fn_lookup_insert_ne by done; apply U).
  apply wp_bind, wp_acquire; [done|]. apply wp_bind, (wp_pget j q); [done|]. rewrite decide_False by (intros Hs; by apply Hz).
  apply wp_bind, wp_leave; [apply cpu_ok_pushed, U|done|].
  rewrite relax_pos by (simpl; destruct (ul_cpu _ U); lia). done.
Qed.

Lemma wp_kwait_skips d n j i addr hk (s : K) Q :
  unlocked s → (j + d ≤ length (procs s))%nat →
  (∀ k q, (j ≤ k < j + d)%nat → procs s !! k = Some q → ¬ zombie_child i q) →
  (∀ hk', wp (kwait_scan n (j + d) i addr hk') (entered WaitLock s) Q) →
  wp (kwait_scan (d + n) j i addr hk) (entered WaitLock s) Q.
Proof.
  intros U. revert j hk. induction d as [|d IH]; intros j hk Hd Hz HQ.
  - rewrite Nat.add_0_r in HQ. apply HQ.
  - destruct (lookup_lt_is_Some_2 (procs s) j) as [q Hq]; [lia|]. apply (wp_kwait_skip _ _ _ _ _ q); [done|done|apply (Hz j q); [lia|done]|].
    apply IH; [lia|intros k q' Hk; apply Hz; lia|]. intros hk'. replace (S j + d)%nat with (j + S d)%nat by lia. apply HQ.
Qed.

Lemma unlocked_mach m (s : K) : unlocked s → unlocked (set_mach m s).
Proof. intros []. by split. Qed.

(** Leaving both critical sections. *)
Lemma wp_leave2 {A} (r : A) l l' (s : K) Q :
  cpu_ok (kcpu s) → l ≠ l' → lks s l = initlock → lks s l' = initlock →
  Q r (relax s) → wp (release l ;; release l' ;; mret r) (entered l (entered l' s)) Q.
Proof.
  intros Hk Hne Hl Hl' HQ. apply wp_bind, wp_leave; [by apply cpu_ok_pushed|simpl; by rewrite fn_lookup_insert_ne|].
  rewrite relax_pos by (simpl; destruct Hk; lia). apply wp_bind, wp_leave; [done|done|]. by apply wp_ret.
Qed.

Lemma int_bytes_ok x : are_bytes (int_bytes x).
Proof.
  unfold are_bytes, int_bytes. rewrite Forall_forall. intros b (k & -> & _)%list_elem_of_fmap. by apply Z.mod_pos_bound.
Qed.

(** The copy of the status, before anything is freed. *)
Definition status_copied (g : ghost) (p : proc) (addr x : Z) (m : kmem) (r : Z) (g1 : ghost) (m1 : kmem) : Prop :=
  vinv g1 m1 ∧ confined (uproc_of p) g m g1 m1 ∧
  (addr = 0 ∧ r = 0 ∧ m1 = m ∨
   addr ≠ 0 ∧ ∃ k, wrote g (uproc_of p) addr (take k (int_bytes x)) m m1 ∧ (r = 0 ∧ (4 ≤ k)%nat ∨ r = -1)).

Lemma wp_copy_status g i p addr x (s s' : K) Q :
  pinv g s → procs s !! i = Some p → used p → 0 ≤ addr → mach s' = mach s →
  (∀ r g1 m1, status_copied g p addr x (mach s) r g1 m1 → Q r (set_mach m1 s')) →
  wp (if addr =? 0 then mret 0 else on_mem (copyout (uproc_of p) (upagetable (uproc_of p)) addr (int_bytes x))) s' Q.
Proof.
  intros I Hp Hup Ha Em HQ. destruct (pi_space _ _ I i p Hp Hup) as [a1 a2 a3 a4]. destruct (Z.eqb_spec addr 0) as [->|Hne].
  - apply wp_ret. specialize (HQ 0 g (mach s)). replace (set_mach (mach s) s') with s' in HQ by (rewrite <-Em; by destruct s').
    apply HQ. split_and!; [apply I|apply confined_refl|by left].
  - apply wp_zoom. rewrite Em. eapply wp_mono; [apply (wp_copyout_loop _ g); auto using int_bytes_ok; [apply I|simpl; lia]|].
    intros r m1 (g1 & k & V1 & C1 & W1 & Hr). apply (HQ r g1). split_and!; [done|done|]. right. split; [done|]. exists k. split; [done|].
    destruct Hr as [[-> Hk]|?]; [left|by right]. split; [done|]. by change (length (int_bytes x)) with 4%nat in Hk.
Qed.

Lemma wp_kwait_collect n j i addr hk g p q (s : K) Q :
  pinv g s → unlocked s → lks s WaitLock = initlock → 0 ≤ addr →
  procs s !! i = Some p → used p → procs s !! j = Some q → zombie_child i q →
  (∀ g1 m1, status_copied g p addr (xstate q) (mach s) (-1) g1 m1 → Q (Some (-1), true) (relax (set_mach m1 s))) →
  (∀ g1 m1 g2 m2, status_copied g p addr (xstate q) (mach s) 0 g1 m1 → vinv g2 m2 →
     preserves {[trapframe q; pagetable q]} g1 m1 g2 m2 → released q g1 g2 →
     Q (Some (pid q), true) (relax (with_proc j (cleared q) (set_mach m2 s)))) →
  wp (kwait_scan (S n) j i addr hk) (entered WaitLock s) Q.
Proof.
  intros I U Hw Ha Hp Hup Hq [Hc Hz] Hfail Hok. cbn [kwait_scan]. assert (used q) as Huq by (unfold used; congruence).
  assert (lks (entered WaitLock s) (ProcLock j) = initlock) as Hl by (simpl; rewrite fn_lookup_insert_ne by done; apply U).
  apply wp_bind, (wp_pget j q); [done|]. rewrite decide_True by done. apply wp_bind, wp_acquire; [done|].
  set (e := entered (ProcLock j) (entered WaitLock s)).
  apply wp_bind, (wp_pget j q); [done|]. rewrite decide_True by done.
  do 2 (apply wp_bind, (wp_pget j q); [done|]). apply wp_bind, (wp_pget i p); [done|].
  apply wp_bind, (wp_copy_status g i p addr (xstate q) s e); [done..|]. intros r g1 m1 St.
  pose proof St as (V1 & C1 & Hr). pose proof (pinv_confined g s i p g1 m1 I Hp Hup V1 C1) as I1.
  change (set_mach m1 e) with (entered (ProcLock j) (entered WaitLock (set_mach m1 s))).
  assert (r = 0 ∨ r = -1) as [-> | ->] by naive_solver; cbn [Z.ltb Z.compare].
  - apply wp_bind. destruct (pi_space _ _ I1 j q Hq Huq) as [b1 b2 b3 b4].
    apply (wp_freeproc g1 j q); [done|done| |].
    { assert (trapframe q ≠ 0) by (apply (nonzero_page g1 m1); [done|by destruct b2 as [-> _]]).
      assert (pagetable q ≠ 0) by (apply (nonzero_page g1 m1); [done|by rewrite (root_label _ _ V1 _ b1)]).
      by split; right. }
    intros g2 m2 V2 P2 Rl. change (with_proc j (cleared q) (set_mach m2 _)) with
      (entered (ProcLock j) (entered WaitLock (with_proc j (cleared q) (set_mach m2 s)))).
    apply wp_leave2; [apply U|done|apply U|done|]. by eapply Hok.
  - apply wp_leave2; [apply U|done|apply U|done|]. by eapply Hfail.
Qed.

(** The free pages, by their counters. *)
Lemma free_count g m x : vinv g m → page_ok x → own g x = OFree ↔ refcount m (x / PGSIZE) = 0.
Proof. intros V Hx. rewrite <-(ti_free _ _ (vi_t _ _ V)). by apply (ki_free _ _ (ti_k _ _ (vi_t _ _ V))). Qed.

Lemma released_counts g m g' m' q :
  vinv g m → vinv g' m' → released q g g' → space g m q →
  pagetable q ∉ roots g' ∧ ∀ x, page_ok x → refcount m' (x / PGSIZE) = 0 ↔
    refcount m (x / PGSIZE) = 0 ∨ x = trapframe q ∨ exclusive (pagetable q) g x.
Proof.
  intros V V' R [q1 [q2 _] _ _]. pose proof (root_label _ _ V _ q1) as Hl.
  assert (trapframe q ≠ 0) as Ht by (apply (nonzero_page g m); [done|by rewrite q2]).
  assert (pagetable q ≠ 0) as Hp by (apply (nonzero_page g m); [done|by rewrite Hl]). split.
  - intros Hin%(root_label _ _ V'). assert (own g' (pagetable q) = OFree) as Hf; [|congruence].
    apply R. right. right. split; [done|]. left. eauto.
  - intros x Hx. rewrite <-(free_count g' m'), <-(free_count g m) by done. rewrite (R x). unfold belongings. naive_solver.
Qed.

(** C11. [kwait] collects a zombie at once.  If the current process has a child
    that has exited, [kwait] does not sleep: it takes the first such child of
    the table and either copies its status to [addr] (nothing for a null
    [addr]), empties its entry and returns its pid, and its address space is
    gone: the pages on the free list, those with count 0, are exactly the ones
    that were, the trapframe of the child, the pages of its page table and the
    pages that it alone had mapped; or, when the status cannot be copied, returns -1
    and leaves the child as it is.  The invariant holds and all locks are free
    in both cases. *)
Theorem kwait_collects fuel g i j p q addr (s : K) :
  pinv g s → unlocked s → lks s WaitLock = initlock → 0 ≤ addr →
  cproc s = Some i → procs s !! i = Some p → used p →
  procs s !! j = Some q → zombie_child i q →
  (∀ k q', (k < j)%nat → procs s !! k = Some q' → ¬ zombie_child i q') →
  wp (kwait (S fuel) addr) s (λ r s', ∃ g1 m1 g', pinv g' s' ∧ unlocked s' ∧ lks s' = lks s ∧
    ((r = pid q ∧ status_copied g p addr (xstate q) (mach s) 0 g1 m1 ∧
        preserves {[trapframe q; pagetable q]} g1 m1 g' (mach s') ∧ procs s' = <[j := cleared q]> (procs s) ∧
        pagetable q ∉ roots g' ∧
        ∀ x, page_ok x → refcount (mach s') (x / PGSIZE) = 0 ↔
          refcount m1 (x / PGSIZE) = 0 ∨ x = trapframe q ∨ exclusive (pagetable q) g1 x) ∨
     (r = -1 ∧ status_copied g p addr (xstate q) (mach s) (-1) g1 m1 ∧ mach s' = m1 ∧ g' = g1 ∧ procs s' = procs s))).
Proof.
  intros I U Hw Ha Hc Hp Hup Hq Hz Hfirst. apply wp_bind, (wp_current i); [apply U|done|].
  apply wp_bind, wp_acquire; [done|]. cbn [kwait_loop]. apply wp_bind. rewrite entered_relax.
  pose proof (lookup_lt_Some _ _ _ Hq) as Hj. pose proof (ul_len _ U) as Hlen.
  replace NPROC with (j + S (NPROC - S j))%nat by lia.
  apply wp_kwait_skips; [done|lia|intros k q' Hk; apply Hfirst; lia|]. intros hk. rewrite Nat.add_0_l.
  apply (wp_kwait_collect _ _ _ _ _ g p q); try done.
  - intros g1 m1 St. apply wp_ret. pose proof St as (V1 & C1 & _). exists g1, m1, g1. split_and!.
    + apply pinv_relax. by apply (pinv_confined g s i p g1 m1).
    + by apply unlocked_relax, unlocked_mach.
    + done.
    + by right.
  - intros g1 m1 g2 m2 St V2 P2 Rl. apply wp_ret. pose proof St as (V1 & C1 & _). exists g1, m1, g2. split_and!.
    + apply pinv_relax. apply (pinv_free g1 (set_mach m1 s)); [by apply (pinv_confined g s i p g1 m1)|done|apply Hz|done|done].
    + by apply unlocked_relax, unlocked_with, unlocked_mach.
    + done.
    + left. destruct (released_counts g1 m1 g2 m2 q) as [Hr Hx]; [done..| |by split_and!].
      apply (pi_space g1 (set_mach m1 s) (pinv_confined g s i p g1 m1 I Hp Hup V1 C1) j q Hq). destruct Hz as [_ Hz]. unfold used. congruence.
Qed.
End wait.
