(* ===== verification/Syscall.v ===== *)
(** * System calls

    syscall.c and sysproc.c: fetching arguments from the trapframe, the system
    calls on processes, and the dispatch.  The system calls on files are the
    operations of the class [SysFile]. *)

From S2P Require Import Prelude Riscv Memory Kalloc Vm VmInv VmWalk VmRef VmOps Cow VmUser CopyUser.
From S2P Require Import ProcVm Spinlock Proc ProcOps ProcMem ProcFork ProcExit ProcWait Sched.

(** Offset of a7 in the trapframe. *)
Definition TF_A7 : Z := 168.
Definition SBRK_EAGER : Z := 1.

(** The value of [n] bytes, little-endian. *)
Definition bytes_value (bs : list Z) : Z := foldr (λ b v, b + 256 * v) 0 bs.

(** [strlen] of a buffer with a NUL in it. *)
Fixpoint buf_strlen (bs : list Z) : Z :=
  match bs with
  | [] => 0
  | b :: bs' => if b =? 0 then 0 else 1 + buf_strlen bs'
  end.

Class SysFile (fsT : Type) := {
  sys_pipe : M (kst fsT) Z;
  sys_read : M (kst fsT) Z;
  sys_exec : M (kst fsT) Z;
  sys_fstat : M (kst fsT) Z;
  sys_chdir : M (kst fsT) Z;
  sys_dup : M (kst fsT) Z;
  sys_open : M (kst fsT) Z;
  sys_write : M (kst fsT) Z;
  sys_mknod : M (kst fsT) Z;
  sys_unlink : M (kst fsT) Z;
  sys_link : M (kst fsT) Z;
  sys_mkdir : M (kst fsT) Z;
  sys_close : M (kst fsT) Z;
  sys_sync : M (kst fsT) Z;
}.

Section syscall.
Context {fsT : Type} `{Layout, Code, FileOps fsT, Switch fsT}.
Notation K := (kst fsT).

(** ** Arguments *)

Definition fetchaddr (addr : Z) : M K (Z * Z) :=
  i ← current;
  up ← pget i uproc_of;
  if (usz up <=? addr) || (usz up <? u64 (addr + 8)) then mret (-1, 0) else
  r ← on_mem (copyin up (upagetable up) addr 8);
  if negb (r.1 =? 0) then mret (-1, bytes_value r.2) else
  mret (0, bytes_value r.2).

Definition fetchstr (addr max : Z) : M K (Z * list Z) :=
  i ← current;
  pt ← pget i pagetable;
  r ← on_mem (copyinstr pt addr max);
  if r.1 <? 0 then mret (-1, r.2) else
  mret (buf_strlen r.2, r.2).

Definition argraw (n : Z) : M K Z :=
  i ← current;
  tf ← pget i trapframe;
  if (0 <=? n) && (n <=? 5) then on_mem (read64 (tf + TF_A0 + 8 * n)) else panic "argraw".

Definition argint (n : Z) : M K Z := v ← argraw n; mret (s32 v).
Definition argaddr (n : Z) : M K Z := argraw n.

Definition argstr (n max : Z) : M K (Z * list Z) :=
  addr ← argaddr n;
  fetchstr addr max.

(** ** sysproc.c *)

Definition sys_exit : M K Z :=
  n ← argint 0;
  kexit n ;;
  mret 0.

Definition sys_getpid : M K Z :=
  i ← current;
  pget i pid.

Definition sys_fork : M K Z := kfork.

(** [fuel] bounds how often the caller sleeps. *)
Definition sys_wait (fuel : nat) : M K Z :=
  p ← argaddr 0;
  kwait fuel p.

Definition sys_sbrk : M K Z :=
  n ← argint 0;
  t ← argint 1;
  i ← current;
  addr ← pget i sz;
  if (t =? SBRK_EAGER) || (n <? 0) then
    r ← growproc n;
    if r <? 0 then mret (-1) else mret addr
  else
    if u64 (addr + n) <? addr then mret (-1) else
    if TRAPFRAME <? u64 (addr + n) then mret (-1) else
    i ← current;
    pset i (λ p, set_sz (u64 (sz p + n)) p) ;;
    mret addr.

(** The [while] loop of [sys_pause]; [fuel] bounds how often the caller sleeps. *)
Fixpoint pause_loop (fuel : nat) (ticks0 n : Z) : M K Z :=
  match fuel with
  | O => nofuel
  | S fuel' =>
      now ← gets ticks;
      if negb (u32 (now - ticks0) <? n) then
        release TicksLock ;;
        mret 0
      else
        i ← current;
        k ← killed i;
        if negb (k =? 0) then
          release TicksLock ;;
          mret (-1)
        else
          sleep ChanTicks TicksLock ;;
          pause_loop fuel' ticks0 n
  end.

Definition sys_pause (fuel : nat) : M K Z :=
  n ← argint 0;
  let n := if n <? 0 then 0 else n in
  acquire TicksLock ;;
  ticks0 ← gets ticks;
  pause_loop fuel ticks0 n.

Definition sys_kill : M K Z :=
  victim ← argint 0;
  kkill victim.

Definition sys_uptime : M K Z :=
  acquire TicksLock ;;
  xticks ← gets ticks;
  release TicksLock ;;
  mret xticks.

Definition sys_setpriority : M K Z :=
  i ← current;
  pr ← argint 0;
  if (pr <? PRIORITY_MIN) || (PRIORITY_MAX <? pr) then mret (-1) else
  acquire (ProcLock i) ;;
  pset i (set_priority pr) ;;
  release (ProcLock i) ;;
  mret 0.

(** ** Dispatch *)

Context `{SysFile fsT}.

(** The array [syscalls]; [fuel] as for [sys_wait] and [sys_pause]. *)
Definition syscalls (fuel : nat) (num : Z) : option (M K Z) :=
  match num with
  | 1 => Some sys_fork
  | 2 => Some sys_exit
  | 3 => Some (sys_wait fuel)
  | 4 => Some sys_pipe
  | 5 => Some sys_read
  | 6 => Some sys_kill
  | 7 => Some sys_exec
  | 8 => Some sys_fstat
  | 9 => Some sys_chdir
  | 10 => Some sys_dup
  | 11 => Some sys_getpid
  | 12 => Some sys_sbrk
  | 13 => Some (sys_pause fuel)
  | 14 => Some sys_uptime
  | 15 => Some sys_open
  | 16 => Some sys_write
  | 17 => Some sys_mknod
  | 18 => Some sys_unlink
  | 19 => Some sys_link
  | 20 => Some sys_mkdir
  | 21 => Some sys_close
  | 22 => Some sys_sync
  | 23 => Some sys_setpriority
  | _ => None
  end.

(** [syscall], without the message that it prints for an unknown number. *)
Definition syscall (fuel : nat) : M K unit :=
  i ← current;
  tf ← pget i trapframe;
  a7 ← on_mem (read64 (tf + TF_A7));
  let num := s32 a7 in
  match syscalls fuel num with
  | Some f =>
      r ← f;
      tf ← pget i trapframe;
      on_mem (write64 (tf + TF_A0) (u64 r))
  | None => on_mem (write64 (tf + TF_A0) (u64 (-1)))
  end.

(** ** Properties *)

Lemma wp_mem_gets {A} (f : kmem → A) (s : K) Q : Q (f (mach s)) s → wp (on_mem (gets f)) s Q.
Proof. intros HQ. apply wp_zoom, wp_gets. by destruct s. Qed.

Lemma wp_argraw i p n (s : K) Q :
  cpu_ok (kcpu s) → cproc s = Some i → procs s !! i = Some p → 0 ≤ n ≤ 5 →
  Q (load64 (mem (mach s)) (trapframe p + TF_A0 + 8 * n)) (relax s) → wp (argraw n) s Q.
Proof.
  intros Hk Hc Hp Hn HQ. apply wp_bind, (wp_current i); [done..|]. apply wp_bind, (wp_pget i p); [done|].
  destruct (Z.leb_spec 0 n); [|lia]. destruct (Z.leb_spec n 5); [|lia]. by apply wp_mem_gets.
Qed.

(** The n-th argument register of a process. *)
Definition arg (s : K) (p : proc) (n : Z) : Z := load64 (mem (mach s)) (trapframe p + TF_A0 + 8 * n).

(** [setpriority] accepts exactly the priorities from 0 to 4.  It sets the
    base priority of the caller and nothing else, or returns -1 and changes
    nothing; so it keeps every process at a priority the scheduler visits. *)
Lemma setpriority_in_range i p (s : K) :
  unlocked s → cproc s = Some i → procs s !! i = Some p →
  wp sys_setpriority s (λ r s',
    if decide (PRIORITY_MIN ≤ s32 (arg s p 0) ≤ PRIORITY_MAX)
    then r = 0 ∧ s' = relax (with_proc i (set_priority (s32 (arg s p 0)) p) s)
    else r = -1 ∧ s' = relax s).
Proof.
  intros U Hc Hp. apply wp_bind, (wp_current i); [apply U|done|]. apply wp_bind, wp_bind.
  apply (wp_argraw i p); [apply cpu_ok_touch, U|done|done|lia|]. apply wp_ret. rewrite relax_relax.
  change (load64 _ _) with (arg s p 0). set (pr := s32 (arg s p 0)).
  destruct (decide (PRIORITY_MIN ≤ pr ≤ PRIORITY_MAX)) as [Hr|Hr].
  2: { replace ((pr <? PRIORITY_MIN) || (PRIORITY_MAX <? pr)) with true; [by apply wp_ret|].
       destruct (Z.ltb_spec pr PRIORITY_MIN); [done|]. destruct (Z.ltb_spec PRIORITY_MAX pr); [done|lia]. }
  destruct (Z.ltb_spec pr PRIORITY_MIN); [lia|]. destruct (Z.ltb_spec PRIORITY_MAX pr); [lia|]. cbn [orb].
  apply wp_bind, wp_acquire; [apply U|]. apply wp_bind, (wp_pset i p); [done|]. apply wp_bind.
  apply (wp_leave _ (with_proc i (set_priority pr p) (relax s))); [apply cpu_ok_touch, U|apply U|].
  apply wp_ret. split; [done|]. exact (relax_relax (with_proc i (set_priority pr p) s)).
Qed.

Lemma syscalls_range fuel num : is_Some (syscalls fuel num) ↔ 1 ≤ num ≤ 23.
Proof.
  split.
  - intros [f Hf]. destruct (decide (1 ≤ num ≤ 23)) as [|Hn]; [done|]. exfalso. revert Hf. unfold syscalls.
    repeat (case_match; try done; try lia).
  - intros Hn. assert (∃ k, num = Z.of_nat (S k) ∧ (k < 23)%nat) as (k & -> & Hk) by (exists (Z.to_nat (num - 1)); lia).
    do 23 (destruct k as [|k]; [simpl; eauto|]). lia.
Qed.

(** A system call number outside 1..23 runs no system call: the caller gets
    -1 in a0, and nothing but that register changes. *)
Lemma unknown_syscall_fails fuel i p (s : K) :
  cpu_ok (kcpu s) → cproc s = Some i → procs s !! i = Some p →
  ¬ (1 ≤ s32 (load64 (mem (mach s)) (trapframe p + TF_A7)) ≤ 23) →
  wp (syscall fuel) s (λ _ s',
    s' = relax (set_mach (set_mem (store64 (mem (mach s)) (trapframe p + TF_A0) (2 ^ 64 - 1)) (mach s)) s)).
Proof.
  intros Hk Hc Hp Hn. apply wp_bind, (wp_current i); [done..|]. apply wp_bind, (wp_pget i p); [done|].
  apply wp_bind, wp_mem_gets. cbv zeta. change (mach (relax s)) with (mach s).
  destruct (syscalls fuel (s32 (load64 (mem (mach s)) (trapframe p + TF_A7)))) as [f|] eqn:E; [|done].
  exfalso. apply Hn, (syscalls_range fuel). by rewrite E.
Qed.

End syscall.
