(* ===== verification/Trap.v ===== *)
(** * Traps

    trap.c: traps from user space and from the kernel, and the clock.  The
    supervisor registers that the code reads and writes are a record next to
    the kernel state; the SIE bit of sstatus is the interrupt enable of the CPU
    in [Spinlock]. *)

From S2P Require Import Prelude Riscv Memory Kalloc Vm VmInv VmWalk VmRef VmOps Cow VmUser CopyUser.
From S2P Require Import ProcVm Spinlock Proc ProcOps ProcMem ProcFork ProcExit ProcWait Sched Syscall.

Definition UART0_IRQ : Z := 10.
Definition VIRTIO0_IRQ : Z := 1.

(** [spp] and [spie] are the bits SSTATUS_SPP and SSTATUS_SPIE. *)
Record csrs := mkCsrs {
  spp : bool;
  spie : bool;
  stvec : Z;
  sepc : Z;
  scause : Z;
  stval : Z;
  satp : Z;
  stimecmp : Z;
}.

(** Addresses of kernel code, and the devices that interrupt. *)
Class TrapCode := { kernelvec : Z; usertrap_addr : Z; uservec : Z; userret : Z }.

Class Devices (fsT : Type) := {
  plic_claim : M (kst fsT) Z;
  plic_complete : Z → M (kst fsT) unit;
  uartintr : M (kst fsT) unit;
  virtio_disk_intr : M (kst fsT) unit;
  r_time : kst fsT → Z;
}.

Section trap.
Context {fsT : Type} `{Layout, Code, TrapCode, FileOps fsT, Switch fsT, SysFile fsT, Devices fsT}.
Notation K := (kst fsT).

Record tst := mkTst { kern : K; regs : csrs }.

Definition in_kernel {A} (c : M K A) : M tst A := zoom kern (λ k t, mkTst k (regs t)) c.
Definition on_regs {A} (c : M csrs A) : M tst A := zoom regs (λ r t, mkTst (kern t) r) c.

Definition w_stvec (v : Z) : M csrs unit :=
  modify (λ r, mkCsrs (spp r) (spie r) v (sepc r) (scause r) (stval r) (satp r) (stimecmp r)).
Definition w_sepc (v : Z) : M csrs unit :=
  modify (λ r, mkCsrs (spp r) (spie r) (stvec r) v (scause r) (stval r) (satp r) (stimecmp r)).
Definition w_sstatus (p i : bool) : M csrs unit :=
  modify (λ r, mkCsrs p i (stvec r) (sepc r) (scause r) (stval r) (satp r) (stimecmp r)).
Definition w_stimecmp (v : Z) : M csrs unit :=
  modify (λ r, mkCsrs (spp r) (spie r) (stvec r) (sepc r) (scause r) (stval r) (satp r) v).

Definition trapinit : M K unit := modify (λ s, set_lks (<[TicksLock := initlock]> (lks s)) s).
Definition trapinithart : M tst unit := on_regs (w_stvec kernelvec).

Definition clockintr : M tst unit :=
  c ← in_kernel (gets mycpu);
  when (bool_decide (c = 0%nat))
    (in_kernel (
       acquire TicksLock ;;
       modify (λ s, set_ticks (u32 (ticks s + 1)) s) ;;
       wakeup ChanTicks ;;
       release TicksLock)) ;;
  t ← in_kernel (gets r_time);
  on_regs (w_stimecmp (u64 (t + 1000000))).

Definition devintr : M tst Z :=
  cause ← on_regs (gets scause);
  if cause =? 0x8000000000000009 then
    irq ← in_kernel plic_claim;
    (if irq =? UART0_IRQ then in_kernel uartintr
     else if irq =? VIRTIO0_IRQ then in_kernel virtio_disk_intr
     else mret tt) ;;
    when (negb (irq =? 0)) (in_kernel (plic_complete irq)) ;;
    mret 1
  else if cause =? 0x8000000000000005 then
    clockintr ;;
    mret 2
  else mret 0.

Definition prepare_return : M tst unit :=
  i ← in_kernel current;
  in_kernel (on_cpu intr_off) ;;
  on_regs (w_stvec (TRAMPOLINE + (uservec - trampoline))) ;;
  tf ← in_kernel (pget i trapframe);
  ks ← in_kernel (pget i kstack);
  root ← on_regs (gets satp);
  in_kernel (on_mem (write64 (tf + TF_KSATP) root)) ;;
  in_kernel (on_mem (write64 (tf + TF_KSP) (u64 (ks + PGSIZE)))) ;;
  in_kernel (on_mem (write64 (tf + TF_KTRAP) usertrap_addr)) ;;
  c ← in_kernel (gets mycpu);
  in_kernel (on_mem (write64 (tf + TF_HARTID) (Z.of_nat c))) ;;
  on_regs (w_sstatus false true) ;;
  epc ← in_kernel (on_mem (read64 (tf + TF_EPC)));
  on_regs (w_sepc epc).

(** The branches of [usertrap] on the cause: the number of the device that
    interrupted, 0 for none. *)
Definition usertrap_cause (fuel : nat) (i : nat) : M tst Z :=
  cause ← on_regs (gets scause);
  if cause =? 8 then
    k ← in_kernel (killed i);
    when (negb (k =? 0)) (in_kernel (kexit (-1))) ;;
    tf ← in_kernel (pget i trapframe);
    epc ← in_kernel (on_mem (read64 (tf + TF_EPC)));
    in_kernel (on_mem (write64 (tf + TF_EPC) (u64 (epc + 4)))) ;;
    in_kernel (on_cpu intr_on) ;;
    in_kernel (syscall fuel) ;;
    mret 0
  else
    which_dev ← devintr;
    if negb (which_dev =? 0) then mret which_dev else
    up ← in_kernel (pget i uproc_of);
    va ← on_regs (gets stval);
    a ← (if cause =? 15 then in_kernel (on_mem (cowfault (upagetable up) va)) else mret 0);
    if negb (a =? 0) then mret 0 else
    a ← (if (cause =? 15) || (cause =? 13)
         then in_kernel (on_mem (vmfault up (upagetable up) va)) else mret 0);
    if negb (a =? 0) then mret 0 else
    in_kernel (setkilled i) ;;
    mret 0.

(** Returns the satp value for trampoline.S.  The messages about unexpected
    causes are left out. *)
Definition usertrap (fuel : nat) : M tst Z :=
  from_kernel ← on_regs (gets spp);
  if from_kernel : bool then panic "usertrap: not from user mode" else
  on_regs (w_stvec kernelvec) ;;
  i ← in_kernel current;
  tf ← in_kernel (pget i trapframe);
  pc ← on_regs (gets sepc);
  in_kernel (on_mem (write64 (tf + TF_EPC) pc)) ;;
  which_dev ← usertrap_cause fuel i;
  k ← in_kernel (killed i);
  when (negb (k =? 0)) (in_kernel (kexit (-1))) ;;
  when (which_dev =? 2) (in_kernel yield) ;;
  prepare_return ;;
  pt ← in_kernel (pget i pagetable);
  mret (MAKE_SATP pt).

Definition kerneltrap : M tst unit :=
  pc ← on_regs (gets sepc);
  p ← on_regs (gets spp);
  pi ← on_regs (gets spie);
  if negb p then panic "kerneltrap: not from supervisor mode" else
  on ← in_kernel (on_cpu intr_get);
  if on : bool then panic "kerneltrap: interrupts enabled" else
  which_dev ← devintr;
  if which_dev =? 0 then panic "kerneltrap" else
  when (which_dev =? 2)
    (me ← in_kernel myproc;
     when (bool_decide (is_Some me)) (in_kernel yield)) ;;
  on_regs (w_sepc pc) ;;
  on_regs (w_sstatus p pi).

(** [forkret] for the value [first] of its static variable of that name, with
    the calls it makes the first time; the result is the satp value with which
    it jumps to userret. *)
Definition forkret_body (fsinit : M K unit) (kexec_init : M K Z) (first : bool) : M tst Z :=
  i ← in_kernel current;
  in_kernel (release (ProcLock i)) ;;
  when first
    (in_kernel fsinit ;;
     tf ← in_kernel (pget i trapframe);
     r ← in_kernel kexec_init;
     in_kernel (on_mem (write64 (tf + TF_A0) (u64 r))) ;;
     a0 ← in_kernel (on_mem (read64 (tf + TF_A0)));
     if a0 =? u64 (-1) then panic "exec" else mret tt) ;;
  prepare_return ;;
  pt ← in_kernel (pget i pagetable);
  mret (MAKE_SATP pt).

(** ** Properties *)

Context `{!LayoutOk}.

Lemma wp_in_kernel {A} (c : M K A) t Q : wp c (kern t) (λ a k, Q a (mkTst k (regs t))) → wp (in_kernel c) t Q.
Proof. intros HQ. by apply (wp_zoom kern (λ k t, mkTst k (regs t))). Qed.

Lemma wp_on_regs {A} (c : M csrs A) t Q : wp c (regs t) (λ a r, Q a (mkTst (kern t) r)) → wp (on_regs c) t Q.
Proof. intros HQ. by apply (wp_zoom regs (λ r t, mkTst (kern t) r)). Qed.

Lemma wp_regs_gets {A} (f : csrs → A) t Q : Q (f (regs t)) t → wp (on_regs (gets f)) t Q.
Proof. intros HQ. apply wp_on_regs, wp_gets. by destruct t. Qed.

(** Writing the trapframe of a process. *)
Lemma frame_write g (s : K) i p m' :
  pinv g s → procs s !! i = Some p → used p → bytes_ok m' →
  (∀ x, x < trapframe p ∨ trapframe p + PGSIZE ≤ x → m' x = mem (mach s) x) →
  pinv g (set_mach (set_mem m' (mach s)) s) ∧ reads_same g (mach s) (set_mem m' (mach s)) ∧
  ∀ r v, r ∈ roots g → 0 ≤ v < VPAGES → upte (set_mem m' (mach s)) r v = upte (mach s) r v.
Proof.
  intros I Hp Hup Hb Hm. pose proof (pi_v _ _ I) as V. destruct (pi_space _ _ I i p Hp Hup) as [_ Hf _ _].
  destruct (preserves_write g (mach s) (trapframe p) m' V Hf Hb Hm) as [V' P].
  assert (∀ r, r ∈ roots g → r ∉ ({[trapframe p]} : gset Z)) as Hne.
  { intros r Hr ->%elem_of_singleton. destruct Hf as [Hf _]. pose proof (root_label _ _ V _ Hr). congruence. }
  assert (∀ r v, r ∈ roots g → 0 ≤ v < VPAGES → upte (set_mem m' (mach s)) r v = upte (mach s) r v) as EP.
  { apply (upte_ext g (mach s) V _ (trapframe p)); [|by right; apply Hf|done]. eapply own_OData_page; [apply V|apply Hf]. }
  split_and!; [|intros r va Hr Hva; apply (pv_reads _ _ _ _ _ P); auto|done].
  pose proof I as [a1 a2 a3 a4 a5 a6 a7 a8 a9]. split; try done. intros j q Hq Huq.
  destruct (a2 j q Hq Huq) as [b1 b2 b3 b4]. split; try done. intros v Hv. pose proof (npg_range _ b3).
  rewrite EP; [by apply b4|done|apply upage_vpage; lia].
Qed.

(** The part of the trapframe that [prepare_return] writes. *)
Definition return_frame (m : memory) (tf root ksp hart : Z) : memory :=
  store64 (store64 (store64 (store64 m (tf + TF_KSATP) root) (tf + TF_KSP) ksp) (tf + TF_KTRAP) usertrap_addr)
          (tf + TF_HARTID) hart.

Lemma return_frame_page m tf root ksp hart :
  bytes_ok m → bytes_ok (return_frame m tf root ksp hart) ∧
  (∀ x, x < tf ∨ tf + PGSIZE ≤ x → return_frame m tf root ksp hart x = m x) ∧
  load64 (return_frame m tf root ksp hart) (tf + TF_EPC) = load64 m (tf + TF_EPC).
Proof.
  intros Hb. unfold return_frame, TF_KSATP, TF_KSP, TF_KTRAP, TF_HARTID, TF_EPC. split_and!.
  - by do 4 apply bytes_ok_store64.
  - intros x Hx. unfold store64, store_le, PGSIZE in *. mem_cases; done || lia.
  - unfold load64, store64. by rewrite !load_store_other by lia.
Qed.

Lemma wp_prepare_return g i p t Q :
  pinv g (kern t) → cpu_ok (kcpu (kern t)) → cproc (kern t) = Some i → procs (kern t) !! i = Some p → used p →
  (∀ m' k' r', let s := kern t in
     pinv g (set_mach (set_mem m' (mach s)) s) → reads_same g (mach s) (set_mem m' (mach s)) →
     (∀ r v, r ∈ roots g → 0 ≤ v < VPAGES → upte (set_mem m' (mach s)) r v = upte (mach s) r v) →
     k' = set_kcpu (mkCpu (noff (touch (kcpu s))) (intena (touch (kcpu s))) false) (set_mach (set_mem m' (mach s)) s) →
     sepc r' = load64 (mem (mach s)) (trapframe p + TF_EPC) → spp r' = false → spie r' = true →
     stvec r' = TRAMPOLINE + (uservec - trampoline) → Q tt (mkTst k' r')) →
  wp prepare_return t Q.
Proof.
  intros I Hk Hc Hp Hup HQ. set (s := kern t) in *. destruct t as [? R]. cbn [kern] in s. subst s.
  apply wp_bind, wp_in_kernel, (wp_current i); [done..|]. apply wp_bind, wp_in_kernel, wp_zoom, wp_modify.
  apply wp_bind, wp_on_regs, wp_modify. cbn [regs kern]. apply wp_bind, wp_in_kernel, (wp_pget i p); [done|].
  apply wp_bind, wp_in_kernel, (wp_pget i p); [done|]. apply wp_bind, wp_on_regs, wp_gets. cbn [regs kern].
  do 3 (apply wp_bind, wp_in_kernel, wp_zoom, wp_modify). apply wp_bind, wp_in_kernel, wp_gets. cbn [regs kern].
  apply wp_bind, wp_in_kernel, wp_zoom, wp_modify. apply wp_bind, wp_on_regs, wp_modify. cbn [regs kern].
  apply wp_bind, wp_in_kernel, wp_mem_gets. apply wp_on_regs, wp_modify. cbn [regs kern].
  set (hart := Z.of_nat (mycpu kern0)). set (ksp := u64 (kstack p + PGSIZE)). set (root := satp R).
  destruct (return_frame_page (mem (mach kern0)) (trapframe p) root ksp hart) as (Hb & Hm & He); [apply I|].
  destruct (frame_write g kern0 i p _ I Hp Hup Hb Hm) as (I' & R' & EP).
  by eapply (HQ (return_frame (mem (mach kern0)) (trapframe p) root ksp hart)).
Qed.
End trap.
