(* ===== verification/FsState.v ===== *)
(** * The state of the file system

    The constants and structures of fs.h, buf.h, file.h, sleeplock.h and stat.h,
    and the global variables of bio.c, log.c, fs.c and file.c as one record that
    instantiates the file-system part of the kernel state.

    Arrays are functions of the index.  A buffer, an inode or a file is named by
    its index; a pointer that may be null, or that a process stores, is 0 or the
    index plus one.  The bytes of a block are a [memory] from offset 0 on.

    The disk driver is the synchronous transfer of one block; [dwrites] lists
    the blocks written to the disk, in order. *)

From S2P Require Import Prelude Riscv Memory Kalloc Vm Spinlock Proc.

Definition NFILE : nat := 100.
Definition NINODE : nat := 50.
Definition NDEV : Z := 10.
Definition ROOTDEV : Z := 1.
Definition MAXOPBLOCKS : Z := 10.
Definition LOGBLOCKS : Z := MAXOPBLOCKS * 3.
Definition NBUF : nat := 30.
Definition MAXPATH : Z := 128.

Definition ROOTINO : Z := 1.
Definition BSIZE : Z := 1024.
Definition FSMAGIC : Z := 0x10203040.
Definition NDIRECT : Z := 12.
Definition NINDIRECT : Z := BSIZE / 4.
Definition MAXFILE : Z := NDIRECT + NINDIRECT.
Definition DIRSIZ : Z := 14.
(** sizeof(struct dinode), sizeof(struct dirent), inodes and bits per block *)
Definition DINODE_SIZE : Z := 64.
Definition DIRENT_SIZE : Z := 16.
Definition IPB : Z := BSIZE / DINODE_SIZE.
Definition BPB : Z := BSIZE * 8.

Definition T_DIR : Z := 1.
Definition T_FILE : Z := 2.
Definition T_DEVICE : Z := 3.

Record superblock := mkSb {
  magic : Z; sb_size : Z; nblocks : Z; ninodes : Z;
  nlog : Z; logstart : Z; inodestart : Z; bmapstart : Z;
}.

Definition IBLOCK (i : Z) (sb : superblock) : Z := u32 (i / IPB + inodestart sb).
Definition BBLOCK (b : Z) (sb : superblock) : Z := u32 (b / BPB + bmapstart sb).

Record sleeplock := mkSleep { sl_locked : bool; sl_pid : Z }.

Record buf := mkBuf {
  bvalid : bool;
  bdev : Z;
  bblockno : Z;
  block : sleeplock;
  refcnt : Z;
  bprev : nat;
  bnext : nat;
  bdata : memory;
}.

Record bcache := mkBcache {
  bufs : nat → buf;                 (** entry [NBUF] is the head of the list *)
  disk : Z → memory;
  dwrites : list (Z * memory);
}.

Record logst := mkLog {
  lstart : Z;
  outstanding : Z;
  committing : bool;
  ldev : Z;
  ncommit : Z;
  lh_n : Z;
  lh_block : Z → Z;
}.

Record inode := mkInode {
  idev : Z;
  inum : Z;
  iref : Z;
  ilk : sleeplock;
  ivalid : bool;
  itype : Z;
  imajor : Z;
  iminor : Z;
  nlink : Z;
  isize : Z;
  addrs : Z → Z;
}.

Inductive fdtype := FD_NONE | FD_PIPE | FD_INODE | FD_DEVICE.
#[export] Instance fdtype_eq_dec : EqDecision fdtype.
Proof. solve_decision. Defined.

Record file := mkFile {
  ftype : fdtype;
  fref : Z;
  readable : bool;
  writable : bool;
  fpipe : Z;
  fip : nat;
  foff : Z;
  fmajor : Z;
}.

Record fs := mkFs {
  bc : bcache;
  lg : logst;
  sb : superblock;
  itable : nat → inode;
  ftable : nat → file;
}.

Definition set_bc (v : bcache) (f : fs) : fs := mkFs v (lg f) (sb f) (itable f) (ftable f).
Definition set_lg (v : logst) (f : fs) : fs := mkFs (bc f) v (sb f) (itable f) (ftable f).
Definition set_sb (v : superblock) (f : fs) : fs := mkFs (bc f) (lg f) v (itable f) (ftable f).
Definition set_itable (v : nat → inode) (f : fs) : fs := mkFs (bc f) (lg f) (sb f) v (ftable f).
Definition set_ftable (v : nat → file) (f : fs) : fs := mkFs (bc f) (lg f) (sb f) (itable f) v.

Definition set_bufs (v : nat → buf) (c : bcache) : bcache := mkBcache v (disk c) (dwrites c).

(** Fields of a buffer. *)
Definition set_bvalid (v : bool) (b : buf) : buf :=
  mkBuf v (bdev b) (bblockno b) (block b) (refcnt b) (bprev b) (bnext b) (bdata b).
Definition set_bkey (d n : Z) (b : buf) : buf :=
  mkBuf (bvalid b) d n (block b) (refcnt b) (bprev b) (bnext b) (bdata b).
Definition set_block (v : sleeplock) (b : buf) : buf :=
  mkBuf (bvalid b) (bdev b) (bblockno b) v (refcnt b) (bprev b) (bnext b) (bdata b).
Definition set_refcnt (v : Z) (b : buf) : buf :=
  mkBuf (bvalid b) (bdev b) (bblockno b) (block b) v (bprev b) (bnext b) (bdata b).
Definition set_bprev (v : nat) (b : buf) : buf :=
  mkBuf (bvalid b) (bdev b) (bblockno b) (block b) (refcnt b) v (bnext b) (bdata b).
Definition set_bnext (v : nat) (b : buf) : buf :=
  mkBuf (bvalid b) (bdev b) (bblockno b) (block b) (refcnt b) (bprev b) v (bdata b).
Definition set_bdata (v : memory) (b : buf) : buf :=
  mkBuf (bvalid b) (bdev b) (bblockno b) (block b) (refcnt b) (bprev b) (bnext b) v.

(** Fields of an inode. *)
Definition set_iref (v : Z) (i : inode) : inode :=
  mkInode (idev i) (inum i) v (ilk i) (ivalid i) (itype i) (imajor i) (iminor i) (nlink i) (isize i) (addrs i).
Definition set_ilk (v : sleeplock) (i : inode) : inode :=
  mkInode (idev i) (inum i) (iref i) v (ivalid i) (itype i) (imajor i) (iminor i) (nlink i) (isize i) (addrs i).
Definition set_ivalid (v : bool) (i : inode) : inode :=
  mkInode (idev i) (inum i) (iref i) (ilk i) v (itype i) (imajor i) (iminor i) (nlink i) (isize i) (addrs i).
Definition set_itype (v : Z) (i : inode) : inode :=
  mkInode (idev i) (inum i) (iref i) (ilk i) (ivalid i) v (imajor i) (iminor i) (nlink i) (isize i) (addrs i).
Definition set_nodes (ma mi : Z) (i : inode) : inode :=
  mkInode (idev i) (inum i) (iref i) (ilk i) (ivalid i) (itype i) ma mi (nlink i) (isize i) (addrs i).
Definition set_nlink (v : Z) (i : inode) : inode :=
  mkInode (idev i) (inum i) (iref i) (ilk i) (ivalid i) (itype i) (imajor i) (iminor i) v (isize i) (addrs i).
Definition set_isize (v : Z) (i : inode) : inode :=
  mkInode (idev i) (inum i) (iref i) (ilk i) (ivalid i) (itype i) (imajor i) (iminor i) (nlink i) v (addrs i).
Definition set_addrs (v : Z → Z) (i : inode) : inode :=
  mkInode (idev i) (inum i) (iref i) (ilk i) (ivalid i) (itype i) (imajor i) (iminor i) (nlink i) (isize i) v.

(** Fields of the log. *)
Definition set_outstanding (v : Z) (l : logst) : logst :=
  mkLog (lstart l) v (committing l) (ldev l) (ncommit l) (lh_n l) (lh_block l).
Definition set_committing (v : bool) (l : logst) : logst :=
  mkLog (lstart l) (outstanding l) v (ldev l) (ncommit l) (lh_n l) (lh_block l).
Definition set_ncommit (v : Z) (l : logst) : logst :=
  mkLog (lstart l) (outstanding l) (committing l) (ldev l) v (lh_n l) (lh_block l).
Definition set_lh (n : Z) (b : Z → Z) (l : logst) : logst :=
  mkLog (lstart l) (outstanding l) (committing l) (ldev l) (ncommit l) n b.
Definition set_lplace (start dev : Z) (l : logst) : logst :=
  mkLog start (outstanding l) (committing l) dev (ncommit l) (lh_n l) (lh_block l).

(** Fields of a file. *)
Definition set_fref (v : Z) (f : file) : file :=
  mkFile (ftype f) v (readable f) (writable f) (fpipe f) (fip f) (foff f) (fmajor f).
Definition set_ftype (v : fdtype) (f : file) : file :=
  mkFile v (fref f) (readable f) (writable f) (fpipe f) (fip f) (foff f) (fmajor f).
Definition set_mode (r w : bool) (f : file) : file :=
  mkFile (ftype f) (fref f) r w (fpipe f) (fip f) (foff f) (fmajor f).
Definition set_fpipe (v : Z) (f : file) : file :=
  mkFile (ftype f) (fref f) (readable f) (writable f) v (fip f) (foff f) (fmajor f).
Definition set_fip (v : nat) (f : file) : file :=
  mkFile (ftype f) (fref f) (readable f) (writable f) (fpipe f) v (foff f) (fmajor f).
Definition set_foff (v : Z) (f : file) : file :=
  mkFile (ftype f) (fref f) (readable f) (writable f) (fpipe f) (fip f) v (fmajor f).
Definition set_fmajor (v : Z) (f : file) : file :=
  mkFile (ftype f) (fref f) (readable f) (writable f) (fpipe f) (fip f) (foff f) v.

(** Pointers to table entries. *)
Definition ptr (i : nat) : Z := Z.of_nat i + 1.
Definition optr (o : option nat) : Z := match o with Some i => ptr i | None => 0 end.
Definition entry_of (z : Z) : nat := Z.to_nat (z - 1).

Notation K := (kst fs).

(** ** Access to the parts of the state *)

Definition fget {A} (f : fs → A) : M K A := on_fs (gets f).
Definition fmod (f : fs → fs) : M K unit := on_fs (modify f).

Definition bget_ {A} (b : nat) (f : buf → A) : M K A := fget (λ x, f (bufs (bc x) b)).
Definition bset (b : nat) (f : buf → buf) : M K unit :=
  fmod (λ x, set_bc (set_bufs (<[b := f (bufs (bc x) b)]> (bufs (bc x))) (bc x)) x).
Definition lget {A} (f : logst → A) : M K A := fget (λ x, f (lg x)).
Definition lset (f : logst → logst) : M K unit := fmod (λ x, set_lg (f (lg x)) x).
Definition iget_ {A} (i : nat) (f : inode → A) : M K A := fget (λ x, f (itable x i)).
Definition iset (i : nat) (f : inode → inode) : M K unit :=
  fmod (λ x, set_itable (<[i := f (itable x i)]> (itable x)) x).
Definition fileget {A} (i : nat) (f : file → A) : M K A := fget (λ x, f (ftable x i)).
Definition fileset (i : nat) (f : file → file) : M K unit :=
  fmod (λ x, set_ftable (<[i := f (ftable x i)]> (ftable x)) x).

(** The transfer of one block between a buffer and the disk. *)
Definition virtio_disk_rw (b : nat) (write : bool) : M K unit :=
  n ← bget_ b bblockno;
  if write then
    d ← bget_ b bdata;
    fmod (λ x, set_bc (mkBcache (bufs (bc x)) (<[n := d]> (disk (bc x))) (dwrites (bc x) ++ [(n, d)])) x)
  else
    d ← fget (λ x, disk (bc x) n);
    bset b (set_bdata d).
