(* ===== verification/Sleeplock.v ===== *)
(** * Sleep locks

    sleeplock.c, for the locks of buffers and inodes; and the rules for code of
    the file system that runs while no other process holds its locks. *)

From Stdlib Require Import FunctionalExtensionality.
From S2P Require Import Prelude Riscv Memory Kalloc Vm Spinlock Proc ProcOps FsState.

(** How often a thread that is woken from a wait in the file system finds that
    it has to wait again. *)
Class Patience := { patience : nat }.

Inductive sleepid := SlBuf (i : nat) | SlInode (i : nat).

Definition sl_lk (l : sleepid) : lockid :=
  match l with SlBuf i => BufLock i | SlInode i => InodeLock i end.
Definition sl_chan (l : sleepid) : channel :=
  match l with SlBuf i => ChanBuf i | SlInode i => ChanInode i end.
Definition sl_get (l : sleepid) (f : fs) : sleeplock :=
  match l with SlBuf i => block (bufs (bc f) i) | SlInode i => ilk (itable f i) end.
Definition sl_set (l : sleepid) (v : sleeplock) : M K unit :=
  match l with SlBuf i => bset i (set_block v) | SlInode i => iset i (set_ilk v) end.

Definition unlocked_sleep : sleeplock := mkSleep false 0.

Section sleeplock.
Context `{Switch fs, Patience}.

Definition initsleeplock (l : sleepid) : M K unit :=
  modify (λ s, set_lks (<[sl_lk l := initlock]> (lks s)) s) ;;
  sl_set l unlocked_sleep.

(** [while (lk->locked) sleep(lk, &lk->lk);] *)
Fixpoint acquiresleep_loop (fuel : nat) (l : sleepid) : M K unit :=
  match fuel with
  | O => nofuel
  | S fuel' =>
      lk ← fget (sl_get l);
      if sl_locked lk then
        sleep (sl_chan l) (sl_lk l) ;;
        acquiresleep_loop fuel' l
      else mret tt
  end.

Definition acquiresleep (l : sleepid) : M K unit :=
  acquire (sl_lk l) ;;
  acquiresleep_loop (S patience) l ;;
  lk ← fget (sl_get l);
  sl_set l (mkSleep true (sl_pid lk)) ;;
  i ← current;
  p ← pget i pid;
  sl_set l (mkSleep true p) ;;
  release (sl_lk l).

Definition releasesleep (l : sleepid) : M K unit :=
  acquire (sl_lk l) ;;
  lk ← fget (sl_get l);
  sl_set l (mkSleep false (sl_pid lk)) ;;
  sl_set l (mkSleep false 0) ;;
  wakeup (sl_chan l) ;;
  release (sl_lk l).

Definition holdingsleep (l : sleepid) : M K bool :=
  acquire (sl_lk l) ;;
  lk ← fget (sl_get l);
  r ← (if sl_locked lk then i ← current; p ← pget i pid; mret (sl_pid lk =? p) else mret false);
  release (sl_lk l) ;;
  mret r.

(** ** Code that runs undisturbed *)

(** The channels of the file system. *)
Definition fs_chan (c : channel) : Prop :=
  match c with ChanLog | ChanBuf _ | ChanInode _ | ChanAddr _ => True | _ => False end.

(** The current process, with pid [me], holds no spin lock, no other CPU holds
    one, and nobody sleeps in the file system. *)
Record quiet (me : Z) (s : K) : Prop := {
  q_noff : noff (kcpu s) = 0;
  q_intena : intena (kcpu s) = sie (kcpu s);
  q_locks l : lks s l = initlock;
  q_len : length (procs s) = NPROC;
  q_cur : ∃ i p, cproc s = Some i ∧ procs s !! i = Some p ∧ pid p = me;
  q_awake j p : procs s !! j = Some p → state p = SLEEPING → ¬ fs_chan (chan p);
}.

Lemma quiet_fs me f s : quiet me s → quiet me (set_fsys f s).
Proof. intros []. by split. Qed.
Lemma quiet_mach me m s : quiet me s → quiet me (set_mach m s).
Proof. intros []. by split. Qed.

Lemma quiet_relax me s : quiet me s → relax s = s.
Proof.
  intros Q. unfold relax, touch. rewrite (q_noff _ _ Q). simpl.
  pose proof (q_noff _ _ Q) as E1. pose proof (q_intena _ _ Q) as E2. destruct s as [? [n e i]]. simpl in *. by subst.
Qed.

Lemma quiet_cpu me s : quiet me s → cpu_ok (kcpu s).
Proof. intros Q. pose proof (q_noff _ _ Q). split; lia. Qed.

Lemma wp_fget {A} (g : fs → A) (s : K) Q : Q (g (fsys s)) s → wp (fget g) s Q.
Proof. intros HQ. apply wp_zoom, wp_gets. by destruct s. Qed.

Lemma wp_fmod g (s : K) Q : Q tt (set_fsys (g (fsys s)) s) → wp (fmod g) s Q.
Proof. intros HQ. by apply wp_zoom, wp_modify. Qed.

(** Taking and leaving a spin lock, also inside another one. *)
Definition steady (s : K) : Prop := cpu_ok (kcpu s) ∧ relax s = s.

Lemma quiet_steady me s : quiet me s → steady s.
Proof. intros Qs. split; [exact (quiet_cpu me s Qs)|exact (quiet_relax me s Qs)]. Qed.

Lemma steady_entered l s : steady s → steady (entered l s).
Proof.
  intros [Hk _]. split; [by apply (cpu_ok_pushed (kcpu s))|]. apply relax_pos. destruct Hk. simpl. lia.
Qed.

Lemma wp_enter_steady l f (s : K) Q :
  lks s l = initlock → Q tt (set_fsys f (entered l s)) → wp (acquire l) (set_fsys f s) Q.
Proof. intros El HQ. by apply wp_acquire. Qed.

Lemma wp_exit_steady l f (s : K) Q :
  steady s → lks s l = initlock → Q tt (set_fsys f s) → wp (release l) (set_fsys f (entered l s)) Q.
Proof.
  intros [Hk Hr] El HQ. apply (wp_leave l (set_fsys f s)); [exact Hk|exact El|].
  change (relax (set_fsys f s)) with (set_fsys f (relax s)). by rewrite Hr.
Qed.

Lemma wp_enter me l f (s : K) Q :
  quiet me s → Q tt (set_fsys f (entered l s)) → wp (acquire l) (set_fsys f s) Q.
Proof. intros Qs. apply wp_enter_steady, Qs. Qed.

Lemma wp_exit me l f (s : K) Q :
  quiet me s → Q tt (set_fsys f s) → wp (release l) (set_fsys f (entered l s)) Q.
Proof. intros Qs. apply wp_exit_steady; [exact (quiet_steady me s Qs)|apply Qs]. Qed.

Lemma wp_quiet_current me l f (s : K) Q :
  quiet me s → (∀ i p, cproc s = Some i → procs s !! i = Some p → pid p = me → Q i (set_fsys f (entered l s))) →
  wp current (set_fsys f (entered l s)) Q.
Proof.
  intros Qs HQ. destruct (q_cur _ _ Qs) as (i & p & Hc & Hp & Hm).
  apply (wp_current i); [apply (cpu_ok_pushed (kcpu s)); exact (quiet_cpu me s Qs)|exact Hc|].
  rewrite relax_pos by (simpl; rewrite (q_noff _ _ Qs); lia). by eapply HQ.
Qed.

Lemma woken_none ch me (ps : list proc) :
  (∀ j p, ps !! j = Some p → state p = SLEEPING → chan p ≠ ch) → woken ch me ps = ps.
Proof.
  intros Hn. apply list_eq. intros j. unfold woken. rewrite list_lookup_imap.
  destruct (ps !! j) as [p|] eqn:E; [|done]. opt. f_equal. destruct (decide (me = Some j)); [done|].
  unfold wake. destruct (bool_decide_reflect (state p = SLEEPING)) as [Hs|]; [|done].
  destruct (bool_decide_reflect (chan p = ch)) as [Hc|]; [|done]. by destruct (Hn j p E Hs).
Qed.

Lemma wp_quiet_wakeup me ch l f (s : K) Q :
  quiet me s → fs_chan ch → (∀ i, l ≠ ProcLock i) → Q tt (set_fsys f (entered l s)) →
  wp (wakeup ch) (set_fsys f (entered l s)) Q.
Proof.
  intros Qs Hch Hl HQ. apply wp_wakeup.
  - split; [apply (cpu_ok_pushed (kcpu s)); exact (quiet_cpu me s Qs)| |apply Qs].
    intros j. simpl. rewrite fn_lookup_insert_ne by (by apply Hl). apply Qs.
  - rewrite relax_pos by (simpl; rewrite (q_noff _ _ Qs); lia).
    cbn [procs cproc set_fsys set_lks set_kcpu entered]. rewrite woken_none; [by destruct s|].
    intros j p Hp Hsl E. apply (q_awake _ _ Qs j p Hp Hsl). by rewrite E.
Qed.

(** ** The operations on a free or own lock *)

(** The file system after a change of a sleep lock. *)
Definition with_sleep (l : sleepid) (v : sleeplock) (f : fs) : fs :=
  match l with
  | SlBuf i => set_bc (set_bufs (<[i := set_block v (bufs (bc f) i)]> (bufs (bc f))) (bc f)) f
  | SlInode i => set_itable (<[i := set_ilk v (itable f i)]> (itable f)) f
  end.

Lemma sl_set_run l v f (s : K) Q : Q tt (set_fsys (with_sleep l v f) s) → wp (sl_set l v) (set_fsys f s) Q.
Proof. intros HQ. destruct l; by apply wp_fmod. Qed.

Lemma with_sleep_twice l v w f : with_sleep l w (with_sleep l v f) = with_sleep l w f.
Proof.
  destruct l; simpl; unfold set_bc, set_bufs, set_itable; simpl; f_equal; [f_equal|]; extensionality j; by fn_case i j.
Qed.

Lemma sl_get_with l v f : sl_get l (with_sleep l v f) = v.
Proof. destruct l; simpl; by rewrite fn_lookup_insert. Qed.

Lemma sl_lk_not_proc l i : sl_lk l ≠ ProcLock i.
Proof. by destruct l. Qed.
Lemma sl_chan_fs l : fs_chan (sl_chan l).
Proof. by destruct l. Qed.

Lemma wp_acquiresleep me l f (s : K) Q :
  quiet me s → sl_locked (sl_get l f) = false →
  Q tt (set_fsys (with_sleep l (mkSleep true me) f) s) → wp (acquiresleep l) (set_fsys f s) Q.
Proof.
  intros Qs Hf HQ. apply wp_bind, (wp_enter me); [done|]. apply wp_bind. cbn [acquiresleep_loop].
  apply wp_bind, wp_fget. cbn [fsys set_fsys]. rewrite Hf. apply wp_ret.
  apply wp_bind, wp_fget. apply wp_bind, sl_set_run. apply wp_bind, (wp_quiet_current me); [done|].
  intros i p Hc Hp Hm. apply wp_bind, (wp_pget i p); [exact Hp|]. rewrite Hm.
  apply wp_bind, sl_set_run. rewrite with_sleep_twice. by apply (wp_exit me).
Qed.

Lemma wp_releasesleep me l f (s : K) Q :
  quiet me s → Q tt (set_fsys (with_sleep l unlocked_sleep f) s) → wp (releasesleep l) (set_fsys f s) Q.
Proof.
  intros Qs HQ. apply wp_bind, (wp_enter me); [done|]. apply wp_bind, wp_fget. do 2 (apply wp_bind, sl_set_run).
  rewrite with_sleep_twice. apply wp_bind, (wp_quiet_wakeup me); [done|apply sl_chan_fs|apply sl_lk_not_proc|].
  by apply (wp_exit me).
Qed.

Lemma wp_holdingsleep me l f (s : K) Q :
  quiet me s → Q (sl_locked (sl_get l f) && (sl_pid (sl_get l f) =? me)) (set_fsys f s) →
  wp (holdingsleep l) (set_fsys f s) Q.
Proof.
  intros Qs HQ. apply wp_bind, (wp_enter me); [done|]. apply wp_bind, wp_fget. cbn [fsys set_fsys]. apply wp_bind.
  destruct (sl_locked (sl_get l f)).
  - apply wp_bind, (wp_quiet_current me); [done|]. intros i p Hc Hp Hm. apply wp_bind, (wp_pget i p); [exact Hp|].
    rewrite Hm. apply wp_ret. apply wp_bind, (wp_exit me); [done|]. by apply wp_ret.
  - apply wp_ret. apply wp_bind, (wp_exit me); [done|]. by apply wp_ret.
Qed.
End sleeplock.
