(* ===== verification/Bio.v ===== *)
(** * The buffer cache

    bio.c, with its doubly linked list of buffers in order of use.  The cache
    refines an abstract one ([bst]): contents of blocks, a reference count per
    block, the blocks the current process has locked, and the disk. *)

From Stdlib Require Import FunctionalExtensionality.
From S2P Require Import Prelude Riscv Memory Kalloc Vm Spinlock Proc ProcOps FsState Sleeplock.

(** &bcache.head *)
Definition head : nat := NBUF.

Section bio.
Context `{Switch fs, Patience}.

(** [for (b = bcache.buf; b < bcache.buf + NBUF; b++)], [n] buffers from [b]. *)
Fixpoint binit_loop (n b : nat) : M K unit :=
  match n with
  | O => mret tt
  | S n' =>
      hn ← bget_ head bnext;
      bset b (set_bnext hn) ;;
      bset b (set_bprev head) ;;
      initsleeplock (SlBuf b) ;;
      hn ← bget_ head bnext;
      bset hn (set_bprev b) ;;
      bset head (set_bnext b) ;;
      binit_loop n' (S b)
  end.

Definition binit : M K unit :=
  modify (λ s, set_lks (<[BcacheLock := initlock]> (lks s)) s) ;;
  bset head (set_bprev head) ;;
  bset head (set_bnext head) ;;
  binit_loop NBUF 0.

(** The loops of [bget] over the list, forwards and backwards from [b]. *)
Fixpoint scan (fuel : nat) (step : buf → nat) (test : buf → bool) (b : nat) : M K (option nat) :=
  match fuel with
  | O => nofuel
  | S fuel' =>
      if decide (b = head) then mret None else
      x ← bget_ b id;
      if test x then mret (Some b) else scan fuel' step test (step x)
  end.

Definition bget (dev blockno : Z) : M K nat :=
  acquire BcacheLock ;;
  first ← bget_ head bnext;
  r ← scan (S NBUF) bnext (λ b, (bdev b =? dev) && (bblockno b =? blockno)) first;
  match r with
  | Some b =>
      bset b (λ x, set_refcnt (u32 (refcnt x + 1)) x) ;;
      release BcacheLock ;;
      acquiresleep (SlBuf b) ;;
      mret b
  | None =>
      last ← bget_ head bprev;
      r ← scan (S NBUF) bprev (λ b, refcnt b =? 0) last;
      match r with
      | Some b =>
          bset b (set_bkey dev blockno) ;;
          bset b (set_bvalid false) ;;
          bset b (set_refcnt 1) ;;
          release BcacheLock ;;
          acquiresleep (SlBuf b) ;;
          mret b
      | None => panic "bget: no buffers"
      end
  end.

Definition bread (dev blockno : Z) : M K nat :=
  b ← bget dev blockno;
  v ← bget_ b bvalid;
  when (negb v) (virtio_disk_rw b false ;; bset b (set_bvalid true)) ;;
  mret b.

Definition bwrite (b : nat) : M K unit :=
  h ← holdingsleep (SlBuf b);
  if negb h then panic "bwrite" else
  virtio_disk_rw b true.

Definition brelse (b : nat) : M K unit :=
  h ← holdingsleep (SlBuf b);
  if negb h then panic "brelse" else
  releasesleep (SlBuf b) ;;
  acquire BcacheLock ;;
  bset b (λ x, set_refcnt (u32 (refcnt x - 1)) x) ;;
  r ← bget_ b refcnt;
  when (r =? 0)
    (nx ← bget_ b bnext;
     pv ← bget_ b bprev;
     bset nx (set_bprev pv) ;;
     pv ← bget_ b bprev;
     nx ← bget_ b bnext;
     bset pv (set_bnext nx) ;;
     hn ← bget_ head bnext;
     bset b (set_bnext hn) ;;
     bset b (set_bprev head) ;;
     hn ← bget_ head bnext;
     bset hn (set_bprev b) ;;
     bset head (set_bnext b)) ;;
  release BcacheLock.

Definition bpin (b : nat) : M K unit :=
  acquire BcacheLock ;;
  bset b (λ x, set_refcnt (u32 (refcnt x + 1)) x) ;;
  release BcacheLock.

Definition bunpin (b : nat) : M K unit :=
  acquire BcacheLock ;;
  bset b (λ x, set_refcnt (u32 (refcnt x - 1)) x) ;;
  release BcacheLock.

(** [b->data[...] = ...] *)
Definition bupd (b : nat) (g : memory → memory) : M K unit := bset b (λ x, set_bdata (g (bdata x)) x).

(** ** The list *)

(** The buffers [w] follow [x] in the list with links [nx] and [pv]. *)
Fixpoint linked (nx pv : nat → nat) (x : nat) (w : list nat) : Prop :=
  match w with
  | [] => True
  | y :: w' => nx x = y ∧ pv y = x ∧ linked nx pv y w'
  end.

Definition nexts (bs : nat → buf) (b : nat) : nat := bnext (bs b).
Definition prevs (bs : nat → buf) (b : nat) : nat := bprev (bs b).

(** The buffers from head.next to head.prev: most recently used first. *)
Definition ring (bs : nat → buf) (l : list nat) : Prop :=
  linked (nexts bs) (prevs bs) head (l ++ [head]) ∧ l ≡ₚ seq 0 NBUF.

Lemma linked_app nx pv x w1 w2 :
  linked nx pv x (w1 ++ w2) ↔ linked nx pv x w1 ∧ linked nx pv (default x (last w1)) w2.
Proof.
  revert x. induction w1 as [|y w1 IH]; intros x; [simpl; tauto|]. cbn [linked app]. rewrite IH.
  assert (default y (last w1) = default x (last (y :: w1))) as ->; [|tauto].
  rewrite last_cons. by destruct (last w1).
Qed.

(** The list depends on the links out of [x :: w] and into [w] only. *)
Lemma linked_ext nx pv nx' pv' x w :
  (∀ z, z ∈ x :: removelast w → nx' z = nx z) → (∀ z, z ∈ w → pv' z = pv z) →
  linked nx pv x w → linked nx' pv' x w.
Proof.
  revert x. induction w as [|y w IH]; intros x Hn Hp; [done|]. cbn [linked]. intros (E1 & E2 & L).
  split_and!; [rewrite Hn; [done|set_solver]|rewrite Hp; [done|set_solver]|].
  destruct w as [|z w]; [done|]. apply IH; [|intros v Hv; apply Hp; set_solver|done].
  intros v Hv. apply Hn. change (removelast (y :: z :: w)) with (y :: removelast (z :: w)). set_solver.
Qed.

(** A list that ends at [h], by its first buffer. *)
Lemma snoc_cons (w : list nat) h : ∃ n r, w ++ [h] = n :: r ∧ (r = [] ∧ w = [] ∨ w = n :: removelast r).
Proof.
  destruct w as [|n w]; [by exists h, []; auto|]. exists n, (w ++ [h]). split; [done|]. right. by rewrite removelast_last.
Qed.

Lemma linked_unlink nx pv h l1 b l2 :
  linked nx pv h (l1 ++ b :: l2 ++ [h]) → NoDup (h :: l1 ++ b :: l2) →
  linked (<[pv b := nx b]> nx) (<[nx b := pv b]> pv) h (l1 ++ l2 ++ [h]).
Proof.
  intros L D. destruct (snoc_cons l2 h) as (n & r & E & Hr). rewrite E in L |- *.
  apply linked_app in L as (L1 & E1 & E2 & E3 & E4 & L2). rewrite E2, E3. set (p := default h (last l1)) in *.
  apply NoDup_cons in D as [Dh D]. apply NoDup_app in D as (D1 & D2 & D3). apply NoDup_cons in D3 as [Db D3].
  assert (p = h ∧ l1 = [] ∨ ∃ l', l1 = l' ++ [p]) as Hp.
  { unfold p. destruct l1 as [|z l' _] using rev_ind; [by left|right]. rewrite last_snoc. by exists l'. }
  assert (n = h ∨ n ∈ l2) as Hn by (destruct Hr as [[-> ->]|Hr]; [left; by simplify_eq/=|right; rewrite Hr; set_solver]).
  apply linked_app. cbn [linked]. fold p. rewrite !fn_lookup_insert. split_and!; [|done|done|].
  - destruct Hp as [[_ ->]|[l' El]]; [done|]. eapply linked_ext; [..|exact L1].
    + intros z Hz. apply fn_lookup_insert_ne. intros <-. rewrite El, removelast_last in Hz. rewrite El in D1, Dh.
      apply NoDup_app in D1 as (_ & D1 & _). apply elem_of_cons in Hz as [->|Hz]; [set_solver|].
      by apply (D1 p Hz), list_elem_of_singleton.
    + intros z Hz. apply fn_lookup_insert_ne. intros ->. destruct Hn as [->|Hn]; [set_solver|]. by apply (D2 z Hz), elem_of_cons; right.
  - destruct Hr as [[-> _]|Hr]; [done|]. eapply linked_ext; [..|exact L2].
    + intros z Hz. rewrite <-Hr in Hz. apply fn_lookup_insert_ne. intros <-.
      destruct Hp as [[-> _]|[l' El]]; [set_solver|]. apply (D2 p); [rewrite El|]; set_solver.
    + assert (NoDup (n :: r)) as Dr.
      { rewrite <-E. apply NoDup_app. split_and!; [done|set_solver|apply NoDup_singleton]. }
      intros z Hz. apply fn_lookup_insert_ne. intros ->. by apply NoDup_cons in Dr as [? _].
Qed.

Lemma linked_insert nx pv h b w :
  linked nx pv h (w ++ [h]) → NoDup (h :: w) → b ≠ h → b ∉ w →
  linked (<[h := b]> (<[b := nx h]> nx)) (<[nx h := b]> (<[b := h]> pv)) h (b :: w ++ [h]).
Proof.
  intros L D Hb Hw. destruct (snoc_cons w h) as (n & r & E & Hr). rewrite E in L |- *.
  destruct L as (E1 & E2 & L). rewrite E1. apply NoDup_cons in D as [Dh D].
  assert (n ≠ b) as Hn.
  { destruct Hr as [[-> ->]|Hr]; [simplify_eq/=; congruence|]. intros ->. apply Hw. rewrite Hr. set_solver. }
  cbn [linked]. rewrite !fn_lookup_insert, !(fn_lookup_insert_ne _ n b), !(fn_lookup_insert_ne _ h b), !fn_lookup_insert by done.
  split_and!; try done. destruct Hr as [[-> _]|Hr]; [done|]. eapply linked_ext; [..|exact L].
  - intros z Hz. rewrite <-Hr in Hz. rewrite !fn_lookup_insert_ne; [done|..]; intros <-; done.
  - assert (NoDup (n :: r)) as Dr.
    { rewrite <-E. apply NoDup_app. split_and!; [done|set_solver|apply NoDup_singleton]. }
    intros z Hz. apply NoDup_cons in Dr as [Dn _]. rewrite !fn_lookup_insert_ne; [done|..]; intros <-; [|done].
    assert (b ∈ w ++ [h]) by (rewrite E; set_solver). set_solver.
Qed.

Lemma ring_elem bs l b : ring bs l → b ∈ l ↔ (b < NBUF)%nat.
Proof. intros [_ P]. rewrite P, elem_of_seq. lia. Qed.

Lemma ring_NoDup bs l : ring bs l → NoDup (head :: l).
Proof.
  intros [_ P]. apply NoDup_cons. rewrite P, elem_of_seq. split; [unfold head; lia|apply NoDup_seq].
Qed.

(** ** The scans *)

Fixpoint along (step : nat → nat) (x : nat) (w : list nat) : Prop :=
  match w with
  | [] => True
  | y :: w' => step x = y ∧ along step y w'
  end.

Lemma linked_forward nx pv x w : linked nx pv x w → along nx x w.
Proof. revert x. induction w as [|y w IH]; intros x; [done|]. intros (? & _ & L). split; [done|]. by apply IH. Qed.

Lemma walk_snoc step x w y : along step x w → step (default x (last w)) = y → along step x (w ++ [y]).
Proof.
  revert x. induction w as [|z w IH]; intros x; [by split|]. intros [E L] E'. split; [done|]. apply IH; [done|].
  rewrite last_cons in E'. by destruct (last w).
Qed.

Lemma linked_backward nx pv x w y : linked nx pv x (w ++ [y]) → along pv y (reverse w ++ [x]).
Proof.
  revert x. induction w as [|z w IH]; intros x; [intros (_ & E & _); by split|]. intros (_ & E & L).
  rewrite reverse_cons. apply walk_snoc; [by apply IH|]. by rewrite last_snoc.
Qed.

Lemma wp_scan n step test x w f (s : K) Q :
  along (λ b, step (bufs (bc f) b)) x (w ++ [head]) → head ∉ w → (length w ≤ n)%nat →
  Q (List.find (λ b, test (bufs (bc f) b)) w) (set_fsys f s) →
  wp (scan (S n) step test (step (bufs (bc f) x))) (set_fsys f s) Q.
Proof.
  revert n x. induction w as [|y w IH]; intros n x Hw Hh Hl HQ.
  - destruct Hw as [-> _]. cbn [scan]. rewrite decide_True by done. exact HQ.
  - destruct Hw as [-> Hw]. cbn [scan]. rewrite decide_False by set_solver.
    apply wp_bind, wp_fget. cbn [fsys set_fsys id]. cbn [List.find] in HQ. destruct (test (bufs (bc f) y)) eqn:E; [by apply wp_ret|].
    destruct n as [|n]; [simpl in Hl; lia|]. apply IH; [done|set_solver|simpl in Hl; lia|done].
Qed.

Lemma wp_scan_next test l f (s : K) Q :
  ring (bufs (bc f)) l → Q (List.find (λ b, test (bufs (bc f) b)) l) (set_fsys f s) →
  wp (scan (S NBUF) bnext test (bnext (bufs (bc f) head))) (set_fsys f s) Q.
Proof.
  intros R HQ. apply (wp_scan _ _ _ _ l); [by eapply linked_forward, R| | |done].
  - by apply ring_NoDup, NoDup_cons in R as [? _].
  - destruct R as [_ P]. by rewrite P, length_seq.
Qed.

Lemma wp_scan_prev test l f (s : K) Q :
  ring (bufs (bc f)) l → Q (List.find (λ b, test (bufs (bc f) b)) (reverse l)) (set_fsys f s) →
  wp (scan (S NBUF) bprev test (bprev (bufs (bc f) head))) (set_fsys f s) Q.
Proof.
  intros R HQ. apply (wp_scan _ _ _ _ (reverse l)); [by eapply linked_backward, R| | |done].
  - rewrite elem_of_reverse. by apply ring_NoDup, NoDup_cons in R as [? _].
  - destruct R as [_ P]. by rewrite length_reverse, P, length_seq.
Qed.

(** ** The abstract cache *)

(** [cont]: what a process that reads a block sees; [refs]: the references to a
    block (absent: none); [hold]: the blocks locked by the current process. *)
Record bst := mkBst {
  cont : Z → memory;
  refs : gmap Z Z;
  hold : gset Z;
  adisk : Z → memory;
  awrites : list (Z * memory);
}.

Definition nrefs (a : bst) (n : Z) : Z := default 0 (refs a !! n).
Definition put_refs (n k : Z) (r : gmap Z Z) : gmap Z Z := if k =? 0 then delete n r else <[n := k]> r.

Definition a_read (n : Z) (a : bst) : bst :=
  mkBst (cont a) (<[n := nrefs a n + 1]> (refs a)) ({[n]} ∪ hold a) (adisk a) (awrites a).
Definition a_release (n : Z) (a : bst) : bst :=
  mkBst (cont a) (put_refs n (nrefs a n - 1) (refs a)) (hold a ∖ {[n]}) (adisk a) (awrites a).
Definition a_write (n : Z) (a : bst) : bst :=
  mkBst (cont a) (refs a) (hold a) (<[n := cont a n]> (adisk a)) (awrites a ++ [(n, cont a n)]).
Definition a_pin (d n : Z) (a : bst) : bst :=
  mkBst (cont a) (<[n := nrefs a n + d]> (refs a)) (hold a) (adisk a) (awrites a).
Definition a_update (n : Z) (g : memory → memory) (a : bst) : bst :=
  mkBst (<[n := g (cont a n)]> (cont a)) (refs a) (hold a) (adisk a) (awrites a).

(** Buffer [b] holds block [n]. *)
Definition handle (c : bcache) (b : nat) (n : Z) : Prop :=
  (b < NBUF)%nat ∧ bdev (bufs c b) = ROOTDEV ∧ bblockno (bufs c b) = n.

(** A buffer never used, or one of the disk. *)
Definition buf_ok (me : Z) (a : bst) (x : buf) : Prop :=
  bdev x = 0 ∧ refcnt x = 0 ∧ bvalid x = false ∧ block x = unlocked_sleep ∨
  bdev x = ROOTDEV ∧ refcnt x = nrefs a (bblockno x) ∧
  (bvalid x = true → bdata x = cont a (bblockno x)) ∧ (refcnt x ≠ 0 → bvalid x = true) ∧
  block x = if decide (bblockno x ∈ hold a) then mkSleep true me else unlocked_sleep.

Record brep (me : Z) (a : bst) (c : bcache) : Prop := {
  br_ring : ∃ l, ring (bufs c) l;
  br_disk : disk c = adisk a;
  br_writes : dwrites c = awrites a;
  br_buf b : (b < NBUF)%nat → buf_ok me a (bufs c b);
  br_uniq b b' n : handle c b n → handle c b' n → b = b';
  br_refs n k : refs a !! n = Some k → 0 < k < 2 ^ 32 ∧ ∃ b, handle c b n;
  br_hold n : n ∈ hold a → n ∈ dom (refs a);
  br_clean n : refs a !! n = None → cont a n = adisk a n;
}.

(** The fields of a buffer other than the links. *)
Definition payload (x : buf) : bool * Z * Z * sleeplock * Z * memory :=
  (bvalid x, bdev x, bblockno x, block x, refcnt x, bdata x).

Lemma nrefs_pos me a c n : brep me a c → n ∈ dom (refs a) → 0 < nrefs a n < 2 ^ 32.
Proof.
  intros R [k Hk]%elem_of_dom. unfold nrefs. rewrite Hk. simpl. by eapply br_refs.
Qed.

Lemma nrefs_zero a n : n ∉ dom (refs a) → nrefs a n = 0.
Proof. intros Hn%not_elem_of_dom. unfold nrefs. by rewrite Hn. Qed.

Lemma handle_buf me a c b n : brep me a c → handle c b n →
  refcnt (bufs c b) = nrefs a n ∧ (bvalid (bufs c b) = true → bdata (bufs c b) = cont a n) ∧
  (nrefs a n ≠ 0 → bvalid (bufs c b) = true) ∧
  block (bufs c b) = if decide (n ∈ hold a) then mkSleep true me else unlocked_sleep.
Proof.
  intros R (Hb & Hd & <-). destruct (br_buf _ _ _ R b Hb) as [(E & _)|(_ & E1 & E2 & E3 & E4)]; [by rewrite Hd in E|].
  rewrite <-E1. done.
Qed.

(** A buffer in use shows the content of its block. *)
Lemma handle_data me a c b n : brep me a c → handle c b n → n ∈ dom (refs a) → bdata (bufs c b) = cont a n.
Proof.
  intros R Hh Hn. destruct (handle_buf _ _ _ _ _ R Hh) as (_ & E2 & E3 & _). apply E2, E3.
  pose proof (nrefs_pos _ _ _ _ R Hn). lia.
Qed.

(** ** Changing one buffer *)

Definition upd_buf (b : nat) (g : buf → buf) (f : fs) : fs :=
  set_bc (set_bufs (<[b := g (bufs (bc f) b)]> (bufs (bc f))) (bc f)) f.

Lemma wp_bset b g f (s : K) Q : Q tt (set_fsys (upd_buf b g f) s) → wp (bset b g) (set_fsys f s) Q.
Proof. intros HQ. by apply wp_fmod. Qed.

Lemma wp_bget_ {A} b (g : buf → A) f (s : K) Q : Q (g (bufs (bc f) b)) (set_fsys f s) → wp (bget_ b g) (set_fsys f s) Q.
Proof. intros HQ. by apply wp_fget. Qed.

Lemma upd_buf_same b g f : bufs (bc (upd_buf b g f)) b = g (bufs (bc f) b).
Proof. apply fn_lookup_insert. Qed.
Lemma upd_buf_other b b' g f : b' ≠ b → bufs (bc (upd_buf b g f)) b' = bufs (bc f) b'.
Proof. intros Hb. by apply fn_lookup_insert_ne. Qed.

Lemma upd_buf_twice b g h f : upd_buf b h (upd_buf b g f) = upd_buf b (λ x, h (g x)) f.
Proof.
  unfold upd_buf, set_bc, set_bufs. simpl. f_equal. f_equal. extensionality z. fn_case b z; done.
Qed.

(** Same links. *)
Lemma ring_links bs bs' l : (∀ z, bnext (bs' z) = bnext (bs z) ∧ bprev (bs' z) = bprev (bs z)) → ring bs l → ring bs' l.
Proof.
  intros E [L P]. split; [|done]. eapply linked_ext; [..|exact L]; intros z _; apply E.
Qed.

Lemma upd_buf_links b g f l :
  (∀ x, bnext (g x) = bnext x ∧ bprev (g x) = bprev x) → ring (bufs (bc f)) l → ring (bufs (bc (upd_buf b g f))) l.
Proof.
  intros Hg. apply ring_links. intros z. destruct (decide (z = b)) as [->|Hz]; [by rewrite upd_buf_same|by rewrite upd_buf_other].
Qed.

Lemma payload_handle c c' b n : payload (bufs c' b) = payload (bufs c b) → handle c' b n ↔ handle c b n.
Proof. intros [= _ E1 E2 _ _ _]. unfold handle. by rewrite E1, E2. Qed.

Lemma payload_ok me a x x' : payload x' = payload x → buf_ok me a x → buf_ok me a x'.
Proof. unfold buf_ok. by intros [= -> -> -> -> -> ->]. Qed.

(** The abstract states agree but for block [n]. *)
Definition agree_but (n : Z) (a a' : bst) : Prop :=
  ∀ n', n' ≠ n → refs a' !! n' = refs a !! n' ∧ cont a' n' = cont a n' ∧ (n' ∈ hold a' ↔ n' ∈ hold a) ∧ adisk a' n' = adisk a n'.

(** The concrete states agree but for buffer [b], which held a free block or
    [n] and now holds [n]. *)
Record retarget (b : nat) (n : Z) (a : bst) (c c' : bcache) : Prop := {
  rg_ring : ∃ l, ring (bufs c') l;
  rg_handle : handle c' b n;
  rg_other b' : b' ≠ b → payload (bufs c' b') = payload (bufs c b');
  rg_alone b' : b' ≠ b → ¬ handle c b' n;
  rg_free n0 : handle c b n0 → n0 ≠ n → refs a !! n0 = None;
}.

Lemma retarget_handles b n a c c' b' n' :
  retarget b n a c c' → handle c b' n' → n' ∈ dom (refs a) → handle c' b' n'.
Proof.
  intros T Hh Hd. destruct (decide (b' = b)) as [->|Hb].
  - destruct (decide (n' = n)) as [->|Hn]; [apply T|]. apply (rg_free _ _ _ _ _ T) in Hh; [|done]. by apply elem_of_dom in Hd as [k Hk]; rewrite Hk in Hh.
  - by rewrite payload_handle by (by apply T).
Qed.

Lemma brep_step me a a' c c' b n :
  brep me a c → retarget b n a c c' → agree_but n a a' → disk c' = adisk a' → dwrites c' = awrites a' →
  buf_ok me a' (bufs c' b) → (∀ k, refs a' !! n = Some k → 0 < k < 2 ^ 32) → (n ∈ hold a' → n ∈ dom (refs a')) →
  (refs a' !! n = None → cont a' n = adisk a' n) → brep me a' c'.
Proof.
  intros R T A Ed Ew Hok Hk Hh Hc. pose proof T as [Hring Hb Ho Ha Hf].
  assert (∀ b' n', b' ≠ b → handle c' b' n' ↔ handle c b' n') as Hoth by (intros; apply payload_handle; auto).
  split; try done.
  - intros b' Hb'. destruct (decide (b' = b)) as [->|Hne]; [done|]. apply (payload_ok _ _ (bufs c b')); [by apply Ho|].
    destruct (br_buf _ _ _ R b' Hb') as [?|(E1 & E2 & E3 & E4 & E5)]; [by left|right].
    destruct (A (bblockno (bufs c b'))) as (A1 & A2 & A3 & _). { intros E. apply (Ha b' Hne). by split_and!. }
    unfold nrefs in *. rewrite A1, A2, (decide_ext _ _ _ _ A3). done.
  - intros b1 b2 n'. destruct (decide (b1 = b)) as [->|H1], (decide (b2 = b)) as [->|H2].
    + done.
    + rewrite (Hoth b2) by done. intros (_ & _ & E) Hh2. destruct Hb as (_ & _ & E'). rewrite E' in E. subst n'. by destruct (Ha b2 H2).
    + rewrite (Hoth b1) by done. intros Hh1 (_ & _ & E). destruct Hb as (_ & _ & E'). rewrite E' in E. subst n'. by destruct (Ha b1 H1).
    + rewrite !Hoth by done. by apply R.
  - intros n' k Hn'. destruct (decide (n' = n)) as [->|Hne]; [split; [by apply Hk|by exists b]|].
    destruct (A n' Hne) as (A1 & _). rewrite A1 in Hn'. destruct (br_refs _ _ _ R n' k Hn') as [? [b' Hh']]. split; [done|].
    exists b'. apply (retarget_handles b n a c); [done|done|by apply elem_of_dom].
  - intros n' Hn'. destruct (decide (n' = n)) as [->|Hne]; [auto|]. destruct (A n' Hne) as (A1 & _ & A3 & _).
    apply elem_of_dom. rewrite A1. by apply elem_of_dom, R, A3.
  - intros n' Hn'. destruct (decide (n' = n)) as [->|Hne]; [auto|]. destruct (A n' Hne) as (A1 & -> & _ & ->).
    apply R. by rewrite <-A1.
Qed.

(** A buffer in use keeps its block. *)
Lemma retarget_self me a c c' b n :
  brep me a c → handle c b n → (∃ l, ring (bufs c') l) → bdev (bufs c' b) = ROOTDEV → bblockno (bufs c' b) = n →
  (∀ b', b' ≠ b → payload (bufs c' b') = payload (bufs c b')) → retarget b n a c c'.
Proof.
  intros R Hh Hr Ed En Ho. pose proof Hh as (Hb & _ & E). split; [done|by split_and!|done| |].
  - intros b' Hne Hh'. by apply Hne, (br_uniq _ _ _ R b' b n).
  - intros n0 (_ & _ & E0) Hne. congruence.
Qed.
End bio.
