(* ===== verification/BioOps.v ===== *)
(** * The operations of the buffer cache

    Each routine of bio.c refines its abstract counterpart, and the list stays
    in order of use. *)

From Stdlib Require Import FunctionalExtensionality.
From S2P Require Import Prelude Riscv Memory Kalloc Vm Spinlock Proc ProcOps FsState Sleeplock Bio.

Section bioops.
Context `{Switch fs, Patience}.

(** References keep the buffers of their blocks. *)
Definition keeps (a : bst) (c c' : bcache) : Prop :=
  ∀ b n, n ∈ dom (refs a) → handle c b n → handle c' b n.

Definition matches (n : Z) (x : buf) : bool := (bdev x =? ROOTDEV) && (bblockno x =? n).

Lemma matches_handle c b n : (b < NBUF)%nat → matches n (bufs c b) = true ↔ handle c b n.
Proof.
  intros Hb. unfold matches, handle. rewrite andb_true_iff, !Z.eqb_eq. tauto.
Qed.

Lemma find_elem {A} (t : A → bool) l : (∃ x, x ∈ l ∧ t x = true) → ∃ x, List.find t l = Some x ∧ x ∈ l ∧ t x = true.
Proof.
  intros (x & Hx & Ht). destruct (List.find t l) as [y|] eqn:E.
  - exists y. apply find_some in E as [Hy ?]. by rewrite list_elem_of_In.
  - apply list_elem_of_In, (find_none _ _ E) in Hx. congruence.
Qed.

(** Fewer blocks in use than buffers leave a buffer free. *)
Lemma free_buffer me a c : brep me a c → (size (dom (refs a)) < NBUF)%nat → ∃ b, (b < NBUF)%nat ∧ refcnt (bufs c b) = 0.
Proof.
  intros R Hs. destruct (decide (Exists (λ b, refcnt (bufs c b) = 0) (seq 0 NBUF))) as [E|E].
  - apply Exists_exists in E as (b & Hb%elem_of_seq & E). exists b. split; [lia|done].
  - exfalso. assert (∀ b, (b < NBUF)%nat → refcnt (bufs c b) ≠ 0) as Hnz.
    { intros b Hb E0. apply E, Exists_exists. exists b. rewrite elem_of_seq. split; [lia|done]. }
    set (l := (λ b, bblockno (bufs c b)) <$> seq 0 NBUF).
    assert (∀ b, (b < NBUF)%nat → handle c b (bblockno (bufs c b)) ∧ bblockno (bufs c b) ∈ dom (refs a)) as Hall.
    { intros b Hb. specialize (Hnz b Hb). destruct (br_buf _ _ _ R b Hb) as [(_ & ? & _)|(E1 & E2 & _)]; [done|].
      split; [done|]. destruct (decide (bblockno (bufs c b) ∈ dom (refs a))) as [|Hn]; [done|]. by rewrite (nrefs_zero _ _ Hn) in E2. }
    assert (NoDup l) as Dl.
    { apply NoDup_fmap_2_strong; [|apply NoDup_seq]. intros b b' Hb%elem_of_seq Hb'%elem_of_seq Eb.
      apply (br_uniq _ _ _ R b b' (bblockno (bufs c b))); [apply Hall; lia|rewrite Eb; apply Hall; lia]. }
    assert (list_to_set l ⊆ dom (refs a)) as Hsub.
    { intros n Hn%elem_of_list_to_set. apply list_elem_of_fmap in Hn as (b & -> & Hb%elem_of_seq). apply Hall. lia. }
    apply subseteq_size in Hsub. rewrite size_list_to_set in Hsub by done. unfold l in Hsub.
    rewrite length_fmap, length_seq in Hsub. lia.
Qed.

(** Which buffer [bget] takes. *)
Definition take_hit (me : Z) (x : buf) : buf := set_block (mkSleep true me) (set_refcnt (u32 (refcnt x + 1)) x).
Definition take_miss (me n : Z) (x : buf) : buf :=
  set_block (mkSleep true me) (set_refcnt 1 (set_bvalid false (set_bkey ROOTDEV n x))).

Lemma wp_bget me a n f l (s : K) Q :
  quiet me s → brep me a (bc f) → ring (bufs (bc f)) l → n ∉ hold a →
  n ∈ dom (refs a) ∨ (size (dom (refs a)) < NBUF)%nat →
  (∀ b, handle (bc f) b n → Q b (set_fsys (upd_buf b (take_hit me) f) s)) →
  (∀ b, (∀ b', ¬ handle (bc f) b' n) → (b < NBUF)%nat → refcnt (bufs (bc f) b) = 0 →
     List.find (λ b, refcnt (bufs (bc f) b) =? 0) (reverse l) = Some b →
     Q b (set_fsys (upd_buf b (take_miss me n) f) s)) →
  wp (bget ROOTDEV n) (set_fsys f s) Q.
Proof.
  intros Qs R Rl Hn Hroom Hhit Hmiss. apply wp_bind, (wp_enter me); [done|].
  apply wp_bind, wp_bget_. apply wp_bind, (wp_scan_next _ l); [done|].
  change (λ b : nat, (bdev (bufs (bc f) b) =? ROOTDEV) && (bblockno (bufs (bc f) b) =? n)) with (λ b, matches n (bufs (bc f) b)).
  destruct (List.find _ l) as [b|] eqn:E.
  - apply find_some in E as [Hb%list_elem_of_In Hm]. apply (ring_elem _ _ _ Rl) in Hb. apply matches_handle in Hm; [|done].
    apply wp_bind, wp_bset. apply wp_bind, (wp_exit me); [done|]. apply wp_bind, (wp_acquiresleep me); [done| |].
    + cbn [sl_get]. rewrite upd_buf_same. cbn [block set_refcnt].
      destruct (handle_buf _ _ _ _ _ R Hm) as (_ & _ & _ & ->). by rewrite decide_False.
    + apply wp_ret. change (with_sleep (SlBuf b)) with (λ v, upd_buf b (set_block v)). cbv beta. rewrite upd_buf_twice. by apply Hhit.
  - assert (∀ b, ¬ handle (bc f) b n) as Hno.
    { intros b Hh. pose proof Hh as (Hb & _). apply (matches_handle _ _ _ Hb) in Hh. apply (ring_elem _ _ _ Rl) in Hb.
      rewrite (find_none _ _ E b) in Hh; [done|]. by apply list_elem_of_In. }
    assert (∃ b, (b < NBUF)%nat ∧ refcnt (bufs (bc f) b) = 0) as (b0 & Hb0 & E0).
    { destruct Hroom as [[k Hk]%elem_of_dom|Hroom]; [|by apply (free_buffer me a)].
      destruct (br_refs _ _ _ R n k Hk) as [_ [b Hh]]. by destruct (Hno b). }
    apply wp_bind, wp_bget_. apply wp_bind, (wp_scan_prev _ l); [done|].
    destruct (find_elem (λ b, refcnt (bufs (bc f) b) =? 0) (reverse l)) as (b & Eb & Hb & Hz).
    { exists b0. rewrite elem_of_reverse, (ring_elem _ _ _ Rl). split; [done|]. by apply Z.eqb_eq. }
    rewrite Eb. apply elem_of_reverse, (ring_elem _ _ _ Rl) in Hb. apply Z.eqb_eq in Hz.
    do 3 (apply wp_bind, wp_bset). rewrite !upd_buf_twice. apply wp_bind, (wp_exit me); [done|].
    apply wp_bind, (wp_acquiresleep me); [done| |].
    + cbn [sl_get]. rewrite upd_buf_same. cbn [block set_refcnt set_bvalid set_bkey].
      destruct (br_buf _ _ _ R b Hb) as [(_ & _ & _ & ->)|(_ & Er & _ & _ & ->)]; [done|]. rewrite decide_False; [done|].
      intros Hd%(br_hold _ _ _ R). pose proof (nrefs_pos _ _ _ _ R Hd). lia.
    + apply wp_ret. change (with_sleep (SlBuf b)) with (λ v, upd_buf b (set_block v)). cbv beta. rewrite upd_buf_twice. by apply Hmiss.
Qed.

(** The buffer of [n] after [bread]. *)
Definition reading (me n : Z) (a : bst) (x : buf) : Prop :=
  payload x = (true, ROOTDEV, n, mkSleep true me, nrefs a n + 1, cont a n).

Lemma brep_read me a n b c c' :
  brep me a c → retarget b n a c c' → reading me n a (bufs c' b) → disk c' = disk c → dwrites c' = dwrites c →
  nrefs a n + 1 < 2 ^ 32 → brep me (a_read n a) c' ∧ keeps a c c'.
Proof.
  intros R T [= E1 E2 E3 E4 E5 E6] Ed Ew Hk. split; [|by intros b' n' Hd Hh; apply (retarget_handles b n a c)].
  assert (0 ≤ nrefs a n) as Hp.
  { destruct (decide (n ∈ dom (refs a))) as [Hd|Hd]; [pose proof (nrefs_pos _ _ _ _ R Hd); lia|by rewrite nrefs_zero]. }
  apply (brep_step me a _ c c' b n); try done.
  - intros n' Hn. cbn [refs cont hold adisk a_read]. rewrite lookup_insert_ne by done. split_and!; try done. set_solver.
  - by rewrite Ed, (br_disk _ _ _ R).
  - by rewrite Ew, (br_writes _ _ _ R).
  - right. rewrite E1, E2, E3, E4, E5, E6. unfold nrefs at 2. cbn [refs cont hold a_read].
    rewrite lookup_insert_eq, decide_True by set_solver. done.
  - intros k. cbn [refs a_read]. rewrite lookup_insert_eq. intros [= <-]. lia.
  - intros _. cbn [refs a_read]. set_solver.
  - cbn [refs a_read]. by rewrite lookup_insert_eq.
Qed.

(** The buffer taken for [n] from the list [l]: the one that has the block, else
    the least recently used one without references. *)
Definition picks (c : bcache) (l : list nat) (n : Z) (b : nat) : Prop :=
  handle c b n ∨
  (∀ b', ¬ handle c b' n) ∧ List.find (λ b, refcnt (bufs c b) =? 0) (reverse l) = Some b.

Lemma wp_bread_lru me a n f l (s : K) Q :
  quiet me s → brep me a (bc f) → ring (bufs (bc f)) l → n ∉ hold a → n ∈ dom (refs a) ∨ (size (dom (refs a)) < NBUF)%nat →
  nrefs a n + 1 < 2 ^ 32 →
  (∀ b c', brep me (a_read n a) c' → handle c' b n → keeps a (bc f) c' → ring (bufs c') l → picks (bc f) l n b →
     Q b (set_fsys (set_bc c' f) s)) →
  wp (bread ROOTDEV n) (set_fsys f s) Q.
Proof.
  intros Qs R Rl Hn Hroom Hk HQ.
  assert (u32 (nrefs a n + 1) = nrefs a n + 1) as Eu.
  { apply u32_small. destruct (decide (n ∈ dom (refs a))) as [Hd|Hd]; [pose proof (nrefs_pos _ _ _ _ R Hd); lia|rewrite nrefs_zero by done; lia]. }
  assert (∀ b g, retarget b n a (bc f) (bc (upd_buf b g f)) → reading me n a (g (bufs (bc f) b)) → picks (bc f) l n b →
    (∀ x, bnext (g x) = bnext x ∧ bprev (g x) = bprev x) → Q b (set_fsys (upd_buf b g f) s)) as Hfin.
  { intros b g T Hr Hp Hg. destruct (brep_read me a n b (bc f) (bc (upd_buf b g f))) as [R' Kp]; [done|done| |done..|].
    { by rewrite upd_buf_same. }
    exact (HQ b _ R' (rg_handle _ _ _ _ _ T) Kp (upd_buf_links b g f l Hg Rl) Hp). }
  apply wp_bind, (wp_bget me a n f l); [done..| |].
  - intros b Hh. pose proof Hh as (Hb & Ed & En). destruct (handle_buf _ _ _ _ _ R Hh) as (Er & Ec & Ev & _).
    assert (∀ g, (∀ x, bnext (g x) = bnext x ∧ bprev (g x) = bprev x ∧ bdev (g x) = bdev x ∧ bblockno (g x) = bblockno x) →
      retarget b n a (bc f) (bc (upd_buf b g f))) as Ht.
    { intros g Hg. apply (retarget_self me); try done; [exists l; apply upd_buf_links; [|done]; intros x; by destruct (Hg x) as (? & ? & _)|..].
      - rewrite upd_buf_same. by destruct (Hg (bufs (bc f) b)) as (_ & _ & -> & _).
      - rewrite upd_buf_same. by destruct (Hg (bufs (bc f) b)) as (_ & _ & _ & ->).
      - intros b' Hne. by rewrite upd_buf_other. }
    apply wp_bind, wp_bget_. rewrite upd_buf_same. cbn [take_hit bvalid set_block set_refcnt].
    destruct (bvalid (bufs (bc f) b)) eqn:Hv; cbn [negb when].
    + apply wp_bind, wp_ret, wp_ret. apply Hfin; [by apply Ht| |by left|done]. unfold reading, payload, take_hit. cbn [bvalid bdev bblockno block refcnt bdata set_block set_refcnt].
      by rewrite Hv, Ed, En, Er, Eu, Ec.
    + assert (nrefs a n = 0) as Ez by (destruct (decide (nrefs a n = 0)) as [|Hnz]; [done|by specialize (Ev Hnz)]).
      assert (refs a !! n = None) as Hnone by (unfold nrefs in Ez; destruct (refs a !! n) as [k|] eqn:E; [|done]; destruct (br_refs _ _ _ R n k E); simpl in Ez; lia).
      apply wp_bind, wp_bind, wp_bind, wp_bget_. rewrite upd_buf_same. apply wp_bind, wp_fget. apply wp_bset.
      apply wp_bset. apply wp_ret. rewrite !upd_buf_twice. apply Hfin; [by apply Ht| |by left|done].
      unfold reading, payload, take_hit. cbn [bvalid bdev bblockno block refcnt bdata set_block set_refcnt set_bvalid set_bdata fsys set_fsys].
      rewrite Ed, En, Er, Eu. change (disk (bc (upd_buf b _ f))) with (disk (bc f)).
      by rewrite (br_disk _ _ _ R), (br_clean _ _ _ R).
  - intros b Hno Hb Ez Hfd.
    assert (refs a !! n = None) as Hnone by (destruct (refs a !! n) as [k|] eqn:E; [|done]; destruct (br_refs _ _ _ R n k E) as [_ [b' ?]]; by destruct (Hno b')).
    apply wp_bind, wp_bget_. rewrite upd_buf_same. cbn [take_miss bvalid set_block set_refcnt set_bvalid negb when].
    apply wp_bind, wp_bind, wp_bind, wp_bget_. rewrite upd_buf_same. apply wp_bind, wp_fget. apply wp_bset.
    apply wp_bset. apply wp_ret. rewrite !upd_buf_twice. apply Hfin; [..|by right|done].
    + split.
      * exists l. by apply upd_buf_links.
      * unfold handle. by rewrite upd_buf_same.
      * intros b' Hne. by rewrite upd_buf_other.
      * intros b' _. apply Hno.
      * intros n0 Hh _. destruct (refs a !! n0) as [k|] eqn:E; [|done]. destruct (br_refs _ _ _ R n0 k E) as [Hk0 _].
        destruct (handle_buf _ _ _ _ _ R Hh) as (Er & _). unfold nrefs in Er. rewrite E in Er. simpl in Er. lia.
    + unfold reading, payload, take_miss. cbn [bvalid bdev bblockno block refcnt bdata set_block set_refcnt set_bvalid set_bkey set_bdata fsys set_fsys].
      change (disk (bc (upd_buf b _ f))) with (disk (bc f)). unfold nrefs. rewrite Hnone.
      by rewrite (br_disk _ _ _ R), (br_clean _ _ _ R).
Qed.

Lemma wp_bread me a n f (s : K) Q :
  quiet me s → brep me a (bc f) → n ∉ hold a → n ∈ dom (refs a) ∨ (size (dom (refs a)) < NBUF)%nat →
  nrefs a n + 1 < 2 ^ 32 →
  (∀ b c', brep me (a_read n a) c' → handle c' b n → keeps a (bc f) c' → Q b (set_fsys (set_bc c' f) s)) →
  wp (bread ROOTDEV n) (set_fsys f s) Q.
Proof.
  intros Qs R Hn Hroom Hk HQ. destruct (br_ring _ _ _ R) as [l Rl].
  apply (wp_bread_lru me a n f l); try done. intros b c' R' Hh Kp _ _. by apply HQ.
Qed.

(** ** Moving a buffer to the front *)

Definition move_front (b : nat) (f : fs) : fs :=
  let f := upd_buf (bnext (bufs (bc f) b)) (set_bprev (bprev (bufs (bc f) b))) f in
  let f := upd_buf (bprev (bufs (bc f) b)) (set_bnext (bnext (bufs (bc f) b))) f in
  let f := upd_buf b (set_bnext (bnext (bufs (bc f) head))) f in
  let f := upd_buf b (set_bprev head) f in
  let f := upd_buf (bnext (bufs (bc f) head)) (set_bprev b) f in
  upd_buf head (set_bnext b) f.

Lemma nexts_upd z v f : nexts (bufs (bc (upd_buf z (set_bnext v) f))) = <[z := v]> (nexts (bufs (bc f))).
Proof. extensionality y. unfold nexts, upd_buf. simpl. fn_case z y; done. Qed.
Lemma prevs_upd z v f : prevs (bufs (bc (upd_buf z (set_bprev v) f))) = <[z := v]> (prevs (bufs (bc f))).
Proof. extensionality y. unfold prevs, upd_buf. simpl. fn_case z y; done. Qed.
Lemma nexts_upd_prev z v f : nexts (bufs (bc (upd_buf z (set_bprev v) f))) = nexts (bufs (bc f)).
Proof. extensionality y. unfold nexts, upd_buf. simpl. fn_case z y; done. Qed.
Lemma prevs_upd_next z v f : prevs (bufs (bc (upd_buf z (set_bnext v) f))) = prevs (bufs (bc f)).
Proof. extensionality y. unfold prevs, upd_buf. simpl. fn_case z y; done. Qed.

Lemma payload_upd z g f y :
  (∀ x, payload (g x) = payload x) → payload (bufs (bc (upd_buf z g f)) y) = payload (bufs (bc f) y).
Proof. intros Hg. destruct (decide (y = z)) as [->|Hy]; [by rewrite upd_buf_same|by rewrite upd_buf_other]. Qed.

Lemma move_front_payload b f y : payload (bufs (bc (move_front b f)) y) = payload (bufs (bc f) y).
Proof. unfold move_front. cbv zeta. by rewrite !payload_upd. Qed.

Lemma move_front_ring b f l1 l2 :
  ring (bufs (bc f)) (l1 ++ b :: l2) → ring (bufs (bc (move_front b f))) (b :: l1 ++ l2).
Proof.
  intros R. pose proof (ring_NoDup _ _ R) as D. pose proof (proj1 (ring_elem _ _ b R) ltac:(set_solver)) as Hb.
  destruct R as [L P]. split; [|rewrite <-P; apply Permutation_middle].
  set (nx := nexts (bufs (bc f))) in *. set (pv := prevs (bufs (bc f))) in *.
  assert (nx b ≠ b) as Hnb.
  { rewrite <-app_assoc in L. apply linked_app in L as (_ & _ & _ & L). simpl in L. intros E.
    apply NoDup_cons in D as [Dh D]. apply NoDup_app in D as (_ & _ & D). apply NoDup_cons in D as [D _].
    destruct l2 as [|y l2]; destruct L as [L _]; fold nx in L; rewrite E in L; subst; set_solver. }
  assert (b ≠ head) as Hbh by (unfold head; lia).
  unfold move_front. cbv zeta. set (f1 := upd_buf (bnext _) _ f). set (f2 := upd_buf _ _ f1). set (f3 := upd_buf b _ f2).
  set (f4 := upd_buf b _ f3). set (f5 := upd_buf _ _ f4).
  assert (nexts (bufs (bc f1)) = nx ∧ prevs (bufs (bc f1)) = <[nx b := pv b]> pv) as [N1 P1].
  { unfold f1. by rewrite nexts_upd_prev, prevs_upd. }
  assert (nexts (bufs (bc f2)) = <[pv b := nx b]> nx ∧ prevs (bufs (bc f2)) = <[nx b := pv b]> pv) as [N2 P2].
  { unfold f2. rewrite nexts_upd, prevs_upd_next. change (bnext (bufs (bc f1) b)) with (nexts (bufs (bc f1)) b).
    change (bprev (bufs (bc f1) b)) with (prevs (bufs (bc f1)) b). rewrite N1, P1. by rewrite fn_lookup_insert_ne. }
  assert (linked (nexts (bufs (bc f2))) (prevs (bufs (bc f2))) head ((l1 ++ l2) ++ [head])) as L2.
  { rewrite N2, P2, <-app_assoc. apply linked_unlink; [by rewrite <-app_assoc in L|done]. }
  apply NoDup_cons in D as [Dh D]. pose proof D as (D1 & D2 & D3)%NoDup_app. apply NoDup_cons in D3 as [D3 D4].
  assert (b ∉ l1 ++ l2) as Hnin.
  { rewrite elem_of_app. intros [Hin|Hin]; [by apply (D2 b Hin), elem_of_cons; left|done]. }
  assert (NoDup (head :: l1 ++ l2)) as D'.
  { apply NoDup_cons. split; [set_solver|]. apply NoDup_app. split_and!; [done| |done]. intros x Hx Hx'. apply (D2 x Hx). set_solver. }
  pose proof (linked_insert _ _ _ b _ L2 D' Hbh Hnin) as L3.
  assert (bnext (bufs (bc f4) head) = nexts (bufs (bc f2)) head) as E4.
  { change (nexts (bufs (bc f4)) head = nexts (bufs (bc f2)) head). unfold f4, f3. rewrite nexts_upd_prev, nexts_upd. by rewrite fn_lookup_insert_ne. }
  rewrite nexts_upd, prevs_upd_next. unfold f5. rewrite nexts_upd_prev, prevs_upd, E4. unfold f4.
  rewrite nexts_upd_prev, prevs_upd. unfold f3. rewrite nexts_upd, prevs_upd_next. exact L3.
Qed.

(** ** The other operations *)

Lemma held_lock me a c b n : brep me a c → handle c b n → n ∈ hold a →
  sl_locked (block (bufs c b)) && (sl_pid (block (bufs c b)) =? me) = true.
Proof.
  intros R Hh Hn. destruct (handle_buf _ _ _ _ _ R Hh) as (_ & _ & _ & ->). rewrite decide_True by done. simpl. apply Z.eqb_refl.
Qed.

(** A change of the payload of a buffer in use. *)
Lemma retarget_upd me a f b n g :
  brep me a (bc f) → handle (bc f) b n →
  (∀ x, bnext (g x) = bnext x ∧ bprev (g x) = bprev x ∧ bdev (g x) = bdev x ∧ bblockno (g x) = bblockno x) →
  retarget b n a (bc f) (bc (upd_buf b g f)).
Proof.
  intros R Hh Hg. pose proof Hh as (Hb & Ed & En). destruct (br_ring _ _ _ R) as [l Rl].
  apply (retarget_self me); try done.
  - exists l. apply upd_buf_links; [|done]. intros x. by destruct (Hg x) as (? & ? & _).
  - rewrite upd_buf_same. by destruct (Hg (bufs (bc f) b)) as (_ & _ & -> & _).
  - rewrite upd_buf_same. by destruct (Hg (bufs (bc f) b)) as (_ & _ & _ & ->).
  - intros b' Hne. by rewrite upd_buf_other.
Qed.

Lemma retarget_keeps b n a c c' : retarget b n a c c' → keeps a c c'.
Proof. intros T b' n' Hd Hh. by apply (retarget_handles b n a c). Qed.

Lemma wp_bupd me a b n g f (s : K) Q :
  brep me a (bc f) → handle (bc f) b n → n ∈ dom (refs a) →
  (∀ c', brep me (a_update n g a) c' → keeps a (bc f) c' → Q tt (set_fsys (set_bc c' f) s)) →
  wp (bupd b g) (set_fsys f s) Q.
Proof.
  intros R Hh Hd HQ. apply wp_bset. pose proof Hh as (Hb & Ed & En).
  assert (retarget b n a (bc f) (bc (upd_buf b (λ x, set_bdata (g (bdata x)) x) f))) as T by (by apply (retarget_upd me)).
  refine (HQ _ _ (retarget_keeps _ _ _ _ _ T)). apply (brep_step me a _ _ _ b n R T).
  - intros n' Hn. cbn [refs cont hold adisk a_update]. by rewrite fn_lookup_insert_ne.
  - apply R.
  - apply R.
  - rewrite upd_buf_same. right. destruct (handle_buf _ _ _ _ _ R Hh) as (E1 & E2 & E3 & E4).
    cbn [bvalid bdev bblockno block refcnt bdata set_bdata]. rewrite En. cbn [cont a_update hold]. rewrite fn_lookup_insert.
    split_and!; [done|done| |by rewrite E1|done]. intros Hv. by rewrite E2.
  - intros k Hk. by destruct (br_refs _ _ _ R n k Hk).
  - apply R.
  - intros Hnone. apply elem_of_dom in Hd as [k Hk]. simpl in Hnone. congruence.
Qed.

Lemma wp_bwrite me a b n f (s : K) Q :
  quiet me s → brep me a (bc f) → handle (bc f) b n → n ∈ hold a →
  (∀ c', brep me (a_write n a) c' → keeps a (bc f) c' → Q tt (set_fsys (set_bc c' f) s)) →
  wp (bwrite b) (set_fsys f s) Q.
Proof.
  intros Qs R Hh Hn HQ. apply wp_bind, (wp_holdingsleep me); [done|]. cbn [sl_get]. rewrite (held_lock me a _ _ n) by done. cbn [negb].
  apply wp_bind, wp_bget_. pose proof Hh as (Hb & Ed & En). rewrite En.
  apply wp_bind, wp_bget_. rewrite (handle_data me a _ _ n) by (done || by apply R). apply wp_fmod. cbn [fsys set_fsys].
  set (c' := mkBcache _ _ _). destruct (br_ring _ _ _ R) as [l Rl].
  assert (retarget b n a (bc f) c') as T by (apply (retarget_self me); try done; by exists l).
  refine (HQ c' _ (retarget_keeps _ _ _ _ _ T)). apply (brep_step me a _ _ _ b n R T).
  - intros n' Hne. cbn [refs cont hold adisk a_write]. by rewrite fn_lookup_insert_ne.
  - unfold c'. cbn [disk adisk a_write]. by rewrite (br_disk _ _ _ R).
  - unfold c'. cbn [dwrites awrites a_write]. by rewrite (br_writes _ _ _ R).
  - right. destruct (handle_buf _ _ _ _ _ R Hh) as (E1 & E2 & E3 & E4). unfold c'. cbn [bufs]. rewrite En. by rewrite <-E1 in E3.
  - intros k Hk. by destruct (br_refs _ _ _ R n k Hk).
  - apply R.
  - intros _. cbn [cont adisk a_write]. by rewrite fn_lookup_insert.
Qed.

(** Changing the reference count of a block, to a count above zero. *)
Lemma brep_count me a f b n d :
  brep me a (bc f) → handle (bc f) b n → n ∈ dom (refs a) → 0 < nrefs a n + d < 2 ^ 32 →
  let f' := upd_buf b (λ x, set_refcnt (u32 (refcnt x + d)) x) f in
  brep me (a_pin d n a) (bc f') ∧ keeps a (bc f) (bc f').
Proof.
  intros R Hh Hd Hk f'. pose proof Hh as (Hb & Ed & En). destruct (handle_buf _ _ _ _ _ R Hh) as (E1 & E2 & E3 & E4).
  assert (retarget b n a (bc f) (bc f')) as T by (by apply (retarget_upd me)).
  split; [|by eapply retarget_keeps]. pose proof (nrefs_pos _ _ _ _ R Hd) as Hp. apply (brep_step me a _ _ _ b n R T).
  - intros n' Hne. cbn [refs cont hold adisk a_pin]. by rewrite lookup_insert_ne.
  - apply R.
  - apply R.
  - unfold f'. rewrite upd_buf_same. right. cbn [bvalid bdev bblockno block refcnt bdata set_refcnt]. rewrite En, E1, u32_small by lia.
    unfold nrefs at 2. cbn [refs a_pin]. rewrite lookup_insert_eq. cbn [default from_option id cont hold a_pin].
    split_and!; try done. intros _. apply E3. lia.
  - intros k. cbn [refs a_pin]. rewrite lookup_insert_eq. intros [= <-]. lia.
  - intros _. cbn [refs a_pin]. set_solver.
  - cbn [refs a_pin]. by rewrite lookup_insert_eq.
Qed.

Lemma wp_bpin me a b n f (s : K) Q :
  steady s → lks s BcacheLock = initlock → brep me a (bc f) → handle (bc f) b n → n ∈ dom (refs a) → nrefs a n + 1 < 2 ^ 32 →
  (∀ c', brep me (a_pin 1 n a) c' → keeps a (bc f) c' → Q tt (set_fsys (set_bc c' f) s)) →
  wp (bpin b) (set_fsys f s) Q.
Proof.
  intros Hs El R Hh Hd Hk HQ. apply wp_bind, wp_enter_steady; [done|]. apply wp_bind, wp_bset. apply wp_exit_steady; [done..|].
  destruct (brep_count me a f b n 1) as [R' Kp]; try done; [pose proof (nrefs_pos _ _ _ _ R Hd); lia|]. exact (HQ _ R' Kp).
Qed.

Lemma wp_bunpin me a b n f (s : K) Q :
  quiet me s → brep me a (bc f) → handle (bc f) b n → 1 < nrefs a n →
  (∀ c', brep me (a_pin (-1) n a) c' → keeps a (bc f) c' → Q tt (set_fsys (set_bc c' f) s)) →
  wp (bunpin b) (set_fsys f s) Q.
Proof.
  intros Qs R Hh Hk HQ. apply wp_bind, (wp_enter me); [done|]. apply wp_bind, wp_bset. apply (wp_exit me); [done|].
  assert (n ∈ dom (refs a)) as Hd by (destruct (decide (n ∈ dom (refs a))); [done|]; rewrite nrefs_zero in Hk by done; lia).
  destruct (brep_count me a f b n (-1)) as [R' Kp]; try done; [pose proof (nrefs_pos _ _ _ _ R Hd); lia|]. exact (HQ _ R' Kp).
Qed.

Definition drop1 (x : buf) : buf := set_refcnt (u32 (refcnt x - 1)) (set_block unlocked_sleep x).

Lemma move_front_bc b f : move_front b f = set_bc (bc (move_front b f)) f ∧
  disk (bc (move_front b f)) = disk (bc f) ∧ dwrites (bc (move_front b f)) = dwrites (bc f).
Proof. done. Qed.

Lemma put_refs_ne n n' k r : n' ≠ n → put_refs n k r !! n' = r !! n'.
Proof. intros. unfold put_refs. destruct (k =? 0); [by rewrite lookup_delete_ne|by rewrite lookup_insert_ne]. Qed.
Lemma put_refs_eq n k r : put_refs n k r !! n = if k =? 0 then None else Some k.
Proof. unfold put_refs. destruct (k =? 0); [by rewrite lookup_delete_eq|by rewrite lookup_insert_eq]. Qed.

(** The state after [brelse], if the buffer [b] ends up with payload [drop1]. *)
Lemma brep_release me a f c' b n :
  brep me a (bc f) → handle (bc f) b n → n ∈ hold a → (nrefs a n = 1 → cont a n = adisk a n) →
  (∃ l, ring (bufs c') l) → disk c' = disk (bc f) → dwrites c' = dwrites (bc f) →
  (∀ z, payload (bufs c' z) = payload (bufs (bc (upd_buf b drop1 f)) z)) →
  brep me (a_release n a) c' ∧ keeps a (bc f) c'.
Proof.
  intros R Hh Hn Hcl Hr Ed Ew Hp. destruct (handle_buf _ _ _ _ _ R Hh) as (E1 & E2 & E3 & E4).
  pose proof Hh as (Hb & Edv & En). pose proof (nrefs_pos _ _ _ _ R (br_hold _ _ _ R n Hn)) as Hk.
  pose proof (Hp b) as Hpb. rewrite upd_buf_same in Hpb. injection Hpb as P1 P2 P3 P4 P5 P6. simpl in P1, P2, P3, P4, P5, P6.
  rewrite E1, u32_small in P5 by lia.
  assert (retarget b n a (bc f) c') as T.
  { apply (retarget_self me); try done; [by rewrite P2|by rewrite P3|]. intros b' Hne. by rewrite Hp, upd_buf_other. }
  split; [|by eapply retarget_keeps]. apply (brep_step me a _ _ _ b n R T).
  - intros n' Hne. cbn [refs cont hold adisk a_release]. rewrite put_refs_ne by done. split_and!; try done. set_solver.
  - by rewrite Ed, (br_disk _ _ _ R).
  - by rewrite Ew, (br_writes _ _ _ R).
  - right. rewrite P2, P3, P4, P5, P6, P1, En. cbn [cont hold a_release]. rewrite decide_False by set_solver.
    unfold nrefs at 2. cbn [refs a_release]. rewrite put_refs_eq.
    split_and!; [done|destruct (Z.eqb_spec (nrefs a n - 1) 0); simpl; lia|done|intros _; apply E3; lia|done].
  - intros k. cbn [refs a_release]. rewrite put_refs_eq. destruct (Z.eqb_spec (nrefs a n - 1) 0); [done|]. intros [= <-]. lia.
  - cbn [hold a_release]. set_solver.
  - cbn [refs a_release]. rewrite put_refs_eq. destruct (Z.eqb_spec (nrefs a n - 1) 0); [|done]. intros _. apply Hcl. lia.
Qed.

(** The list in order of use after [b] is released. *)
Definition used (b : nat) (l : list nat) : list nat := b :: List.filter (λ b', negb (b' =? b)%nat) l.

Lemma used_split b l1 l2 : NoDup (l1 ++ b :: l2) → used b (l1 ++ b :: l2) = b :: l1 ++ l2.
Proof.
  intros (_ & D2 & [D3 _]%NoDup_cons)%NoDup_app. unfold used. f_equal. rewrite List.filter_app. simpl. rewrite Nat.eqb_refl. simpl.
  assert (∀ l, b ∉ l → List.filter (λ b', negb (b' =? b)%nat) l = l) as Hf.
  { clear. induction l as [|x l IH]; [done|]. intros [Hx Hl]%not_elem_of_cons. simpl.
    destruct (Nat.eqb_spec x b); [congruence|]. simpl. by rewrite IH. }
  rewrite !Hf; [done|done|]. intros Hb. apply (D2 b Hb). set_solver.
Qed.

Lemma move_front_used b f l : ring (bufs (bc f)) l → (b < NBUF)%nat → ring (bufs (bc (move_front b f))) (used b l).
Proof.
  intros Rl Hb. pose proof (ring_NoDup _ _ Rl) as [_ D]%NoDup_cons.
  apply (ring_elem _ _ _ Rl), list_elem_of_split in Hb as (l1 & l2 & ->). rewrite used_split by done. by apply move_front_ring.
Qed.

Lemma wp_brelse_lru me a b n f l (s : K) Q :
  quiet me s → brep me a (bc f) → ring (bufs (bc f)) l → handle (bc f) b n → n ∈ hold a → (nrefs a n = 1 → cont a n = adisk a n) →
  (∀ c', brep me (a_release n a) c' → keeps a (bc f) c' → ring (bufs c') (if nrefs a n =? 1 then used b l else l) →
     Q tt (set_fsys (set_bc c' f) s)) →
  wp (brelse b) (set_fsys f s) Q.
Proof.
  intros Qs R Rl Hh Hn Hcl HQ. pose proof Hh as (Hb & _).
  apply wp_bind, (wp_holdingsleep me); [done|]. cbn [sl_get]. rewrite (held_lock me a _ _ n) by done. cbn [negb].
  apply wp_bind, (wp_releasesleep me); [done|]. apply wp_bind, (wp_enter me); [done|]. apply wp_bind, wp_bset.
  change (with_sleep (SlBuf b)) with (λ v, upd_buf b (set_block v)). cbv beta. rewrite upd_buf_twice. fold drop1.
  change (λ x : buf, set_refcnt _ _) with drop1. set (f1 := upd_buf b drop1 f).
  assert (ring (bufs (bc f1)) l) as Hr1 by (by apply upd_buf_links).
  assert (refcnt (bufs (bc f1) b) = nrefs a n - 1) as Ez.
  { unfold f1. rewrite upd_buf_same. cbn [drop1 refcnt set_refcnt set_block]. destruct (handle_buf _ _ _ _ _ R Hh) as (-> & _).
    apply u32_small. pose proof (nrefs_pos _ _ _ _ R (br_hold _ _ _ R n Hn)). lia. }
  apply wp_bind, wp_bget_. rewrite Ez. destruct (Z.eqb_spec (nrefs a n) 1) as [E1|E1]; apply wp_bind, wp_when; intros E0; try (apply Z.eqb_eq in E0 || apply Z.eqb_neq in E0; lia).
  - repeat (apply wp_bind; first [apply wp_bget_|apply wp_bset]). apply wp_bset. apply (wp_exit me); [done|].
    change (upd_buf head _ _) with (move_front b f1).
    assert (ring (bufs (bc (move_front b f1))) (used b l)) as Rm by (by apply move_front_used).
    destruct (brep_release me a f (bc (move_front b f1)) b n) as [R' Kp]; try done.
    { by eexists. } { apply move_front_payload. }
    exact (HQ _ R' Kp Rm).
  - apply (wp_exit me); [done|]. destruct (brep_release me a f (bc f1) b n) as [R' Kp]; try done; [by exists l|]. exact (HQ _ R' Kp Hr1).
Qed.

Lemma wp_brelse me a b n f (s : K) Q :
  quiet me s → brep me a (bc f) → handle (bc f) b n → n ∈ hold a → (nrefs a n = 1 → cont a n = adisk a n) →
  (∀ c', brep me (a_release n a) c' → keeps a (bc f) c' → Q tt (set_fsys (set_bc c' f) s)) →
  wp (brelse b) (set_fsys f s) Q.
Proof.
  intros Qs R Hh Hn Hcl HQ. destruct (br_ring _ _ _ R) as [l Rl].
  apply (wp_brelse_lru me a b n f l); try done. intros c' R' Kp _. by apply HQ.
Qed.
End bioops.
