(* ===== verification/BioSpec.v ===== *)
(** * Properties of the buffer cache

    [binit] sets the cache up; [bread] and [brelse] refine the abstract cache and
    keep the list in order of use; a cache whose buffers are all in use. *)

From Stdlib Require Import FunctionalExtensionality.
From S2P Require Import Prelude Riscv Memory Kalloc Vm Spinlock Proc ProcOps FsState Sleeplock Bio BioOps.

(** The cache in the zeroed memory of a kernel that starts. *)
Definition blank_cache (c : bcache) : Prop :=
  ∀ b, (b < NBUF)%nat → bdev (bufs c b) = 0 ∧ refcnt (bufs c b) = 0 ∧ bvalid (bufs c b) = false.

(** The abstract cache of a disk: nothing referenced. *)
Definition a_clean (d : Z → memory) (w : list (Z * memory)) : bst := mkBst d ∅ ∅ d w.

Section biospec.
Context `{Switch fs, Patience}.

(** ** binit *)

(** After the first [k] buffers. *)
Record initialised (k : nat) (c0 c : bcache) : Prop := {
  in_disk : disk c = disk c0 ∧ dwrites c = dwrites c0;
  in_links : linked (nexts (bufs c)) (prevs (bufs c)) head (reverse (seq 0 k) ++ [head]);
  in_same z : bdev (bufs c z) = bdev (bufs c0 z) ∧ refcnt (bufs c z) = refcnt (bufs c0 z) ∧ bvalid (bufs c z) = bvalid (bufs c0 z);
  in_block z : (z < k)%nat → block (bufs c z) = unlocked_sleep;
}.

(** One round of the loop. *)
Definition link_in (b : nat) (f : fs) : fs :=
  let f := upd_buf b (set_bnext (bnext (bufs (bc f) head))) f in
  let f := upd_buf b (set_bprev head) f in
  let f := upd_buf b (set_block unlocked_sleep) f in
  let f := upd_buf (bnext (bufs (bc f) head)) (set_bprev b) f in
  upd_buf head (set_bnext b) f.

Lemma upd_field {A} (p : buf → A) z g f y :
  (∀ x, p (g x) = p x) → p (bufs (bc (upd_buf z g f)) y) = p (bufs (bc f) y).
Proof. intros Hg. destruct (decide (y = z)) as [->|Hy]; [by rewrite upd_buf_same|by rewrite upd_buf_other]. Qed.

Lemma link_in_same {A} (p : buf → A) b f z :
  (∀ v x, p (set_bnext v x) = p x) → (∀ v x, p (set_bprev v x) = p x) → (∀ v x, p (set_block v x) = p x) →
  p (bufs (bc (link_in b f)) z) = p (bufs (bc f) z).
Proof. intros H1 H2 H3. unfold link_in. cbv zeta. by rewrite !upd_field. Qed.

Lemma link_in_block b f z :
  block (bufs (bc (link_in b f)) z) = if decide (z = b) then unlocked_sleep else block (bufs (bc f) z).
Proof.
  unfold link_in. cbv zeta. rewrite !(upd_field block head), !(upd_field block (bnext _)) by done.
  case_decide as Hz; [subst; by rewrite upd_buf_same|]. by rewrite upd_buf_other, !upd_field.
Qed.

Lemma nexts_upd_block z v f : nexts (bufs (bc (upd_buf z (set_block v) f))) = nexts (bufs (bc f)).
Proof. extensionality y. by apply (upd_field bnext). Qed.
Lemma prevs_upd_block z v f : prevs (bufs (bc (upd_buf z (set_block v) f))) = prevs (bufs (bc f)).
Proof. extensionality y. by apply (upd_field bprev). Qed.

Lemma link_in_links k f :
  (k < NBUF)%nat → linked (nexts (bufs (bc f))) (prevs (bufs (bc f))) head (reverse (seq 0 k) ++ [head]) →
  linked (nexts (bufs (bc (link_in k f)))) (prevs (bufs (bc (link_in k f)))) head (reverse (seq 0 (S k)) ++ [head]).
Proof.
  intros Hk L. rewrite seq_S, reverse_app. change (reverse [(0 + k)%nat]) with [k]. cbn [app]. assert (k ≠ head) as Hh by (unfold head; lia).
  set (nx := nexts (bufs (bc f))) in *. set (pv := prevs (bufs (bc f))) in *.
  unfold link_in. cbv zeta. set (f1 := upd_buf k (set_bnext _) f). set (f2 := upd_buf k (set_bprev head) f1). set (f3 := upd_buf k (set_block _) f2).
  assert (nexts (bufs (bc f3)) = <[k := nx head]> nx) as N3 by (unfold f3, f2, f1; by rewrite nexts_upd_block, nexts_upd_prev, nexts_upd).
  assert (prevs (bufs (bc f3)) = <[k := head]> pv) as P3 by (unfold f3, f2, f1; by rewrite prevs_upd_block, prevs_upd, prevs_upd_next).
  change (bnext (bufs (bc f3) head)) with (nexts (bufs (bc f3)) head). rewrite nexts_upd, nexts_upd_prev, prevs_upd_next, prevs_upd, N3, P3.
  rewrite fn_lookup_insert_ne by done. apply linked_insert; [exact L| |done|].
  - apply NoDup_cons. rewrite elem_of_reverse, elem_of_seq. split; [unfold head; lia|]. rewrite reverse_Permutation. apply NoDup_seq.
  - rewrite elem_of_reverse, elem_of_seq. lia.
Qed.

(** The locks after the sleep locks of the buffers below [k] are set up. *)
Definition lks_inited (k : nat) (lk lk' : lockid → spinlock) : Prop :=
  ∀ l, lk' l = initlock ∨ lk' l = lk l ∧ ∀ b, (b < k)%nat → l ≠ BufLock b.

Lemma wp_binit_loop n k c0 f lk lk0 (s : K) Q :
  (n + k = NBUF)%nat → initialised k c0 (bc f) → lks_inited k lk0 lk →
  (∀ c' lk', initialised NBUF c0 c' → lks_inited NBUF lk0 lk' → Q tt (set_fsys (set_bc c' f) (set_lks lk' s))) →
  wp (binit_loop n k) (set_fsys f (set_lks lk s)) Q.
Proof.
  revert k f lk. induction n as [|n IH]; intros k f lk Hn I Hl HQ.
  { apply wp_ret. replace k with NBUF in * by lia. specialize (HQ (bc f) lk I Hl). by destruct f. }
  cbn [binit_loop]. apply wp_bind, wp_bget_. do 2 (apply wp_bind, wp_bset).
  apply wp_bind. apply wp_bind, wp_modify. refine (sl_set_run (SlBuf k) _ _ (set_lks (<[BufLock k := initlock]> lk) s) _ _). change (with_sleep (SlBuf k)) with (λ v, upd_buf k (set_block v)). cbv beta.
  apply wp_bind, wp_bget_. do 2 (apply wp_bind, wp_bset). change (upd_buf head _ _) with (link_in k f).
  apply (IH (S k) (link_in k f) (<[BufLock k := initlock]> lk)); [lia| | |].
  - destruct I as [Id Il Is Ib]. split; [exact Id|apply link_in_links; [lia|exact Il]|..].
    + intros z. rewrite !(link_in_same _ k f z) by done. apply Is.
    + intros z Hz. rewrite link_in_block. case_decide; [done|]. apply Ib. lia.
  - intros l. destruct (decide (l = BufLock k)) as [->|Hne]; [left; apply fn_lookup_insert|]. rewrite fn_lookup_insert_ne by done.
    destruct (Hl l) as [|[E Hb]]; [by left|right]. split; [done|]. intros b Hb' ->. destruct (decide (b = k)) as [->|]; [done|].
    by apply (Hb b); [lia|].
  - intros c' lk'. apply HQ.
Qed.

Lemma initialised_brep me c0 c : initialised NBUF c0 c → blank_cache c0 → brep me (a_clean (disk c0) (dwrites c0)) c.
Proof.
  intros [[Id Iw] Il Is Ib] Hb.
  assert (∀ b, (b < NBUF)%nat → bdev (bufs c b) = 0 ∧ refcnt (bufs c b) = 0 ∧ bvalid (bufs c b) = false ∧ block (bufs c b) = unlocked_sleep) as Hz.
  { intros b Hlt. destruct (Is b) as (-> & -> & ->). destruct (Hb b Hlt) as (-> & -> & ->). by rewrite Ib. }
  assert (∀ b n, ¬ handle c b n) as Hno by (intros b n (Hlt & E & _); destruct (Hz b Hlt) as (E0 & _); by rewrite E0 in E).
  split; try done.
  - exists (reverse (seq 0 NBUF)). split; [exact Il|]. apply reverse_Permutation.
  - intros b Hlt. left. by apply Hz.
  - intros b b' n Hh. by destruct (Hno b n).
Qed.

Lemma wp_binit me f (s : K) Q :
  blank_cache (bc f) →
  (∀ c' lk', brep me (a_clean (disk (bc f)) (dwrites (bc f))) c' →
     (∀ l, lk' l = initlock ∨ lk' l = lks s l ∧ l ≠ BcacheLock ∧ ∀ b, (b < NBUF)%nat → l ≠ BufLock b) →
     Q tt (set_fsys (set_bc c' f) (set_lks lk' s))) →
  wp binit (set_fsys f s) Q.
Proof.
  intros Hb HQ. apply wp_bind, wp_modify. change (set_lks _ (set_fsys f s)) with (set_fsys f (set_lks (<[BcacheLock := initlock]> (lks s)) s)).
  do 2 (apply wp_bind, wp_bset). set (f1 := upd_buf head (set_bnext head) (upd_buf head (set_bprev head) f)).
  apply (wp_binit_loop NBUF 0 (bc f) f1 (<[BcacheLock := initlock]> (lks s)) (<[BcacheLock := initlock]> (lks s)) s); [done| | |].
  - split; [done| |intros z; unfold f1; by rewrite !(upd_field _ head)|lia]. change (reverse (seq 0 0) ++ [head]) with [head]. unfold f1.
    cbn [linked]. unfold nexts, prevs. by rewrite !upd_buf_same.
  - intros l. destruct (decide (l = BcacheLock)) as [->|]; [left; apply fn_lookup_insert|]. right. split; [done|lia].
  - intros c' lk' I Hl. apply (HQ c' lk'); [by apply initialised_brep|]. intros l. destruct (Hl l) as [|[E Hn]]; [by left|].
    destruct (decide (l = BcacheLock)) as [->|]; [left; by rewrite E, fn_lookup_insert|]. right. by rewrite E, fn_lookup_insert_ne.
Qed.

(** ** A full cache *)

Lemma find_false {A} (t : A → bool) l : (∀ x, x ∈ l → t x = false) → List.find t l = None.
Proof.
  intros Ht. destruct (List.find t l) as [x|] eqn:E; [|done]. apply find_some in E as [Hx Hf].
  by rewrite Ht in Hf by (by apply list_elem_of_In).
Qed.

Lemma bget_panics me a n f (s : K) :
  quiet me s → brep me a (bc f) → n ∉ dom (refs a) → (∀ b, (b < NBUF)%nat → 0 < refcnt (bufs (bc f) b)) →
  bget ROOTDEV n (set_fsys f s) = Panic "bget: no buffers".
Proof.
  intros Qs R Hn Hfull. destruct (br_ring _ _ _ R) as [l Rl].
  apply panic_bind, (wp_enter me); [done|]. apply panic_bind, wp_bget_. apply panic_bind, (wp_scan_next _ l); [done|].
  rewrite find_false.
  - apply panic_bind, wp_bget_. apply panic_bind, (wp_scan_prev _ l); [done|]. rewrite find_false; [done|].
    intros b Hb. apply Z.eqb_neq. apply elem_of_reverse, (ring_elem _ _ _ Rl), Hfull in Hb. lia.
  - intros b Hb. apply (ring_elem _ _ _ Rl) in Hb. change (matches n (bufs (bc f) b) = false). apply not_true_iff_false.
    intros Hh%(matches_handle _ _ _ Hb). destruct (handle_buf _ _ _ _ _ R Hh) as (E & _). specialize (Hfull b Hb).
    rewrite (nrefs_zero _ _ Hn) in E. lia.
Qed.

(** ** Properties *)

(** [binit] turns the zeroed buffers of a starting kernel into a well-formed
    cache of the disk: the list links every buffer, none is referenced, and the
    locks it uses are free. *)
Lemma binit_ready me f (s : K) :
  blank_cache (bc f) →
  wp binit (set_fsys f s) (λ _ s',
    brep me (a_clean (disk (bc f)) (dwrites (bc f))) (bc (fsys s')) ∧
    lks s' BcacheLock = initlock ∧ ∀ b, (b < NBUF)%nat → lks s' (BufLock b) = initlock).
Proof.
  intros Hb. apply (wp_binit me); [done|]. intros c' lk' R Hl. split; [exact R|]. cbn [lks set_fsys set_lks]. split.
  - by destruct (Hl BcacheLock) as [|(_ & ? & _)].
  - intros b Hlt. destruct (Hl (BufLock b)) as [|(_ & _ & Hn)]; [done|]. by destruct (Hn b Hlt).
Qed.

(** C16. [bread] refines reading a block of the abstract cache.  It returns a
    buffer with the current content of the block, locked by the caller and with
    one more reference: the buffer that caches the block, or else the least
    recently used one that nobody references, in the order of the list.  The
    order does not change. *)
Theorem bread_refines me a n f l (s : K) :
  quiet me s → brep me a (bc f) → ring (bufs (bc f)) l → n ∉ hold a →
  n ∈ dom (refs a) ∨ (size (dom (refs a)) < NBUF)%nat → nrefs a n + 1 < 2 ^ 32 →
  wp (bread ROOTDEV n) (set_fsys f s) (λ b s', ∃ c',
    s' = set_fsys (set_bc c' f) s ∧ brep me (a_read n a) c' ∧ ring (bufs c') l ∧
    handle c' b n ∧ bdata (bufs c' b) = cont a n ∧ picks (bc f) l n b).
Proof.
  intros Qs R Rl Hn Hroom Hk. apply (wp_bread_lru me a n f l); [done..|]. intros b c' R' Hh _ Rl' Hp. exists c'. split_and!; try done.
  apply (handle_data me (a_read n a)); [done..|]. cbn [refs a_read]. set_solver.
Qed.

(** C17. [brelse] refines releasing a block.  It unlocks the buffer, and when the
    last reference goes moves it to the front of the list, so that the list
    stays in order of use; a process that does not hold the buffer panics. *)
Theorem brelse_refines me a b n f l (s : K) :
  quiet me s → brep me a (bc f) → ring (bufs (bc f)) l → handle (bc f) b n →
  if decide (n ∈ hold a) then
    (nrefs a n = 1 → cont a n = adisk a n) →
    wp (brelse b) (set_fsys f s) (λ _ s', ∃ c',
      s' = set_fsys (set_bc c' f) s ∧ brep me (a_release n a) c' ∧
      ring (bufs c') (if nrefs a n =? 1 then used b l else l))
  else brelse b (set_fsys f s) = Panic "brelse".
Proof.
  intros Qs R Rl Hh. case_decide as Hn.
  - intros Hcl. apply (wp_brelse_lru me a b n f l); [done..|]. intros c' R' _ Rl'. by exists c'.
  - apply panic_bind, (wp_holdingsleep me); [done|]. cbn [sl_get]. destruct (handle_buf _ _ _ _ _ R Hh) as (_ & _ & _ & ->).
    by rewrite decide_False.
Qed.

(** When other blocks have a reference to every buffer, reading one more block
    panics: the cache never gives away a buffer in use. *)
Lemma bread_no_buffers me a n f (s : K) :
  quiet me s → brep me a (bc f) → n ∉ dom (refs a) → (∀ b, (b < NBUF)%nat → 0 < refcnt (bufs (bc f) b)) →
  bread ROOTDEV n (set_fsys f s) = Panic "bget: no buffers".
Proof. intros Qs R Hn Hfull. apply panic_first. by apply (bget_panics me a). Qed.
End biospec.
