(* ===== verification/Log.v ===== *)
(** * The write-ahead log

    log.c: transactions of file-system calls, commit, and recovery. *)

From S2P Require Import Prelude Riscv Memory Kalloc Vm Spinlock Proc ProcOps FsState Sleeplock Bio.

Section log.
Context `{Switch fs, Patience}.

(** struct logheader in the bytes of a block. *)
Definition hdr_n (m : memory) : Z := s32 (load32 m 0).
Definition hdr_block (m : memory) (i : Z) : Z := s32 (load32 m (4 + 4 * i)).
Definition set_hdr_n (v : Z) (m : memory) : memory := store32 m 0 (u32 v).
Definition set_hdr_block (i v : Z) (m : memory) : memory := store32 m (4 + 4 * i) (u32 v).

(** The body of the loop of [install_trans]; the message of a recovery is left
    out. *)
Definition install_block (recovering : bool) (tail : Z) : M K unit :=
  dev ← lget ldev;
  start ← lget lstart;
  lbuf ← bread (u32 dev) (u32 (start + tail + 1));
  dst ← lget (λ l, lh_block l tail);
  dbuf ← bread (u32 dev) (u32 dst);
  d ← bget_ lbuf bdata;
  bupd dbuf (λ _, d) ;;
  bwrite dbuf ;;
  when (negb recovering) (bunpin dbuf) ;;
  brelse lbuf ;;
  brelse dbuf.

Definition install_trans (recovering : bool) : M K unit :=
  n ← lget lh_n;
  for_up (Z.to_nat n) 0 1 (install_block recovering).

Definition read_head : M K unit :=
  dev ← lget ldev;
  start ← lget lstart;
  b ← bread (u32 dev) (u32 start);
  m ← bget_ b bdata;
  lset (λ l, set_lh (hdr_n m) (lh_block l) l) ;;
  for_up (Z.to_nat (hdr_n m)) 0 1 (λ i,
    lset (λ l, set_lh (lh_n l) (<[i := hdr_block m i]> (lh_block l)) l)) ;;
  brelse b.

Definition write_head : M K unit :=
  dev ← lget ldev;
  start ← lget lstart;
  b ← bread (u32 dev) (u32 start);
  n ← lget lh_n;
  bupd b (set_hdr_n n) ;;
  for_up (Z.to_nat n) 0 1 (λ i,
    v ← lget (λ l, lh_block l i);
    bupd b (set_hdr_block i v)) ;;
  bwrite b ;;
  brelse b.

Definition clear_lh : M K unit := lset (λ l, set_lh 0 (lh_block l) l).

Definition recover_from_log : M K unit :=
  read_head ;;
  install_trans true ;;
  clear_lh ;;
  write_head.

(** The check of the size of struct logheader, a constant, is left out. *)
Definition initlog (dev : Z) (sb : superblock) : M K unit :=
  modify (λ s, set_lks (<[LogLock := initlock]> (lks s)) s) ;;
  lset (set_lplace (s32 (logstart sb)) dev) ;;
  recover_from_log.

(** The loop of [begin_op]. *)
Fixpoint begin_op_loop (fuel : nat) : M K unit :=
  match fuel with
  | O => nofuel
  | S fuel' =>
      l ← lget id;
      if committing l || (LOGBLOCKS <? lh_n l + (outstanding l + 1) * MAXOPBLOCKS) then
        sleep ChanLog LogLock ;;
        begin_op_loop fuel'
      else
        lset (set_outstanding (outstanding l + 1)) ;;
        release LogLock
  end.

Definition begin_op : M K unit :=
  acquire LogLock ;;
  begin_op_loop (S patience).

(** The body of the loop of [write_log]. *)
Definition log_block (tail : Z) : M K unit :=
  dev ← lget ldev;
  start ← lget lstart;
  to ← bread (u32 dev) (u32 (start + tail + 1));
  src ← lget (λ l, lh_block l tail);
  from ← bread (u32 dev) (u32 src);
  d ← bget_ from bdata;
  bupd to (λ _, d) ;;
  bwrite to ;;
  brelse from ;;
  brelse to.

Definition write_log : M K unit :=
  n ← lget lh_n;
  for_up (Z.to_nat n) 0 1 log_block.

Definition commit : M K unit :=
  n ← lget lh_n;
  when (0 <? n)
    (write_log ;;
     write_head ;;
     install_trans false ;;
     clear_lh ;;
     write_head).

Definition end_op : M K unit :=
  acquire LogLock ;;
  lset (λ l, set_outstanding (outstanding l - 1) l) ;;
  l ← lget id;
  if committing l then panic "log.committing" else
  do_commit ←
    (if outstanding l =? 0 then lset (set_committing true) ;; mret true
     else wakeup ChanLog ;; mret false);
  release LogLock ;;
  when do_commit
    (commit ;;
     acquire LogLock ;;
     lset (set_committing false) ;;
     lset (λ l, set_ncommit (s32 (ncommit l + 1)) l) ;;
     wakeup ChanLog ;;
     release LogLock).

(** The first index from [i], of [n] more, that holds the block; else the last. *)
Fixpoint log_find (n : nat) (i : Z) (block : Z → Z) (blockno : Z) : Z :=
  match n with
  | O => i
  | S n' => if u32 (block i) =? blockno then i else log_find n' (i + 1) block blockno
  end.

Definition log_write (b : nat) : M K unit :=
  acquire LogLock ;;
  l ← lget id;
  if LOGBLOCKS <=? lh_n l then panic "too big a transaction" else
  if outstanding l <? 1 then panic "log_write outside of trans" else
  blockno ← bget_ b bblockno;
  let i := log_find (Z.to_nat (lh_n l)) 0 (lh_block l) blockno in
  lset (λ l, set_lh (lh_n l) (<[i := s32 blockno]> (lh_block l)) l) ;;
  when (i =? lh_n l)
    (bpin b ;;
     lset (λ l, set_lh (lh_n l + 1) (lh_block l) l)) ;;
  release LogLock.

(** [while (log.ncommit < n) sleep(&log, &log.lock);] *)
Fixpoint sync_loop (fuel : nat) (n : Z) : M K unit :=
  match fuel with
  | O => nofuel
  | S fuel' =>
      c ← lget ncommit;
      if c <? n then sleep ChanLog LogLock ;; sync_loop fuel' n else mret tt
  end.

Definition sys_sync : M K Z :=
  acquire LogLock ;;
  l ← lget id;
  when (committing l || (0 <? outstanding l))
    (sync_loop (S patience) (s32 (ncommit l + 1))) ;;
  release LogLock ;;
  mret 0.
End log.
