(* ===== verification/LogOps.v ===== *)
(** * Commit and recovery

    What the steps of [commit] and of [recover_from_log] do to the blocks, and
    that a crash at any point of a commit, followed by recovery, leaves either
    all or none of the transaction. *)

From Stdlib Require Import FunctionalExtensionality.
From S2P Require Import Prelude Riscv Memory Kalloc Vm Spinlock Proc ProcOps FsState Sleeplock Bio BioOps Log.

Section logops.
Context `{Switch fs, Patience}.

(** Block [x] is [v] in the cache and on the disk. *)
Definition a_put (x : Z) (v : memory) (a : bst) : bst :=
  mkBst (<[x := v]> (cont a)) (refs a) (hold a) (<[x := v]> (adisk a)) (awrites a ++ [(x, v)]).
(** The same, with one reference less. *)
Definition a_install (x : Z) (v : memory) (a : bst) : bst :=
  mkBst (<[x := v]> (cont a)) (put_refs x (nrefs a x - 1) (refs a)) (hold a) (<[x := v]> (adisk a)) (awrites a ++ [(x, v)]).

Lemma bst_eq a a' :
  (∀ n, cont a n = cont a' n) → refs a = refs a' → hold a = hold a' → (∀ n, adisk a n = adisk a' n) → awrites a = awrites a' → a = a'.
Proof.
  destruct a, a'. simpl. intros E1 -> -> E2 ->. f_equal; by extensionality n.
Qed.

Lemma nrefs_read n n' a : nrefs (a_read n a) n' = if decide (n' = n) then nrefs a n + 1 else nrefs a n'.
Proof.
  unfold nrefs at 1. cbn [refs a_read]. case_decide as E; [subst; by rewrite lookup_insert_eq|by rewrite lookup_insert_ne].
Qed.
Lemma nrefs_release n n' a : 0 < nrefs a n → nrefs (a_release n a) n' = if decide (n' = n) then nrefs a n - 1 else nrefs a n'.
Proof.
  intros Hp. unfold nrefs at 1. cbn [refs a_release]. case_decide as E; [subst; rewrite put_refs_eq|by rewrite put_refs_ne].
  destruct (Z.eqb_spec (nrefs a n - 1) 0); simpl; lia.
Qed.

Lemma nrefs_pin d n n' a : nrefs (a_pin d n a) n' = if decide (n' = n) then nrefs a n + d else nrefs a n'.
Proof.
  unfold nrefs at 1. cbn [refs a_pin]. case_decide as E; [subst; by rewrite lookup_insert_eq|by rewrite lookup_insert_ne].
Qed.

(** A reference taken and dropped. *)
Lemma put_refs_back n k r : r !! n = Some k → k ≠ 0 → put_refs n k (<[n := k + 1]> r) = r.
Proof. intros Hk Hz. unfold put_refs. rewrite (proj2 (Z.eqb_neq _ _) Hz), insert_insert_eq. by apply insert_id. Qed.
Lemma put_refs_gone n r : r !! n = None → put_refs n 0 (<[n := 1]> r) = r.
Proof. intros Hn. unfold put_refs. simpl. by rewrite delete_insert_id. Qed.

Lemma dom_nrefs a n : n ∈ dom (refs a) → refs a !! n = Some (nrefs a n).
Proof. intros [k Hk]%elem_of_dom. unfold nrefs. by rewrite Hk. Qed.

Lemma hold_back (n : Z) (X : gset Z) : n ∉ X → ({[n]} ∪ X) ∖ {[n]} = X.
Proof. set_solver. Qed.

(** ** Two blocks, one of the log and one of the transaction *)

Section blocks.
Context (me : Z) (s : K) (Qs : quiet me s).

(** A block of the log area, not in the cache, and a block in use. *)
Record logged (x h : Z) (a : bst) : Prop := {
  lo_ne : x ≠ h;
  lo_fresh : refs a !! x = None;
  lo_used : h ∈ dom (refs a);
  lo_free : x ∉ hold a ∧ h ∉ hold a;
  lo_room : (size (dom (refs a)) < NBUF)%nat;
  lo_bound : nrefs a h + 2 < 2 ^ 32;
}.

Lemma wp_log_block a f i x h Q :
  brep me a (bc f) → ldev (lg f) = ROOTDEV → u32 (lstart (lg f) + i + 1) = x → u32 (lh_block (lg f) i) = h → logged x h a →
  (∀ c', brep me (a_put x (cont a h) a) c' → Q tt (set_fsys (set_bc c' f) s)) →
  wp (log_block i) (set_fsys f s) Q.
Proof.
  intros R Ed Ex Eh [L1 L2 L3 [L4 L5] L6 L7] HQ. pose proof (nrefs_pos _ _ _ _ R L3) as Hp.
  assert (nrefs a x = 0) as Ex0 by (unfold nrefs; by rewrite L2).
  apply wp_bind, wp_fget. apply wp_bind, wp_fget. cbn [fsys set_fsys]. rewrite Ed, Ex. change (u32 ROOTDEV) with ROOTDEV.
  apply wp_bind, (wp_bread me a); [done|done|done|by right|lia|]. intros b1 c1 R1 H1 _.
  apply wp_bind, wp_fget. cbn [fsys set_fsys lg set_bc]. rewrite Eh.
  apply wp_bind, (wp_bread me (a_read x a)); [done|done|cbn [hold a_read]; set_solver|left; cbn [refs a_read]; set_solver|
    rewrite nrefs_read, decide_False by done; lia|]. intros b2 c2 R2 H2 K2. cbn [bc set_bc] in K2.
  assert (handle c2 b1 x) as H1' by (apply K2; [cbn [refs a_read]; set_solver|done]).
  apply wp_bind, wp_bget_. cbn [bc set_bc].
  rewrite (handle_data me _ _ _ _ R2 H2) by (cbn [refs a_read]; set_solver). cbn [cont a_read].
  apply wp_bind, (wp_bupd me (a_read h (a_read x a)) b1 x); [done|done|cbn [refs a_read]; set_solver|]. intros c3 R3 K3. cbn [bc set_bc] in K3.
  assert (∀ b n, n = x ∨ n = h → handle c2 b n → handle c3 b n) as K3' by (intros b n Hn; apply K3; cbn [refs a_read]; set_solver).
  apply wp_bind, (wp_bwrite me (a_update x (λ _, cont a h) (a_read h (a_read x a))) b1 x);
    [done|done|apply K3'; auto|cbn [hold a_read a_update]; set_solver|]. intros c4 R4 K4. cbn [bc set_bc] in K4.
  assert (∀ b n, n = x ∨ n = h → handle c3 b n → handle c4 b n) as K4' by (intros b n Hn; apply K4; cbn [refs a_read a_update]; set_solver).
  set (a4 := a_write x _) in *.
  assert (nrefs a4 h = nrefs a h + 1 ∧ nrefs a4 x = 1) as [N1 N2].
  { change (nrefs a4) with (nrefs (a_read h (a_read x a))). rewrite (nrefs_read h h), (nrefs_read h x), !(nrefs_read x).
    repeat case_decide; try congruence; lia. }
  apply wp_bind, (wp_brelse me a4 b2 h); [done|done|apply K4', K3'; auto|unfold a4; cbn [hold a_read a_update a_write]; set_solver|lia|].
  intros c5 R5 K5. cbn [bc set_bc] in K5.
  apply (wp_brelse me (a_release h a4) b1 x); [done|done|apply K5, K4', K3'; auto; unfold a4; cbn [refs a_read a_update a_write]; set_solver|
    unfold a4; cbn [hold a_read a_update a_write a_release]; set_solver| |].
  { intros _. unfold a4. cbn [cont adisk a_read a_update a_write a_release]. by rewrite !fn_lookup_insert. }
  intros c6 R6 _. apply (HQ c6). replace (a_put x (cont a h) a) with (a_release x (a_release h a4)); [done|].
  apply bst_eq.
  - done.
  - cbn [refs a_release a_put]. rewrite nrefs_release by lia. rewrite decide_False, N1, N2 by done.
    replace (nrefs a h + 1 - 1) with (nrefs a h) by lia. unfold a4. cbn [refs a_read a_update a_write].
    rewrite nrefs_read, decide_False, Ex0 by done. rewrite put_refs_back; [|by rewrite lookup_insert_ne, dom_nrefs|lia]. by apply put_refs_gone.
  - unfold a4. cbn [hold a_read a_update a_write a_release a_put]. rewrite hold_back by set_solver. by apply hold_back.
  - intros n. unfold a4. cbn [adisk cont a_read a_update a_write a_release a_put]. by rewrite fn_lookup_insert.
  - unfold a4. cbn [awrites cont a_read a_update a_write a_release a_put]. by rewrite fn_lookup_insert.
Qed.

(** The state of [install_block] before the buffers are released. *)
Lemma wp_install_prefix a f i x h Q (k : nat → nat → M K unit) :
  brep me a (bc f) → ldev (lg f) = ROOTDEV → u32 (lstart (lg f) + i + 1) = x → u32 (lh_block (lg f) i) = h →
  x ≠ h → refs a !! x = None → x ∉ hold a → h ∉ hold a → nrefs a h + 2 < 2 ^ 32 →
  (size (dom (refs a)) < NBUF)%nat → h ∈ dom (refs a) ∨ (S (size (dom (refs a))) < NBUF)%nat →
  (∀ b1 b2 c', brep me (a_write h (a_update h (λ _, cont a x) (a_read h (a_read x a)))) c' → handle c' b1 x → handle c' b2 h →
     wp (k b1 b2) (set_fsys (set_bc c' f) s) Q) →
  wp (dev ← lget ldev; start ← lget lstart; lbuf ← bread (u32 dev) (u32 (start + i + 1));
      dst ← lget (λ l, lh_block l i); dbuf ← bread (u32 dev) (u32 dst); d ← bget_ lbuf bdata;
      bupd dbuf (λ _, d) ;; bwrite dbuf ;; k lbuf dbuf) (set_fsys f s) Q.
Proof.
  intros R Ed Ex Eh L1 L2 L4 L5 L7 L6 L8 HQ. assert (nrefs a x = 0) as Ex0 by (unfold nrefs; by rewrite L2).
  apply wp_bind, wp_fget. apply wp_bind, wp_fget. cbn [fsys set_fsys]. rewrite Ed, Ex. change (u32 ROOTDEV) with ROOTDEV.
  apply wp_bind, (wp_bread me a); [done|done|done|by right|lia|]. intros b1 c1 R1 H1 _.
  apply wp_bind, wp_fget. cbn [fsys set_fsys lg set_bc]. rewrite Eh.
  apply wp_bind, (wp_bread me (a_read x a)); [done|done|cbn [hold a_read]; set_solver| |
    rewrite nrefs_read, decide_False by done; lia|].
  { cbn [refs a_read]. destruct L8 as [L8|L8]; [left; set_solver|right]. rewrite dom_insert_L, size_union_alt.
    assert (size ({[x]} : gset Z) = 1%nat) by apply size_singleton. assert (size (dom (refs a) ∖ {[x]}) ≤ size (dom (refs a)))%nat by (apply subseteq_size; set_solver). lia. }
  intros b2 c2 R2 H2 K2. cbn [bc set_bc] in K2.
  assert (handle c2 b1 x) as H1' by (apply K2; [cbn [refs a_read]; set_solver|done]).
  apply wp_bind, wp_bget_. cbn [bc set_bc].
  rewrite (handle_data me _ _ _ _ R2 H1') by (cbn [refs a_read]; set_solver). cbn [cont a_read].
  apply wp_bind, (wp_bupd me (a_read h (a_read x a)) b2 h); [done|done|cbn [refs a_read]; set_solver|]. intros c3 R3 K3. cbn [bc set_bc] in K3.
  assert (∀ b n, n = x ∨ n = h → handle c2 b n → handle c3 b n) as K3' by (intros b n Hn; apply K3; cbn [refs a_read]; set_solver).
  apply wp_bind, (wp_bwrite me (a_update h (λ _, cont a x) (a_read h (a_read x a))) b2 h);
    [done|done|apply K3'; auto|cbn [hold a_read a_update]; set_solver|]. intros c4 R4 K4. cbn [bc set_bc] in K4.
  assert (∀ b n, n = x ∨ n = h → handle c3 b n → handle c4 b n) as K4' by (intros b n Hn; apply K4; cbn [refs a_read a_update]; set_solver).
  apply (HQ b1 b2 c4 R4); apply K4', K3'; auto.
Qed.

Lemma nrefs_range a c n : brep me a c → 0 ≤ nrefs a n.
Proof.
  intros R. destruct (decide (n ∈ dom (refs a))) as [Hd|Hd]; [pose proof (nrefs_pos _ _ _ _ R Hd); lia|by rewrite nrefs_zero].
Qed.

Lemma refs_read_release a c n : brep me a c → put_refs n (nrefs a n) (<[n := nrefs a n + 1]> (refs a)) = refs a.
Proof.
  intros R. destruct (decide (n ∈ dom (refs a))) as [Hd|Hd].
  - pose proof (nrefs_pos _ _ _ _ R Hd). apply put_refs_back; [by apply dom_nrefs|lia].
  - rewrite nrefs_zero by done. by apply put_refs_gone, not_elem_of_dom.
Qed.

(** Recovery copies the block; the references stay as they were. *)
Lemma wp_install_recover a f i x h Q :
  brep me a (bc f) → ldev (lg f) = ROOTDEV → u32 (lstart (lg f) + i + 1) = x → u32 (lh_block (lg f) i) = h →
  x ≠ h → refs a = ∅ → hold a = ∅ →
  (∀ c', brep me (a_put h (cont a x) a) c' → Q tt (set_fsys (set_bc c' f) s)) →
  wp (install_block true i) (set_fsys f s) Q.
Proof.
  intros R Ed Ex Eh L1 Er Eho HQ. assert (∀ n, refs a !! n = None) as Hnone by (intros; by rewrite Er).
  assert (∀ n, nrefs a n = 0) as Hz by (intros n; unfold nrefs; by rewrite Hnone).
  apply (wp_install_prefix a f i x h _ (λ l d, when (negb true) (bunpin d) ;; brelse l ;; brelse d)); try done.
  { rewrite Eho. set_solver. } { rewrite Eho. set_solver. } { rewrite Hz. lia. } { rewrite Er. by apply Nat.ltb_lt. } { right. rewrite Er. by apply Nat.ltb_lt. }
  intros b1 b2 c R1 H1 H2. set (a4 := a_write h _) in *. apply wp_bind, wp_ret.
  assert (nrefs a4 x = 1 ∧ nrefs a4 h = 1) as [N1 N2].
  { change (nrefs a4) with (nrefs (a_read h (a_read x a))). rewrite (nrefs_read h h), (nrefs_read h x), !(nrefs_read x), !Hz.
    repeat case_decide; try congruence; lia. }
  apply wp_bind, (wp_brelse me a4 b1 x); [done|done|done|unfold a4; cbn [hold a_read a_update a_write]; set_solver| |].
  { intros _. unfold a4. cbn [cont adisk a_read a_update a_write]. rewrite !fn_lookup_insert_ne by done. by apply R. }
  intros c5 R5 K5. cbn [bc set_bc] in K5.
  apply (wp_brelse me (a_release x a4) b2 h); [done|done|apply K5; [unfold a4; cbn [refs a_read a_update a_write]; set_solver|done]|
    unfold a4; cbn [hold a_read a_update a_write a_release]; set_solver| |].
  { intros _. unfold a4. cbn [cont adisk a_read a_update a_write a_release]. by rewrite !fn_lookup_insert. }
  intros c6 R6 _. apply (HQ c6). replace (a_put h (cont a x) a) with (a_release h (a_release x a4)); [done|].
  apply bst_eq.
  - done.
  - cbn [refs a_release a_put]. rewrite nrefs_release by lia. rewrite decide_False, N1, N2 by done.
    unfold a4. cbn [refs a_read a_update a_write]. rewrite nrefs_read, decide_False, !Hz, insert_insert_ne, put_refs_gone by (done || by rewrite ?lookup_insert_ne).
    by apply put_refs_gone.
  - unfold a4. cbn [hold a_read a_update a_write a_release a_put]. rewrite Eho. set_solver.
  - intros n. unfold a4. cbn [adisk cont a_read a_update a_write a_release a_put]. by rewrite fn_lookup_insert.
  - unfold a4. cbn [awrites cont a_read a_update a_write a_release a_put]. by rewrite fn_lookup_insert.
Qed.

(** A commit copies the block and unpins it. *)
Lemma wp_install_commit a f i x h Q :
  brep me a (bc f) → ldev (lg f) = ROOTDEV → u32 (lstart (lg f) + i + 1) = x → u32 (lh_block (lg f) i) = h → logged x h a →
  (∀ c', brep me (a_install h (cont a x) a) c' → Q tt (set_fsys (set_bc c' f) s)) →
  wp (install_block false i) (set_fsys f s) Q.
Proof.
  intros R Ed Ex Eh [L1 L2 L3 [L4 L5] L6 L7] HQ. pose proof (nrefs_pos _ _ _ _ R L3) as Hp.
  assert (nrefs a x = 0) as Ex0 by (unfold nrefs; by rewrite L2).
  apply (wp_install_prefix a f i x h _ (λ l d, when (negb false) (bunpin d) ;; brelse l ;; brelse d)); try done; [by left|].
  intros b1 b2 c R1 H1 H2. set (a4 := a_write h _) in *.
  assert (nrefs a4 x = 1 ∧ nrefs a4 h = nrefs a h + 1) as [N1 N2].
  { change (nrefs a4) with (nrefs (a_read h (a_read x a))). rewrite (nrefs_read h h), (nrefs_read h x), !(nrefs_read x), Ex0.
    repeat case_decide; try congruence; lia. }
  apply wp_bind, (wp_bunpin me a4 b2 h); [done|done|done|lia|]. intros c' R' K'. cbn [bc set_bc] in K'.
  assert (handle c' b1 x ∧ handle c' b2 h) as [H1' H2'] by (split; apply K'; [|done| |done]; unfold a4; cbn [refs a_read a_update a_write]; set_solver).
  set (a5 := a_pin (-1) h a4) in *.
  assert (nrefs a5 x = 1 ∧ nrefs a5 h = nrefs a h) as [N1' N2'].
  { unfold a5. rewrite !nrefs_pin. repeat case_decide; try congruence; lia. }
  apply wp_bind, (wp_brelse me a5 b1 x); [done|done|done|unfold a5, a4; cbn [hold a_read a_update a_write a_pin]; set_solver| |].
  { intros _. unfold a5, a4. cbn [cont adisk a_read a_update a_write a_pin]. rewrite !fn_lookup_insert_ne by done. by apply R. }
  intros c5 R5 K5. cbn [bc set_bc] in K5.
  apply (wp_brelse me (a_release x a5) b2 h); [done|done|apply K5; [unfold a5, a4; cbn [refs a_read a_update a_write a_pin]; set_solver|done]|
    unfold a5, a4; cbn [hold a_read a_update a_write a_release a_pin]; set_solver| |].
  { intros _. unfold a5, a4. cbn [cont adisk a_read a_update a_write a_release a_pin]. by rewrite !fn_lookup_insert. }
  intros c6 R6 _. apply (HQ c6). replace (a_install h (cont a x) a) with (a_release h (a_release x a5)); [done|].
  apply bst_eq.
  - done.
  - cbn [refs a_release a_install]. rewrite nrefs_release by lia. rewrite decide_False, N1', N2' by done.
    unfold a5. cbn [refs a_pin]. rewrite N2. unfold a4. cbn [refs a_read a_update a_write].
    rewrite nrefs_read, decide_False, Ex0, insert_insert_eq by done. replace (nrefs a h + 1 + -1) with (nrefs a h) by lia.
    rewrite insert_insert_ne by done. change (1 - 1) with 0. change (0 + 1) with 1.
    rewrite put_refs_gone by (by rewrite lookup_insert_ne). by rewrite insert_id by (by apply dom_nrefs).
  - unfold a5, a4. cbn [hold a_read a_update a_write a_release a_pin a_install]. set_solver.
  - intros n. unfold a5, a4. cbn [adisk cont a_read a_update a_write a_release a_pin a_install]. by rewrite fn_lookup_insert.
  - unfold a5, a4. cbn [awrites cont a_read a_update a_write a_release a_pin a_install]. by rewrite fn_lookup_insert.
Qed.
End blocks.

(** ** Sequences of writes *)

Definition apply_writes (l : list (Z * memory)) (d : Z → memory) : Z → memory :=
  foldl (λ d p, <[p.1 := p.2]> d) d l.

Definition a_puts (l : list (Z * memory)) (a : bst) : bst :=
  mkBst (apply_writes l (cont a)) (refs a) (hold a) (apply_writes l (adisk a)) (awrites a ++ l).

Lemma apply_writes_app l1 l2 d : apply_writes (l1 ++ l2) d = apply_writes l2 (apply_writes l1 d).
Proof. apply foldl_app. Qed.

Lemma a_puts_snoc l x v a : a_put x v (a_puts l a) = a_puts (l ++ [(x, v)]) a.
Proof. unfold a_put, a_puts. simpl. by rewrite !apply_writes_app, app_assoc. Qed.

Lemma a_puts_nil a : a_puts [] a = a.
Proof. unfold a_puts. simpl. rewrite app_nil_r. by destruct a. Qed.

Lemma apply_writes_other l d n : n ∉ l.*1 → apply_writes l d n = d n.
Proof.
  revert d. induction l as [|[x v] l IH]; intros d Hn; [done|]. simpl in *. rewrite IH by set_solver.
  rewrite fn_lookup_insert_ne; [done|]. set_solver.
Qed.

Lemma apply_writes_in l d n v : NoDup l.*1 → (n, v) ∈ l → apply_writes l d n = v.
Proof.
  revert d. induction l as [|[x w] l IH]; intros d D Hin; [by apply elem_of_nil in Hin|].
  cbn [fmap list_fmap fst] in D. apply NoDup_cons in D as [Dx D]. change (apply_writes l (<[x := w]> d) n = v). apply elem_of_cons in Hin as [[= <- <-]|Hin].
  - rewrite apply_writes_other by done. apply fn_lookup_insert.
  - by apply IH.
Qed.

(** The pairs [(t i, v i)] for [i] below [n]. *)
Definition pairs (n : Z) (t : Z → Z) (v : Z → memory) : list (Z * memory) := (λ i, (t i, v i)) <$> seqZ 0 n.

Lemma pairs_fst n t v : (pairs n t v).*1 = t <$> seqZ 0 n.
Proof. unfold pairs. rewrite <-list_fmap_compose. done. Qed.

Lemma pairs_keys n t v x : x ∈ (pairs n t v).*1 ↔ ∃ i, 0 ≤ i < n ∧ x = t i.
Proof.
  rewrite pairs_fst, list_elem_of_fmap. split.
  - intros (i & -> & Hi%elem_of_seqZ). exists i. split; [lia|done].
  - intros (i & Hi & ->). exists i. split; [done|]. apply elem_of_seqZ. lia.
Qed.

Lemma pairs_elem n t v i : 0 ≤ i < n → (t i, v i) ∈ pairs n t v.
Proof. intros Hi. apply list_elem_of_fmap. exists i. split; [done|]. apply elem_of_seqZ. lia. Qed.

Lemma pairs_NoDup n t v : (∀ i j, 0 ≤ i < n → 0 ≤ j < n → t i = t j → i = j) → NoDup (pairs n t v).*1.
Proof.
  intros Hinj. rewrite pairs_fst. apply NoDup_fmap_2_strong; [|apply NoDup_seqZ].
  intros i j Hi%elem_of_seqZ Hj%elem_of_seqZ. apply Hinj; lia.
Qed.

Lemma pairs_snoc k t v : 0 ≤ k → pairs (k + 1) t v = pairs k t v ++ [(t k, v k)].
Proof. intros Hk. unfold pairs. rewrite seqZ_app, fmap_app by lia. done. Qed.
End logops.
