(* ===== verification/LogCommit.v ===== *)
(** * Crash safety of the log

    [commit] writes the blocks of a transaction to the log, then the header,
    then the home locations, then an empty header.  A crash after any of these
    writes, followed by [initlog], leaves all of the transaction or nothing. *)

From Stdlib Require Import FunctionalExtensionality.
From S2P Require Import Prelude Riscv Memory Kalloc Vm Spinlock Proc ProcOps FsState Sleeplock Bio BioOps Log LogOps.

(** ** The header block *)

Definition put_blocks (k : Z) (blk : Z → Z) (m : memory) : memory :=
  foldl (λ m i, set_hdr_block i (blk i) m) m (seqZ 0 k).
Definition put_hdr (n : Z) (blk : Z → Z) (m : memory) : memory := put_blocks n blk (set_hdr_n n m).

Lemma put_blocks_succ k blk m : 0 ≤ k → put_blocks (k + 1) blk m = set_hdr_block k (blk k) (put_blocks k blk m).
Proof. intros Hk. unfold put_blocks. rewrite seqZ_app, foldl_app by lia. done. Qed.

Lemma put_blocks_n k blk m : 0 ≤ k → hdr_n (put_blocks k blk m) = hdr_n m.
Proof.
  intros Hk. revert k Hk. apply (natlike_ind (λ k, hdr_n (put_blocks k blk m) = hdr_n m)); [done|].
  intros k Hk IH. unfold Z.succ. rewrite put_blocks_succ by done. unfold hdr_n, set_hdr_block, load32, store32 in *.
  rewrite load_store_other by lia. done.
Qed.

Lemma put_blocks_block k blk m i : 0 ≤ i < k → 0 ≤ blk i < 2 ^ 31 → hdr_block (put_blocks k blk m) i = blk i.
Proof.
  intros Hi Hb. assert (0 ≤ k) as Hk by lia. revert k Hk Hi.
  apply (natlike_ind (λ k, 0 ≤ i < k → hdr_block (put_blocks k blk m) i = blk i)); [lia|].
  intros k Hk IH Hi. unfold Z.succ. rewrite put_blocks_succ by done. unfold hdr_block, set_hdr_block, load32, store32 in *.
  destruct (decide (i = k)) as [->|Hne].
  - rewrite u32_small by lia. rewrite load_store_same by lia. apply s32_small. lia.
  - rewrite load_store_other by lia. apply IH. lia.
Qed.

Lemma put_hdr_n n blk m : 0 ≤ n < 2 ^ 31 → hdr_n (put_hdr n blk m) = n.
Proof.
  intros Hn. unfold put_hdr. rewrite put_blocks_n by lia. unfold hdr_n, set_hdr_n, load32, store32.
  rewrite u32_small, load_store_same by lia. apply s32_small. lia.
Qed.
Lemma put_hdr_block n blk m i : 0 ≤ i < n → 0 ≤ blk i < 2 ^ 31 → hdr_block (put_hdr n blk m) i = blk i.
Proof. apply put_blocks_block. Qed.

Section commit.
Context `{Switch fs, Patience}.
Context (me : Z) (s : K) (Qs : quiet me s).

Lemma a_update_twice n g g' a : a_update n g (a_update n g' a) = a_update n (λ m, g (g' m)) a.
Proof.
  apply bst_eq; try done. intros n'. cbn [cont a_update]. rewrite fn_lookup_insert. by fn_case n n'.
Qed.

Lemma a_update_ext n g g' a : (∀ m, g m = g' m) → a_update n g a = a_update n g' a.
Proof. intros E. unfold a_update. by rewrite E. Qed.

(** Reading and changing a block of the log area, then writing it out. *)
Lemma a_touch x g a c : brep me a c → refs a !! x = None → x ∉ hold a →
  a_release x (a_write x (a_update x g (a_read x a))) = a_put x (g (cont a x)) a.
Proof.
  intros R Hx Hh. assert (nrefs a x = 0) as E0 by (unfold nrefs; by rewrite Hx). apply bst_eq.
  - done.
  - cbn [refs a_release a_put]. change (nrefs (a_write x _) x) with (nrefs (a_read x a) x). rewrite nrefs_read, decide_True by done.
    cbn [refs a_write a_update a_read]. rewrite E0. by apply put_refs_gone.
  - cbn [hold a_release a_write a_update a_read a_put]. by apply hold_back.
  - intros n. cbn [adisk cont a_release a_write a_update a_read a_put]. by rewrite fn_lookup_insert.
  - cbn [awrites cont a_release a_write a_update a_read a_put]. by rewrite fn_lookup_insert.
Qed.

Lemma wp_write_head a f x Q :
  brep me a (bc f) → ldev (lg f) = ROOTDEV → u32 (lstart (lg f)) = x → 0 ≤ lh_n (lg f) →
  refs a !! x = None → x ∉ hold a → (size (dom (refs a)) < NBUF)%nat →
  (∀ c', brep me (a_put x (put_hdr (lh_n (lg f)) (lh_block (lg f)) (cont a x)) a) c' → Q tt (set_fsys (set_bc c' f) s)) →
  wp write_head (set_fsys f s) Q.
Proof.
  intros R Ed Ex Hn L2 L4 L6 HQ. assert (nrefs a x = 0) as Ex0 by (unfold nrefs; by rewrite L2).
  apply wp_bind, wp_fget. apply wp_bind, wp_fget. cbn [fsys set_fsys]. rewrite Ed, Ex. change (u32 ROOTDEV) with ROOTDEV.
  apply wp_bind, (wp_bread me a); [done|done|done|by right|lia|]. intros b c1 R1 H1 _.
  apply wp_bind, wp_fget. cbn [fsys set_fsys lg set_bc]. set (n := lh_n (lg f)) in *.
  apply wp_bind, (wp_bupd me (a_read x a) b x); [done|done|cbn [refs a_read]; set_solver|]. intros c2 R2 K2. cbn [bc set_bc] in K2.
  assert (handle c2 b x) as H2 by (apply K2; [cbn [refs a_read]; set_solver|done]).
  change (set_bc c2 (set_bc c1 f)) with (set_bc c2 f).
  apply wp_bind. apply (wp_for_up (λ k t, ∃ c, t = set_fsys (set_bc c f) s ∧ handle c b x ∧
    brep me (a_update x (λ m, put_blocks (Z.of_nat k) (lh_block (lg f)) (set_hdr_n n m)) (a_read x a)) c)).
  - exists c2. done.
  - intros k t Hk (c & -> & Hh & Rc). apply wp_bind, wp_fget. cbn [fsys set_fsys lg set_bc].
    eapply (wp_bupd me); [exact Rc|exact Hh|cbn [refs a_read a_update]; set_solver|]. intros c' Rc' Kc'. exists c'.
    split_and!; [done|apply Kc'; [cbn [refs a_read a_update]; set_solver|done]|]. rewrite a_update_twice in Rc'.
    replace (Z.of_nat (S k)) with (Z.of_nat k + 1) by lia. replace (0 + Z.of_nat k * 1) with (Z.of_nat k) in Rc' by lia.
    rewrite (a_update_ext x _ _ _ (λ m, put_blocks_succ (Z.of_nat k) (lh_block (lg f)) (set_hdr_n n m) ltac:(lia))). exact Rc'.
  - intros t (c & -> & Hh & Rc). rewrite Z2Nat.id in Rc by done. fold (put_hdr n (lh_block (lg f))) in Rc.
    apply wp_bind. eapply (wp_bwrite me); [done|exact Rc|exact Hh|cbn [hold a_read a_update]; set_solver|]. intros c3 R3 K3. cbn [bc set_bc] in K3.
    eapply (wp_brelse me _ b x); [done|exact R3|apply K3; [cbn [refs a_read a_update]; set_solver|done]|cbn [hold a_read a_update a_write]; set_solver| |].
    { intros _. cbn [cont adisk a_read a_update a_write]. by rewrite !fn_lookup_insert. }
    intros c4 R4 _. apply (HQ c4). by rewrite (a_touch x _ a (bc f)) in R4.
Qed.

(** ** commit *)

(** The header block and the blocks after it. *)
Definition in_log (l : logst) (x : Z) : Prop := lstart l ≤ x ≤ lstart l + LOGBLOCKS.

(** A transaction ready to commit: its blocks are distinct, pinned, outside the
    log, and nobody uses a block of the log.  One buffer must be free for the
    blocks of the log. *)
Record txn (l : logst) (a : bst) : Prop := {
  tx_dev : ldev l = ROOTDEV;
  tx_start : 0 ≤ lstart l ∧ lstart l + LOGBLOCKS < 2 ^ 31;
  tx_n : 0 < lh_n l ≤ LOGBLOCKS;
  tx_home i : 0 ≤ i < lh_n l → 0 ≤ lh_block l i < 2 ^ 31 ∧ ¬ in_log l (lh_block l i);
  tx_inj i j : 0 ≤ i < lh_n l → 0 ≤ j < lh_n l → lh_block l i = lh_block l j → i = j;
  tx_pinned i : 0 ≤ i < lh_n l → lh_block l i ∈ dom (refs a) ∧ nrefs a (lh_block l i) + 2 < 2 ^ 32;
  tx_log x : in_log l x → refs a !! x = None;
  tx_hold : hold a = ∅;
  tx_room : (size (dom (refs a)) < NBUF)%nat;
}.

Definition slot (l : logst) (i : Z) : Z := lstart l + i + 1.

Lemma slot_in_log l a i : txn l a → 0 ≤ i < lh_n l → in_log l (slot l i).
Proof. intros T Hi. pose proof (tx_n _ _ T). unfold in_log, slot. lia. Qed.

Lemma slot_u32 l a i : txn l a → 0 ≤ i < lh_n l → u32 (slot l i) = slot l i.
Proof. intros T Hi. pose proof (tx_n _ _ T). pose proof (tx_start _ _ T). apply u32_small. unfold slot. lia. Qed.
Lemma home_u32 l a i : txn l a → 0 ≤ i < lh_n l → u32 (lh_block l i) = lh_block l i.
Proof. intros T Hi. destruct (tx_home _ _ T i Hi). apply u32_small. lia. Qed.

(** The transaction does not depend on the contents. *)
Lemma txn_refs l a a' : txn l a → refs a' = refs a → hold a' = hold a → txn l a'.
Proof.
  intros [] Er Eh. split; try done; unfold nrefs in *; rewrite ?Er, ?Eh; done.
Qed.

Lemma txn_logged l a i : txn l a → 0 ≤ i < lh_n l → logged (slot l i) (lh_block l i) a.
Proof.
  intros T Hi. pose proof (slot_in_log l a i T Hi) as Hs. destruct (tx_home _ _ T i Hi) as [_ Hh]. destruct (tx_pinned _ _ T i Hi).
  split; [by intros E; rewrite <-E in Hh|by apply T|done|rewrite (tx_hold _ _ T); set_solver|apply T|done].
Qed.

Definition log_writes (l : logst) (a : bst) (k : Z) : list (Z * memory) := pairs k (slot l) (λ i, cont a (lh_block l i)).
Definition home_writes (l : logst) (a : bst) (k : Z) : list (Z * memory) := pairs k (lh_block l) (λ i, cont a (lh_block l i)).

Lemma log_writes_keys l a k x : txn l a → 0 ≤ k ≤ lh_n l → x ∈ (log_writes l a k).*1 → in_log l x ∧ x ≠ lstart l.
Proof.
  intros T Hk (i & Hi & ->)%pairs_keys. split; [apply (slot_in_log l a); [done|lia]|unfold slot; lia].
Qed.
Lemma home_writes_keys l a k x : txn l a → 0 ≤ k ≤ lh_n l → x ∈ (home_writes l a k).*1 → ¬ in_log l x.
Proof. intros T Hk (i & Hi & ->)%pairs_keys. apply (tx_home _ _ T). lia. Qed.

Lemma wp_write_log a f Q :
  brep me a (bc f) → txn (lg f) a →
  (∀ c', brep me (a_puts (log_writes (lg f) a (lh_n (lg f))) a) c' → Q tt (set_fsys (set_bc c' f) s)) →
  wp write_log (set_fsys f s) Q.
Proof.
  intros R T HQ. apply wp_bind, wp_fget. cbn [fsys set_fsys]. set (l := lg f) in *. pose proof (tx_n _ _ T) as Hn.
  apply (wp_for_up (λ k t, ∃ c, t = set_fsys (set_bc c f) s ∧ brep me (a_puts (log_writes l a (Z.of_nat k)) a) c)).
  - exists (bc f). split; [by destruct f|]. by rewrite a_puts_nil.
  - intros k t Hk (c & -> & Rc). replace (0 + Z.of_nat k * 1) with (Z.of_nat k) by lia. set (i := Z.of_nat k).
    assert (0 ≤ i < lh_n l) as Hi by lia.
    apply (wp_log_block me s Qs (a_puts (log_writes l a i) a) _ i (slot l i) (lh_block l i)); [done|apply T|by apply (slot_u32 l a)|by apply (home_u32 l a)|..].
    + apply txn_logged; [|done]. by apply (txn_refs l a).
    + intros c' Rc'. exists c'. split; [done|]. rewrite a_puts_snoc in Rc'. unfold log_writes in *.
      replace (Z.of_nat (S k)) with (i + 1) by lia. rewrite pairs_snoc by lia.
      cbn [cont a_puts] in Rc'. rewrite apply_writes_other in Rc'; [done|].
      intros Hx. destruct (log_writes_keys l a i (lh_block l i) T ltac:(lia) Hx) as [Hin _]. by apply (tx_home _ _ T i Hi).
  - intros t (c & -> & Rc). rewrite Z2Nat.id in Rc by lia. by apply HQ.
Qed.

(** The references after the first [k] blocks are installed. *)
Definition unpinned (l : logst) (k : Z) (r : gmap Z Z) : gmap Z Z :=
  foldl (λ r x, put_refs x (default 0 (r !! x) - 1) r) r (lh_block l <$> seqZ 0 k).

Lemma unpinned_succ l k r : 0 ≤ k →
  unpinned l (k + 1) r = put_refs (lh_block l k) (default 0 (unpinned l k r !! lh_block l k) - 1) (unpinned l k r).
Proof. intros Hk. unfold unpinned. rewrite seqZ_app, fmap_app, foldl_app by lia. done. Qed.

Lemma unpinned_other l k r x : (∀ i, 0 ≤ i < k → x ≠ lh_block l i) → unpinned l k r !! x = r !! x.
Proof.
  destruct (decide (0 ≤ k)) as [Hk|Hk]; [|unfold unpinned; by rewrite seqZ_nil by lia]. revert k Hk.
  apply (natlike_ind (λ k, (∀ i, 0 ≤ i < k → x ≠ lh_block l i) → unpinned l k r !! x = r !! x)); [done|].
  intros k Hk IH Hx. unfold Z.succ in *. rewrite unpinned_succ, put_refs_ne by (done || apply Hx; lia). apply IH. intros i Hi. apply Hx. lia.
Qed.

Lemma unpinned_size l a k : txn l a → k ≤ lh_n l → (size (dom (unpinned l k (refs a))) < NBUF)%nat.
Proof.
  intros T Hk. apply (Nat.le_lt_trans _ (size (dom (refs a)))); [|apply T]. apply subseteq_size. intros x Hx.
  destruct (decide (x ∈ lh_block l <$> seqZ 0 k)) as [Hin|Hn].
  - apply list_elem_of_fmap in Hin as (i & -> & Hi%elem_of_seqZ). apply (tx_pinned _ _ T). lia.
  - apply elem_of_dom in Hx as [v Hv]. rewrite unpinned_other in Hv; [by apply elem_of_dom|].
    intros i Hi ->. apply Hn, list_elem_of_fmap. exists i. split; [done|]. apply elem_of_seqZ. lia.
Qed.

Definition a_installs (l : logst) (v : Z → memory) (k : Z) (a : bst) : bst :=
  mkBst (apply_writes (pairs k (lh_block l) v) (cont a)) (unpinned l k (refs a)) (hold a)
        (apply_writes (pairs k (lh_block l) v) (adisk a)) (awrites a ++ pairs k (lh_block l) v).

Lemma a_installs_succ l v k a : 0 ≤ k → a_install (lh_block l k) (v k) (a_installs l v k a) = a_installs l v (k + 1) a.
Proof.
  intros Hk. unfold a_install, a_installs. cbn [cont refs hold adisk awrites]. rewrite pairs_snoc, !apply_writes_app, app_assoc by done.
  f_equal. by rewrite unpinned_succ.
Qed.

(** The part of the transaction that is not installed yet. *)
Lemma installs_logged l a v k : txn l a → 0 ≤ k < lh_n l → logged (slot l k) (lh_block l k) (a_installs l v k a).
Proof.
  intros T Hk. destruct (txn_logged l a k T Hk) as [a1 a2 a3 a4 a5 a6].
  assert (unpinned l k (refs a) !! lh_block l k = refs a !! lh_block l k) as Eh.
  { apply unpinned_other. intros i Hi E. apply (tx_inj _ _ T k i) in E; lia. }
  split; cbn [refs hold a_installs]; try done.
  - rewrite unpinned_other; [done|]. intros i Hi E. apply (tx_home _ _ T i ltac:(lia)). rewrite <-E. by apply (slot_in_log l a).
  - apply elem_of_dom. rewrite Eh. by apply elem_of_dom.
  - apply (unpinned_size l a); [done|lia].
  - unfold nrefs in *. cbn [refs a_installs]. by rewrite Eh.
Qed.

Lemma wp_install_commits a f v Q :
  brep me a (bc f) → txn (lg f) a → (∀ i, 0 ≤ i < lh_n (lg f) → cont a (slot (lg f) i) = v i) →
  (∀ c', brep me (a_installs (lg f) v (lh_n (lg f)) a) c' → Q tt (set_fsys (set_bc c' f) s)) →
  wp (install_trans false) (set_fsys f s) Q.
Proof.
  intros R T Hv HQ. apply wp_bind, wp_fget. cbn [fsys set_fsys]. set (l := lg f) in *. pose proof (tx_n _ _ T) as Hn.
  apply (wp_for_up (λ k t, ∃ c, t = set_fsys (set_bc c f) s ∧ brep me (a_installs l v (Z.of_nat k) a) c)).
  - exists (bc f). split; [by destruct f|]. unfold a_installs. simpl. rewrite app_nil_r. by destruct a.
  - intros k t Hk (c & -> & Rc). replace (0 + Z.of_nat k * 1) with (Z.of_nat k) by lia. set (i := Z.of_nat k) in *.
    assert (0 ≤ i < lh_n l) as Hi by lia.
    apply (wp_install_commit me s Qs (a_installs l v i a) _ i (slot l i) (lh_block l i)); [done|apply T|by apply (slot_u32 l a)|by apply (home_u32 l a)|..].
    + by apply installs_logged.
    + intros c' Rc'. exists c'. split; [done|]. replace (Z.of_nat (S k)) with (i + 1) by lia. rewrite <-a_installs_succ by lia.
      cbn [cont a_installs] in Rc'. rewrite apply_writes_other in Rc'; [by rewrite (Hv i Hi) in Rc'|].
      intros (j & Hj & E)%pairs_keys. apply (tx_home _ _ T j ltac:(lia)). rewrite <-E. by apply (slot_in_log l a).
  - intros t (c & -> & Rc). rewrite Z2Nat.id in Rc by lia. by apply HQ.
Qed.

(** The writes of a commit, in order. *)
Definition commit_writes (l : logst) (a : bst) : list (Z * memory) :=
  let h := put_hdr (lh_n l) (lh_block l) (cont a (lstart l)) in
  log_writes l a (lh_n l) ++ [(lstart l, h)] ++ home_writes l a (lh_n l) ++ [(lstart l, put_hdr 0 (lh_block l) h)].

Definition a_commit (l : logst) (a : bst) : bst :=
  mkBst (apply_writes (commit_writes l a) (cont a)) (unpinned l (lh_n l) (refs a)) (hold a)
        (apply_writes (commit_writes l a) (adisk a)) (awrites a ++ commit_writes l a).

Lemma commit_eq l a :
  let h := put_hdr (lh_n l) (lh_block l) (cont a (lstart l)) in
  a_put (lstart l) (put_hdr 0 (lh_block l) h)
    (a_installs l (λ i, cont a (lh_block l i)) (lh_n l) (a_put (lstart l) h (a_puts (log_writes l a (lh_n l)) a))) = a_commit l a.
Proof.
  intros h. unfold a_commit, commit_writes. fold h. unfold a_put, a_installs, a_puts. cbn [cont refs hold adisk awrites].
  fold (home_writes l a (lh_n l)). by rewrite !apply_writes_app, <-!app_assoc.
Qed.

Definition emptied (l : logst) : logst := set_lh 0 (lh_block l) l.

Lemma wp_commit a f Q :
  brep me a (bc f) → txn (lg f) a →
  (∀ c', brep me (a_commit (lg f) a) c' → Q tt (set_fsys (set_lg (emptied (lg f)) (set_bc c' f)) s)) →
  wp commit (set_fsys f s) Q.
Proof.
  intros R T HQ. apply wp_bind, wp_fget. cbn [fsys set_fsys]. pose proof (tx_n _ _ T) as Hn. pose proof (tx_start _ _ T) as Hst.
  set (l := lg f) in *. assert (u32 (lstart l) = lstart l) as Est by (apply u32_small; unfold LOGBLOCKS, MAXOPBLOCKS in *; lia).
  assert (in_log l (lstart l)) as Hin by (unfold in_log, LOGBLOCKS, MAXOPBLOCKS; lia).
  destruct (Z.ltb_spec 0 (lh_n l)); [|lia]. cbn [when]. apply wp_bind, (wp_write_log a); [done|done|]. intros c1 R1.
  set (a1 := a_puts _ a) in *. assert (txn l a1) as T1 by (by apply (txn_refs l a)).
  assert (cont a1 (lstart l) = cont a (lstart l)) as E1.
  { apply apply_writes_other. intros Hx. by destruct (log_writes_keys l a (lh_n l) _ T ltac:(lia) Hx). }
  apply wp_bind, (wp_write_head a1 _ (lstart l)); [done|apply T|done|change (0 ≤ lh_n l); lia|by apply T1|rewrite (tx_hold _ _ T1); set_solver|apply T1|].
  intros c2 R2. cbn [lg set_bc] in R2. fold l in R2. rewrite E1 in R2. set (h := put_hdr _ _ _) in *.
  set (a2 := a_put _ h a1) in *. assert (txn l a2) as T2 by (by apply (txn_refs l a)).
  assert (∀ i, 0 ≤ i < lh_n l → cont a2 (slot l i) = cont a (lh_block l i)) as Hv.
  { intros i Hi. unfold a2. cbn [cont a_put]. rewrite fn_lookup_insert_ne by (unfold slot; lia). unfold a1. cbn [cont a_puts].
    apply apply_writes_in; [|exact (pairs_elem _ (slot l) (λ i, cont a (lh_block l i)) i Hi)]. apply pairs_NoDup. unfold slot. lia. }
  apply wp_bind, (wp_install_commits a2 _ (λ i, cont a (lh_block l i))); [done|done|done|]. intros c3 R3.
  cbn [lg set_bc] in R3. fold l in R3. fold (home_writes l a) in R3. set (a3 := a_installs _ _ _ a2) in *.
  apply wp_bind, wp_fmod. cbn [fsys set_fsys lg set_bc]. fold l.
  apply (wp_write_head a3 _ (lstart l)); [done|apply T|done|done|..].
  { unfold a3. cbn [refs a_installs]. rewrite unpinned_other; [by apply T2|]. intros i Hi E. apply (tx_home _ _ T i Hi). by rewrite <-E. }
  { unfold a3. cbn [hold a_installs]. rewrite (tx_hold _ _ T2). set_solver. }
  { apply (unpinned_size l a2); [done|lia]. }
  intros c4 R4. cbn [lg set_lg set_bc emptied set_lh lh_n lh_block] in R4. apply (HQ c4).
  assert (cont a3 (lstart l) = h) as E3.
  { unfold a3. cbn [cont a_installs]. rewrite apply_writes_other; [unfold a2; cbn [cont a_put]; apply fn_lookup_insert|].
    intros Hx. by apply (home_writes_keys l a (lh_n l) _ T ltac:(lia)) in Hx. }
  rewrite E3 in R4. rewrite <-(commit_eq l a). exact R4.
Qed.
End commit.
