(* ===== verification/LogRecover.v ===== *)
(** * Recovery

    What [initlog] does to the disk it finds, and the theorem on crashes. *)

From Stdlib Require Import FunctionalExtensionality.
From S2P Require Import Prelude Riscv Memory Kalloc Vm Spinlock Proc ProcOps FsState Sleeplock Bio BioOps BioSpec Log LogOps LogCommit.

(** The log area that starts at block [ls]. *)
Definition log_area (ls x : Z) : Prop := ls ≤ x ≤ ls + LOGBLOCKS.

(** A header that lists blocks outside the log. *)
Record hdr_ok (ls : Z) (m : memory) : Prop := {
  ho_n : 0 ≤ hdr_n m ≤ LOGBLOCKS;
  ho_block i : 0 ≤ i < hdr_n m → 0 ≤ hdr_block m i < 2 ^ 31 ∧ ¬ log_area ls (hdr_block m i);
}.

(** The disk with the blocks that its log lists copied to their places. *)
Definition redo (ls : Z) (d : Z → memory) : Z → memory :=
  apply_writes (pairs (hdr_n (d ls)) (hdr_block (d ls)) (λ i, d (ls + i + 1))) d.

Section recover.
Context `{Switch fs, Patience}.
Context (me : Z) (s : K) (Qs : quiet me s).

Lemma quiet_relock l f : set_lks (<[l := initlock]> (lks s)) (set_fsys f s) = set_fsys f s.
Proof.
  unfold set_lks, set_fsys. simpl. f_equal. extensionality l'. fn_case l l'; [symmetry; apply Qs|done].
Qed.

(** Reading a block and releasing it. *)
Lemma a_peek x a c : brep me a c → refs a !! x = None → x ∉ hold a → a_release x (a_read x a) = a.
Proof.
  intros R Hx Hh. assert (nrefs a x = 0) as E0 by (unfold nrefs; by rewrite Hx). apply bst_eq; try done.
  - cbn [refs a_release]. rewrite nrefs_read, decide_True by done. cbn [refs a_read]. rewrite E0. by apply put_refs_gone.
  - cbn [hold a_release a_read]. by apply hold_back.
Qed.

Lemma wp_read_head a f x Q :
  brep me a (bc f) → ldev (lg f) = ROOTDEV → u32 (lstart (lg f)) = x → refs a = ∅ → hold a = ∅ → 0 ≤ hdr_n (cont a x) →
  (∀ c' blk, brep me a c' → (∀ i, 0 ≤ i < hdr_n (cont a x) → blk i = hdr_block (cont a x) i) →
     Q tt (set_fsys (set_lg (set_lh (hdr_n (cont a x)) blk (lg f)) (set_bc c' f)) s)) →
  wp read_head (set_fsys f s) Q.
Proof.
  intros R Ed Ex Er Eh Hn HQ. assert (refs a !! x = None) as L2 by (by rewrite Er). assert (x ∉ hold a) as L4 by (rewrite Eh; set_solver).
  assert (nrefs a x = 0) as Ex0 by (unfold nrefs; by rewrite L2).
  apply wp_bind, wp_fget. apply wp_bind, wp_fget. cbn [fsys set_fsys]. rewrite Ed, Ex. change (u32 ROOTDEV) with ROOTDEV.
  apply wp_bind, (wp_bread me a); [done|done|done|right; rewrite Er; by apply Nat.ltb_lt|lia|]. intros b c1 R1 H1 _.
  apply wp_bind, wp_bget_. cbn [bc set_bc]. rewrite (handle_data me _ _ _ _ R1 H1) by (cbn [refs a_read]; set_solver). cbn [cont a_read].
  set (m := cont a x) in *. apply wp_bind, wp_fmod. cbn [fsys set_fsys lg set_bc].
  apply wp_bind. apply (wp_for_up (λ k t, ∃ blk, t = set_fsys (set_lg (set_lh (hdr_n m) blk (lg f)) (set_bc c1 f)) s ∧
    ∀ i, 0 ≤ i < Z.of_nat k → blk i = hdr_block m i)).
  - eexists. split; [done|]. lia.
  - intros k t Hk (blk & -> & Hb). apply wp_fmod. eexists. split; [done|]. cbn [fsys set_fsys lg set_lg set_lh lh_block].
    replace (0 + Z.of_nat k * 1) with (Z.of_nat k) by lia. intros i Hi. destruct (decide (i = Z.of_nat k)) as [->|Hne].
    + apply fn_lookup_insert.
    + rewrite fn_lookup_insert_ne by done. apply Hb. lia.
  - intros t (blk & -> & Hb). rewrite Z2Nat.id in Hb by done.
    apply (wp_brelse me (a_read x a) b x); [done|done|done|cbn [hold a_read]; set_solver|intros _; by apply R|].
    intros c2 R2 _. rewrite (a_peek x a (bc f)) in R2 by done. by apply (HQ c2 blk).
Qed.

(** Installing the blocks of a valid header [m]. *)
Lemma wp_install_recovers a f ls n Q :
  brep me a (bc f) → refs a = ∅ → hold a = ∅ → ldev (lg f) = ROOTDEV → lstart (lg f) = ls → 0 ≤ ls → ls + LOGBLOCKS < 2 ^ 31 →
  lh_n (lg f) = n → 0 ≤ n ≤ LOGBLOCKS →
  (∀ i, 0 ≤ i < n → 0 ≤ lh_block (lg f) i < 2 ^ 31 ∧ ¬ log_area ls (lh_block (lg f) i)) →
  (∀ c', brep me (a_puts (pairs n (lh_block (lg f)) (λ i, cont a (ls + i + 1))) a) c' → Q tt (set_fsys (set_bc c' f) s)) →
  wp (install_trans true) (set_fsys f s) Q.
Proof.
  intros R Er Eh Ed Es Hls Hle En Hn Hb HQ. apply wp_bind, wp_fget. cbn [fsys set_fsys]. rewrite En. set (l := lg f) in *.
  apply (wp_for_up (λ k t, ∃ c, t = set_fsys (set_bc c f) s ∧
    brep me (a_puts (pairs (Z.of_nat k) (lh_block l) (λ i, cont a (ls + i + 1))) a) c)).
  - exists (bc f). split; [by destruct f|]. by rewrite a_puts_nil.
  - intros k t Hk (c & -> & Rc). replace (0 + Z.of_nat k * 1) with (Z.of_nat k) by lia. set (i := Z.of_nat k) in *.
    assert (0 ≤ i < n) as Hi by lia. destruct (Hb i Hi) as [Hbi Hli].
    assert (log_area ls (ls + i + 1)) as Hsl by (unfold log_area; lia).
    eapply (wp_install_recover me s Qs _ _ i (ls + i + 1) (lh_block l i)); [exact Rc|done| | | |done|done|].
    + cbn [lg set_bc]. fold l. rewrite Es. apply u32_small. unfold LOGBLOCKS, MAXOPBLOCKS in *. lia.
    + apply u32_small. lia.
    + intros E. by rewrite <-E in Hli.
    + intros c' Rc'. exists c'. split; [done|]. rewrite a_puts_snoc in Rc'. replace (Z.of_nat (S k)) with (i + 1) by lia.
      rewrite pairs_snoc by lia. cbn [cont a_puts] in Rc'. rewrite apply_writes_other in Rc'; [done|].
      intros (j & Hj & E)%pairs_keys. destruct (Hb j ltac:(lia)) as [_ Hn']. by rewrite <-E in Hn'.
  - intros t (c & -> & Rc). rewrite Z2Nat.id in Rc by lia. by apply HQ.
Qed.

Lemma wp_initlog d w f sbk ls Q :
  brep me (a_clean d w) (bc f) → s32 (logstart sbk) = ls → 0 ≤ ls → ls + LOGBLOCKS < 2 ^ 31 → hdr_ok ls (d ls) →
  (∀ a' c' l', brep me a' c' → refs a' = ∅ → hold a' = ∅ → hdr_n (adisk a' ls) = 0 →
     (∀ x, ¬ log_area ls x → adisk a' x = redo ls d x) → (∃ blk, l' = set_lh 0 blk (set_lplace ls ROOTDEV (lg f))) →
     Q tt (set_fsys (set_lg l' (set_bc c' f)) s)) →
  wp (initlog ROOTDEV sbk) (set_fsys f s) Q.
Proof.
  intros R Els Hls Hle [Hn Hb] HQ. apply wp_bind, wp_modify. cbn [lks set_fsys]. rewrite quiet_relock.
  apply wp_bind, wp_fmod. cbn [fsys set_fsys]. rewrite Els. set (l := set_lplace ls ROOTDEV (lg f)).
  assert (u32 ls = ls) as Eu by (apply u32_small; unfold LOGBLOCKS, MAXOPBLOCKS in *; lia).
  apply wp_bind, (wp_read_head (a_clean d w) _ ls); [done|done|done|done|done|apply Hn|]. intros c1 blk R1 Hblk. cbn [cont a_clean] in *.
  set (m := d ls) in *. set (n := hdr_n m) in *. cbn [lg set_lg].
  apply wp_bind, (wp_install_recovers (a_clean d w) _ ls n); try done; [intros i Hi; simpl; rewrite Hblk by done; by apply Hb|].
  intros c2 R2. cbn [lg set_lg set_lh lh_block cont a_clean] in R2.
  assert (pairs n blk (λ i, d (ls + i + 1)) = pairs n (hdr_block m) (λ i, d (ls + i + 1))) as Ep.
  { unfold pairs. apply list_fmap_ext. intros k i Hi%list_elem_of_lookup_2%elem_of_seqZ. by rewrite Hblk by lia. }
  rewrite Ep in R2. set (W := pairs n (hdr_block m) _) in *.
  apply wp_bind, wp_fmod. apply (wp_write_head me s Qs (a_puts W (a_clean d w)) _ ls); try done; [by apply Nat.ltb_lt|].
  intros c3 R3. cbn [lg set_lg set_bc set_lh lh_n lh_block fsys set_fsys] in R3.
  eapply (HQ _ c3); [exact R3|done|done| | |by eexists].
  - cbn [adisk a_put]. rewrite fn_lookup_insert. by apply put_hdr_n.
  - intros x Hx. cbn [adisk a_put a_puts a_clean]. rewrite fn_lookup_insert_ne; [done|].
    intros <-. apply Hx. unfold log_area, LOGBLOCKS, MAXOPBLOCKS. lia.
Qed.
End recover.

(** ** Crashes *)

Section crash.
Context `{Switch fs, Patience}.
Context (l : logst) (a : bst) (T : txn l a) (Hclean : hdr_n (adisk a (lstart l)) = 0).
Let ls := lstart l.
Let n := lh_n l.
Let d0 := adisk a.

(** The disk with the blocks of the transaction in place. *)
Definition after : Z → memory := apply_writes (home_writes l a n) d0.

Lemma log_start : log_area ls ls.
Proof. unfold log_area, LOGBLOCKS, MAXOPBLOCKS. lia. Qed.

Lemma home_NoDup k : k ≤ n → NoDup (home_writes l a k).*1.
Proof. intros Hk. apply pairs_NoDup. intros i j Hi Hj. apply (tx_inj _ _ T); lia. Qed.

Lemma after_home i : 0 ≤ i < n → after (lh_block l i) = cont a (lh_block l i).
Proof.
  intros Hi. apply apply_writes_in; [by apply home_NoDup|]. exact (pairs_elem n (lh_block l) (λ i, cont a (lh_block l i)) i Hi).
Qed.

(** Writing the blocks of the transaction over a disk that agrees on the rest. *)
Lemma after_over D x : (x ∉ (home_writes l a n).*1 → D x = d0 x) → apply_writes (home_writes l a n) D x = after x.
Proof.
  intros Hx. destruct (decide (x ∈ (home_writes l a n).*1)) as [Hin|Hn].
  - pose proof Hin as (i & Hi & ->)%pairs_keys. rewrite after_home by done.
    apply apply_writes_in; [by apply home_NoDup|]. exact (pairs_elem n (lh_block l) (λ i, cont a (lh_block l i)) i Hi).
  - unfold after. rewrite !apply_writes_other by done. by apply Hx.
Qed.

Lemma redo_empty D : hdr_n (D ls) = 0 → redo ls D = D.
Proof. intros E. unfold redo. by rewrite E. Qed.

Lemma empty_hdr_ok m : hdr_n m = 0 → hdr_ok ls m.
Proof. intros E. split; rewrite E; [unfold LOGBLOCKS, MAXOPBLOCKS; lia|lia]. Qed.

Let h := put_hdr n (lh_block l) (cont a ls).

Lemma commit_hdr : hdr_n h = n ∧ ∀ i, 0 ≤ i < n → hdr_block h i = lh_block l i.
Proof.
  pose proof (tx_n _ _ T). split; [apply put_hdr_n; unfold LOGBLOCKS, MAXOPBLOCKS in *; lia|].
  intros i Hi. apply put_hdr_block; [done|]. by apply (tx_home _ _ T i).
Qed.

Lemma commit_hdr_ok : hdr_ok ls h.
Proof.
  destruct commit_hdr as [E1 E2]. pose proof (tx_n _ _ T). split; rewrite E1; [unfold n; lia|].
  intros i Hi. rewrite E2 by done. by apply (tx_home _ _ T i).
Qed.

(** A crash before the header is written. *)
Lemma crash_before k : 0 ≤ k ≤ n →
  let D := apply_writes (log_writes l a k) d0 in hdr_ok ls (D ls) ∧ ∀ x, ¬ log_area ls x → redo ls D x = d0 x.
Proof.
  intros Hk D. assert (D ls = d0 ls) as E.
  { apply apply_writes_other. intros Hx. by destruct (log_writes_keys l a k _ T Hk Hx). }
  rewrite E. split; [by apply empty_hdr_ok|]. intros x Hx. rewrite redo_empty by (by rewrite E).
  apply apply_writes_other. intros Hin. by destruct (log_writes_keys l a k _ T Hk Hin).
Qed.

(** A crash after the header and [k] blocks are written. *)
Lemma crash_between k : 0 ≤ k ≤ n →
  let D := apply_writes (home_writes l a k) (<[ls := h]> (apply_writes (log_writes l a n) d0)) in
  hdr_ok ls (D ls) ∧ ∀ x, ¬ log_area ls x → redo ls D x = after x.
Proof.
  intros Hk D. assert (∀ x, log_area ls x → x ∉ (home_writes l a k).*1) as Hout.
  { intros x Hx Hin. by apply (home_writes_keys l a k x T Hk) in Hin. }
  assert (D ls = h) as E by (unfold D; rewrite apply_writes_other by (apply Hout, log_start); apply fn_lookup_insert).
  assert (∀ i, 0 ≤ i < n → D (ls + i + 1) = cont a (lh_block l i)) as Es.
  { intros i Hi. unfold D. rewrite apply_writes_other by (apply Hout, (slot_in_log l a); done).
    rewrite fn_lookup_insert_ne by lia. apply apply_writes_in; [apply pairs_NoDup; unfold slot; lia|].
    exact (pairs_elem n (slot l) (λ i, cont a (lh_block l i)) i Hi). }
  rewrite E. split; [apply commit_hdr_ok|]. intros x Hx. unfold redo. rewrite E. destruct commit_hdr as [-> Eb].
  replace (pairs n (hdr_block h) _) with (home_writes l a n).
  - apply after_over. intros Hn. unfold D. rewrite apply_writes_other.
    + rewrite fn_lookup_insert_ne by (intros <-; by apply Hx, log_start). apply apply_writes_other.
      intros Hin. by destruct (log_writes_keys l a n x T ltac:(pose proof (tx_n _ _ T); unfold n; lia) Hin).
    + intros (i & Hi & ->)%pairs_keys. apply Hn, pairs_keys. exists i. split; [lia|done].
  - unfold home_writes, pairs. apply list_fmap_ext. intros j i Hi%list_elem_of_lookup_2%elem_of_seqZ. by rewrite Eb, Es by lia.
Qed.

(** A crash after the last write. *)
Lemma crash_after : let D := apply_writes (commit_writes l a) d0 in hdr_ok ls (D ls) ∧ ∀ x, ¬ log_area ls x → redo ls D x = after x.
Proof.
  pose proof (tx_n _ _ T) as Hn. unfold commit_writes. rewrite !apply_writes_app. cbv zeta.
  change (apply_writes [(lstart l, _)] _) with (<[ls := put_hdr 0 (lh_block l) h]> (apply_writes (home_writes l a n) (<[ls := h]> (apply_writes (log_writes l a n) d0)))).
  rewrite fn_lookup_insert. assert (hdr_n (put_hdr 0 (lh_block l) h) = 0) as E by (by apply put_hdr_n).
  split; [by apply empty_hdr_ok|]. intros x Hx. rewrite redo_empty by (by rewrite fn_lookup_insert).
  rewrite fn_lookup_insert_ne by (intros <-; by apply Hx, log_start). apply after_over. intros _.
  rewrite fn_lookup_insert_ne by (intros <-; by apply Hx, log_start). apply apply_writes_other.
  intros Hin. by destruct (log_writes_keys l a n x T ltac:(unfold n; lia) Hin).
Qed.

Lemma take_pairs k m t v : 0 ≤ m → take k (pairs m t v) = pairs (Z.min (Z.of_nat k) m) t v.
Proof.
  intros Hm. assert (∀ j, 0 ≤ j → length (pairs j t v) = Z.to_nat j) as Hl by (intros; unfold pairs; by rewrite length_fmap, length_seqZ).
  destruct (decide (Z.of_nat k ≤ m)) as [Hk|Hk].
  - rewrite Z.min_l by done. unfold pairs. replace m with (Z.of_nat k + (m - Z.of_nat k)) by lia. rewrite seqZ_app, fmap_app by lia.
    apply take_app_length'. rewrite length_fmap, length_seqZ. lia.
  - rewrite Z.min_r by lia. apply take_ge. rewrite Hl by done. lia.
Qed.

(** Recovery after a crash: all of the transaction or nothing of it. *)
Lemma crash_recovers W1 W2 : commit_writes l a = W1 ++ W2 →
  let D := apply_writes W1 d0 in
  hdr_ok ls (D ls) ∧ ((∀ x, ¬ log_area ls x → redo ls D x = d0 x) ∨ (∀ x, ¬ log_area ls x → redo ls D x = after x)).
Proof.
  intros E. pose proof (tx_n _ _ T) as Hn. assert (W1 = take (length W1) (commit_writes l a)) as -> by (by rewrite E, take_app_length).
  generalize (length W1). intros k. clear E W1 W2. unfold commit_writes. fold n ls h d0.
  assert (length (log_writes l a n) = Z.to_nat n) as El by (unfold log_writes, pairs; by rewrite length_fmap, length_seqZ).
  assert (length (home_writes l a n) = Z.to_nat n) as Eh by (unfold home_writes, pairs; by rewrite length_fmap, length_seqZ).
  destruct (decide (k ≤ Z.to_nat n)%nat) as [H1|H1].
  { rewrite take_app_le by lia. unfold log_writes. rewrite take_pairs by (unfold n; lia). cbv zeta.
    destruct (crash_before (Z.min (Z.of_nat k) n) ltac:(unfold n in *; lia)) as [Hh Hx]. split; [exact Hh|left; exact Hx]. }
  rewrite take_app_ge by lia. rewrite El.
  destruct (decide (k - Z.to_nat n ≤ S (Z.to_nat n))%nat) as [H2|H2].
  - replace (k - Z.to_nat n)%nat with (S (k - Z.to_nat n - 1))%nat by lia. set (j := (k - Z.to_nat n - 1)%nat).
    cbn [app take]. rewrite take_app_le by lia.
    assert (take j (home_writes l a n) = home_writes l a (Z.min (Z.of_nat j) n)) as -> by (apply take_pairs; unfold n; lia).
    destruct (crash_between (Z.min (Z.of_nat j) n) ltac:(unfold n in *; lia)) as [Hh Hx].
    cbv zeta. rewrite !apply_writes_app. split; [exact Hh|right; exact Hx].
  - rewrite take_ge by (rewrite !length_app, Eh; simpl; lia). destruct crash_after as [Hh Hx]. split; [exact Hh|right; exact Hx].
Qed.
End crash.

(** ** Properties *)

Section props.
Context `{Switch fs, Patience}.

(** C2. Commits are atomic across crashes.  [commit] always returns and leaves
    an empty log and every block outside the log as the cache shows it.  Stop
    the machine after any prefix of its disk writes, boot from that disk and run
    [initlog]: recovery returns, and outside the log area the disk is either as
    it was before the commit, or has exactly the blocks of the transaction
    replaced by their new contents. *)
Theorem commit_crash_safe me a f (s : K) :
  quiet me s → brep me a (bc f) → txn (lg f) a → hdr_n (disk (bc f) (lstart (lg f))) = 0 →
  wp commit (set_fsys f s) (λ _ s', ∃ W,
    dwrites (bc (fsys s')) = dwrites (bc f) ++ W ∧ disk (bc (fsys s')) = apply_writes W (disk (bc f)) ∧
    lh_n (lg (fsys s')) = 0 ∧ hdr_n (disk (bc (fsys s')) (lstart (lg f))) = 0 ∧
    (∀ i, 0 ≤ i < lh_n (lg f) → disk (bc (fsys s')) (lh_block (lg f) i) = cont a (lh_block (lg f) i)) ∧
    ∀ W1 W2, W = W1 ++ W2 →
    ∀ me2 s2 f2 sbk w, quiet me2 s2 → s32 (logstart sbk) = lstart (lg f) →
      brep me2 (a_clean (apply_writes W1 (disk (bc f))) w) (bc f2) →
      wp (initlog ROOTDEV sbk) (set_fsys f2 s2) (λ _ s3,
        let same x := disk (bc (fsys s3)) x = disk (bc f) x in
        (∀ x, ¬ log_area (lstart (lg f)) x → same x) ∨
        ((∀ i, 0 ≤ i < lh_n (lg f) → disk (bc (fsys s3)) (lh_block (lg f) i) = cont a (lh_block (lg f) i)) ∧
         (∀ x, ¬ log_area (lstart (lg f)) x → (∀ i, 0 ≤ i < lh_n (lg f) → x ≠ lh_block (lg f) i) → same x)))).
Proof.
  intros Qs R T Hc. pose proof (br_disk _ _ _ R) as Ed. pose proof (br_writes _ _ _ R) as Ew. rewrite Ed in Hc.
  destruct (tx_start _ _ T) as [Hs1 Hs2].
  assert (∀ D, (∀ x, ¬ log_area (lstart (lg f)) x → D x = after (lg f) a x) →
    (∀ i, 0 ≤ i < lh_n (lg f) → D (lh_block (lg f) i) = cont a (lh_block (lg f) i)) ∧
    (∀ x, ¬ log_area (lstart (lg f)) x → (∀ i, 0 ≤ i < lh_n (lg f) → x ≠ lh_block (lg f) i) → D x = disk (bc f) x)) as Hnew.
  { intros D HD. split.
    - intros i Hi. rewrite HD by (by apply (tx_home _ _ T i)). by apply after_home.
    - intros x Hx Hn. rewrite HD by done. unfold after. rewrite apply_writes_other, Ed; [done|]. intros (i & Hi & E)%pairs_keys. by apply (Hn i). }
  apply (wp_commit me s Qs a); [done|done|]. intros c' R'. exists (commit_writes (lg f) a). cbn [fsys set_fsys set_lg set_bc bc lg].
  rewrite (br_disk _ _ _ R'), (br_writes _ _ _ R'), Ed, Ew. cbn [adisk awrites a_commit].
  destruct (crash_after (lg f) a T) as [Hh Hx].
  assert (hdr_n (apply_writes (commit_writes (lg f) a) (adisk a) (lstart (lg f))) = 0) as He.
  { unfold commit_writes. rewrite !apply_writes_app. cbn [apply_writes foldl fst snd]. rewrite fn_lookup_insert. by apply put_hdr_n. }
  rewrite (redo_empty (lg f)) in Hx by exact He.
  split_and!; [done|done|done|exact He|apply (Hnew _ Hx)|].
  intros W1 W2 E me2 s2 f2 sbk w Qs2 Esb R2. destruct (crash_recovers (lg f) a T Hc W1 W2 E) as [Hok Hor].
  apply (wp_initlog me2 s2 Qs2 (apply_writes W1 (adisk a)) w f2 sbk (lstart (lg f))); try done.
  intros a' c3 l' R3 _ _ _ Hd _. cbv zeta. cbn [fsys set_fsys set_lg set_bc bc lg]. rewrite (br_disk _ _ _ R3).
  destruct Hor as [Hor|Hor]; [left; intros x Hnx; by rewrite Hd, Hor|right]. rewrite <-Ed. apply (Hnew (adisk a')).
  intros x Hnx. by rewrite Hd, Hor.
Qed.
End props.
