(* ===== verification/Tx.v ===== *)
(** * Blocks inside a transaction

    The view that fs.c has of the blocks between [begin_op] and [end_op]:
    contents [D], the blocks [L] recorded in the log, the blocks [H] locked by
    the caller, and the blocks [X] changed but not yet logged.  The routines of
    bio.c and log.c act on this view; [evolves] says what else may change. *)

From Stdlib Require Import FunctionalExtensionality.
From S2P Require Import Prelude Riscv Memory Kalloc Vm Spinlock Proc ProcOps FsState Sleeplock Bio BioOps BioSpec Log LogOps LogCommit.

(** The blocks in the log header. *)
Definition txset (l : logst) : gset Z := list_to_set (lh_block l <$> seqZ 0 (lh_n l)).

Record topen (X : gset Z) (l : logst) (a : bst) : Prop := {
  to_dev : ldev l = ROOTDEV;
  to_start : 0 ≤ lstart l ∧ lstart l + LOGBLOCKS < 2 ^ 31;
  to_n : 0 ≤ lh_n l ≤ LOGBLOCKS;
  to_nodup : NoDup (lh_block l <$> seqZ 0 (lh_n l));
  to_home n : n ∈ txset l ∪ hold a → 0 ≤ n < 2 ^ 31 ∧ ¬ in_log l n;
  to_refs n : nrefs a n = (if decide (n ∈ txset l) then 1 else 0) + (if decide (n ∈ hold a) then 1 else 0);
  to_clean n : n ∉ txset l → n ∉ X → cont a n = adisk a n;
}.

Definition tx (me : Z) (X H : gset Z) (D : Z → memory) (L : gset Z) (f : fs) : Prop :=
  ∃ a, brep me a (bc f) ∧ topen X (lg f) a ∧ hold a = H ∧ cont a = D ∧ txset (lg f) = L ∧
    1 ≤ outstanding (lg f).

(** A block outside the log. *)
Definition ok_block (f : fs) (n : Z) : Prop := 0 ≤ n < 2 ^ 31 ∧ ¬ in_log (lg f) n.

(** Only the cache and the header of the log change, and the buffers of the
    blocks [H] keep their blocks. *)
Record evolves (H : gset Z) (f f' : fs) : Prop := {
  ev_sb : sb f' = sb f;
  ev_itable : itable f' = itable f;
  ev_ftable : ftable f' = ftable f;
  ev_start : lstart (lg f') = lstart (lg f);
  ev_out : outstanding (lg f') = outstanding (lg f);
  ev_committing : committing (lg f') = committing (lg f);
  ev_disk : disk (bc f') = disk (bc f);
  ev_handle b n : n ∈ H → handle (bc f) b n → handle (bc f') b n;
}.

#[export] Instance evolves_refl H : Reflexive (evolves H).
Proof. by intros f. Qed.
#[export] Instance evolves_trans H : Transitive (evolves H).
Proof.
  intros f g h [a1 a2 a3 a4 a5 a6 a7 a8] [b1 b2 b3 b4 b5 b6 b7 b8]. split; [congruence..|]. intros b n Hn Hh. by apply b8, a8.
Qed.

Lemma evolves_mono H H' f f' : H ⊆ H' → evolves H' f f' → evolves H f f'.
Proof. intros Hs []. split; try done. intros b n Hn. auto. Qed.

Lemma ok_block_evolves H f f' n : evolves H f f' → ok_block f' n ↔ ok_block f n.
Proof. intros E. unfold ok_block, in_log. by rewrite (ev_start _ _ _ E). Qed.

Lemma elem_txset l n : n ∈ txset l ↔ ∃ i, 0 ≤ i < lh_n l ∧ lh_block l i = n.
Proof.
  unfold txset. rewrite elem_of_list_to_set, list_elem_of_fmap. split.
  - intros (i & -> & Hi%elem_of_seqZ). exists i. split; [lia|done].
  - intros (i & Hi & <-). exists i. split; [done|]. apply elem_of_seqZ. lia.
Qed.

Lemma txset_size l : NoDup (lh_block l <$> seqZ 0 (lh_n l)) → size (txset l) = Z.to_nat (lh_n l).
Proof. intros Hd. unfold txset. by rewrite size_list_to_set, length_fmap, length_seqZ. Qed.

Lemma topen_dom X l a me c : brep me a c → topen X l a → dom (refs a) = txset l ∪ hold a.
Proof.
  intros R T. apply set_eq. intros n. rewrite elem_of_union. pose proof (to_refs _ _ _ T n) as E.
  split.
  - intros Hd. pose proof (nrefs_pos _ _ _ _ R Hd). repeat case_decide; auto; lia.
  - intros Hn. destruct (decide (n ∈ dom (refs a))) as [|Hd]; [done|]. rewrite (nrefs_zero _ _ Hd) in E. repeat case_decide; lia || tauto.
Qed.

Lemma evolves_cache H c' f : disk c' = disk (bc f) → (∀ b n, n ∈ H → handle (bc f) b n → handle c' b n) → evolves H f (set_bc c' f).
Proof. by split. Qed.

Lemma tx_data me X H D L f b n : tx me X H D L f → n ∈ H → handle (bc f) b n → bdata (bufs (bc f) b) = D n.
Proof.
  intros (a & R & T & <- & <- & _ & _) Hn Hh. apply (handle_data me a); [done..|]. rewrite (topen_dom _ _ _ _ _ R T). set_solver.
Qed.

Lemma tx_keeps me X a a' f c' :
  brep me a (bc f) → topen X (lg f) a → brep me a' c' → adisk a' = adisk a → keeps a (bc f) c' → evolves (hold a) f (set_bc c' f).
Proof.
  intros R T R' Ed Kp. apply evolves_cache; [by rewrite (br_disk _ _ _ R'), (br_disk _ _ _ R)|]. intros b n Hn. apply Kp. rewrite (topen_dom _ _ _ _ _ R T). set_solver.
Qed.

Section tx.
Context {SW : Switch fs} {PA : Patience}.
Context (me : Z) (s : K) (Qs : quiet me s).

Lemma wp_tread X H D L f n Q :
  tx me X H D L f → ok_block f n → n ∉ H → n ∈ L ∨ (size (L ∪ H) < NBUF)%nat →
  (∀ b f', tx me X ({[n]} ∪ H) D L f' → handle (bc f') b n → evolves H f f' → Q b (set_fsys f' s)) →
  wp (bread ROOTDEV n) (set_fsys f s) Q.
Proof.
  intros (a & R & T & <- & <- & <- & Ho) Hok Hn Hroom HQ. pose proof (topen_dom _ _ _ _ _ R T) as Ed.
  pose proof (to_refs _ _ _ T n) as En.
  apply (wp_bread me a); [done|done|done|rewrite Ed; set_solver|repeat case_decide; lia|].
  intros b c' R' Hh Kp. apply HQ; [|done|by eapply (tx_keeps me X a)].
  exists (a_read n a). split; [done|]. split; [|done]. destruct T as [t1 t2 t3 t5 t6 t7 t8].
  split; [exact t1|exact t2|exact t3|exact t5| | |exact t8]; cbn [hold a_read lg set_bc].
  - intros m Hm. destruct (decide (m = n)) as [->|]; [exact Hok|apply t6; set_solver].
  - intros m. rewrite nrefs_read. destruct (decide (m = n)) as [->|Hm]; rewrite t7.
    + rewrite (decide_False (P := n ∈ hold a)), (decide_True (P := n ∈ {[n]} ∪ hold a)) by set_solver. lia.
    + f_equal. apply decide_ext. set_solver.
Qed.

Lemma wp_tupd X H D L f b n g Q :
  tx me X H D L f → n ∈ H → handle (bc f) b n →
  (∀ f', tx me ({[n]} ∪ X) H (<[n := g (D n)]> D) L f' → evolves H f f' → Q tt (set_fsys f' s)) →
  wp (bupd b g) (set_fsys f s) Q.
Proof.
  intros (a & R & T & <- & <- & <- & Ho) Hn Hh HQ. pose proof (topen_dom _ _ _ _ _ R T) as Ed.
  apply (wp_bupd me a b n); [done|done|rewrite Ed; set_solver|]. intros c' R' Kp. apply HQ; [|by eapply (tx_keeps me X a)].
  exists (a_update n g a). split; [done|]. split; [|done]. destruct T as [t1 t2 t3 t5 t6 t7 t8].
  split; try done. cbn [cont adisk a_update]. intros m Hm HX. rewrite fn_lookup_insert_ne by set_solver. apply t8; set_solver.
Qed.

Lemma wp_trelease X H D L f b n Q :
  tx me X H D L f → n ∈ H → n ∉ X → handle (bc f) b n →
  (∀ f', tx me X (H ∖ {[n]}) D L f' → evolves (H ∖ {[n]}) f f' → Q tt (set_fsys f' s)) →
  wp (brelse b) (set_fsys f s) Q.
Proof.
  intros (a & R & T & <- & <- & <- & Ho) Hn HX Hh HQ. pose proof (to_refs _ _ _ T) as En.
  assert (1 ≤ nrefs a n) as Hp by (rewrite En, (decide_True (P := n ∈ hold a)) by done; case_decide; lia).
  apply (wp_brelse me a b n); [done..| |].
  { intros E1. apply (to_clean _ _ _ T); [|done]. rewrite En, (decide_True (P := n ∈ hold a)) in E1 by done. case_decide; [lia|done]. }
  intros c' R' Kp. apply HQ; [|apply (evolves_mono _ (hold a)); [set_solver|by eapply (tx_keeps me X a)]].
  exists (a_release n a). split; [done|]. split; [|done]. destruct T as [t1 t2 t3 t5 t6 t7 t8].
  split; try done; cbn [hold a_release lg set_bc].
  - intros m Hm. apply t6. set_solver.
  - intros m. rewrite nrefs_release by lia. destruct (decide (m = n)) as [->|Hm]; rewrite t7.
    + rewrite (decide_True (P := n ∈ hold a)), (decide_False (P := n ∈ hold a ∖ {[n]})) by set_solver. lia.
    + f_equal. apply decide_ext. set_solver.
Qed.

(** ** log_write *)

Lemma log_find_spec k i blk n : 0 ≤ i → (∀ j, i ≤ j < i + Z.of_nat k → 0 ≤ blk j < 2 ^ 32) →
  let r := log_find k i blk n in
  i ≤ r ≤ i + Z.of_nat k ∧ (r < i + Z.of_nat k → blk r = n) ∧ (r = i + Z.of_nat k → ∀ j, i ≤ j < i + Z.of_nat k → blk j ≠ n).
Proof.
  revert i. induction k as [|k IH]; intros i Hi Hb; cbn [log_find]; cbv zeta; [split_and!; lia|].
  rewrite u32_small by (apply Hb; lia). destruct (Z.eqb_spec (blk i) n) as [E|E].
  - split_and!; [lia|lia|done|lia].
  - destruct (IH (i + 1)) as (H1 & H2 & H3); [lia|intros j Hj; apply Hb; lia|]. cbv zeta in *. split_and!; [lia|lia|intros; apply H2; lia|].
    intros Er j Hj. destruct (decide (j = i)) as [->|]; [done|]. apply H3; lia.
Qed.

Lemma txset_snoc l n : 0 ≤ lh_n l → n ∉ txset l → NoDup (lh_block l <$> seqZ 0 (lh_n l)) →
  let l' := set_lh (lh_n l + 1) (<[lh_n l := n]> (lh_block l)) l in
  txset l' = {[n]} ∪ txset l ∧ NoDup (lh_block l' <$> seqZ 0 (lh_n l')).
Proof.
  intros Hn Hni Hd l'. assert (lh_block l' <$> seqZ 0 (lh_n l') = (lh_block l <$> seqZ 0 (lh_n l)) ++ [n]) as E.
  { unfold l'. cbn [lh_block lh_n set_lh]. rewrite seqZ_app, fmap_app by lia. cbn [seqZ]. simpl. rewrite fn_lookup_insert. f_equal.
    apply list_fmap_ext. intros i x Hx%list_elem_of_lookup_2%elem_of_seqZ. apply fn_lookup_insert_ne. lia. }
  split.
  - unfold txset at 1. rewrite E, list_to_set_app_L. simpl. fold (txset l). set_solver.
  - rewrite E. apply NoDup_app. split_and!; [done| |apply NoDup_singleton]. intros x Hx ->%list_elem_of_singleton.
    apply Hni. unfold txset. by rewrite elem_of_list_to_set.
Qed.

Lemma quiet_locks_entered l l' : l ≠ l' → lks (entered l s) l' = initlock.
Proof. intros Hl. cbn [entered lks set_lks set_kcpu]. rewrite fn_lookup_insert_ne by done. apply Qs. Qed.

Lemma wp_tlog X H D L f b n Q :
  tx me X H D L f → n ∈ H → handle (bc f) b n → (size L < Z.to_nat LOGBLOCKS)%nat →
  (∀ f', tx me (X ∖ {[n]}) H D ({[n]} ∪ L) f' → evolves H f f' → Q tt (set_fsys f' s)) →
  wp (log_write b) (set_fsys f s) Q.
Proof.
  intros (a & R & T & <- & <- & <- & Ho) Hn Hh Hsz HQ. pose proof (topen_dom _ _ _ _ _ R T) as Ed. pose proof T as [t1 t2 t3 t5 t6 t7 t8].
  rewrite txset_size in Hsz by done. destruct (t6 n ltac:(set_solver)) as [Hn31 Hnl].
  apply wp_bind, (wp_enter me); [done|]. apply wp_bind, wp_fget. cbn [fsys set_fsys id]. set (l := lg f) in *.
  destruct (Z.leb_spec LOGBLOCKS (lh_n l)); [lia|]. destruct (Z.ltb_spec (outstanding l) 1); [lia|].
  apply wp_bind, wp_bget_. pose proof Hh as (_ & _ & ->). cbv zeta.
  destruct (log_find_spec (Z.to_nat (lh_n l)) 0 (lh_block l) n) as (F1 & F2 & F3); [lia| |].
  { intros j Hj. destruct (t6 (lh_block l j)) as [Hb _]; [apply elem_of_union_l, elem_txset; exists j; split; [lia|done]|lia]. }
  cbv zeta in F1, F2, F3. set (i := log_find _ _ _ _) in *. rewrite s32_small by lia. apply wp_bind, wp_fmod. cbn [fsys set_fsys].
  fold l. destruct (Z.eqb_spec i (lh_n l)) as [Ei|Ei]; cbn [when].
  - assert (n ∉ txset l) as Hni by (rewrite elem_txset; intros (j & Hj & E); by apply (F3 ltac:(lia) j); [lia|]).
    destruct (txset_snoc l n) as [Es Ds]; [lia|done|done|]. rewrite Ei. apply wp_bind, wp_bind.
    refine (wp_bpin me a b n (set_lg (set_lh (lh_n l) (<[lh_n l := n]> (lh_block l)) l) f) (entered LogLock s) _ _ _ _ _ _ _ _); [apply steady_entered; exact (quiet_steady me s Qs)|by apply quiet_locks_entered|exact R|exact Hh|rewrite Ed; set_solver| |].
    { rewrite t7. repeat case_decide; lia. }
    intros c' R' Kp. apply wp_fmod. cbn [fsys set_fsys]. set (l2 := set_lh (lh_n l + 1) (<[lh_n l := n]> (lh_block l)) l) in *.
    change (wp (release LogLock) (set_fsys (set_lg l2 (set_bc c' f)) (entered LogLock s)) Q). apply (wp_exit me); [done|]. apply HQ.
    + exists (a_pin 1 n a). split; [exact R'|]. split; [|split; [done|split; [done|split; [exact Es|exact Ho]]]].
      split; [exact t1|exact t2|cbn [lg set_lg]; unfold l2; cbn [set_lh lh_n]; lia|exact Ds|..].
      * cbn [lg set_lg]. rewrite Es. intros m Hm. destruct (decide (m = n)) as [->|]; [by split|apply t6]. cbn [hold a_pin] in Hm. set_solver.
      * cbn [lg set_lg]. rewrite Es. intros m. rewrite nrefs_pin. cbn [hold a_pin]. destruct (decide (m = n)) as [->|Hm]; rewrite t7.
        -- rewrite (decide_False (P := n ∈ txset l)), (decide_True (P := n ∈ {[n]} ∪ txset l)) by set_solver. lia.
        -- f_equal. apply decide_ext. set_solver.
      * cbn [lg set_lg]. rewrite Es. intros m Hm HX. apply t8; set_solver.
    + split; try done; [cbn [bc set_lg set_bc]; by rewrite (br_disk _ _ _ R'), (br_disk _ _ _ R)|]. intros b' m Hm Hb. apply Kp; [rewrite Ed; set_solver|done].
  - assert (n ∈ txset l) as Hni by (apply elem_txset; exists i; split; [lia|apply F2; lia]).
    assert (<[i := n]> (lh_block l) = lh_block l) as Ein.
    { extensionality j. destruct (decide (j = i)) as [->|]; [rewrite fn_lookup_insert; symmetry; apply F2; lia|by apply fn_lookup_insert_ne]. }
    rewrite Ein. apply wp_bind, wp_ret. apply (wp_exit me); [done|].
    assert (set_lg (set_lh (lh_n l) (lh_block l) l) f = f) as -> by (by destruct f as [? [] ? ? ?]). apply HQ; [|done].
    exists a. split; [done|]. fold l. assert ({[n]} ∪ txset l = txset l) as -> by set_solver. split; [|done].
    split; try done. intros m Hm HX. apply t8; set_solver.
Qed.
End tx.
