(* ===== verification/TxOps.v ===== *)
(** * Steps on blocks inside a transaction

    The combinations of bio.c and log.c calls that the routines of fs.c are made
    of, with one budget for the log and the cache: [room k L H] leaves space for
    [k] more blocks. *)

From S2P Require Import Prelude Riscv Memory Kalloc Vm Spinlock Proc ProcOps FsState Sleeplock Bio BioOps BioSpec Log LogOps LogCommit Tx.

Definition room (k : nat) (L H : gset Z) : Prop := (size (L ∪ H) + k < NBUF)%nat.

Lemma room_le j k L H : (j ≤ k)%nat → room k L H → room j L H.
Proof. unfold room. lia. Qed.

Lemma size_add_le (n : Z) (A B : gset Z) : A ⊆ {[n]} ∪ B → (size A ≤ S (size B))%nat.
Proof.
  intros Hs. etrans; [by apply subseteq_size|]. rewrite size_union_alt, size_singleton.
  assert (size (B ∖ {[n]}) ≤ size B)%nat by (apply subseteq_size; set_solver). lia.
Qed.

Lemma room_log n k L H : room (S k) L H → room k ({[n]} ∪ L) H.
Proof. unfold room. pose proof (size_add_le n ({[n]} ∪ L ∪ H) (L ∪ H)) as E. specialize (E ltac:(set_solver)). lia. Qed.
Lemma room_hold n k L H : room (S k) L H → room k L ({[n]} ∪ H).
Proof. unfold room. pose proof (size_add_le n (L ∪ ({[n]} ∪ H)) (L ∪ H)) as E. specialize (E ltac:(set_solver)). lia. Qed.

Lemma room_union (N : gset Z) j k L H : (size N ≤ j)%nat → room (j + k) L H → room k (N ∪ L) H.
Proof.
  unfold room. intros Hj Hr. replace (N ∪ L ∪ H) with (N ∪ (L ∪ H)) by set_solver. rewrite (size_union_alt N).
  assert (size ((L ∪ H) ∖ N) ≤ size (L ∪ H))%nat by (apply subseteq_size; set_solver). lia.
Qed.

(** A block that is already there takes no space. *)
Lemma room_sub k L H L' H' : L' ∪ H' ⊆ L ∪ H → room k L H → room k L' H'.
Proof. unfold room. intros Hs%subseteq_size. lia. Qed.

Lemma room_read k L H n : room k L H → n ∈ L ∨ (size (L ∪ H) < NBUF)%nat.
Proof. unfold room. right. lia. Qed.
Lemma room_logs k L H : room k L H → (size L < Z.to_nat LOGBLOCKS)%nat.
Proof.
  unfold room. assert (size L ≤ size (L ∪ H))%nat by (apply subseteq_size; set_solver). change (Z.to_nat LOGBLOCKS) with NBUF. lia.
Qed.

#[export] Hint Resolve room_log room_hold room_read room_logs : room.

Section txops.
Context {SW : Switch fs} {PA : Patience}.
Context (me : Z) (s : K) (Qs : quiet me s).

(** Reading a block: its contents, and the state while the buffer is held. *)
Lemma wp_tget H D L f n {A} (k : nat → M K A) Q :
  tx me ∅ H D L f → ok_block f n → n ∉ H → room 0 L H →
  (∀ b f', tx me ∅ ({[n]} ∪ H) D L f' → handle (bc f') b n → evolves H f f' → bdata (bufs (bc f') b) = D n →
     wp (k b) (set_fsys f' s) Q) →
  wp (bp ← bread ROOTDEV n; k bp) (set_fsys f s) Q.
Proof.
  intros T Hok Hn Hr HQ. apply wp_bind, (wp_tread me s Qs ∅ H D L f n); [done..|by eapply room_read|].
  intros b f' T' Hh E. apply HQ; try done. apply (tx_data me ∅ ({[n]} ∪ H) D L); [done|set_solver|done].
Qed.

(** Releasing a block that was only read. *)
Lemma wp_tput H D L f b n Q :
  tx me ∅ ({[n]} ∪ H) D L f → n ∉ H → handle (bc f) b n →
  (∀ f', tx me ∅ H D L f' → evolves H f f' → Q tt (set_fsys f' s)) →
  wp (brelse b) (set_fsys f s) Q.
Proof.
  intros T Hn Hh HQ. apply (wp_trelease me s Qs ∅ ({[n]} ∪ H) D L f b n); [done|set_solver|set_solver|done|].
  intros f' T' E. rewrite hold_back in T', E by done. by apply HQ.
Qed.

(** Changing a block and recording it in the log. *)
Lemma wp_tchange H D L f b n g Q :
  tx me ∅ H D L f → n ∈ H → handle (bc f) b n → (size L < Z.to_nat LOGBLOCKS)%nat →
  (∀ f', tx me ∅ H (<[n := g (D n)]> D) ({[n]} ∪ L) f' → evolves H f f' → Q tt (set_fsys f' s)) →
  wp (bupd b g ;; log_write b) (set_fsys f s) Q.
Proof.
  intros T Hn Hh Hr HQ. apply wp_bind, (wp_tupd me s Qs ∅ H D L f b n g); [done..|]. intros f1 T1 E1.
  apply (wp_tlog me s Qs _ _ _ _ f1 b n _ T1); [done|by apply (ev_handle _ _ _ E1)|done|]. intros f2 T2 E2.
  replace (({[n]} ∪ ∅) ∖ {[n]}) with (∅ : gset Z) in T2 by set_solver. apply HQ; [done|by etrans].
Qed.

(** The same, and releasing it. *)
Lemma wp_tset H D L f b n g Q :
  tx me ∅ ({[n]} ∪ H) D L f → n ∉ H → handle (bc f) b n → (size L < Z.to_nat LOGBLOCKS)%nat →
  (∀ f', tx me ∅ H (<[n := g (D n)]> D) ({[n]} ∪ L) f' → evolves H f f' → Q tt (set_fsys f' s)) →
  wp (bupd b g ;; log_write b ;; brelse b) (set_fsys f s) Q.
Proof.
  intros T Hn Hh Hr HQ. apply wp_seq2, (wp_tchange ({[n]} ∪ H) D L f b n g); [done|set_solver|done|done|]. intros f1 T1 E1.
  apply (wp_tput H _ _ f1 b n _ T1); [done|apply (ev_handle _ _ _ E1); [set_solver|done]|]. intros f' T' E'.
  apply HQ; [done|]. etrans; [|exact E']. eapply evolves_mono; [|exact E1]. set_solver.
Qed.
End txops.
