(* ===== verification/TxLog.v ===== *)
(** * Opening and committing a transaction

    Between transactions the log is empty and no block is in use ([idle]).
    [begin_op] opens the view of Tx.v, and the [end_op] of the last operation
    makes what it shows the contents of the disk. *)

From S2P Require Import Prelude Riscv Memory Kalloc Vm Spinlock Proc ProcOps FsState Sleeplock Bio BioOps BioSpec Log LogOps LogCommit LogRecover Tx TxOps.

(** No transaction is open; every block outside the log has content [D]. *)
Record idle (me : Z) (D : Z → memory) (f : fs) : Prop := {
  id_cache : ∃ w d, brep me (a_clean d w) (bc f) ∧ hdr_n (d (lstart (lg f))) = 0 ∧ ∀ x, ¬ in_log (lg f) x → d x = D x;
  id_dev : ldev (lg f) = ROOTDEV;
  id_start : 0 ≤ lstart (lg f) ∧ lstart (lg f) + LOGBLOCKS < 2 ^ 31;
  id_n : lh_n (lg f) = 0;
  id_out : outstanding (lg f) = 0;
  id_committing : committing (lg f) = false;
}.

(** The open transaction is the only one, and the header on disk is empty. *)
Definition sole (f : fs) : Prop :=
  outstanding (lg f) = 1 ∧ committing (lg f) = false ∧ hdr_n (disk (bc f) (lstart (lg f))) = 0.

(** Only the cache and the log change, and the log stays in its place. *)
Record outer (f f' : fs) : Prop := {
  ou_sb : sb f' = sb f;
  ou_itable : itable f' = itable f;
  ou_ftable : ftable f' = ftable f;
  ou_start : lstart (lg f') = lstart (lg f);
}.

Lemma sole_evolves H f f' : evolves H f f' → sole f → sole f'.
Proof.
  intros E (S1 & S2 & S3). unfold sole. by rewrite (ev_out _ _ _ E), (ev_committing _ _ _ E), (ev_disk _ _ _ E), (ev_start _ _ _ E).
Qed.

Lemma tx_set_empty l : lh_n l = 0 → txset l = ∅.
Proof. intros E. unfold txset. by rewrite E. Qed.

(** A finished transaction is ready to commit. *)
Lemma topen_txn me X l a c :
  brep me a c → topen X l a → hold a = ∅ → txset l ≠ ∅ → (size (txset l) < NBUF)%nat → txn l a.
Proof.
  intros R T Eh Hne Hsz. pose proof (topen_dom _ _ _ _ _ R T) as Ed. pose proof T as [t1 t2 t3 t5 t6 t7 t8].
  assert (∀ i, 0 ≤ i < lh_n l → lh_block l i ∈ txset l) as Hin by (intros i Hi; apply elem_txset; by exists i).
  split; [exact t1|exact t2| |intros i Hi; apply t6; set_solver|..|exact Eh|rewrite Ed, Eh; by rewrite union_empty_r_L].
  - split; [|lia]. destruct (decide (lh_n l = 0)) as [E|]; [by rewrite tx_set_empty in Hne|lia].
  - intros i j Hi Hj E. assert (seqZ 0 (lh_n l) !! Z.to_nat i = Some i ∧ seqZ 0 (lh_n l) !! Z.to_nat j = Some j) as [Li Lj].
    { rewrite !lookup_seqZ_lt by lia. split; f_equal; lia. }
    pose proof (NoDup_lookup _ (Z.to_nat i) (Z.to_nat j) (lh_block l i) t5) as Hd.
    rewrite !list_lookup_fmap, Li, Lj in Hd. simpl in Hd. rewrite <-E in Hd. specialize (Hd eq_refl eq_refl). lia.
  - intros i Hi. split; [rewrite Ed; set_solver|]. rewrite t7. repeat case_decide; lia.
  - intros x Hx. destruct (refs a !! x) eqn:E; [|done]. exfalso. apply elem_of_dom_2 in E. rewrite Ed in E. by apply (t6 x E).
Qed.

(** All references are gone when the blocks of the transaction are unpinned. *)
Lemma unpinned_pinned l a k i :
  txn l a → (∀ j, 0 ≤ j < lh_n l → refs a !! lh_block l j = Some 1) → 0 ≤ k → k ≤ lh_n l → 0 ≤ i < k →
  unpinned l k (refs a) !! lh_block l i = None.
Proof.
  intros T H1 Hk. revert i. revert k Hk.
  apply (natlike_ind (λ k, ∀ i, k ≤ lh_n l → 0 ≤ i < k → unpinned l k (refs a) !! lh_block l i = None)); [lia|].
  intros k Hk IH i Hle Hi. unfold Z.succ in *. rewrite unpinned_succ by done.
  destruct (decide (i = k)) as [->|Hne].
  - rewrite put_refs_eq, unpinned_other, H1 by (lia || intros j Hj E; apply (tx_inj _ _ T) in E; lia). done.
  - rewrite put_refs_ne; [apply IH; lia|]. intros E. apply (tx_inj _ _ T) in E; lia.
Qed.

Lemma unpinned_none me X l a c : brep me a c → topen X l a → hold a = ∅ → txn l a → unpinned l (lh_n l) (refs a) = ∅.
Proof.
  intros R T Eh Tx. pose proof (topen_dom _ _ _ _ _ R T) as Ed. pose proof (to_n _ _ _ T) as Hn. apply map_empty. intros x.
  assert (∀ j, 0 ≤ j < lh_n l → refs a !! lh_block l j = Some 1) as H1.
  { intros j Hj. assert (lh_block l j ∈ txset l) as Hin by (apply elem_txset; by exists j).
    rewrite dom_nrefs by (rewrite Ed; set_solver). by rewrite (to_refs _ _ _ T), Eh, decide_True, decide_False by set_solver. }
  destruct (decide (x ∈ txset l)) as [(i & Hi & <-)%elem_txset|Hx]; [apply (unpinned_pinned l a); (done || lia)|].
  rewrite unpinned_other; [|intros i Hi ->; apply Hx, elem_txset; by exists i].
  apply not_elem_of_dom. rewrite Ed, Eh. set_solver.
Qed.

Section txlog.
Context {SW : Switch fs} {PA : Patience}.
Context (me : Z) (s : K) (Qs : quiet me s).

Lemma idle_topen me' D f w d :
  idle me' D f → brep me (a_clean d w) (bc f) →
  topen ∅ (set_outstanding 1 (lg f)) (a_clean d w).
Proof.
  intros [_ i2 i3 i4 i5 i6] R. assert (txset (set_outstanding 1 (lg f)) = ∅) as E by (by apply tx_set_empty).
  split; try done; [simpl; rewrite i4; done|simpl; rewrite i4; constructor|..].
  - rewrite E. set_solver.
  - rewrite E. intros n. by rewrite !decide_False by set_solver.
Qed.

Lemma wp_begin_op D f Q :
  idle me D f →
  (∀ f' d, tx me ∅ ∅ d ∅ f' → sole f' → outer f f' →
     (∀ x, ¬ in_log (lg f) x → d x = D x) → Q tt (set_fsys f' s)) →
  wp begin_op (set_fsys f s) Q.
Proof.
  intros I HQ. pose proof I as [(w & d & R & Hh & Hd) i2 i3 i4 i5 i6]. apply wp_bind, (wp_enter me); [done|]. cbn [begin_op_loop].
  apply wp_bind, wp_fget. cbn [fsys set_fsys id]. rewrite i4, i5, i6. cbn [orb].
  change (LOGBLOCKS <? 0 + (0 + 1) * MAXOPBLOCKS) with false. cbv iota. apply wp_bind, wp_fmod. apply (wp_exit me); [done|].
  cbn [fsys set_fsys]. apply (HQ _ d); [|split; [done|split; [done|]]|by split|done].
  - exists (a_clean d w). split; [done|]. split; [by eapply idle_topen|]. split; [done|]. split; [done|]. split; [by apply tx_set_empty|done].
  - cbn [bc set_lg lg set_outstanding lstart]. by rewrite (br_disk _ _ _ R).
Qed.

(** What a commit leaves. *)
Lemma committed X f a c' :
  brep me a (bc f) → topen X (lg f) a → hold a = ∅ → txn (lg f) a → hdr_n (adisk a (lstart (lg f))) = 0 → X = ∅ →
  brep me (a_commit (lg f) a) c' →
  ∃ w d, brep me (a_clean d w) c' ∧ hdr_n (d (lstart (lg f))) = 0 ∧ ∀ x, ¬ in_log (lg f) x → d x = cont a x.
Proof.
  intros R T Eh Tx Hc -> R'. set (l := lg f) in *. assert (refs (a_commit l a) = ∅) as Er by (by apply (unpinned_none me ∅ _ _ (bc f))).
  set (d := adisk (a_commit l a)) in *. set (w := awrites (a_commit l a)).
  assert (a_commit l a = a_clean d w) as E.
  { apply bst_eq; try done. intros n. apply (br_clean _ _ _ R'). by rewrite Er. }
  exists w, d. rewrite <-E. split; [done|]. destruct (crash_after l a Tx) as [_ Hx].
  assert (hdr_n (d (lstart l)) = 0) as He.
  { unfold d. cbn [adisk a_commit]. unfold commit_writes. rewrite !apply_writes_app. cbn [apply_writes foldl fst snd].
    rewrite fn_lookup_insert. by apply put_hdr_n. }
  split; [done|]. intros x Hnx. specialize (Hx x Hnx). rewrite (redo_empty l) in Hx by exact He. change (apply_writes _ _ x) with (d x) in Hx. rewrite Hx.
  destruct (decide (x ∈ txset l)) as [(i & Hi & <-)%elem_txset|Hn]; [by apply after_home|].
  unfold after. rewrite apply_writes_other; [symmetry; by apply (to_clean _ _ _ T)|].
  intros (i & Hi & ->)%pairs_keys. apply Hn, elem_txset. by exists i.
Qed.

Lemma wp_commit_any a f Q :
  brep me a (bc f) → topen ∅ (lg f) a → hold a = ∅ → (size (txset (lg f)) < NBUF)%nat → hdr_n (adisk a (lstart (lg f))) = 0 →
  (∀ c' w d, brep me (a_clean d w) c' → hdr_n (d (lstart (lg f))) = 0 → (∀ x, ¬ in_log (lg f) x → d x = cont a x) →
     Q tt (set_fsys (set_lg (emptied (lg f)) (set_bc c' f)) s)) →
  wp commit (set_fsys f s) Q.
Proof.
  intros R T Eh Hsz Hc HQ. destruct (decide (txset (lg f) = ∅)) as [El|El].
  - assert (lh_n (lg f) = 0) as En by (pose proof (txset_size _ (to_nodup _ _ _ T)) as E; rewrite El, size_empty in E; pose proof (to_n _ _ _ T); lia).
    apply wp_bind, wp_fget. cbn [fsys set_fsys]. rewrite En. apply wp_ret.
    assert (refs a = ∅) as Er by (apply map_empty; intros x; apply not_elem_of_dom; rewrite (topen_dom _ _ _ _ _ R T), El, Eh; set_solver).
    assert (a = a_clean (adisk a) (awrites a)) as Ea by (apply bst_eq; try done; intros n; apply (br_clean _ _ _ R); by rewrite Er).
    assert (set_lg (emptied (lg f)) (set_bc (bc f) f) = f) as Ef.
    { unfold emptied. rewrite <-En at 1. by destruct f as [? [] ? ? ?]. }
    rewrite <-Ef. apply (HQ _ (awrites a) (adisk a)); [by rewrite <-Ea|done|]. intros x _. symmetry. apply (br_clean _ _ _ R). by rewrite Er.
  - assert (txn (lg f) a) as Tx by (by apply (topen_txn me ∅ _ _ (bc f))).
    apply (wp_commit me s Qs a); [done|done|]. intros c' R'.
    destruct (committed ∅ f a c') as (w & d & R2 & Hd & Hx); try done. by apply (HQ _ w d).
Qed.

Lemma wp_end_op D L f Q :
  tx me ∅ ∅ D L f → sole f → (size L < NBUF)%nat →
  (∀ f', idle me D f' → outer f f' → (∀ x, ¬ in_log (lg f) x → disk (bc f') x = D x) → Q tt (set_fsys f' s)) →
  wp end_op (set_fsys f s) Q.
Proof.
  intros (a & R & T & Eh & <- & <- & _) (So & Sc & Sh) Hsz HQ. rewrite (br_disk _ _ _ R) in Sh.
  apply wp_bind, (wp_enter me); [done|]. apply wp_bind, wp_fmod. apply wp_bind, wp_fget.
  cbn [fsys set_fsys lg set_lg id set_outstanding committing outstanding]. rewrite Sc, So. change (1 - 1 =? 0) with true. cbv iota.
  apply wp_bind, wp_bind, wp_fmod. apply wp_ret. apply wp_bind. cbn [fsys set_fsys lg set_lg].
  set (l1 := set_committing true _). change (wp (release LogLock) (set_fsys (set_lg l1 f) (entered LogLock s)) (λ _ s', wp (when true (commit ;; acquire LogLock ;; lset (set_committing false) ;; lset (λ l, set_ncommit (s32 (ncommit l + 1)) l) ;; wakeup ChanLog ;; release LogLock)) s' Q)).
  apply (wp_exit me); [done|]. cbn [when].
  apply wp_bind, (wp_commit_any a); [done|by destruct T; split|done|done|done|]. intros c' w d R' Hd Hx. cbn [lg set_lg] in Hx.
  apply wp_bind, (wp_enter me); [done|]. do 2 (apply wp_bind, wp_fmod). apply wp_bind. cbn [fsys set_fsys lg set_lg set_bc].
  set (l2 := set_ncommit _ _). change (wp (wakeup ChanLog) (set_fsys (set_lg l2 (set_bc c' f)) (entered LogLock s)) (λ _ s', wp (release LogLock) s' Q)).
  apply (wp_quiet_wakeup me); [done|done|done|]. apply (wp_exit me); [done|]. apply HQ.
  - destruct T as [t1 t2 _ _ _ _ _]. split; try done. exists w, d. split_and!; [done|done|]. intros x Hnx. by apply Hx.
  - done.
  - cbn [bc set_lg set_bc]. rewrite (br_disk _ _ _ R'). exact Hx.
Qed.
End txlog.

(** ** A transaction that fills the cache *)

(** As many blocks in use as there are buffers leave none free. *)
Lemma all_used me a c : brep me a c → (NBUF ≤ size (dom (refs a)))%nat → ∀ b, (b < NBUF)%nat → 0 < refcnt (bufs c b).
Proof.
  intros R Hs b0 Hb0. destruct (decide (0 < refcnt (bufs c b0))) as [|Hz]; [done|exfalso].
  assert (∀ n, ∃ b, n ∈ dom (refs a) → handle c b n) as Hch.
  { intros n. destruct (refs a !! n) as [k|] eqn:E; [|exists 0%nat; intros [? Hx]%elem_of_dom; by rewrite Hx in E].
    destruct (br_refs _ _ _ R n k E) as [_ [b Hb]]. by exists b. }
  set (h n := default 0%nat (List.find (λ b, matches n (bufs c b)) (seq 0 NBUF))).
  assert (∀ n, n ∈ dom (refs a) → handle c (h n) n) as Hh.
  { intros n Hn. destruct (Hch n) as [b Hb]. specialize (Hb Hn). pose proof Hb as (Hlt & _).
    destruct (find_elem (λ b, matches n (bufs c b)) (seq 0 NBUF)) as (b' & E & Hin%elem_of_seq & Hm).
    { exists b. rewrite elem_of_seq. split; [lia|]. by apply matches_handle. }
    unfold h. rewrite E. simpl. apply matches_handle; [lia|done]. }
  assert (NoDup (h <$> elements (dom (refs a)))) as Hd.
  { apply NoDup_fmap_2_strong; [|apply NoDup_elements]. intros n n' Hn%elem_of_elements Hn'%elem_of_elements E.
    destruct (Hh n Hn) as (_ & _ & <-). destruct (Hh n' Hn') as (_ & _ & <-). by rewrite E. }
  assert (b0 :: (h <$> elements (dom (refs a))) ⊆+ seq 0 NBUF) as Hsub.
  { apply NoDup_submseteq.
    - apply NoDup_cons. split; [|done]. intros (n & -> & Hn%elem_of_elements)%list_elem_of_fmap.
      destruct (handle_buf _ _ _ _ _ R (Hh n Hn)) as (Er & _). pose proof (nrefs_pos _ _ _ _ R Hn). lia.
    - intros b [->|(n & -> & Hn%elem_of_elements)%list_elem_of_fmap]%elem_of_cons; apply elem_of_seq; [lia|]. destruct (Hh n Hn). lia. }
  apply submseteq_length in Hsub. cbn [length] in Hsub. rewrite length_fmap, length_seq in Hsub.
  change (length (elements (dom (refs a)))) with (size (dom (refs a))) in Hsub. lia.
Qed.

(** ** Properties *)

Section props.
Context {SW : Switch fs} {PA : Patience}.

(** [log_write] absorbs: a block is recorded and pinned once however often it
    is logged, so that the length of the log is the number of distinct blocks
    changed.  With a full log it panics. *)
Lemma log_write_absorbs me (s : K) X H D L f b n :
  quiet me s → tx me X H D L f → n ∈ H → handle (bc f) b n →
  if decide (size L < Z.to_nat LOGBLOCKS)%nat then
    wp (log_write b) (set_fsys f s) (λ _ s', ∃ f', s' = set_fsys f' s ∧ evolves H f f' ∧
      tx me (X ∖ {[n]}) H D ({[n]} ∪ L) f' ∧ lh_n (lg f') = Z.of_nat (size ({[n]} ∪ L)))
  else log_write b (set_fsys f s) = Panic "too big a transaction".
Proof.
  intros Qs T Hn Hh. case_decide as Hs.
  - apply (wp_tlog me s Qs X H D L f b n); [done..|]. intros f' T' E. exists f'. split_and!; [done..|].
    destruct T' as (a & R & To & _ & _ & <- & _). rewrite txset_size by apply To. pose proof (to_n _ _ _ To). lia.
  - destruct T as (a & R & To & <- & <- & <- & _). rewrite txset_size in Hs by apply To.
    apply panic_bind, (wp_enter me); [done|]. apply panic_bind, wp_fget. cbn [fsys set_fsys id].
    pose proof (to_n _ _ _ To). destruct (Z.leb_spec LOGBLOCKS (lh_n (lg f))); [done|lia].
Qed.

(** C15. A transaction from [begin_op] to [end_op] that changes one block through
    the log makes exactly that change to the disk, outside the log area, and
    leaves the log empty for the next transaction. *)
Theorem transaction_durable me (s : K) D f n g :
  quiet me s → idle me D f → ok_block f n →
  wp (begin_op ;; b ← bread ROOTDEV n; bupd b g ;; log_write b ;; brelse b ;; end_op) (set_fsys f s) (λ _ s', ∃ f',
    s' = set_fsys f' s ∧ outer f f' ∧ idle me (<[n := g (D n)]> D) f' ∧
    ∀ x, ¬ in_log (lg f) x → disk (bc f') x = if decide (x = n) then g (D n) else D x).
Proof.
  intros Qs I Hok. apply wp_bind, (wp_begin_op me s Qs D); [done|]. intros f1 d T1 S1 O1 Hd.
  assert (∀ x, in_log (lg f1) x ↔ in_log (lg f) x) as Hin by (intros x; unfold in_log; by rewrite (ou_start _ _ O1)).
  assert (ok_block f1 n) as Hok1 by (unfold ok_block; by rewrite Hin). assert (room 1 ∅ ∅) as Hr by (by apply Nat.ltb_lt).
  apply (wp_tget me s Qs ∅ d ∅ f1 n); [done|done|set_solver|by eapply room_le; [|exact Hr]; lia|]. intros b f2 T2 H2 E2 _.
  apply wp_seq3, (wp_tset me s Qs ∅ d ∅ f2 b n g); [done|set_solver|done|by eapply room_logs|]. intros f3 T3 E3.
  assert (evolves ∅ f1 f3) as E13 by (by etrans). destruct (Hok) as [_ Hnl].
  assert (∀ x, ¬ in_log (lg f) x → (<[n := g (d n)]> d : Z → memory) x = (<[n := g (D n)]> D : Z → memory) x) as HD.
  { intros x Hx. destruct (decide (x = n)) as [->|]; [rewrite !fn_lookup_insert; by rewrite Hd|rewrite !fn_lookup_insert_ne by done; by apply Hd]. }
  apply (wp_end_op me s Qs _ _ f3 _ T3); [by eapply sole_evolves|rewrite union_empty_r_L, size_singleton; by apply Nat.ltb_lt|]. intros f4 I4 O4 Hdk. exists f4. split; [done|].
  assert (lstart (lg f3) = lstart (lg f)) as Es by (rewrite (ev_start _ _ _ E13); apply O1).
  assert (∀ x, in_log (lg f3) x ↔ in_log (lg f) x) as Hin3 by (intros x; unfold in_log; by rewrite Es).
  assert (∀ x, in_log (lg f4) x ↔ in_log (lg f) x) as Hin4 by (intros x; unfold in_log; by rewrite (ou_start _ _ O4), Es).
  split_and!.
  - destruct O1 as [o1 o2 o3 o4], O4 as [p1 p2 p3 p4], E13 as [e1 e2 e3 e4 _ _ _ _]. split; congruence.
  - destruct I4 as [(w & dd & R4 & Hh & Hx) ? ? ? ? ?]. split; try done. exists w, dd. split_and!; [done..|]. intros x Hnx.
    rewrite Hx by done. apply HD. by rewrite <-Hin4.
  - intros x Hnx. rewrite Hdk by (by rewrite Hin3). rewrite HD by done. case_decide; [subst; apply fn_lookup_insert|by apply fn_lookup_insert_ne].
Qed.

(** C29. The log may hold as many blocks as the cache has buffers, and a commit
    needs one more: a transaction that fills the log cannot be committed. *)
Theorem full_log_cannot_commit me (s : K) D L f :
  quiet me s → tx me ∅ ∅ D L f → size L = Z.to_nat LOGBLOCKS →
  commit (set_fsys f s) = Panic "bget: no buffers".
Proof.
  intros Qs (a & R & T & Eh & _ & <- & _) Hs. pose proof (topen_dom _ _ _ _ _ R T) as Ed. rewrite Eh, union_empty_r_L in Ed.
  pose proof (to_start _ _ _ T) as Hst. assert (lh_n (lg f) = LOGBLOCKS) as En.
  { rewrite txset_size in Hs by apply T. pose proof (to_n _ _ _ T). lia. }
  apply panic_bind, wp_fget. cbn [fsys set_fsys]. rewrite En. change (0 <? LOGBLOCKS) with true. cbn [when]. apply panic_first.
  apply panic_bind, wp_fget. cbn [fsys set_fsys]. rewrite En. change (Z.to_nat LOGBLOCKS) with (S 29). cbn [for_up]. apply panic_first.
  apply panic_bind, wp_fget. apply panic_bind, wp_fget. cbn [fsys set_fsys]. rewrite (to_dev _ _ _ T). change (u32 ROOTDEV) with ROOTDEV.
  rewrite u32_small by (unfold LOGBLOCKS, MAXOPBLOCKS in *; lia). apply panic_first, panic_first. apply (bget_panics me a); [done|done| |].
  - rewrite Ed. intros Hx. apply (to_home _ _ _ T (lstart (lg f) + 0 + 1)); [set_solver|]. unfold in_log, LOGBLOCKS, MAXOPBLOCKS. lia.
  - apply (all_used me a); [done|]. rewrite Ed, Hs. done.
Qed.
End props.
