(* ===== verification/Fs.v ===== *)
(** * The file system

    fs.c: blocks, inodes, their contents, directories and paths.

    The pointer arguments of [readi] and [writei] are of three kinds: a user
    address, a kernel address, and a local variable of the caller.  The bytes
    of a local variable are passed and returned as a list.  Names and paths are
    lists of bytes; a path is given without its NUL.  The messages printed are
    left out. *)

From S2P Require Import Prelude Riscv Memory Kalloc Vm Spinlock Proc FsState Sleeplock Bio Log.

Inductive dest := ToUser (a : Z) | ToKernel (a : Z) | ToLocal.
Inductive source := FromUser (a : Z) | FromLocal (bs : list Z).

(** ** Structures in the bytes of a block *)

Definition decode_sb (m : memory) : superblock :=
  let w i := load32 m (4 * i) in mkSb (w 0) (w 1) (w 2) (w 3) (w 4) (w 5) (w 6) (w 7).

(** A dinode at offset [o]. *)
Definition dtype (m : memory) (o : Z) : Z := s16 (load16 m o).
Definition dnlink (m : memory) (o : Z) : Z := s16 (load16 m (o + 6)).
Definition set_dtype (v : Z) (o : Z) (m : memory) : memory := store16 m o (u16 v).

(** [memmove(dip->addrs, ip->addrs, sizeof(ip->addrs))], [n] words from [i]. *)
Fixpoint store_addrs (n : nat) (i : Z) (a : Z → Z) (o : Z) (m : memory) : memory :=
  match n with
  | O => m
  | S n' => store_addrs n' (i + 1) a o (store32 m (o + 12 + 4 * i) (u32 (a i)))
  end.

Definition encode_inode (ip : inode) (o : Z) (m : memory) : memory :=
  let m := store16 m o (u16 (itype ip)) in
  let m := store16 m (o + 2) (u16 (imajor ip)) in
  let m := store16 m (o + 4) (u16 (iminor ip)) in
  let m := store16 m (o + 6) (u16 (nlink ip)) in
  let m := store32 m (o + 8) (u32 (isize ip)) in
  store_addrs 13 0 (addrs ip) o m.

Definition decode_inode (m : memory) (o : Z) (ip : inode) : inode :=
  mkInode (idev ip) (inum ip) (iref ip) (ilk ip) (ivalid ip)
    (s16 (load16 m o)) (s16 (load16 m (o + 2))) (s16 (load16 m (o + 4))) (s16 (load16 m (o + 6)))
    (load32 m (o + 8)) (λ i, load32 m (o + 12 + 4 * i)).

(** A dirent as its 16 bytes. *)
Definition de_inum (de : list Z) : Z := load16 (store_bytes (λ _, 0) 0 de) 0.
Definition de_name (de : list Z) : list Z := take 14 (drop 2 de).
Definition mk_dirent (inum : Z) (name : list Z) : list Z :=
  byte_at (u16 inum) 0 :: byte_at (u16 inum) 1 :: name.

(** Two names side by side in a memory. *)
Definition names (s t : list Z) : memory := store_bytes (store_bytes (λ _, 0) 0 s) 32 t.
Definition namecmp (s t : list Z) : Z := strncmp (names s t) 0 32 DIRSIZ.
(** [strncpy(de.name, name, DIRSIZ)] *)
Definition name_field (name : list Z) : list Z := load_bytes (strncpy (names [] name) 0 32 DIRSIZ) 0 14.

Section fs.
Context `{Layout, Switch fs, Patience}.

Definition readsb (dev : Z) : M K unit :=
  bp ← bread (u32 dev) 1;
  m ← bget_ bp bdata;
  fmod (set_sb (decode_sb m)) ;;
  brelse bp.

Definition bzero (dev bno : Z) : M K unit :=
  bp ← bread (u32 dev) (u32 bno);
  bupd bp (λ m, fill m 0 0 BSIZE) ;;
  log_write bp ;;
  brelse bp.

(** ** Blocks *)

Definition bit_mask (bi : Z) : Z := Z.shiftl 1 (bi mod 8).
Definition bit_free (m : memory) (bi : Z) : bool := Z.land (m (bi / 8)) (bit_mask bi) =? 0.

(** The first clear bit from [bi] on, of [n] bits and below [lim]. *)
Fixpoint free_bit (n : nat) (bi lim : Z) (m : memory) : option Z :=
  match n with
  | O => None
  | S n' => if negb (bi <? lim) then None
            else if bit_free m bi then Some bi else free_bit n' (bi + 1) lim m
  end.

Fixpoint balloc_loop (n : nat) (dev b : Z) : M K Z :=
  match n with
  | O => mret 0
  | S n' =>
      sup ← fget sb;
      if negb (b <? sb_size sup) then mret 0 else
      bp ← bread dev (BBLOCK b sup);
      m ← bget_ bp bdata;
      match free_bit (Z.to_nat BPB) 0 (sb_size sup - b) m with
      | Some bi =>
          bupd bp (λ m, upd m (bi / 8) (Z.lor (m (bi / 8)) (bit_mask bi))) ;;
          log_write bp ;;
          brelse bp ;;
          bzero dev (b + bi) ;;
          mret (b + bi)
      | None =>
          brelse bp ;;
          balloc_loop n' dev (b + BPB)
      end
  end.

(** The outer loop makes sb.size / BPB rounds, rounded up. *)
Definition balloc (dev : Z) : M K Z :=
  sup ← fget sb;
  balloc_loop (Z.to_nat (sb_size sup / BPB + 1)) dev 0.

Definition bfree (dev b : Z) : M K unit :=
  sup ← fget sb;
  bp ← bread (u32 dev) (BBLOCK b sup);
  let bi := b mod BPB in
  m ← bget_ bp bdata;
  if bit_free m bi then panic "freeing free block" else
  bupd bp (λ m, upd m (bi / 8) (Z.land (m (bi / 8)) (Z.lnot (bit_mask bi)))) ;;
  log_write bp ;;
  brelse bp.

(** ** Inodes *)

Fixpoint iinit_loop (n i : nat) : M K unit :=
  match n with
  | O => mret tt
  | S n' => initsleeplock (SlInode i) ;; iinit_loop n' (S i)
  end.

Definition iinit : M K unit :=
  modify (λ s, set_lks (<[ItableLock := initlock]> (lks s)) s) ;;
  iinit_loop NINODE 0.

(** The loop of [iget], over [n] entries from [i]: the entry of the inode, and
    the first empty one seen. *)
Fixpoint iget_find (n i : nat) (t : nat → inode) (dev ino : Z) (empty : option nat) : option nat * option nat :=
  match n with
  | O => (None, empty)
  | S n' =>
      let ip := t i in
      if (0 <? iref ip) && (idev ip =? dev) && (inum ip =? ino) then (Some i, empty) else
      iget_find n' (S i) t dev ino
        (match empty with Some _ => empty | None => if iref ip =? 0 then Some i else None end)
  end.

Definition iget (dev ino : Z) : M K nat :=
  acquire ItableLock ;;
  t ← fget itable;
  match iget_find NINODE 0 t dev ino None with
  | (Some i, _) =>
      iset i (λ x, set_iref (iref x + 1) x) ;;
      release ItableLock ;;
      mret i
  | (None, Some i) =>
      iset i (λ x, mkInode dev ino 1 (ilk x) false (itype x) (imajor x) (iminor x) (nlink x) (isize x) (addrs x)) ;;
      release ItableLock ;;
      mret i
  | (None, None) => panic "iget: no inodes"
  end.

Definition dinode_off (ino : Z) : Z := ino mod IPB * DINODE_SIZE.

(** The loop of [ialloc], [n] inodes from [ino]. *)
Fixpoint ialloc_loop (n : nat) (ino dev type : Z) : M K (option nat) :=
  match n with
  | O => mret None
  | S n' =>
      sup ← fget sb;
      bp ← bread dev (IBLOCK ino sup);
      m ← bget_ bp bdata;
      let o := dinode_off ino in
      if dtype m o =? 0 then
        bupd bp (λ m, fill m o 0 DINODE_SIZE) ;;
        bupd bp (set_dtype type o) ;;
        log_write bp ;;
        brelse bp ;;
        i ← iget dev ino;
        mret (Some i)
      else
        brelse bp ;;
        ialloc_loop n' (ino + 1) dev type
  end.

Definition ialloc (dev type : Z) : M K (option nat) :=
  sup ← fget sb;
  ialloc_loop (Z.to_nat (ninodes sup - 1)) 1 dev type.

Definition iupdate (i : nat) : M K unit :=
  ip ← iget_ i id;
  sup ← fget sb;
  bp ← bread (idev ip) (IBLOCK (inum ip) sup);
  bupd bp (encode_inode ip (dinode_off (inum ip))) ;;
  log_write bp ;;
  brelse bp.

Definition idup (i : nat) : M K nat :=
  acquire ItableLock ;;
  iset i (λ x, set_iref (iref x + 1) x) ;;
  release ItableLock ;;
  mret i.

Definition ilock (i : nat) : M K unit :=
  r ← iget_ i iref;
  if r <? 1 then panic "ilock" else
  acquiresleep (SlInode i) ;;
  v ← iget_ i ivalid;
  if v : bool then mret tt else
  ip ← iget_ i id;
  sup ← fget sb;
  bp ← bread (idev ip) (IBLOCK (inum ip) sup);
  m ← bget_ bp bdata;
  iset i (decode_inode m (dinode_off (inum ip))) ;;
  brelse bp ;;
  iset i (set_ivalid true) ;;
  t ← iget_ i itype;
  if t =? 0 then panic "ilock: no type" else mret tt.

Definition iunlock (i : nat) : M K unit :=
  h ← holdingsleep (SlInode i);
  r ← iget_ i iref;
  if negb h || (r <? 1) then panic "iunlock" else
  releasesleep (SlInode i).

(** ** Inode content *)

(** The word [bn] of a block of block numbers. *)
Definition entry (m : memory) (bn : Z) : Z := load32 m (4 * bn).
Definition set_entry (bn v : Z) (m : memory) : memory := store32 m (4 * bn) (u32 v).

(** [if ((addr = ip->addrs[k]) == 0) ... ip->addrs[k] = addr;] *)
Definition addr_of (i : nat) (k : Z) : M K Z :=
  ip ← iget_ i id;
  if addrs ip k =? 0 then
    addr ← balloc (idev ip);
    if addr =? 0 then mret 0 else
    iset i (λ x, set_addrs (<[k := addr]> (addrs x)) x) ;;
    mret addr
  else mret (addrs ip k).

(** Entry [bn] of the indirect block [addr]. *)
Definition bmap_entry (dev addr bn : Z) : M K Z :=
  bp ← bread dev addr;
  m ← bget_ bp bdata;
  addr ←
    (if entry m bn =? 0 then
       addr ← balloc dev;
       (if negb (addr =? 0) then
          bupd bp (set_entry bn addr) ;;
          log_write bp
        else mret tt) ;;
       mret addr
     else mret (entry m bn));
  brelse bp ;;
  mret addr.

Definition bmap (i : nat) (bn : Z) : M K Z :=
  if bn <? NDIRECT then addr_of i bn else
  let bn := bn - NDIRECT in
  if bn <? NINDIRECT then
    addr ← addr_of i NDIRECT;
    if addr =? 0 then mret 0 else
    dev ← iget_ i idev;
    bmap_entry dev addr bn
  else panic "bmap: out of range".

(** The body of the loop over the direct blocks. *)
Definition itrunc_direct (i : nat) (k : Z) : M K unit :=
  ip ← iget_ i id;
  if negb (addrs ip k =? 0) then
    bfree (idev ip) (addrs ip k) ;;
    iset i (λ x, set_addrs (<[k := 0]> (addrs x)) x)
  else mret tt.

(** The body of the loop over the entries of the indirect block [bp]. *)
Definition itrunc_indirect (i bp : nat) (j : Z) : M K unit :=
  m ← bget_ bp bdata;
  dev ← iget_ i idev;
  if negb (entry m j =? 0) then bfree dev (entry m j) else mret tt.

Definition itrunc (i : nat) : M K unit :=
  for_up (Z.to_nat NDIRECT) 0 1 (itrunc_direct i) ;;
  ip ← iget_ i id;
  (if negb (addrs ip NDIRECT =? 0) then
     bp ← bread (idev ip) (addrs ip NDIRECT);
     for_up (Z.to_nat NINDIRECT) 0 1 (itrunc_indirect i bp) ;;
     brelse bp ;;
     bfree (idev ip) (addrs ip NDIRECT) ;;
     iset i (λ x, set_addrs (<[NDIRECT := 0]> (addrs x)) x)
   else mret tt) ;;
  iset i (set_isize 0) ;;
  iupdate i.

Definition iput (i : nat) : M K unit :=
  acquire ItableLock ;;
  ip ← iget_ i id;
  (if (iref ip =? 1) && ivalid ip && (nlink ip =? 0) then
     acquiresleep (SlInode i) ;;
     release ItableLock ;;
     itrunc i ;;
     iset i (set_itype 0) ;;
     iupdate i ;;
     iset i (set_ivalid false) ;;
     releasesleep (SlInode i) ;;
     acquire ItableLock
   else mret tt) ;;
  iset i (λ x, set_iref (iref x - 1) x) ;;
  release ItableLock.

Definition iunlockput (i : nat) : M K unit :=
  iunlock i ;;
  iput i.

(** The body of the loop of [ireclaim]. *)
Definition ireclaim_body (dev ino : Z) : M K unit :=
  sup ← fget sb;
  bp ← bread (u32 dev) (IBLOCK ino sup);
  m ← bget_ bp bdata;
  let o := dinode_off ino in
  ip ← (if negb (dtype m o =? 0) && (dnlink m o =? 0)
        then i ← iget (u32 dev) ino; mret (Some i) else mret None);
  brelse bp ;;
  match ip with
  | Some i => begin_op ;; ilock i ;; iunlock i ;; iput i ;; end_op
  | None => mret tt
  end.

Definition ireclaim (dev : Z) : M K unit :=
  sup ← fget sb;
  for_up (Z.to_nat (ninodes sup - 1)) 1 1 (ireclaim_body dev).

Definition fsinit (dev : Z) : M K unit :=
  readsb dev ;;
  sup ← fget sb;
  if negb (magic sup =? FSMAGIC) then panic "invalid file system" else
  initlog dev sup ;;
  ireclaim dev.

(** The 24 bytes of a struct stat: dev, ino, type, nlink, the 4 bytes of padding
    that the struct had, and size. *)
Definition le_bytes (n : nat) (v : Z) : list Z := map (λ k, byte_at v (Z.of_nat k)) (seq 0 n).
Definition stati (ip : inode) (pad : list Z) : list Z :=
  le_bytes 4 (u32 (idev ip)) ++ le_bytes 4 (u32 (inum ip)) ++ le_bytes 2 (u16 (itype ip)) ++
  le_bytes 2 (u16 (nlink ip)) ++ pad ++ le_bytes 8 (isize ip).

(** [either_copyout] to [d], [tot] bytes further on. *)
Definition copy_to (d : dest) (tot : Z) (bs : list Z) : M K Z :=
  match d with
  | ToUser a => either_copyout true (u64 (a + tot)) bs
  | ToKernel a => either_copyout false (u64 (a + tot)) bs
  | ToLocal => p ← myproc; mret 0
  end.

(** The loop of [readi]; [out] is what was copied so far. *)
Fixpoint readi_loop (fuel : nat) (i : nat) (d : dest) (off n tot : Z) (out : list Z) : M K (Z * list Z) :=
  match fuel with
  | O => nofuel
  | S fuel' =>
      if negb (tot <? n) then mret (s32 tot, out) else
      addr ← bmap i (off / BSIZE);
      if addr =? 0 then mret (s32 tot, out) else
      dev ← iget_ i idev;
      bp ← bread dev addr;
      let m := Z.min (n - tot) (BSIZE - off mod BSIZE) in
      data ← bget_ bp bdata;
      let bs := load_bytes data (off mod BSIZE) m in
      r ← copy_to d tot bs;
      brelse bp ;;
      if r =? -1 then mret (-1, out) else
      readi_loop fuel' i d (u32 (off + m)) n (tot + m) (out ++ bs)
  end.

(** [n] bytes are in at most n / BSIZE + 2 blocks. *)
Definition rounds (n : Z) : nat := Z.to_nat (n / BSIZE + 3).

Definition readi (i : nat) (d : dest) (off n : Z) : M K (Z * list Z) :=
  size ← iget_ i isize;
  if (size <? off) || (u32 (off + n) <? off) then mret (0, []) else
  let n := if size <? u32 (off + n) then size - off else n in
  readi_loop (rounds n) i d off n 0 [].

(** [either_copyin] of [m] bytes from [src], [tot] bytes further on: the result
    and the bytes that arrived. *)
Definition copy_from (src : source) (tot m : Z) : M K (Z * list Z) :=
  match src with
  | FromUser a => either_copyin true (u64 (a + tot)) m
  | FromLocal bs => p ← myproc; mret (0, take (Z.to_nat m) (drop (Z.to_nat tot) bs))
  end.

(** The loop of [writei]: the values of tot and off at its end. *)
Fixpoint writei_loop (fuel : nat) (i : nat) (src : source) (off n tot : Z) : M K (Z * Z) :=
  match fuel with
  | O => nofuel
  | S fuel' =>
      if negb (tot <? n) then mret (tot, off) else
      addr ← bmap i (off / BSIZE);
      if addr =? 0 then mret (tot, off) else
      dev ← iget_ i idev;
      bp ← bread dev addr;
      let m := Z.min (n - tot) (BSIZE - off mod BSIZE) in
      r ← copy_from src tot m;
      bupd bp (λ data, store_bytes data (off mod BSIZE) r.2) ;;
      if r.1 =? -1 then
        brelse bp ;;
        mret (tot, off)
      else
        log_write bp ;;
        brelse bp ;;
        writei_loop fuel' i src (u32 (off + m)) n (tot + m)
  end.

Definition writei (i : nat) (src : source) (off n : Z) : M K Z :=
  size ← iget_ i isize;
  if (size <? off) || (u32 (off + n) <? off) then mret (-1) else
  if MAXFILE * BSIZE <? u32 (off + n) then mret (-1) else
  r ← writei_loop (rounds n) i src off n 0;
  iset i (λ x, if isize x <? r.2 then set_isize r.2 x else x) ;;
  iupdate i ;;
  mret (s32 r.1).

(** ** Directories *)

(** The entry at [off], read whole or a panic with [msg]. *)
Definition read_dirent (i : nat) (off : Z) (msg : string) : M K (list Z) :=
  r ← readi i ToLocal off DIRENT_SIZE;
  if negb (r.1 =? DIRENT_SIZE) then panic msg else mret r.2.

(** The loop of [dirlookup]: the inode and the offset of the entry. *)
Fixpoint dirlookup_loop (fuel : nat) (dp : nat) (name : list Z) (off : Z) : M K (option (nat * Z)) :=
  match fuel with
  | O => nofuel
  | S fuel' =>
      size ← iget_ dp isize;
      if negb (off <? size) then mret None else
      de ← read_dirent dp off "dirlookup read";
      if de_inum de =? 0 then dirlookup_loop fuel' dp name (off + DIRENT_SIZE)
      else if namecmp name (de_name de) =? 0 then
        dev ← iget_ dp idev;
        i ← iget dev (de_inum de);
        mret (Some (i, off))
      else dirlookup_loop fuel' dp name (off + DIRENT_SIZE)
  end.

(** The entries of a directory of this size, and the check that ends the loop. *)
Definition entries (size : Z) : nat := Z.to_nat (size / DIRENT_SIZE + 2).

Definition dirlookup (dp : nat) (name : list Z) : M K (option (nat * Z)) :=
  t ← iget_ dp itype;
  if negb (t =? T_DIR) then panic "dirlookup not DIR" else
  size ← iget_ dp isize;
  dirlookup_loop (entries size) dp name 0.

(** The search for an empty entry in [dirlink]: where the loop stops. *)
Fixpoint dirlink_loop (fuel : nat) (dp : nat) (off : Z) : M K Z :=
  match fuel with
  | O => nofuel
  | S fuel' =>
      size ← iget_ dp isize;
      if negb (off <? size) then mret off else
      de ← read_dirent dp off "dirlink read";
      if de_inum de =? 0 then mret off else dirlink_loop fuel' dp (off + DIRENT_SIZE)
  end.

Definition dirlink (dp : nat) (name : list Z) (ino : Z) : M K Z :=
  ip ← dirlookup dp name;
  match ip with
  | Some (i, _) => iput i ;; mret (-1)
  | None =>
      size ← iget_ dp isize;
      off ← dirlink_loop (entries size) dp 0;
      r ← writei dp (FromLocal (mk_dirent ino (name_field name))) off DIRENT_SIZE;
      if negb (r =? DIRENT_SIZE) then mret (-1) else mret 0
  end.

(** ** Paths *)

Definition slash : Z := 47.

(** [while (path[0] == '/') path++;] *)
Fixpoint skip_slashes (path : list Z) : list Z :=
  match path with
  | c :: path' => if c =? slash then skip_slashes path' else path
  | [] => []
  end.

(** [while (path[0] != '/' && path[0] != 0) path++;]: what is passed, and the rest. *)
Fixpoint element (path : list Z) : list Z * list Z :=
  match path with
  | c :: path' => if c =? slash then ([], path) else let r := element path' in (c :: r.1, r.2)
  | [] => ([], [])
  end.

(** The name buffer has DIRSIZ bytes; a shorter element leaves the bytes after
    its NUL as they were. *)
Definition skipelem (path name : list Z) : option (list Z * list Z) :=
  match skip_slashes path with
  | [] => None
  | path =>
      let (s, path) := element path in
      let len := length s in
      let name := if DIRSIZ <=? Z.of_nat len then take 14 s else s ++ 0 :: drop (S len) name in
      Some (skip_slashes path, name)
  end.

(** The loop of [namex]: the inode, and the name buffer at the end. *)
Fixpoint namex_loop (fuel : nat) (path : list Z) (parent : bool) (name : list Z) (i : nat) :
    M K (option nat * list Z) :=
  match fuel with
  | O => nofuel
  | S fuel' =>
      match skipelem path name with
      | None => if parent then iput i ;; mret (None, name) else mret (Some i, name)
      | Some (path, name) =>
          ilock i ;;
          t ← iget_ i itype;
          if negb (t =? T_DIR) then iunlockput i ;; mret (None, name)
          else if parent && bool_decide (path = []) then iunlock i ;; mret (Some i, name)
          else
            next ← dirlookup i name;
            match next with
            | None => iunlockput i ;; mret (None, name)
            | Some (j, _) => iunlockput i ;; namex_loop fuel' path parent name j
            end
      end
  end.

(** Every round takes at least one byte of the path. *)
Definition namex (path : list Z) (parent : bool) (name : list Z) : M K (option nat * list Z) :=
  i ← (if bool_decide (path !! 0%nat = Some slash) then iget ROOTDEV ROOTINO
       else i ← current; d ← pget i cwd; idup (entry_of d));
  namex_loop (S (length path)) path parent name i.

(** The bytes of an element after its NUL are never used, so the contents of a
    fresh name buffer do not matter. *)
Definition namei (path : list Z) : M K (option nat) :=
  r ← namex path false (repeat 0 14);
  mret r.1.

Definition nameiparent (path : list Z) : M K (option nat * list Z) :=
  namex path true (repeat 0 14).
End fs.
