(* ===== verification/FsBlocks.v ===== *)
(** * The free map

    [balloc], [bfree] and [bzero] of fs.c on the blocks of an open transaction:
    the free map as a set of block numbers, allocation of the first free block,
    and that freeing undoes allocating. *)

From Stdlib Require Import FunctionalExtensionality.
From S2P Require Import Prelude Riscv Memory Kalloc Vm Spinlock Proc ProcOps FsState Sleeplock Bio BioOps BioSpec Log LogOps LogCommit Tx TxOps Fs.

(** ** Bits of a block *)

Lemma bit_free_spec m i : bit_free m i = negb (Z.testbit (m (i / 8)) (i mod 8)).
Proof.
  unfold bit_free, bit_mask. assert (0 ≤ i mod 8 < 8) as Hi by (apply Z.mod_pos_bound; lia). set (k := i mod 8) in *.
  rewrite Z.shiftl_1_l. apply eq_bool_prop_intro. rewrite Is_true_true, Z.eqb_eq, Is_true_true, negb_true_iff. split.
  - intros E. assert (Z.testbit (Z.land (m (i / 8)) (2 ^ k)) k = false) as T by (rewrite E; apply Z.testbit_0_l).
    by rewrite Z.land_spec, Z.pow2_bits_true, andb_true_r in T by lia.
  - intros E. apply Z.bits_inj'. intros j Hj. rewrite Z.land_spec, Z.pow2_bits_eqb, Z.testbit_0_l by lia.
    destruct (Z.eqb_spec k j) as [<-|]; [by rewrite E|apply andb_false_r].
Qed.

(** Marking a block used, and free. *)
Definition mark (i : Z) (m : memory) : memory := upd m (i / 8) (Z.lor (m (i / 8)) (bit_mask i)).
Definition unmark (i : Z) (m : memory) : memory := upd m (i / 8) (Z.land (m (i / 8)) (Z.lnot (bit_mask i))).

Lemma bit_mark i j m : bit_free (mark i m) j = if decide (j = i) then false else bit_free m j.
Proof.
  assert (0 ≤ i mod 8 < 8 ∧ 0 ≤ j mod 8 < 8) as [Hi Hj] by (split; apply Z.mod_pos_bound; lia).
  rewrite !bit_free_spec. unfold mark, upd, bit_mask. rewrite Z.shiftl_1_l. case_decide as E.
  - subst. rewrite Z.eqb_refl, Z.lor_spec, Z.pow2_bits_true by lia. by rewrite orb_true_r.
  - destruct (Z.eqb_spec (j / 8) (i / 8)) as [Ed|Ed]; [|done].
    rewrite Z.lor_spec, Z.pow2_bits_false, orb_false_r, Ed; [done|]. intros Em. apply E. rewrite (Z.div_mod i 8), (Z.div_mod j 8) by lia. lia.
Qed.

Lemma unmark_mark i m : bit_free m i = true → unmark i (mark i m) = m.
Proof.
  rewrite bit_free_spec, negb_true_iff. intros Hf. assert (0 ≤ i mod 8 < 8) as Hi by (apply Z.mod_pos_bound; lia).
  extensionality x. unfold unmark, mark, upd. rewrite Z.eqb_refl. destruct (Z.eqb_spec x (i / 8)) as [->|]; [|done].
  unfold bit_mask. rewrite Z.shiftl_1_l. apply Z.bits_inj'. intros j Hj. rewrite Z.land_spec, Z.lor_spec, Z.lnot_spec, Z.pow2_bits_eqb by lia.
  destruct (Z.eqb_spec (i mod 8) j) as [<-|]; [by rewrite Hf|]. by rewrite orb_false_r, andb_true_r.
Qed.

(** ** The inner loop of balloc *)

Lemma free_bit_spec n bi lim m :
  match free_bit n bi lim m with
  | Some r => bi ≤ r < bi + Z.of_nat n ∧ r < lim ∧ bit_free m r = true ∧ ∀ j, bi ≤ j < r → bit_free m j = false
  | None => ∀ j, bi ≤ j < bi + Z.of_nat n → j < lim → bit_free m j = false
  end.
Proof.
  revert bi. induction n as [|n IH]; intros bi; cbn [free_bit]; [lia|].
  destruct (Z.ltb_spec bi lim) as [Hl|Hl]; cbn [negb]; [|lia]. destruct (bit_free m bi) eqn:Eb.
  - split_and!; [lia|lia|lia|done|lia].
  - specialize (IH (bi + 1)). destruct (free_bit n (bi + 1) lim m) as [r|].
    + destruct IH as (I1 & I2 & I3 & I4). split_and!; [lia|lia|lia|done|]. intros j Hj. destruct (decide (j = bi)) as [->|]; [done|]. apply I4. lia.
    + intros j Hj Hlt. destruct (decide (j = bi)) as [->|]; [done|]. apply IH; lia.
Qed.

(** ** Blocks of the file system *)

(** Block [b] is free in the map. *)
Definition is_free (D : Z → memory) (sbk : superblock) (b : Z) : bool := bit_free (D (BBLOCK b sbk)) (b mod BPB).

(** The blocks of the free map lie outside the log, and no block of the map, no
    block of the log and no locked block is free. *)
Record bmap_ok (H : gset Z) (D : Z → memory) (f : fs) : Prop := {
  bm_size : 0 ≤ sb_size (sb f) < 2 ^ 31;
  bm_start : 0 ≤ bmapstart (sb f) ∧ bmapstart (sb f) + sb_size (sb f) / BPB < 2 ^ 31;
  bm_map b : 0 ≤ b < sb_size (sb f) → ok_block f (BBLOCK b (sb f)) ∧ BBLOCK b (sb f) ∉ H;
  bm_free b : 0 ≤ b < sb_size (sb f) → is_free D (sb f) b = true →
    b ≠ 0 ∧ ok_block f b ∧ b ∉ H ∧ ∀ b', 0 ≤ b' < sb_size (sb f) → b ≠ BBLOCK b' (sb f);
}.

(** What [balloc] and [bfree] do to the contents. *)
Definition allocated (sbk : superblock) (b : Z) (D : Z → memory) : Z → memory :=
  let D' := <[BBLOCK b sbk := mark (b mod BPB) (D (BBLOCK b sbk))]> D in
  <[b := fill (D' b) 0 0 BSIZE]> D'.
Definition freed (sbk : superblock) (b : Z) (D : Z → memory) : Z → memory :=
  <[BBLOCK b sbk := unmark (b mod BPB) (D (BBLOCK b sbk))]> D.

Lemma bblock_same b bi sbk : b mod BPB = 0 → 0 ≤ bi < BPB → BBLOCK (b + bi) sbk = BBLOCK b sbk ∧ (b + bi) mod BPB = bi.
Proof. unfold BBLOCK, BPB, BSIZE. intros. split; [do 2 f_equal; dlia|dlia]. Qed.

Lemma bblock_div b b' sbk n :
  0 ≤ n < 2 ^ 31 → 0 ≤ bmapstart sbk ∧ bmapstart sbk + n / BPB < 2 ^ 31 → 0 ≤ b < n → 0 ≤ b' < n →
  BBLOCK b sbk = BBLOCK b' sbk → b / BPB = b' / BPB.
Proof.
  unfold BBLOCK. intros Hn Hs Hb Hb'. assert (b / BPB ≤ n / BPB ∧ b' / BPB ≤ n / BPB) as [H1 H2] by (split; apply Z.div_le_mono; unfold BPB, BSIZE; lia).
  assert (0 ≤ b / BPB ∧ 0 ≤ b' / BPB) as [H3 H4] by (split; apply Z.div_pos; unfold BPB, BSIZE; lia).
  rewrite !u32_small by lia. lia.
Qed.

(** The least free block. *)
Definition first_free (D : Z → memory) (sbk : superblock) (b : Z) : Prop :=
  0 ≤ b < sb_size sbk ∧ is_free D sbk b = true ∧ ∀ j, 0 ≤ j < b → is_free D sbk j = false.

Section fsblocks.
Context {LY : Layout} {SW : Switch fs} {PA : Patience}.
Context (me : Z) (s : K) (Qs : quiet me s).

Lemma wp_sb f {A} (k : superblock → M K A) Q : wp (k (sb f)) (set_fsys f s) Q → wp (sup ← fget sb; k sup) (set_fsys f s) Q.
Proof. intros HQ. by apply wp_bind, wp_fget. Qed.

Lemma wp_data b f {A} (k : memory → M K A) v Q :
  bdata (bufs (bc f) b) = v → wp (k v) (set_fsys f s) Q → wp (m ← bget_ b bdata; k m) (set_fsys f s) Q.
Proof. intros E HQ. apply wp_bind, wp_bget_. by rewrite E. Qed.

Lemma wp_bzero H D L f n Q :
  tx me ∅ H D L f → ok_block f n → n ∉ H → room 1 L H →
  (∀ f', tx me ∅ H (<[n := fill (D n) 0 0 BSIZE]> D) ({[n]} ∪ L) f' → evolves H f f' → Q tt (set_fsys f' s)) →
  wp (bzero ROOTDEV n) (set_fsys f s) Q.
Proof.
  intros T Hok Hn Hr HQ. unfold bzero. change (u32 ROOTDEV) with ROOTDEV. rewrite (u32_small n) by (destruct Hok; lia).
  apply (wp_tget me s Qs H D L f n); [done..|by eapply room_le; [|exact Hr]; lia|]. intros b f1 T1 H1 E1 _.
  apply (wp_tset me s Qs H D L f1 b n (λ m, fill m 0 0 BSIZE)); [done..|by eapply room_logs|]. intros f2 T2 E2. apply HQ; [done|by etrans].
Qed.

Lemma wp_balloc_loop n b H D L f Q :
  tx me ∅ H D L f → bmap_ok H D f → room 2 L H →
  0 ≤ b → b mod BPB = 0 → sb_size (sb f) - b ≤ Z.of_nat n * BPB → (∀ j, 0 ≤ j < b → j < sb_size (sb f) → is_free D (sb f) j = false) →
  (∀ f', (∀ j, 0 ≤ j < sb_size (sb f) → is_free D (sb f) j = false) → tx me ∅ H D L f' → evolves H f f' → Q 0 (set_fsys f' s)) →
  (∀ r f', first_free D (sb f) r → tx me ∅ H (allocated (sb f) r D) ({[r; BBLOCK r (sb f)]} ∪ L) f' → evolves H f f' →
     Q r (set_fsys f' s)) →
  wp (balloc_loop n ROOTDEV b) (set_fsys f s) Q.
Proof.
  revert b f. induction n as [|n IH]; intros b f T B Hr Hb Hm Hn Hno H0 H1; cbn [balloc_loop].
  { apply wp_ret, H0; [|done..]. intros j Hj. apply Hno; lia. }
  apply wp_sb. destruct (Z.ltb_spec b (sb_size (sb f))) as [Hlt|Hge]; cbn [negb]; [|apply wp_ret, H0; [|done..]; intros j Hj; apply Hno; lia].
  destruct (bm_map _ _ _ B b ltac:(lia)) as [Hok HnH]. set (bb := BBLOCK b (sb f)) in *.
  apply (wp_tget me s Qs H D L f bb); [done..|by eapply room_le; [|exact Hr]; lia|]. intros bp f1 T1 Hh1 E1 Ed1.
  apply (wp_data _ _ _ _ _ Ed1).
  assert (∀ bi, 0 ≤ bi < BPB → is_free D (sb f) (b + bi) = bit_free (D bb) bi) as Hbit.
  { intros bi Hbi. unfold is_free. destruct (bblock_same b bi (sb f)) as [-> ->]; done. }
  pose proof (free_bit_spec (Z.to_nat BPB) 0 (sb_size (sb f) - b) (D bb)) as Hs.
  destruct (free_bit _ _ _ _) as [bi|].
  - destruct Hs as (I1 & I2 & I3 & I4). assert (0 ≤ bi < BPB) as Hbi by (unfold BPB, BSIZE in *; lia).
    destruct (bblock_same b bi (sb f)) as [Eb Em]; [done..|]. fold bb in Eb.
    assert (first_free D (sb f) (b + bi)) as Hff.
    { split; [lia|]. split; [by rewrite Hbit|]. intros j Hj. destruct (decide (j < b)); [apply Hno; lia|].
      replace j with (b + (j - b)) by lia. rewrite Hbit by lia. apply I4. lia. }
    destruct (bm_free _ _ _ B (b + bi)) as (_ & Hok2 & Hn2 & _); [apply Hff..|].
    apply wp_seq3, (wp_tset me s Qs H D L f1 bp bb (mark bi)); [done|done|done|by eapply room_logs|].
    intros f2 T2 E2. apply wp_bind, (wp_bzero H _ _ f2 (b + bi) _ T2).
    + rewrite (ok_block_evolves H f f2) by (by etrans). done.
    + done.
    + by apply room_log.
    + intros f3 T3 E3. apply wp_ret. apply H1; [done| |by do 2 (etrans; [eassumption|])]. unfold allocated. rewrite Eb, Em.
      by replace ({[b + bi; bb]} ∪ L) with ({[b + bi]} ∪ ({[bb]} ∪ L)) by set_solver.
  - apply wp_bind, (wp_tput me s Qs H D L f1 bp bb); [done..|]. intros f2 T2 E2. assert (evolves H f f2) as E by (by etrans).
    pose proof (ev_sb _ _ _ E) as Esb. rewrite <-Esb in H0, H1, Hn, Hno. apply IH; try done.
    + destruct B as [b1 b2 b3 b4]. rewrite <-Esb in b1, b2, b3, b4. split; try done.
      * intros b' Hb'. rewrite (ok_block_evolves H f f2) by done. auto.
      * intros b' Hb' Hf. rewrite (ok_block_evolves H f f2) by done. auto.
    + unfold BPB, BSIZE in *. lia.
    + unfold BPB, BSIZE in *. dlia.
    + lia.
    + intros j Hj Hjs. destruct (decide (j < b)); [apply Hno; lia|]. rewrite Esb in *. replace j with (b + (j - b)) by lia.
      rewrite Hbit by lia. apply Hs; unfold BPB, BSIZE in *; lia.
    + intros f' Hnf T' E'. apply H0; [done|done|by etrans].
    + intros r f' Hf T' E'. apply H1; [done|done|by etrans].
Qed.

Lemma wp_balloc H D L f Q :
  tx me ∅ H D L f → bmap_ok H D f → room 2 L H →
  (∀ f', (∀ j, 0 ≤ j < sb_size (sb f) → is_free D (sb f) j = false) → tx me ∅ H D L f' → evolves H f f' → Q 0 (set_fsys f' s)) →
  (∀ r f', first_free D (sb f) r → tx me ∅ H (allocated (sb f) r D) ({[r; BBLOCK r (sb f)]} ∪ L) f' → evolves H f f' →
     Q r (set_fsys f' s)) →
  wp (balloc ROOTDEV) (set_fsys f s) Q.
Proof.
  intros T B Hr H0 H1. apply wp_sb. pose proof (bm_size _ _ _ B) as Hs.
  apply (wp_balloc_loop _ 0 H D L f); [done..| |lia|done|done]. unfold BPB, BSIZE. dlia.
Qed.

Lemma wp_bfree H D L f b Q :
  tx me ∅ H D L f → bmap_ok H D f → room 1 L H → 0 ≤ b < sb_size (sb f) → is_free D (sb f) b = false →
  (∀ f', tx me ∅ H (freed (sb f) b D) ({[BBLOCK b (sb f)]} ∪ L) f' → evolves H f f' → Q tt (set_fsys f' s)) →
  wp (bfree ROOTDEV b) (set_fsys f s) Q.
Proof.
  intros T B Hr Hb Hf HQ. destruct (bm_map _ _ _ B b Hb) as [Hok HnH]. apply wp_sb. change (u32 ROOTDEV) with ROOTDEV.
  apply (wp_tget me s Qs H D L f); [done..|by eapply room_le; [|exact Hr]; lia|]. intros bp f1 T1 H1 E1 Ed. cbv zeta.
  apply (wp_data _ _ _ _ _ Ed). change (bit_free _ _) with (is_free D (sb f) b). rewrite Hf.
  apply (wp_tset me s Qs H D L f1 bp (BBLOCK b (sb f)) (unmark (b mod BPB))); [done..|by eapply room_logs|]. intros f2 T2 E2. apply HQ; [done|by etrans].
Qed.

(** The map after an allocation. *)
Lemma is_free_allocated H D f b j :
  bmap_ok H D f → first_free D (sb f) b → 0 ≤ j < sb_size (sb f) →
  is_free (allocated (sb f) b D) (sb f) j = if decide (j = b) then false else is_free D (sb f) j.
Proof.
  intros B (Hb & Hf & _) Hj. destruct (bm_free _ _ _ B b Hb Hf) as (_ & _ & _ & Hne). unfold is_free, allocated.
  rewrite (fn_lookup_insert_ne _ b) by (by apply Hne). destruct (decide (BBLOCK j (sb f) = BBLOCK b (sb f))) as [E|E].
  - rewrite E, fn_lookup_insert, bit_mark. apply (bblock_div _ _ _ (sb_size (sb f))) in E; [|apply B..|done|done].
    destruct (decide (j = b)) as [->|Hjb]; [by rewrite decide_True|]. rewrite decide_False; [done|].
    intros Em. apply Hjb. rewrite (Z.div_mod j BPB), (Z.div_mod b BPB) by (unfold BPB, BSIZE; lia). congruence.
  - rewrite fn_lookup_insert_ne by done. case_decide; [by subst|done].
Qed.

Lemma bmap_ok_allocated H D f f' b :
  bmap_ok H D f → first_free D (sb f) b → evolves H f f' → bmap_ok H (allocated (sb f) b D) f'.
Proof.
  intros B Hff E. pose proof (ev_sb _ _ _ E) as Esb. pose proof B as [b1 b2 b3 b4]. split; rewrite Esb; try done.
  - intros j Hj. rewrite (ok_block_evolves _ _ _ _ E). auto.
  - intros j Hj. rewrite (is_free_allocated H D f), (ok_block_evolves _ _ _ _ E) by done. case_decide; [done|]. auto.
Qed.
End fsblocks.

(** ** Properties *)

Section props.
Context {LY : Layout} {SW : Switch fs} {PA : Patience}.

(** [balloc] allocates the first free block: it marks exactly that block in
    the free map, zeroes it, and records both blocks in the log.  It returns 0
    and changes nothing exactly when no block is free. *)
Lemma balloc_first_free me (s : K) H D L f :
  quiet me s → tx me ∅ H D L f → bmap_ok H D f → room 2 L H →
  wp (balloc ROOTDEV) (set_fsys f s) (λ r s', ∃ f', s' = set_fsys f' s ∧ evolves H f f' ∧
    (r = 0 ∧ (∀ j, 0 ≤ j < sb_size (sb f) → is_free D (sb f) j = false) ∧ tx me ∅ H D L f' ∨
     r ≠ 0 ∧ first_free D (sb f) r ∧
     tx me ∅ H (allocated (sb f) r D) ({[r; BBLOCK r (sb f)]} ∪ L) f' ∧
     ∀ j, 0 ≤ j < sb_size (sb f) →
       is_free (allocated (sb f) r D) (sb f) j = if decide (j = r) then false else is_free D (sb f) j)).
Proof.
  intros Qs T B Hr. apply (wp_balloc me s Qs H D L f); [done..| |].
  - intros f' Hno T' E. exists f'. auto 6.
  - intros r f' Hf T' E. exists f'. split_and!; [done..|right]. split_and!; try done.
    + apply (bm_free _ _ _ B r); apply Hf.
    + intros j Hj. by apply (is_free_allocated H).
Qed.

(** Freeing undoes allocating: [balloc] followed by [bfree] of its block
    leaves every block, the free map included, as it was, but for the block
    itself, which is zeroed. *)
Lemma bfree_undoes_balloc me (s : K) H D L f r :
  quiet me s → tx me ∅ H D L f → bmap_ok H D f → room 3 L H → first_free D (sb f) r →
  wp (b ← balloc ROOTDEV; bfree ROOTDEV b) (set_fsys f s) (λ _ s', ∃ f', s' = set_fsys f' s ∧ evolves H f f' ∧
    tx me ∅ H (<[r := fill (D r) 0 0 BSIZE]> D) ({[r; BBLOCK r (sb f)]} ∪ L) f').
Proof.
  intros Qs T B Hr Hf. destruct Hf as (Hr1 & Hr2 & Hr3). apply wp_bind, (wp_balloc me s Qs H D L f); [done..|by eapply room_le; [|exact Hr]; lia| |].
  { intros f' Hno. rewrite Hno in Hr2 by done. done. }
  intros r' f1 Hf T1 E1. assert (r' = r) as ->.
  { destruct Hf as (F1 & F2 & F3). destruct (Z.lt_trichotomy r r') as [Hl|[->|Hl]]; [|done|].
    - rewrite F3 in Hr2 by lia. done. - rewrite Hr3 in F2 by lia. done. }
  pose proof (ev_sb _ _ _ E1) as Esb. pose proof (bmap_ok_allocated H D f f1 r B Hf E1) as B1.
  destruct (bm_free _ _ _ B r Hr1 Hr2) as (_ & _ & _ & Hne). specialize (Hne r Hr1).
  apply (wp_bfree me s Qs H _ _ f1 r _ T1 B1); rewrite ?Esb; [|done| |].
  - eapply (room_sub _ ({[r]} ∪ ({[BBLOCK r (sb f)]} ∪ L)) H); [set_solver|]. by do 2 apply room_log.
  - rewrite (is_free_allocated H D f) by done. by rewrite decide_True.
  - intros f2 T2 E2. exists f2. split; [done|]. split; [by etrans|].
    assert ({[BBLOCK r (sb f)]} ∪ ({[r; BBLOCK r (sb f)]} ∪ L) = {[r; BBLOCK r (sb f)]} ∪ L) as EL by set_solver. rewrite EL in T2.
    assert (freed (sb f) r (allocated (sb f) r D) = <[r := fill (D r) 0 0 BSIZE]> D) as ED; [|by rewrite ED in T2].
    extensionality x. unfold freed, allocated. rewrite (fn_lookup_insert_ne _ r (BBLOCK r (sb f))), (fn_lookup_insert_ne _ _ r), fn_lookup_insert by done.
    destruct (decide (x = BBLOCK r (sb f))) as [->|Hx]; [rewrite fn_lookup_insert, fn_lookup_insert_ne by done; by apply unmark_mark|].
    rewrite fn_lookup_insert_ne by done. destruct (decide (x = r)) as [->|]; [by rewrite !fn_lookup_insert|by rewrite !fn_lookup_insert_ne].
Qed.

(** Freeing a block that is free already panics. *)
Lemma bfree_free_panics me (s : K) H D L f b :
  quiet me s → tx me ∅ H D L f → bmap_ok H D f → room 1 L H → 0 ≤ b < sb_size (sb f) → is_free D (sb f) b = true →
  bfree ROOTDEV b (set_fsys f s) = Panic "freeing free block".
Proof.
  intros Qs T B Hr Hb Hf. destruct (bm_map _ _ _ B b Hb) as [Hok HnH]. apply panic_bind, wp_fget. change (u32 ROOTDEV) with ROOTDEV.
  apply panic_bind, (wp_tread me s Qs ∅ H D L f); [done..|by eapply room_read|]. intros bp f1 T1 H1 _. cbv zeta.
  apply panic_bind, wp_bget_. rewrite (tx_data me ∅ ({[BBLOCK b (sb f)]} ∪ H) D L f1 bp (BBLOCK b (sb f))) by (done || set_solver).
  change (bit_free _ _) with (is_free D (sb f) b). by rewrite Hf.
Qed.
End props.
