(* ===== verification/FsInode.v ===== *)
(** * Inodes

    The encoding of an inode in its block, [iupdate] and [ilock] as its two
    directions, and the table of inodes in memory: [iget] and [idup]. *)

From Stdlib Require Import FunctionalExtensionality.
From S2P Require Import Prelude Riscv Memory Kalloc Vm Spinlock Proc ProcOps FsState Sleeplock Bio BioOps BioSpec Log LogOps LogCommit Tx TxOps Fs FsBlocks.

(** ** The dinode *)

(** The fields are in the range of their C types. *)
Record inode_range (ip : inode) : Prop := {
  ir_type : - 2 ^ 15 ≤ itype ip < 2 ^ 15;
  ir_major : - 2 ^ 15 ≤ imajor ip < 2 ^ 15;
  ir_minor : - 2 ^ 15 ≤ iminor ip < 2 ^ 15;
  ir_nlink : - 2 ^ 15 ≤ nlink ip < 2 ^ 15;
  ir_size : 0 ≤ isize ip < 2 ^ 32;
  ir_addrs k : 0 ≤ k ≤ NDIRECT → 0 ≤ addrs ip k < 2 ^ 32;
}.

(** What the disk keeps of an inode. *)
Definition same_dinode (ip ip' : inode) : Prop :=
  itype ip' = itype ip ∧ imajor ip' = imajor ip ∧ iminor ip' = iminor ip ∧ nlink ip' = nlink ip ∧
  isize ip' = isize ip ∧ ∀ k, 0 ≤ k ≤ NDIRECT → addrs ip' k = addrs ip k.

Lemma s16_u16 x : - 2 ^ 15 ≤ x < 2 ^ 15 → s16 (u16 x) = x.
Proof. unfold s16, u16. intros. dlia. Qed.
Lemma u16_range x : 0 ≤ u16 x < 2 ^ (8 * Z.of_nat 2).
Proof. apply Z.mod_pos_bound. lia. Qed.
Lemma u32_word x : 0 ≤ u32 x < 2 ^ (8 * Z.of_nat 4).
Proof. apply Z.mod_pos_bound. lia. Qed.

Lemma store_addrs_outside n i a o m x :
  x < o + 12 + 4 * i ∨ o + 12 + 4 * (i + Z.of_nat n) ≤ x → store_addrs n i a o m x = m x.
Proof.
  revert i m. induction n as [|n IH]; intros i m Hx; [done|]. cbn [store_addrs]. rewrite IH by lia.
  unfold store32, store_le. mem_cases; [lia|done|done].
Qed.

Lemma load_addrs_outside k n i a o m x :
  x + Z.of_nat k ≤ o + 12 + 4 * i ∨ o + 12 + 4 * (i + Z.of_nat n) ≤ x → load_le k (store_addrs n i a o m) x = load_le k m x.
Proof. intros Hx. apply load_le_ext. intros j Hj. apply store_addrs_outside. lia. Qed.

Lemma load_addrs n i a o m j : i ≤ j < i + Z.of_nat n → load32 (store_addrs n i a o m) (o + 12 + 4 * j) = u32 (a j).
Proof.
  revert i m. induction n as [|n IH]; intros i m Hj; [lia|]. cbn [store_addrs]. destruct (decide (j = i)) as [->|Hne].
  - unfold load32. rewrite load_addrs_outside by (left; simpl; lia). apply load_store_same, u32_word.
  - apply IH. lia.
Qed.

(** Decoding gives back what was encoded. *)
Lemma decode_encode ip ip' o m : inode_range ip → same_dinode ip (decode_inode (encode_inode ip o m) o ip').
Proof.
  intros [r1 r2 r3 r4 r5 r6]. unfold same_dinode, decode_inode, encode_inode, load16, load32, store16, store32.
  cbn [itype imajor iminor nlink isize addrs].
  split_and!; try (rewrite load_addrs_outside by (left; simpl; lia)).
  - rewrite !load_store_other by (left; simpl; lia). rewrite load_store_same by apply u16_range. by apply s16_u16.
  - rewrite !(load_store_other _ _ _ (o + 8)), !(load_store_other _ _ _ (o + 6)), !(load_store_other _ _ _ (o + 4)) by (left; simpl; lia).
    rewrite load_store_same by apply u16_range. by apply s16_u16.
  - rewrite !(load_store_other _ _ _ (o + 8)), !(load_store_other _ _ _ (o + 6)) by (left; simpl; lia).
    rewrite load_store_same by apply u16_range. by apply s16_u16.
  - rewrite !(load_store_other _ _ _ (o + 8)) by (left; simpl; lia). rewrite load_store_same by apply u16_range. by apply s16_u16.
  - rewrite load_store_same by apply u32_word. by apply u32_small.
  - intros k Hk. change (load_le 4) with load32. unfold NDIRECT in *. rewrite load_addrs by lia. apply u32_small, r6. done.
Qed.

(** Only the 64 bytes of the dinode change. *)
Lemma encode_outside ip o m x : x < o ∨ o + DINODE_SIZE ≤ x → encode_inode ip o m x = m x.
Proof.
  intros Hx. unfold encode_inode, DINODE_SIZE in *. rewrite store_addrs_outside by lia. unfold store16, store32, store_le.
  repeat (mem_cases; try lia; try done).
Qed.

(** ** iupdate and ilock *)

Section fsinode.
Context {LY : Layout} {SW : Switch fs} {PA : Patience}.
Context (me : Z) (s : K) (Qs : quiet me s).

(** The block of an inode number. *)
Definition inode_block (f : fs) (ino : Z) : Z := IBLOCK ino (sb f).

Lemma wp_iupdate H D L f i Q :
  tx me ∅ H D L f → idev (itable f i) = ROOTDEV →
  let ib := inode_block f (inum (itable f i)) in
  ok_block f ib → ib ∉ H → room 1 L H →
  (∀ f', tx me ∅ H (<[ib := encode_inode (itable f i) (dinode_off (inum (itable f i))) (D ib)]> D) ({[ib]} ∪ L) f' →
     evolves H f f' → Q tt (set_fsys f' s)) →
  wp (iupdate i) (set_fsys f s) Q.
Proof.
  intros T Ed ib Hok Hn Hr HQ. apply wp_bind, wp_fget. cbn [fsys set_fsys id]. apply wp_sb. rewrite Ed.
  apply (wp_tget me s Qs H D L f ib); [done..|by eapply room_le; [|exact Hr]; lia|]. intros b f1 T1 H1 E1 _.
  apply (wp_tset me s Qs H D L f1 b ib (encode_inode (itable f i) (dinode_off (inum (itable f i))))); [done..|by eapply room_logs|].
  intros f2 T2 E2. apply HQ; [done|by etrans].
Qed.

(** The state with inode entry [i] replaced. *)
Definition put_inode (i : nat) (ip : inode) (f : fs) : fs := set_itable (<[i := ip]> (itable f)) f.

Lemma put_inode_eq i ip f : itable (put_inode i ip f) i = ip.
Proof. apply fn_lookup_insert. Qed.
Lemma put_inode_twice i ip ip' f : put_inode i ip' (put_inode i ip f) = put_inode i ip' f.
Proof. unfold put_inode, set_itable. cbn [bc lg sb itable ftable]. f_equal. extensionality j. by fn_case i j. Qed.

Lemma wp_iset i g f Q : Q tt (set_fsys (put_inode i (g (itable f i)) f) s) → wp (iset i g) (set_fsys f s) Q.
Proof. intros HQ. by apply wp_fmod. Qed.
Lemma wp_iget_ {A} i (g : inode → A) f Q : Q (g (itable f i)) (set_fsys f s) → wp (iget_ i g) (set_fsys f s) Q.
Proof. intros HQ. by apply wp_fget. Qed.

(** A change of the table of inodes does not touch the blocks. *)
Lemma tx_itable X H D L t f : tx me X H D L f → tx me X H D L (set_itable t f).
Proof. done. Qed.
Lemma evolves_put H i ip f f' : evolves H f f' → evolves H (put_inode i ip f) (put_inode i ip f').
Proof. intros []. split; try done. simpl. congruence. Qed.

(** The entry after [ilock]: locked, and read from its block if need be. *)
Definition locked_inode (D : Z → memory) (f : fs) (ip : inode) : inode :=
  let ip := set_ilk (mkSleep true me) ip in
  if ivalid ip then ip
  else set_ivalid true (decode_inode (D (inode_block f (inum ip))) (dinode_off (inum ip)) ip).

Lemma wp_ilock H D L f i Q :
  let ip := itable f i in
  tx me ∅ H D L f → 1 ≤ iref ip → sl_locked (ilk ip) = false →
  (ivalid ip = false → idev ip = ROOTDEV ∧ ok_block f (inode_block f (inum ip)) ∧ inode_block f (inum ip) ∉ H ∧ room 0 L H ∧
     itype (locked_inode D f ip) ≠ 0) →
  (∀ f', tx me ∅ H D L f' → evolves H (put_inode i (locked_inode D f ip) f) f' → Q tt (set_fsys f' s)) →
  wp (ilock i) (set_fsys f s) Q.
Proof.
  intros ip T Hr Hl Hv HQ. apply wp_bind, wp_iget_. fold ip. destruct (Z.ltb_spec (iref ip) 1); [lia|].
  apply wp_bind, (wp_acquiresleep me); [done|done|]. cbn [with_sleep]. fold ip. set (ip1 := set_ilk (mkSleep true me) ip).
  change (set_itable _ f) with (put_inode i ip1 f). set (f1 := put_inode i ip1 f). assert (tx me ∅ H D L f1) as T1 by exact T.
  assert (itable f1 i = ip1) as E1 by apply put_inode_eq.
  apply wp_bind, wp_iget_. rewrite E1. unfold locked_inode in *. fold ip1 in HQ, Hv. cbv zeta in *.
  change (ivalid ip1) with (ivalid ip) in *. destruct (ivalid ip) eqn:Ev; [by apply wp_ret, HQ|].
  destruct (Hv eq_refl) as (Ed & Hok & Hn & Hroom & Ht). change (inum ip1) with (inum ip) in *. set (ib := inode_block f (inum ip)) in *.
  apply wp_bind, wp_iget_. rewrite E1. cbn [id]. change (idev ip1) with (idev ip). rewrite Ed. apply wp_sb.
  apply (wp_tget me s Qs H D L f1 ib); [done..|]. intros b f2 T2 H2 E2 Hd. apply (wp_data _ _ _ _ _ _ Hd).
  apply wp_bind, wp_iset. rewrite (ev_itable _ _ _ E2). rewrite E1. change (inum ip1) with (inum ip).
  set (ip2 := decode_inode _ _ ip1) in *. apply wp_bind, (wp_tput me s Qs H D L (put_inode i ip2 f2) b ib); [done..|]. intros f3 T3 E3.
  apply wp_bind, wp_iset. rewrite (ev_itable _ _ _ E3), put_inode_eq. apply wp_bind, wp_iget_. rewrite put_inode_eq.
  destruct (Z.eqb_spec (itype (set_ivalid true ip2)) 0); [done|]. apply wp_ret, HQ; [exact T3|].
  apply (evolves_put H i (set_ivalid true ip2)) in E3, E2. rewrite put_inode_twice in E3. unfold f1 in E2. rewrite put_inode_twice in E2. by etrans.
Qed.

Lemma wp_iunlock f i Q :
  1 ≤ iref (itable f i) → ilk (itable f i) = mkSleep true me →
  Q tt (set_fsys (put_inode i (set_ilk unlocked_sleep (itable f i)) f) s) → wp (iunlock i) (set_fsys f s) Q.
Proof.
  intros Hr Hl HQ. apply wp_bind, (wp_holdingsleep me); [done|]. cbn [sl_get]. rewrite Hl. cbn [sl_locked sl_pid andb]. rewrite Z.eqb_refl.
  apply wp_bind, wp_iget_. destruct (Z.ltb_spec (iref (itable f i)) 1); [lia|]. cbn [negb orb]. by apply (wp_releasesleep me).
Qed.
End fsinode.

(** ** The table of inodes *)

(** No inode has two entries in use. *)
Record itable_ok (t : nat → inode) : Prop := {
  it_ref i : (i < NINODE)%nat → 0 ≤ iref (t i);
  it_uniq i j : (i < NINODE)%nat → (j < NINODE)%nat → 0 < iref (t i) → 0 < iref (t j) →
    idev (t i) = idev (t j) → inum (t i) = inum (t j) → i = j;
}.

(** Entry [ip] is in use for inode [ino] of [dev]. *)
Definition holds (dev ino : Z) (ip : inode) : Prop := 0 < iref ip ∧ idev ip = dev ∧ inum ip = ino.

#[export] Instance holds_dec dev ino ip : Decision (holds dev ino ip).
Proof. unfold holds. apply _. Defined.

Lemma iget_find_spec n i t dev ino e :
  match iget_find n i t dev ino e with
  | (Some k, _) => (i ≤ k < i + n)%nat ∧ holds dev ino (t k)
  | (None, r) => (∀ k, (i ≤ k < i + n)%nat → ¬ holds dev ino (t k)) ∧
      match e with
      | Some _ => r = e
      | None => match r with
                | Some k => (i ≤ k < i + n)%nat ∧ iref (t k) = 0 ∧ ∀ j, (i ≤ j < k)%nat → iref (t j) ≠ 0
                | None => ∀ k, (i ≤ k < i + n)%nat → iref (t k) ≠ 0
                end
      end
  end.
Proof.
  revert i e. induction n as [|n IH]; intros i e; cbn [iget_find].
  { split; [lia|]. destruct e; [done|lia]. }
  destruct ((0 <? iref (t i)) && (idev (t i) =? dev) && (inum (t i) =? ino)) eqn:Eh.
  { apply andb_true_iff in Eh as [[H1%Z.ltb_lt H2%Z.eqb_eq]%andb_true_iff H3%Z.eqb_eq]. split; [lia|]. by split. }
  assert (¬ holds dev ino (t i)) as Hni.
  { intros (H1 & H2 & H3). rewrite (proj2 (Z.ltb_lt _ _) H1), H2, H3, !Z.eqb_refl in Eh. done. }
  specialize (IH (S i) (match e with Some _ => e | None => if iref (t i) =? 0 then Some i else None end)).
  destruct (iget_find n (S i) t dev ino _) as [[k|] r]; [destruct IH as [? ?]; split; [lia|done]|].
  destruct IH as [IH1 IH2]. split.
  { intros k Hk. destruct (decide (k = i)) as [->|]; [done|]. apply IH1. lia. }
  destruct e as [e|]; [done|]. destruct (Z.eqb_spec (iref (t i)) 0) as [E0|E0].
  - subst r. split_and!; [lia|lia|done|lia].
  - destruct r as [k|].
    + destruct IH2 as (I1 & I2 & I3). split_and!; [lia|lia|done|]. intros j Hj. destruct (decide (j = i)) as [->|]; [done|]. apply I3. lia.
    + intros k Hk. destruct (decide (k = i)) as [->|]; [done|]. apply IH2. lia.
Qed.

Lemma itable_ok_put t i ip :
  itable_ok t → 0 ≤ iref ip → (0 < iref ip → ∀ j, (j < NINODE)%nat → j ≠ i → ¬ holds (idev ip) (inum ip) (t j)) →
  itable_ok (<[i := ip]> t).
Proof.
  intros [I1 I2] Hp Hn. split.
  - intros j Hj. destruct (decide (j = i)) as [->|]; [by rewrite fn_lookup_insert|]. rewrite fn_lookup_insert_ne by done. auto.
  - intros j k Hj Hk. destruct (decide (j = i)) as [->|Hji], (decide (k = i)) as [->|Hki];
      rewrite ?fn_lookup_insert, ?fn_lookup_insert_ne by done; try done; [| |by apply I2].
    + intros Hp1 Hp2 E1 E2. by destruct (Hn Hp1 k Hk Hki).
    + intros Hp1 Hp2 E1 E2. by destruct (Hn Hp2 j Hj Hji).
Qed.

Section props.
Context {LY : Layout} {SW : Switch fs} {PA : Patience}.

(** The entry [iget] makes of a free one. *)
Definition fresh_inode (dev ino : Z) (x : inode) : inode :=
  mkInode dev ino 1 (ilk x) false (itype x) (imajor x) (iminor x) (nlink x) (isize x) (addrs x).

Lemma wp_iget me (s : K) f dev ino Q :
  quiet me s → itable_ok (itable f) →
  (∃ k, (k < NINODE)%nat ∧ (holds dev ino (itable f k) ∨ iref (itable f k) = 0)) →
  (∀ i, (i < NINODE)%nat → holds dev ino (itable f i) →
     Q i (set_fsys (put_inode i (set_iref (iref (itable f i) + 1) (itable f i)) f) s)) →
  (∀ i, (i < NINODE)%nat → (∀ k, (k < NINODE)%nat → ¬ holds dev ino (itable f k)) → iref (itable f i) = 0 →
     (∀ j, (j < i)%nat → iref (itable f j) ≠ 0) → Q i (set_fsys (put_inode i (fresh_inode dev ino (itable f i)) f) s)) →
  wp (iget dev ino) (set_fsys f s) Q.
Proof.
  intros Qs I Hex H1 H2. apply wp_bind, (wp_enter me); [done|]. apply wp_bind, wp_fget. cbn [fsys set_fsys].
  pose proof (iget_find_spec NINODE 0 (itable f) dev ino None) as Hf. destruct (iget_find _ _ _ _ _ _) as [[i|] [e|]].
  - destruct Hf as [Hi Hh]. apply wp_bind, wp_iset. apply wp_bind, (wp_exit me); [done|]. apply wp_ret, H1; [lia|done].
  - destruct Hf as [Hi Hh]. apply wp_bind, wp_iset. apply wp_bind, (wp_exit me); [done|]. apply wp_ret, H1; [lia|done].
  - destruct Hf as (Hno & Hi & E0 & Hlt). apply wp_bind, wp_iset. apply wp_bind, (wp_exit me); [done|]. apply wp_ret, H2; [lia| |done|].
    + intros k Hk. apply Hno. lia.
    + intros j Hj. apply Hlt. lia.
  - destruct Hf as [Hno Hfull]. destruct Hex as (k & Hk & [Hh|E0]); [by destruct (Hno k ltac:(lia))|by destruct (Hfull k ltac:(lia))].
Qed.

(** C30. What [iupdate] writes, [ilock] reads: an entry that is locked after
    another entry of the same inode was written out has its type, device numbers,
    link count, size and block addresses. *)
Theorem inode_roundtrip me (s : K) H D L f i j :
  let ip := itable f i in let jp := itable f j in
  quiet me s → tx me ∅ H D L f → room 1 L H → inode_range ip → itype ip ≠ 0 → idev ip = ROOTDEV →
  ok_block f (inode_block f (inum ip)) → inode_block f (inum ip) ∉ H →
  1 ≤ iref jp → sl_locked (ilk jp) = false → ivalid jp = false → idev jp = idev ip → inum jp = inum ip →
  wp (iupdate i ;; ilock j) (set_fsys f s) (λ _ s', ∃ f', s' = set_fsys f' s ∧
    ivalid (itable f' j) = true ∧ ilk (itable f' j) = mkSleep true me ∧ same_dinode ip (itable f' j)).
Proof.
  intros ip jp Qs T Hr Hrg Ht Hd Hok Hn J1 J2 J3 J4 J5. apply wp_bind, (wp_iupdate me s Qs H D L f i); [done..|]. fold ip. intros f1 T1 E1.
  set (ib := inode_block f (inum ip)) in *. pose proof (ev_itable _ _ _ E1) as Et.
  assert (∀ n, inode_block f1 n = inode_block f n) as Eib by (intros n; unfold inode_block; by rewrite (ev_sb _ _ _ E1)).
  assert (∃ ip', locked_inode me (<[ib := encode_inode ip (dinode_off (inum ip)) (D ib)]> D) f1 jp = ip' ∧
    ivalid ip' = true ∧ ilk ip' = mkSleep true me ∧ same_dinode ip ip') as (ip' & El & Hv & Hl & Hsd).
  { eexists. split; [done|]. unfold locked_inode. cbv zeta. change (ivalid (set_ilk _ jp)) with (ivalid jp). rewrite J3.
    split; [done|]. split; [done|]. change (inum (set_ilk _ jp)) with (inum jp). rewrite J5, Eib. fold ib. rewrite fn_lookup_insert. by apply decode_encode. }
  apply (wp_ilock me s Qs H _ _ f1 j _ T1); rewrite ?Et; fold jp; [done|done| |].
  - intros _. rewrite J4, J5, Eib, (ok_block_evolves _ _ _ _ E1). split_and!; [done..|by apply room_log|].
    rewrite El. by destruct Hsd as (-> & _).
  - intros f2 T2 E2. exists f2. split; [done|]. rewrite (ev_itable _ _ _ E2), put_inode_eq. by rewrite El.
Qed.

(** [iget] never makes a second entry for an inode: it returns the entry in
    use for it with one more reference, or else turns the first free entry into
    an unread one with one reference.  With no such entry it panics. *)
Lemma iget_unique me (s : K) f dev ino :
  quiet me s → itable_ok (itable f) →
  if decide (Exists (λ k, holds dev ino (itable f k) ∨ iref (itable f k) = 0) (seq 0 NINODE)) then
    wp (iget dev ino) (set_fsys f s) (λ i s', ∃ ip, s' = set_fsys (put_inode i ip f) s ∧ (i < NINODE)%nat ∧
      holds dev ino ip ∧ itable_ok (<[i := ip]> (itable f)) ∧
      (holds dev ino (itable f i) ∧ ip = set_iref (iref (itable f i) + 1) (itable f i) ∨
       (∀ k, (k < NINODE)%nat → ¬ holds dev ino (itable f k)) ∧ iref (itable f i) = 0 ∧
       (∀ j, (j < i)%nat → iref (itable f j) ≠ 0) ∧ ip = fresh_inode dev ino (itable f i)))
  else iget dev ino (set_fsys f s) = Panic "iget: no inodes".
Proof.
  intros Qs I. destruct (decide _) as [Hex|Hex].
  - apply Exists_exists in Hex as (k & Hk%elem_of_seq & Hex). apply (wp_iget me); [done|done|exists k; split; [lia|done]|..].
    + intros i Hi Hh. eexists. split; [done|]. pose proof Hh as (H1 & H2 & H3). split_and!; [done|split_and!; simpl; [lia|done..]| |by left].
      apply itable_ok_put; [done|simpl; lia|]. intros _ j Hj Hne (J1 & J2 & J3). apply Hne. apply (it_uniq _ I j i); try done; simpl in *; congruence.
    + intros i Hi Hno E0 Hlt. eexists. split; [done|]. split_and!; [done|by split_and!| |by right]. apply itable_ok_put; [done..|].
      intros _ j Hj _. by apply Hno.
  - apply panic_bind, (wp_enter me); [done|]. apply panic_bind, wp_fget. cbn [fsys set_fsys].
    pose proof (iget_find_spec NINODE 0 (itable f) dev ino None) as Hf.
    assert (∀ k, (k < NINODE)%nat → ¬ holds dev ino (itable f k) ∧ iref (itable f k) ≠ 0) as Hn.
    { intros k Hk. split; intros Hc; apply Hex, Exists_exists; exists k; rewrite elem_of_seq; (split; [lia|tauto]). }
    destruct (iget_find _ _ _ _ _ _) as [[i|] [e|]]; [..|done].
    + destruct Hf as [Hi Hh]. by destruct (Hn i ltac:(lia)).
    + destruct Hf as [Hi Hh]. by destruct (Hn i ltac:(lia)).
    + destruct Hf as (_ & Hi & E0 & _). by destruct (Hn e ltac:(lia)).
Qed.
End props.
