(* ===== verification/FsFile.v ===== *)
(** * Contents of files

    The blocks of a file, and [bmap], which finds or allocates the n-th one. *)

From Stdlib Require Import FunctionalExtensionality.
From S2P Require Import Prelude Riscv Memory Kalloc Vm Spinlock Proc ProcOps FsState Sleeplock Bio BioOps BioSpec Log LogOps LogCommit Tx TxOps Fs FsBlocks FsInode.

(** The address of block [bn] of a file, 0 if there is none. *)
Definition baddr (D : Z → memory) (ip : inode) (bn : Z) : Z :=
  if bn <? NDIRECT then addrs ip bn
  else if addrs ip NDIRECT =? 0 then 0 else entry (D (addrs ip NDIRECT)) (bn - NDIRECT).

(** A block that is in use for data. *)
Record data_block (H : gset Z) (D : Z → memory) (f : fs) (b : Z) : Prop := {
  db_range : 0 < b < sb_size (sb f);
  db_used : is_free D (sb f) b = false;
  db_ok : ok_block f b;
  db_held : b ∉ H;
  db_map b' : 0 ≤ b' < sb_size (sb f) → b ≠ BBLOCK b' (sb f);
}.

(** The blocks of a file are blocks of data, all different. *)
Record file_ok (H : gset Z) (D : Z → memory) (f : fs) (ip : inode) : Prop := {
  fo_map : bmap_ok H D f;
  fo_dev : idev ip = ROOTDEV;
  fo_ind : addrs ip NDIRECT ≠ 0 → data_block H D f (addrs ip NDIRECT);
  fo_data bn : 0 ≤ bn < MAXFILE → baddr D ip bn ≠ 0 → data_block H D f (baddr D ip bn) ∧ baddr D ip bn ≠ addrs ip NDIRECT;
  fo_inj bn bn' : 0 ≤ bn < MAXFILE → 0 ≤ bn' < MAXFILE → baddr D ip bn ≠ 0 → baddr D ip bn = baddr D ip bn' → bn = bn';
}.

Lemma entry_set k j v m : 0 ≤ v < 2 ^ 32 → entry (set_entry k v m) j = if decide (j = k) then v else entry m j.
Proof.
  intros Hv. unfold entry, set_entry, load32, store32. rewrite u32_small by done. case_decide as E.
  - subst. apply load_store_same. done.
  - apply load_store_other. simpl. lia.
Qed.

Lemma entry_zero m k : 0 ≤ k < NINDIRECT → entry (fill m 0 0 BSIZE) k = 0.
Proof. intros Hk. change NINDIRECT with 256 in Hk. change BSIZE with 1024. apply load_fill_zero; simpl; lia. Qed.

(** ** Allocation and the blocks in use *)

(** A block in use is not the one allocated, and keeps its contents. *)
Lemma data_block_ne H D f b r : data_block H D f b → first_free D (sb f) r → b ≠ r.
Proof. intros [_ E _ _ _] (_ & E' & _) ->. congruence. Qed.

Lemma allocated_same H D f b r :
  bmap_ok H D f → data_block H D f b → first_free D (sb f) r → allocated (sb f) r D b = D b.
Proof.
  intros B Hb Hr. pose proof (data_block_ne _ _ _ _ _ Hb Hr). unfold allocated. rewrite fn_lookup_insert_ne by done.
  apply fn_lookup_insert_ne, not_eq_sym, (db_map _ _ _ _ Hb), Hr.
Qed.

Lemma data_block_allocated H D f f' b r :
  bmap_ok H D f → data_block H D f b → first_free D (sb f) r → evolves H f f' → data_block H (allocated (sb f) r D) f' b.
Proof.
  intros B Hb Hr E. pose proof (data_block_ne _ _ _ _ _ Hb Hr) as Hne. pose proof (ev_sb _ _ _ E) as Es. destruct Hb as [b1 b2 b3 b4 b5].
  split; rewrite ?Es; try done; [|by rewrite (ok_block_evolves _ _ _ _ E)].
  rewrite (is_free_allocated H) by (done || lia). by rewrite decide_False.
Qed.

Lemma data_block_new H D f f' r :
  bmap_ok H D f → first_free D (sb f) r → evolves H f f' → data_block H (allocated (sb f) r D) f' r.
Proof.
  intros B Hr E. pose proof (ev_sb _ _ _ E) as Es. pose proof Hr as (R1 & R2 & R3). destruct (bm_free _ _ _ B r R1 R2) as (F1 & F2 & F3 & F4).
  split; rewrite ?Es; try done; [lia| |by rewrite (ok_block_evolves _ _ _ _ E)].
  rewrite (is_free_allocated H) by done. by rewrite decide_True.
Qed.

Lemma allocated_new sbk r D : allocated sbk r D r = fill ((<[BBLOCK r sbk := mark (r mod BPB) (D (BBLOCK r sbk))]> D : Z → memory) r) 0 0 BSIZE.
Proof. unfold allocated. by rewrite fn_lookup_insert. Qed.

(** The facts depend only on the layout of the disk. *)
Definition alike (f f' : fs) : Prop := sb f' = sb f ∧ ∀ n, ok_block f' n ↔ ok_block f n.

#[export] Instance alike_sym : Symmetric alike.
Proof. intros f f' [E1 E2]. split; [done|]. intros n. by rewrite E2. Qed.
Lemma alike_evolves H f f' : evolves H f f' → alike f f'.
Proof. intros E. split; [apply E|]. intros n. apply (ok_block_evolves _ _ _ _ E). Qed.
Lemma alike_put H i ip f f' : evolves H (put_inode i ip f) f' → alike f f'.
Proof. intros [E1 E2]%alike_evolves. by split. Qed.

Lemma data_block_alike H D f f' b : alike f f' → data_block H D f b → data_block H D f' b.
Proof. intros [Es Eo] [b1 b2 b3 b4 b5]. split; rewrite ?Es; try done. by apply Eo. Qed.
Lemma bmap_ok_alike H D f f' : alike f f' → bmap_ok H D f → bmap_ok H D f'.
Proof.
  intros [Es Eo] [b1 b2 b3 b4]. split; rewrite ?Es; try done.
  - intros b Hb. rewrite Eo. auto.
  - intros b Hb Hf. rewrite Eo. auto.
Qed.
Lemma file_ok_alike H D f f' ip : alike f f' → file_ok H D f ip → file_ok H D f' ip.
Proof.
  intros E [o1 o2 o3 o4 o5]. split; [by eapply bmap_ok_alike|done| | |done].
  - intros Ha. eapply data_block_alike; [done|auto].
  - intros bn Hb Ha. destruct (o4 bn Hb Ha). split; [by eapply data_block_alike|done].
Qed.

(** Holding a block of data. *)
Lemma bmap_ok_hold H D f b : bmap_ok H D f → data_block H D f b → bmap_ok ({[b]} ∪ H) D f.
Proof.
  intros [b1 b2 b3 b4] [d1 d2 d3 d4 d5]. split; try done.
  - intros j Hj. destruct (b3 j Hj). split; [done|]. specialize (d5 j Hj). set_solver.
  - intros j Hj Hf. destruct (b4 j Hj Hf) as (F1 & F2 & F3 & F4). split_and!; try done.
    assert (j ≠ b) by (intros ->; congruence). set_solver.
Qed.

(** ** The addresses after a change *)

Definition put_addr (k v : Z) (ip : inode) : inode := set_addrs (<[k := v]> (addrs ip)) ip.

Lemma baddr_ext D D' ip bn : D' (addrs ip NDIRECT) = D (addrs ip NDIRECT) → baddr D' ip bn = baddr D ip bn.
Proof. unfold baddr. by intros ->. Qed.

Lemma baddr_direct D ip k v bn : 0 ≤ k < NDIRECT →
  baddr D (put_addr k v ip) bn = if decide (bn = k) then v else baddr D ip bn.
Proof.
  intros Hk. unfold baddr, put_addr. cbn [addrs set_addrs]. rewrite (fn_lookup_insert_ne _ k NDIRECT) by lia. case_decide as E.
  - subst. destruct (Z.ltb_spec k NDIRECT); [|lia]. apply fn_lookup_insert.
  - by rewrite fn_lookup_insert_ne.
Qed.

(** A new indirect block with no entries. *)
Lemma baddr_indirect D ip r bn : addrs ip NDIRECT = 0 → (∀ k, 0 ≤ k < NINDIRECT → entry (D r) k = 0) → 0 ≤ bn < MAXFILE →
  baddr D (put_addr NDIRECT r ip) bn = baddr D ip bn.
Proof.
  intros E0 Hz Hb. unfold baddr, put_addr. cbn [addrs set_addrs]. rewrite fn_lookup_insert, E0. change (0 =? 0) with true. cbv iota.
  destruct (Z.ltb_spec bn NDIRECT); [by rewrite fn_lookup_insert_ne by lia|]. destruct (r =? 0); [done|]. apply Hz. unfold MAXFILE in Hb. lia.
Qed.

Lemma baddr_entry D ip k r bn : addrs ip NDIRECT ≠ 0 → 0 ≤ r < 2 ^ 32 →
  let ind := addrs ip NDIRECT in
  baddr (<[ind := set_entry k r (D ind)]> D) ip bn = if decide (NDIRECT ≤ bn ∧ bn = NDIRECT + k) then r else baddr D ip bn.
Proof.
  intros Hi Hr ind. unfold baddr. fold ind. rewrite fn_lookup_insert. destruct (Z.eqb_spec ind 0); [done|]. rewrite entry_set by done.
  destruct (Z.ltb_spec bn NDIRECT).
  - rewrite decide_False by lia. done.
  - destruct (decide (bn - NDIRECT = k)); [rewrite decide_True by lia|rewrite decide_False by lia]; done.
Qed.

(** Writing a block of data does not change the free map. *)
Lemma is_free_data H D f b v j : data_block H D f b → 0 ≤ j < sb_size (sb f) → is_free (<[b := v]> D) (sb f) j = is_free D (sb f) j.
Proof. intros Hb Hj. unfold is_free. rewrite fn_lookup_insert_ne; [done|]. by apply (db_map _ _ _ _ Hb). Qed.

Lemma data_block_write H D f b v b' : data_block H D f b → data_block H D f b' → data_block H (<[b := v]> D) f b'.
Proof. intros Hb [b1 b2 b3 b4 b5]. split; try done. by rewrite (is_free_data H D f) by (done || lia). Qed.

Lemma bmap_ok_write H D f b v : data_block H D f b → bmap_ok H D f → bmap_ok H (<[b := v]> D) f.
Proof.
  intros Hb [b1 b2 b3 b4]. split; try done. intros j Hj. rewrite (is_free_data H D f) by done. auto.
Qed.

(** ** The file after an allocation *)

Lemma file_ok_allocated H D f f' ip r :
  file_ok H D f ip → first_free D (sb f) r → evolves H f f' →
  file_ok H (allocated (sb f) r D) f' ip ∧ ∀ bn, baddr (allocated (sb f) r D) ip bn = baddr D ip bn.
Proof.
  intros [o1 o2 o3 o4 o5] Hr E.
  assert (∀ bn, baddr (allocated (sb f) r D) ip bn = baddr D ip bn) as Hb.
  { intros bn. destruct (decide (addrs ip NDIRECT = 0)) as [E0|E0]; [unfold baddr; by rewrite E0|].
    apply baddr_ext. apply (allocated_same H); auto. }
  split; [|done]. split; [by apply (bmap_ok_allocated H D f)|done| | |].
  - intros Ha. apply (data_block_allocated H); auto.
  - intros bn Hbn. rewrite Hb. intros Ha. destruct (o4 bn Hbn Ha). split; [by apply (data_block_allocated H)|done].
  - intros bn bn' Hbn Hbn'. rewrite !Hb. auto.
Qed.

(** [r] is a block of data that the file does not use. *)
Record unused (H : gset Z) (D : Z → memory) (f : fs) (ip : inode) (r : Z) : Prop := {
  un_data : data_block H D f r;
  un_ind : r ≠ addrs ip NDIRECT;
  un_addr bn : 0 ≤ bn < MAXFILE → baddr D ip bn ≠ r;
}.

Lemma unused_new H D f f' ip r :
  file_ok H D f ip → first_free D (sb f) r → evolves H f f' → unused H (allocated (sb f) r D) f' ip r.
Proof.
  intros O Hr E. destruct (file_ok_allocated H D f f' ip r O Hr E) as [_ Hb]. pose proof O as [o1 o2 o3 o4 o5].
  assert (r ≠ 0) as Hnz by (apply (bm_free _ _ _ o1 r); apply Hr).
  split; [by apply (data_block_new H)| |].
  - intros Er. symmetry in Er. destruct (decide (addrs ip NDIRECT = 0)) as [|Ha]; [congruence|]. by apply (data_block_ne H D f _ r (o3 Ha)).
  - intros bn Hbn. rewrite Hb. intros Er. apply (data_block_ne H D f (baddr D ip bn) r); [|done..]. apply o4; [done|congruence].
Qed.

Lemma file_ok_direct H D f ip k r : file_ok H D f ip → unused H D f ip r → 0 ≤ k < NDIRECT → file_ok H D f (put_addr k r ip).
Proof.
  intros [o1 o2 o3 o4 o5] [u1 u2 u3] Hk.
  assert (addrs (put_addr k r ip) NDIRECT = addrs ip NDIRECT) as Ei by (apply fn_lookup_insert_ne; lia).
  split; try done; rewrite ?Ei; try done.
  - intros bn Hbn. rewrite baddr_direct by done. case_decide; [done|]. auto.
  - intros bn bn' Hbn Hbn'. rewrite !baddr_direct by done. repeat case_decide; try congruence; intros Hz E.
    + subst. by destruct (u3 bn' Hbn').
    + subst. by destruct (u3 bn Hbn).
    + auto.
Qed.

Lemma file_ok_indirect H D f ip r :
  file_ok H D f ip → unused H D f ip r → addrs ip NDIRECT = 0 → (∀ k, 0 ≤ k < NINDIRECT → entry (D r) k = 0) →
  file_ok H D f (put_addr NDIRECT r ip).
Proof.
  intros [o1 o2 o3 o4 o5] [u1 u2 u3] E0 Hz. assert (addrs (put_addr NDIRECT r ip) NDIRECT = r) as Ei by apply fn_lookup_insert.
  split; try done; rewrite ?Ei; try done.
  - intros bn Hbn. rewrite baddr_indirect by done. intros Ha. split; [by apply o4|by apply u3].
  - intros bn bn' Hbn Hbn'. rewrite !baddr_indirect by done. auto.
Qed.

Lemma file_ok_entry H D f ip k r :
  file_ok H D f ip → unused H D f ip r → addrs ip NDIRECT ≠ 0 → 0 ≤ k < NINDIRECT →
  let ind := addrs ip NDIRECT in file_ok H (<[ind := set_entry k r (D ind)]> D) f ip.
Proof.
  intros [o1 o2 o3 o4 o5] [u1 u2 u3] Ha Hk ind. pose proof (o3 Ha) as Hi. fold ind in Hi.
  assert (0 ≤ r < 2 ^ 32) as Hr by (destruct (db_ok _ _ _ _ u1); lia).
  split; [by apply (bmap_ok_write H)|done|..].
  - intros _. by apply (data_block_write H).
  - intros bn Hbn. unfold ind. rewrite baddr_entry by done. fold ind. case_decide as E.
    + intros _. split; [by apply (data_block_write H)|done].
    + intros Hz. destruct (o4 bn Hbn Hz). split; [by apply (data_block_write H)|done].
  - intros bn bn' Hbn Hbn'. unfold ind. rewrite !baddr_entry by done. repeat case_decide; intros Hz E; try lia.
    + by destruct (u3 bn' Hbn').
    + by destruct (u3 bn Hbn).
    + auto.
Qed.

(** ** bmap *)

(** A block that is neither free, nor of the free map, nor the indirect block. *)
Record foreign (D : Z → memory) (f : fs) (ip : inode) (x : Z) : Prop := {
  fg_used : 0 ≤ x < sb_size (sb f) → is_free D (sb f) x = false;
  fg_map b' : 0 ≤ b' < sb_size (sb f) → x ≠ BBLOCK b' (sb f);
  fg_ind : x ≠ addrs ip NDIRECT;
}.

(** The file has its blocks as before, and perhaps more. *)
Record growth (f : fs) (D : Z → memory) (ip : inode) (D' : Z → memory) (ip' : inode) : Prop := {
  gr_keep bn : 0 ≤ bn < MAXFILE → baddr D ip bn ≠ 0 → baddr D' ip' bn = baddr D ip bn;
  gr_ip : ∃ a, ip' = set_addrs a ip;
  gr_frame x : foreign D f ip x → D' x = D x ∧ foreign D' f ip' x;
}.

Lemma growth_refl f D ip : growth f D ip D ip.
Proof. split; [done|exists (addrs ip); by destruct ip|done]. Qed.

Lemma foreign_sb f f' D ip x : sb f' = sb f → foreign D f ip x → foreign D f' ip x.
Proof. intros E [f1 f2 f3]. split; rewrite ?E; auto. Qed.

Lemma growth_trans f f' D1 ip1 D2 ip2 D3 ip3 :
  sb f' = sb f → growth f D1 ip1 D2 ip2 → growth f' D2 ip2 D3 ip3 → growth f D1 ip1 D3 ip3.
Proof.
  intros Es [g1 g2 g3] [h1 h2 h3]. split.
  - intros bn Hbn Ha. rewrite h1, g1 by (rewrite ?g1; done). done.
  - destruct g2 as [a ->], h2 as [b ->]. by exists b.
  - intros x Hx. destruct (g3 x Hx) as [E1 F1]. destruct (h3 x (foreign_sb f f' _ _ _ Es F1)) as [E2 F2].
    split; [congruence|]. by apply (foreign_sb f' f).
Qed.

Lemma data_foreign H D f ip bn :
  file_ok H D f ip → 0 ≤ bn < MAXFILE → baddr D ip bn ≠ 0 → foreign D f ip (baddr D ip bn).
Proof. intros O Hb Ha. destruct (fo_data _ _ _ _ O bn Hb Ha) as [[d1 d2 d3 d4 d5] Hi]. by split. Qed.

Lemma foreign_allocated H D f f' ip r x :
  bmap_ok H D f → first_free D (sb f) r → evolves H f f' → foreign D f ip x →
  x ≠ r ∧ allocated (sb f) r D x = D x ∧ foreign (allocated (sb f) r D) f' ip x.
Proof.
  intros B Hr E [f1 f2 f3]. pose proof Hr as (R1 & R2 & _). assert (x ≠ r) as Hne by (intros ->; rewrite f1 in R2 by done; done).
  split; [done|]. split.
  - unfold allocated. rewrite fn_lookup_insert_ne by done. by apply fn_lookup_insert_ne, not_eq_sym, f2.
  - split; rewrite ?(ev_sb _ _ _ E); [|done|done]. intros Hx. rewrite (is_free_allocated H) by done. rewrite decide_False by done. auto.
Qed.

Lemma growth_indirect H D f f' ip r :
  file_ok H D f ip → first_free D (sb f) r → evolves H f f' → addrs ip NDIRECT = 0 →
  let D' := allocated (sb f) r D in let ip' := put_addr NDIRECT r ip in
  growth f D ip D' ip' ∧ file_ok H D' f' ip' ∧ ∀ bn, 0 ≤ bn < MAXFILE → baddr D' ip' bn = baddr D ip bn.
Proof.
  intros O Hr E E0 D' ip'. destruct (file_ok_allocated H D f f' ip r O Hr E) as [O' Hb]. pose proof (unused_new H D f f' ip r O Hr E) as U.
  assert (∀ k, 0 ≤ k < NINDIRECT → entry (allocated (sb f) r D r) k = 0) as Hz by (intros k Hk; rewrite allocated_new; by apply entry_zero).
  assert (∀ bn, 0 ≤ bn < MAXFILE → baddr D' ip' bn = baddr D ip bn) as Hb' by (intros bn Hbn; unfold D', ip'; by rewrite baddr_indirect, Hb).
  split_and!; [|by apply file_ok_indirect|done]. split.
  - auto.
  - by eexists.
  - intros x Hx. destruct (foreign_allocated H D f f' ip r x (fo_map _ _ _ _ O) Hr E Hx) as (Hne & Ex & [f1 f2 f3]). split; [done|].
    pose proof (ev_sb _ _ _ E) as Es. rewrite Es in f1, f2. by split.
Qed.

Lemma growth_direct H D f f' ip r k :
  file_ok H D f ip → first_free D (sb f) r → evolves H f f' → 0 ≤ k < NDIRECT → addrs ip k = 0 →
  growth f D ip (allocated (sb f) r D) (put_addr k r ip) ∧ file_ok H (allocated (sb f) r D) f' (put_addr k r ip).
Proof.
  intros O Hr E Hk E0. destruct (file_ok_allocated H D f f' ip r O Hr E) as [O' Hb]. pose proof (unused_new H D f f' ip r O Hr E) as U.
  split; [|by apply file_ok_direct]. split.
  - intros bn Hbn Ha. rewrite baddr_direct, Hb by done. case_decide as Ek; [|done]. subst. unfold baddr in Ha. destruct (Z.ltb_spec k NDIRECT); lia.
  - by eexists.
  - intros x Hx. destruct (foreign_allocated H D f f' ip r x (fo_map _ _ _ _ O) Hr E Hx) as (Hne & Ex & [f1 f2 f3]). split; [done|].
    pose proof (ev_sb _ _ _ E) as Es. rewrite Es in f1, f2. split; try done. unfold put_addr. cbn [addrs set_addrs]. rewrite fn_lookup_insert_ne by lia. done.
Qed.

(** A new data block entered in the indirect block. *)
Lemma growth_entry H D f f' ip r k :
  file_ok H D f ip → first_free D (sb f) r → evolves H f f' → addrs ip NDIRECT ≠ 0 → 0 ≤ k < NINDIRECT →
  baddr D ip (NDIRECT + k) = 0 →
  let ind := addrs ip NDIRECT in let D1 := allocated (sb f) r D in let D2 := <[ind := set_entry k r (D1 ind)]> D1 in
  growth f D ip D2 ip ∧ file_ok H D2 f' ip ∧ (∀ bn, 0 ≤ bn < MAXFILE → baddr D2 ip bn = if decide (bn = NDIRECT + k) then r else baddr D ip bn) ∧ D2 r = D1 r.
Proof.
  intros O Hr E Hi Hk E0 ind D1 D2. destruct (file_ok_allocated H D f f' ip r O Hr E) as [O' Hb]. pose proof (unused_new H D f f' ip r O Hr E) as U.
  fold D1 in O', Hb, U. assert (0 ≤ r < 2 ^ 32) as Hr32 by (destruct (db_ok _ _ _ _ (un_data _ _ _ _ _ U)); lia).
  assert (∀ bn, 0 ≤ bn < MAXFILE → baddr D2 ip bn = if decide (bn = NDIRECT + k) then r else baddr D ip bn) as Hb2.
  { intros bn Hbn. unfold D2, ind. rewrite baddr_entry, Hb by done. destruct (decide (bn = NDIRECT + k)); [rewrite decide_True by lia; done|].
    by rewrite decide_False by lia. }
  split_and!; [|by apply (file_ok_entry H D1 f' ip k r)|done|unfold D2; apply fn_lookup_insert_ne, not_eq_sym, (un_ind _ _ _ _ _ U)]. split.
  - intros bn Hbn Ha. rewrite Hb2 by done. case_decide; [congruence|done].
  - exists (addrs ip). by destruct ip.
  - intros x Hx. destruct (foreign_allocated H D f f' ip r x (fo_map _ _ _ _ O) Hr E Hx) as (Hne & Ex & [f1 f2 f3]). fold D1 in Ex, f1.
    assert (D2 x = D x) as E2 by (unfold D2; rewrite fn_lookup_insert_ne by done; done).
    pose proof (ev_sb _ _ _ E) as Es. split; [done|]. rewrite Es in f1, f2. split; try done. intros Hx0. unfold D2. rewrite <-Es.
    rewrite (is_free_data H D1 f'); [rewrite Es; by apply f1|apply (fo_ind _ _ _ _ O'); done|by rewrite Es].
Qed.

(** What [bmap] gives for block [bn]: its address [r], or 0 when the disk is full. *)
Record mapped (H : gset Z) (f : fs) (D : Z → memory) (ip : inode) (bn : Z) (D' : Z → memory) (ip' : inode) (r : Z) : Prop := {
  mp_growth : growth f D ip D' ip';
  mp_ok : file_ok H D' f ip';
  mp_at : baddr D' ip' bn = r;
  mp_other bn' : 0 ≤ bn' < MAXFILE → bn' ≠ bn → baddr D' ip' bn' = baddr D ip bn';
  mp_hit : baddr D ip bn ≠ 0 → D' = D ∧ ip' = ip;
  mp_new x : baddr D ip bn = 0 → r ≠ 0 → 0 ≤ x < BSIZE → D' r x = 0;
  mp_fresh : baddr D ip bn = 0 → r ≠ 0 → ¬ foreign D f ip r;
  mp_full j : r = 0 → 0 ≤ j < sb_size (sb f) → is_free D' (sb f) j = false;
}.

Lemma put_inode_same i ip f : itable f i = ip → put_inode i ip f = f.
Proof.
  intros <-. unfold put_inode. assert (<[i := itable f i]> (itable f) = itable f) as ->; [|by destruct f].
  extensionality j. destruct (decide (j = i)) as [->|]; [apply fn_lookup_insert|by apply fn_lookup_insert_ne, not_eq_sym].
Qed.

Lemma mapped_hit H f D ip bn : file_ok H D f ip → baddr D ip bn ≠ 0 → mapped H f D ip bn D ip (baddr D ip bn).
Proof. intros O Ha. split; done || apply growth_refl. Qed.

(** No block is left. *)
Lemma mapped_full H f D ip bn : file_ok H D f ip → baddr D ip bn = 0 →
  (∀ j, 0 ≤ j < sb_size (sb f) → is_free D (sb f) j = false) → mapped H f D ip bn D ip 0.
Proof. intros O Ha Hf. split; try done; [apply growth_refl|auto]. Qed.

Lemma first_not_foreign D f ip r : first_free D (sb f) r → ¬ foreign D f ip r.
Proof. intros (R1 & R2 & _) [F _ _]. rewrite F in R2 by done. done. Qed.

Lemma mapped_direct H f D ip k r : file_ok H D f ip → first_free D (sb f) r → 0 ≤ k < NDIRECT → addrs ip k = 0 →
  mapped H f D ip k (allocated (sb f) r D) (put_addr k r ip) r.
Proof.
  intros O Hr Hk E0. destruct (growth_direct H D f f ip r k O Hr (evolves_refl H f) Hk E0) as [G O'].
  destruct (file_ok_allocated H D f f ip r O Hr (evolves_refl H f)) as [_ Hb].
  assert (baddr D ip k = 0) as E1 by (unfold baddr; destruct (Z.ltb_spec k NDIRECT); [done|lia]).
  assert (r ≠ 0) as Hnz by (apply (bm_free _ _ _ (fo_map _ _ _ _ O) r); apply Hr). split; try done.
  - rewrite baddr_direct by done. by rewrite decide_True.
  - intros bn' _ Hne. rewrite baddr_direct, Hb by done. by rewrite decide_False.
  - intros x _ _ Hx. rewrite allocated_new. unfold fill. destruct (Z.leb_spec 0 x), (Z.ltb_spec x (0 + BSIZE)); done || lia.
  - intros _ _. by apply first_not_foreign.
Qed.

Lemma mapped_entry H f D ip k r :
  file_ok H D f ip → first_free D (sb f) r → addrs ip NDIRECT ≠ 0 → 0 ≤ k < NINDIRECT → baddr D ip (NDIRECT + k) = 0 →
  let ind := addrs ip NDIRECT in let D1 := allocated (sb f) r D in
  mapped H f D ip (NDIRECT + k) (<[ind := set_entry k r (D1 ind)]> D1) ip r.
Proof.
  intros O Hr Hi Hk E0 ind D1. destruct (growth_entry H D f f ip r k O Hr (evolves_refl H f) Hi Hk E0) as (G & O' & Hb & Er).
  assert (r ≠ 0) as Hnz by (apply (bm_free _ _ _ (fo_map _ _ _ _ O) r); apply Hr). split; try done.
  - rewrite Hb by (unfold MAXFILE; pose proof (eq_refl NDIRECT); change NDIRECT with 12 in *; lia). by rewrite decide_True.
  - intros bn' Hbn Hne. rewrite Hb by done. by rewrite decide_False.
  - intros x _ _ Hx. etransitivity; [exact (f_equal (λ m : memory, m x) Er)|]. rewrite allocated_new. unfold fill. destruct (Z.leb_spec 0 x), (Z.ltb_spec x (0 + BSIZE)); done || lia.
  - intros _ _. by apply first_not_foreign.
Qed.

Lemma mapped_alike H f f' D ip bn D' ip' r : alike f f' → mapped H f' D ip bn D' ip' r → mapped H f D ip bn D' ip' r.
Proof.
  intros E [[g1 g2 g3] m2 m3 m4 m5 m6 m7 m8]. pose proof E as [Es _]. split; try done.
  - split; [done..|]. intros x Hx. destruct (g3 x) as [? F]; [by apply (foreign_sb f)|]. split; [done|by apply (foreign_sb f')].
  - by apply (file_ok_alike H D' f' f).
  - intros Ea Hnz Hf. apply m7; [done..|]. by apply (foreign_sb f).
  - intros j. rewrite <-Es. apply m8.
Qed.

(** The indirect block is allocated first. *)
Lemma mapped_pre H f D ip bn D1 ip1 D' ip' r :
  growth f D ip D1 ip1 → (∀ bn, 0 ≤ bn < MAXFILE → baddr D1 ip1 bn = baddr D ip bn) → 0 ≤ bn < MAXFILE → baddr D ip bn = 0 →
  mapped H f D1 ip1 bn D' ip' r → mapped H f D ip bn D' ip' r.
Proof.
  intros G Hb Hbn E0 [m1 m2 m3 m4 m5 m6 m7 m8]. split; try done.
  - by eapply growth_trans.
  - intros bn' Hbn' Hne. rewrite m4, Hb by done. done.
  - intros x _. apply m6. by rewrite Hb.
  - intros _ Hnz Hf. apply m7; [by rewrite Hb|done|]. by apply (gr_frame _ _ _ _ _ G).
Qed.

Section bmap.
Context {LY : Layout} {SW : Switch fs} {PA : Patience}.
Context (me : Z) (s : K) (Qs : quiet me s).

(** One slot of the address table: as it is, or with a new block. *)
Lemma wp_addr_of H D L f i k Q :
  tx me ∅ H D L f → bmap_ok H D f → idev (itable f i) = ROOTDEV → room 2 L H →
  let ip := itable f i in
  (addrs ip k ≠ 0 → Q (addrs ip k) (set_fsys f s)) →
  (∀ f', addrs ip k = 0 → (∀ j, 0 ≤ j < sb_size (sb f) → is_free D (sb f) j = false) → tx me ∅ H D L f' → evolves H f f' →
     Q 0 (set_fsys f' s)) →
  (∀ r f', addrs ip k = 0 → first_free D (sb f) r → tx me ∅ H (allocated (sb f) r D) ({[r; BBLOCK r (sb f)]} ∪ L) f' →
     evolves H (put_inode i (put_addr k r ip) f) f' → Q r (set_fsys f' s)) →
  wp (addr_of i k) (set_fsys f s) Q.
Proof.
  intros T B Ed Hr ip HQ1 HQ2 HQ3. apply wp_bind, wp_iget_. cbn [id]. fold ip. destruct (Z.eqb_spec (addrs ip k) 0) as [E0|E0]; [|by apply wp_ret, HQ1].
  fold ip in Ed. rewrite Ed. apply wp_bind, (wp_balloc me s Qs H D L f); [done..| |].
  - intros f' Hf T' E. change (0 =? 0) with true. apply wp_ret. by apply HQ2.
  - intros r f' Hf T' E. assert (r ≠ 0) as Hnz by (apply (bm_free _ _ _ B r); apply Hf). destruct (Z.eqb_spec r 0); [done|].
    apply wp_bind, wp_iset. rewrite (ev_itable _ _ _ E). apply wp_ret, HQ3; [done|done|by apply tx_itable|by apply evolves_put].
Qed.

Lemma wp_bmap_entry H D L f ip k Q :
  tx me ∅ H D L f → file_ok H D f ip → addrs ip NDIRECT ≠ 0 → 0 ≤ k < NINDIRECT → room 3 L H →
  (∀ r D' N f', mapped H f D ip (NDIRECT + k) D' ip r → tx me ∅ H D' (N ∪ L) f' →
     N ⊆ {[r; BBLOCK r (sb f); addrs ip NDIRECT]} → (baddr D ip (NDIRECT + k) ≠ 0 → N = ∅) → evolves H f f' → Q r (set_fsys f' s)) →
  wp (bmap_entry ROOTDEV (addrs ip NDIRECT) k) (set_fsys f s) Q.
Proof.
  intros T O Hi Hk Hr HQ. set (ind := addrs ip NDIRECT) in *. pose proof (fo_ind _ _ _ _ O Hi) as Hd. fold ind in Hd.
  assert (baddr D ip (NDIRECT + k) = entry (D ind) k) as Eb.
  { unfold baddr. fold ind. destruct (Z.ltb_spec (NDIRECT + k) NDIRECT); [lia|]. destruct (Z.eqb_spec ind 0); [done|]. f_equal. lia. }
  apply (wp_tget me s Qs H D L f ind); [done|apply Hd|apply Hd|by eapply room_le; [|exact Hr]; lia|]. intros bp f1 T1 H1 E1 Ed.
  apply (wp_data _ _ _ _ _ _ Ed). destruct (Z.eqb_spec (entry (D ind) k) 0) as [E0|E0].
  2: { apply wp_bind, wp_ret. apply wp_bind, (wp_tput me s Qs H D L f1 bp ind); [done|apply Hd|done|]. intros f2 T2 E2. apply wp_ret.
       apply (HQ _ D ∅); [rewrite <-Eb; apply mapped_hit; congruence|by rewrite union_empty_l_L|done|done|by etrans]. }
  assert (bmap_ok ({[ind]} ∪ H) D f1) as B1.
  { eapply bmap_ok_alike; [by eapply alike_evolves|]. apply bmap_ok_hold; [apply O|done]. }
  apply wp_bind, wp_bind, (wp_balloc me s Qs ({[ind]} ∪ H) D L f1); [done..|by apply room_hold| |]; rewrite (ev_sb _ _ _ E1).
  - intros f2 Hf T2 E2. apply wp_bind, wp_ret, wp_ret. apply wp_bind, (wp_tput me s Qs H D L f2 bp ind); [done|apply Hd|apply (ev_handle _ _ _ E2); [set_solver|done]|].
    intros f3 T3 E3. apply wp_ret. apply (HQ _ D ∅); [by apply mapped_full; [|congruence|]|by rewrite union_empty_l_L|done|done|].
    etrans; [exact E1|]. etrans; [|exact E3]. eapply evolves_mono; [|exact E2]. set_solver.
  - intros r f2 Hf T2 E2. assert (r ≠ 0) as Hnz by (apply (bm_free _ _ _ (fo_map _ _ _ _ O) r); apply Hf). destruct (Z.eqb_spec r 0); [done|].
    apply wp_bind, (wp_tchange me s Qs ({[ind]} ∪ H) _ _ f2 bp ind (set_entry k r) _ T2);
      [set_solver|apply (ev_handle _ _ _ E2); [set_solver|done]| |].
    { rewrite <-union_assoc_L. apply (room_logs 1 _ H), room_log, room_log, Hr. }
    intros f3 T3 E3. apply wp_ret. apply wp_bind, (wp_tput me s Qs H _ _ f3 bp ind _ T3); [apply Hd|apply (ev_handle _ _ _ E3), (ev_handle _ _ _ E2); [set_solver..|done]|].
    intros f4 T4 E4. apply wp_ret. eapply (HQ _ _ ({[ind]} ∪ {[r; BBLOCK r (sb f)]})); [by apply mapped_entry; [..|congruence]|by rewrite <-union_assoc_L|set_solver|congruence|].
    etrans; [exact E1|]. etrans; [|exact E4]. eapply evolves_mono; [|by etrans]. set_solver.
Qed.

Lemma wp_bmap H D L f i bn Q :
  let ip := itable f i in
  tx me ∅ H D L f → file_ok H D f ip → 0 ≤ bn < MAXFILE → room 5 L H →
  (∀ r D' ip' N f', mapped H f D ip bn D' ip' r → tx me ∅ H D' (N ∪ L) f' →
     N ⊆ {[r; BBLOCK r (sb f); addrs ip' NDIRECT; BBLOCK (addrs ip' NDIRECT) (sb f)]} →
     (baddr D ip bn ≠ 0 → N = ∅) → evolves H (put_inode i ip' f) f' → Q r (set_fsys f' s)) →
  wp (bmap i bn) (set_fsys f s) Q.
Proof.
  intros ip T O Hbn Hr HQ. pose proof (fo_dev _ _ _ _ O) as Ed. unfold bmap. destruct (Z.ltb_spec bn NDIRECT) as [Hd|Hd].
  - assert (baddr D ip bn = addrs ip bn) as Eb by (unfold baddr; by destruct (Z.ltb_spec bn NDIRECT); [|lia]).
    apply (wp_addr_of H D L f); [done|apply O|done|by eapply room_le; [|exact Hr]; lia|..]; fold ip.
    + intros Ha. apply (HQ _ D ip ∅); [rewrite <-Eb; apply mapped_hit; congruence|by rewrite union_empty_l_L|done|done|by rewrite put_inode_same].
    + intros f' Ha Hf T' E. apply (HQ _ D ip ∅); [by apply mapped_full; [|congruence|]|by rewrite union_empty_l_L|done|done|by rewrite put_inode_same].
    + intros r f' Ha Hf T' E. eapply HQ; [apply mapped_direct; [done|exact Hf|lia|done]|exact T'|set_solver|congruence|exact E].
  - destruct (Z.ltb_spec (bn - NDIRECT) NINDIRECT); [|unfold MAXFILE in Hbn; lia]. set (k := bn - NDIRECT).
    assert (bn = NDIRECT + k) as Ek by lia. assert (0 ≤ k < NINDIRECT) as Hk by lia. clearbody k. subst bn.
    apply wp_bind, (wp_addr_of H D L f); [done|apply O|done|by eapply room_le; [|exact Hr]; lia|..]; fold ip.
    + intros Ha. destruct (Z.eqb_spec (addrs ip NDIRECT) 0); [done|]. apply wp_bind, wp_iget_. fold ip. rewrite Ed.
      apply (wp_bmap_entry H D L f ip k); [done..|by eapply room_le; [|exact Hr]; lia|]. intros r D' N f' Hm T' HN Hz E.
      eapply HQ; [exact Hm|exact T'|set_solver|exact Hz|by rewrite put_inode_same].
    + intros f' Ha Hf T' E. change (0 =? 0) with true. apply wp_ret.
      apply (HQ _ D ip ∅); [apply mapped_full; [done| |done]|by rewrite union_empty_l_L|done|done|by rewrite put_inode_same].
      unfold baddr. rewrite Ha. by destruct (_ <? _) eqn:?; [lia|].
    + intros r f1 Ha Hf T1 E1. assert (r ≠ 0) as Hnz by (apply (bm_free _ _ _ (fo_map _ _ _ _ O) r); apply Hf). destruct (Z.eqb_spec r 0); [done|].
      set (ip1 := put_addr NDIRECT r ip) in *. set (D1 := allocated (sb f) r D) in *. pose proof (ev_sb _ _ _ E1) as Es. cbn in Es.
      assert (itable f1 i = ip1) as Ei by (rewrite (ev_itable _ _ _ E1); apply put_inode_eq).
      destruct (growth_indirect H D f f ip r O Hf (evolves_refl H f) Ha) as (G & O1 & Hb). fold D1 ip1 in G, O1, Hb.
      apply wp_bind, wp_iget_. rewrite Ei. assert (idev ip1 = ROOTDEV) as -> by apply O1.
      assert (addrs ip1 NDIRECT = r) as Er by apply fn_lookup_insert. rewrite <-Er.
      apply (wp_bmap_entry H D1 ({[r; BBLOCK r (sb f)]} ∪ L) f1 ip1 k); [exact T1| |congruence|done| |].
      * apply (file_ok_alike H D1 f); [by eapply alike_put|done].
      * rewrite <-union_assoc_L. apply room_log, room_log. done.
      * assert (baddr D ip (NDIRECT + k) = 0) as E0 by (unfold baddr; rewrite Ha; by destruct (_ <? _) eqn:?; [lia|]).
        intros r' D' N f' Hm T' HN Hz E'. apply (HQ r' D' ip1 (N ∪ {[r; BBLOCK r (sb f)]})); [|by rewrite <-union_assoc_L|rewrite Er in *; rewrite Es in HN; set_solver|done|by etrans].
        apply (mapped_pre H f D ip _ D1 ip1); [done..|]. apply (mapped_alike H f f1); [by eapply alike_put|done].
Qed.
End bmap.
