(* ===== verification/FsRw.v ===== *)
(** * Reading and writing files

    [readi] and [writei] on the bytes of a file, from and to a buffer of the
    kernel or of the process that runs. *)

From Stdlib Require Import FunctionalExtensionality.
From S2P Require Import Prelude Riscv Memory Kalloc Vm VmInv Cow VmUser CopyUser CopyPut Spinlock Proc ProcOps FsState Sleeplock Bio BioOps BioSpec Log LogOps LogCommit Tx TxOps Fs FsBlocks FsInode FsFile.

(** Byte [x] of a file, and [n] bytes from [off]. *)
Definition fbyte (D : Z → memory) (ip : inode) (x : Z) : Z := D (baddr D ip (x / BSIZE)) (x mod BSIZE).
Definition fbytes (D : Z → memory) (ip : inode) (off n : Z) : list Z :=
  (λ k, fbyte D ip (off + Z.of_nat k)) <$> seq 0 (Z.to_nat n).

(** Every block below the size is there. *)
Definition solid (D : Z → memory) (ip : inode) : Prop :=
  0 ≤ isize ip ≤ MAXFILE * BSIZE ∧ ∀ bn, 0 ≤ bn → bn * BSIZE < isize ip → baddr D ip bn ≠ 0.

Lemma bsize_pos : 0 < BSIZE.
Proof. done. Qed.
Lemma block_of x bn : bn * BSIZE ≤ x < (bn + 1) * BSIZE → x / BSIZE = bn.
Proof. intros Hx. symmetry. apply (Z.div_unique _ _ _ (x - bn * BSIZE)); [left|]; lia. Qed.
Lemma block_bounds x : x / BSIZE * BSIZE ≤ x < (x / BSIZE + 1) * BSIZE ∧ x mod BSIZE = x - x / BSIZE * BSIZE ∧ 0 ≤ x mod BSIZE < BSIZE.
Proof. pose proof bsize_pos. pose proof (Z.div_mod x BSIZE ltac:(lia)). pose proof (Z.mod_pos_bound x BSIZE ltac:(lia)). lia. Qed.

(** Bytes that follow [x] in its block. *)
Lemma in_block x k : 0 ≤ k → x mod BSIZE + k < BSIZE → (x + k) / BSIZE = x / BSIZE ∧ (x + k) mod BSIZE = x mod BSIZE + k.
Proof.
  intros Hk Hb. destruct (block_bounds x) as (B1 & B2 & B3). assert ((x + k) / BSIZE = x / BSIZE) as E by (apply block_of; lia).
  split; [done|]. destruct (block_bounds (x + k)) as (_ & -> & _). rewrite E. lia.
Qed.

Lemma fbytes_app D ip off a b : 0 ≤ a → 0 ≤ b → fbytes D ip off (a + b) = fbytes D ip off a ++ fbytes D ip (off + a) b.
Proof.
  intros Ha Hb. unfold fbytes. rewrite Z2Nat.inj_add, seq_app, fmap_app by done. f_equal. rewrite Nat.add_0_l.
  rewrite <-(Nat.add_0_r (Z.to_nat a)) at 1. rewrite <-fmap_add_seq, <-list_fmap_compose. apply list_fmap_ext. intros j k _. simpl. f_equal. lia.
Qed.

Lemma load_fbytes D ip off m : 0 ≤ m → off mod BSIZE + m ≤ BSIZE →
  load_bytes (D (baddr D ip (off / BSIZE))) (off mod BSIZE) m = fbytes D ip off m.
Proof.
  intros Hm Hb. apply list_fmap_ext. intros j k [-> Hk]%lookup_seq. unfold fbyte. destruct (in_block off (Z.of_nat (0 + j))) as [-> ->]; [lia..|done].
Qed.

(** ** Where bytes come from and go to *)

(** The process that runs has the address space [r], and the memory has its
    invariant. *)
Definition runs_on `{Layout} (g : ghost) (r : Z) (s : K) : Prop :=
  LayoutOk ∧ vinv g (mach s) ∧ r ∈ roots g ∧ ∃ i p, cproc s = Some i ∧ procs s !! i = Some p ∧ pagetable p = r.

(** [src] has the bytes [bs]: a variable of the kernel, or memory of the process
    that it can read. *)
Definition source_has `{Layout} (g : ghost) (r : Z) (s : K) (src : source) (bs : list Z) : Prop :=
  match src with
  | FromLocal bs' => bs' = bs
  | FromUser a => runs_on g r s ∧ 0 ≤ a ∧ reads_at (mach s) r a bs
  end.

(** [d] has space for [n] bytes: a variable of the kernel, or memory of the process
    that it can write. *)
Definition dest_fits `{Layout} (g : ghost) (r : Z) (s : K) (d : dest) (n : Z) : Prop :=
  match d with
  | ToLocal => True
  | ToUser a => runs_on g r s ∧ 0 ≤ a ∧ a + n < 2 ^ 64 ∧ span_writable (mach s) r a (Z.to_nat n)
  | ToKernel _ => False
  end.

(** [bs] arrived at [d]: the memory changed from [m] to [m'] by nothing else. *)
Definition delivered `{Layout} (g : ghost) (r : Z) (d : dest) (bs : list Z) (m m' : kmem) : Prop :=
  match d with
  | ToLocal => m' = m
  | ToUser a => put r a bs g m m'
  | ToKernel _ => False
  end.
(** No address space. *)
Definition nobody : ghost := mkGhost (λ _, OFree) [] ∅ (λ _, ∅) (λ _, 0).
Definition deliverable (d : dest) (bs : list Z) : Prop := match d with ToUser _ => are_bytes bs | _ => True end.

Lemma dest_fits_le `{Layout} g r s d n n' : n' ≤ n → dest_fits g r s d n → dest_fits g r s d n'.
Proof.
  intros Hn. destruct d; [|done..]. intros (? & ? & ? & Hw). split_and!; [done|done|lia|]. intros va Hva. apply Hw. lia.
Qed.
Lemma deliverable_take d bs k : deliverable d bs → deliverable d (take k bs).
Proof. destruct d; [|done..]. intros Hb. by apply Forall_take. Qed.

Lemma set_mach_same (s : K) : set_mach (mach s) s = s.
Proof. by destruct s. Qed.

Section copies.
Context {LY : Layout} {SW : Switch fs} {PA : Patience}.
Context (me : Z) (s : K) (Qs : quiet me s).

Lemma wp_myproc_quiet f m Q : Q (cproc s) (set_fsys f (set_mach m s)) → wp myproc (set_fsys f (set_mach m s)) Q.
Proof.
  intros HQ. pose proof (quiet_fs me f _ (quiet_mach me m s Qs)) as Qf. apply wp_myproc; [by eapply quiet_cpu|]. by rewrite (quiet_relax me _ Qf).
Qed.

Lemma wp_copy_from g r src bs f tot m Q :
  source_has g r s src bs → 0 ≤ tot → 0 < m → tot + m ≤ Z.of_nat (length bs) →
  Q (0, take (Z.to_nat m) (drop (Z.to_nat tot) bs)) (set_fsys f s) → wp (copy_from src tot m) (set_fsys f s) Q.
Proof.
  intros Hs Ht Hm Hl HQ. rewrite <-(set_mach_same s) in HQ |- *. destruct src as [a|bs']; cbn [copy_from source_has] in *.
  - destruct Hs as ((LO & V & Hr & i & p & Hc & Hp & Er) & Ha & R). subst r. apply wp_bind, wp_myproc_quiet. rewrite Hc. apply wp_bind, (wp_pget i p); [done|].
    set (c := take (Z.to_nat m) (drop (Z.to_nat tot) bs)) in *. assert (Z.of_nat (length c) = m) as El by (unfold c; rewrite length_take, length_drop; lia).
    assert (a + tot < MAXVA) as Hlt.
    { destruct (lookup_lt_is_Some_2 bs (Z.to_nat tot)) as [b Hb]; [lia|]. destruct (R _ _ Hb) as [? _]. lia. }
    rewrite u64_small by (change MAXVA with (2 ^ 38) in Hlt; lia). rewrite <-El. apply wp_zoom.
    apply (wp_copyin_reads (uproc_of p) g); [done|done|lia| |done]. unfold c. apply reads_at_take.
    replace (a + tot) with (a + Z.of_nat (Z.to_nat tot)) by lia. by apply reads_at_drop.
  - subst bs'. apply wp_bind, wp_myproc_quiet. by apply wp_ret.
Qed.

Lemma wp_copy_to g r d n bs out f m Q :
  dest_fits g r s d n → delivered g r d out (mach s) m → deliverable d bs → Z.of_nat (length out) + Z.of_nat (length bs) ≤ n →
  (∀ m', delivered g r d (out ++ bs) (mach s) m' → Q 0 (set_fsys f (set_mach m' s))) →
  wp (copy_to d (Z.of_nat (length out)) bs) (set_fsys f (set_mach m s)) Q.
Proof.
  intros Hd Ho Hb Hl HQ. destruct d as [a|a|]; cbn [copy_to dest_fits delivered deliverable] in *; [|done|].
  - destruct Hd as ((LO & V & Hr & i & p & Hc & Hp & Er) & Ha & Hn & Hw). subst r. rewrite u64_small by lia. apply wp_bind, wp_myproc_quiet. rewrite Hc.
    apply wp_bind, (wp_pget i p); [done|]. apply wp_zoom. apply (wp_copyout_put (uproc_of p) (pagetable p) g); [apply Ho|done|lia|done| |].
    + intros va Hva. eapply put_writable; [done|exact Ho|]. apply Hw. lia.
    + intros m' P. exact (HQ m' (put_app _ _ _ _ _ _ _ _ Ho P)).
  - subst m. apply wp_bind, wp_myproc_quiet. by apply wp_ret, HQ.
Qed.

Lemma delivered_nil g r d n : dest_fits g r s d n → delivered g r d [] (mach s) (mach s).
Proof. destruct d; [|done..]. intros ((_ & V & _) & _). by apply put_nil. Qed.
End copies.

Section rw.
Context {LY : Layout} {SW : Switch fs} {PA : Patience}.
Context (me : Z) (s : K) (Qs : quiet me s).

Lemma wp_bmap_hit H D L f i bn Q :
  let ip := itable f i in
  tx me ∅ H D L f → file_ok H D f ip → 0 ≤ bn < MAXFILE → room 5 L H → baddr D ip bn ≠ 0 →
  (∀ f', tx me ∅ H D L f' → evolves H f f' → Q (baddr D ip bn) (set_fsys f' s)) →
  wp (bmap i bn) (set_fsys f s) Q.
Proof.
  intros ip T O Hbn Hr Ha HQ. apply (wp_bmap me s Qs H D L f); [done..|]. intros r D' ip' N f' M T' _ HN E. fold ip in M, HN.
  destruct (mp_hit _ _ _ _ _ _ _ _ M Ha) as [-> ->]. rewrite (HN Ha), union_empty_l_L in T'. rewrite put_inode_same in E by done.
  rewrite <-(mp_at _ _ _ _ _ _ _ _ M). by apply HQ.
Qed.

(** How many of [n] bytes at [off] are in the file. *)
Definition within (ip : inode) (off n : Z) : Z := Z.max 0 (Z.min n (isize ip - off)).

(** The number of blocks that [n] bytes at [off] touch. *)
Definition touched (off n : Z) : nat := Z.to_nat ((off mod BSIZE + n + BSIZE - 1) / BSIZE).
Lemma touched_rounds off n :
  0 ≤ n → (touched off n < rounds n)%nat ∧ n + off mod BSIZE ≤ Z.of_nat (touched off n) * BSIZE.
Proof.
  intros Hn. unfold touched, rounds. destruct (block_bounds off) as (_ & _ & ?). destruct (block_bounds n) as (? & _ & ?).
  destruct (block_bounds (off mod BSIZE + n + BSIZE - 1)) as (? & _ & ?). pose proof bsize_pos. nia.
Qed.

Lemma rounds_enough off n : 0 ≤ n → (0 < rounds n)%nat ∧ n + off mod BSIZE ≤ (Z.of_nat (rounds n) - 1) * BSIZE.
Proof. intros Hn. unfold rounds. destruct (block_bounds off) as (_ & _ & ?). destruct (block_bounds n) as (? & _). nia. Qed.

End rw.

Section read.
Context {LY : Layout} {SW : Switch fs} {PA : Patience}.
Context (me : Z) (s : K) (Qs : quiet me s).

Lemma wp_readi_loop g r d fuel H D L ip f i off n tot out m Q :
  tx me ∅ H D L f → itable f i = ip → file_ok H D f ip → solid D ip → room 5 L H →
  dest_fits g r s d n → delivered g r d out (mach s) m → deliverable d (fbytes D ip off (n - tot)) → tot = Z.of_nat (length out) →
  0 ≤ off → tot ≤ n → off + (n - tot) ≤ isize ip → (0 < fuel)%nat →
  (tot < n → n - tot + off mod BSIZE ≤ (Z.of_nat fuel - 1) * BSIZE) →
  (∀ f' m', tx me ∅ H D L f' → evolves H f f' → delivered g r d (out ++ fbytes D ip off (n - tot)) (mach s) m' →
     Q (s32 n, out ++ fbytes D ip off (n - tot)) (set_fsys f' (set_mach m' s))) →
  wp (readi_loop fuel i d off n tot out) (set_fsys f (set_mach m s)) Q.
Proof.
  revert f off tot out m. induction fuel as [|fuel IH]; intros f off tot out m T Ei O Sd Hr Df Dl Db Et Ho Ht Hsz Hf1 Hf2 HQ; [lia|]. cbn [readi_loop].
  destruct (Z.ltb_spec tot n) as [Hlt|]; cbn [negb].
  2: { assert (tot = n) as -> by lia. rewrite Z.sub_diag in HQ. specialize (HQ f m). rewrite app_nil_r in HQ. apply wp_ret. by apply HQ. }
  destruct Sd as [Sd1 Sd2]. destruct (block_bounds off) as (B1 & B2 & B3). pose proof bsize_pos. pose proof (quiet_mach me m s Qs) as Qm.
  assert (0 ≤ off / BSIZE < MAXFILE) as Hbn by nia. assert (baddr D ip (off / BSIZE) ≠ 0) as Ha by (apply Sd2; lia).
  destruct (fo_data _ _ _ _ O _ Hbn Ha) as [Hd Hne].
  apply wp_bind, (wp_bmap_hit me _ Qm H D L f); rewrite ?Ei; [done..|]. intros f1 T1 E1. destruct (Z.eqb_spec (baddr D ip (off / BSIZE)) 0); [done|].
  apply wp_bind, wp_iget_. rewrite (ev_itable _ _ _ E1), Ei, (fo_dev _ _ _ _ O).
  apply (wp_tget me _ Qm H D L f1); [done|rewrite (ok_block_evolves _ _ _ _ E1); apply Hd|apply Hd|by eapply room_le; [|exact Hr]; lia|].
  intros bp f2 T2 H2 E2 Ed. cbv zeta. set (k := Z.min (n - tot) (BSIZE - off mod BSIZE)).
  apply (wp_data _ _ _ _ _ _ Ed). rewrite load_fbytes by lia.
  assert (length (fbytes D ip off k) = Z.to_nat k) as Elen by (unfold fbytes; by rewrite length_fmap, length_seq).
  assert (fbytes D ip off (n - tot) = fbytes D ip off k ++ fbytes D ip (off + k) (n - (tot + k))) as Efb.
  { rewrite <-fbytes_app by lia. f_equal. lia. }
  assert (deliverable d (fbytes D ip off k) ∧ deliverable d (fbytes D ip (off + k) (n - (tot + k)))) as [Db1 Db2].
  { rewrite Efb in Db. destruct d; [|done..]. by apply Forall_app in Db. }
  rewrite Et at 1. apply wp_bind, (wp_copy_to me s Qs g r d n); [done|done|done|lia|]. intros m1 Dl1.
  apply wp_bind, (wp_tput me _ (quiet_mach me m1 s Qs) H D L f2 bp _ _ T2); [apply Hd|done|].
  intros f3 T3 E3. change (0 =? -1) with false. assert (evolves H f f3) as E by (do 2 (etrans; [done|]); done).
  rewrite u32_small by (change (MAXFILE * BSIZE) with 274432 in *; lia).
  apply IH; [done|by rewrite (ev_itable _ _ _ E)|by eapply file_ok_alike; [eapply alike_evolves|]|done|done|done|done|done|rewrite length_app; lia|lia|lia|lia|nia| |].
  - intros Hlt'. assert (k = BSIZE - off mod BSIZE) as Em by lia.
    assert ((off + k) mod BSIZE = 0) as ->; [|lia]. replace (off + k) with ((off / BSIZE + 1) * BSIZE) by lia. by apply Z.mod_mul.
  - intros f4 m' T4 E4. rewrite <-app_assoc, <-Efb. intros Dl4. apply HQ; [done|by etrans|done].
Qed.

Lemma wp_readi_to g r d H D L f i off n Q :
  let ip := itable f i in let bs := fbytes D ip off (within ip off n) in
  tx me ∅ H D L f → file_ok H D f ip → solid D ip → room 5 L H → 0 ≤ off → 0 ≤ n → off + n < 2 ^ 32 →
  dest_fits g r s d n → deliverable d bs →
  (∀ f' m', tx me ∅ H D L f' → evolves H f f' → delivered g r d bs (mach s) m' → Q (within ip off n, bs) (set_fsys f' (set_mach m' s))) →
  wp (readi i d off n) (set_fsys f s) Q.
Proof.
  intros ip bs T O Sd Hr Ho Hn Hb Df Db HQ. apply wp_bind, wp_iget_. fold ip. rewrite u32_small by lia. pose proof Sd as [S1 _].
  assert (0 ≤ within ip off n ≤ n) as Hwn by (unfold within; lia).
  destruct (Z.ltb_spec (isize ip) off) as [Hlt|Hle]; cbn [orb].
  { apply wp_ret. specialize (HQ f (mach s)). unfold bs in HQ. rewrite set_mach_same in HQ. assert (within ip off n = 0) as E0 by (unfold within; lia). rewrite E0 in HQ.
    apply HQ; [done..|]. by eapply delivered_nil. }
  destruct (Z.ltb_spec (off + n) off); [lia|]. cbv zeta.
  assert ((if isize ip <? off + n then isize ip - off else n) = within ip off n) as -> by (unfold within; destruct (Z.ltb_spec (isize ip) (off + n)); lia).
  assert (off + within ip off n ≤ isize ip) as Hs by (unfold within; lia).
  destruct (rounds_enough off (within ip off n)) as [R1 R2]; [lia|]. rewrite <-(set_mach_same s).
  apply (wp_readi_loop g r d _ H D L ip f); [done..| |by eapply delivered_nil|by rewrite Z.sub_0_r|done|lia|lia|lia|done|intros _; lia|].
  - eapply dest_fits_le; [|exact Df]. lia.
  - intros f' m' T' E. rewrite Z.sub_0_r. intros Dl. rewrite s32_small by (change (MAXFILE * BSIZE) with 274432 in *; lia). by apply HQ.
Qed.

(** To a variable of the kernel. *)
Lemma wp_readi H D L f i off n Q :
  let ip := itable f i in
  tx me ∅ H D L f → file_ok H D f ip → solid D ip → room 5 L H → 0 ≤ off → 0 ≤ n → off + n < 2 ^ 32 →
  (∀ f', tx me ∅ H D L f' → evolves H f f' → Q (within ip off n, fbytes D ip off (within ip off n)) (set_fsys f' s)) →
  wp (readi i ToLocal off n) (set_fsys f s) Q.
Proof.
  intros ip T O Sd Hr Ho Hn Hb HQ. apply (wp_readi_to nobody 0 ToLocal H D L f); [done..|].
  intros f' m' T' E ->. rewrite set_mach_same. by apply HQ.
Qed.
End read.

(** ** Writing *)

(** What matters are the blocks of the free map and the indirect block. *)
Lemma file_ok_ext H D D' f ip :
  (∀ b, 0 ≤ b < sb_size (sb f) → D' (BBLOCK b (sb f)) = D (BBLOCK b (sb f))) → D' (addrs ip NDIRECT) = D (addrs ip NDIRECT) →
  file_ok H D f ip → file_ok H D' f ip ∧ ∀ bn, baddr D' ip bn = baddr D ip bn.
Proof.
  intros Hm Hi [[b1 b2 b3 b4] o2 o3 o4 o5]. assert (∀ bn, baddr D' ip bn = baddr D ip bn) as Hb by (intros bn; by apply baddr_ext).
  assert (∀ b, 0 ≤ b < sb_size (sb f) → is_free D' (sb f) b = is_free D (sb f) b) as Hf by (intros b Hb'; unfold is_free; by rewrite Hm).
  assert (∀ b, data_block H D f b → data_block H D' f b) as Hd by (intros b [d1 d2 d3 d4 d5]; split; try done; rewrite Hf; [done|lia]).
  split; [|done]. split; [split; try done|done|auto|..].
  - intros b Hb'. rewrite Hf by done. auto.
  - intros bn Hbn. rewrite Hb. intros Ha. destruct (o4 bn Hbn Ha). auto.
  - intros b b' H1 H2. rewrite !Hb. auto.
Qed.

Lemma file_ok_write H D f ip bn v :
  file_ok H D f ip → 0 ≤ bn < MAXFILE → baddr D ip bn ≠ 0 →
  let D' := <[baddr D ip bn := v]> D in file_ok H D' f ip ∧ ∀ bn', baddr D' ip bn' = baddr D ip bn'.
Proof.
  intros O Hbn Ha D'. destruct (fo_data _ _ _ _ O bn Hbn Ha) as [Hd Hne]. apply (file_ok_ext H D); [|by apply fn_lookup_insert_ne|done].
  intros b Hb. by apply fn_lookup_insert_ne, (db_map _ _ _ _ Hd).
Qed.

Lemma fbyte_write H D f ip bn v x :
  file_ok H D f ip → 0 ≤ bn < MAXFILE → baddr D ip bn ≠ 0 → 0 ≤ x / BSIZE < MAXFILE →
  fbyte (<[baddr D ip bn := v]> D) ip x = if decide (x / BSIZE = bn) then v (x mod BSIZE) else fbyte D ip x.
Proof.
  intros O Hbn Ha Hx. destruct (file_ok_write H D f ip bn v O Hbn Ha) as [_ Hb]. unfold fbyte. rewrite Hb. case_decide as E.
  - subst bn. by rewrite fn_lookup_insert.
  - rewrite fn_lookup_insert_ne; [done|]. intros Eb. apply E. symmetry. by apply (fo_inj _ _ _ _ O).
Qed.

(** A block that is not of the file. *)
Record outside (D : Z → memory) (f : fs) (ip : inode) (x : Z) : Prop := {
  os_foreign : foreign D f ip x;
  os_nz : x ≠ 0;
  os_data bn : 0 ≤ bn < MAXFILE → baddr D ip bn ≠ x;
}.

(** The [n] first bytes of [bs] are in the file at [off]. *)
Record wrote (H X : gset Z) (f : fs) (bs : list Z) (off n : Z) (D : Z → memory) (ip : inode) (D' : Z → memory) (ip' : inode) : Prop := {
  wt_ok : file_ok H D' f ip';
  wt_ip : ∃ a, ip' = set_addrs a ip;
  wt_keep bn : 0 ≤ bn < MAXFILE → baddr D ip bn ≠ 0 → baddr D' ip' bn = baddr D ip bn;
  wt_in k : 0 ≤ k < n → baddr D' ip' ((off + k) / BSIZE) ≠ 0 ∧ fbyte D' ip' (off + k) = nth (Z.to_nat k) bs 0;
  wt_out x : 0 ≤ x / BSIZE < MAXFILE → ¬ (off ≤ x < off + n) → baddr D ip (x / BSIZE) ≠ 0 → fbyte D' ip' x = fbyte D ip x;
  wt_frame x : x ∉ X → outside D f ip x → D' x = D x ∧ outside D' f ip' x;
}.

Lemma outside_alike D f f' ip x : alike f f' → outside D f ip x → outside D f' ip x.
Proof. intros [Es _] [o1 o2 o3]. split; [by apply (foreign_sb f)|done..]. Qed.
Lemma wrote_alike H X f f' bs off n D ip D' ip' : alike f f' → wrote H X f bs off n D ip D' ip' → wrote H X f' bs off n D ip D' ip'.
Proof.
  intros E [w1 w2 w3 w4 w5 w6]. split; try done; [by eapply file_ok_alike|].
  intros x Hx Ox. destruct (w6 x Hx) as [? ?]; [by apply (outside_alike D f' f)|]. split; [done|by apply (outside_alike _ f)].
Qed.

Lemma wrote_nothing H f bs off D ip : file_ok H D f ip → wrote H ∅ f bs off 0 D ip D ip.
Proof. intros O. split; try done; [exists (addrs ip); by destruct ip|lia]. Qed.

(** The blocks that [bmap] adds do not disturb what is there. *)
Lemma mapped_fbyte H f D ip bn D' ip' r x :
  file_ok H D f ip → mapped H f D ip bn D' ip' r → 0 ≤ x / BSIZE < MAXFILE → baddr D ip (x / BSIZE) ≠ 0 → fbyte D' ip' x = fbyte D ip x.
Proof.
  intros O [[g1 g2 g3] m2 m3 m4 m5 m6 m7 m8] Hx Ha. unfold fbyte. rewrite g1 by done.
  by destruct (g3 _ (data_foreign H D f ip _ O Hx Ha)) as [-> _].
Qed.

Lemma mapped_outside H f D ip bn D' ip' r x :
  mapped H f D ip bn D' ip' r → 0 ≤ bn < MAXFILE → outside D f ip x → D' x = D x ∧ outside D' f ip' x.
Proof.
  intros M Hbn [o1 o2 o3]. destruct (gr_frame _ _ _ _ _ (mp_growth _ _ _ _ _ _ _ _ M) x o1) as [Ex F]. split; [done|]. split; [done..|].
  intros bn' Hbn'. destruct (decide (bn' = bn)) as [->|Hne]; [|rewrite (mp_other _ _ _ _ _ _ _ _ M) by done; auto].
  destruct (decide (baddr D ip bn = 0)) as [E0|E0].
  - rewrite (mp_at _ _ _ _ _ _ _ _ M). intros ->. by apply (mp_fresh _ _ _ _ _ _ _ _ M).
  - destruct (mp_hit _ _ _ _ _ _ _ _ M E0) as [-> ->]. auto.
Qed.

Lemma outside_write H D f ip bn v x :
  file_ok H D f ip → 0 ≤ bn < MAXFILE → baddr D ip bn ≠ 0 → outside D f ip x →
  let D' := <[baddr D ip bn := v]> D in D' x = D x ∧ outside D' f ip x.
Proof.
  intros O Hbn Ha [[f1 f2 f3] o2 o3] D'. destruct (file_ok_write H D f ip bn v O Hbn Ha) as [_ Hb]. fold D' in Hb. split.
  - by apply fn_lookup_insert_ne, o3.
  - split; [split; [|done..]|done|]; [|intros bn' Hbn'; rewrite Hb; auto].
    intros Hx. unfold D'. rewrite (is_free_data H D f); [auto| |done]. by apply (fo_data _ _ _ _ O).
Qed.

(** Storing [c] at byte [x], within its block. *)
Lemma fbyte_store H D f ip x c y :
  file_ok H D f ip → 0 ≤ x / BSIZE < MAXFILE → baddr D ip (x / BSIZE) ≠ 0 → x mod BSIZE + Z.of_nat (length c) ≤ BSIZE →
  0 ≤ y / BSIZE < MAXFILE → let r := baddr D ip (x / BSIZE) in
  fbyte (<[r := store_bytes (D r) (x mod BSIZE) c]> D) ip y =
    if decide (x ≤ y < x + Z.of_nat (length c)) then nth (Z.to_nat (y - x)) c 0 else fbyte D ip y.
Proof.
  intros O Hx Ha Hc Hy r. unfold r. rewrite (fbyte_write H D f) by done. destruct (block_bounds x) as (X1 & X2 & X3).
  destruct (block_bounds y) as (Y1 & Y2 & Y3). case_decide as E.
  - unfold store_bytes. rewrite Y2, X2, E. case_decide as Hin.
    + destruct (Z.leb_spec (x - x / BSIZE * BSIZE) (y - x / BSIZE * BSIZE)); [|lia].
      destruct (Z.ltb_spec (y - x / BSIZE * BSIZE) (x - x / BSIZE * BSIZE + Z.of_nat (length c))); [|lia]. simpl. do 2 f_equal. lia.
    + destruct (Z.leb_spec (x - x / BSIZE * BSIZE) (y - x / BSIZE * BSIZE)), (Z.ltb_spec (y - x / BSIZE * BSIZE) (x - x / BSIZE * BSIZE + Z.of_nat (length c)));
        try lia; unfold fbyte; by rewrite Y2, E.
  - rewrite decide_False; [done|]. intros Hin. apply E, block_of. lia.
Qed.

Lemma nth_firstn_skipn (l : list Z) j m n : (j < m)%nat → nth j (take m (drop n l)) 0 = nth (n + j) l 0.
Proof. intros Hj. rewrite !nth_lookup. by rewrite lookup_take_lt, lookup_drop. Qed.

Lemma wrote_mapped H f bs off n D0 ip0 D ip bn D1 ip1 r :
  wrote H ∅ f bs off n D0 ip0 D ip → mapped H f D ip bn D1 ip1 r → 0 ≤ bn < MAXFILE → 0 ≤ off → off + n ≤ MAXFILE * BSIZE →
  wrote H ∅ f bs off n D0 ip0 D1 ip1.
Proof.
  intros [w1 w2 w3 w4 w5 w6] M Hbn Ho Hn. pose proof (gr_keep _ _ _ _ _ (mp_growth _ _ _ _ _ _ _ _ M)) as Hk.
  split; [apply M|..].
  - destruct w2 as [a ->], (gr_ip _ _ _ _ _ (mp_growth _ _ _ _ _ _ _ _ M)) as [b ->]. by exists b.
  - intros b Hb Ha. rewrite Hk; rewrite ?w3; done.
  - intros k Hkn. destruct (w4 k Hkn) as [Ha Hf]. destruct (block_bounds (off + k)) as (? & _). pose proof bsize_pos.
    assert (0 ≤ (off + k) / BSIZE < MAXFILE) by nia. rewrite Hk by done. split; [done|]. by rewrite (mapped_fbyte H f D ip bn D1 ip1 r).
  - intros y Hy Hout Ha. rewrite (mapped_fbyte H f D ip bn D1 ip1 r); [by apply w5|done..|by rewrite w3].
  - intros y Hy Oy. destruct (w6 y Hy Oy) as [<- Oy1]. by apply (mapped_outside H f D ip bn D1 ip1 r).
Qed.

Lemma wrote_store H f bs off n D0 ip0 D ip m :
  let x := off + n in let c := take (Z.to_nat m) (drop (Z.to_nat n) bs) in let r := baddr D ip (x / BSIZE) in
  wrote H ∅ f bs off n D0 ip0 D ip → r ≠ 0 →
  0 ≤ off → 0 ≤ n → 0 ≤ m → 0 ≤ x / BSIZE < MAXFILE → x mod BSIZE + m ≤ BSIZE → n + m ≤ Z.of_nat (length bs) →
  wrote H ∅ f bs off (n + m) D0 ip0 (<[r := store_bytes (D r) (x mod BSIZE) c]> D) ip.
Proof.
  intros x c r [w1 w2 w3 w4 w5 w6] Hnz Ho Hn Hm Hx Hb Hl. set (v := store_bytes (D r) (x mod BSIZE) c).
  assert (Z.of_nat (length c) = m) as Hc by (unfold c; rewrite length_take, length_drop; lia).
  destruct (file_ok_write H D f ip (x / BSIZE) v w1 Hx Hnz) as [O2 Hb2]. fold r in O2, Hb2.
  assert (∀ y, 0 ≤ y / BSIZE < MAXFILE → fbyte (<[r := v]> D) ip y = if decide (x ≤ y < x + m) then nth (Z.to_nat (y - x)) c 0 else fbyte D ip y) as Hs.
  { intros y Hy. unfold v, r. rewrite (fbyte_store H D f) by (done || lia). by rewrite Hc. }
  split; [done|done|..].
  - intros bn Hbn Ha. rewrite Hb2. auto.
  - intros k Hk. pose proof (Z.div_pos (off + k) BSIZE ltac:(lia) bsize_pos). rewrite Hb2. destruct (decide (k < n)) as [Hkn|Hkn].
    + assert ((off + k) / BSIZE ≤ x / BSIZE) as Hle by (apply Z.div_le_mono; [apply bsize_pos|unfold x; lia]).
      rewrite Hs by lia. rewrite decide_False by lia. apply w4. lia.
    + assert ((off + k) / BSIZE = x / BSIZE) as Ek by (destruct (in_block x (k - n)) as [E _]; [lia..|]; rewrite <-E; f_equal; lia).
      rewrite Hs by lia. rewrite Ek. split; [done|]. rewrite decide_True by lia. unfold c. rewrite nth_firstn_skipn by lia. f_equal. lia.
  - intros y Hy Hout Ha. rewrite Hs by done. rewrite decide_False by lia. apply w5; [done|lia|done].
  - intros y Hy Oy. destruct (w6 y Hy Oy) as [<- Oy1]. by apply (outside_write H).
Qed.

(** The block of the inode is written last. *)
Lemma wrote_inode H f bs off n D ip D1 ip1 ib v :
  0 ≤ off → off + n ≤ MAXFILE * BSIZE → wrote H ∅ f bs off n D ip D1 ip1 → outside D f ip ib → wrote H {[ib]} f bs off n D ip (<[ib := v]> D1) ip1.
Proof.
  intros Ho Hn [w1 w2 w3 w4 w5 w6] Oi. destruct (w6 ib (not_elem_of_empty ib) Oi) as [Ei [[f1 f2 f3] o2 o3]].
  destruct (file_ok_ext H D1 (<[ib := v]> D1) f ip1) as [O2 Hb]; [intros b Hb; by apply fn_lookup_insert_ne, f2|by apply fn_lookup_insert_ne|done|].
  assert (∀ y, 0 ≤ y / BSIZE < MAXFILE → fbyte (<[ib := v]> D1) ip1 y = fbyte D1 ip1 y) as Hf.
  { intros y Hy. unfold fbyte. rewrite Hb. rewrite fn_lookup_insert_ne; [done|]. by apply not_eq_sym, o3. }
  split; [done|done|..].
  - intros bn Hbn Ha. rewrite Hb. auto.
  - intros k Hk. destruct (block_bounds (off + k)) as (? & _). pose proof bsize_pos. rewrite Hb, Hf by nia. auto.
  - intros y Hy Hout Ha. rewrite Hf by done. auto.
  - intros y Hy%not_elem_of_singleton Oy. destruct (w6 y (not_elem_of_empty y) Oy) as [<- [[g1 g2 g3] p2 p3]].
    split; [by apply fn_lookup_insert_ne, not_eq_sym|]. split; [split; [|done..]|done|intros bn Hbn; rewrite Hb; auto].
    intros Hy0. unfold is_free. rewrite fn_lookup_insert_ne; [by apply g1|by apply f2].
Qed.

(** The place of an inode on the disk. *)
Record inode_home (H : gset Z) (D : Z → memory) (f : fs) (ip : inode) : Prop := {
  ih_ok : ok_block f (inode_block f (inum ip));
  ih_held : inode_block f (inum ip) ∉ H;
  ih_out : outside D f ip (inode_block f (inum ip));
}.

Lemma inode_home_alike H D f f' ip : alike f f' → inode_home H D f ip → inode_home H D f' ip.
Proof.
  intros E [h1 h2 h3]. pose proof E as [Es Eo]. assert (inode_block f' (inum ip) = inode_block f (inum ip)) as Eb by (unfold inode_block; by rewrite Es).
  split; rewrite Eb; [by apply Eo|done|by apply (outside_alike D f)].
Qed.

Lemma size_four (N : gset Z) a b c d : N ⊆ {[a; b; c; d]} → (size N ≤ 4)%nat.
Proof.
  intros HN. etrans; [by apply subseteq_size|]. rewrite !size_union_alt, !size_singleton.
  pose proof (subseteq_size (({[b]} : gset Z) ∖ {[a]}) {[b]}). pose proof (subseteq_size (({[c]} : gset Z) ∖ {[a; b]}) {[c]}).
  pose proof (subseteq_size (({[d]} : gset Z) ∖ {[a; b; c]}) {[d]}). rewrite !size_singleton in *.
  repeat match goal with H : _ → (_ ≤ _)%nat |- _ => specialize (H ltac:(set_solver)) end. lia.
Qed.

(** The bytes written, and whether all were. *)
Definition stopped (n tot : Z) (f : fs) (D : Z → memory) : Prop :=
  0 ≤ tot ≤ n ∧ (tot < n → ∀ j, 0 ≤ j < sb_size (sb f) → is_free D (sb f) j = false).

Section write.
Context {LY : Layout} {SW : Switch fs} {PA : Patience}.
Context (me : Z) (s : K) (Qs : quiet me s).

Lemma wp_writei_loop g rt src fuel k c H D0 ip0 D L ip f i bs off n tot Q :
  source_has g rt s src bs →
  tx me ∅ H D L f → itable f i = ip → wrote H ∅ f bs off tot D0 ip0 D ip → (1 ≤ c)%nat → room (4 * k + c) L H →
  0 ≤ off → 0 ≤ tot ≤ n → off + n ≤ MAXFILE * BSIZE → n ≤ Z.of_nat (length bs) → (k < fuel)%nat →
  (tot < n → n - tot + (off + tot) mod BSIZE ≤ Z.of_nat k * BSIZE) →
  (∀ tot' D' L' ip' f', tx me ∅ H D' L' f' → wrote H ∅ f bs off tot' D0 ip0 D' ip' → stopped n tot' f D' → room c L' H →
     evolves H (put_inode i ip' f) f' → Q (tot', off + tot') (set_fsys f' s)) →
  wp (writei_loop fuel i src (off + tot) n tot) (set_fsys f s) Q.
Proof.
  intros Src. revert k f D L ip tot. induction fuel as [|fuel IH]; intros k f D L ip tot T Ei W Hc Hr Ho Ht Hsz Hl Hf1 Hf2 HQ; [lia|]. cbn [writei_loop].
  destruct (Z.ltb_spec tot n) as [Hlt|]; cbn [negb].
  2: { apply wp_ret, (HQ _ D L ip); [done..|split; lia|by eapply room_le; [|exact Hr]; lia|by rewrite put_inode_same]. }
  set (x := off + tot) in *. destruct (block_bounds x) as (B1 & B2 & B3). pose proof bsize_pos. pose proof (wt_ok _ _ _ _ _ _ _ _ _ _ W) as O.
  destruct k as [|k]; [specialize (Hf2 Hlt); lia|].
  assert (0 ≤ x / BSIZE < MAXFILE) as Hbn by nia.
  apply wp_bind, (wp_bmap me s Qs H D L f); rewrite ?Ei; [done..|by eapply room_le; [|exact Hr]; lia|].
  intros r D1 ip1 N f1 M T1 HN _ E1.
  assert ({[r]} ∪ N ⊆ {[r; BBLOCK r (sb f); addrs ip1 NDIRECT; BBLOCK (addrs ip1 NDIRECT) (sb f)]}) as HN4%size_four by set_solver.
  apply size_four in HN. pose proof M as [m1 m2 m3 m4 m5 m6 m7 m8].
  destruct (Z.eqb_spec r 0) as [->|Hnz].
  { apply wp_ret, (HQ _ D1 (N ∪ L) ip1); [done|by eapply wrote_mapped; [..|lia]|by split; [lia|auto]|apply (room_union _ 4); [done|by eapply room_le; [|exact Hr]; lia]|done]. }
  apply wp_bind, wp_iget_. rewrite (ev_itable _ _ _ E1), put_inode_eq, (fo_dev _ _ _ _ m2).
  assert (data_block H D1 f r) as Hd by (subst r; by apply (fo_data _ _ _ _ m2)).
  apply (wp_tget me s Qs H D1 (N ∪ L) f1 r); [done|apply (alike_put _ _ _ _ _ E1), Hd|apply Hd|apply (room_union _ 4); [done|by eapply room_le; [|exact Hr]; lia]|].
  intros bp f2 T2 H2 E2 _. cbv zeta. set (m := Z.min (n - tot) (BSIZE - x mod BSIZE)).
  apply wp_bind, (wp_copy_from me s Qs g rt src bs); [done|lia|lia|lia|]. cbn [fst snd].
  change (0 =? -1) with false. cbv iota. set (c0 := take (Z.to_nat m) (drop (Z.to_nat tot) bs)).
  apply wp_seq3, (wp_tset me s Qs H D1 (N ∪ L) f2 bp r (λ data, store_bytes data (x mod BSIZE) c0)); [done|apply Hd|done| |].
  { eapply (room_logs c _ H), (room_union _ 4); [done|by eapply room_le; [|exact Hr]; lia]. }
  intros f3 T3 E3. assert (evolves H f1 f3) as E13 by (by etrans). replace (x + m) with (off + (tot + m)) by lia.
  rewrite u32_small by (change (MAXFILE * BSIZE) with 274432 in *; lia).
  assert (alike f f3) as A3 by (by eapply alike_put; etrans). rewrite union_assoc_L in T3.
  apply (IH k f3 _ _ ip1 _ T3); [by rewrite (ev_itable _ _ _ E13), (ev_itable _ _ _ E1), put_inode_eq| |done| |done|lia|done|done|nia| |].
  - apply (wrote_alike H ∅ f f3); [done|]. subst r. apply wrote_store; [|done|done|lia|lia|done|fold x; lia|lia].
    by eapply wrote_mapped; [..|lia].
  - apply (room_union _ 4); [done|]. by eapply room_le; [|exact Hr]; lia.
  - intros Hlt'. assert (m = BSIZE - x mod BSIZE) as Em by lia. assert ((off + (tot + m)) mod BSIZE = 0) as ->; [|lia].
    replace (off + (tot + m)) with ((x / BSIZE + 1) * BSIZE) by lia. by apply Z.mod_mul.
  - intros tot' D' L' ip' f' T' W' [S1 S2] R' E'. pose proof A3 as [Es _]. rewrite Es in S2.
    apply (HQ tot' D' L' ip'); [done|by apply (wrote_alike H ∅ f3 f)|done|done|]. etrans; [|exact E'].
    rewrite <-(put_inode_twice i ip1 ip' f). apply evolves_put. by etrans.
Qed.

Lemma wp_writei_from g rt src H D L f i bs off c Q :
  let ip := itable f i in let n := Z.of_nat (length bs) in let ib := inode_block f (inum ip) in
  source_has g rt s src bs → tx me ∅ H D L f → file_ok H D f ip → inode_home H D f ip → 0 ≤ off ≤ isize ip → off + n ≤ MAXFILE * BSIZE →
  room (4 * touched off n + S c) L H →
  (∀ tot D1 L' ip1 f', let ip' := set_isize (Z.max (isize ip) (off + tot)) ip1 in
     let D' := <[ib := encode_inode ip' (dinode_off (inum ip)) (D ib)]> D1 in
     tx me ∅ H D' L' f' → wrote H {[ib]} f bs off tot D ip D' ip1 → stopped n tot f D' → room c L' H →
     evolves H (put_inode i ip' f) f' → Q tot (set_fsys f' s)) →
  wp (writei i src off n) (set_fsys f s) Q.
Proof.
  intros ip n ib Src T O Hh Ho Hn Hr HQ. apply wp_bind, wp_iget_. fold ip. destruct (Z.ltb_spec (isize ip) off); [lia|]. cbn [orb].
  rewrite u32_small by (change (MAXFILE * BSIZE) with 274432 in *; lia). destruct (Z.ltb_spec (off + n) off); [lia|].
  destruct (Z.ltb_spec (MAXFILE * BSIZE) (off + n)); [lia|]. destruct (touched_rounds off n) as [R1 R2]; [lia|].
  rewrite <-(Z.add_0_r off) at 1. apply wp_bind, (wp_writei_loop g rt src _ (touched off n) (S c) H D ip D L ip f i bs);
    [done|done|done|by apply wrote_nothing|lia|done|lia|lia|done|done|done|rewrite Z.add_0_r; intros _; lia|].
  intros tot D1 L1 ip1 f1 T1 W St Hr1 E1. pose proof (ev_itable _ _ _ E1) as Et. destruct (wt_ip _ _ _ _ _ _ _ _ _ _ W) as [a Ea].
  destruct (wt_frame _ _ _ _ _ _ _ _ _ _ W ib (not_elem_of_empty ib) (ih_out _ _ _ _ Hh)) as [Eib Oib]. cbn [snd fst].
  apply wp_bind, wp_iset. rewrite Et, put_inode_eq.
  assert (inum ip1 = inum ip ∧ isize ip1 = isize ip ∧ idev ip1 = ROOTDEV) as (En & Ez & Edv) by (rewrite Ea; split_and!; [done..|apply O]).
  set (ip' := set_isize (Z.max (isize ip) (off + tot)) ip1).
  assert ((if isize ip1 <? off + tot then set_isize (off + tot) ip1 else ip1) = ip') as ->.
  { unfold ip'. rewrite Ez. destruct (Z.ltb_spec (isize ip) (off + tot)); [f_equal; lia|]. rewrite Z.max_l, <-Ez by lia. by destruct ip1. }
  set (f2 := put_inode i ip' f1). assert (itable f2 i = ip') as E2 by apply put_inode_eq.
  assert (inode_block f2 (inum ip') = ib) as Eb.
  { change (inum ip') with (inum ip1). change (inode_block f2) with (inode_block f1). unfold ib, inode_block. by rewrite En, (ev_sb _ _ _ E1). }
  apply wp_bind, (wp_iupdate me s Qs H D1 L1 f2); rewrite ?E2, ?Eb; [done|done| |apply Hh|by eapply room_le; [|exact Hr1]; lia|].
  { apply (alike_put _ _ _ _ _ E1), Hh. }
  intros f' T' E'. rewrite Eib in T'. change (inum ip') with (inum ip1) in T'. rewrite En in T'. apply wp_ret.
  rewrite s32_small by (destruct St; change (MAXFILE * BSIZE) with 274432 in *; lia).
  eapply HQ; [exact T'|apply wrote_inode; [lia|destruct St; lia|done|apply Hh]| |by apply room_log|].
  - destruct St as [S1 S2]. split; [done|]. intros Hlt j Hj. unfold is_free. rewrite fn_lookup_insert_ne by (by apply (ih_out _ _ _ _ Hh)). by apply S2.
  - etrans; [|exact E']. unfold f2. rewrite <-(put_inode_twice i ip1 _ f). by apply evolves_put.
Qed.

(** From a variable of the kernel. *)
Lemma wp_writei H D L f i bs off c Q :
  let ip := itable f i in let n := Z.of_nat (length bs) in let ib := inode_block f (inum ip) in
  tx me ∅ H D L f → file_ok H D f ip → inode_home H D f ip → 0 ≤ off ≤ isize ip → off + n ≤ MAXFILE * BSIZE →
  room (4 * rounds n + S c) L H →
  (∀ tot D1 L' ip1 f', let ip' := set_isize (Z.max (isize ip) (off + tot)) ip1 in
     let D' := <[ib := encode_inode ip' (dinode_off (inum ip)) (D ib)]> D1 in
     tx me ∅ H D' L' f' → wrote H {[ib]} f bs off tot D ip D' ip1 → stopped n tot f D' → room c L' H →
     evolves H (put_inode i ip' f) f' → Q tot (set_fsys f' s)) →
  wp (writei i (FromLocal bs) off n) (set_fsys f s) Q.
Proof.
  intros ip n ib T O Hh Ho Hn Hr HQ. apply (wp_writei_from nobody 0 (FromLocal bs) H D L f i bs off c); [done..| |done].
  destruct (touched_rounds off n) as [R1 _]; [lia|]. eapply room_le; [|exact Hr]. fold n. lia.
Qed.
End write.

Lemma wrote_solid H X f bs off n D ip D' ip' :
  wrote H X f bs off n D ip D' ip' → solid D ip → 0 ≤ off ≤ isize ip → off + n ≤ MAXFILE * BSIZE →
  solid D' (set_isize (Z.max (isize ip) (off + n)) ip').
Proof.
  intros W [S1 S2] Ho Hn. pose proof bsize_pos. split; [cbn [isize set_isize]; lia|]. cbn [isize set_isize]. intros bn Hbn Hlt.
  change (baddr D' (set_isize _ ip') bn) with (baddr D' ip' bn). destruct (decide (bn * BSIZE < isize ip)) as [Hin|Hout].
  - rewrite (wt_keep _ _ _ _ _ _ _ _ _ _ W) by (try apply S2; nia). by apply S2.
  - destruct (wt_in _ _ _ _ _ _ _ _ _ _ W (bn * BSIZE - off)) as [Ha _]; [lia|].
    rewrite (block_of _ bn) in Ha by lia. done.
Qed.

Lemma wrote_fbytes H X f bs off n D ip D' ip' :
  wrote H X f bs off n D ip D' ip' → 0 ≤ n ≤ Z.of_nat (length bs) → fbytes D' ip' off n = take (Z.to_nat n) bs.
Proof.
  intros W Hn. apply list_eq. intros k. unfold fbytes. rewrite list_lookup_fmap. destruct (decide (k < Z.to_nat n)%nat) as [Hk|Hk].
  - rewrite lookup_seq_lt, lookup_take_lt by done. simpl. destruct (wt_in _ _ _ _ _ _ _ _ _ _ W (Z.of_nat k)) as [_ ->]; [lia|].
    rewrite Nat2Z.id, nth_lookup. destruct (lookup_lt_is_Some_2 bs k) as [v ->]; [lia|done].
  - rewrite lookup_seq_ge, lookup_take_ge by lia. done.
Qed.

(** For the chunks of [filewrite], of at most (MAXOPBLOCKS - 4) / 2 blocks, there is
    room when the log is empty. *)
Lemma chunk_fits off n : 0 ≤ n ≤ (MAXOPBLOCKS - 4) / 2 * BSIZE → room (4 * touched off n + 6) ∅ ∅.
Proof.
  intros Hn. change ((MAXOPBLOCKS - 4) / 2 * BSIZE) with 3072 in Hn. destruct (block_bounds off) as (_ & _ & ?).
  assert (touched off n ≤ 4)%nat as Ht; [|apply (room_le _ 22); [lia|by apply Nat.ltb_lt]].
  unfold touched. unfold BSIZE in *. apply Nat2Z.inj_le. rewrite Z2Nat.id by dlia. dlia.
Qed.

(** C20. [writei] followed by [readi]: what is written to a file is read back.
    The bytes come from a variable of the kernel or from memory the process can
    read, as in write(), and go to a variable of the kernel or to memory the
    process can write, as in read(); the memory of the process changes in the
    bytes that were read, nowhere else.  The write stops early only when the disk is
    full; the size and the inode on disk follow, the other bytes of the file and
    every block that is not of the file stay as they were.  Beside the
    blocks already logged or held, the buffer cache needs room for four for each
    block that the write touches, and for six. *)
Theorem write_then_read {LY : Layout} {SW : Switch fs} {PA : Patience} me (s : K) g rt src d H D L f i bs off :
  let ip := itable f i in let n := Z.of_nat (length bs) in let ib := inode_block f (inum ip) in
  quiet me s → source_has g rt s src bs → dest_fits g rt s d n → deliverable d bs →
  tx me ∅ H D L f → file_ok H D f ip → solid D ip → inode_home H D f ip →
  0 ≤ off ≤ isize ip → off + n ≤ MAXFILE * BSIZE → room (4 * touched off n + 6) L H →
  wp (r ← writei i src off n; readi i d off r) (set_fsys f s) (λ res s', ∃ tot f' m' D' L',
    let ip' := itable f' i in
    s' = set_fsys f' (set_mach m' s) ∧ tx me ∅ H D' L' f' ∧ res = (tot, take (Z.to_nat tot) bs) ∧
    delivered g rt d (take (Z.to_nat tot) bs) (mach s) m' ∧
    stopped n tot f D' ∧ file_ok H D' f' ip' ∧ solid D' ip' ∧
    isize ip' = Z.max (isize ip) (off + tot) ∧
    D' ib = encode_inode ip' (dinode_off (inum ip)) (D ib) ∧
    (∀ x, 0 ≤ x < isize ip → ¬ (off ≤ x < off + tot) → fbyte D' ip' x = fbyte D ip x) ∧
    (∀ b, b ≠ ib → outside D f ip b → D' b = D b)).
Proof.
  intros ip n ib Qs Src Df Db T O Sd Hh Ho Hn Hr. apply wp_bind, (wp_writei_from me s Qs g rt src H D L f i bs off 5); [done..|]. fold ip n ib.
  intros tot D1 L' ip1 f1 ip' D' T1 W St Hr1 E1. assert (itable f1 i = ip') as Ei by (rewrite (ev_itable _ _ _ E1); apply put_inode_eq).
  pose proof St as [St1 _]. assert (file_ok H D' f1 ip') as O1.
  { apply (file_ok_alike H D' f); [by eapply alike_put|]. destruct (wt_ok _ _ _ _ _ _ _ _ _ _ W) as [o1 o2 o3 o4 o5]. by split. }
  assert (solid D' ip') as Sd1 by (eapply wrote_solid; [exact W|done|done|lia]).
  assert (within ip' off tot = tot) as Ew by (unfold within, ip'; cbn [isize set_isize]; lia).
  assert (fbytes D' ip' off tot = take (Z.to_nat tot) bs) as Efb by (rewrite <-(wrote_fbytes _ _ _ _ _ _ _ _ _ _ W) by lia; done).
  apply (wp_readi_to me s Qs g rt d H D' L' f1); rewrite ?Ei, ?Ew, ?Efb;
    [done|done|done|done|lia|lia|change (MAXFILE * BSIZE) with 274432 in *; lia|by eapply dest_fits_le; [|exact Df]; lia|by apply deliverable_take|].
  intros f2 m' T2 E2 Dl.
  exists tot, f2, m', D', L'. cbv zeta. rewrite (ev_itable _ _ _ E2), Ei. split_and!; try done.
  - eapply file_ok_alike; [by eapply alike_evolves|done].
  - apply fn_lookup_insert.
  - intros x Hx Hout. destruct Sd as [Sd0 Sd]. destruct (block_bounds x) as (? & _). pose proof bsize_pos.
    change (fbyte D' ip' x) with (fbyte D' ip1 x). apply (wt_out _ _ _ _ _ _ _ _ _ _ W); [nia|done|apply Sd; nia].
  - intros b Hb Ob. apply (wt_frame _ _ _ _ _ _ _ _ _ _ W); [set_solver|done].
Qed.
