(* ===== verification/FsDir.v ===== *)
(** * Directories

    The names of a directory: how names are compared and stored, [dirlookup] as
    the search for the first entry with a name, and [dirlink]. *)

From S2P Require Import Prelude Riscv Memory Kalloc Vm CopyUser Spinlock Proc ProcOps FsState Sleeplock Bio BioOps BioSpec Log LogOps LogCommit Tx TxOps Fs FsBlocks FsInode FsFile FsRw.

(** ** Names *)

(** Strings that agree up to a NUL compare as equal. *)
Lemma strncmp_same n : ∀ m p q,
  (∀ k, 0 ≤ k < Z.of_nat n → (∀ j, 0 ≤ j < k → m (p + j) ≠ 0) → m (p + k) = m (q + k)) → strncmp_loop n m p q = 0.
Proof.
  induction n as [|n IH]; intros m p q Hs; [done|]. cbn [strncmp_loop]. pose proof (Hs 0 ltac:(lia) ltac:(lia)) as E0. rewrite !Z.add_0_r in E0.
  rewrite E0, Z.eqb_refl, andb_true_r, Z.sub_diag. destruct (Z.eqb_spec (m q) 0) as [|Hnz]; [done|]. apply IH. intros k Hk Hj.
  rewrite <-!Z.add_assoc. apply Hs; [lia|]. intros j Hj'. destruct (decide (j = 0)) as [->|]; [rewrite Z.add_0_r; congruence|].
  replace (p + j) with (p + 1 + (j - 1)) by lia. apply Hj. lia.
Qed.

Lemma strncpy_before n : ∀ m s t x, x < s → strncpy_loop n m s t x = m x.
Proof.
  induction n as [|n IH]; intros m s t x Hx; [done|]. cbn [strncpy_loop]. destruct (negb _).
  - rewrite IH by lia. unfold upd. mem_cases; [lia|done].
  - rewrite strncpy_pad_fill. unfold fill, upd. mem_cases; lia || done.
Qed.

Lemma strncpy_prefix n : ∀ m s t k, s + Z.of_nat n ≤ t → 0 ≤ k < Z.of_nat n → (∀ j, 0 ≤ j < k → m (t + j) ≠ 0) →
  strncpy_loop n m s t (s + k) = m (t + k).
Proof.
  induction n as [|n IH]; intros m s t k Hst Hk Hj; [lia|]. cbn [strncpy_loop]. destruct (decide (k = 0)) as [->|Hk0].
  - rewrite !Z.add_0_r. destruct (negb _); [rewrite strncpy_before by lia|rewrite strncpy_pad_fill; unfold fill];
      unfold upd; mem_cases; lia || done.
  - pose proof (Hj 0 ltac:(lia)) as H0. rewrite Z.add_0_r in H0. destruct (Z.eqb_spec (m t) 0); [done|]. cbn [negb].
    assert (∀ x, t ≤ x → upd m s (m t) x = m x) as Hu by (intros x Hx; unfold upd; mem_cases; lia || done).
    replace (s + k) with (s + 1 + (k - 1)) by lia. rewrite IH; [|lia|lia|].
    + rewrite Hu by lia. f_equal. lia.
    + intros j Hj'. rewrite Hu by lia. replace (t + 1 + j) with (t + (j + 1)) by lia. apply Hj. lia.
Qed.

Lemma names_left s t k : 0 ≤ k < 32 → names s t k = nth (Z.to_nat k) s 0.
Proof.
  intros Hk. unfold names, store_bytes. rewrite Z.sub_0_r. mem_cases; try lia; try done; symmetry; apply nth_overflow; lia.
Qed.
Lemma names_right s t k : (length s ≤ 32)%nat → 0 ≤ k → names s t (32 + k) = nth (Z.to_nat k) t 0.
Proof.
  intros Hs Hk. unfold names, store_bytes. replace (32 + k - 32) with k by lia. mem_cases; try lia; try done; symmetry; apply nth_overflow; lia.
Qed.

Lemma length_name_field name : length (name_field name) = 14%nat.
Proof. apply length_load_bytes. Qed.

(** The name that was stored is found. *)
Lemma namecmp_field name : (length name ≤ 14)%nat → namecmp name (name_field name) = 0.
Proof.
  intros Hl. apply strncmp_same. change (Z.of_nat (Z.to_nat DIRSIZ)) with 14. intros k Hk Hj. rewrite Z.add_0_l, names_left, names_right by lia.
  assert (name_field name !! Z.to_nat k = Some (strncpy (names [] name) 0 32 DIRSIZ (0 + k))) as Hf.
  { apply lookup_load_bytes. split; [lia|]. do 2 f_equal. lia. }
  rewrite (nth_lookup_Some _ _ _ _ Hf). unfold strncpy. rewrite strncpy_prefix; [|done|done|].
  - rewrite names_right by (simpl; lia). done.
  - intros j Hj'. rewrite names_right by (simpl; lia). specialize (Hj j Hj'). by rewrite Z.add_0_l, names_left in Hj by lia.
Qed.

Lemma de_name_mk ino name : de_name (mk_dirent ino (name_field name)) = name_field name.
Proof. unfold de_name, mk_dirent. cbn [drop]. apply take_ge. by rewrite length_name_field. Qed.

Lemma de_inum_mk ino name : 0 ≤ ino < 2 ^ 16 → de_inum (mk_dirent ino (name_field name)) = ino.
Proof.
  intros Hi. unfold de_inum, load16, load_le, store_bytes, mk_dirent. cbn [length]. rewrite length_name_field. rewrite u16_small by done.
  simpl. unfold byte_at. dlia.
Qed.

(** ** Entries *)

(** Entry [j] of a directory. *)
Definition dent (D : Z → memory) (dp : inode) (j : Z) : list Z := fbytes D dp (j * DIRENT_SIZE) DIRENT_SIZE.
Definition nents (dp : inode) : Z := isize dp / DIRENT_SIZE.

(** The entry is in use, for the name. *)
Definition names_entry (name de : list Z) : bool := negb (de_inum de =? 0) && (namecmp name (de_name de) =? 0).

Record dir_ok (H : gset Z) (D : Z → memory) (f : fs) (dp : inode) : Prop := {
  do_file : file_ok H D f dp;
  do_solid : solid D dp;
  do_type : itype dp = T_DIR;
  do_size : isize dp mod DIRENT_SIZE = 0;
}.

Lemma dir_ok_alike H D f f' dp : alike f f' → dir_ok H D f dp → dir_ok H D f' dp.
Proof. intros E [d1 d2 d3 d4]. split; try done. by eapply file_ok_alike. Qed.

Lemma dir_size dp : isize dp mod DIRENT_SIZE = 0 → isize dp = nents dp * DIRENT_SIZE.
Proof. unfold nents. change DIRENT_SIZE with 16. dlia. Qed.

(** [off] is the first entry with this property, or the end. *)
Definition first_entry (p : list Z → bool) (D : Z → memory) (dp : inode) (j : Z) : Prop :=
  0 ≤ j ≤ nents dp ∧ (∀ k, 0 ≤ k < j → p (dent D dp k) = false) ∧ (j < nents dp → p (dent D dp j) = true).

Section dir.
Context {LY : Layout} {SW : Switch fs} {PA : Patience}.
Context (me : Z) (s : K) (Qs : quiet me s).

Lemma wp_read_dirent H D L f dp j msg Q :
  tx me ∅ H D L f → dir_ok H D f (itable f dp) → room 5 L H → 0 ≤ j < nents (itable f dp) →
  (∀ f', tx me ∅ H D L f' → evolves H f f' → Q (dent D (itable f dp) j) (set_fsys f' s)) →
  wp (read_dirent dp (j * DIRENT_SIZE) msg) (set_fsys f s) Q.
Proof.
  intros T [d1 d2 d3 d4] Hr Hj HQ. pose proof (dir_size _ d4) as Es. pose proof d2 as [S1 _].
  change DIRENT_SIZE with 16 in *. change (MAXFILE * BSIZE) with 274432 in *.
  apply wp_bind, (wp_readi me s Qs H D L f); [done..|lia|done|change DIRENT_SIZE with 16; lia|]. intros f' T' E.
  change DIRENT_SIZE with 16. assert (within (itable f dp) (j * 16) 16 = 16) as -> by (unfold within; lia). cbn [fst snd]. change (negb (16 =? 16)) with false.
  apply wp_ret. by apply HQ.
Qed.

Lemma wp_dirlookup_loop fuel H D L ip f dp name j Q :
  tx me ∅ H D L f → itable f dp = ip → dir_ok H D f ip → room 5 L H →
  0 ≤ j ≤ nents ip → (nents ip - j < Z.of_nat fuel) → (∀ k, 0 ≤ k < j → names_entry name (dent D ip k) = false) →
  (∀ f', first_entry (names_entry name) D ip (nents ip) → tx me ∅ H D L f' → evolves H f f' → Q None (set_fsys f' s)) →
  (∀ j f', first_entry (names_entry name) D ip j → j < nents ip → tx me ∅ H D L f' → evolves H f f' →
     wp (iget ROOTDEV (de_inum (dent D ip j))) (set_fsys f' s) (λ i s', Q (Some (i, j * DIRENT_SIZE)) s')) →
  wp (dirlookup_loop fuel dp name (j * DIRENT_SIZE)) (set_fsys f s) Q.
Proof.
  revert f j. induction fuel as [|fuel IH]; intros f j T Ei O Hr Hj Hf Hno HQ1 HQ2; [lia|]. cbn [dirlookup_loop].
  pose proof (dir_size _ (do_size _ _ _ _ O)) as Es. apply wp_bind, wp_iget_. rewrite Ei, Es.
  destruct (Z.ltb_spec (j * DIRENT_SIZE) (nents ip * DIRENT_SIZE)) as [Hlt|Hge]; cbn [negb]; change DIRENT_SIZE with 16 in *.
  2: { apply wp_ret. assert (j = nents ip) as -> by lia. apply HQ1; [split_and!; [lia|lia|done|lia]|done|done]. }
  apply wp_bind, (wp_read_dirent H D L f); rewrite ?Ei; [done..|lia|]. intros f1 T1 E1. pose proof (alike_evolves _ _ _ E1) as A1.
  assert (wp (dirlookup_loop fuel dp name (j * 16 + 16)) (set_fsys f1 s) Q ∨ names_entry name (dent D ip j) = true) as Hnext.
  { destruct (names_entry name (dent D ip j)) eqn:En; [by right|left]. replace (j * 16 + 16) with ((j + 1) * DIRENT_SIZE) by (change DIRENT_SIZE with 16; lia).
    apply IH; [done|by rewrite (ev_itable _ _ _ E1)|by eapply dir_ok_alike|done|lia|lia| | |].
    - intros k Hk. destruct (decide (k = j)) as [->|]; [done|]. apply Hno. lia.
    - intros f' F T' E'. apply HQ1; [done|done|by etrans].
    - intros j' f' F Hj' T' E'. apply HQ2; [done|done|done|by etrans]. }
  destruct (Z.eqb_spec (de_inum (dent D ip j)) 0) as [E0|E0].
  { destruct Hnext as [Hw|En]; [done|]. unfold names_entry in En. by rewrite E0 in En. }
  destruct (Z.eqb_spec (namecmp name (de_name (dent D ip j))) 0) as [Ec|Ec].
  - assert (names_entry name (dent D ip j) = true) as En by (unfold names_entry; apply andb_true_iff; split; [apply negb_true_iff|]; by apply Z.eqb_neq || by apply Z.eqb_eq).
    apply wp_bind, wp_iget_. rewrite (ev_itable _ _ _ E1), Ei, (fo_dev _ _ _ _ (do_file _ _ _ _ O)).
    apply wp_bind. eapply wp_mono; [apply (HQ2 j f1); [by split_and!; [lia|lia|..]|lia|done|done]|]. intros i s' HQ. by apply wp_ret.
  - destruct Hnext as [Hw|En]; [done|]. unfold names_entry in En. apply andb_true_iff in En as [_ En]. by apply Z.eqb_eq in En.
Qed.

Lemma wp_dirlookup H D L f dp name Q :
  let ip := itable f dp in
  tx me ∅ H D L f → dir_ok H D f ip → room 5 L H →
  (∀ f', first_entry (names_entry name) D ip (nents ip) → tx me ∅ H D L f' → evolves H f f' → Q None (set_fsys f' s)) →
  (∀ j f', first_entry (names_entry name) D ip j → j < nents ip → tx me ∅ H D L f' → evolves H f f' →
     wp (iget ROOTDEV (de_inum (dent D ip j))) (set_fsys f' s) (λ i s', Q (Some (i, j * DIRENT_SIZE)) s')) →
  wp (dirlookup dp name) (set_fsys f s) Q.
Proof.
  intros ip T O Hr HQ1 HQ2. apply wp_bind, wp_iget_. fold ip. rewrite (do_type _ _ _ _ O). change (negb (T_DIR =? T_DIR)) with false.
  apply wp_bind, wp_iget_. fold ip. pose proof (do_solid _ _ _ _ O) as [S1 _]. change 0 with (0 * DIRENT_SIZE) at 1.
  assert (0 ≤ nents ip) by (apply Z.div_pos; done || lia).
  apply (wp_dirlookup_loop _ H D L ip f); [done..|lia|unfold entries, nents in *; lia|lia|done|done].
Qed.

(** The entry to use: the first that is not in use, or one more at the end. *)
Definition vacant (de : list Z) : bool := de_inum de =? 0.

Lemma wp_dirlink_loop fuel H D L ip f dp j Q :
  tx me ∅ H D L f → itable f dp = ip → dir_ok H D f ip → room 5 L H →
  0 ≤ j ≤ nents ip → (nents ip - j < Z.of_nat fuel) → (∀ k, 0 ≤ k < j → vacant (dent D ip k) = false) →
  (∀ j f', first_entry vacant D ip j → tx me ∅ H D L f' → evolves H f f' → Q (j * DIRENT_SIZE) (set_fsys f' s)) →
  wp (dirlink_loop fuel dp (j * DIRENT_SIZE)) (set_fsys f s) Q.
Proof.
  revert f j. induction fuel as [|fuel IH]; intros f j T Ei O Hr Hj Hf Hno HQ; [lia|]. cbn [dirlink_loop].
  pose proof (dir_size _ (do_size _ _ _ _ O)) as Es. apply wp_bind, wp_iget_. rewrite Ei, Es.
  destruct (Z.ltb_spec (j * DIRENT_SIZE) (nents ip * DIRENT_SIZE)) as [Hlt|Hge]; cbn [negb]; change DIRENT_SIZE with 16 in Hlt || change DIRENT_SIZE with 16 in Hge.
  2: { apply wp_ret, HQ; [|done|done]. split_and!; [lia|lia|done|lia]. }
  apply wp_bind, (wp_read_dirent H D L f); rewrite ?Ei; [done..|lia|]. intros f1 T1 E1.
  destruct (de_inum (dent D ip j) =? 0) eqn:E0.
  - apply wp_ret, HQ; [|done|done]. by split_and!; [lia|lia|..].
  - replace (j * DIRENT_SIZE + DIRENT_SIZE) with ((j + 1) * DIRENT_SIZE) by lia.
    apply IH; [done|by rewrite (ev_itable _ _ _ E1)|by eapply dir_ok_alike; [eapply alike_evolves|]|done|lia|lia| |].
    + intros k Hk. destruct (decide (k = j)) as [->|]; [done|]. apply Hno. lia.
    + intros j' f' F T' E'. apply HQ; [done|done|by etrans].
Qed.
End dir.

(** The directory with entry [j] set. *)
Record linked (H : gset Z) (f : fs) (de : list Z) (j : Z) (D : Z → memory) (dp : inode) (D' : Z → memory) (dp' : inode) : Prop := {
  lk_dir : dir_ok H D' f dp';
  lk_ip : ∃ a z, dp' = set_isize z (set_addrs a dp);
  lk_new : dent D' dp' j = de;
  lk_size : nents dp' = Z.max (nents dp) (j + 1);
  lk_old k : 0 ≤ k < nents dp → k ≠ j → dent D' dp' k = dent D dp k;
}.

Lemma wrote_dent H X f bs off n D dp D' dp' z k :
  wrote H X f bs off n D dp D' dp' → solid D dp → 0 ≤ k → (k + 1) * DIRENT_SIZE ≤ isize dp →
  off + n ≤ k * DIRENT_SIZE ∨ (k + 1) * DIRENT_SIZE ≤ off → dent D' (set_isize z dp') k = dent D dp k.
Proof.
  intros W [S1 S2] Hk Hsz Hout. apply list_fmap_ext. intros b c [-> Hb]%lookup_seq. change (Z.to_nat DIRENT_SIZE) with 16%nat in Hb. change DIRENT_SIZE with 16 in *.
  set (x := k * 16 + Z.of_nat (0 + b)). change (fbyte D' (set_isize z dp') x) with (fbyte D' dp' x). destruct (block_bounds x) as (? & _). pose proof bsize_pos.
  assert (0 ≤ x / BSIZE) by (apply Z.div_pos; lia). apply (wt_out _ _ _ _ _ _ _ _ _ _ W); [nia|lia|apply S2; lia].
Qed.

Lemma wrote_linked H X f de j D dp D' dp' :
  dir_ok H D f dp → length de = 16%nat → 0 ≤ j ≤ nents dp → (j + 1) * DIRENT_SIZE ≤ MAXFILE * BSIZE →
  let z := Z.max (isize dp) (j * DIRENT_SIZE + DIRENT_SIZE) in
  wrote H X f de (j * DIRENT_SIZE) DIRENT_SIZE D dp D' dp' → linked H f de j D dp D' (set_isize z dp').
Proof.
  intros [d1 d2 d3 d4] Hl Hj Hm z W. pose proof (dir_size _ d4) as Es. change (MAXFILE * BSIZE) with 274432 in *.
  destruct (wt_ip _ _ _ _ _ _ _ _ _ _ W) as [a Ea]. assert (z = Z.max (nents dp) (j + 1) * DIRENT_SIZE) as Ez by (unfold z; change DIRENT_SIZE with 16 in *; lia).
  split.
  - split; [|eapply wrote_solid; [exact W|done|change DIRENT_SIZE with 16 in *; lia|change (MAXFILE * BSIZE) with 274432; lia]|by rewrite Ea|].
    + destruct (wt_ok _ _ _ _ _ _ _ _ _ _ W) as [o1 o2 o3 o4 o5]. by split.
    + cbn [isize set_isize]. rewrite Ez. by apply Z.mod_mul.
  - exists a, z. by rewrite Ea.
  - unfold dent. change (fbytes D' (set_isize z dp')) with (fbytes D' dp'). rewrite (wrote_fbytes _ _ _ _ _ _ _ _ _ _ W) by (rewrite Hl; done).
    apply take_ge. by rewrite Hl.
  - unfold nents at 1. cbn [isize set_isize]. rewrite Ez. by apply Z.div_mul.
  - intros k Hk Hne. eapply wrote_dent; [exact W|done|lia|rewrite Es|]; change DIRENT_SIZE with 16; lia.
Qed.

Lemma linked_alike H f f' de j D dp D' dp' : alike f f' → linked H f de j D dp D' dp' → linked H f' de j D dp D' dp'.
Proof. intros E [l1 l2 l3 l4 l5]. split; try done. by eapply dir_ok_alike. Qed.

Section link.
Context {LY : Layout} {SW : Switch fs} {PA : Patience}.
Context (me : Z) (s : K) (Qs : quiet me s).

Lemma wp_dirlink H D L f dp name ino Q :
  let ip := itable f dp in let de := mk_dirent ino (name_field name) in
  tx me ∅ H D L f → dir_ok H D f ip → inode_home H D f ip → room 18 L H →
  isize ip + DIRENT_SIZE ≤ MAXFILE * BSIZE → first_entry (names_entry name) D ip (nents ip) →
  (∀ j D' L' dp' f', first_entry vacant D ip j → linked H f' de j D ip D' dp' → tx me ∅ H D' L' f' → room 5 L' H →
     evolves H (put_inode dp dp' f) f' → Q 0 (set_fsys f' s)) →
  (∀ D' L' f', tx me ∅ H D' L' f' → (∀ b, 0 ≤ b < sb_size (sb f) → is_free D' (sb f) b = false) → Q (-1) (set_fsys f' s)) →
  wp (dirlink dp name ino) (set_fsys f s) Q.
Proof.
  intros ip de T O Hh Hr Hm Hno HQ1 HQ2. apply wp_bind, (wp_dirlookup me s Qs H D L f); [done..|by eapply room_le; [|exact Hr]; lia| |].
  2: { fold ip. intros j f' (F1 & _ & F3) Hj. destruct Hno as (_ & Hno & _). specialize (F3 Hj). rewrite Hno in F3 by lia. done. }
  intros f1 _ T1 E1. pose proof (alike_evolves _ _ _ E1) as A1. assert (itable f1 dp = ip) as Ei by (by rewrite (ev_itable _ _ _ E1)).
  apply wp_bind, wp_iget_. rewrite Ei.
  change (dirlink_loop _ dp 0) with (dirlink_loop (entries (isize ip)) dp (0 * DIRENT_SIZE)). pose proof (dir_size _ (do_size _ _ _ _ O)) as Es.
  pose proof (do_solid _ _ _ _ O) as [S1 _]. assert (0 ≤ nents ip) by (apply Z.div_pos; done || lia).
  apply wp_bind, (wp_dirlink_loop me s Qs (entries (isize ip)) H D L ip f1 dp 0);
    [done|done|by eapply dir_ok_alike|by eapply room_le; [|exact Hr]; lia|lia|unfold entries, nents in *; lia|lia|].
  intros j f2 F T2 E2. assert (evolves H f f2) as E by (by etrans). pose proof (alike_evolves _ _ _ E) as A2. pose proof F as (F1 & _).
  assert (itable f2 dp = ip) as Ei2 by (by rewrite (ev_itable _ _ _ E)). fold de.
  assert (length de = 16%nat) as Hl by (cbn [de mk_dirent length]; by rewrite length_name_field).
  assert (writei dp (FromLocal de) (j * DIRENT_SIZE) DIRENT_SIZE = writei dp (FromLocal de) (j * DIRENT_SIZE) (Z.of_nat (length de))) as -> by (by rewrite Hl).
  apply wp_bind, (wp_writei me s Qs H D L f2 dp de _ 5); rewrite ?Ei2, ?Hl; change (Z.of_nat 16) with DIRENT_SIZE; [done|..].
  - eapply file_ok_alike; [done|apply O].
  - by apply (inode_home_alike H D f).
  - change DIRENT_SIZE with 16 in *. lia.
  - change DIRENT_SIZE with 16 in *. lia.
  - done.
  - intros tot D1 L' ip1 f' ip' D' T' W [St1 St2] Hr' E'. destruct (Z.eqb_spec tot DIRENT_SIZE) as [->|Hne]; cbn [negb]; apply wp_ret.
    + eapply (HQ1 j D' L' ip'); [done| |done|done|].
      * apply (linked_alike H f2); [by eapply alike_put|]. by apply wrote_linked with (X := {[inode_block f2 (inum ip)]}); [eapply dir_ok_alike|..|change DIRENT_SIZE with 16 in *; lia|].
      * etrans; [|exact E']. by apply evolves_put.
    + apply (HQ2 D' L'); [done|]. destruct A2 as [<- _]. apply St2. lia.
Qed.
End link.

(** The new entry is the one found. *)
Lemma linked_first H f name ino j D dp D' dp' k :
  let de := mk_dirent ino (name_field name) in
  linked H f de j D dp D' dp' → first_entry (names_entry name) D dp (nents dp) → (length name ≤ 14)%nat → 0 < ino < 2 ^ 16 →
  0 ≤ j ≤ nents dp → first_entry (names_entry name) D' dp' k → k = j.
Proof.
  intros de [l1 l2 l3 l4 l5] (_ & Hno & _) Hl Hi Hj (K1 & K2 & K3).
  assert (names_entry name (dent D' dp' j) = true) as Hm.
  { rewrite l3. unfold names_entry, de. rewrite de_inum_mk, de_name_mk, namecmp_field by (done || lia). destruct (Z.eqb_spec ino 0); [lia|done]. }
  destruct (decide (k = j)) as [|Hne]; [done|]. destruct (decide (j < k)) as [Hlt|Hge]; [rewrite K2 in Hm by lia; done|].
  specialize (K3 ltac:(lia)). rewrite l5, Hno in K3 by lia. done.
Qed.

Lemma itable_ok_same t i ip : itable_ok t → (i < NINODE)%nat → 0 < iref (t i) →
  iref ip = iref (t i) → idev ip = idev (t i) → inum ip = inum (t i) → itable_ok (<[i := ip]> t).
Proof.
  intros I Hi Hp E1 E2 E3. apply itable_ok_put; [done|lia|]. intros _ j Hj Hne (J1 & J2 & J3). apply Hne. by apply (it_uniq _ I); try congruence.
Qed.

(** C21. A name entered with [dirlink] in a directory that does not have it is
    what [dirlookup] then finds: the entry is the first unused one or a new one
    at the end, the other entries are as before, and the inode returned is the
    one entered.  Without success the disk is full. *)
Theorem dirlink_then_lookup {LY : Layout} {SW : Switch fs} {PA : Patience} me (s : K) H D L f dp name ino :
  let ip := itable f dp in let de := mk_dirent ino (name_field name) in
  quiet me s → tx me ∅ H D L f → dir_ok H D f ip → inode_home H D f ip → room 18 L H →
  isize ip + DIRENT_SIZE ≤ MAXFILE * BSIZE → first_entry (names_entry name) D ip (nents ip) →
  (length name ≤ 14)%nat → 0 < ino < 2 ^ 16 → itable_ok (itable f) → (dp < NINODE)%nat → 0 < iref ip →
  (∃ k, (k < NINODE)%nat ∧ (holds ROOTDEV ino (itable f k) ∨ iref (itable f k) = 0)) →
  wp (r ← dirlink dp name ino; if r =? 0 then dirlookup dp name else mret None) (set_fsys f s) (λ res s', ∃ f' D' L',
    s' = set_fsys f' s ∧ tx me ∅ H D' L' f' ∧
    match res with
    | Some (i, off) => holds ROOTDEV ino (itable f' i) ∧ ∃ j dp', off = j * DIRENT_SIZE ∧ first_entry vacant D ip j ∧ linked H f' de j D ip D' dp'
    | None => ∀ b, 0 ≤ b < sb_size (sb f) → is_free D' (sb f) b = false
    end).
Proof.
  intros ip de Qs T O Hh Hr Hm Hno Hl Hi It Hdp Hp (k0 & Hk0 & Hk1). apply wp_bind, (wp_dirlink me s Qs H D L f); [done..| |].
  2: { intros D' L' f' T' Hf. change (-1 =? 0) with false. apply wp_ret. by exists f', D', L'. }
  fold ip de. intros j D' L' dp' f1 F Lk T1 Hr1 E1. change (0 =? 0) with true. cbv iota. pose proof F as (F1 & _).
  pose proof (ev_itable _ _ _ E1) as Et. assert (itable f1 dp = dp') as Ei by (rewrite Et; apply put_inode_eq). cbn [put_inode itable set_itable] in Et.
  destruct (lk_ip _ _ _ _ _ _ _ _ Lk) as (a & z & Ed).
  apply (wp_dirlookup me s Qs H D' L' f1); rewrite ?Ei; [done|apply Lk|done|..].
  { intros f2 F2 _ _. pose proof (linked_first _ _ _ _ _ _ _ _ _ _ Lk Hno Hl Hi F1 F2) as En. pose proof (lk_size _ _ _ _ _ _ _ _ Lk). lia. }
  intros j' f2 F2 _ T2 E2. rewrite (linked_first _ _ _ _ _ _ _ _ _ _ Lk Hno Hl Hi F1 F2), (lk_new _ _ _ _ _ _ _ _ Lk).
  unfold de. rewrite de_inum_mk by lia. fold de. pose proof (linked_alike _ _ _ _ _ _ _ _ _ (alike_evolves _ _ _ E2) Lk) as Lk2.
  assert (itable_ok (itable f2)) as It2 by (rewrite (ev_itable _ _ _ E2), Et; by apply itable_ok_same; rewrite ?Ed).
  apply (wp_iget me); [done|done| | |].
  { exists k0. split; [done|]. rewrite (ev_itable _ _ _ E2), Et. destruct (decide (k0 = dp)) as [->|]; [|by rewrite fn_lookup_insert_ne].
    rewrite fn_lookup_insert, Ed. exact Hk1. }
  - intros i Hi' Hh'. eexists _, D', L'. split; [done|]. split; [by apply tx_itable|]. split; [|by exists j, dp'; split_and!; [| |by apply (linked_alike H f2)]].
    rewrite put_inode_eq. destruct Hh' as (? & ? & ?). split_and!; [simpl; lia|done..].
  - intros i Hi' _ _ _. eexists _, D', L'. split; [done|]. split; [by apply tx_itable|]. split; [|by exists j, dp'; split_and!; [| |by apply (linked_alike H f2)]]. by rewrite put_inode_eq.
Qed.
