(* ===== verification/FsPath.v ===== *)
(** * Path names

    The elements of a path, the walk of a path through the directories on the
    disk, and [namex] as that walk: the inode it returns, the references it
    takes and gives back, and the name it leaves in the buffer. *)

From S2P Require Import Prelude Riscv Memory Kalloc Vm CopyUser Spinlock Proc ProcOps FsState Sleeplock Bio BioOps BioSpec Log LogOps LogCommit Tx TxOps Fs FsBlocks FsInode FsFile FsRw FsDir.

(** ** The elements of a path *)

(** What is between the slashes, empty pieces included. *)
Fixpoint pieces (path : list Z) : list (list Z) :=
  match path with
  | [] => [[]]
  | c :: path' =>
      if c =? slash then [] :: pieces path'
      else match pieces path' with p :: ps => (c :: p) :: ps | [] => [[c]] end
  end.

(** The names of a path: the pieces that are not empty, cut to DIRSIZ bytes. *)
Definition components (path : list Z) : list (list Z) := take 14 <$> filter (λ p, p ≠ []) (pieces path).

Lemma components_slash path : components (slash :: path) = components path.
Proof. done. Qed.

Lemma components_skip path : components (skip_slashes path) = components path.
Proof.
  induction path as [|c path IH]; [done|]. cbn [skip_slashes]. destruct (Z.eqb_spec c slash) as [->|]; [|done].
  by rewrite components_slash.
Qed.

Lemma element_pieces path : pieces path = (element path).1 :: match (element path).2 with [] => [] | _ :: r => pieces r end ∧
  (length (element path).2 + length (element path).1 = length path)%nat ∧
  match (element path).2 with [] => True | c :: _ => c = slash end.
Proof.
  induction path as [|c path (IH1 & IH2 & IH3)]; [done|]. cbn [pieces element]. destruct (Z.eqb_spec c slash) as [->|]; [by cbn; split_and!; [|lia|]|].
  rewrite IH1. cbn [fst snd length]. split_and!; [done|lia|done].
Qed.

Lemma components_element path : (element path).1 ≠ [] → components path = take 14 (element path).1 :: components (element path).2.
Proof.
  intros Hn. destruct (element_pieces path) as (E & _ & Hs). unfold components. rewrite E, filter_cons_True by done.
  cbn [fmap list_fmap]. f_equal. destruct (element path).2 as [|c r]; [done|]. rewrite Hs. done.
Qed.

Lemma skip_slashes_head path c r : skip_slashes path = c :: r → c ≠ slash ∧ (length r < length path)%nat.
Proof.
  induction path as [|d path IH]; [done|]. cbn [skip_slashes]. destruct (Z.eqb_spec d slash).
  - intros [? ?]%IH. cbn [length]. split; [done|lia].
  - intros [= -> ->]. cbn [length]. split; [done|lia].
Qed.
Lemma length_skip path : (length (skip_slashes path) ≤ length path)%nat.
Proof. induction path as [|c path IH]; [done|]. cbn [skip_slashes]. destruct (c =? slash); cbn [length]; lia. Qed.

Lemma components_none path : components (skip_slashes path) = [] ↔ skip_slashes path = [].
Proof.
  destruct (skip_slashes path) as [|c r] eqn:E; [done|]. apply skip_slashes_head in E as [Hc _]. split; [|done].
  rewrite components_element; [done|]. cbn [element]. destruct (Z.eqb_spec c slash); done.
Qed.

(** The buffer holds the name, with or without a NUL after it. *)
Definition name_is (buf c : list Z) : Prop := (length buf ≤ 14)%nat ∧ (buf = c ∨ ∃ junk, buf = c ++ 0 :: junk).

(** [skipelem] takes the first name off the path. *)
Lemma skipelem_first path name : (length name ≤ 14)%nat →
  match skipelem path name with
  | None => components path = []
  | Some (rest, buf) => ∃ c, components path = c :: components rest ∧ (components rest = [] ↔ rest = []) ∧
      (length rest < length path)%nat ∧ name_is buf c
  end.
Proof.
  intros Hl. unfold skipelem. rewrite <-(components_skip path). destruct (skip_slashes path) as [|c r] eqn:Es; [done|].
  pose proof (skip_slashes_head _ _ _ Es) as [Hc Hr]. assert ((element (c :: r)).1 ≠ []) as Hn.
  { cbn [element]. by destruct (Z.eqb_spec c slash). }
  pose proof (components_element _ Hn) as Ec. destruct (element_pieces (c :: r)) as (_ & Hlen & _).
  destruct (element (c :: r)) as [e rest]. cbn [fst snd length] in *. exists (take 14 e).
  split; [by rewrite components_skip|]. split; [apply components_none|].
  split; [pose proof (length_skip rest); destruct e; [done|cbn [length] in *; lia]|].
  change DIRSIZ with 14. destruct (Z.leb_spec 14 (Z.of_nat (length e))) as [Hge|Hlt].
  - split; [rewrite length_take; lia|by left].
  - rewrite take_ge by lia. split; [rewrite length_app; cbn [length]; rewrite length_drop; lia|right; by eexists].
Qed.

(** ** Names in the buffer *)

(** A comparison only reads up to the NUL of the first string. *)
Lemma strncmp_ext n : ∀ m m' p q,
  (∀ k, 0 ≤ k < Z.of_nat n → (∀ j, 0 ≤ j < k → m (p + j) ≠ 0) → m (p + k) = m' (p + k) ∧ m (q + k) = m' (q + k)) →
  strncmp_loop n m p q = strncmp_loop n m' p q.
Proof.
  induction n as [|n IH]; intros m m' p q Hs; [done|]. cbn [strncmp_loop].
  pose proof (Hs 0 ltac:(lia) ltac:(lia)) as [E0 E1]. rewrite !Z.add_0_r in E0, E1. rewrite <-E0, <-E1.
  destruct (Z.eqb_spec (m p) 0) as [|Hnz]; cbn [negb andb]; [done|]. destruct (m p =? m q); [|done]. apply IH. intros k Hk Hj.
  rewrite <-!Z.add_assoc. apply Hs; [lia|]. intros j Hj'. destruct (decide (j = 0)) as [->|]; [by rewrite Z.add_0_r|].
  replace (p + j) with (p + 1 + (j - 1)) by lia. apply Hj. lia.
Qed.

Lemma namecmp_buf buf c t : name_is buf c → namecmp buf t = namecmp c t.
Proof.
  intros [Hl [->|[junk ->]]]; [done|]. rewrite length_app in Hl. cbn [length] in Hl. apply strncmp_ext.
  change (Z.of_nat (Z.to_nat DIRSIZ)) with 14. intros k Hk Hj. rewrite !Z.add_0_l, !names_left, !names_right by (rewrite ?length_app; cbn [length]; lia).
  split; [|done]. destruct (decide (k < Z.of_nat (length c))) as [|Hge]; [by rewrite app_nth1 by lia|].
  destruct (decide (k = Z.of_nat (length c))) as [->|].
  - rewrite Nat2Z.id, (nth_overflow c) by lia. by rewrite app_nth2, Nat.sub_diag by lia.
  - destruct (Hj (Z.of_nat (length c)) ltac:(lia)). rewrite Z.add_0_l, names_left by lia. by rewrite Nat2Z.id, app_nth2, Nat.sub_diag by lia.
Qed.

(** ** The walk on the disk *)

(** Inode [n], as its block has it. *)
Definition dinode_at (D : Z → memory) (f : fs) (n : Z) : inode :=
  decode_inode (D (inode_block f n)) (dinode_off n) (mkInode ROOTDEV n 0 unlocked_sleep true 0 0 0 0 0 (λ _, 0)).

(** The inode of the first entry with the name. *)
Definition dir_find (D : Z → memory) (ip : inode) (name : list Z) : option Z :=
  (λ x, de_inum (dent D ip x.2)) <$> list_find (λ j, names_entry name (dent D ip j) = true) (seqZ 0 (nents ip)).

(** The names followed from inode [n]; for the parent, all but the last one,
    which has to be there. *)
Fixpoint follow (D : Z → memory) (f : fs) (parent : bool) (n : Z) (cs : list (list Z)) : option Z :=
  match cs with
  | [] => if parent then None else Some n
  | c :: cs' =>
      if itype (dinode_at D f n) =? T_DIR then
        if parent && bool_decide (cs' = []) then Some n
        else dir_find D (dinode_at D f n) c ≫= λ n', follow D f parent n' cs'
      else None
  end.

Lemma names_entry_buf buf c de : name_is buf c → names_entry buf de = names_entry c de.
Proof. intros Hb. unfold names_entry. by rewrite (namecmp_buf _ _ _ Hb). Qed.

Lemma dir_find_buf D ip buf c : name_is buf c → dir_find D ip buf = dir_find D ip c.
Proof.
  intros Hb. unfold dir_find. f_equal. apply list_find_ext. intros j. by rewrite (names_entry_buf _ _ _ Hb).
Qed.

Lemma dir_find_some D ip name j : first_entry (names_entry name) D ip j → j < nents ip → dir_find D ip name = Some (de_inum (dent D ip j)).
Proof.
  intros (F1 & F2 & F3) Hj. unfold dir_find.
  assert (list_find (λ j, names_entry name (dent D ip j) = true) (seqZ 0 (nents ip)) = Some (Z.to_nat j, j)) as ->; [|done].
  apply list_find_Some. split_and!; [apply lookup_seqZ; lia|by apply F3|].
  intros k y [-> Hk]%lookup_seqZ Hlt. rewrite F2 by lia. done.
Qed.
Lemma dir_find_none D ip name : first_entry (names_entry name) D ip (nents ip) → dir_find D ip name = None.
Proof.
  intros (F1 & F2 & _). unfold dir_find. assert (list_find (λ j, names_entry name (dent D ip j) = true) (seqZ 0 (nents ip)) = None) as ->; [|done].
  apply list_find_None, Forall_forall. intros j Hj%elem_of_seqZ. rewrite F2 by lia. done.
Qed.

(** What a directory says depends on the fields of its dinode only. *)
Lemma baddr_same D ip ip' bn : same_dinode ip ip' → 0 ≤ bn → baddr D ip' bn = baddr D ip bn.
Proof.
  intros (_ & _ & _ & _ & _ & E) Hb. unfold baddr. rewrite (E NDIRECT) by (unfold NDIRECT; lia).
  destruct (Z.ltb_spec bn NDIRECT); [|done]. apply E. lia.
Qed.
Lemma dent_same D ip ip' j : same_dinode ip ip' → 0 ≤ j → dent D ip' j = dent D ip j.
Proof.
  intros E Hj. unfold dent, fbytes. apply list_fmap_ext. intros k x _. unfold fbyte. rewrite (baddr_same _ _ _ _ E); [done|].
  apply Z.div_pos; [|done]. unfold DIRENT_SIZE. lia.
Qed.
Lemma nents_same ip ip' : same_dinode ip ip' → nents ip' = nents ip.
Proof. intros (_ & _ & _ & _ & E & _). unfold nents. by rewrite E. Qed.
Lemma first_entry_same p D ip ip' j : same_dinode ip ip' → first_entry p D ip' j → first_entry p D ip j.
Proof.
  intros E (F1 & F2 & F3). rewrite (nents_same _ _ E) in *. split_and!; [lia|lia|..].
  - intros k Hk. rewrite <-(dent_same _ _ _ _ E) by lia. auto.
  - intros Hk. rewrite <-(dent_same _ _ _ _ E) by lia. auto.
Qed.
Lemma dir_ok_same H D f ip ip' : same_dinode ip ip' → idev ip' = ROOTDEV → dir_ok H D f ip → dir_ok H D f ip'.
Proof.
  intros E Ed [[o1 o2 o3 o4 o5] [S1 S2] d3 d4]. pose proof E as (E1 & _ & _ & _ & E5 & E6).
  assert (addrs ip' NDIRECT = addrs ip NDIRECT) as Ea by (apply E6; unfold NDIRECT; lia).
  split; [split; [done|done|by rewrite Ea|..]|split; [by rewrite E5|]|by rewrite E1|by rewrite E5].
  - intros bn Hb. rewrite Ea, (baddr_same _ _ _ _ E) by lia. auto.
  - intros bn bn' Hb Hb'. rewrite !(baddr_same _ _ _ _ E) by lia. auto.
  - intros bn Hb. rewrite E5, (baddr_same _ _ _ _ E) by lia. auto.
Qed.

(** The inodes [N] make a tree: each is on the disk, in use and linked, and the
    entries of its directories are inodes of [N]. *)
Record tree (H : gset Z) (D : Z → memory) (f : fs) (N : gset Z) : Prop := {
  tr_ok n : n ∈ N → ok_block f (inode_block f n);
  tr_held n : n ∈ N → inode_block f n ∉ H;
  tr_used n : n ∈ N → itype (dinode_at D f n) ≠ 0;
  tr_link n : n ∈ N → nlink (dinode_at D f n) ≠ 0;
  tr_dir n : n ∈ N → itype (dinode_at D f n) = T_DIR → dir_ok H D f (dinode_at D f n);
  tr_closed n j : n ∈ N → itype (dinode_at D f n) = T_DIR → 0 ≤ j < nents (dinode_at D f n) →
    de_inum (dent D (dinode_at D f n) j) ≠ 0 → de_inum (dent D (dinode_at D f n) j) ∈ N;
}.

#[export] Instance alike_preorder : PreOrder alike.
Proof.
  split; [by split|]. intros f1 f2 f3 [E1 O1] [E2 O2]. split; [congruence|]. intros n. by rewrite O2.
Qed.

Lemma dinode_at_alike D f f' n : alike f f' → dinode_at D f' n = dinode_at D f n.
Proof. intros [E _]. unfold dinode_at, inode_block. by rewrite E. Qed.

Lemma tree_alike H D f f' N : alike f f' → tree H D f N → tree H D f' N.
Proof.
  intros E [t1 t2 t3 t4 t5 t6]. pose proof E as [Es Eo].
  assert (∀ n, inode_block f' n = inode_block f n) as Ei by (intros n; unfold inode_block; by rewrite Es).
  split; intros n; rewrite ?(dinode_at_alike _ _ _ _ E), ?Ei, ?Eo; auto.
  intros ? ?. eapply dir_ok_alike; [done|auto].
Qed.

Lemma follow_alike D f f' parent cs : ∀ n, alike f f' → follow D f' parent n cs = follow D f parent n cs.
Proof.
  induction cs as [|c cs IH]; intros n E; [done|]. cbn [follow]. rewrite (dinode_at_alike _ _ _ _ E).
  destruct (_ =? _); [|done]. destruct (_ && _); [done|]. destruct (dir_find _ _ _); [|done]. cbn. by apply IH.
Qed.

(** ** The table of inodes along the walk *)

(** How often [k] is among the references held. *)
Definition times (k : nat) (l : list nat) : Z := Z.of_nat (count_occ Nat.eq_dec l k).

Lemma times_cons k i l : times k (i :: l) = (if decide (k = i) then 1 else 0) + times k l.
Proof. unfold times. cbn [count_occ]. destruct (Nat.eq_dec i k), (decide (k = i)); subst; done || lia. Qed.
Lemma times_snoc k i l : times k (l ++ [i]) = (if decide (k = i) then 1 else 0) + times k l.
Proof. induction l as [|j l IH]; cbn [app]; rewrite !times_cons; [|rewrite IH]; lia. Qed.
Lemma times_in k l : k ∈ l → 1 ≤ times k l.
Proof. intros Hk%list_elem_of_In%(count_occ_In Nat.eq_dec). unfold times. lia. Qed.
Lemma times_pos k l : 0 ≤ times k l.
Proof. unfold times. lia. Qed.

(** An entry the walk may use: free, or of an inode of the tree. *)
Definition ours (N : gset Z) (ip : inode) : Prop := iref ip = 0 ∨ idev ip = ROOTDEV ∧ inum ip ∈ N.

(** Over the counts of [t0] there is one reference for each member of [l]; the
    entries of the tree that are valid are as on the disk, and only [lk] is locked. *)
Record synced (me : Z) (N : gset Z) (D : Z → memory) (t0 : nat → inode) (l : list nat) (lk : option nat) (f : fs) : Prop := {
  sy_ok : itable_ok (itable f);
  sy_base k : (k < NINODE)%nat → 0 ≤ iref (t0 k);
  sy_refs k : (k < NINODE)%nat → iref (itable f k) = iref (t0 k) + times k l;
  sy_held k : k ∈ l → (k < NINODE)%nat ∧ idev (itable f k) = ROOTDEV ∧ inum (itable f k) ∈ N;
  sy_disk k : (k < NINODE)%nat → 0 < iref (itable f k) → idev (itable f k) = ROOTDEV → inum (itable f k) ∈ N →
    ivalid (itable f k) = true → same_dinode (dinode_at D f (inum (itable f k))) (itable f k);
  sy_lock k : (k < NINODE)%nat → ours N (itable f k) → lk ≠ Some k → sl_locked (ilk (itable f k)) = false;
  sy_mine k : lk = Some k → k ∈ l ∧ ilk (itable f k) = mkSleep true me ∧ ivalid (itable f k) = true;
}.

Lemma synced_alike me N D t0 l lk f f' : alike f f' → itable f' = itable f → synced me N D t0 l lk f → synced me N D t0 l lk f'.
Proof.
  intros E Et [y1 y2 y3 y4 y5 y6 y7]. split; [by rewrite Et|done|intros k; rewrite Et, ?(dinode_at_alike _ _ _ _ E); auto..].
Qed.

Lemma synced_ref me N D t0 l lk f k : synced me N D t0 l lk f → k ∈ l → 1 ≤ iref (itable f k).
Proof.
  intros Y Hk. pose proof (sy_held _ _ _ _ _ _ _ Y k Hk) as (Hlt & _). rewrite (sy_refs _ _ _ _ _ _ _ Y k Hlt).
  pose proof (sy_base _ _ _ _ _ _ _ Y k Hlt). pose proof (times_in k l Hk). lia.
Qed.

(** A change of one entry. *)
Lemma synced_put me N D t0 l lk l' lk' f i ip :
  synced me N D t0 l lk f → (i < NINODE)%nat →
  (0 < iref (itable f i) ∧ idev ip = idev (itable f i) ∧ inum ip = inum (itable f i) ∨
    ∀ k, (k < NINODE)%nat → ¬ holds (idev ip) (inum ip) (itable f k)) →
  iref ip = iref (t0 i) + times i l' → (∀ k, k ≠ i → times k l' = times k l) →
  (∀ k, k ∈ l' → if decide (k = i) then idev ip = ROOTDEV ∧ inum ip ∈ N else k ∈ l) →
  (0 < iref ip → idev ip = ROOTDEV → inum ip ∈ N → ivalid ip = true → same_dinode (dinode_at D f (inum ip)) ip) →
  (ours N ip → lk' ≠ Some i → sl_locked (ilk ip) = false) →
  (lk' = Some i → i ∈ l' ∧ ilk ip = mkSleep true me ∧ ivalid ip = true) →
  (∀ k, k ≠ i → lk' = Some k ↔ lk = Some k) → (∀ k, lk' = Some k → k ∈ l') →
  synced me N D t0 l' lk' (put_inode i ip f).
Proof.
  intros [y1 y2 y3 y4 y5 y6 y7] Hi Hu Hr Ho Hl Hd Hk Hm Hlk Hin.
  assert (∀ k, k ≠ i → itable (put_inode i ip f) k = itable f k) as En by (intros k Hki; by apply fn_lookup_insert_ne).
  split.
  - apply itable_ok_put; [done|rewrite Hr; pose proof (y2 i Hi); pose proof (times_pos i l'); lia|]. intros _ j Hj Hji (J1 & J2 & J3).
    destruct Hu as [(U1 & U2 & U3)|Hu]; [|by apply (Hu j Hj)]. apply Hji, (it_uniq _ y1); congruence.
  - done.
  - intros k Hlt. destruct (decide (k = i)) as [->|Hki]; [by rewrite put_inode_eq|]. by rewrite En, Ho, y3.
  - intros k Hkl. specialize (Hl k Hkl). case_decide as E; [subst; by rewrite put_inode_eq|]. rewrite En by done. auto.
  - intros k Hlt. change (dinode_at D (put_inode i ip f)) with (dinode_at D f). destruct (decide (k = i)) as [->|Hki]; [by rewrite put_inode_eq|]. rewrite En by done. auto.
  - intros k Hlt. destruct (decide (k = i)) as [->|Hki]; [by rewrite put_inode_eq|]. rewrite En by done. intros Hok Hne. apply y6; [done..|]. by rewrite <-Hlk.
  - intros k E. destruct (decide (k = i)) as [->|Hki]; [rewrite put_inode_eq; auto|]. rewrite En by done. split; [auto|]. by apply y7, Hlk.
Qed.

(** [t0] has two free entries: whatever is held, one of them can be taken. *)
Definition two_free (t0 : nat → inode) : Prop := ∃ a b, (a < NINODE)%nat ∧ (b < NINODE)%nat ∧ a ≠ b ∧ iref (t0 a) = 0 ∧ iref (t0 b) = 0.

Lemma synced_free me N D t0 l lk f : two_free t0 → (length l ≤ 1)%nat → synced me N D t0 l lk f →
  ∃ k, (k < NINODE)%nat ∧ iref (itable f k) = 0.
Proof.
  intros (a & b & Ha & Hb & Hab & Ea & Eb) Hl Y. destruct (decide (a ∈ l)) as [Hin|Hout].
  - exists b. split; [done|]. rewrite (sy_refs _ _ _ _ _ _ _ Y) by done. destruct l as [|x [|y l]]; cbn [length] in Hl; [by apply not_elem_of_nil in Hin| |lia].
    apply list_elem_of_singleton in Hin as <-. rewrite times_cons. case_decide; [congruence|]. unfold times. cbn. lia.
  - exists a. split; [done|]. rewrite (sy_refs _ _ _ _ _ _ _ Y) by done. rewrite Ea. unfold times. rewrite (proj1 (count_occ_not_In Nat.eq_dec l a)); [done|].
    by rewrite <-list_elem_of_In.
Qed.

Section path.
Context {LY : Layout} {SW : Switch fs} {PA : Patience}.
Context (me : Z) (s : K) (Qs : quiet me s) (H : gset Z) (D : Z → memory) (L : gset Z) (N : gset Z) (t0 : nat → inode).

(** A state on the way: inside the transaction, over the tree. *)
Record onway (l : list nat) (lk : option nat) (f : fs) : Prop := {
  ow_tx : tx me ∅ H D L f;
  ow_tree : tree H D f N;
  ow_sync : synced me N D t0 l lk f;
}.

Lemma onway_evolves l lk f f' : evolves H f f' → tx me ∅ H D L f' → onway l lk f → onway l lk f'.
Proof.
  intros E T [_ o2 o3]. pose proof (alike_evolves _ _ _ E) as A. split; [done|by eapply tree_alike|].
  eapply synced_alike; [done|apply E|done].
Qed.

Lemma alike_inode i ip f : alike f (put_inode i ip f).
Proof. by split. Qed.
Lemma inum_put i ip f k : inum ip = inum (itable f i) → inum (itable (put_inode i ip f) k) = inum (itable f k).
Proof.
  intros E. destruct (decide (k = i)) as [->|]; [by rewrite put_inode_eq|]. cbn [put_inode itable set_itable]. by rewrite fn_lookup_insert_ne.
Qed.

Lemma onway_put l lk l' lk' f i ip : onway l lk f → synced me N D t0 l' lk' (put_inode i ip f) → onway l' lk' (put_inode i ip f).
Proof. intros [o1 o2 o3] Y. split; [by apply tx_itable|eapply tree_alike; [apply alike_inode|done]|done]. Qed.

Lemma wp_walk_ilock l f i Q :
  onway l None f → i ∈ l → room 5 L H →
  (∀ f', alike f f' → onway l (Some i) f' → inum (itable f' i) = inum (itable f i) → Q tt (set_fsys f' s)) →
  wp (ilock i) (set_fsys f s) Q.
Proof.
  intros [T Tr Y] Hi Hr HQ. pose proof (synced_ref _ _ _ _ _ _ _ _ Y Hi) as Hp. pose proof (sy_held _ _ _ _ _ _ _ Y i Hi) as (Hlt & Ed & Hn).
  set (n := inum (itable f i)) in *.
  assert (let ip' := locked_inode me D f (itable f i) in idev ip' = ROOTDEV ∧ inum ip' = n ∧ iref ip' = iref (itable f i) ∧
    ilk ip' = mkSleep true me ∧ ivalid ip' = true ∧ same_dinode (dinode_at D f n) ip') as (L1 & L2 & L3 & L4 & L5 & L6).
  { unfold locked_inode. cbv zeta. change (ivalid (set_ilk _ (itable f i))) with (ivalid (itable f i)). destruct (ivalid (itable f i)) eqn:Ev.
    - split_and!; try done. exact (sy_disk _ _ _ _ _ _ _ Y i Hlt ltac:(lia) Ed Hn Ev).
    - by split_and!. }
  apply (wp_ilock me s Qs H D L f); [done|done| |intros _; split_and!; [done|by apply Tr|by apply Tr|by eapply room_le; [|exact Hr]; lia|]|].
  - apply (sy_lock _ _ _ _ _ _ _ Y); [done|by right|done].
  - destruct L6 as (-> & _). by apply Tr.
  - intros f' T' E'. pose proof (alike_put _ _ _ _ _ E') as A. apply HQ; [done| |].
    + apply (onway_evolves _ _ _ _ E' T'). eapply onway_put; [by split|]. eapply synced_put; [done|done|..].
      * left. split_and!; [lia|congruence|done].
      * rewrite L3. by apply (sy_refs _ _ _ _ _ _ _ Y).
      * done.
      * intros k Hk. case_decide; [by rewrite L2|done].
      * intros _ _ _ _. by rewrite L2.
      * done.
      * done.
      * intros k Hk. split; congruence.
      * congruence.
    + rewrite (ev_itable _ _ _ E'). by rewrite put_inode_eq.
Qed.

Lemma wp_walk_iunlock l f i Q :
  onway l (Some i) f → (∀ f', alike f f' → onway l None f' →
    (∀ k, inum (itable f' k) = inum (itable f k)) → Q tt (set_fsys f' s)) →
  wp (iunlock i) (set_fsys f s) Q.
Proof.
  intros O HQ. pose proof O as [T Tr Y]. destruct (sy_mine _ _ _ _ _ _ _ Y i eq_refl) as (Hi & Hl & Hv).
  pose proof (synced_ref _ _ _ _ _ _ _ _ Y Hi) as Hp. pose proof (sy_held _ _ _ _ _ _ _ Y i Hi) as (Hlt & Ed & Hn).
  apply (wp_iunlock me); [done..|]. apply HQ; [done| |].
  - eapply onway_put; [done|]. eapply synced_put; [done|done|..].
    + left. by split_and!; [lia|..].
    + by apply (sy_refs _ _ _ _ _ _ _ Y).
    + done.
    + intros k Hk. by case_decide.
    + intros _ _ _ _. exact (sy_disk _ _ _ _ _ _ _ Y i Hlt ltac:(lia) Ed Hn Hv).
    + done.
    + done.
    + intros k Hk. split; congruence.
    + done.
  - intros k. by apply inum_put.
Qed.

(** The last reference of a linked inode goes without [itrunc]. *)
Lemma wp_walk_iput l f i Q :
  onway (i :: l) None f → (∀ f', alike f f' → onway l None f' → (∀ k, inum (itable f' k) = inum (itable f k)) → Q tt (set_fsys f' s)) →
  wp (iput i) (set_fsys f s) Q.
Proof.
  intros O HQ. pose proof O as [T Tr Y]. assert (i ∈ i :: l) as Hi by set_solver.
  pose proof (synced_ref _ _ _ _ _ _ _ _ Y Hi) as Hp. pose proof (sy_held _ _ _ _ _ _ _ Y i Hi) as (Hlt & Ed & Hn).
  pose proof (sy_disk _ _ _ _ _ _ _ Y i Hlt ltac:(lia) Ed Hn) as Hd.
  apply wp_bind, (wp_enter me); [done|]. apply wp_bind, wp_iget_. unfold id.
  assert ((iref (itable f i) =? 1) && ivalid (itable f i) && (nlink (itable f i) =? 0) = false) as ->.
  { destruct (ivalid (itable f i)); [|by rewrite andb_false_r]. destruct (Hd eq_refl) as (_ & _ & _ & E & _). rewrite E.
    rewrite (proj2 (Z.eqb_neq _ _) (tr_link _ _ _ _ Tr _ Hn)). by rewrite andb_false_r. }
  apply wp_bind, wp_ret. apply wp_bind, wp_iset. apply (wp_exit me); [done|].
  set (ip := set_iref (iref (itable f i) - 1) (itable f i)). apply HQ; [done| |].
  - eapply onway_put; [done|]. eapply synced_put; [done|done|..].
    + left. by split_and!; [lia|..].
    + cbn. rewrite (sy_refs _ _ _ _ _ _ _ Y) by done. rewrite times_cons. case_decide; [lia|done].
    + intros k Hk. rewrite times_cons. by case_decide.
    + intros k Hk. case_decide; [done|]. set_solver.
    + intros _ _ _. exact Hd.
    + intros _ _. apply (sy_lock _ _ _ _ _ _ _ Y i Hlt); [by right|done].
    + done.
    + done.
    + done.
  - intros k. by apply inum_put.
Qed.

Lemma wp_walk_iget l lk f n Q :
  onway l lk f → two_free t0 → (length l ≤ 1)%nat → n ∈ N →
  (∀ i f', alike f f' → onway (l ++ [i]) lk f' → inum (itable f' i) = n → Q i (set_fsys f' s)) →
  wp (iget ROOTDEV n) (set_fsys f s) Q.
Proof.
  intros O Hf Hl Hn HQ. pose proof O as [T Tr Y].
  assert (∀ i ip', (i < NINODE)%nat → idev ip' = ROOTDEV → inum ip' = n → iref ip' = iref (itable f i) + 1 →
    (holds ROOTDEV n (itable f i) ∨ ∀ k, (k < NINODE)%nat → ¬ holds ROOTDEV n (itable f k)) →
    ours N (itable f i) → ilk ip' = ilk (itable f i) → (lk = Some i → ivalid ip' = ivalid (itable f i)) →
    (ivalid ip' = true → same_dinode (dinode_at D f n) ip') →
    onway (l ++ [i]) lk (put_inode i ip' f)) as Hput.
  { intros i ip' Hi E1 E2 E3 Hu Ho E4 E5 Hd. eapply onway_put; [done|]. eapply synced_put; [done|done|..]; rewrite ?E1, ?E2.
    - destruct Hu as [(U1 & U2 & U3)|Hu]; [left; by split_and!|by right].
    - rewrite E3, times_snoc, (sy_refs _ _ _ _ _ _ _ Y) by done. case_decide; [lia|done].
    - intros k Hk. rewrite times_snoc. by case_decide.
    - intros k Hk. case_decide; [done|]. set_solver.
    - auto.
    - intros _ Hne. rewrite E4. by apply (sy_lock _ _ _ _ _ _ _ Y).
    - intros E. rewrite E4, E5 by done. destruct (sy_mine _ _ _ _ _ _ _ Y i E) as (? & ? & ?). split_and!; [set_solver|done..].
    - done.
    - intros k E. apply (sy_mine _ _ _ _ _ _ _ Y) in E as (? & _). set_solver. }
  destruct (synced_free _ _ _ _ _ _ _ Hf Hl Y) as (k0 & Hk0 & E0).
  apply (wp_iget me); [done|apply Y|exists k0; auto|..].
  - intros i Hi (Hp & Ed & En). apply HQ; [apply alike_inode| |by rewrite put_inode_eq].
    apply Hput; try done; [by left|right; by rewrite En|]. intros Hv. rewrite <-En. apply (sy_disk _ _ _ _ _ _ _ Y); rewrite ?En; done.
  - intros i Hi Hno Er _. apply HQ; [apply alike_inode| |by rewrite put_inode_eq].
    apply Hput; try done; [cbn; lia|by right|by left|]. intros E. destruct (sy_mine _ _ _ _ _ _ _ Y i E) as (Hin & _).
    pose proof (synced_ref _ _ _ _ _ _ _ _ Y Hin). lia.
Qed.

Lemma wp_walk_idup f i Q :
  onway [] None f → (i < NINODE)%nat → 0 < iref (itable f i) → idev (itable f i) = ROOTDEV → inum (itable f i) ∈ N →
  (∀ f', alike f f' → onway [i] None f' → inum (itable f' i) = inum (itable f i) → Q i (set_fsys f' s)) →
  wp (idup i) (set_fsys f s) Q.
Proof.
  intros O Hi Hp Ed Hn HQ. pose proof O as [T Tr Y]. apply wp_bind, (wp_enter me); [done|]. apply wp_bind, wp_iset. apply wp_bind, (wp_exit me); [done|].
  apply wp_ret, HQ; [apply alike_inode| |by rewrite put_inode_eq]. eapply onway_put; [done|]. eapply synced_put; [done|done|..].
  - left. by split_and!.
  - cbn. rewrite (sy_refs _ _ _ _ _ _ _ Y) by done. rewrite times_cons. case_decide; [unfold times; cbn; lia|done].
  - intros k Hk. rewrite times_cons. by case_decide.
  - intros k Hk%list_elem_of_singleton. by case_decide.
  - intros _ _ _. exact (sy_disk _ _ _ _ _ _ _ Y i Hi Hp Ed Hn).
  - intros _ _. apply (sy_lock _ _ _ _ _ _ _ Y i Hi); [by right|done].
  - done.
  - done.
  - done.
Qed.

Lemma wp_walk_dirlookup f i buf c Q :
  let n := inum (itable f i) in
  onway [i] (Some i) f → two_free t0 → room 5 L H → itype (itable f i) = T_DIR → name_is buf c →
  (∀ f', dir_find D (dinode_at D f n) c = None → alike f f' → onway [i] (Some i) f' → Q None (set_fsys f' s)) →
  (∀ j off f', dir_find D (dinode_at D f n) c = Some (inum (itable f' j)) → alike f f' → onway [i; j] (Some i) f' → Q (Some (j, off)) (set_fsys f' s)) →
  wp (dirlookup i buf) (set_fsys f s) Q.
Proof.
  intros n O Hf Hr Ht Hb HQ1 HQ2. pose proof O as [T Tr Y]. destruct (sy_mine _ _ _ _ _ _ _ Y i eq_refl) as (Hi & Hl & Hv).
  pose proof (synced_ref _ _ _ _ _ _ _ _ Y Hi) as Hp. pose proof (sy_held _ _ _ _ _ _ _ Y i Hi) as (Hlt & Ed & Hn).
  pose proof (sy_disk _ _ _ _ _ _ _ Y i Hlt ltac:(lia) Ed Hn Hv) as Hd. fold n in Hn, Hd.
  assert (itype (dinode_at D f n) = T_DIR) as Ht' by (destruct Hd as (<- & _); done).
  apply (wp_dirlookup me s Qs H D L f); [done|by eapply dir_ok_same; [done..|apply Tr]|done|..].
  - intros f' F%(first_entry_same _ _ _ _ _ Hd) T' E'. rewrite (nents_same _ _ Hd) in F.
    apply HQ1; [|by eapply alike_evolves|by eapply onway_evolves]. rewrite <-(dir_find_buf _ _ _ _ Hb). by apply dir_find_none.
  - intros j f' F%(first_entry_same _ _ _ _ _ Hd) Hj T' E'. rewrite (nents_same _ _ Hd) in Hj. rewrite (dent_same _ _ _ _ Hd) by apply F.
    pose proof F as (F1 & _ & F3). specialize (F3 Hj). apply andb_prop in F3 as [Hz%negb_true_iff%Z.eqb_neq _].
    pose proof (alike_evolves _ _ _ E') as A'. apply (wp_walk_iget [i] (Some i)); [by eapply onway_evolves|done|done|apply Tr; by try lia|].
    intros k f2 A2 O2 En. apply HQ2; [|by etrans|done]. rewrite En, <-(dir_find_buf _ _ _ _ Hb). by apply dir_find_some.
Qed.

(** What the walk gives, against what [namex] leaves. *)
Definition arrived (parent : bool) (cs : list (list Z)) (w : option Z) (r : option nat * list Z) (f : fs) : Prop :=
  match w, r.1 with
  | Some n, Some i => onway [i] None f ∧ inum (itable f i) = n ∧ (parent = true → ∃ c, last cs = Some c ∧ name_is r.2 c)
  | None, None => onway [] None f
  | _, _ => False
  end.

Lemma wp_namex_loop fuel : ∀ path parent name i f Q,
  (length path < fuel)%nat → (length name ≤ 14)%nat → onway [i] None f → two_free t0 → room 5 L H →
  (∀ r f', alike f f' → arrived parent (components path) (follow D f parent (inum (itable f i)) (components path)) r f' → Q r (set_fsys f' s)) →
  wp (namex_loop fuel path parent name i) (set_fsys f s) Q.
Proof.
  induction fuel as [|fuel IH]; intros path parent name i f Q Hfu Hl O Hf Hr HQ; [lia|]. cbn [namex_loop].
  pose proof (skipelem_first path name Hl) as Hs. destruct (skipelem path name) as [[rest buf]|].
  2: { rewrite Hs in HQ. destruct parent.
    - apply wp_bind, (wp_walk_iput [] f); [done|]. intros f' A O' _. by apply wp_ret, HQ.
    - apply wp_ret, HQ; [done|]. split_and!; done. }
  destruct Hs as (c & Ec & Hrest & Hlen & Hb). rewrite Ec in HQ. cbn [follow] in HQ. set (n := inum (itable f i)) in *.
  apply wp_bind, (wp_walk_ilock [i] f); [done|set_solver|done|]. intros f1 A1 O1 E1. fold n in E1.
  assert (itype (itable f1 i) = itype (dinode_at D f n)) as Et.
  { pose proof (ow_sync _ _ _ O1) as Y. destruct (sy_mine _ _ _ _ _ _ _ Y i eq_refl) as (Hi & _ & Hv).
    pose proof (sy_held _ _ _ _ _ _ _ Y i Hi) as (Hlt & Ed & Hn). pose proof (synced_ref _ _ _ _ _ _ _ _ Y Hi).
    rewrite <-(dinode_at_alike _ _ _ _ A1), <-E1. apply (sy_disk _ _ _ _ _ _ _ Y i Hlt ltac:(lia) Ed Hn Hv). }
  apply wp_bind, wp_iget_. rewrite Et. rewrite <-Et in HQ |- *. destruct (Z.eqb_spec (itype (itable f1 i)) T_DIR) as [Hd|Hd]; cbn [negb].
  2: { apply wp_bind, wp_bind, (wp_walk_iunlock [i] f1); [done|]. intros f2 A2 O2 _. apply (wp_walk_iput [] f2); [done|].
       intros f3 A3 O3 _. apply wp_ret, HQ; [by do 2 (etrans; [done|])|done]. }
  assert (bool_decide (rest = []) = bool_decide (components rest = [])) as -> by (apply bool_decide_ext; by rewrite Hrest).
  destruct (parent && bool_decide (components rest = [])) eqn:Ep.
  { apply andb_prop in Ep as [-> Er%bool_decide_eq_true]. apply wp_bind, (wp_walk_iunlock [i] f1); [done|]. intros f2 A2 O2 E2.
    apply wp_ret, HQ; [by etrans|]. split_and!; [done|by rewrite E2|]. intros _. exists c. by rewrite Er. }
  apply wp_bind, (wp_walk_dirlookup f1 i buf c); [done..| |]; rewrite E1, (dinode_at_alike _ _ _ _ A1).
  - intros f2 Ef A2 O2. rewrite Ef in HQ. cbn [mbind option_bind] in HQ. apply wp_bind, wp_bind, (wp_walk_iunlock [i] f2); [done|]. intros f3 A3 O3 _.
    apply (wp_walk_iput [] f3); [done|]. intros f4 A4 O4 _. apply wp_ret, HQ; [by do 3 (etrans; [done|])|done].
  - intros j off f2 Ef A2 O2. rewrite Ef in HQ. cbn [mbind option_bind] in HQ. apply wp_bind, wp_bind, (wp_walk_iunlock [i; j] f2); [done|]. intros f3 A3 O3 E3.
    apply (wp_walk_iput [j] f3); [done|]. intros f4 A4 O4 E4. assert (alike f f4) as A by (by do 3 (etrans; [done|])).
    apply IH; [lia|apply Hb|done..|]. intros r f5 A5 Har. apply HQ; [by etrans|]. rewrite E4, E3, (follow_alike _ _ _ _ _ _ A) in Har.
    unfold arrived in *. destruct (follow _ _ _ _ _) as [m|] eqn:Ew, r.1; try done. destruct Har as (? & ? & Hp). split_and!; [done..|].
    intros Ht. destruct (Hp Ht) as (c' & Hc & ?). exists c'. by rewrite last_cons, Hc.
Qed.
End path.

(** Where a path starts: the root, or the directory of the process. *)
Definition start_of (path : list Z) (f : fs) (p : proc) : Z :=
  if bool_decide (path !! 0%nat = Some slash) then ROOTINO else inum (itable f (entry_of (cwd p))).

(** C22. [namex] is the walk of the path over the directories on the disk: it
    returns the inode the names lead to, or for the parent the directory of the
    last name with that name in the buffer, and fails exactly if the walk
    does, be it at a missing name or at something that is not a directory.
    It takes one reference to what it returns, gives back every other one it
    took, locks included, and leaves the disk as it is. *)
Theorem namex_walks {LY : Layout} {SW : Switch fs} {PA : Patience} me (s : K) H D L f N i p path parent name :
  let d := itable f (entry_of (cwd p)) in
  quiet me s → cproc s = Some i → procs s !! i = Some p →
  tx me ∅ H D L f → room 5 L H → tree H D f N → ROOTINO ∈ N → synced me N D (itable f) [] None f → two_free (itable f) →
  (entry_of (cwd p) < NINODE)%nat → 0 < iref d → idev d = ROOTDEV → inum d ∈ N → (length name ≤ 14)%nat →
  wp (namex path parent name) (set_fsys f s) (λ r s', ∃ f', s' = set_fsys f' s ∧
    arrived me H D L N (itable f) parent (components path) (follow D f parent (start_of path f p) (components path)) r f').
Proof.
  intros d Qs Ei Ep T Hr Tr Hroot Y Hf Hc Hp Ed Hn Hl. assert (onway me H D L N (itable f) [] None f) as O by done.
  assert (∀ j f', alike f f' → onway me H D L N (itable f) [j] None f' → inum (itable f' j) = start_of path f p →
    wp (namex_loop (S (length path)) path parent name j) (set_fsys f' s) (λ r s', ∃ f', s' = set_fsys f' s ∧
      arrived me H D L N (itable f) parent (components path) (follow D f parent (start_of path f p) (components path)) r f')) as Hloop.
  { intros j f' A O' Ej. apply (wp_namex_loop me s Qs H D L N (itable f)); [lia|done..|]. intros r f2 A2 Har. exists f2. split; [done|].
    by rewrite Ej, (follow_alike _ _ _ _ _ _ A) in Har. }
  unfold start_of in *. apply wp_bind. destruct (bool_decide _).
  - apply (wp_walk_iget me s Qs H D L N (itable f) [] None f); [done|done|cbn; lia|done|]. exact Hloop.
  - apply wp_bind, (wp_current i); [exact (quiet_cpu me s Qs)|exact Ei|].
    change (relax (set_fsys f s)) with (set_fsys f (relax s)). destruct (quiet_steady me s Qs) as [_ ->].
    apply wp_bind, (wp_pget i p); [exact Ep|]. apply (wp_walk_idup me s Qs H D L N (itable f) f); try done. apply Hloop.
Qed.
