(* ===== verification/Pipe.v ===== *)
(** * Pipes

    pipe.c, except [pipealloc], which is with the files in File.v.  A pipe is
    a structure in a page from [kalloc]: 24 bytes for the lock, the ring of
    PIPESIZE bytes, then nread, nwrite, readopen and writeopen. *)

From S2P Require Import Prelude Riscv Memory Kalloc Vm Spinlock Proc FsState Sleeplock.

Definition PIPESIZE : Z := 512.

(** Offsets of the fields. *)
Definition P_DATA : Z := 24.
Definition P_NREAD : Z := 536.
Definition P_NWRITE : Z := 540.
Definition P_READOPEN : Z := 544.
Definition P_WRITEOPEN : Z := 548.

Section pipe.
Context `{Layout, Switch fs, Patience}.

(** A word of the pipe at [pi]. *)
Definition pi_get (pi o : Z) : M K Z := on_mem (gets (λ k, load32 (mem k) (pi + o))).
Definition pi_set (pi o v : Z) : M K unit :=
  on_mem (modify (λ k, set_mem (store32 (mem k) (pi + o) v) k)).

Definition pipeclose (pi : Z) (writable : bool) : M K unit :=
  acquire (PipeLock pi) ;;
  (if writable then
     pi_set pi P_WRITEOPEN 0 ;;
     wakeup (ChanAddr (pi + P_NREAD))
   else
     pi_set pi P_READOPEN 0 ;;
     wakeup (ChanAddr (pi + P_NWRITE))) ;;
  r ← pi_get pi P_READOPEN;
  w ← pi_get pi P_WRITEOPEN;
  if (r =? 0) && (w =? 0) then
    release (PipeLock pi) ;;
    on_mem (kfree pi)
  else release (PipeLock pi).

(** The [while] loop of [pipewrite], from its [i]-th byte: None after the early
    return, else the number of bytes written. *)
Fixpoint pipewrite_loop (fuel : nat) (pi : Z) (pr : nat) (addr n i : Z) : M K (option Z) :=
  match fuel with
  | O => nofuel
  | S fuel' =>
      if negb (i <? n) then mret (Some i) else
      r ← pi_get pi P_READOPEN;
      k ← (if r =? 0 then mret 1 else killed pr);
      if negb (k =? 0) then
        release (PipeLock pi) ;;
        mret None
      else
        nw ← pi_get pi P_NWRITE;
        nr ← pi_get pi P_NREAD;
        if nw =? u32 (nr + PIPESIZE) then
          wakeup (ChanAddr (pi + P_NREAD)) ;;
          sleep (ChanAddr (pi + P_NWRITE)) (PipeLock pi) ;;
          pipewrite_loop fuel' pi pr addr n i
        else
          up ← pget pr uproc_of;
          c ← on_mem (copyin up (upagetable up) (u64 (addr + i)) 1);
          if c.1 =? -1 then mret (Some i) else
          nw ← pi_get pi P_NWRITE;
          pi_set pi P_NWRITE (u32 (nw + 1)) ;;
          on_mem (write_bytes (pi + P_DATA + nw mod PIPESIZE) c.2) ;;
          pipewrite_loop fuel' pi pr addr n (i + 1)
  end.

(** Each round writes a byte or sleeps. *)
Definition pipewrite (pi addr n : Z) : M K Z :=
  pr ← current;
  acquire (PipeLock pi) ;;
  r ← pipewrite_loop (Z.to_nat n + S patience) pi pr addr n 0;
  match r with
  | None => mret (-1)
  | Some i =>
      wakeup (ChanAddr (pi + P_NREAD)) ;;
      release (PipeLock pi) ;;
      mret i
  end.

(** The [while] loop of [piperead]: whether the pipe is still to be read. *)
Fixpoint piperead_wait (fuel : nat) (pi : Z) (pr : nat) : M K bool :=
  match fuel with
  | O => nofuel
  | S fuel' =>
      nr ← pi_get pi P_NREAD;
      nw ← pi_get pi P_NWRITE;
      w ← pi_get pi P_WRITEOPEN;
      if (nr =? nw) && negb (w =? 0) then
        k ← killed pr;
        if negb (k =? 0) then
          release (PipeLock pi) ;;
          mret false
        else
          sleep (ChanAddr (pi + P_NREAD)) (PipeLock pi) ;;
          piperead_wait fuel' pi pr
      else mret true
  end.

(** The [for] loop, [m] rounds from [i]: the value of i at its end. *)
Fixpoint piperead_copy (m : nat) (pi : Z) (pr : nat) (addr i : Z) : M K Z :=
  match m with
  | O => mret i
  | S m' =>
      nr ← pi_get pi P_NREAD;
      nw ← pi_get pi P_NWRITE;
      if nr =? nw then mret i else
      ch ← on_mem (read_bytes (pi + P_DATA + nr mod PIPESIZE) 1);
      up ← pget pr uproc_of;
      r ← on_mem (copyout up (upagetable up) (u64 (addr + i)) ch);
      if r =? -1 then mret (if i =? 0 then -1 else i) else
      nr ← pi_get pi P_NREAD;
      pi_set pi P_NREAD (u32 (nr + 1)) ;;
      piperead_copy m' pi pr addr (i + 1)
  end.

Definition piperead (pi addr n : Z) : M K Z :=
  pr ← current;
  acquire (PipeLock pi) ;;
  go ← piperead_wait (S patience) pi pr;
  if negb go then mret (-1) else
  i ← piperead_copy (Z.to_nat n) pi pr addr 0;
  wakeup (ChanAddr (pi + P_NWRITE)) ;;
  release (PipeLock pi) ;;
  mret i.
End pipe.
