(* ===== verification/PipeOps.v ===== *)
(** * A pipe is a bounded queue

    The ring of a pipe against the list of the bytes in it, and [pipewrite] and
    [piperead] as operations on that list. *)

From S2P Require Import Prelude Riscv Memory Kalloc Vm VmInv VmWalk VmRef Cow VmUser CopyUser ProcMem Spinlock Proc ProcOps FsState Sleeplock Pipe.

Definition qlen (q : list Z) : Z := Z.of_nat (length q).

(** The pipe at [pi] holds the bytes [q], and its ends are open as [ro] and [wo]
    say; its counters wrap around. *)
Record prep (m : memory) (pi ro wo : Z) (q : list Z) : Prop := {
  pp_r : 0 ≤ load32 m (pi + P_NREAD) < 2 ^ 32;
  pp_w : load32 m (pi + P_NWRITE) = u32 (load32 m (pi + P_NREAD) + qlen q);
  pp_len : qlen q ≤ PIPESIZE;
  pp_ro : load32 m (pi + P_READOPEN) = ro;
  pp_wo : load32 m (pi + P_WRITEOPEN) = wo;
  pp_data i b : q !! i = Some b → m (pi + P_DATA + (load32 m (pi + P_NREAD) + Z.of_nat i) mod PIPESIZE) = b;
}.

Lemma qlen_app q b : qlen (q ++ b) = qlen q + qlen b.
Proof. unfold qlen. rewrite length_app. lia. Qed.
Lemma qlen_nonneg q : 0 ≤ qlen q.
Proof. unfold qlen. lia. Qed.

Lemma u32_ring x : u32 x mod PIPESIZE = x mod PIPESIZE.
Proof. unfold u32, PIPESIZE. dlia. Qed.
Lemma ring_bound x : 0 ≤ x mod PIPESIZE < PIPESIZE.
Proof. apply Z.mod_pos_bound. done. Qed.

Lemma load32_ext m m' a : (∀ x, a ≤ x < a + 4 → m' x = m x) → load32 m' a = load32 m a.
Proof. intros H. apply load_le_ext. intros x Hx. apply H. simpl in Hx. lia. Qed.

(** Only the bytes of the structure count. *)
Lemma prep_ext m m' pi ro wo q : (∀ x, pi ≤ x < pi + PGSIZE → m' x = m x) → prep m pi ro wo q → prep m' pi ro wo q.
Proof.
  intros Hm [p1 p2 p3 po pw p4]. unfold P_NREAD, P_NWRITE, P_READOPEN, P_WRITEOPEN, P_DATA, PGSIZE in *.
  assert (load32 m' (pi + 536) = load32 m (pi + 536)) as Er by (apply load32_ext; intros; apply Hm; lia).
  assert (load32 m' (pi + 540) = load32 m (pi + 540)) as Ew by (apply load32_ext; intros; apply Hm; lia).
  split; unfold P_NREAD, P_NWRITE, P_READOPEN, P_WRITEOPEN, P_DATA; rewrite ?Er, ?Ew; try done.
  1-2: rewrite <-?po, <-?pw; apply load32_ext; intros; apply Hm; lia.
  intros i b Hi.
  pose proof (ring_bound (load32 m (pi + 536) + Z.of_nat i)). unfold PIPESIZE in *. rewrite Hm by lia. auto.
Qed.

(** One byte in. *)
Definition pushed_byte (m : memory) (pi b : Z) : memory :=
  let nw := load32 m (pi + P_NWRITE) in store_bytes (store32 m (pi + P_NWRITE) (u32 (nw + 1))) (pi + P_DATA + nw mod PIPESIZE) [b].

Lemma store_byte_at m a b x : store_bytes m a [b] x = if decide (x = a) then b else m x.
Proof. unfold store_bytes. simpl length. mem_cases; case_decide; try lia; try done. subst. by rewrite Z.sub_diag. Qed.
Lemma store32_outside m a v x : x < a ∨ a + 4 ≤ x → store32 m a v x = m x.
Proof. intros Hx. unfold store32, store_le. mem_cases; simpl in *; lia || done. Qed.
Lemma load32_store m a v : 0 ≤ v < 2 ^ 32 → load32 (store32 m a v) a = v.
Proof. intros. by apply load_store_same. Qed.

Lemma prep_push m pi ro wo q b : prep m pi ro wo q → qlen q < PIPESIZE → prep (pushed_byte m pi b) pi ro wo (q ++ [b]).
Proof.
  intros [p1 p2 p3 po pw p4] Hl. unfold pushed_byte. set (nw := load32 m (pi + P_NWRITE)) in *. set (nr := load32 m (pi + P_NREAD)) in *.
  pose proof (ring_bound nw) as Hw. set (a := pi + P_DATA + nw mod PIPESIZE). unfold P_NREAD, P_NWRITE, P_READOPEN, P_WRITEOPEN, P_DATA, PIPESIZE in *.
  assert (∀ x, x < pi + 24 ∨ pi + 536 ≤ x → x < pi + 540 ∨ pi + 544 ≤ x → store_bytes (store32 m (pi + 540) (u32 (nw + 1))) a [b] x = m x) as Hout.
  { intros x H1 H2. rewrite store_byte_at, decide_False, store32_outside by lia. done. }
  assert (0 ≤ u32 (nw + 1) < 2 ^ 32) as Hu by (unfold u32; dlia).
  assert (load32 (store_bytes (store32 m (pi + 540) (u32 (nw + 1))) a [b]) (pi + 536) = nr) as Er by (apply load32_ext; intros; apply Hout; lia).
  assert (load32 (store_bytes (store32 m (pi + 540) (u32 (nw + 1))) a [b]) (pi + 540) = u32 (nw + 1)) as Ew.
  { rewrite <-(load32_store m (pi + 540) _ Hu) at 2. apply load32_ext. intros x Hx. rewrite store_byte_at, decide_False by lia. done. }
  split; unfold P_NREAD, P_NWRITE, P_READOPEN, P_WRITEOPEN, P_DATA, PIPESIZE; rewrite ?Er, ?Ew; [done| | | | |].
  - rewrite p2, qlen_app. change (qlen [b]) with 1. unfold u32. dlia.
  - rewrite qlen_app. change (qlen [b]) with 1. lia.
  - rewrite <-po. apply load32_ext. intros; apply Hout; lia.
  - rewrite <-pw. apply load32_ext. intros; apply Hout; lia.
  - intros i c Hi. rewrite store_byte_at. pose proof (ring_bound (nr + Z.of_nat i)) as Hb. unfold PIPESIZE in Hb. destruct (decide (i = length q)) as [->|Hne].
    + rewrite lookup_app_r, Nat.sub_diag in Hi by lia. simplify_eq/=. rewrite decide_True; [done|]. unfold a. f_equal. rewrite p2. symmetry. apply u32_ring.
    + rewrite lookup_app_l in Hi by (apply lookup_lt_Some in Hi; rewrite length_app in Hi; simpl in Hi; lia). pose proof (lookup_lt_Some _ _ _ Hi) as Hlt.
      rewrite decide_False, store32_outside; [by apply p4|lia|]. unfold a. rewrite p2. pose proof (u32_ring (nr + qlen q)) as Eu. unfold PIPESIZE in Eu. rewrite Eu. unfold qlen in *. dlia.
Qed.

(** One byte out. *)
Lemma prep_pop m pi ro wo b q : prep m pi ro wo (b :: q) →
  let nr := load32 m (pi + P_NREAD) in
  m (pi + P_DATA + nr mod PIPESIZE) = b ∧ nr ≠ load32 m (pi + P_NWRITE) ∧ prep (store32 m (pi + P_NREAD) (u32 (nr + 1))) pi ro wo q.
Proof.
  intros [p1 p2 p3 po pw p4] nr. fold nr in p1, p2, p4. assert (qlen (b :: q) = qlen q + 1) as El by (unfold qlen; simpl length; lia). rewrite El in *. pose proof (qlen_nonneg q).
  assert (0 ≤ u32 (nr + 1) < 2 ^ 32) as Hu by (unfold u32; dlia). split_and!.
  - specialize (p4 0%nat b eq_refl). by rewrite Z.add_0_r in p4.
  - rewrite p2. unfold u32, PIPESIZE in *. dlia.
  - unfold P_NREAD, P_NWRITE, P_READOPEN, P_WRITEOPEN, P_DATA, PIPESIZE in *.
    assert (load32 (store32 m (pi + 536) (u32 (nr + 1))) (pi + 540) = load32 m (pi + 540)) as Ew by (apply load32_ext; intros; apply store32_outside; lia).
    split; unfold P_NREAD, P_NWRITE, P_READOPEN, P_WRITEOPEN, P_DATA, PIPESIZE; rewrite ?Ew, ?load32_store by done; [done| |lia| | |].
    + rewrite p2. unfold u32. dlia.
    + rewrite <-po. apply load32_ext. intros; apply store32_outside; lia.
    + rewrite <-pw. apply load32_ext. intros; apply store32_outside; lia.
    + intros i c Hi. pose proof (ring_bound (u32 (nr + 1) + Z.of_nat i)) as Hb. unfold PIPESIZE in Hb. rewrite store32_outside by lia.
      specialize (p4 (S i) c Hi). rewrite <-p4. do 2 f_equal. unfold u32. dlia.
Qed.

(** ** A byte from and to user memory *)

Section user_byte.
Context `{Layout, !LayoutOk}.

Lemma wp_copyin1 g p b va (s : kmem) Q :
  let r := upagetable p in
  vinv g s → r ∈ roots g → 0 ≤ va < MAXVA → uread s r va = Some b → Q (0, [b]) s → wp (copyin p r va 1) s Q.
Proof.
  intros r V Hr Hva Hb HQ. unfold copyin. change (S (Z.to_nat 1)) with 2%nat. cbn [copyin_loop Z.ltb Z.compare negb].
  rewrite PGROUNDDOWN_eq. set (v := va / PGSIZE). pose proof (va_vpage va Hva) as Hv. fold v in Hv.
  rewrite uread_eq in Hb. fold v in Hb. cbv zeta in Hb. apply wp_bind, (wp_walkaddr g); [done|done|lia| |].
  - intros a Ha (_ & HV & HU & Ea & _). rewrite (proj2 (Z.eqb_neq a 0) Ha). apply wp_bind, wp_ret. rewrite (proj2 (Z.eqb_neq a 0) Ha).
    assert (va mod PGSIZE = va - v * PGSIZE) as Em by (unfold v, PGSIZE; dlia). pose proof (Z.mod_pos_bound va PGSIZE ltac:(done)) as Hm.
    rewrite Z.min_r by lia. unfold read_bytes. apply wp_bind, wp_gets. cbn [copyin_loop Z.sub Z.add Z.opp Z.pos_sub Z.ltb Z.compare negb]. apply wp_ret.
    rewrite HV, HU in Hb. cbn [andb] in Hb. injection Hb as Hb. rewrite Ea, Em in Hb. unfold load_bytes. simpl. rewrite Z.add_0_r. by rewrite Hb.
  - intros Hno. rewrite Hno in Hb by lia. done.
Qed.

(** The page of [va] is writable and not shared. *)
Definition own_page (s : kmem) (r va : Z) : Prop :=
  let e := upte s r (va / PGSIZE) in has e PTE_V && has e PTE_U && has e PTE_W = true ∧ has e PTE_COW = false.

Lemma wp_copyout1 g p b va (s : kmem) Q :
  let r := upagetable p in
  vinv g s → r ∈ roots g → 0 ≤ va < MAXVA → own_page s r va →
  (∀ a, present s r (va / PGSIZE) a → Q 0 (set_mem (store_bytes (mem s) (a + (va - va / PGSIZE * PGSIZE)) [b]) s)) → wp (copyout p r va [b]) s Q.
Proof.
  intros r V Hr Hva [Hs HC] HQ. unfold copyout. cbn [length copyout_loop]. rewrite PGROUNDDOWN_eq. set (v := va / PGSIZE).
  pose proof (va_vpage va Hva) as Hv. fold v in Hv. pose proof (vpage_va v Hv) as Hvv. cbv zeta in Hs, HC. fold v in Hs, HC.
  destruct (has (upte s r v) PTE_V) eqn:HV; [|done]. destruct (has (upte s r v) PTE_U) eqn:HU; [|done]. destruct (has (upte s r v) PTE_W) eqn:HW; [|done].
  clear Hs. rewrite (proj2 (Z.leb_gt MAXVA (v * PGSIZE)) ltac:(lia)). apply wp_bind, (wp_walkaddr g); [done|done|lia| |].
  2: { intros Hno. rewrite HV, HU in Hno. specialize (Hno ltac:(lia)). done. }
  intros a Ha P. pose proof P as (Hu & _ & _ & Ea & _). rewrite (proj2 (Z.eqb_neq a 0) Ha). apply wp_bind, wp_ret. rewrite (proj2 (Z.eqb_neq a 0) Ha).
  assert (slot 2 (mem s) r (v * PGSIZE) ≠ 0) as Hs by (by apply slot_valid).
  assert (load64 (mem s) (slot 2 (mem s) r (v * PGSIZE)) = upte s r v) as El.
  { unfold upte, pte_at. by rewrite (proj2 (Z.eqb_neq _ 0) Hs). }
  apply wp_bind, wp_walk; [lia|]. rewrite (proj2 (Z.eqb_neq _ 0) Hs). unfold read64. apply wp_bind, wp_gets. rewrite El, HV, HU. cbn [negb orb].
  apply wp_bind. rewrite HC. apply wp_ret. apply wp_bind, wp_gets. rewrite El, HW. cbn [negb].
  pose proof (Z.mod_pos_bound va PGSIZE ltac:(done)) as Hm. assert (va mod PGSIZE = va - v * PGSIZE) as Em by (unfold v, PGSIZE; dlia).
  rewrite Z.min_r by (simpl; lia). unfold write_bytes. apply wp_bind, wp_modify. apply wp_ret. by apply HQ.
Qed.
End user_byte.

Section pipe_queue.
Context `{Layout, !LayoutOk, Switch fs, Patience}.

(** The pipe at [pi], in a page that only the kernel uses. *)
Record pipe_at (g : ghost) (pi ro wo : Z) (q : list Z) (k : kmem) : Prop := {
  pa_inv : vinv g k;
  pa_page : private_page g pi;
  pa_rep : prep (mem k) pi ro wo q;
}.

(** [m'] and [m] are the same outside the page of [pi]. *)
Definition beyond (pi : Z) (m m' : memory) : Prop := ∀ a, a < pi ∨ pi + PGSIZE ≤ a → m' a = m a.

Lemma beyond_trans pi m1 m2 m3 : beyond pi m1 m2 → beyond pi m2 m3 → beyond pi m1 m3.
Proof. intros A B a Ha. by rewrite B, A. Qed.

Lemma pipe_poke g pi ro wo q k m' q' :
  pipe_at g pi ro wo q k → bytes_ok m' → beyond pi (mem k) m' → prep m' pi ro wo q' →
  pipe_at g pi ro wo q' (set_mem m' k) ∧ ∀ r va, r ∈ roots g → 0 ≤ va < MAXVA → uread (set_mem m' k) r va = uread k r va.
Proof.
  intros [V P _] Hb Ho Hp. destruct (preserves_write g k pi m' V P Hb Ho) as [V' Pr]. split; [done|]. intros r va Hr Hva.
  apply (pv_reads _ _ _ _ _ Pr); [done| |done]. intros ->%elem_of_singleton. pose proof (root_label _ _ V pi Hr). destruct P. congruence.
Qed.

Lemma beyond_push pi m b : beyond pi m (pushed_byte m pi b).
Proof.
  intros a Ha. unfold pushed_byte. pose proof (ring_bound (load32 m (pi + P_NWRITE))). unfold P_NWRITE, P_DATA, PIPESIZE, PGSIZE in *.
  rewrite store_byte_at, decide_False, store32_outside by lia. done.
Qed.

Lemma pipe_push g pi ro wo q b k :
  pipe_at g pi ro wo q k → qlen q < PIPESIZE → 0 ≤ b < 256 →
  pipe_at g pi ro wo (q ++ [b]) (set_mem (pushed_byte (mem k) pi b) k) ∧
  ∀ r va, r ∈ roots g → 0 ≤ va < MAXVA → uread (set_mem (pushed_byte (mem k) pi b) k) r va = uread k r va.
Proof.
  intros P Hl Hb. apply (pipe_poke g pi ro wo q); [done| |apply beyond_push|apply prep_push; [apply P|done]].
  apply bytes_ok_store_bytes; [apply bytes_ok_store, P|by apply Forall_singleton].
Qed.

Lemma wp_pi_get pi o (x : K) Q : Q (load32 (mem (mach x)) (pi + o)) x → wp (pi_get pi o) x Q.
Proof. intros HQ. apply wp_zoom, wp_gets. by destruct x. Qed.
Lemma wp_pi_set pi o v (x : K) Q : Q tt (set_mach (set_mem (store32 (mem (mach x)) (pi + o) v) (mach x)) x) → wp (pi_set pi o v) x Q.
Proof. intros HQ. by apply wp_zoom, wp_modify. Qed.

(** Process [i], not killed, in a critical section. *)
Record inside (i : nat) (p : proc) (x : K) : Prop := {
  in_cpu : cpu_ok (kcpu x);
  in_off : 0 < noff (kcpu x);
  in_lock : lks x (ProcLock i) = initlock;
  in_proc : procs x !! i = Some p;
  in_alive : killedf p = 0;
}.

(** The writer, while the ring has room for what is left. *)
Lemma wp_pipewrite_loop i p g pi ro wo addr n (x : K) bs :
  let up := uproc_of p in let r := upagetable up in
  inside i p x → r ∈ roots g → ro ≠ 0 → 0 ≤ addr → n < 2 ^ 31 →
  ∀ fuel j q m Q,
  let k := set_mem m (mach x) in
  (length bs < fuel)%nat → pipe_at g pi ro wo q k → reads_at k r (addr + j) bs → 0 ≤ j → n = j + qlen bs →
  qlen q + qlen bs ≤ PIPESIZE →
  (∀ m', pipe_at g pi ro wo (q ++ bs) (set_mem m' (mach x)) → beyond pi m m' → Q (Some n) (set_mach (set_mem m' (mach x)) x)) →
  wp (pipewrite_loop fuel pi i addr n j) (set_mach k x) Q.
Proof.
  intros up r I Hr Hro Haddr Hn. induction bs as [|b bs IH]; intros fuel j q m Q k Hf P R Hj En Hl HQ; (destruct fuel as [|fuel]; [lia|]); cbn [pipewrite_loop].
  { change (qlen []) with 0 in En. rewrite (proj2 (Z.ltb_ge j n)) by lia. apply wp_ret. replace j with n by lia. apply HQ; [by rewrite app_nil_r|by intros ?]. }
  assert (qlen (b :: bs) = qlen bs + 1) as El by (unfold qlen; simpl length; lia). rewrite El in *. pose proof (qlen_nonneg bs). pose proof (qlen_nonneg q).
  rewrite (proj2 (Z.ltb_lt j n)) by lia. cbn [negb]. destruct (pa_rep _ _ _ _ _ _ P) as [p1 p2 p3 po pw p4].
  apply wp_bind, wp_pi_get. cbn [mach set_mach]. rewrite po, (proj2 (Z.eqb_neq ro 0) Hro). apply wp_bind, (wp_killed i p); [apply I|apply I|apply I|].
  rewrite (in_alive _ _ _ I), relax_pos by apply I. cbn [Z.eqb negb]. apply wp_bind, wp_pi_get. cbn [mach set_mach]. apply wp_bind, wp_pi_get. cbn [mach set_mach].
  rewrite p2, (proj2 (Z.eqb_neq _ _)) by (unfold u32, PIPESIZE in *; dlia). apply wp_bind, (wp_pget i p); [apply I|].
  destruct (R 0%nat b eq_refl) as [Hlt Hb]. rewrite Z.add_0_r in Hlt, Hb. change MAXVA with (2 ^ 38) in Hlt. rewrite u64_small by lia.
  apply wp_bind, wp_zoom. apply (wp_copyin1 g _ b); [apply P|done|change MAXVA with (2 ^ 38); lia|done|]. cbn [fst snd Z.eqb].
  apply wp_bind, wp_pi_get. apply wp_bind, wp_pi_set. apply wp_bind, wp_zoom, wp_modify. cbn [mach set_mach mem set_mem].
  assert (0 ≤ b < 256) as Hbb by (rewrite uread_eq in Hb; cbv zeta in Hb; destruct (_ && _); [injection Hb as <-; apply (ki_bytes _ _ (ti_k _ _ (vi_t _ _ (pa_inv _ _ _ _ _ _ P))))|done]).
  destruct (pipe_push g pi ro wo q b k P ltac:(lia) Hbb) as [P' Hu].
  apply (IH fuel (j + 1) (q ++ [b]) (pushed_byte m pi b)); [simpl in Hf; lia|exact P'| |lia|lia|rewrite qlen_app; change (qlen [b]) with 1; lia|].
  - intros k' c Hk'. destruct (R (S k') c Hk') as [Hlt' Hc]. replace (addr + (j + 1) + Z.of_nat k') with (addr + j + Z.of_nat (S k')) by lia. split; [done|].
    rewrite <-Hc. apply (Hu r); [done|]. change MAXVA with (2 ^ 38) in *. lia.
  - intros m' P2 B2. apply HQ; [by rewrite <-app_assoc in P2|]. eapply beyond_trans; [apply beyond_push|exact B2].
Qed.

(** ** The reader *)

Definition same_ptes (g : ghost) (k k' : kmem) : Prop := ∀ r v, r ∈ roots g → 0 ≤ v < VPAGES → upte k' r v = upte k r v.

Lemma own_page_same g k k' r va : same_ptes g k k' → r ∈ roots g → 0 ≤ va < MAXVA → own_page k r va → own_page k' r va.
Proof. intros E Hr Hva O. unfold own_page. by rewrite E by (done || by apply va_vpage). Qed.

(** A byte goes from the pipe to the user. *)
Lemma pipe_take g up pi ro wo q b a va k :
  let r := upagetable up in
  let k1 := set_mem (store_bytes (mem k) (a + (va - va / PGSIZE * PGSIZE)) [b]) k in
  let k2 := set_mem (store32 (mem k1) (pi + P_NREAD) (u32 (load32 (mem k1) (pi + P_NREAD) + 1))) k1 in
  pipe_at g pi ro wo (b :: q) k → r ∈ roots g → 0 ≤ va < MAXVA → own_page k r va → present k r (va / PGSIZE) a → 0 ≤ b < 256 →
  pipe_at g pi ro wo (b :: q) k1 ∧ pipe_at g pi ro wo q k2 ∧ wrote g up va [b] k k2 ∧ same_ptes g k k2.
Proof.
  intros r k1 k2 P Hr Hva [HW _] Hp Hb. pose proof (Z.mod_pos_bound va PGSIZE ltac:(done)) as Hm. pose proof (Z.div_mod va PGSIZE ltac:(done)) as Hd.
  assert (has (upte k r (va / PGSIZE)) PTE_W = true) as HW' by (cbv zeta in HW; by apply andb_prop in HW as [_ ?]).
  destruct (page_write_wrote g k up (va / PGSIZE) a (va - va / PGSIZE * PGSIZE) [b]) as (V1 & W1 & C1); [apply P|done..|by apply Forall_singleton|lia|simpl; lia|].
  fold k1 in V1, W1, C1. replace (va / PGSIZE * PGSIZE + (va - va / PGSIZE * PGSIZE)) with va in W1 by lia.
  destruct (cf_page _ _ _ _ _ C1 pi (pa_page _ _ _ _ _ _ P)) as [Pp Em].
  assert (pipe_at g pi ro wo (b :: q) k1) as P1 by (split; [done|done|by eapply prep_ext; [exact Em|apply P]]).
  destruct (prep_pop (mem k1) pi ro wo b q (pa_rep _ _ _ _ _ _ P1)) as (_ & _ & R2).
  assert (beyond pi (mem k1) (mem k2)) as B2 by (intros x Hx; unfold k2, P_NREAD, PGSIZE in *; cbn [mem set_mem]; apply store32_outside; lia).
  destruct (pipe_poke g pi ro wo (b :: q) k1 (mem k2) q P1) as [P2 U2]; [apply bytes_ok_store, V1|done|exact R2|]. split; [done|]. split; [exact P2|]. split.
  - intros r' va' Hr' Hva'. specialize (W1 r' va' Hr' Hva'). unfold faulted in *.
    change (uread k2 r' va') with (uread (set_mem (mem k2) k1) r' va'). rewrite (U2 r' va') by done. exact W1.
  - assert (page_ok pi) as Hok by (eapply own_OData_page; [apply P|apply P]). destruct Hp as (Hu & HV & HU & Ea & Ha).
    assert (own g a = OData) as Ho by (rewrite <-Ea; eapply ri_leaf; [apply vi_r; apply P|done..]).
    intros r' v' Hr' Hv'. rewrite (upte_ext g k1 V1 k2 pi Hok); [|right; apply P|exact B2|done|done].
    apply (upte_ext g k (pa_inv _ _ _ _ _ _ P) k1 a); [eapply own_OData_page; [apply P|done]|by right| |done|done].
    intros x Hx. unfold k1. cbn [mem set_mem]. rewrite store_byte_at, decide_False by lia. done.
Qed.

(** The copy, as long as the buffer can be written. *)
Lemma wp_piperead_copy i p g pi ro wo addr (x : K) :
  let up := uproc_of p in let r := upagetable up in
  inside i p x → r ∈ roots g → 0 ≤ addr →
  ∀ n j q m Q,
  let k := set_mem m (mach x) in
  pipe_at g pi ro wo q k → are_bytes q → 0 ≤ j → addr + j + Z.of_nat n ≤ MAXVA →
  (∀ va, addr + j ≤ va < addr + j + Z.of_nat n → own_page k r va) →
  (∀ m', let k' := set_mem m' (mach x) in
     pipe_at g pi ro wo (drop n q) k' → wrote g up (addr + j) (take n q) k k' → Q (j + qlen (take n q)) (set_mach k' x)) →
  wp (piperead_copy n pi i addr j) (set_mach k x) Q.
Proof.
  intros up r I Hr Haddr. induction n as [|n IH]; intros j q m Q k P Hb Hj Hmax Ho HQ; cbn [piperead_copy].
  { apply wp_ret. specialize (HQ m P). rewrite take_0, Z.add_0_r in HQ. apply HQ. by apply wrote_nil, reads_faulted. }
  destruct (pa_rep _ _ _ _ _ _ P) as [p1 p2 p3 po pw p4]. apply wp_bind, wp_pi_get. cbn [mach set_mach]. apply wp_bind, wp_pi_get. cbn [mach set_mach].
  destruct q as [|b q].
  { change (qlen []) with 0 in p2. rewrite p2, Z.add_0_r. unfold u32 at 1. rewrite Z.mod_small, Z.eqb_refl by done. apply wp_ret.
    specialize (HQ m P). change (qlen (take (S n) [])) with 0 in HQ. rewrite Z.add_0_r in HQ. apply HQ. by apply wrote_nil, reads_faulted. }
  destruct (prep_pop _ _ _ _ _ _ (pa_rep _ _ _ _ _ _ P)) as (Eb & Hne & _). rewrite (proj2 (Z.eqb_neq _ _) Hne).
  apply Forall_cons in Hb as [Hb Hbs]. apply wp_bind, wp_zoom, wp_gets. cbn [mach set_mach].
  change (load_bytes (mem k) (pi + P_DATA + load32 (mem k) (pi + P_NREAD) mod PIPESIZE) 1) with [mem k (pi + P_DATA + load32 (mem k) (pi + P_NREAD) mod PIPESIZE + 0)].
  rewrite Z.add_0_r, Eb. apply wp_bind, (wp_pget i p); [apply I|]. change MAXVA with (2 ^ 38) in Hmax. rewrite u64_small by lia.
  assert (0 ≤ addr + j < MAXVA) as Hva by (change MAXVA with (2 ^ 38); lia). assert (own_page k r (addr + j)) as Oj by (apply Ho; lia).
  apply wp_bind, wp_zoom. apply (wp_copyout1 g); [apply P|done|done|done|]. intros a Ha. cbn [Z.eqb].
  destruct (pipe_take g up pi ro wo q b a (addr + j) k P Hr Hva Oj Ha Hb) as (_ & P2 & W2 & E2).
  apply wp_bind, wp_pi_get. apply wp_bind, wp_pi_set. cbn [mach set_mach mem set_mem] in *.
  apply (IH (j + 1) q); [exact P2|done|lia|change MAXVA with (2 ^ 38); lia| |].
  - intros va Hv. apply (own_page_same g k); [exact E2|done|change MAXVA with (2 ^ 38); lia|apply Ho; lia].
  - intros m' P' W'. cbn [firstn skipn] in HQ. replace (j + qlen (b :: take n q)) with (j + 1 + qlen (take n q)) in HQ by (unfold qlen; simpl length; lia).
    apply HQ; [exact P'|]. apply (wrote_app _ _ _ [b] (take n q) _ _ _ W2). change (Z.of_nat (length [b])) with 1. by replace (addr + j + 1) with (addr + (j + 1)) by lia.
Qed.

(** ** The whole calls *)

Lemma pipe_bytes g pi ro wo q k : pipe_at g pi ro wo q k → are_bytes q.
Proof.
  intros P. apply Forall_lookup. intros i b Hi. rewrite <-(pp_data _ _ _ _ _ (pa_rep _ _ _ _ _ _ P) i b Hi).
  apply (ki_bytes _ _ (ti_k _ _ (vi_t _ _ (pa_inv _ _ _ _ _ _ P)))).
Qed.

(** Process [i] is running and none of the locks that the calls take is held. *)
Record caller (i : nat) (p : proc) (pi : Z) (s : K) : Prop := {
  ca_unlocked : unlocked s;
  ca_lock : lks s (PipeLock pi) = initlock;
  ca_me : cproc s = Some i;
  ca_proc : procs s !! i = Some p;
}.

(** The state after the call: memory [m'], and the sleepers on [ch] awake. *)
Definition finished (i : nat) (ch : channel) (m' : memory) (s : K) : K :=
  relax (set_procs (woken ch (Some i) (procs s)) (set_mach (set_mem m' (mach s)) s)).

Lemma inside_entered i p pi s : caller i p pi s → killedf p = 0 → inside i p (entered (PipeLock pi) (relax s)).
Proof.
  intros [U L M P] Hk. pose proof (cpu_ok_touch _ (ul_cpu _ U)) as Hc. split; [by apply cpu_ok_pushed|simpl; destruct Hc; lia| |done|done].
  simpl. rewrite fn_lookup_insert_ne by done. apply U.
Qed.

Lemma same_mem (k : kmem) : set_mem (mem k) k = k.
Proof. by destruct k. Qed.
Lemma same_mach (x : K) : set_mach (set_mem (mem (mach x)) (mach x)) x = x.
Proof. rewrite same_mem. by destruct x. Qed.

(** The end of both calls. *)
Lemma wp_pipe_leave i p pi ch (v : Z) k' (s : K) Q :
  caller i p pi s → Q v (relax (set_procs (woken ch (Some i) (procs s)) (set_mach k' s))) →
  wp (wakeup ch ;; release (PipeLock pi) ;; mret v) (set_mach k' (entered (PipeLock pi) (relax s))) Q.
Proof.
  intros [U L M P] HQ. pose proof (cpu_ok_touch _ (ul_cpu _ U)) as Hc. apply wp_bind, wp_wakeup.
  - split; [by apply cpu_ok_pushed| |apply U]. intros j. simpl. rewrite fn_lookup_insert_ne by done. apply U.
  - rewrite relax_pos by (simpl; destruct Hc; lia). cbn [cproc]. apply wp_bind.
    apply (wp_leave (PipeLock pi) (set_procs (woken ch (cproc s) (procs s)) (set_mach k' (relax s)))); [done|done|].
    apply wp_ret. rewrite M. change (set_procs ?a (set_mach ?b (relax s))) with (relax (set_procs a (set_mach b s))). by rewrite relax_relax.
Qed.

Lemma wp_pipe_enter i p pi (c : nat → M K Z) (s : K) Q :
  caller i p pi s → wp (c i) (entered (PipeLock pi) (relax s)) Q → wp (pr ← current; acquire (PipeLock pi) ;; c pr) s Q.
Proof. intros [U L M P] HQ. apply wp_bind, (wp_current i); [apply U|done|]. by apply wp_bind, wp_acquire. Qed.

(** C25. [pipewrite] of bytes that fit appends them to the queue: it returns
    their number, changes nothing outside the pipe's page, and wakes the
    readers. *)
Theorem pipewrite_queues i p g pi ro wo q addr bs (s : K) :
  let up := uproc_of p in
  caller i p pi s → killedf p = 0 → upagetable up ∈ roots g → pipe_at g pi ro wo q (mach s) → ro ≠ 0 →
  0 ≤ addr → reads_at (mach s) (upagetable up) addr bs → qlen q + qlen bs ≤ PIPESIZE →
  wp (pipewrite pi addr (qlen bs)) s (λ res s', res = qlen bs ∧ ∃ m',
    s' = finished i (ChanAddr (pi + P_NREAD)) m' s ∧ pipe_at g pi ro wo (q ++ bs) (mach s') ∧ beyond pi (mem (mach s)) m').
Proof.
  intros up C Hk Hr P Hro Ha R Hl. pose proof (qlen_nonneg q). apply (wp_pipe_enter i p); [done|]. apply wp_bind.
  rewrite <-(same_mach (entered (PipeLock pi) (relax s))). eapply (wp_pipewrite_loop i p g pi ro wo addr (qlen bs) _ bs) with (q := q); try done; rewrite ?same_mem; try done.
  - by apply inside_entered.
  - unfold PIPESIZE in Hl. lia.
  - unfold qlen. lia.
  - by rewrite Z.add_0_r.
  - intros m' P' B. apply (wp_pipe_leave i p); [done|]. split; [done|]. by exists m'.
Qed.

(** C26. [piperead] takes the first bytes of the queue, at most [n], and puts
    them into the buffer, when the buffer can be written and there are bytes or
    no writer is left; an empty queue without a writer gives 0.  Every other
    address space, and the rest of this one, reads as before. *)
Theorem piperead_takes i p g pi ro wo q addr n (s : K) :
  let up := uproc_of p in let got := take (Z.to_nat n) q in
  caller i p pi s → killedf p = 0 → upagetable up ∈ roots g → pipe_at g pi ro wo q (mach s) → q ≠ [] ∨ wo = 0 →
  0 ≤ addr → 0 ≤ n → addr + n ≤ MAXVA → (∀ va, addr ≤ va < addr + n → own_page (mach s) (upagetable up) va) →
  wp (piperead pi addr n) s (λ res s', res = qlen got ∧ ∃ m',
    s' = finished i (ChanAddr (pi + P_NWRITE)) m' s ∧ pipe_at g pi ro wo (drop (Z.to_nat n) q) (mach s') ∧
    wrote g up addr got (mach s) (mach s')).
Proof.
  intros up got C Hk Hr P Hq Ha Hn Hmax Ho. apply (wp_pipe_enter i p); [done|]. apply wp_bind. cbn [piperead_wait].
  do 3 apply wp_bind, wp_pi_get. change (mach (entered (PipeLock pi) (relax s))) with (mach s).
  destruct (pa_rep _ _ _ _ _ _ P) as [p1 p2 p3 po pw _]. rewrite pw.
  replace (_ && _) with false; [|symmetry; apply andb_false_iff; destruct Hq as [Hq| ->]; [left|by right]].
  2: { destruct q as [|b q]; [done|]. apply Z.eqb_neq. by destruct (prep_pop _ _ _ _ _ _ (pa_rep _ _ _ _ _ _ P)) as (_ & Hne & _). }
  apply wp_ret. cbn [negb]. apply wp_bind. rewrite <-(same_mach (entered (PipeLock pi) (relax s))).
  eapply (wp_piperead_copy i p g pi ro wo addr _) with (q := q); rewrite ?same_mem, ?Z.add_0_r, ?Z2Nat.id by done; try done.
  - by apply inside_entered.
  - by eapply pipe_bytes.
  - intros m' k' P' W. apply (wp_pipe_leave i p); [done|]. split; [done|]. by exists m'.
Qed.

(** Writing to a pipe whose read end is closed, or as a killed process,
    returns -1 at once and changes nothing. *)
Lemma pipewrite_broken i p pi addr n (s : K) :
  caller i p pi s → 0 < n → load32 (mem (mach s)) (pi + P_READOPEN) = 0 ∨ killedf p ≠ 0 →
  wp (pipewrite pi addr n) s (λ res s', res = -1 ∧ s' = relax s).
Proof.
  intros C Hn Hb. pose proof C as [U L M Hp]. pose proof (cpu_ok_touch _ (ul_cpu _ U)) as Hc. apply (wp_pipe_enter i p); [done|]. apply wp_bind.
  rewrite Nat.add_succ_r. cbn [pipewrite_loop]. rewrite (proj2 (Z.ltb_lt 0 n) Hn). cbn [negb]. apply wp_bind, wp_pi_get.
  apply wp_bind. apply (wp_mono _ _ (λ v x, v ≠ 0 ∧ x = entered (PipeLock pi) (relax s))).
  - change (mach (entered (PipeLock pi) (relax s))) with (mach s). case_match eqn:E; [by apply wp_ret|]. apply Z.eqb_neq in E.
    apply (wp_killed i p); [by apply cpu_ok_pushed|simpl; rewrite fn_lookup_insert_ne by done; apply U|done|].
    rewrite relax_pos by (simpl; destruct Hc; lia). naive_solver.
  - intros v x [Hv ->]. rewrite (proj2 (Z.eqb_neq v 0) Hv). cbn [negb]. apply wp_bind, (wp_leave _ (relax s)); [done|done|].
    rewrite relax_relax. by apply wp_ret, wp_ret.
Qed.
End pipe_queue.
