(* ===== verification/File.v ===== *)
(** * Open files

    file.c and the [pipealloc] of pipe.c.  The device switch table is the class
    [Devsw]: the read and write functions a driver registered for a major
    number. *)

From S2P Require Import Prelude Riscv Memory Kalloc Vm Spinlock Proc FsState Sleeplock Bio Log Fs Pipe.

(** [devsw[major].read] and [.write], applied to user_dst or user_src, the
    address and the number of bytes. *)
Class Devsw := {
  dev_read : Z → option (bool → Z → Z → M K Z);
  dev_write : Z → option (bool → Z → Z → M K Z);
}.

(** The padding in the struct stat on the stack of [filestat]. *)
Class Stack := { stat_pad : list Z }.

Section file.
Context `{Layout, Switch fs, Patience, Devsw, Stack}.

Definition fileinit : M K unit :=
  modify (λ s, set_lks (<[FtableLock := initlock]> (lks s)) s).

(** The first of [n] entries from [i] with no references. *)
Fixpoint free_file (n i : nat) (t : nat → file) : option nat :=
  match n with
  | O => None
  | S n' => if fref (t i) =? 0 then Some i else free_file n' (S i) t
  end.

Definition filealloc : M K (option nat) :=
  acquire FtableLock ;;
  t ← fget ftable;
  match free_file NFILE 0 t with
  | Some f =>
      fileset f (set_fref 1) ;;
      release FtableLock ;;
      mret (Some f)
  | None =>
      release FtableLock ;;
      mret None
  end.

Definition filedup (f : nat) : M K nat :=
  acquire FtableLock ;;
  r ← fileget f fref;
  if r <? 1 then panic "filedup" else
  fileset f (λ x, set_fref (fref x + 1) x) ;;
  release FtableLock ;;
  mret f.

Definition fileclose (f : nat) : M K unit :=
  acquire FtableLock ;;
  r ← fileget f fref;
  if r <? 1 then panic "fileclose" else
  fileset f (λ x, set_fref (fref x - 1) x) ;;
  r ← fileget f fref;
  if 0 <? r then release FtableLock else
  ff ← fileget f id;
  fileset f (λ x, set_ftype FD_NONE (set_fref 0 x)) ;;
  release FtableLock ;;
  match ftype ff with
  | FD_PIPE => pipeclose (fpipe ff) (writable ff)
  | FD_INODE | FD_DEVICE => begin_op ;; iput (fip ff) ;; end_op
  | FD_NONE => mret tt
  end.

Definition filestat (f : nat) (addr : Z) : M K Z :=
  p ← current;
  x ← fileget f id;
  match ftype x with
  | FD_INODE | FD_DEVICE =>
      ilock (fip x) ;;
      ip ← iget_ (fip x) id;
      let st := stati ip stat_pad in
      iunlock (fip x) ;;
      up ← pget p uproc_of;
      r ← on_mem (copyout up (upagetable up) addr st);
      if r <? 0 then mret (-1) else mret 0
  | _ => mret (-1)
  end.

(** The entry of the switch table, if there is one. *)
Definition dev_entry {A} (table : Z → option A) (major : Z) : option A :=
  if (major <? 0) || (NDEV <=? major) then None else table major.

Definition fileread (f : nat) (addr n : Z) : M K Z :=
  x ← fileget f id;
  if negb (readable x) then mret (-1) else
  match ftype x with
  | FD_PIPE => piperead (fpipe x) addr n
  | FD_DEVICE =>
      match dev_entry dev_read (fmajor x) with
      | None => mret (-1)
      | Some read => read true addr n
      end
  | FD_INODE =>
      ilock (fip x) ;;
      off ← fileget f foff;
      r ← readi (fip x) (ToUser addr) off (u32 n);
      (if 0 <? r.1 then fileset f (λ x, set_foff (u32 (foff x + r.1)) x) else mret tt) ;;
      iunlock (fip x) ;;
      mret r.1
  | FD_NONE => panic "fileread"
  end.

Definition max_write : Z := (MAXOPBLOCKS - 1 - 1 - 2) / 2 * BSIZE.

(** The [while] loop of [filewrite]: the value of i at its end. *)
Fixpoint filewrite_loop (fuel : nat) (f : nat) (addr n i : Z) : M K Z :=
  match fuel with
  | O => nofuel
  | S fuel' =>
      if negb (i <? n) then mret i else
      let n1 := if max_write <? n - i then max_write else n - i in
      ip ← fileget f fip;
      begin_op ;;
      ilock ip ;;
      off ← fileget f foff;
      r ← writei ip (FromUser (u64 (addr + i))) off n1;
      (if 0 <? r then fileset f (λ x, set_foff (u32 (foff x + r)) x) else mret tt) ;;
      iunlock ip ;;
      end_op ;;
      if negb (r =? n1) then mret i else filewrite_loop fuel' f addr n (i + r)
  end.

(** Every round writes [max_write] bytes, or is the last one. *)
Definition filewrite (f : nat) (addr n : Z) : M K Z :=
  x ← fileget f id;
  if negb (writable x) then mret (-1) else
  match ftype x with
  | FD_PIPE => pipewrite (fpipe x) addr n
  | FD_DEVICE =>
      match dev_entry dev_write (fmajor x) with
      | None => mret (-1)
      | Some write => write true addr n
      end
  | FD_INODE =>
      i ← filewrite_loop (Z.to_nat (n / max_write + 2)) f addr n 0;
      mret (if i =? n then n else -1)
  | FD_NONE => panic "filewrite"
  end.

(** ** pipealloc *)

(** The label [bad]; [f0], [f1] and [pi] as far as they were allocated. *)
Definition pipealloc_bad (f0 f1 : option nat) (pi : Z) : M K (option (nat * nat)) :=
  (if negb (pi =? 0) then on_mem (kfree pi) else mret tt) ;;
  (match f0 with Some f => fileclose f | None => mret tt end) ;;
  (match f1 with Some f => fileclose f | None => mret tt end) ;;
  mret None.

(** The two files, or None for the result -1. *)
Definition pipealloc : M K (option (nat * nat)) :=
  f0 ← filealloc;
  match f0 with
  | None => pipealloc_bad None None 0
  | Some a =>
      f1 ← filealloc;
      match f1 with
      | None => pipealloc_bad (Some a) None 0
      | Some b =>
          pi ← on_mem kalloc;
          if pi =? 0 then pipealloc_bad (Some a) (Some b) 0 else
          pi_set pi P_READOPEN 1 ;;
          pi_set pi P_WRITEOPEN 1 ;;
          pi_set pi P_NWRITE 0 ;;
          pi_set pi P_NREAD 0 ;;
          modify (λ s, set_lks (<[PipeLock pi := initlock]> (lks s)) s) ;;
          fileset a (set_ftype FD_PIPE) ;;
          fileset a (set_mode true false) ;;
          fileset a (set_fpipe pi) ;;
          fileset b (set_ftype FD_PIPE) ;;
          fileset b (set_mode false true) ;;
          fileset b (set_fpipe pi) ;;
          mret (Some (a, b))
      end
  end.
End file.
