(* ===== verification/Exec.v ===== *)
(** * exec

    exec.c: building the image of a new program from an ELF file.  The headers
    are read into local variables and decoded from their bytes; [argv] is the
    list of the pointers before the null one. *)

From S2P Require Import Prelude Riscv Memory Kalloc Vm ProcVm Spinlock Proc Syscall FsState Sleeplock Bio Log Fs.

Definition ELF_MAGIC : Z := 0x464C457F.
Definition ELF_PROG_LOAD : Z := 1.
Definition ELFHDR_SIZE : Z := 64.
Definition PROGHDR_SIZE : Z := 56.

Record elfhdr := mkElf { e_magic : Z; e_entry : Z; e_phoff : Z; e_phnum : Z }.
Record proghdr := mkPh {
  p_type : Z; p_flags : Z; p_off : Z; p_vaddr : Z; p_filesz : Z; p_memsz : Z;
}.

Definition decode_elf (bs : list Z) : elfhdr :=
  let m := store_bytes (λ _, 0) 0 bs in
  mkElf (load32 m 0) (load64 m 24) (load64 m 32) (load16 m 56).
Definition decode_ph (bs : list Z) : proghdr :=
  let m := store_bytes (λ _, 0) 0 bs in
  mkPh (load32 m 0) (load32 m 4) (load64 m 8) (load64 m 16) (load64 m 32) (load64 m 40).

Definition flags2perm (flags : Z) : Z :=
  let perm := if negb (Z.land flags 1 =? 0) then PTE_X else 0 in
  if negb (Z.land flags 2 =? 0) then Z.lor perm PTE_W else perm.

(** [for (last = s = path; s[0]; s++) if (s[0] == '/') last = s + 1;] *)
Fixpoint last_elem (path last : list Z) : list Z :=
  match path with
  | [] => last
  | c :: path' => last_elem path' (if c =? slash then path' else last)
  end.

Section exec.
Context `{Layout, Switch fs, Patience}.

Fixpoint loadseg_loop (fuel : nat) (pagetable va : Z) (ip : nat) (offset sz i : Z) : M K Z :=
  match fuel with
  | O => nofuel
  | S fuel' =>
      if negb (i <? sz) then mret 0 else
      pa ← on_mem (walkaddr pagetable (u64 (va + i)));
      if pa =? 0 then panic "loadseg: address should exist" else
      let n := if sz - i <? PGSIZE then sz - i else PGSIZE in
      r ← readi ip (ToKernel pa) (u32 (offset + i)) n;
      if negb (r.1 =? n) then mret (-1) else
      loadseg_loop fuel' pagetable va ip offset sz (u32 (i + PGSIZE))
  end.

Definition loadseg (pagetable va : Z) (ip : nat) (offset sz : Z) : M K Z :=
  loadseg_loop (Z.to_nat (sz / PGSIZE + 2)) pagetable va ip offset sz 0.

(** The body of the loop over the program headers: whether it went well, and
    the size of the image. *)
Definition load_segment (pagetable : Z) (ip : nat) (ph : proghdr) (sz : Z) : M K (bool * Z) :=
  if negb (p_type ph =? ELF_PROG_LOAD) then mret (true, sz) else
  if p_memsz ph <? p_filesz ph then mret (false, sz) else
  if u64 (p_vaddr ph + p_memsz ph) <? p_vaddr ph then mret (false, sz) else
  if negb (p_vaddr ph mod PGSIZE =? 0) then mret (false, sz) else
  sz1 ← on_mem (uvmalloc pagetable sz (u64 (p_vaddr ph + p_memsz ph)) (flags2perm (s32 (p_flags ph))));
  if sz1 =? 0 then mret (false, sz) else
  r ← loadseg pagetable (p_vaddr ph) ip (u32 (p_off ph)) (u32 (p_filesz ph));
  mret (negb (r <? 0), sz1).

(** [n] program headers from offset [off]. *)
Fixpoint load_program (n : nat) (pagetable : Z) (ip : nat) (off sz : Z) : M K (bool * Z) :=
  match n with
  | O => mret (true, sz)
  | S n' =>
      r ← readi ip ToLocal (u32 off) PROGHDR_SIZE;
      if negb (r.1 =? PROGHDR_SIZE) then mret (false, sz) else
      l ← load_segment pagetable ip (decode_ph r.2) sz;
      if l.1 : bool then load_program n' pagetable ip (s32 (off + PROGHDR_SIZE)) l.2 else mret l
  end.

(** The loop that copies the argument strings: the stack pointer and the
    addresses of the strings, or None for [goto bad].  With MAXARG strings the
    code would write the final 0 beyond its array [ustack]; its caller
    [sys_exec] passes fewer. *)
Fixpoint push_args (p : nat) (argv : list Z) (pagetable stackbase sp : Z) (ustack : list Z) : M K (option (Z * list Z)) :=
  match argv with
  | [] => mret (Some (sp, ustack))
  | a :: argv' =>
      if MAXARG <=? Z.of_nat (length ustack) then mret None else
      m ← on_mem (gets mem);
      match strlen (Z.to_nat PGSIZE) m a with
      | None => nofuel
      | Some len =>
          let sp := u64 (sp - (len + 1)) in
          let sp := sp - sp mod 16 in
          if sp <? stackbase then mret None else
          up ← pget p uproc_of;
          r ← on_mem (copyout up pagetable sp (load_bytes m a (len + 1)));
          if r <? 0 then mret None else
          push_args p argv' pagetable stackbase sp (ustack ++ [sp])
      end
  end.

(** The label [bad]; [ip] is the inode while it is locked. *)
Definition exec_bad (pagetable sz : Z) (ip : option nat) : M K Z :=
  (if negb (pagetable =? 0) then on_mem (proc_freepagetable pagetable sz) else mret tt) ;;
  (match ip with
   | Some ip => iunlockput ip ;; end_op
   | None => mret tt
   end) ;;
  mret (-1).

(** [kexec] from [p->trapframe->a1 = sp;] on. *)
Definition exec_commit (p : nat) (path : list Z) (pagetable sz sp oldsz entry argc : Z) : M K Z :=
  tf ← pget p trapframe;
  on_mem (write64 (tf + TF_A0 + 8) sp) ;;
  pset p (λ q, set_name (copy_name (name q) (last_elem path path)) q) ;;
  oldpagetable ← pget p Proc.pagetable;
  pset p (set_pagetable pagetable) ;;
  pset p (set_sz sz) ;;
  on_mem (write64 (tf + TF_EPC) entry) ;;
  on_mem (write64 (tf + TF_SP) sp) ;;
  on_mem (proc_freepagetable oldpagetable oldsz) ;;
  mret (s32 argc).

(** [kexec] from [p = myproc();] on, after the program is loaded. *)
Definition exec_stack (path argv : list Z) (pagetable sz entry : Z) : M K Z :=
  p ← current;
  oldsz ← pget p Proc.sz;
  let sz := PGROUNDUP sz in
  sz1 ← on_mem (uvmalloc pagetable sz (u64 (sz + (USERSTACK + 1) * PGSIZE)) PTE_W);
  if sz1 =? 0 then exec_bad pagetable sz None else
  let sz := sz1 in
  on_mem (uvmclear pagetable (u64 (sz - (USERSTACK + 1) * PGSIZE))) ;;
  let stackbase := u64 (sz - USERSTACK * PGSIZE) in
  r ← push_args p argv pagetable stackbase sz [];
  match r with
  | None => exec_bad pagetable sz None
  | Some (sp, ustack) =>
      let argc := Z.of_nat (length ustack) in
      let ustack := ustack ++ [0] in
      let sp := u64 (sp - (argc + 1) * 8) in
      let sp := sp - sp mod 16 in
      if sp <? stackbase then exec_bad pagetable sz None else
      up ← pget p uproc_of;
      c ← on_mem (copyout up pagetable sp (concat (map (le_bytes 8) ustack)));
      if c <? 0 then exec_bad pagetable sz None else
      exec_commit p path pagetable sz sp oldsz entry argc
  end.

Definition kexec (path argv : list Z) : M K Z :=
  p ← current;
  begin_op ;;
  ip ← namei path;
  match ip with
  | None => end_op ;; mret (-1)
  | Some ip =>
      ilock ip ;;
      r ← readi ip ToLocal 0 ELFHDR_SIZE;
      if negb (r.1 =? ELFHDR_SIZE) then exec_bad 0 0 (Some ip) else
      let elf := decode_elf r.2 in
      if negb (e_magic elf =? ELF_MAGIC) then exec_bad 0 0 (Some ip) else
      tf ← pget p trapframe;
      pagetable ← on_mem (proc_pagetable tf);
      if pagetable =? 0 then exec_bad 0 0 (Some ip) else
      l ← load_program (Z.to_nat (e_phnum elf)) pagetable ip (s32 (e_phoff elf)) 0;
      if negb (l.1 : bool) then exec_bad pagetable l.2 (Some ip) else
      iunlockput ip ;;
      end_op ;;
      exec_stack path argv pagetable l.2 (e_entry elf)
  end.
End exec.
