(* ===== verification/ExecOps.v ===== *)
(** * The stack that exec builds

    [exec_stack] of exec.c: the new address space gets a guard page and a stack,
    the argument strings and the array of their addresses are copied there, and
    the process is switched to it. *)

From S2P Require Import Prelude FsState Sleeplock Bio Log Fs Syscall Exec.
From S2P Require Import Riscv Memory Kalloc Vm VmInv VmWalk VmRef VmOps Cow VmUser CopyUser CopyPut Fork VmRoot VmFree.
From S2P Require Import ProcVm Spinlock Proc ProcOps ProcMem ProcFork.

Section memory.
Context `{Layout, !LayoutOk}.

(** ** Strings of the kernel *)

(** A string at the start of a page that only the kernel uses. *)
Definition kstring (g : ghost) (m : memory) (a : Z) (str : list Z) : Prop :=
  private_page g a ∧ Z.of_nat (length str) < PGSIZE ∧ Forall (λ b, 0 < b < 256) str ∧
  load_bytes m a (Z.of_nat (length str) + 1) = str ++ [0].

Lemma kstring_byte g m a str i b : kstring g m a str → (str ++ [0]) !! i = Some b → m (a + Z.of_nat i) = b.
Proof. intros (_ & _ & _ & E) Hi. rewrite <-E in Hi. by apply lookup_load_bytes in Hi as [_ ->]. Qed.

Lemma kstring_strlen g m a str : kstring g m a str → strlen (Z.to_nat PGSIZE) m a = Some (Z.of_nat (length str)).
Proof.
  intros Hk. pose proof Hk as (_ & Hlen & Hnz & _). unfold strlen.
  assert (∀ d fuel n, (n + d = length str)%nat → (d < fuel)%nat → strlen_loop fuel m a (Z.of_nat n) = Some (Z.of_nat (length str))) as Hl.
  2: { apply (Hl (length str) _ 0%nat); [done|]. unfold PGSIZE in *. lia. }
  induction d as [|d IH]; intros [|fuel] n Hn Hf; [lia| |lia|]; cbn [strlen_loop].
  - assert (n = length str) as -> by lia. rewrite (kstring_byte g m a str _ 0 Hk) by (rewrite lookup_app_r, Nat.sub_diag; done). done.
  - destruct (lookup_lt_is_Some_2 str n ltac:(lia)) as [b Hb]. rewrite (kstring_byte g m a str n b Hk) by (by apply lookup_app_l_Some).
    rewrite Forall_forall in Hnz. specialize (Hnz b (list_elem_of_lookup_2 _ _ _ Hb)). rewrite (proj2 (Z.eqb_neq b 0)) by lia.
    replace (Z.of_nat n + 1) with (Z.of_nat (S n)) by lia. apply IH; lia.
Qed.

Lemma kstring_bytes g m a str : kstring g m a str → are_bytes (str ++ [0]).
Proof. intros (_ & _ & Hnz & _). apply Forall_app_2; [|by repeat constructor]. eapply Forall_impl; [exact Hnz|]. simpl. lia. Qed.

(** ** Where the arguments go *)

Definition arg_at (sp : Z) (str : list Z) : Z := let a := sp - (Z.of_nat (length str) + 1) in a - a mod 16.
Fixpoint arg_ptrs (sp : Z) (strs : list (list Z)) : list Z :=
  match strs with [] => [] | str :: strs' => arg_at sp str :: arg_ptrs (arg_at sp str) strs' end.
Fixpoint args_sp (sp : Z) (strs : list (list Z)) : Z :=
  match strs with [] => sp | str :: strs' => args_sp (arg_at sp str) strs' end.

Lemma arg_at_bounds sp str : arg_at sp str + Z.of_nat (length str) + 1 ≤ sp ∧ arg_at sp str mod 16 = 0 ∧ sp - Z.of_nat (length str) - 17 < arg_at sp str.
Proof. unfold arg_at. cbv zeta. dlia. Qed.

Lemma arg_ptrs_length sp strs : length (arg_ptrs sp strs) = length strs.
Proof. revert sp. induction strs as [|str strs IH]; intros sp; simpl; [done|]. by rewrite IH. Qed.

(** Pieces of the stack [sp, top) of [r], with what is there. *)
Record stacked (r sp top : Z) (items : list (Z * list Z)) (g : ghost) (s s' : kmem) : Prop := {
  st_v : vinv g s';
  st_ptes r' v : r' ∈ roots g → 0 ≤ v < VPAGES → upte s' r' v = upte s r' v;
  st_reads r' va : r' ∈ roots g → 0 ≤ va < MAXVA → ¬ (r' = r ∧ sp ≤ va < top) → uread s' r' va = uread s r' va;
  st_items : Forall (λ it, sp ≤ it.1 ∧ it.1 + Z.of_nat (length it.2) ≤ top ∧ reads_at s' r it.1 it.2) items;
  st_page q x : private_page g q → q ≤ x < q + PGSIZE → mem s' x = mem s x;
}.

Lemma stacked_start r top g s : vinv g s → stacked r top top [] g s s.
Proof. intros V. by split. Qed.

Lemma put_reads_at r lo bs g s s' : r ∈ roots g → 0 ≤ lo → lo + Z.of_nat (length bs) ≤ MAXVA → put r lo bs g s s' → reads_at s' r lo bs.
Proof.
  intros Hr Hlo Hhi P k b Hb. pose proof (lookup_lt_Some _ _ _ Hb). split; [lia|]. rewrite (put_reads _ _ _ _ _ _ P) by (done || lia).
  rewrite decide_True by (split; [done|lia]). rewrite <-Hb. f_equal. lia.
Qed.

Lemma stacked_push r sp top items lo bs g s s1 s2 :
  r ∈ roots g → 0 ≤ lo → lo + Z.of_nat (length bs) ≤ sp → sp ≤ top → top ≤ MAXVA →
  stacked r sp top items g s s1 → put r lo bs g s1 s2 → stacked r lo top (items ++ [(lo, bs)]) g s s2.
Proof.
  intros Hr Hlo Hsp Htop Hmax [a1 a2 a3 a4 a5] P. pose proof P as [c1 c2 c3 c4]. split; [done| | | |].
  - intros. by rewrite c2, a2.
  - intros r' va Hr' Hva Hn. rewrite c3 by done. rewrite decide_False by naive_solver lia. apply a3; [done..|naive_solver lia].
  - apply Forall_app_2; [|apply Forall_singleton; cbn [fst snd]; split_and!; [lia|lia|]; apply (put_reads_at r lo bs g s1); done || lia].
    eapply Forall_impl; [exact a4|]. intros [x b] (H1 & H2 & H3). cbn [fst snd] in *. split_and!; [lia|done|].
    intros k y Hy. destruct (H3 k y Hy) as [H4 H5]. split; [done|]. pose proof (lookup_lt_Some _ _ _ Hy). rewrite c3 by (done || lia).
    rewrite decide_False by lia. done.
  - intros q x Hq Hx. by rewrite (c4 q), (a5 q).
Qed.

Lemma kstring_stacked r sp top items g s s' a str :
  stacked r sp top items g s s' → kstring g (mem s) a str → kstring g (mem s') a str.
Proof.
  intros St (Hp & Hl & Hn & E). split_and!; [done..|]. rewrite <-E. unfold load_bytes. apply list_fmap_ext.
  intros k x [-> Hk]%lookup_seq. apply (st_page _ _ _ _ _ _ _ St a); [done|]. lia.
Qed.
End memory.

(** ** The guard page *)

Section guard.
Context `{Layout, !LayoutOk}.

Definition stack_perm : Z := Z.lor (Z.lor PTE_R PTE_U) PTE_W.

Lemma clear_user p : paddr p → Z.land (mk_pte p stack_perm) (Z.lnot PTE_U) = mk_pte p (Z.lor PTE_R PTE_W).
Proof.
  intros Hp. unfold mk_pte. rewrite !Z.land_lor_distr_l. change (Z.land stack_perm (Z.lnot PTE_U)) with (Z.lor PTE_R PTE_W).
  change (Z.land PTE_V (Z.lnot PTE_U)) with PTE_V. do 2 f_equal. rewrite PA2PTE_eq by done. apply Z.bits_inj'. intros k Hk.
  rewrite Z.land_spec, Z.lnot_spec by done. destruct (decide (k = 4)) as [->|Hn]; [change 1024 with (2 ^ 10); by rewrite Z.mul_pow2_bits_low by lia|].
  change PTE_U with (Z.shiftl 1 4). rewrite Z.shiftl_1_l, Z.pow2_bits_false by lia. by rewrite andb_true_r.
Qed.

(** The user cannot reach the page any more; everything else stays. *)
Record cleared_page (r v : Z) (g : ghost) (s s' : kmem) : Prop := {
  cg_v : vinv g s';
  cg_ptes r' v' : r' ∈ roots g → 0 ≤ v' < VPAGES → (r', v') ≠ (r, v) → upte s' r' v' = upte s r' v';
  cg_valid : has (upte s' r v) PTE_V = true;
  cg_user : has (upte s' r v) PTE_U = false;
  cg_data q x : own g q = OData → q ≤ x < q + PGSIZE → mem s' x = mem s x;
}.

Lemma wp_uvmclear g s r v p Q :
  vinv g s → r ∈ roots g → 0 ≤ v < UPAGES → upte s r v = mk_pte p stack_perm → own g p = OData → refs g p = {[(r, v)]} → kref g p = 0 →
  (∀ s', cleared_page r v g s s' → Q tt s') → wp (uvmclear r (v * PGSIZE)) s Q.
Proof.
  intros V Hr Hv Ee Ho Hrf Hk HQ. pose proof (upage_va v Hv) as Hva. assert (page_ok p) as Hpp by (by eapply own_OData_page, Ho; apply V).
  pose proof (page_ok_paddr _ Hpp) as Hpa. assert (user_perm stack_perm ∧ user_perm (Z.lor PTE_R PTE_W)) as [Hu1 Hu2] by done.
  assert (has (upte s r v) PTE_V = true) as HV by (rewrite Ee; by apply mk_pte_V).
  assert (slot 2 (mem s) r (v * PGSIZE) ≠ 0) as Hs by (by apply slot_valid).
  unfold uvmclear. apply wp_bind, wp_walk; [lia|]. rewrite (proj2 (Z.eqb_neq _ _) Hs). unfold read64. apply wp_bind, wp_gets.
  assert (load64 (mem s) (slot 2 (mem s) r (v * PGSIZE)) = upte s r v) as -> by (unfold upte, pte_at; by rewrite (proj2 (Z.eqb_neq _ _) Hs)).
  rewrite Ee, clear_user by done. unfold write64. apply wp_modify. set (e := mk_pte p (Z.lor PTE_R PTE_W)). fold (set_pte r (v * PGSIZE) e s).
  assert (0 ≤ e < 2 ^ 64) as He by (by apply mk_pte_range). assert (has e PTE_V = true) as HeV by (by apply mk_pte_V).
  assert (∀ r' v', r' ∈ roots g → 0 ≤ v' < VPAGES → upte (set_pte r (v * PGSIZE) e s) r' v' = upd2 (upte s) r v e r' v') as EP.
  { intros r' v' Hr' Hv'. by apply (set_pte_ext g s V). }
  apply HQ. split.
  - apply (vinv_protect g s V); try done; [unfold e; rewrite Ee; by rewrite !mk_pte_pa|]. intros _. unfold e. by rewrite mk_pte_pa.
  - intros r' v' Hr' Hv' Hne. rewrite EP by done. by rewrite upd2_ne by congruence.
  - rewrite EP by (done || by apply upage_vpage). by rewrite upd2_eq.
  - rewrite EP by (done || by apply upage_vpage). rewrite upd2_eq. unfold e. by rewrite fresh_entry.
  - intros q x Hq Hx. apply (set_pte_data g s r (v * PGSIZE) e q); try done; [apply V|by apply (root_label _ _ V)].
Qed.

(** ** What the other processes see *)

Lemma preserves_grown r lo hi g s g' s' :
  vinv g s → vinv g' s' → grown r lo hi stack_perm g s g' s' → preserves {[r]} g s g' s'.
Proof.
  intros V V' G. pose proof (gw_stable _ _ _ _ _ _ _ _ G) as S. split.
  - intros r' Hr' _. by rewrite (sb_roots _ _ _ _ S).
  - intros r' va Hr' Hne%not_elem_of_singleton Hva. rewrite (grown_reads r lo hi stack_perm g s g') by done. by rewrite decide_False by naive_solver.
  - intros r' v Hr' Hne%not_elem_of_singleton Hv. rewrite (gw_ptes _ _ _ _ _ _ _ _ G); [done|by apply (root_label _ _ V)|by apply vpage_va|naive_solver].
  - intros q Hq _. by apply (stable_private g s g' s').
Qed.

Lemma preserves_undo r lo hi g s g' s' : vinv g s → undone r lo hi g s g' s' → preserves {[r]} g s g' s'.
Proof.
  intros V [u1 u2 u3 u4 u5 u6]. split.
  - intros r' Hr' _. by rewrite u1.
  - intros r' va Hr' _ Hva. by apply u2.
  - intros r' v Hr' Hne%not_elem_of_singleton Hv. rewrite u4; [done|by apply (root_label _ _ V)|by apply vpage_va|naive_solver].
  - intros q Hq _. by apply u6.
Qed.

Lemma cleared_reads r v g s s' r' va : vinv g s → cleared_page r v g s s' → r' ∈ roots g → 0 ≤ va < MAXVA → (r', va / PGSIZE) ≠ (r, v) → uread s' r' va = uread s r' va.
Proof.
  intros V [c1 c2 c3 c4 c5] Hr' Hva Hne. pose proof (va_vpage va Hva) as Hv.
  eapply (uread_same g s _ _ _ _ _ V Hr' Hva eq_refl); [by apply c2|done|done|]. intros Hu HV k Hk.
  destruct (ri_leaf _ _ _ (vi_r _ _ V) r' _ Hr' Hu HV) as [Ho _]. apply (c5 _ _ Ho). lia.
Qed.

Lemma preserves_cleared_page r v g s s' : vinv g s → cleared_page r v g s s' → preserves {[r]} g s g s'.
Proof.
  intros V C. pose proof C as [c1 c2 c3 c4 c5]. split.
  - done.
  - intros r' va Hr' Hne%not_elem_of_singleton Hva. apply (cleared_reads r v g); try done. congruence.
  - intros r' v' Hr' Hne%not_elem_of_singleton Hv. rewrite c2; [done..|congruence].
  - intros q Hq _. split; [done|]. intros x Hx. apply (c5 q); [apply Hq|done].
Qed.

Lemma preserves_stacked r sp top items g s s' : stacked r sp top items g s s' → preserves {[r]} g s g s'.
Proof.
  intros [s1 s2 s3 s4 s5]. split.
  - done.
  - intros r' va Hr' Hne%not_elem_of_singleton Hva. apply s3; [done..|naive_solver].
  - intros r' v' Hr' _ Hv. by rewrite s2.
  - intros q Hq _. split; [done|]. intros x Hx. by apply (s5 q).
Qed.

Lemma preserves_step r g s g1 s1 g2 s2 : preserves {[r]} g s g1 s1 → preserves {[r]} g1 s1 g2 s2 → preserves {[r]} g s g2 s2.
Proof. intros P1 P2. eapply preserves_trans; [exact P1|exact P2|]. auto. Qed.

(** ** The address space before the switch *)

(** Table [r], with an image of [n] pages, a guard page and a page of stack that
    has the [items]. *)
Record built (r n : Z) (items : list (Z * list Z)) (g : ghost) (s : kmem) (g' : ghost) (s' : kmem) : Prop := {
  b_v : vinv g' s';
  b_roots : roots g' = roots g;
  b_pres : preserves {[r]} g s g' s';
  b_top : topped s' r ((n + 2) * PGSIZE);
  b_image va : 0 ≤ va < n * PGSIZE → uread s' r va = uread s r va;
  b_guard va : n * PGSIZE ≤ va < (n + 1) * PGSIZE → uread s' r va = None;
  b_items : Forall (λ it, (n + 1) * PGSIZE ≤ it.1 ∧ it.1 + Z.of_nat (length it.2) ≤ (n + 2) * PGSIZE ∧ reads_at s' r it.1 it.2) items;
}.

Lemma stacked_built r n sp items g m g1 m1 m2 m3 :
  vinv g m → vinv g1 m1 → r ∈ roots g → 0 ≤ n → n + 2 ≤ UPAGES → topped m r (n * PGSIZE) →
  grown r n (n + 2) stack_perm g m g1 m1 → cleared_page r n g1 m1 m2 → stacked r sp ((n + 2) * PGSIZE) items g1 m2 m3 → (n + 1) * PGSIZE ≤ sp →
  built r n items g m g1 m3.
Proof.
  intros V V1 Hr Hn Hmax Htop G C St Hsp. pose proof (sb_roots _ _ _ _ (gw_stable _ _ _ _ _ _ _ _ G)) as Er.
  assert (r ∈ roots g1) as Hr1 by (by rewrite Er). assert (UPAGES * PGSIZE < MAXVA) as Hm by (by vm_compute). assert (UPAGES < VPAGES) as Huv by (by vm_compute).
  assert (0 < PGSIZE) as HP by done. split.
  - apply St.
  - done.
  - eapply preserves_step; [by eapply preserves_grown|]. eapply preserves_step; [by eapply preserves_cleared_page|by eapply preserves_stacked].
  - intros v Hv. rewrite npg_page in Hv by lia. rewrite (st_ptes _ _ _ _ _ _ _ St) by (done || lia).
    rewrite (cg_ptes _ _ _ _ _ C) by (done || lia || (intros [= ->]; lia)).
    rewrite (gw_ptes _ _ _ _ _ _ _ _ G); [|by apply (root_label _ _ V)|apply upage_va; lia|lia]. apply Htop. rewrite npg_page by lia. lia.
  - intros va Hva. assert (va / PGSIZE < n) by (unfold PGSIZE in *; dlia). assert (va < MAXVA) by (unfold PGSIZE in *; lia).
    rewrite (st_reads _ _ _ _ _ _ _ St) by (done || lia). rewrite (cleared_reads r n g1 m1 m2) by (done || lia || (intros [= E]; lia)).
    rewrite (grown_reads r n (n + 2) stack_perm g m g1) by (done || lia). by rewrite decide_False by lia.
  - intros va Hva. assert (va / PGSIZE = n) as Ev by (unfold PGSIZE in *; dlia). assert (0 ≤ va < MAXVA) by (unfold PGSIZE in *; lia).
    rewrite (st_reads _ _ _ _ _ _ _ St) by (done || lia). rewrite uread_eq, Ev. cbv zeta. by rewrite (cg_user _ _ _ _ _ C), andb_false_r.
  - eapply Forall_impl; [apply St|]. intros [a b] (Ha1 & Ha2 & Ha3). cbn [fst snd] in *. split_and!; [lia|done|done].
Qed.
End guard.

Section exec.
Context `{Layout, !LayoutOk, Switch fs, Patience}.

Definition with_nul (str : list Z) : list Z := str ++ [0].

(** The stack of the new image: [base, top) of table [r], where every page can be written. *)
Record stack_ok (r base top : Z) (g : ghost) (m : kmem) : Prop := {
  so_root : r ∈ roots g;
  so_base : PGSIZE ≤ base ≤ top;
  so_top : top ≤ TRAPFRAME;
  so_write va : base ≤ va < top → writable m r (va / PGSIZE);
}.

Lemma wp_stack_copy up r base top g m items sp lo bs (s : K) Q :
  stack_ok r base top g m → stacked r sp top items g m (mach s) → base ≤ lo → lo + Z.of_nat (length bs) ≤ sp → sp ≤ top → are_bytes bs →
  (∀ m', stacked r lo top (items ++ [(lo, bs)]) g m m' → Q 0 (set_mach m' s)) →
  wp (on_mem (copyout up r lo bs)) s Q.
Proof.
  intros [o1 o2 o3 o4] St Hlo Hsp Htop Hb HQ. assert (TRAPFRAME ≤ MAXVA) by (by vm_compute). assert (0 < PGSIZE) by done.
  apply wp_zoom, (wp_copyout_put up r g); [apply St|done|lia|done| |].
  - intros va Hva. destruct (o4 va) as (Hv & Hw); [lia|]. unfold writable. rewrite (st_ptes _ _ _ _ _ _ _ St) by (done || by apply upage_vpage). done.
  - intros m' P. apply HQ. eapply stacked_push; [done|lia|exact Hsp|done|lia|exact St|exact P].
Qed.

(** The arguments fit: they are not too many, and none lies below the stack. *)
Definition args_fit (base sp : Z) (n : nat) (strs : list (list Z)) : Prop :=
  Z.of_nat (n + length strs) ≤ MAXARG ∧ Forall (λ a, base ≤ a) (arg_ptrs sp strs).

Lemma wp_push_args i p r base top g m argv strs sp us items (s : K) Q :
  stack_ok r base top g m → stacked r sp top items g m (mach s) → Forall2 (kstring g (mem m)) argv strs → procs s !! i = Some p →
  base ≤ sp ≤ top → Z.of_nat (length us) ≤ MAXARG →
  (∀ m' sp' items', ¬ args_fit base sp (length us) strs → stacked r sp' top items' g m m' → base ≤ sp' → Q None (set_mach m' s)) →
  (∀ m', args_fit base sp (length us) strs →
     stacked r (args_sp sp strs) top (items ++ zip (arg_ptrs sp strs) (with_nul <$> strs)) g m m' →
     base ≤ args_sp sp strs ≤ top → Q (Some (args_sp sp strs, us ++ arg_ptrs sp strs)) (set_mach m' s)) →
  wp (push_args i argv r base sp us) s Q.
Proof.
  intros So St Ha. revert sp us items s Q St. induction Ha as [|a str argv strs Hk Hks IH]; intros sp us items s Q St Hp Hsp Hus Hno Hyes; cbn [push_args].
  - apply wp_ret. specialize (Hyes (mach s)). cbn [arg_ptrs args_sp zip_with fmap list_fmap] in Hyes. rewrite !app_nil_r in Hyes.
    replace s with (set_mach (mach s) s) by (by destruct s). apply Hyes; [split; [simpl; lia|constructor]|done|done].
  - assert (s = set_mach (mach s) s) as Es by (by destruct s). destruct (Z.leb_spec MAXARG (Z.of_nat (length us))) as [Hm|Hm].
    { apply wp_ret. rewrite Es. apply (Hno _ sp items); [|done|lia]. intros [Hl _]. simpl in Hl. lia. }
    apply wp_bind, wp_zoom, wp_gets. rewrite <-Es. pose proof (kstring_stacked _ _ _ _ _ _ _ _ _ St Hk) as Hk'.
    rewrite (kstring_strlen _ _ _ _ Hk'). pose proof (arg_at_bounds sp str) as (Hb1 & Hb2 & Hb3). destruct So as [o1 o2 o3 o4] eqn:ESo. clear ESo.
    assert (TRAPFRAME < 2 ^ 64) as Htf by (by vm_compute). destruct Hk as (_ & Hlen & _).
    rewrite u64_small by lia. fold (arg_at sp str). cbv zeta. destruct (Z.ltb_spec (arg_at sp str) base) as [Hlt|Hge].
    { apply wp_ret. rewrite Es. apply (Hno _ sp items); [|done|lia]. intros [_ Hf]. inversion_clear Hf. lia. }
    apply wp_bind, (wp_pget i p); [done|]. apply wp_bind.
    assert (load_bytes (mem (mach s)) a (Z.of_nat (length str) + 1) = with_nul str) as -> by (by apply Hk').
    apply (wp_stack_copy _ r base top g m items sp); [done|done|done|unfold with_nul; rewrite length_app; simpl; lia|lia|by eapply kstring_bytes|].
    intros m1 St1. cbn [Z.ltb Z.compare].
    apply (IH (arg_at sp str) (us ++ [arg_at sp str]) (items ++ [(arg_at sp str, with_nul str)])); [done|done|lia|rewrite length_app; simpl; lia|..].
    + intros m' sp' items' Hf St' Hs'. apply (Hno m' sp' items'); [|done|done]. intros [Hl Hf']. apply Hf. inversion_clear Hf'.
      split; [|done]. rewrite length_app. simpl in *. lia.
    + intros m' [Hl Hf] St' Hs'. rewrite length_app in Hl. rewrite <-!app_assoc in *. apply (Hyes m'); [|exact St'|done].
      split; [simpl in *; lia|by constructor].
Qed.

(** ** The switch *)

(** The registers that exec sets in the trapframe. *)
Definition exec_frame (m : memory) (tf sp entry : Z) : memory :=
  store64 (store64 (store64 m (tf + TF_A0 + 8) sp) (tf + TF_EPC) entry) (tf + TF_SP) sp.

Lemma exec_frame_page g m tf sp entry :
  vinv g m → private_page g tf →
  let m' := set_mem (exec_frame (mem m) tf sp entry) m in vinv g m' ∧ preserves {[tf]} g m g m'.
Proof.
  intros V Hp. apply preserves_write; [done|done|do 3 apply bytes_ok_store64; apply V|].
  intros x Hx. unfold exec_frame, store64, store_le, TF_A0, TF_EPC, TF_SP, PGSIZE in *. mem_cases; done || lia.
Qed.

Lemma exec_frame_regs m tf sp entry : 0 ≤ sp < 2 ^ 64 → 0 ≤ entry < 2 ^ 64 →
  let m' := exec_frame m tf sp entry in
  load64 m' (tf + TF_SP) = sp ∧ load64 m' (tf + TF_EPC) = entry ∧ load64 m' (tf + TF_A0 + 8) = sp.
Proof.
  intros Hs He. unfold exec_frame, load64, store64, TF_A0, TF_EPC, TF_SP. split_and!; rewrite ?load_store_other by lia; by rewrite load_store_same.
Qed.

Definition exec_proc (path : list Z) (r top : Z) (p : proc) : proc :=
  set_sz top (set_pagetable r (set_name (copy_name (name p) (last_elem path path)) p)).

Lemma wp_exec_commit i p path r top sp entry argc (s : K) Q :
  procs s !! i = Some p →
  wp (proc_freepagetable (pagetable p) (sz p)) (set_mem (exec_frame (mem (mach s)) (trapframe p) sp entry) (mach s))
    (λ _ m', Q (s32 argc) (with_proc i (exec_proc path r top p) (set_mach m' s))) →
  wp (exec_commit i path r top sp (sz p) entry argc) s Q.
Proof.
  intros Hp HQ. pose proof (lookup_lt_Some _ _ _ Hp) as Hi. unfold exec_commit. apply wp_bind, (wp_pget i p); [done|].
  apply wp_bind, wp_zoom, wp_modify. apply wp_bind, (wp_pset i p); [done|]. apply wp_bind. eapply wp_pget; [by apply with_proc_lookup|].
  do 2 (apply wp_bind, wp_pset_next; [done|]). do 2 (apply wp_bind, wp_zoom, wp_modify). apply wp_bind, wp_zoom.
  eapply wp_mono; [exact HQ|]. intros u m' HQ'. apply wp_ret. exact HQ'.
Qed.

(** The invariant of the process table when only a table or page [r], which no
    process has, changed or went. *)
Lemma pinv_aside r g (s : K) g' m' :
  pinv g s → (∀ j q, procs s !! j = Some q → used q → pagetable q ≠ r ∧ trapframe q ≠ r) →
  vinv g' m' → preserves {[r]} g (mach s) g' m' → pinv g' (set_mach m' s).
Proof.
  intros I Hr V' P. pose proof I as [a1 a2 a3 a4 a5 a6 a7 a8 a9]. split; try done.
  intros j q Hq Huq. change (procs s !! j = Some q) in Hq. pose proof (a2 j q Hq Huq) as S. destruct (Hr j q Hq Huq).
  apply (space_preserved {[r]} g (mach s)); [done|done| |]; by apply not_elem_of_singleton.
Qed.

(** The invariant when process [i] has moved to table [r]. *)
Lemma pinv_moved i p r g (s : K) g' m' p' :
  pinv g s → procs s !! i = Some p → used p → (∀ j q, procs s !! j = Some q → used q → pagetable q ≠ r) → r ∈ roots g →
  vinv g' m' → preserves {[r; trapframe p; pagetable p]} g (mach s) g' m' → space g' m' p' →
  pagetable p' = r → trapframe p' = trapframe p → pid p' = pid p → state p' = state p → ofile p' = ofile p →
  pinv g' (with_proc i p' (set_mach m' s)).
Proof.
  intros I Hp Hup Hr Hrr V' P Sp E1 E2 E3 E4 E5. pose proof (lookup_lt_Some _ _ _ Hp) as Hi. assert (used p' ↔ used p) as Hu by (unfold used; by rewrite E4).
  assert (∀ j q, procs (with_proc i p' (set_mach m' s)) !! j = Some q → j = i ∧ q = p' ∨ j ≠ i ∧ procs s !! j = Some q) as Hcase.
  { intros j q. simpl. destruct (decide (j = i)) as [->|].
    - rewrite list_lookup_insert_eq by done. naive_solver.
    - rewrite list_lookup_insert_ne by done. naive_solver. }
  pose proof (pi_v _ _ I) as V. destruct (pi_space _ _ I i p Hp Hup) as [q1 [q2 _] _ _]. pose proof (root_label _ _ V _ q1). pose proof (root_label _ _ V _ Hrr).
  pose proof I as [a1 a2 a3 a4 a5 a6 a7 a8 a9]. split; try done.
  - intros j q [[-> ->]|[Hne Hq]]%Hcase Huq; [done|]. pose proof (a2 j q Hq Huq) as S. pose proof S as [b1 [b2 _] _ _].
    pose proof (root_label _ _ V _ b1). pose proof (a5 j i q p Hne Hq Hp Huq Hup). pose proof (a6 j i q p Hne Hq Hp Huq Hup). pose proof (Hr j q Hq Huq).
    apply (space_preserved {[r; trapframe p; pagetable p]} g (mach s)); [done|done|set_unfold; naive_solver congruence..].
  - intros j q [[-> ->]|[Hne Hq]]%Hcase Huq; [by destruct Huq; apply Hu|by eapply a3].
  - intros j q [[-> ->]|[Hne Hq]]%Hcase; [|by eapply a4]. unfold used. rewrite E4, E5. by apply (a4 i p).
  - intros j k q q' Hne [[-> ->]|[Hj Hq]]%Hcase [[-> ->]|[Hk Hq']]%Hcase Huq Huq'; try done; [rewrite E1; intros E; by eapply (Hr k q')|rewrite E1; by eapply Hr|by apply (a5 j k)].
  - intros j k q q' Hne [[-> ->]|[Hj Hq]]%Hcase [[-> ->]|[Hk Hq']]%Hcase Huq Huq'; try done; [rewrite E2; by apply (a6 i k)|rewrite E2; by apply (a6 j i)|by apply (a6 j k)].
  - intros j q [[-> ->]|[Hne Hq]]%Hcase Huq; [rewrite E3; by apply (a8 i p)|by eapply a8].
  - intros j k q q' Hne [[-> ->]|[Hj Hq]]%Hcase [[-> ->]|[Hk Hq']]%Hcase Huq Huq'; try done; [rewrite E3; by apply (a9 i k)|rewrite E3; by apply (a9 j i)|by apply (a9 j k)].
Qed.

Lemma wp_exec_bad r size g (s : K) Q :
  vinv g (mach s) → r ∈ roots g → 0 ≤ size ≤ TRAPFRAME → topped (mach s) r size →
  (∀ g' m', vinv g' m' → freed r g (mach s) g' m' → Q (-1) (set_mach m' s)) → wp (exec_bad r size None) s Q.
Proof.
  intros V Hr Hs Ht HQ. unfold exec_bad. assert (r ≠ 0) as Hr0 by (eapply (nonzero_page g (mach s)); [done|by rewrite (root_label _ _ V r Hr)]).
  rewrite (proj2 (Z.eqb_neq _ _) Hr0). cbn [negb]. apply wp_bind, wp_zoom, (wp_proc_freepagetable g); [done..|].
  intros g' m' V' F. apply wp_bind, wp_ret, wp_ret. by apply (HQ g').
Qed.

(** Process [i] runs the new image: its table, size and name are new and the old
    table is gone; its registers are set; the image is there, the guard page cannot
    be reached, and on the stack are the strings and the array of their addresses
    with a null pointer at its end. *)
Record exec_done (i : nat) (p : proc) (path : list Z) (r n sp entry : Z) (strs : list (list Z)) (g : ghost) (s : K) (g' : ghost) (s' : K) : Prop := {
  ed_procs : procs s' = <[i := exec_proc path r ((n + 2) * PGSIZE) p]> (procs s);
  ed_others : preserves {[r; trapframe p; pagetable p]} g (mach s) g' (mach s');
  ed_old : pagetable p ∉ roots g';
  ed_sp : load64 (mem (mach s')) (trapframe p + TF_SP) = sp;
  ed_epc : load64 (mem (mach s')) (trapframe p + TF_EPC) = entry;
  ed_a1 : load64 (mem (mach s')) (trapframe p + TF_A0 + 8) = sp;
  ed_align : sp mod 16 = 0;
  ed_image va : 0 ≤ va < n * PGSIZE → uread (mach s') r va = uread (mach s) r va;
  ed_guard va : n * PGSIZE ≤ va < (n + 1) * PGSIZE → uread (mach s') r va = None;
  ed_argv : reads_at (mach s') r sp (concat (map (le_bytes 8) (arg_ptrs ((n + 2) * PGSIZE) strs ++ [0])));
  ed_args : Forall2 (λ a str, reads_at (mach s') r a (with_nul str)) (arg_ptrs ((n + 2) * PGSIZE) strs) strs;
}.

Lemma Forall_zip {A B C} (R : A → C → Prop) (f : B → C) (l : list A) (k : list B) :
  length l = length k → Forall (λ it, R it.1 it.2) (zip l (f <$> k)) → Forall2 (λ a b, R a (f b)) l k.
Proof.
  revert k. induction l as [|a l IH]; intros [|b k] Hl Hf; simplify_eq/=; [constructor|]. inversion_clear Hf. constructor; [done|]. by apply IH.
Qed.

Lemma reads_at_same r m m' lo bs :
  0 ≤ lo → (∀ va, 0 ≤ va < MAXVA → uread m' r va = uread m r va) → reads_at m r lo bs → reads_at m' r lo bs.
Proof. intros Hlo Hm Hb k x Hx. destruct (Hb k x Hx). split; [done|]. by rewrite Hm by lia. Qed.

(** The switch, once the new address space is built. *)
Lemma built_done i p path r n sp entry strs g (s : K) g1 m1 Q :
  let top := (n + 2) * PGSIZE in let ptrs := arg_ptrs top strs in
  pinv g s → procs s !! i = Some p → used p → r ∈ roots g → (∀ j q, procs s !! j = Some q → used q → pagetable q ≠ r) →
  0 ≤ n → n + 2 ≤ UPAGES → 0 ≤ entry < 2 ^ 64 → 0 ≤ sp < 2 ^ 64 → sp mod 16 = 0 →
  built r n (zip ptrs (with_nul <$> strs) ++ [(sp, concat (map (le_bytes 8) (ptrs ++ [0])))]) g (mach s) g1 m1 →
  (∀ g' m', let s' := with_proc i (exec_proc path r top p) (set_mach m' s) in
     pinv g' s' → exec_done i p path r n sp entry strs g s g' s' → Q (s32 (Z.of_nat (length strs))) s') →
  wp (exec_commit i path r top sp (sz p) entry (Z.of_nat (length strs))) (set_mach m1 s) Q.
Proof.
  intros top ptrs I Hp Hup Hr Hrn Hn Hmax He Hsp Hal B HQ. pose proof (pi_v _ _ I) as V. pose proof (pi_space _ _ I i p Hp Hup) as Sp.
  pose proof Sp as [q1 [q2 q2'] q3 q4]. pose proof (root_label _ _ V _ q1) as L1. pose proof (root_label _ _ V _ Hr) as L2. pose proof (Hrn i p Hp Hup) as Hne.
  destruct B as [b1 b2 b3 b4 b5 b6 b7].
  assert (space g1 m1 p) as Sp1 by (apply (space_preserved {[r]} g (mach s)); [done|done|set_solver|apply not_elem_of_singleton; congruence]).
  destruct (exec_frame_page g1 m1 (trapframe p) sp entry b1 (sp_frame _ _ _ Sp1)) as [V2 P2]. set (m2 := set_mem (exec_frame (mem m1) (trapframe p) sp entry) m1) in *.
  assert (r ≠ trapframe p ∧ pagetable p ≠ trapframe p) as [Hn1 Hn2] by (split; congruence).
  assert (r ∈ roots g1) as Hr1 by (by rewrite b2).
  assert (topped m2 (pagetable p) (sz p)) as Ht2.
  { intros v Hv. pose proof (npg_range _ q3). rewrite (pv_valid _ _ _ _ _ P2); [by apply (sp_top _ _ _ Sp1)|apply Sp1|set_solver|apply upage_vpage; lia]. }
  apply (wp_exec_commit i p); [done|]. apply (wp_proc_freepagetable g1); [done|apply Sp1|done|done|]. intros g3 m3 V3 F.
  pose proof (preserves_freed _ _ _ _ _ V2 V3 F) as P3. destruct (pv_page _ _ _ _ _ P3 (trapframe p)) as [Hf3 Hm3]; [apply Sp1|set_solver|].
  assert (r ∉ ({[pagetable p]} : gset Z)) as Hd1 by set_solver. assert (r ∉ ({[trapframe p]} : gset Z)) as Hd2 by set_solver.
  assert (∀ va, 0 ≤ va < MAXVA → uread m3 r va = uread m1 r va) as Hread.
  { intros va Hva. by rewrite (pv_reads _ _ _ _ _ P3 r va Hr1 Hd1 Hva), (pv_reads _ _ _ _ _ P2 r va Hr1 Hd2 Hva). }
  set (D := {[r; trapframe p; pagetable p]} : gset Z). assert (preserves D g (mach s) g3 m3) as P.
  { apply (preserves_trans D {[r]} g (mach s) g (mach s) g1 m1) in b3; [|apply preserves_refl|set_solver].
    eapply preserves_trans; [|exact P3|set_solver]. eapply preserves_trans; [exact b3|exact P2|set_solver]. }
  assert (0 < PGSIZE) as HP by done. assert ((n + 2) * PGSIZE ≤ TRAPFRAME) as Htop by (by apply upage_size).
  assert (space g3 m3 (exec_proc path r top p)) as Sp3.
  { split; cbn [pagetable trapframe sz exec_proc set_sz set_pagetable set_name].
    - rewrite (fd_roots _ _ _ _ _ F). set_solver.
    - exact Hf3.
    - lia.
    - intros v Hv. pose proof (npg_range top ltac:(lia)). assert (0 ≤ v < VPAGES) as Hvp by (apply upage_vpage; lia).
      rewrite (pv_valid _ _ _ _ _ P3 r v Hr1 Hd1 Hvp), (pv_valid _ _ _ _ _ P2 r v Hr1 Hd2 Hvp). by apply b4. }
  destruct (exec_frame_regs (mem m1) (trapframe p) sp entry Hsp He) as (R1 & R2 & R3).
  assert (∀ k, 0 ≤ k → k + 8 ≤ PGSIZE → load64 (mem m3) (trapframe p + k) = load64 (mem m2) (trapframe p + k)) as Hld.
  { intros k Hk1 Hk2. apply load_le_ext. intros x Hx. apply Hm3. lia. }
  apply Forall_app in b7 as [b7 b8]. apply Forall_singleton in b8 as (c1 & c2 & c3). cbn [fst snd] in *.
  apply (HQ g3 m3); [by apply (pinv_moved i p r g)|]. split; cbn [procs mach with_proc set_procs set_mach].
  - done.
  - exact P.
  - rewrite (fd_roots _ _ _ _ _ F). set_solver.
  - rewrite Hld by done. exact R1.
  - rewrite Hld by done. exact R2.
  - rewrite <-Z.add_assoc, Hld by done. rewrite Z.add_assoc. exact R3.
  - done.
  - intros va Hva. assert (n * PGSIZE ≤ MAXVA) by (change TRAPFRAME with (MAXVA - 8192) in Htop; lia). rewrite Hread by lia. by apply b5.
  - intros va Hva. assert ((n + 1) * PGSIZE ≤ MAXVA) by (change TRAPFRAME with (MAXVA - 8192) in Htop; lia). rewrite Hread by lia. by apply b6.
  - apply (reads_at_same r m1); [lia|exact Hread|exact c3].
  - apply (Forall_zip (λ a b, reads_at m3 r a b)); [apply arg_ptrs_length|]. eapply Forall_impl; [exact b7|]. intros [a bs] (d1 & d2 & d3). cbn [fst snd] in *.
    apply (reads_at_same r m1); [lia|exact Hread|exact d3].
Qed.

(** Giving up. *)
Lemma wp_exec_undo r size g (s : K) g1 m1 Q :
  pinv g s → (∀ j q, procs s !! j = Some q → used q → pagetable q ≠ r) → r ∈ roots g →
  vinv g1 m1 → preserves {[r]} g (mach s) g1 m1 → r ∈ roots g1 → 0 ≤ size ≤ TRAPFRAME → topped m1 r size →
  (∀ g' m', pinv g' (set_mach m' s) → preserves {[r]} g (mach s) g' m' → r ∉ roots g' → Q (-1) (set_mach m' s)) →
  wp (exec_bad r size None) (set_mach m1 s) Q.
Proof.
  intros I Hrn Hr V1 P1 Hr1 Hs Ht HQ. apply (wp_exec_bad r size g1); [done..|]. intros g' m' V' F.
  assert (preserves {[r]} g (mach s) g' m') as P by (eapply preserves_step; [exact P1|by apply preserves_freed]).
  apply (HQ g' m'); [|done|rewrite (fd_roots _ _ _ _ _ F); set_solver].
  apply (pinv_aside r g s); [done| |done|done]. intros j q Hq Hu. split; [by eapply Hrn|].
  destruct (pi_space _ _ I j q Hq Hu) as [_ [Ho _] _ _]. pose proof (root_label _ _ (pi_v _ _ I) r Hr). congruence.
Qed.

Lemma ptr_bytes us : length (concat (map (le_bytes 8) us)) = (8 * length us)%nat ∧ are_bytes (concat (map (le_bytes 8) us)).
Proof.
  induction us as [|u us [IH1 IH2]]; [split; [done|constructor]|]. cbn [map concat]. split.
  - rewrite length_app, IH1. unfold le_bytes. rewrite length_map, length_seq. simpl. lia.
  - apply Forall_app_2; [|done]. apply Forall_forall. intros x (k & <- & _)%list_elem_of_In%in_map_iff. unfold byte_at. by apply Z.mod_pos_bound.
Qed.

(** The new address space, with the guard page and the stack in place. *)
Lemma grown_stack r n g m g1 m1 m2 argv strs :
  vinv g1 m1 → r ∈ roots g → 0 ≤ n → n + 2 ≤ UPAGES → grown r n (n + 2) stack_perm g m g1 m1 → cleared_page r n g1 m1 m2 →
  Forall2 (kstring g (mem m)) argv strs →
  stack_ok r ((n + 1) * PGSIZE) ((n + 2) * PGSIZE) g1 m2 ∧ Forall2 (kstring g1 (mem m2)) argv strs.
Proof.
  intros V1 Hr Hn Hmax G C Hk. pose proof (gw_stable _ _ _ _ _ _ _ _ G) as S. assert (r ∈ roots g1) as Hr1 by (by rewrite (sb_roots _ _ _ _ S)). split.
  - split; [done|unfold PGSIZE; lia|by apply upage_size|]. intros va Hva. assert (va / PGSIZE = n + 1) as -> by (unfold PGSIZE in *; dlia).
    destruct (gw_new _ _ _ _ _ _ _ _ G (n + 1) ltac:(lia)) as (q & E & Ho & _). assert (page_ok q) as Hq by (by eapply own_OData_page, Ho; apply V1).
    pose proof (page_ok_paddr q Hq) as Hpa. assert (upte m2 r (n + 1) = mk_pte q stack_perm) as E2.
    { rewrite (cg_ptes _ _ _ _ _ C); [done|done|apply upage_vpage; lia|intros [= ?]; lia]. }
    unfold writable. rewrite E2. split; [lia|]. split; [by apply mk_pte_V|]. rewrite has_U, has_W, has_COW, !mk_pte_bit by done. done.
  - eapply Forall2_impl; [exact Hk|]. intros a str (Hp & Hl & Hnz & E). destruct (stable_private g m g1 m1 a S Hp) as [Hp1 Hm1]. split_and!; [done..|].
    rewrite <-E. unfold load_bytes. apply list_fmap_ext. intros k x [-> Hkk]%lookup_seq. rewrite (cg_data _ _ _ _ _ C a) by (try lia; apply Hp1). apply Hm1. lia.
Qed.

(** What is left after the strings: the array of pointers, and the switch. *)
Lemma wp_exec_finish i p path r n entry strs g (s : K) g1 m1 m2 m3 Q :
  let top := (n + 2) * PGSIZE in let us := arg_ptrs top strs in let sp0 := args_sp top strs in
  pinv g s → procs s !! i = Some p → used p → r ∈ roots g → (∀ j q, procs s !! j = Some q → used q → pagetable q ≠ r) →
  0 ≤ n → n + 2 ≤ UPAGES → 0 ≤ entry < 2 ^ 64 → topped (mach s) r (n * PGSIZE) →
  vinv g1 m1 → grown r n (n + 2) stack_perm g (mach s) g1 m1 → cleared_page r n g1 m1 m2 → stack_ok r ((n + 1) * PGSIZE) top g1 m2 →
  Z.of_nat (length strs) ≤ MAXARG → stacked r sp0 top (zip us (with_nul <$> strs)) g1 m2 m3 → (n + 1) * PGSIZE ≤ sp0 ≤ top →
  (∀ g' m', pinv g' (set_mach m' s) → preserves {[r]} g (mach s) g' m' → r ∉ roots g' → Q (-1) (set_mach m' s)) →
  (∀ g' s' sp, pinv g' s' → exec_done i p path r n sp entry strs g s g' s' → Q (Z.of_nat (length strs)) s') →
  wp (let argc := Z.of_nat (length us) in
      let ustack := us ++ [0] in
      let sp := u64 (sp0 - (argc + 1) * 8) in
      let sp := sp - sp mod 16 in
      if sp <? (n + 1) * PGSIZE then exec_bad r top None else
      up ← pget i uproc_of;
      c ← on_mem (copyout up r sp (concat (map (le_bytes 8) ustack)));
      if c <? 0 then exec_bad r top None else
      exec_commit i path r top sp (sz p) entry argc) (set_mach m3 s) Q.
Proof.
  intros top us sp0 I Hp Hup Hr Hrn Hn Hmax He Ht V1 G C So Hl St Hsp Hno Hyes. cbv zeta. pose proof (pi_v _ _ I) as V.
  assert (0 < PGSIZE) as HP by done. assert (top ≤ TRAPFRAME) as Htop by (by apply upage_size). assert (TRAPFRAME < 2 ^ 62) as H62 by (by vm_compute).
  assert (length us = length strs) as -> by apply arg_ptrs_length. change MAXARG with 32 in Hl.
  rewrite (u64_small (sp0 - _)) by (unfold PGSIZE in *; lia). set (sp1 := sp0 - (Z.of_nat (length strs) + 1) * 8). set (sp := sp1 - sp1 mod 16).
  assert (sp mod 16 = 0 ∧ sp ≤ sp1) as [Hal Hle] by (unfold sp; clear; dlia). destruct (ptr_bytes (us ++ [0])) as [Hlen Hbytes].
  assert (length us = length strs) as Eus by apply arg_ptrs_length. rewrite length_app, Eus in Hlen. simpl in Hlen.
  destruct (Z.ltb_spec sp ((n + 1) * PGSIZE)) as [Hlt|Hge].
  - pose proof (stacked_built r n _ _ g (mach s) g1 m1 m2 m3 V V1 Hr Hn Hmax Ht G C St ltac:(lia)) as B.
    apply (wp_exec_undo r top g s g1 m3); [done|done|done|apply B|apply B|by rewrite (b_roots _ _ _ _ _ _ _ B)|unfold top in *; lia|apply B|done].
  - apply wp_bind, (wp_pget i p); [done|]. apply wp_bind, (wp_stack_copy _ r ((n + 1) * PGSIZE) top g1 m2 (zip us (with_nul <$> strs)) sp0); [done|done|done| |lia|done|].
    { rewrite Hlen. unfold sp1 in *. lia. }
    intros m4 St4. cbn [Z.ltb Z.compare]. change (set_mach m4 (set_mach m3 s)) with (set_mach m4 s).
    pose proof (stacked_built r n _ _ g (mach s) g1 m1 m2 m4 V V1 Hr Hn Hmax Ht G C St4 Hge) as B.
    apply (built_done i p path r n sp entry strs g s g1 m4); [done..|unfold sp1 in *; lia|done|exact B|].
    intros g' m' s' I' D. rewrite s32_small by lia. by apply (Hyes g' s' sp).
Qed.

(** C14. [exec], from the point where the program is loaded in a new table on: with
    the argument strings in pages of the kernel it returns -1 or the number of
    arguments, and the invariant that ties processes to memory holds.  On -1 the new
    table is gone and no process has changed.  Otherwise the process has moved to the
    new table, the old one is freed, the program is as it was loaded, the page
    below the stack cannot be reached, and the stack pointer, which is a multiple
    of 16 and also the second argument of main, is the address of an array of
    pointers to the strings, ended by a null pointer.  Nothing of any other process
    changes. *)
Theorem exec_builds_stack i p path r size entry argv strs g (s : K) :
  pinv g s → cpu_ok (kcpu s) → cproc s = Some i → procs s !! i = Some p → used p →
  r ∈ roots g → (∀ j q, procs s !! j = Some q → used q → pagetable q ≠ r) →
  0 ≤ size → size + 3 * PGSIZE ≤ TRAPFRAME → topped (mach s) r size → 0 ≤ entry < 2 ^ 64 →
  Forall2 (kstring g (mem (mach s))) argv strs →
  wp (exec_stack path argv r size entry) s (λ c s', ∃ g', pinv g' s' ∧
    (c = -1 ∧ procs s' = procs s ∧ preserves {[r]} g (mach s) g' (mach s') ∧ r ∉ roots g' ∨
     c = Z.of_nat (length strs) ∧ ∃ sp, exec_done i p path r (npg size) sp entry strs g s g' s')).
Proof.
  intros I Hc Hi Hp Hup Hr Hrn Hs0 Hs1 Ht He Hk. set (Q := λ c s', _). set (n := npg size). set (top := (n + 2) * PGSIZE).
  pose proof (npg_range size ltac:(unfold PGSIZE in *; lia)) as Hn. fold n in Hn.
  assert (0 < PGSIZE) as HP by done. assert (TRAPFRAME = UPAGES * PGSIZE) as Etf by done.
  assert (n + 2 ≤ UPAGES) as Hmax by (pose proof (proj1 (npg_lt size (n - 1) ltac:(lia))) as Hx; fold n in Hx; specialize (Hx ltac:(lia)); unfold PGSIZE in *; lia).
  assert (top ≤ TRAPFRAME) as Htop by (by apply upage_size). assert (TRAPFRAME < 2 ^ 62) as H62 by (by vm_compute). assert (npg (n * PGSIZE) = n ∧ npg top = n + 2) as [En1 En2] by (split; apply npg_page; lia).
  assert (topped (mach s) r (n * PGSIZE)) as Ht' by (intros v Hv; apply Ht; fold n; lia).
  unfold exec_stack. apply wp_bind, (wp_current i); [done..|]. apply wp_bind, (wp_pget i p); [done|]. rewrite PGROUNDUP_npg by lia. fold n. cbv zeta.
  change (USERSTACK + 1) with 2. rewrite (u64_small (n * PGSIZE + 2 * PGSIZE)) by lia. replace (n * PGSIZE + 2 * PGSIZE) with top by (unfold top; lia).
  pose proof (pinv_relax g s I) as I0. pose proof (pi_v _ _ I) as V. apply wp_bind, wp_zoom, (wp_uvmalloc g); [done|done|unfold top; lia|done|done| | |]; rewrite ?En1, ?En2.
  - intros v Hv. apply Ht. fold n. lia.
  - intros g1 m1 V1 G. change (grown r n (n + 2) stack_perm g (mach s) g1 m1) in G. rewrite (proj2 (Z.eqb_neq top 0)) by (unfold top; lia).
    apply wp_bind, wp_zoom. rewrite (u64_small (top - 2 * PGSIZE)) by (unfold top; lia). replace (top - 2 * PGSIZE) with (n * PGSIZE) by (unfold top; lia).
    assert (r ∈ roots g1) as Hr1 by (by rewrite (sb_roots _ _ _ _ (gw_stable _ _ _ _ _ _ _ _ G))).
    destruct (gw_new _ _ _ _ _ _ _ _ G n ltac:(lia)) as (q & Eq & Hq1 & Hq2 & Hq3 & _).
    apply (wp_uvmclear g1 m1 r n q); [done|done|lia|done..|]. intros m2 C. change (USERSTACK * PGSIZE) with PGSIZE.
    rewrite (u64_small (top - PGSIZE)) by (unfold top; lia). replace (top - PGSIZE) with ((n + 1) * PGSIZE) by (unfold top; lia).
    destruct (grown_stack r n g (mach s) g1 m1 m2 argv strs) as [So Hk2]; [done..|lia|lia|done|done|done|].
    apply wp_bind, (wp_push_args i p r _ top g1 m2 argv strs top [] []); [done|by apply stacked_start, C|done|done|unfold top; lia|done| |].
    + intros m3 sp' items' _ St Hsp. pose proof (stacked_built r n sp' items' g (mach s) g1 m1 m2 m3 V V1 Hr ltac:(lia) Hmax Ht' G C St Hsp) as B.
      apply (wp_exec_undo r top g (relax s) g1 m3); [done|done|done|apply B|apply B|by rewrite (b_roots _ _ _ _ _ _ _ B)|lia|apply B|].
      intros g' m' I' P' Hr'. exists g'. split; [done|]. by left.
    + intros m3 [Hl _] St Hsp. apply (wp_exec_finish i p path r n entry strs g (relax s) g1 m1 m2 m3); try done; [lia| |].
      * intros g' m' I' P' Hr'. exists g'. split; [done|]. by left.
      * intros g' s' sp I' D. exists g'. split; [done|]. right. split; [done|]. exists sp. destruct D. by split.
  - intros g1 m1 V1 U. cbn [Z.eqb]. apply (wp_exec_undo r (n * PGSIZE) g (relax s) g1 m1); [done|done|done|done|by eapply preserves_undo|by rewrite (ud_roots _ _ _ _ _ _ _ U)|unfold top in *; lia| |].
    + intros v Hv. rewrite En1 in Hv. destruct (decide (v < n + 2)); [apply (ud_inv _ _ _ _ _ _ _ U); lia|].
      rewrite (ud_ptes _ _ _ _ _ _ _ U); [apply Ht; fold n; lia|by apply (root_label _ _ V)|apply upage_va; lia|lia].
    + intros g' m' I' P' Hr'. exists g'. split; [done|]. by left.
Qed.
End exec.
