(* ===== verification/Sysfile.v ===== *)
(** * System calls on files

    sysfile.c: the checks of the arguments, and the calls that combine the file
    system, the table of open files and the table of descriptors of a process.
    The instances at the end close the loop: these functions are the [FileOps]
    of proc.c and the [SysFile] of syscall.c. *)

From S2P Require Import Prelude Riscv Memory Kalloc Vm ProcVm Spinlock Proc Syscall FsState Sleeplock Bio Log Fs Pipe File Exec.

Definition O_RDONLY : Z := 0.
Definition O_WRONLY : Z := 1.
Definition O_RDWR : Z := 2.
Definition O_CREATE : Z := 0x200.
Definition O_TRUNC : Z := 0x400.

(** ".", ".." *)
Definition dot : list Z := [46].
Definition dotdot : list Z := [46; 46].

Section sysfile.
Context `{Layout, Switch fs, Patience, Devsw, Stack}.

(** The path in argument [n], without its NUL. *)
Definition argpath (n : Z) : M K (option (list Z)) :=
  r ← argstr n MAXPATH;
  mret (if r.1 <? 0 then None else Some (take (Z.to_nat r.1) r.2)).

(** The descriptor and the file, or None for the result -1. *)
Definition argfd (n : Z) : M K (option (nat * nat)) :=
  fd ← argint n;
  if (fd <? 0) || (Z.of_nat NOFILE <=? fd) then mret None else
  p ← current;
  f ← pget p (λ q, default 0 (ofile q !! Z.to_nat fd));
  if f =? 0 then mret None else mret (Some (Z.to_nat fd, entry_of f)).

(** The first null entry of [n] from [fd]. *)
Fixpoint free_fd (n fd : nat) (o : list Z) : option nat :=
  match n with
  | O => None
  | S n' => if default 0 (o !! fd) =? 0 then Some fd else free_fd n' (S fd) o
  end.

Definition fdalloc (f : nat) : M K (option nat) :=
  p ← current;
  o ← pget p ofile;
  match free_fd NOFILE 0 o with
  | Some fd =>
      pset p (λ q, set_ofile (<[fd := ptr f]> (ofile q)) q) ;;
      mret (Some fd)
  | None => mret None
  end.

(** [myproc()->ofile[fd] = 0;] *)
Definition clear_fd (p fd : nat) : M K unit := pset p (λ q, set_ofile (<[fd := 0]> (ofile q)) q).

Definition sys_dup : M K Z :=
  a ← argfd 0;
  match a with
  | None => mret (-1)
  | Some (_, f) =>
      d ← fdalloc f;
      match d with
      | None => mret (-1)
      | Some fd => filedup f ;; mret (Z.of_nat fd)
      end
  end.

Definition sys_read : M K Z :=
  p ← argaddr 1;
  n ← argint 2;
  a ← argfd 0;
  match a with
  | None => mret (-1)
  | Some (_, f) => fileread f p n
  end.

Definition sys_write : M K Z :=
  p ← argaddr 1;
  n ← argint 2;
  a ← argfd 0;
  match a with
  | None => mret (-1)
  | Some (_, f) => filewrite f p n
  end.

Definition sys_close : M K Z :=
  a ← argfd 0;
  match a with
  | None => mret (-1)
  | Some (fd, f) =>
      p ← current;
      clear_fd p fd ;;
      fileclose f ;;
      mret 0
  end.

Definition sys_fstat : M K Z :=
  st ← argaddr 1;
  a ← argfd 0;
  match a with
  | None => mret (-1)
  | Some (_, f) => filestat f st
  end.

(** [ip->nlink += d; iupdate(ip);] *)
Definition add_nlink (ip : nat) (d : Z) : M K unit :=
  iset ip (λ x, set_nlink (s16 (nlink x + d)) x) ;;
  iupdate ip.

(** The label [bad] of [sys_link]. *)
Definition link_bad (ip : nat) : M K Z :=
  ilock ip ;;
  add_nlink ip (-1) ;;
  iunlockput ip ;;
  end_op ;;
  mret (-1).

Definition sys_link : M K Z :=
  old ← argpath 0;
  match old with
  | None => mret (-1)
  | Some old =>
  new ← argpath 1;
  match new with
  | None => mret (-1)
  | Some new =>
  begin_op ;;
  ip ← namei old;
  match ip with
  | None => end_op ;; mret (-1)
  | Some ip =>
  ilock ip ;;
  t ← iget_ ip itype;
  if t =? T_DIR then iunlockput ip ;; end_op ;; mret (-1) else
  add_nlink ip 1 ;;
  iunlock ip ;;
  d ← nameiparent new;
  match d with
  | (None, _) => link_bad ip
  | (Some dp, name) =>
  ilock dp ;;
  ddev ← iget_ dp idev;
  x ← iget_ ip id;
  r ← (if negb (ddev =? idev x) then mret (-1) else dirlink dp name (inum x));
  if r <? 0 then iunlockput dp ;; link_bad ip else
  iunlockput dp ;;
  iput ip ;;
  end_op ;;
  mret 0
  end end end end.

(** The loop of [isdirempty], from [off]. *)
Fixpoint isdirempty_loop (fuel : nat) (dp : nat) (off : Z) : M K bool :=
  match fuel with
  | O => nofuel
  | S fuel' =>
      size ← iget_ dp isize;
      if negb (off <? size) then mret true else
      de ← read_dirent dp off "isdirempty: readi";
      if negb (de_inum de =? 0) then mret false else isdirempty_loop fuel' dp (off + DIRENT_SIZE)
  end.

Definition isdirempty (dp : nat) : M K bool :=
  size ← iget_ dp isize;
  isdirempty_loop (entries size) dp (2 * DIRENT_SIZE).

(** The label [bad] of [sys_unlink]. *)
Definition unlink_bad (dp : nat) : M K Z :=
  iunlockput dp ;;
  end_op ;;
  mret (-1).

Definition sys_unlink : M K Z :=
  path ← argpath 0;
  match path with
  | None => mret (-1)
  | Some path =>
  begin_op ;;
  d ← nameiparent path;
  match d with
  | (None, _) => end_op ;; mret (-1)
  | (Some dp, name) =>
  ilock dp ;;
  if (namecmp name dot =? 0) || (namecmp name dotdot =? 0) then unlink_bad dp else
  e ← dirlookup dp name;
  match e with
  | None => unlink_bad dp
  | Some (ip, off) =>
  ilock ip ;;
  x ← iget_ ip id;
  if nlink x <? 1 then panic "unlink: nlink < 1" else
  full ← (if itype x =? T_DIR then b ← isdirempty ip; mret (negb b) else mret false);
  if full : bool then iunlockput ip ;; unlink_bad dp else
  r ← writei dp (FromLocal (repeat 0 16)) off DIRENT_SIZE;
  if negb (r =? DIRENT_SIZE) then panic "unlink: writei" else
  t ← iget_ ip itype;
  (if t =? T_DIR then add_nlink dp (-1) else mret tt) ;;
  iunlockput dp ;;
  add_nlink ip (-1) ;;
  iunlockput ip ;;
  end_op ;;
  mret 0
  end end end.

(** The label [fail] of [create]. *)
Definition create_fail (ip dp : nat) : M K (option nat) :=
  iset ip (set_nlink 0) ;;
  iupdate ip ;;
  iunlockput ip ;;
  iunlockput dp ;;
  mret None.

(** The entries "." and ".." of a new directory; whether both were made. *)
Definition create_dots (ip dp : nat) : M K bool :=
  i ← iget_ ip inum;
  r ← dirlink ip dot i;
  if r <? 0 then mret false else
  d ← iget_ dp inum;
  r ← dirlink ip dotdot d;
  mret (negb (r <? 0)).

Definition create (path : list Z) (type major minor : Z) : M K (option nat) :=
  d ← nameiparent path;
  match d with
  | (None, _) => mret None
  | (Some dp, name) =>
  ilock dp ;;
  e ← dirlookup dp name;
  match e with
  | Some (ip, _) =>
      iunlockput dp ;;
      ilock ip ;;
      t ← iget_ ip itype;
      if (type =? T_FILE) && ((t =? T_FILE) || (t =? T_DEVICE)) then mret (Some ip) else
      iunlockput ip ;;
      mret None
  | None =>
  dev ← iget_ dp idev;
  a ← ialloc dev type;
  match a with
  | None => iunlockput dp ;; mret None
  | Some ip =>
  ilock ip ;;
  iset ip (set_nodes major minor) ;;
  iset ip (set_nlink 1) ;;
  iupdate ip ;;
  ok ← (if type =? T_DIR then create_dots ip dp else mret true);
  if negb (ok : bool) then create_fail ip dp else
  i ← iget_ ip inum;
  r ← dirlink dp name i;
  if r <? 0 then create_fail ip dp else
  (if type =? T_DIR then add_nlink dp 1 else mret tt) ;;
  iunlockput dp ;;
  mret (Some ip)
  end end end.

(** A failing [sys_open] with [ip] locked. *)
Definition open_bad (ip : nat) : M K Z :=
  iunlockput ip ;;
  end_op ;;
  mret (-1).

(** [sys_open] with the inode found and locked. *)
Definition open_inode (ip : nat) (omode : Z) : M K Z :=
  x ← iget_ ip id;
  if (itype x =? T_DEVICE) && ((imajor x <? 0) || (NDEV <=? imajor x)) then open_bad ip else
  o ← filealloc;
  match o with
  | None => open_bad ip
  | Some f =>
  d ← fdalloc f;
  match d with
  | None => fileclose f ;; open_bad ip
  | Some fd =>
  (if itype x =? T_DEVICE then
     fileset f (set_ftype FD_DEVICE) ;;
     fileset f (set_fmajor (imajor x))
   else
     fileset f (set_ftype FD_INODE) ;;
     fileset f (set_foff 0)) ;;
  fileset f (set_fip ip) ;;
  fileset f (set_mode (Z.land omode O_WRONLY =? 0)
                      (negb (Z.land omode O_WRONLY =? 0) || negb (Z.land omode O_RDWR =? 0))) ;;
  (if negb (Z.land omode O_TRUNC =? 0) && (itype x =? T_FILE) then itrunc ip else mret tt) ;;
  iunlock ip ;;
  end_op ;;
  mret (Z.of_nat fd)
  end end.

Definition sys_open : M K Z :=
  omode ← argint 1;
  path ← argpath 0;
  match path with
  | None => mret (-1)
  | Some path =>
  begin_op ;;
  if negb (Z.land omode O_CREATE =? 0) then
    ip ← create path T_FILE 0 0;
    match ip with
    | None => end_op ;; mret (-1)
    | Some ip => open_inode ip omode
    end
  else
    ip ← namei path;
    match ip with
    | None => end_op ;; mret (-1)
    | Some ip =>
        ilock ip ;;
        t ← iget_ ip itype;
        if (t =? T_DIR) && negb (omode =? O_RDONLY) then open_bad ip else
        open_inode ip omode
    end
  end.

(** The end of [sys_mkdir] and [sys_mknod], given the result of [create]. *)
Definition end_create (ip : option nat) : M K Z :=
  match ip with
  | None => end_op ;; mret (-1)
  | Some ip => iunlockput ip ;; end_op ;; mret 0
  end.

Definition sys_mkdir : M K Z :=
  begin_op ;;
  path ← argpath 0;
  ip ← (match path with None => mret None | Some path => create path T_DIR 0 0 end);
  end_create ip.

Definition sys_mknod : M K Z :=
  begin_op ;;
  major ← argint 1;
  minor ← argint 2;
  path ← argpath 0;
  ip ← (match path with None => mret None | Some path => create path T_DEVICE (s16 major) (s16 minor) end);
  end_create ip.

Definition sys_chdir : M K Z :=
  p ← current;
  begin_op ;;
  path ← argpath 0;
  ip ← (match path with None => mret None | Some path => namei path end);
  match ip with
  | None => end_op ;; mret (-1)
  | Some ip =>
      ilock ip ;;
      t ← iget_ ip itype;
      if negb (t =? T_DIR) then iunlockput ip ;; end_op ;; mret (-1) else
      iunlock ip ;;
      c ← pget p cwd;
      iput (entry_of c) ;;
      end_op ;;
      pset p (set_cwd (ptr ip)) ;;
      mret 0
  end.

(** The loop of [sys_exec] that fetches the arguments, [n] more of them, with
    the pages in [argv] so far: whether the null pointer was found, and the
    pages allocated. *)
Fixpoint fetch_args (n : nat) (uargv : Z) (argv : list Z) : M K (bool * list Z) :=
  match n with
  | O => mret (false, argv)
  | S n' =>
      a ← fetchaddr (u64 (uargv + 8 * Z.of_nat (length argv)));
      if a.1 <? 0 then mret (false, argv) else
      if a.2 =? 0 then mret (true, argv) else
      pg ← on_mem kalloc;
      if pg =? 0 then mret (false, argv) else
      r ← fetchstr a.2 PGSIZE;
      on_mem (write_bytes pg r.2) ;;
      if r.1 <? 0 then mret (false, argv ++ [pg]) else
      fetch_args n' uargv (argv ++ [pg])
  end.

Fixpoint free_args (argv : list Z) : M K unit :=
  match argv with
  | [] => mret tt
  | a :: argv' => on_mem (kfree a) ;; free_args argv'
  end.

Definition sys_exec : M K Z :=
  uargv ← argaddr 1;
  path ← argpath 0;
  match path with
  | None => mret (-1)
  | Some path =>
      a ← fetch_args (Z.to_nat MAXARG) uargv [];
      if negb (a.1 : bool) then free_args a.2 ;; mret (-1) else
      ret ← kexec path a.2;
      free_args a.2 ;;
      mret ret
  end.

(** Closing both ends in [sys_pipe] after the descriptors were cleared. *)
Definition pipe_bad (rf wf : nat) : M K Z :=
  fileclose rf ;;
  fileclose wf ;;
  mret (-1).

Definition sys_pipe : M K Z :=
  p ← current;
  fdarray ← argaddr 0;
  a ← pipealloc;
  match a with
  | None => mret (-1)
  | Some (rf, wf) =>
  d0 ← fdalloc rf;
  match d0 with
  | None => pipe_bad rf wf
  | Some fd0 =>
  d1 ← fdalloc wf;
  match d1 with
  | None => clear_fd p fd0 ;; pipe_bad rf wf
  | Some fd1 =>
  up ← pget p uproc_of;
  r ← on_mem (copyout up (upagetable up) fdarray (le_bytes 4 (Z.of_nat fd0)));
  r ← (if r <? 0 then mret r else
       on_mem (copyout up (upagetable up) (u64 (fdarray + 4)) (le_bytes 4 (Z.of_nat fd1))));
  if r <? 0 then clear_fd p fd0 ;; clear_fd p fd1 ;; pipe_bad rf wf else mret 0
  end end end.

(** ** What the other parts of the kernel call *)

#[export] Instance files : FileOps fs := {|
  Proc.filedup f := r ← filedup (entry_of f); mret (ptr r);
  Proc.idup i := r ← idup (entry_of i); mret (ptr r);
  Proc.fileclose f := fileclose (entry_of f);
  Proc.iput i := iput (entry_of i);
  Proc.begin_op := begin_op;
  Proc.end_op := end_op;
  Proc.namei path := r ← namei path; mret (optr r);
|}.

#[export] Instance sysfile : SysFile fs := {|
  Syscall.sys_pipe := sys_pipe;
  Syscall.sys_read := sys_read;
  Syscall.sys_exec := sys_exec;
  Syscall.sys_fstat := sys_fstat;
  Syscall.sys_chdir := sys_chdir;
  Syscall.sys_dup := sys_dup;
  Syscall.sys_open := sys_open;
  Syscall.sys_write := sys_write;
  Syscall.sys_mknod := sys_mknod;
  Syscall.sys_unlink := sys_unlink;
  Syscall.sys_link := sys_link;
  Syscall.sys_mkdir := sys_mkdir;
  Syscall.sys_close := sys_close;
  Syscall.sys_sync := sys_sync;
|}.
End sysfile.
