(* ===== verification/Ulib.v ===== *)
(** * The user library

    user/ulib.c.  A string that is only read is the list of the characters
    before its NUL; the routines that write act on a memory. *)

From Stdlib Require Import Ascii.
From S2P Require Import Prelude Memory.

(** A character constant. *)
Definition ch (a : ascii) : Z := Z.of_N (N_of_ascii a).
Fixpoint str (s : string) : list Z :=
  match s with EmptyString => [] | String a s' => ch a :: str s' end.

(** The characters before the NUL. *)
Fixpoint before_nul (l : list Z) : list Z :=
  match l with [] => [] | c :: l' => if c =? 0 then [] else c :: before_nul l' end.

Definition NL : Z := 10.
Definition CR : Z := 13.

(** ** Strings *)

Fixpoint strcmp (p q : list Z) : Z :=
  match p, q with
  | [], [] => 0
  | [], d :: _ => 0 - d
  | c :: _, [] => c - 0
  | c :: p', d :: q' => if c =? d then strcmp p' q' else c - d
  end.

Fixpoint strlen_loop (s : list Z) (n : Z) : Z :=
  match s with [] => n | _ :: s' => strlen_loop s' (n + 1) end.
Definition strlen (s : list Z) : Z := strlen_loop s 0.

(** The place of [c] in the string.  The list may go on after a NUL. *)
Fixpoint strchr (s : list Z) (c : Z) : option nat :=
  match s with
  | [] => None
  | x :: s' => if x =? 0 then None else if x =? c then Some O else S <$> strchr s' c
  end.

Definition is_digit (c : Z) : bool := (48 <=? c) && (c <=? 57).
Fixpoint atoi_loop (n : Z) (s : list Z) : Z :=
  match s with
  | [] => n
  | c :: s' => if is_digit c then atoi_loop (s32 (n * 10 + c - 48)) s' else n
  end.
Definition atoi (s : list Z) : Z := atoi_loop 0 s.

(** [gets] reads from the characters [input] that are to come; the result is the
    line and what is left. *)
Fixpoint gets_loop (n : nat) (input : list Z) : list Z * list Z :=
  match n, input with
  | O, _ => ([], input)
  | S _, [] => ([], [])
  | S n', c :: input' =>
      if (c =? NL) || (c =? CR) then ([c], input')
      else let r := gets_loop n' input' in (c :: r.1, r.2)
  end.
Definition gets (max : Z) (input : list Z) : list Z * list Z := gets_loop (Z.to_nat (max - 1)) input.

(** ** Memory *)

Fixpoint memset_loop (n : nat) (m : memory) (dst c i : Z) : memory :=
  match n with
  | O => m
  | S n' => memset_loop n' (upd m (dst + i) (c mod 256)) dst c (i + 1)
  end.
Definition memset (m : memory) (dst c n : Z) : memory := memset_loop (Z.to_nat n) m dst c 0.

Fixpoint memmove_up (n : nat) (m : memory) (d s : Z) : memory :=
  match n with
  | O => m
  | S n' => memmove_up n' (upd m d (m s)) (d + 1) (s + 1)
  end.
Fixpoint memmove_down (n : nat) (m : memory) (d s : Z) : memory :=
  match n with
  | O => m
  | S n' => memmove_down n' (upd m (d - 1) (m (s - 1))) (d - 1) (s - 1)
  end.
Definition memmove (m : memory) (vdst vsrc n : Z) : memory :=
  if vdst <? vsrc then memmove_up (Z.to_nat n) m vdst vsrc
  else memmove_down (Z.to_nat n) m (vdst + n) (vsrc + n).
Definition memcpy (m : memory) (dst src n : Z) : memory := memmove m dst src n.

Fixpoint memcmp_loop (n : nat) (m : memory) (p1 p2 : Z) : Z :=
  match n with
  | O => 0
  | S n' => if negb (m p1 =? m p2) then m p1 - m p2 else memcmp_loop n' m (p1 + 1) (p2 + 1)
  end.
Definition memcmp (m : memory) (s1 s2 n : Z) : Z := memcmp_loop (Z.to_nat n) m s1 s2.

(** [strcpy] ends at the NUL; [fuel] bounds the search for it. *)
Fixpoint strcpy (fuel : nat) (m : memory) (s t : Z) : option memory :=
  match fuel with
  | O => None
  | S fuel' => let m' := upd m s (m t) in if m t =? 0 then Some m' else strcpy fuel' m' (s + 1) (t + 1)
  end.

(** ** Laws *)

Lemma strcmp_eq p q : 0 ∉ p → 0 ∉ q → strcmp p q = 0 ↔ p = q.
Proof.
  revert q. induction p as [|c p IH]; intros [|d q] Hp Hq; cbn [strcmp]; rewrite ?not_elem_of_cons in *; [done|split; [lia|done]..|].
  destruct (Z.eqb_spec c d) as [->|Hne]; [|split; [lia|congruence]]. rewrite IH by naive_solver. split; congruence.
Qed.

Lemma strlen_length s : strlen s = Z.of_nat (length s).
Proof.
  unfold strlen. assert (∀ n, strlen_loop s n = n + Z.of_nat (length s)) as ->; [|lia].
  induction s as [|c s IH]; intros n; cbn [strlen_loop length]; [lia|]. rewrite IH. lia.
Qed.

(** The library's [memmove] and the kernel's are the same, although they choose
    between the two loops in different ways. *)
Lemma memmove_agrees m dst src n : 0 ≤ n → memmove m dst src n = Memory.memmove m dst src n.
Proof.
  intros Hn. assert (∀ k m d s, memmove_up k m d s = Memory.memmove_up k m d s) as Hu by (intros k; induction k; intros; simpl; auto).
  assert (∀ k m d s, memmove_down k m d s = Memory.memmove_down k m d s) as Hd by (intros k; induction k; intros; simpl; auto).
  assert (Memory.memmove m dst src n = copy m dst src n) as ->.
  { unfold Memory.memmove. destruct (Z.eqb_spec n 0) as [->|]; [apply mem_ext; intros x; unfold copy; mem_cases; lia || done|].
    mem_cases; rewrite ?memmove_down_copy, ?memmove_up_copy by lia; f_equal; lia. }
  unfold memmove. destruct (Z.ltb_spec dst src); [rewrite Hu, memmove_up_copy by lia|rewrite Hd, memmove_down_copy by lia]; f_equal; lia.
Qed.

(** What was read and what is left is the input. *)
Lemma gets_app max input : (gets max input).1 ++ (gets max input).2 = input.
Proof.
  unfold gets. generalize (Z.to_nat (max - 1)). intros n. revert input. induction n as [|n IH]; intros [|c input]; cbn [gets_loop]; try done.
  destruct (_ || _); [done|]. cbn [fst snd app]. by rewrite IH.
Qed.
