(* ===== verification/Grep.v ===== *)
(** * grep

    user/grep.c: the pattern matcher against the language of a pattern, and the
    buffered loop against a filter on lines.  A C string is the list of the
    characters before its NUL. *)

From S2P Require Import Prelude Ulib.

Definition CARET : Z := 94.
Definition STAR : Z := 42.
Definition DOLLAR : Z := 36.
Definition DOT : Z := 46.

(** ** The matcher *)

(** [here] is the call of [matchhere] with the rest of the pattern. *)
Fixpoint matchstar (here : list Z → bool) (c : Z) (text : list Z) : bool :=
  if here text then true else
  match text with
  | [] => false
  | t :: text' => if (t =? c) || (c =? DOT) then matchstar here c text' else false
  end.

Fixpoint matchhere (re text : list Z) {struct re} : bool :=
  match re with
  | [] => true
  | c :: re' =>
      match re' with
      | r1 :: re2 =>
          if r1 =? STAR then matchstar (matchhere re2) c text else
          match text with
          | t :: text' => if (c =? DOT) || (c =? t) then matchhere re' text' else false
          | [] => false
          end
      | [] =>
          if c =? DOLLAR then (match text with [] => true | _ => false end) else
          match text with
          | t :: text' => if (c =? DOT) || (c =? t) then matchhere re' text' else false
          | [] => false
          end
      end
  end.

(** The loop of [match]. *)
Fixpoint match_loop (re text : list Z) : bool :=
  if matchhere re text then true else
  match text with
  | [] => false
  | _ :: text' => match_loop re text'
  end.

Definition match_ (re text : list Z) : bool :=
  match re with
  | c :: re' => if c =? CARET then matchhere re' text else match_loop re text
  | [] => match_loop re text
  end.

(** ** The language of a pattern *)

(** A pattern is a list of items, and may ask for the end of the text. *)
Inductive item := One (c : Z) | Many (c : Z).

Fixpoint items (re : list Z) : list item * bool :=
  match re with
  | [] => ([], false)
  | c :: re' =>
      match re' with
      | r1 :: re2 => if r1 =? STAR then let r := items re2 in (Many c :: r.1, r.2) else let r := items re' in (One c :: r.1, r.2)
      | [] => if c =? DOLLAR then ([], true) else ([One c], false)
      end
  end.

(** A character of the pattern stands for itself, a dot for any one. *)
Definition stands (c t : Z) : Prop := c = DOT ∨ c = t.

Inductive lang : list item → list Z → Prop :=
  | lang_nil : lang [] []
  | lang_one c t r w : stands c t → lang r w → lang (One c :: r) (t :: w)
  | lang_many c u r w : Forall (stands c) u → lang r w → lang (Many c :: r) (u ++ w).

(** The text starts with a word of the language, and ends there if asked. *)
Definition starts (p : list item * bool) (text : list Z) : Prop :=
  ∃ w rest, text = w ++ rest ∧ lang p.1 w ∧ (p.2 = true → rest = []).

Lemma stands_spec c t : (c =? DOT) || (c =? t) = true ↔ stands c t.
Proof. rewrite orb_true_iff, !Z.eqb_eq. done. Qed.

Lemma starts_one c r e t text : starts (One c :: r, e) (t :: text) ↔ stands c t ∧ starts (r, e) text.
Proof.
  split.
  - intros (w & rest & E & Hl & He). inversion Hl; subst. simplify_eq/=. split; [done|]. by exists w0, rest.
  - intros [Hs (w & rest & -> & Hl & He)]. exists (t :: w), rest. split; [done|]. split; [by constructor|done].
Qed.

Lemma starts_one_nil c r e : ¬ starts (One c :: r, e) [].
Proof. intros (w & rest & E & Hl & He). inversion Hl; subst. done. Qed.

Lemma starts_many c r e text :
  starts (Many c :: r, e) text ↔
    starts (r, e) text ∨ ∃ t text', text = t :: text' ∧ stands c t ∧ starts (Many c :: r, e) text'.
Proof.
  split.
  - intros (w & rest & -> & Hl & He). inversion Hl as [| |? u ? w' Hu Hw]; subst. destruct Hu as [|t u Ht Hu]; [left; by exists w', rest|right].
    exists t, ((u ++ w') ++ rest). split; [done|]. split; [done|]. exists (u ++ w'), rest. split; [done|]. split; [by constructor|done].
  - intros [(w & rest & -> & Hl & He)|(t & text' & -> & Ht & w & rest & -> & Hl & He)].
    + exists w, rest. split; [done|]. split; [by apply (lang_many c [])|done].
    + inversion Hl as [| |? u ? w' Hu Hw]; subst. exists ((t :: u) ++ w'), rest. split; [done|]. split; [by constructor; [constructor|]|done].
Qed.

Lemma matchstar_spec here c r e text :
  (∀ text, here text = true ↔ starts (r, e) text) → matchstar here c text = true ↔ starts (Many c :: r, e) text.
Proof.
  intros Hh. induction text as [|t text IH]; cbn [matchstar]; rewrite starts_many, <-Hh; (destruct (here _); [split; [by left|done]|]).
  - split; [done|]. by intros [?|(? & ? & ? & _)].
  - assert (((t =? c) || (c =? DOT)) = true ↔ stands c t) as Es by (unfold stands; rewrite orb_true_iff, !Z.eqb_eq; split; intros [|]; auto).
    destruct ((t =? c) || (c =? DOT)).
    + rewrite IH. split; [intros Hs; right; exists t, text; by rewrite <-Es|]. by intros [?|(? & ? & [= <- <-] & _ & ?)].
    + split; [done|]. intros [?|(? & ? & [= <- <-] & Ht & _)]; [done|]. by apply Es in Ht.
Qed.

(** A character of the pattern that is not before a star. *)
Lemma single_spec c here r e text :
  (∀ text, here text = true ↔ starts (r, e) text) →
  match text with t :: text' => if (c =? DOT) || (c =? t) then here text' else false | [] => false end = true ↔ starts (One c :: r, e) text.
Proof.
  intros Hh. destruct text as [|t text]; [split; [done|by intros ?%starts_one_nil]|].
  rewrite starts_one, <-Hh, <-stands_spec. destruct (_ || _); intuition congruence.
Qed.

Lemma matchhere_spec re : ∀ text, matchhere re text = true ↔ starts (items re) text.
Proof.
  induction re as [re IH] using (induction_ltof1 _ (@length Z)). unfold ltof in IH. intros text. destruct re as [|c re'].
  { split; [|done]. intros _. exists [], text. split; [done|]. split; [constructor|done]. }
  destruct re' as [|r1 re2].
  - cbn [items matchhere]. destruct (Z.eqb_spec c DOLLAR) as [->|Hc].
    + split; [destruct text; [|done]; intros _; exists [], []; repeat split; constructor|].
      intros (w & rest & -> & Hl & He). inversion Hl; subst. by rewrite He.
    + apply (single_spec c (λ _, true)). intros text'. by apply (IH []); simpl; lia.
  - change (items (c :: r1 :: re2)) with (if r1 =? STAR then let r := items re2 in (Many c :: r.1, r.2) else let r := items (r1 :: re2) in (One c :: r.1, r.2)).
    change (matchhere (c :: r1 :: re2) text) with (if r1 =? STAR then matchstar (matchhere re2) c text else
      match text with t :: text' => if (c =? DOT) || (c =? t) then matchhere (r1 :: re2) text' else false | [] => false end).
    destruct (Z.eqb_spec r1 STAR) as [->|Hr].
    + apply matchstar_spec. intros text'. rewrite (IH re2) by (simpl; lia). by destruct (items re2).
    + apply single_spec. intros text'. rewrite (IH (r1 :: re2)) by (simpl; lia). by destruct (items (r1 :: re2)).
Qed.

(** The text has a word of the language somewhere. *)
Lemma match_loop_spec re text : match_loop re text = true ↔ ∃ pre post, text = pre ++ post ∧ starts (items re) post.
Proof.
  induction text as [|t text IH]; cbn [match_loop]; destruct (matchhere re _) eqn:Eh.
  - split; [intros _|done]. exists [], []. split; [done|]. by apply matchhere_spec.
  - split; [done|]. intros (pre & post & E & Hs). symmetry in E. apply app_nil in E as [-> ->]. apply matchhere_spec in Hs. congruence.
  - split; [intros _|done]. exists [], (t :: text). split; [done|]. by apply matchhere_spec.
  - rewrite IH. split; intros (pre & post & E & Hs).
    + exists (t :: pre), post. by rewrite E.
    + destruct pre as [|p pre]; simplify_eq/=; [|by exists pre, post]. apply matchhere_spec in Hs. congruence.
Qed.

(** What a pattern asks for: a leading caret ties it to the start of the text. *)
Definition matches (re text : list Z) : Prop :=
  let (p, tied) := match re with c :: re' => if c =? CARET then (items re', true) else (items re, false) | [] => (items re, false) end in
  ∃ pre post, text = pre ++ post ∧ (tied = true → pre = []) ∧ starts p post.

(** C38. The matcher decides the language of the pattern: [match] returns 1 exactly
    when some part of the text is a word of the items of the pattern, from the
    start of the text after a caret and up to its end before a dollar. *)
Theorem match_language re text : match_ re text = true ↔ matches re text.
Proof.
  assert (∀ re, match_loop re text = true ↔ ∃ pre post, text = pre ++ post ∧ (false = true → pre = []) ∧ starts (items re) post) as Hl.
  { intros re'. rewrite match_loop_spec. split; intros (pre & post & H); exists pre, post; naive_solver. }
  unfold match_, matches. destruct re as [|c re']; [apply Hl|]. destruct (c =? CARET); [|apply Hl]. rewrite matchhere_spec. split.
  - intros Hs. by exists [], text.
  - intros (pre & post & -> & Hp & Hs). by rewrite Hp.
Qed.

(** ** The lines of the input *)

(** The inner loop: the lines in the buffer from [p] on.  The result is what is
    written and what is left. *)
Fixpoint grep_lines (fuel : nat) (pattern p : list Z) : list Z * list Z :=
  match fuel with
  | O => ([], p)
  | S fuel' =>
      match strchr p NL with
      | None => ([], p)
      | Some q =>
          let r := grep_lines fuel' pattern (drop (S q) p) in
          ((if match_ pattern (take q p) then take q p ++ [NL] else []) ++ r.1, r.2)
      end
  end.

Definition BUFSZ : nat := 1024.

Section grep.
(** [read] returns some of the bytes that are left, as many as it likes but at
    least one when some are asked for and there are any. *)
Context (sizes : nat → nat).
Definition read (k n : nat) (input : list Z) : list Z := take (Nat.min n (S (sizes k))) input.

(** [buf] is the part of the buffer in use, [k] the number of reads so far.  The
    result is what is written, or nothing if the fuel is not enough. *)
Fixpoint grep (fuel : nat) (pattern : list Z) (k : nat) (input buf : list Z) : option (list Z) :=
  match fuel with
  | O => None
  | S fuel' =>
      match read k (BUFSZ - length buf - 1) input with
      | [] => Some []
      | chunk =>
          let p := buf ++ chunk in
          let r := grep_lines (S (length p)) pattern p in
          app r.1 <$> grep fuel' pattern (S k) (drop (length chunk) input) r.2
      end
  end.
End grep.

(** The lines of a text that end in a newline. *)
Fixpoint lines (cur text : list Z) : list (list Z) :=
  match text with
  | [] => []
  | c :: text' => if c =? NL then cur :: lines [] text' else lines (cur ++ [c]) text'
  end.

(** The lines that match. *)
Definition selected (pattern : list Z) (ls : list (list Z)) : list Z :=
  concat ((λ l, if match_ pattern l then l ++ [NL] else []) <$> ls).

(** A line that fits in the buffer, with its newline and the NUL. *)
Definition fits (l : list Z) : Prop := (length l + 2 ≤ BUFSZ)%nat.

(** The lines before the first one that does not fit. *)
Fixpoint fitting (ls : list (list Z)) : list (list Z) :=
  match ls with
  | [] => []
  | l :: ls' => if decide (length l + 2 ≤ BUFSZ)%nat then l :: fitting ls' else []
  end.

Lemma lines_skip cur p text : NL ∉ p → lines cur (p ++ text) = lines (cur ++ p) text.
Proof.
  revert cur. induction p as [|c p IH]; intros cur Hp; [by rewrite app_nil_r|]. cbn [app lines].
  apply not_elem_of_cons in Hp as [Hc Hp]. destruct (Z.eqb_spec c NL); [congruence|]. rewrite IH by done. by rewrite <-app_assoc.
Qed.
Lemma lines_none cur p : NL ∉ p → lines cur p = [].
Proof. intros Hp. rewrite <-(app_nil_r p), lines_skip by done. done. Qed.

Lemma before_nul_skip p text : 0 ∉ p → before_nul (p ++ text) = p ++ before_nul text.
Proof.
  induction p as [|c p IH]; intros H0; [done|]. apply not_elem_of_cons in H0 as [Hc H0]. cbn [app before_nul].
  destruct (Z.eqb_spec c 0); [congruence|]. by rewrite IH.
Qed.
Lemma before_nul_stop p text : 0 ∈ p → before_nul (p ++ text) = before_nul p.
Proof.
  induction p as [|c p IH]; intros H0; [by apply not_elem_of_nil in H0|]. cbn [app before_nul]. destruct (Z.eqb_spec c 0); [done|].
  apply elem_of_cons in H0 as [|H0]; [congruence|]. by rewrite IH.
Qed.

Lemma strchr_none p : strchr p NL = None → NL ∉ before_nul p.
Proof.
  induction p as [|x p IH]; intros Hs; [apply not_elem_of_nil|]. cbn [strchr before_nul] in *.
  destruct (Z.eqb_spec x 0); [apply not_elem_of_nil|]. destruct (Z.eqb_spec x NL); [done|]. apply not_elem_of_cons. split; [congruence|].
  apply IH. by destruct (strchr p NL).
Qed.

Lemma strchr_some p q : strchr p NL = Some q → p = take q p ++ NL :: drop (S q) p ∧ NL ∉ take q p ∧ 0 ∉ take q p.
Proof.
  revert q. induction p as [|x p IH]; intros q Hs; [done|]. cbn [strchr] in Hs. destruct (Z.eqb_spec x 0) as [|H0]; [done|].
  destruct (Z.eqb_spec x NL) as [->|Hx]; [simplify_eq; split_and!; [done|apply not_elem_of_nil..]|].
  destruct (strchr p NL) as [q'|]; [|done]. simplify_eq/=. destruct (IH q' eq_refl) as (E & Hn & Hz). split; [by rewrite E at 1|].
  split; apply not_elem_of_cons; (split; [congruence|done]).
Qed.

(** What [grep] is to write for a text. *)
Definition wanted (pattern text : list Z) : list Z := selected pattern (fitting (lines [] (before_nul text))).

Lemma grep_lines_spec fuel pattern p text : (length p < fuel)%nat → (length p < BUFSZ)%nat →
  let r := grep_lines fuel pattern p in
  wanted pattern (p ++ text) = r.1 ++ wanted pattern (r.2 ++ text) ∧ strchr r.2 NL = None ∧ (length r.2 ≤ length p)%nat.
Proof.
  revert p. induction fuel as [|fuel IH]; intros p Hf Hp; [lia|]. cbn [grep_lines]. destruct (strchr p NL) as [q|] eqn:Es; [|done].
  destruct (strchr_some _ _ Es) as (E & Hn & Hz). set (l := take q p) in *. set (p' := drop (S q) p) in *.
  assert (length p = length l + S (length p'))%nat as El by (rewrite E at 1; rewrite length_app; done).
  destruct (IH p') as (I1 & I2 & I3); [lia|lia|]. cbv zeta. cbn [fst snd]. split_and!; [|done|lia].
  rewrite <-app_assoc, <-I1. unfold wanted. rewrite E at 1. rewrite <-app_assoc, before_nul_skip by done. cbn [app before_nul].
  change (NL =? 0) with false. cbv iota. rewrite lines_skip by done. cbn [app lines]. rewrite Z.eqb_refl. cbn [fitting].
  rewrite decide_True by lia. done.
Qed.

Lemma lines_long cur text : ¬ fits cur → fitting (lines cur text) = [].
Proof.
  revert cur. induction text as [|c text IH]; intros cur Hl; [done|]. cbn [lines]. destruct (c =? NL).
  - cbn [fitting]. by rewrite decide_False.
  - apply IH. unfold fits in *. rewrite length_app. lia.
Qed.

(** A buffer that is full of one line is the end. *)
Lemma wanted_full pattern buf text : strchr buf NL = None → length buf = (BUFSZ - 1)%nat ∨ text = [] → wanted pattern (buf ++ text) = [].
Proof.
  intros Hs%strchr_none Hl. unfold wanted. destruct (decide (0 ∈ buf)) as [H0|H0]; [by rewrite before_nul_stop, lines_none|].
  assert (before_nul buf = buf) as Eb by (rewrite <-(app_nil_r buf) at 1; rewrite before_nul_skip by done; apply app_nil_r).
  rewrite Eb in Hs. rewrite before_nul_skip, lines_skip by done. destruct Hl as [Hl| ->]; [|done].
  rewrite lines_long; [done|]. unfold fits, BUFSZ in *. cbn [app]. lia.
Qed.

Lemma take_length_take n (l : list Z) : take (length (take n l)) l = take n l.
Proof. rewrite length_take. destruct (Nat.min_spec n (length l)) as [[? ->]|[? ->]]; [done|]. by rewrite !take_ge by lia. Qed.

Lemma grep_spec sizes fuel pattern k input buf :
  (length input < fuel)%nat → strchr buf NL = None → (length buf < BUFSZ)%nat →
  grep sizes fuel pattern k input buf = Some (wanted pattern (buf ++ input)).
Proof.
  revert k input buf. induction fuel as [|fuel IH]; intros k input buf Hf Hn Hb; [lia|]. cbn [grep].
  destruct (read sizes k (BUFSZ - length buf - 1) input) as [|c chunk] eqn:Er.
  - f_equal. symmetry. apply wanted_full; [done|]. destruct input as [|c input]; [by right|left].
    unfold read in Er. destruct (Nat.min _ _) eqn:Em; [|done]. lia.
  - set (ch := c :: chunk) in *. assert (ch = take (length ch) input ∧ 0 < length ch)%nat as [Ec Hc].
    { split; [|simpl; lia]. rewrite <-Er. unfold read. by rewrite take_length_take. }
    assert (input = ch ++ drop (length ch) input) as Ei by (rewrite Ec at 1; by rewrite take_drop). set (rest := drop (length ch) input) in *.
    assert (length ch ≤ BUFSZ - length buf - 1)%nat as Hl by (rewrite <-Er; unfold read; rewrite length_take; lia).
    assert (length input = length ch + length rest)%nat as Hli by (rewrite Ei at 1; apply length_app). pose proof (length_app buf ch) as Eb.
    destruct (grep_lines_spec (S (length (buf ++ ch))) pattern (buf ++ ch) rest) as (I1 & I2 & I3); [lia|lia|].
    rewrite Ei, app_assoc, I1, IH; [done|lia|done|lia].
Qed.

(** C39. [grep] returns on every input, and reading in pieces makes no difference:
    whatever the sizes of the pieces that [read] returns, it writes the lines that
    match and end in a newline, in order, up to the first line that does not fit
    in the buffer, with 1023 characters or more, or that has a NUL byte; there it
    stops writing. *)
Theorem grep_filters sizes pattern input :
  grep sizes (S (length input)) pattern 0 input [] = Some (selected pattern (fitting (lines [] (before_nul input)))).
Proof. by apply (grep_spec sizes _ pattern 0 input []); [lia| |unfold BUFSZ; simpl; lia]. Qed.

Example grep_filters_example :
  grep (λ k, k) 12 [97; STAR; 98; DOLLAR] 0 [97; 97; 98; NL; 99; NL; 98; NL; 98; 99; 98] [] = Some [97; 97; 98; NL; 98; NL].
Proof. by vm_compute. Qed.
