(* ===== verification/Printf.v ===== *)
(** * Formatted output

    user/printf.c, and the part of kernel/printk.c that chooses the characters.
    What is printed is the list of the characters passed to putc, or nothing
    when an argument is missing or of the wrong kind. *)

From Stdlib Require Import Ascii.
From S2P Require Import Prelude Ulib.

(** conversion to [long long] *)
Definition s64 (x : Z) : Z := (x + 2 ^ 63) mod 2 ^ 64 - 2 ^ 63.

(** An argument: a number, or a pointer to a string, which may be null. *)
Inductive varg := ANum (v : Z) | AStr (s : option (list Z)).

(** What follows a percent sign: a number read as an [int] or an unsigned
    integer of 32 or 64 bits and printed in a base, with or without a sign,
    after [skip] more characters of the format; or something else. *)
Inductive width := Int | Uint32 | Uint64.
Inductive conv :=
  | CNum (w : width) (base : Z) (sgn : bool) (skip : nat)
  | CPtr | CChar | CStr | CPercent | CUnknown (c : Z) | CEnd.

Definition narrow (w : width) (v : Z) : Z :=
  match w with Int => s32 v | Uint32 => u32 v | Uint64 => s64 v end.

Definition isc (c : Z) (a : ascii) : bool := c =? ch a.

(** ** The user library *)

Definition udigits : list Z := str "0123456789ABCDEF".
Definition kdigits : list Z := str "0123456789abcdef".

(** The buffer after the loop, least significant digit first.  64 rounds are
    enough for a 64-bit number. *)
Fixpoint digit_loop (fuel : nat) (digits : list Z) (base x : Z) : option (list Z) :=
  match fuel with
  | O => None
  | S fuel' =>
      let d := nth (Z.to_nat (x mod base)) digits 0 in
      if x / base =? 0 then Some [d] else cons d <$> digit_loop fuel' digits base (x / base)
  end.

Definition printint (digits : list Z) (xx base : Z) (sgn : bool) : option (list Z) :=
  let neg := sgn && (xx <? 0) in
  let x := if neg then u64 (- xx) else u64 xx in
  (λ buf, rev (if neg then buf ++ [ch "-"] else buf)) <$> digit_loop 64 digits base x.

(** [x >> 60], then [x <<= 4]. *)
Fixpoint printptr_loop (n : nat) (digits : list Z) (x : Z) : list Z :=
  match n with
  | O => []
  | S n' => nth (Z.to_nat (Z.shiftr x 60)) digits 0 :: printptr_loop n' digits (u64 (Z.shiftl x 4))
  end.
Definition printptr (digits : list Z) (x : Z) : list Z := ch "0" :: ch "x" :: printptr_loop 16 digits x.

Definition conv_of (c0 c1 c2 : Z) : conv :=
  if isc c0 "d" then CNum Int 10 true 0
  else if isc c0 "l" && isc c1 "d" then CNum Uint64 10 true 1
  else if isc c0 "l" && isc c1 "l" && isc c2 "d" then CNum Uint64 10 true 2
  else if isc c0 "u" then CNum Uint32 10 false 0
  else if isc c0 "l" && isc c1 "u" then CNum Uint64 10 false 1
  else if isc c0 "l" && isc c1 "l" && isc c2 "u" then CNum Uint64 10 false 2
  else if isc c0 "x" then CNum Uint32 16 false 0
  else if isc c0 "l" && isc c1 "x" then CNum Uint64 16 false 1
  else if isc c0 "l" && isc c1 "l" && isc c2 "x" then CNum Uint64 16 false 2
  else if isc c0 "p" then CPtr
  else if isc c0 "c" then CChar
  else if isc c0 "s" then CStr
  else if isc c0 "%" then CPercent
  else CUnknown c0.

(** One conversion: the characters, the arguments left, the characters to skip. *)
Definition convert (digits : list Z) (k : conv) (ap : list varg) : option (list Z * list varg * nat) :=
  match k, ap with
  | CNum w base sgn skip, ANum v :: ap' => (λ out, (out, ap', skip)) <$> printint digits (narrow w v) base sgn
  | CPtr, ANum v :: ap' => Some (printptr digits (u64 v), ap', O)
  | CChar, ANum v :: ap' => Some ([v mod 256], ap', O)
  | CStr, AStr s :: ap' => Some (match s with Some s => s | None => str "(null)" end, ap', O)
  | CPercent, _ => Some ([ch "%"], ap, O)
  | CUnknown c, _ => Some ([ch "%"; c], ap, O)
  | CEnd, _ => Some ([], ap, O)
  | _, _ => None
  end.

(** [pct] is the state of the loop after a percent sign, [skip] what was added
    to [i]. *)
Fixpoint vprintf (fmt : list Z) (ap : list varg) (pct : bool) (skip : nat) : option (list Z) :=
  match fmt with
  | [] => Some []
  | c0 :: fmt' =>
      match skip with
      | S skip' => vprintf fmt' ap pct skip'
      | O =>
          if negb pct then
            if isc c0 "%" then vprintf fmt' ap true O else cons c0 <$> vprintf fmt' ap false O
          else
            let c1 := nth 0 fmt' 0 in
            let c2 := if negb (c1 =? 0) then nth 1 fmt' 0 else 0 in
            match convert udigits (conv_of c0 c1 c2) ap with
            | Some (out, ap', skip') => app out <$> vprintf fmt' ap' false skip'
            | None => None
            end
      end
  end.

Definition printf (fmt : list Z) (ap : list varg) : option (list Z) := vprintf fmt ap false O.

(** ** Numbers *)

(** The value of digits, least significant first. *)
Definition value (base : Z) (ds : list Z) : Z := foldr (λ d acc, d + base * acc) 0 ds.
(** Digits of a number as it is written: no zeros in front, except for 0. *)
Definition proper (base : Z) (ds : list Z) : Prop :=
  Forall (λ d, 0 ≤ d < base) ds ∧ ∃ d, last ds = Some d ∧ (d = 0 → ds = [0]).

Definition digit (digits : list Z) (d : Z) : Z := nth (Z.to_nat d) digits 0.

Lemma fmap_rev (f : Z → Z) l : f <$> rev l = rev (f <$> l).
Proof. rewrite !rev_alt. apply fmap_reverse. Qed.

Lemma digit_loop_spec k fuel digits base x :
  2 ≤ base → 0 ≤ x < base ^ Z.of_nat (S k) → (k < fuel)%nat →
  ∃ ds, digit_loop fuel digits base x = Some (digit digits <$> ds) ∧ value base ds = x ∧ proper base ds ∧ (length ds ≤ S k)%nat.
Proof.
  intros Hb. revert fuel x. induction k as [|k IH]; intros fuel x Hx Hf; (destruct fuel as [|fuel]; [lia|]); cbn [digit_loop].
  - rewrite Z.pow_1_r in Hx. rewrite Z.div_small, Z.mod_small by lia. exists [x]. split; [done|]. unfold value. simpl. split; [lia|].
    split; [|lia]. split; [by apply Forall_singleton|]. exists x. split; [done|]. by intros ->.
  - pose proof (Z.div_mod x base ltac:(lia)) as E. pose proof (Z.mod_pos_bound x base ltac:(lia)) as Hm. destruct (Z.eqb_spec (x / base) 0) as [E0|E0].
    + exists [x mod base]. split; [done|]. unfold value. simpl. rewrite E0 in E. split; [lia|]. split; [|lia]. split; [by apply Forall_singleton|].
      exists (x mod base). split; [done|]. by intros ->.
    + assert (0 ≤ x / base < base ^ Z.of_nat (S k)) as Hd.
      { split; [apply Z.div_pos; lia|]. apply Z.div_lt_upper_bound; [lia|]. rewrite <-Z.pow_succ_r by lia. replace (Z.succ (Z.of_nat (S k))) with (Z.of_nat (S (S k))) by lia. lia. }
      destruct (IH fuel (x / base) Hd ltac:(lia)) as (ds & -> & Hv & (Hr & d & Hl & Hz) & Hlen). exists (x mod base :: ds). split; [done|].
      unfold value in *. simpl. split; [lia|]. split; [|simpl; lia]. split; [by constructor|]. exists d.
      destruct ds as [|d' ds]; [done|]. split; [done|]. intros Ed. specialize (Hz Ed). simplify_eq/=. lia.
Qed.

(** Printing a number never overruns the buffer of 20 characters, and what is
    printed is the number: for every 64-bit argument and base 10 or 16, [printint]
    prints a minus sign exactly for a negative signed number, and then the digits
    of the absolute value, most significant first and without zeros in front. *)
Lemma printint_prints digits xx base sgn :
  base = 10 ∨ base = 16 → - 2 ^ 63 ≤ xx < 2 ^ 63 →
  ∃ ds, let neg := sgn && (xx <? 0) in let cs := (if neg then [ch "-"] else []) ++ (digit digits <$> reverse ds) in
    printint digits xx base sgn = Some cs ∧ (length cs ≤ 20)%nat ∧ proper base ds ∧
    value base ds = if neg then - xx else u64 xx.
Proof.
  intros Hbase Hx. set (neg := sgn && (xx <? 0)). set (x := if neg then u64 (- xx) else u64 xx).
  assert (neg = true → xx < 0) as Hneg by (unfold neg; intros [_ ?]%andb_true_iff; by apply Z.ltb_lt).
  assert (x = if neg then - xx else u64 xx) as Ex by (unfold x; destruct neg; [|done]; unfold u64; rewrite Z.mod_small; lia).
  assert (0 ≤ x < (if neg then 2 ^ 63 + 1 else 2 ^ 64)) as Hr.
  { rewrite Ex. destruct neg; [lia|]. apply Z.mod_pos_bound. lia. }
  set (k := if neg then 18%nat else 19%nat).
  assert (0 ≤ x < base ^ Z.of_nat (S k)) as Hk by (unfold k; destruct neg, Hbase as [-> | ->]; split; try lia; (eapply Z.lt_le_trans; [apply Hr|]; by vm_compute)).
  destruct (digit_loop_spec k 64 digits base x) as (ds & El & Hv & Hp & Hlen); [destruct Hbase; lia|done|unfold k; destruct neg; lia|].
  exists ds. cbv zeta. split_and!; [|rewrite length_app, length_fmap, length_reverse; unfold k in Hlen; destruct neg; simpl; lia|done|congruence].
  unfold printint. fold neg. fold x. rewrite El. cbn [fmap option_fmap option_map]. f_equal.
  unfold reverse. rewrite <-rev_alt, fmap_rev. destruct neg; [by rewrite rev_app_distr|done].
Qed.

(** ** [atoi] reads what is printed *)

Definition horner (n : Z) (l : list Z) : Z := fold_left (λ a d, a * 10 + d) l n.

Lemma horner_ge l n : 0 ≤ n → Forall (λ d, 0 ≤ d < 10) l → n ≤ horner n l.
Proof. revert n. induction l as [|d l IH]; intros n Hn Hl; [done|]. inversion_clear Hl. cbn [horner fold_left]. etrans; [|apply IH; [lia|done]]. lia. Qed.

Lemma horner_value ds : horner 0 (rev ds) = value 10 ds.
Proof. induction ds as [|d ds IH]; [done|]. cbn [rev]. unfold horner in *. rewrite fold_left_app, IH. unfold value. simpl. lia. Qed.

Lemma udigit d : 0 ≤ d < 10 → digit udigits d = 48 + d.
Proof.
  intros Hd. assert (forallb (λ d, digit udigits d =? 48 + d) (seqZ 0 10) = true) as Hall by (by vm_compute).
  rewrite forallb_forall in Hall. apply Z.eqb_eq, Hall, list_elem_of_In, elem_of_seqZ. lia.
Qed.

Lemma atoi_loop_digits l n rest :
  0 ≤ n → Forall (λ d, 0 ≤ d < 10) l → horner n l < 2 ^ 31 → match rest with c :: _ => is_digit c = false | [] => True end →
  atoi_loop n ((digit udigits <$> l) ++ rest) = horner n l.
Proof.
  revert n. induction l as [|d l IH]; intros n Hn Hl Hh Hr; [by destruct rest as [|c rest]; cbn; [|rewrite Hr]|].
  inversion_clear Hl as [|?? Hd Hl']. cbn [fmap list_fmap app atoi_loop]. rewrite udigit by done. cbn [horner fold_left] in Hh |- *.
  assert (is_digit (48 + d) = true) as -> by (unfold is_digit; apply andb_true_iff; rewrite !Z.leb_le; lia).
  pose proof (horner_ge l (n * 10 + d) ltac:(lia) Hl') as Hge. unfold horner in Hge.
  rewrite s32_small by lia. replace (n * 10 + (48 + d) - 48) with (n * 10 + d) by lia. apply IH; [lia|done|done|done].
Qed.

(** [atoi] inverts [printint]: the decimal digits of a non-negative [int],
    followed by anything that is not a digit, are read back as the number. *)
Lemma atoi_printint n rest :
  0 ≤ n < 2 ^ 31 → match rest with c :: _ => is_digit c = false | [] => True end →
  ∃ cs, printint udigits n 10 true = Some cs ∧ atoi (cs ++ rest) = n.
Proof.
  intros Hn Hr. unfold printint. destruct (Z.ltb_spec n 0); [lia|]. cbn [andb]. rewrite u64_small by lia.
  destruct (digit_loop_spec 9 64 udigits 10 n) as (ds & -> & Hv & (Hp & _) & _); [lia|split; [lia|]; eapply Z.lt_le_trans; [apply Hn|by vm_compute]|lia|].
  eexists. split; [done|]. cbv iota. rewrite <-fmap_rev. pose proof (horner_value ds) as Eh. rewrite Hv in Eh.
  unfold atoi. rewrite atoi_loop_digits; [done|lia|by apply Forall_rev|lia|done].
Qed.

