(* ===== verification/Console.v ===== *)
(** * The console

    uart.c, console.c and printk.c, and [procdump] of proc.c.  The registers of
    the UART are the operations of the class [Uart] on a state of the device;
    the variables of the three files are in the record [con], which is a part of
    the kernel state (class [HasCon]).  A wait for the device or for another
    process is repeated at most [patience] times. *)

From Stdlib Require Import Ascii.
From S2P Require Import Ulib Printf.
From S2P Require Import Prelude Riscv Memory Kalloc Vm Spinlock Proc Sleeplock.

(** The device: reading a register may have an effect. *)
Class Uart := {
  uart : Type;
  read_reg : Z → uart → Z * uart;
  write_reg : Z → Z → uart → uart;
}.

Definition RHR : Z := 0.
Definition THR : Z := 0.
Definition IER : Z := 1.
Definition IER_RX_ENABLE : Z := 1.
Definition IER_TX_ENABLE : Z := 2.
Definition FCR : Z := 2.
Definition FCR_FIFO_ENABLE : Z := 1.
Definition FCR_FIFO_CLEAR : Z := 6.
Definition ISR : Z := 2.
Definition LCR : Z := 3.
Definition LCR_EIGHT_BITS : Z := 3.
Definition LCR_BAUD_LATCH : Z := 128.
Definition LSR : Z := 5.
Definition LSR_RX_READY : Z := 1.
Definition LSR_TX_IDLE : Z := 32.

Definition BACKSPACE : Z := 256.
Definition ctrl (a : ascii) : Z := ch a - ch "@".
Definition INPUT_BUF_SIZE : Z := 128.

(** struct cons without its lock, tx_busy, panicking and panicked. *)
Record con `{Uart} := mkCon {
  cbuf : Z → Z;
  cr : Z;
  cw : Z;
  ce : Z;
  tx_busy : Z;
  panicking : Z;
  panicked : Z;
  hw : uart;
}.

Arguments mkCon {_}.

(** The console in the kernel state. *)
Class HasCon `{Uart} (fsT : Type) := {
  con_of : fsT → con;
  put_con : con → fsT → fsT;
}.

Section console.
Context {UA : Uart} {fsT : Type} {HC : HasCon fsT} {LY : Layout} {SW : Switch fsT} {PA : Patience}.
Notation K := (kst fsT).

Definition set_cbuf (v : Z → Z) (c : con) : con := mkCon v (cr c) (cw c) (ce c) (tx_busy c) (panicking c) (panicked c) (hw c).
Definition set_cr (v : Z) (c : con) : con := mkCon (cbuf c) v (cw c) (ce c) (tx_busy c) (panicking c) (panicked c) (hw c).
Definition set_cw (v : Z) (c : con) : con := mkCon (cbuf c) (cr c) v (ce c) (tx_busy c) (panicking c) (panicked c) (hw c).
Definition set_ce (v : Z) (c : con) : con := mkCon (cbuf c) (cr c) (cw c) v (tx_busy c) (panicking c) (panicked c) (hw c).
Definition set_tx_busy (v : Z) (c : con) : con := mkCon (cbuf c) (cr c) (cw c) (ce c) v (panicking c) (panicked c) (hw c).
Definition set_panicking (v : Z) (c : con) : con := mkCon (cbuf c) (cr c) (cw c) (ce c) (tx_busy c) v (panicked c) (hw c).
Definition set_panicked (v : Z) (c : con) : con := mkCon (cbuf c) (cr c) (cw c) (ce c) (tx_busy c) (panicking c) v (hw c).
Definition set_hw (v : uart) (c : con) : con := mkCon (cbuf c) (cr c) (cw c) (ce c) (tx_busy c) (panicking c) (panicked c) v.

Definition cget {A} (g : con → A) : M K A := gets (λ s, g (con_of (fsys s))).
Definition cmod (g : con → con) : M K unit := modify (λ s, set_fsys (put_con (g (con_of (fsys s))) (fsys s)) s).

Definition ReadReg (r : Z) : M K Z :=
  d ← cget (λ c, read_reg r (hw c));
  cmod (set_hw d.2) ;;
  mret d.1.
Definition WriteReg (r v : Z) : M K unit := cmod (λ c, set_hw (write_reg r (v mod 256) (hw c)) c).

(** ** uart.c *)

Definition uartinit : M K unit :=
  WriteReg IER 0 ;;
  WriteReg LCR LCR_BAUD_LATCH ;;
  WriteReg 0 3 ;;
  WriteReg 1 0 ;;
  WriteReg LCR LCR_EIGHT_BITS ;;
  WriteReg FCR (Z.lor FCR_FIFO_ENABLE FCR_FIFO_CLEAR) ;;
  WriteReg IER (Z.lor IER_TX_ENABLE IER_RX_ENABLE) ;;
  modify (λ s, set_lks (<[TxLock := initlock]> (lks s)) s).

(** [while (tx_busy != 0) sleep(&tx_chan, &tx_lock);] *)
Fixpoint tx_wait (fuel : nat) : M K unit :=
  match fuel with
  | O => nofuel
  | S fuel' =>
      b ← cget tx_busy;
      if b =? 0 then mret tt else
      sleep ChanTx TxLock ;;
      tx_wait fuel'
  end.

Fixpoint uartwrite_loop (buf : list Z) : M K unit :=
  match buf with
  | [] => mret tt
  | b :: buf' =>
      tx_wait (S patience) ;;
      WriteReg THR b ;;
      cmod (set_tx_busy 1) ;;
      uartwrite_loop buf'
  end.

Definition uartwrite (buf : list Z) : M K unit :=
  acquire TxLock ;;
  uartwrite_loop buf ;;
  release TxLock.

(** [while ((ReadReg(LSR) & LSR_TX_IDLE) == 0);] *)
Fixpoint tx_spin (fuel : nat) : M K unit :=
  match fuel with
  | O => nofuel
  | S fuel' =>
      v ← ReadReg LSR;
      if Z.land v LSR_TX_IDLE =? 0 then tx_spin fuel' else mret tt
  end.

(** After a panic the CPU loops forever. *)
Definition uartputc_sync (c : Z) : M K unit :=
  p ← cget panicking;
  when (p =? 0) (on_cpu push_off) ;;
  q ← cget panicked;
  if negb (q =? 0) then nofuel else
  tx_spin (S patience) ;;
  WriteReg THR c ;;
  p ← cget panicking;
  when (p =? 0) (on_cpu pop_off).

Definition uartgetc : M K Z :=
  v ← ReadReg LSR;
  if negb (Z.land v LSR_RX_READY =? 0) then ReadReg RHR else mret (-1).

(** ** Output *)

Definition consputc (c : Z) : M K unit :=
  if c =? BACKSPACE then
    uartputc_sync (ch "008") ;;
    uartputc_sync (ch " ") ;;
    uartputc_sync (ch "008")
  else uartputc_sync c.

Fixpoint consputs (cs : list Z) : M K unit :=
  match cs with [] => mret tt | c :: cs' => consputc c ;; consputs cs' end.

(** ** printk.c *)

Definition kprintint (xx base : Z) (sign : bool) : option (list Z) :=
  let sign := sign && (xx <? 0) in
  let x := if sign then u64 (- xx) else u64 xx in
  (λ buf, rev (if sign then buf ++ [ch "-"] else buf)) <$> digit_loop 64 kdigits base x.

Definition kprintptr (x : Z) : list Z := ch "0" :: ch "x" :: printptr_loop 16 kdigits x.

Definition kconv_of (c0 c1 c2 : Z) : conv :=
  if isc c0 "d" then CNum Int 10 true 0
  else if isc c0 "l" && isc c1 "d" then CNum Uint64 10 true 1
  else if isc c0 "l" && isc c1 "l" && isc c2 "d" then CNum Uint64 10 true 2
  else if isc c0 "u" then CNum Uint32 10 false 0
  else if isc c0 "l" && isc c1 "u" then CNum Uint64 10 false 1
  else if isc c0 "l" && isc c1 "l" && isc c2 "u" then CNum Uint64 10 false 2
  else if isc c0 "x" then CNum Uint32 16 false 0
  else if isc c0 "l" && isc c1 "x" then CNum Uint64 16 false 1
  else if isc c0 "l" && isc c1 "l" && isc c2 "x" then CNum Uint64 16 false 2
  else if isc c0 "p" then CPtr
  else if isc c0 "c" then CChar
  else if isc c0 "s" then CStr
  else if isc c0 "%" then CPercent
  else if c0 =? 0 then CEnd
  else CUnknown c0.

Definition kconvert (k : conv) (ap : list varg) : option (list Z * list varg * nat) :=
  match k, ap with
  | CNum w base sgn skip, ANum v :: ap' => (λ out, (out, ap', skip)) <$> kprintint (narrow w v) base sgn
  | CPtr, ANum v :: ap' => Some (kprintptr (u64 v), ap', O)
  | CChar, ANum v :: ap' => Some ([s32 v], ap', O)
  | CStr, AStr s :: ap' => Some (match s with Some s => s | None => str "(null)" end, ap', O)
  | CPercent, _ => Some ([ch "%"], ap, O)
  | CUnknown c, _ => Some ([ch "%"; c], ap, O)
  | CEnd, _ => Some ([], ap, O)
  | _, _ => None
  end.

(** [skip] is what was added to [i].  There is no result when an argument is
    missing or of the wrong kind. *)
Fixpoint printk_loop (fmt : list Z) (ap : list varg) (skip : nat) : M K unit :=
  match fmt with
  | [] => mret tt
  | cx :: fmt' =>
      match skip with
      | S skip' => printk_loop fmt' ap skip'
      | O =>
          if negb (isc cx "%") then consputc cx ;; printk_loop fmt' ap O else
          let c0 := nth 0 fmt' 0 in
          let c1 := if negb (c0 =? 0) then nth 1 fmt' 0 else 0 in
          let c2 := if negb (c1 =? 0) then nth 2 fmt' 0 else 0 in
          match kconvert (kconv_of c0 c1 c2) ap with
          | None => nofuel
          | Some (out, ap', skip') => consputs out ;; printk_loop fmt' ap' (S skip')
          end
      end
  end.

Definition printk (fmt : list Z) (ap : list varg) : M K Z :=
  p ← cget panicking;
  when (p =? 0) (acquire PrLock) ;;
  printk_loop fmt ap O ;;
  p ← cget panicking;
  when (p =? 0) (release PrLock) ;;
  mret 0.

(** [panic] does not return. *)
Definition kpanic (msg : list Z) : M K unit :=
  cmod (set_panicking 1) ;;
  _ ← printk (str "panic: ") [];
  _ ← printk (str "%s" ++ [NL]) [AStr (Some msg)];
  cmod (set_panicked 1) ;;
  nofuel.

Definition printkinit : M K unit := modify (λ s, set_lks (<[PrLock := initlock]> (lks s)) s).

(** ** [procdump] *)

Definition state_name (st : procstate) : list Z :=
  match st with
  | UNUSED => str "unused" | USED => str "used" | SLEEPING => str "sleep "
  | RUNNABLE => str "runble" | RUNNING => str "run   " | ZOMBIE => str "zombie"
  end.

Definition procdump : M K unit :=
  _ ← printk [NL] [];
  for_procs NPROC 0 (λ i,
    st ← pget i state;
    if decide (st = UNUSED) then mret tt else
    p ← pget i pid;
    n ← pget i name;
    _ ← printk (str "%d %s %s") [ANum p; AStr (Some (state_name st)); AStr (Some (before_nul n))];
    _ ← printk [NL] [];
    mret tt).

(** ** console.c *)

Fixpoint consolewrite_loop (fuel : nat) (user_src : bool) (src n i : Z) : M K Z :=
  match fuel with
  | O => nofuel
  | S fuel' =>
      if negb (i <? n) then mret i else
      let nn := if n - i <? 32 then n - i else 32 in
      r ← either_copyin user_src (u64 (src + i)) nn;
      if r.1 =? -1 then mret i else
      uartwrite r.2 ;;
      consolewrite_loop fuel' user_src src n (i + nn)
  end.

(** Each round but the last writes 32 bytes. *)
Definition consolewrite (user_src : bool) (src n : Z) : M K Z :=
  consolewrite_loop (S (S (Z.to_nat (n / 32)))) user_src src n 0.

(** [while (cons.r == cons.w)]: false if the process was killed. *)
Fixpoint cons_wait (fuel : nat) : M K bool :=
  match fuel with
  | O => nofuel
  | S fuel' =>
      r ← cget cr;
      w ← cget cw;
      if negb (r =? w) then mret true else
      p ← current;
      k ← killed p;
      if negb (k =? 0) then
        release ConsLock ;;
        mret false
      else
        sleep ChanCons ConsLock ;;
        cons_wait fuel'
  end.

(** The loop of [consoleread], [n] rounds at most: None after the early return,
    else what is left of [n]. *)
Fixpoint consoleread_loop (n : nat) (target : Z) (user_dst : bool) (dst : Z) : M K (option Z) :=
  match n with
  | O => mret (Some 0)
  | S n' =>
      go ← cons_wait (S patience);
      if negb go then mret None else
      r ← cget cr;
      c ← cget (λ k, cbuf k (r mod INPUT_BUF_SIZE));
      cmod (set_cr (u32 (r + 1))) ;;
      if c =? ctrl "D" then
        when (Z.of_nat n <? target) (cmod (λ k, set_cr (u32 (cr k - 1)) k)) ;;
        mret (Some (Z.of_nat n))
      else
      e ← either_copyout user_dst dst [c];
      if e =? -1 then mret (Some (Z.of_nat n)) else
      if c =? NL then mret (Some (Z.of_nat n')) else
      consoleread_loop n' target user_dst (u64 (dst + 1))
  end.

Definition consoleread (user_dst : bool) (dst n : Z) : M K Z :=
  acquire ConsLock ;;
  r ← consoleread_loop (Z.to_nat n) n user_dst dst;
  match r with
  | None => mret (-1)
  | Some rest =>
      release ConsLock ;;
      mret (if n <? 0 then 0 else n - rest)
  end.

(** [while (cons.e != cons.w && ...)] of control-u: at most a full buffer. *)
Fixpoint kill_line (fuel : nat) : M K unit :=
  match fuel with
  | O => nofuel
  | S fuel' =>
      e ← cget ce;
      w ← cget cw;
      b ← cget (λ k, cbuf k (u32 (e - 1) mod INPUT_BUF_SIZE));
      if negb (e =? w) && negb (b =? NL) then
        cmod (set_ce (u32 (e - 1))) ;;
        consputc BACKSPACE ;;
        kill_line fuel'
      else mret tt
  end.

Definition consoleintr (c : Z) : M K unit :=
  acquire ConsLock ;;
  (if c =? ctrl "P" then procdump
   else if c =? ctrl "U" then kill_line (S (Z.to_nat INPUT_BUF_SIZE))
   else if (c =? ctrl "H") || (c =? 127) then
     e ← cget ce;
     w ← cget cw;
     when (negb (e =? w)) (cmod (set_ce (u32 (e - 1))) ;; consputc BACKSPACE)
   else
     e ← cget ce;
     r ← cget cr;
     when (negb (c =? 0) && (u32 (e - r) <? INPUT_BUF_SIZE))
       (let c := if c =? CR then NL else c in
        consputc c ;;
        cmod (λ k, set_ce (u32 (e + 1)) (set_cbuf (<[e mod INPUT_BUF_SIZE := c]> (cbuf k)) k)) ;;
        when ((c =? NL) || (c =? ctrl "D") || (u32 (u32 (e + 1) - r) =? INPUT_BUF_SIZE))
          (cmod (λ k, set_cw (ce k) k) ;;
           wakeup ChanCons))) ;;
  release ConsLock.

Definition consoleinit : M K unit :=
  modify (λ s, set_lks (<[ConsLock := initlock]> (lks s)) s) ;;
  uartinit.

(** The loop of [uartintr] over the characters that have arrived. *)
Fixpoint uartintr_loop (fuel : nat) : M K unit :=
  match fuel with
  | O => nofuel
  | S fuel' =>
      c ← uartgetc;
      if c =? -1 then mret tt else
      consoleintr c ;;
      uartintr_loop fuel'
  end.

Definition uartintr : M K unit :=
  _ ← ReadReg ISR;
  acquire TxLock ;;
  v ← ReadReg LSR;
  when (negb (Z.land v LSR_TX_IDLE =? 0))
    (cmod (set_tx_busy 0) ;;
     wakeup ChanTx) ;;
  release TxLock ;;
  uartintr_loop (S patience).
End console.
