(* ===== verification/ConsoleOps.v ===== *)
(** * The console as an editor of lines

    [consoleintr] and [consoleread] against an abstract console: the characters
    of finished lines that are ready to be read, and the line being edited. *)

From Stdlib Require Import FunctionalExtensionality Ascii.
From S2P Require Import Ulib Printf.
From S2P Require Import Prelude Riscv Memory Kalloc Vm VmInv Cow VmUser CopyUser CopyPut Spinlock Proc ProcOps Sleeplock Console.

(** The console is a component of the state. *)
Class ConLaws {UA : Uart} (fsT : Type) {HC : HasCon fsT} := {
  con_put k f : con_of (put_con k f) = k;
  put_of f : put_con (con_of f) f = f;
  put_put k k' f : put_con k (put_con k' f) = put_con k f;
}.

(** The transmitter is idle at one of the next [n + 1] readings. *)
Fixpoint idle_within `{Uart} (n : nat) (d : uart) : Prop :=
  Z.land (read_reg LSR d).1 LSR_TX_IDLE ≠ 0 ∨
  match n with O => False | S n' => idle_within n' (read_reg LSR d).2 end.

(** What is known of the device: reading a register sends nothing, a byte
    written to THR is sent, and the transmitter gets idle. *)
Class UartLaws (UA : Uart) (PA : Patience) := {
  sent : uart → list Z;
  sent_read r d : sent (read_reg r d).2 = sent d;
  sent_write v d : sent (write_reg THR v d) = sent d ++ [v];
  tx_soon d : idle_within patience d;
}.

Section consoleops.
Context {UA : Uart} {fsT : Type} {HC : HasCon fsT} {LY : Layout} {SW : Switch fsT} {PA : Patience}.
Context {CL : ConLaws fsT} {UL : UartLaws UA PA}.
Notation K := (kst fsT).

(** The state with another console. *)
Definition st (k : con) (s : K) : K := set_fsys (put_con k (fsys s)) s.

Lemma st_of s : st (con_of (fsys s)) s = s.
Proof. unfold st. rewrite put_of. by destruct s. Qed.

Lemma wp_cget {A} (g : con → A) k s Q : Q (g k) (st k s) → wp (cget g) (st k s) Q.
Proof. intros HQ. apply wp_gets. cbn [fsys set_fsys st]. by rewrite con_put. Qed.

Lemma wp_cmod g k s Q : Q tt (st (g k) s) → wp (cmod g) (st k s) Q.
Proof.
  intros HQ. apply wp_modify. cbn [fsys set_fsys st]. rewrite con_put. unfold st in HQ |- *. unfold set_fsys in *. simpl in *. by rewrite put_put.
Qed.

(** ** Output *)

Lemma wp_read_reg r k s Q :
  Q (read_reg r (hw k)).1 (st (set_hw (read_reg r (hw k)).2 k) s) → wp (ReadReg r) (st k s) Q.
Proof. intros HQ. apply wp_bind, wp_cget. by apply wp_bind, wp_cmod, wp_ret. Qed.

Lemma wp_tx_spin n k s Q :
  idle_within n (hw k) → (∀ d, sent d = sent (hw k) → Q tt (st (set_hw d k) s)) → wp (tx_spin (S n)) (st k s) Q.
Proof.
  revert k. induction n as [|n IH]; intros k Hi HQ.
  - destruct Hi as [Hi|[]]. cbn [tx_spin]. apply wp_bind, wp_read_reg. destruct (Z.eqb_spec (Z.land (read_reg LSR (hw k)).1 LSR_TX_IDLE) 0); [done|].
    apply wp_ret, HQ, sent_read.
  - change (tx_spin (S (S n))) with (v ← ReadReg LSR; if Z.land v LSR_TX_IDLE =? 0 then tx_spin (S n) else mret tt).
    apply wp_bind, wp_read_reg. destruct (Z.eqb_spec (Z.land (read_reg LSR (hw k)).1 LSR_TX_IDLE) 0) as [E|E]; [|apply wp_ret, HQ, sent_read].
    destruct Hi as [Hi|Hi]; [done|]. apply IH; [exact Hi|]. intros d Hd. apply (HQ d). rewrite Hd. cbn [hw set_hw]. apply sent_read.
Qed.

(** The console can print. *)
Definition calm (k : con) : Prop := panicking k = 0 ∧ panicked k = 0.

Lemma wp_putc c k s Q :
  calm k → cpu_ok (kcpu s) → 0 < noff (kcpu s) →
  (∀ d, sent d = sent (hw k) ++ [c mod 256] → Q tt (st (set_hw d k) s)) → wp (uartputc_sync c) (st k s) Q.
Proof.
  intros [C1 C2] Hk Hn HQ. apply wp_bind, wp_cget. rewrite C1. change (0 =? 0) with true. apply wp_bind. change (when true (on_cpu push_off)) with (@on_cpu fsT _ push_off).
  apply wp_push_off. change (set_kcpu _ (st k s)) with (st k (set_kcpu (pushed (kcpu s)) s)). set (s1 := set_kcpu (pushed (kcpu s)) s).
  apply wp_bind, wp_cget. rewrite C2. change (negb (0 =? 0)) with false. apply wp_bind, wp_tx_spin; [apply tx_soon|]. intros d Hd.
  apply wp_bind, wp_cmod, wp_bind, wp_cget. cbn [panicking set_hw]. rewrite C1. change (0 =? 0) with true.
  change (when true (on_cpu pop_off)) with (@on_cpu fsT _ pop_off). cbn [hw set_hw].
  apply (wp_pop_off (kcpu s)); [done|done|]. rewrite touch_pos by done.
  replace (set_kcpu (kcpu s) _) with (st (set_hw (write_reg THR (c mod 256) d) k) s) by (by destruct s).
  apply HQ. rewrite sent_write. by rewrite Hd.
Qed.

(** What a character looks like on the terminal. *)
Definition shown (c : Z) : list Z := if c =? BACKSPACE then [8; 32; 8] else [c mod 256].

Lemma wp_consputc c k s Q :
  calm k → cpu_ok (kcpu s) → 0 < noff (kcpu s) →
  (∀ d, sent d = sent (hw k) ++ shown c → Q tt (st (set_hw d k) s)) → wp (consputc c) (st k s) Q.
Proof.
  intros C Hk Hn HQ. unfold consputc, shown in *. destruct (c =? BACKSPACE); [|by apply wp_putc].
  apply wp_bind, wp_putc; [done..|]. intros d1 E1. apply wp_bind, wp_putc; [done..|]. intros d2 E2. apply wp_putc; [done..|]. intros d3 E3.
  apply (HQ d3). rewrite E3. cbn [hw set_hw]. rewrite E2. cbn [hw set_hw]. rewrite E1. by rewrite <-!app_assoc.
Qed.

(** ** The ring buffer *)

Definition len (l : list Z) : Z := Z.of_nat (length l).

(** [rd] is ready to be read and [ed] is being edited.  The indices are 32-bit
    counters that wrap around. *)
Record crep (k : con) (rd ed : list Z) : Prop := {
  cp_r : 0 ≤ cr k < 2 ^ 32;
  cp_w : cw k = u32 (cr k + len rd);
  cp_e : ce k = u32 (cr k + len rd + len ed);
  cp_len : len rd + len ed ≤ INPUT_BUF_SIZE;
  cp_buf i : 0 ≤ i < len rd + len ed → cbuf k ((cr k + i) mod INPUT_BUF_SIZE) = nth (Z.to_nat i) (rd ++ ed) 0;
  cp_ed : NL ∉ ed;
}.

Lemma u32_slot x : u32 x mod INPUT_BUF_SIZE = x mod INPUT_BUF_SIZE.
Proof. unfold u32, INPUT_BUF_SIZE. dlia. Qed.
Lemma u32_minus x y : u32 (u32 x - y) = u32 (x - y).
Proof. unfold u32. dlia. Qed.
Lemma u32_plus x y : u32 (u32 x + y) = u32 (x + y).
Proof. unfold u32. dlia. Qed.

Lemma len_nonneg l : 0 ≤ len l.
Proof. unfold len. lia. Qed.
Lemma len_app l l' : len (l ++ l') = len l + len l'.
Proof. unfold len. rewrite length_app. lia. Qed.

Lemma crep_hw k rd ed d : crep k rd ed → crep (set_hw d k) rd ed.
Proof. intros []. by split. Qed.

(** Whether a line is being edited. *)
Lemma crep_empty k rd ed : crep k rd ed → (ce k =? cw k) = bool_decide (ed = []).
Proof.
  intros [c1 c2 c3 c4 _ _]. pose proof (len_nonneg rd). rewrite c2, c3. destruct ed as [|b ed].
  - rewrite Z.add_0_r. by rewrite Z.eqb_refl.
  - rewrite bool_decide_false by done. apply Z.eqb_neq. unfold INPUT_BUF_SIZE, len, u32 in *. simpl length in *. dlia.
Qed.

(** The last character of the line. *)
Lemma crep_last k rd ed b : crep k rd (ed ++ [b]) → cbuf k (u32 (ce k - 1) mod INPUT_BUF_SIZE) = b ∧ b ≠ NL ∧ crep (set_ce (u32 (ce k - 1)) k) rd ed.
Proof.
  intros [c1 c2 c3 c4 c5 c6]. pose proof (len_nonneg rd). pose proof (len_nonneg ed). rewrite len_app in *. change (len [b]) with 1 in *.
  apply not_elem_of_app in c6 as [c6 c7]. apply not_elem_of_cons in c7 as [c7 _]. rewrite c3, u32_minus.
  replace (cr k + len rd + (len ed + 1) - 1) with (cr k + (len rd + len ed)) by lia. split; [|split; [congruence|]].
  - rewrite u32_slot, c5 by lia. rewrite app_assoc. replace (Z.to_nat (len rd + len ed)) with (length (rd ++ ed)) by (rewrite length_app; unfold len; lia).
    apply nth_middle.
  - split; try done; cbn [cr cw ce cbuf set_ce]; [f_equal; lia|lia|]. intros i Hi. rewrite c5 by lia. rewrite app_assoc. apply app_nth1. rewrite length_app. unfold len in *. lia.
Qed.

(** One more character in the line. *)
Lemma crep_push k rd ed c :
  crep k rd ed → len rd + len ed < INPUT_BUF_SIZE → c ≠ NL →
  crep (set_ce (u32 (ce k + 1)) (set_cbuf (<[ce k mod INPUT_BUF_SIZE := c]> (cbuf k)) k)) rd (ed ++ [c]).
Proof.
  intros [c1 c2 c3 c4 c5 c6] Hl Hc. pose proof (len_nonneg rd). pose proof (len_nonneg ed).
  split; cbn [cr cw ce cbuf set_ce set_cbuf]; [done|done| | | |].
  - rewrite c3, u32_plus, len_app. change (len [c]) with 1. f_equal. lia.
  - rewrite len_app. change (len [c]) with 1. lia.
  - intros i Hi. rewrite len_app in Hi. change (len [c]) with 1 in Hi. rewrite c3, u32_slot, app_assoc. destruct (decide (i = len rd + len ed)) as [->|Hne].
    + rewrite Z.add_assoc, fn_lookup_insert. replace (Z.to_nat (len rd + len ed)) with (length (rd ++ ed)) by (rewrite length_app; unfold len; lia). by rewrite nth_middle.
    + rewrite fn_lookup_insert_ne, c5 by (unfold INPUT_BUF_SIZE in *; dlia || lia). symmetry. apply app_nth1. rewrite length_app. unfold len in *. lia.
  - rewrite not_elem_of_app. split; [done|]. apply not_elem_of_cons. split; [congruence|apply not_elem_of_nil].
Qed.

(** The line is finished with [c]. *)
Lemma crep_finish k rd ed c :
  crep k rd ed → len rd + len ed < INPUT_BUF_SIZE →
  let k' := set_ce (u32 (ce k + 1)) (set_cbuf (<[ce k mod INPUT_BUF_SIZE := c]> (cbuf k)) k) in
  crep (set_cw (ce k') k') (rd ++ ed ++ [c]) [].
Proof.
  intros [c1 c2 c3 c4 c5 c6] Hl k'. pose proof (len_nonneg rd). pose proof (len_nonneg ed). change (len []) with 0.
  assert (len (rd ++ ed ++ [c]) = len rd + len ed + 1) as El by (rewrite !len_app; change (len [c]) with 1; lia).
  split; cbn [cr cw ce cbuf set_ce set_cbuf set_cw k']; change (len []) with 0; rewrite ?El; [done| | |lia| |apply not_elem_of_nil].
  - rewrite c3, u32_plus. f_equal. lia.
  - rewrite c3, u32_plus. f_equal. lia.
  - intros i Hi. rewrite c3, u32_slot, app_nil_r, app_assoc. destruct (decide (i = len rd + len ed)) as [->|Hne].
    + rewrite Z.add_assoc, fn_lookup_insert. replace (Z.to_nat (len rd + len ed)) with (length (rd ++ ed)) by (rewrite length_app; unfold len; lia). by rewrite nth_middle.
    + rewrite fn_lookup_insert_ne, c5 by (unfold INPUT_BUF_SIZE in *; dlia || lia). symmetry. apply app_nth1. rewrite length_app. unfold len in *. lia.
Qed.

Lemma crep_room k rd ed : crep k rd ed → u32 (ce k - cr k) = len rd + len ed.
Proof.
  intros [c1 c2 c3 c4 _ _]. pose proof (len_nonneg rd). pose proof (len_nonneg ed). rewrite c3, u32_minus.
  replace (cr k + len rd + len ed - cr k) with (len rd + len ed) by lia. apply u32_small. unfold INPUT_BUF_SIZE in *. lia.
Qed.

Lemma crep_room1 k rd ed : crep k rd ed → len rd + len ed < INPUT_BUF_SIZE → u32 (u32 (ce k + 1) - cr k) = len rd + len ed + 1.
Proof.
  intros [c1 c2 c3 c4 _ _] Hl. pose proof (len_nonneg rd). pose proof (len_nonneg ed). rewrite u32_minus, c3.
  replace (u32 (cr k + len rd + len ed) + 1 - cr k) with (u32 (cr k + len rd + len ed) + (1 - cr k)) by lia. rewrite u32_plus.
  replace (cr k + len rd + len ed + (1 - cr k)) with (len rd + len ed + 1) by lia. apply u32_small. unfold INPUT_BUF_SIZE in *. lia.
Qed.

(** ** [consoleintr] *)

(** The abstract console: what a character does to the two lists, and what is
    shown. *)
Definition typed (c : Z) (rd ed : list Z) : list Z * list Z * list Z :=
  if c =? ctrl "U" then (rd, [], concat ((λ _, shown BACKSPACE) <$> ed))
  else if (c =? ctrl "H") || (c =? 127) then
    (rd, removelast ed, if bool_decide (ed = []) then [] else shown BACKSPACE)
  else if negb (c =? 0) && (len rd + len ed <? INPUT_BUF_SIZE) then
    let c := if c =? CR then NL else c in
    if (c =? NL) || (c =? ctrl "D") || (len rd + len ed + 1 =? INPUT_BUF_SIZE)
    then (rd ++ ed ++ [c], [], shown c) else (rd, ed ++ [c], shown c)
  else (rd, ed, []).

Lemma concat_const (x ed : list Z) : x ++ concat ((λ _, x) <$> ed) = concat ((λ _, x) <$> ed) ++ x.
Proof. induction ed as [|b ed IH]; cbn [fmap list_fmap concat]; [by rewrite app_nil_r|]. by rewrite IH at 1; rewrite app_assoc. Qed.

Lemma wp_kill_line fuel k rd ed s Q :
  crep k rd ed → calm k → cpu_ok (kcpu s) → 0 < noff (kcpu s) → (length ed < fuel)%nat →
  (∀ k', crep k' rd [] → calm k' → tx_busy k' = tx_busy k → sent (hw k') = sent (hw k) ++ concat ((λ _, shown BACKSPACE) <$> ed) → Q tt (st k' s)) →
  wp (kill_line fuel) (st k s) Q.
Proof.
  revert k ed. induction fuel as [|fuel IH]; intros k ed R C Hk Hn Hf HQ; [lia|]. cbn [kill_line].
  apply wp_bind, wp_cget. apply wp_bind, wp_cget. apply wp_bind, wp_cget. rewrite (crep_empty _ _ _ R).
  destruct ed as [|b ed _] using rev_ind.
  - rewrite bool_decide_true by done. apply wp_ret, HQ; [done..|]. simpl. by rewrite app_nil_r.
  - rewrite bool_decide_false by (by destruct ed). destruct (crep_last _ _ _ _ R) as (Eb & Hb & R'). rewrite Eb. destruct (Z.eqb_spec b NL); [done|]. cbn [negb andb].
    apply wp_bind, wp_cmod. apply wp_bind, wp_consputc; [done..|]. intros d Hd. rewrite length_app in Hf. simpl in Hf.
    apply (IH _ ed); [by apply crep_hw|done..|lia|]. intros k' R1 C1 Et E1. apply HQ; [done|done|done|]. rewrite E1. cbn [hw set_hw]. rewrite Hd. cbn [hw set_ce].
    rewrite fmap_app, concat_app, <-!app_assoc. f_equal. cbn [fmap list_fmap concat]. rewrite app_nil_r. apply concat_const.
Qed.

(** The state after the handler: another console, and readers woken if a line
    was finished. *)
Definition after (woke : bool) (k : con) (s : K) : K :=
  relax (set_procs (if woke then woken ChanCons (cproc s) (procs s) else procs s) (st k s)).

Lemma wp_cons_leave k s Q :
  unlocked s → lks s ConsLock = initlock → Q tt (after false k s) → wp (release ConsLock) (st k (entered ConsLock s)) Q.
Proof. intros U Hl HQ. by apply (wp_leave ConsLock (st k s)); [apply U|..]. Qed.

(** The readers are woken before the lock is released. *)
Lemma wp_cons_wake k s Q :
  unlocked s → lks s ConsLock = initlock → Q tt (after true k s) →
  wp (wakeup ChanCons) (st k (entered ConsLock s)) (λ _ s', wp (release ConsLock) s' Q).
Proof.
  intros U Hl HQ. apply wp_wakeup.
  - split; [apply cpu_ok_pushed, U|intros j; simpl; rewrite fn_lookup_insert_ne by done; apply U|apply U].
  - rewrite relax_pos by (destruct (ul_cpu _ U); simpl; lia). by apply (wp_leave ConsLock (set_procs (woken ChanCons (cproc s) (procs s)) (st k s))); [apply U|..].
Qed.

Lemma wp_consoleintr k rd ed c s Q :
  unlocked s → lks s ConsLock = initlock → crep k rd ed → calm k → c ≠ ctrl "P" →
  (∀ k', let '(rd', ed', out) := typed c rd ed in
     crep k' rd' ed' → calm k' → tx_busy k' = tx_busy k → sent (hw k') = sent (hw k) ++ out →
     Q tt (after (negb (bool_decide (rd' = rd))) k' s)) →
  wp (consoleintr c) (st k s) Q.
Proof.
  intros U Hl R C Hc HQ. apply wp_bind, wp_acquire; [done|]. change (entered ConsLock (st k s)) with (st k (entered ConsLock s)).
  set (s1 := entered ConsLock s). assert (cpu_ok (kcpu s1)) as Hk by apply cpu_ok_pushed, U. assert (0 < noff (kcpu s1)) as Hn by (destruct (ul_cpu _ U); simpl; lia).
  apply wp_bind. destruct (Z.eqb_spec c (ctrl "P")); [done|]. unfold typed in HQ. destruct (c =? ctrl "U").
  { assert (length ed < S (Z.to_nat INPUT_BUF_SIZE))%nat as Hf by (pose proof (cp_len _ _ _ R) as HL; pose proof (len_nonneg rd); unfold len, INPUT_BUF_SIZE in *; lia).
    apply (wp_kill_line _ k rd ed); [done..|]. intros k' R' C' Et E'. apply wp_cons_leave; [done..|]. specialize (HQ k'). cbv beta iota in HQ.
    rewrite bool_decide_true in HQ by done. by apply HQ. }
  destruct ((c =? ctrl "H") || (c =? 127)).
  { apply wp_bind, wp_cget. apply wp_bind, wp_cget. rewrite (crep_empty _ _ _ R). destruct ed as [|b ed _] using rev_ind.
    - rewrite bool_decide_true by done. apply wp_when; [done|]. intros _. apply wp_cons_leave; [done..|]. specialize (HQ k). rewrite !bool_decide_true in HQ by done.
      apply HQ; [done..|]. by rewrite app_nil_r.
    - rewrite bool_decide_false by (by destruct ed). apply wp_when; [|done]. intros _. destruct (crep_last _ _ _ _ R) as (Eb & Hb & R').
      apply wp_bind, wp_cmod. apply wp_consputc; [done..|]. intros d Hd. apply wp_cons_leave; [done..|].
      specialize (HQ (set_hw d (set_ce (u32 (ce k - 1)) k))). rewrite removelast_last, (bool_decide_true (rd = rd)) in HQ by done.
      rewrite bool_decide_false in HQ by (by destruct ed). apply HQ; [by apply crep_hw|done|done|exact Hd]. }
  apply wp_bind, wp_cget. apply wp_bind, wp_cget. rewrite (crep_room _ _ _ R).
  destruct (negb (c =? 0) && (len rd + len ed <? INPUT_BUF_SIZE)) eqn:Ea.
  2: { apply wp_when; [done|]. intros _. apply wp_cons_leave; [done..|]. specialize (HQ k). rewrite bool_decide_true in HQ by done. apply HQ; [done..|]. by rewrite app_nil_r. }
  apply andb_true_iff in Ea as [_ Hlt%Z.ltb_lt]. apply wp_when; [|done]. intros _. cbv zeta. set (c' := if c =? CR then NL else c) in *.
  apply wp_bind, wp_consputc; [done..|]. intros d Hd. apply wp_bind, wp_cmod. set (k1 := set_ce _ _).
  rewrite (crep_room1 _ _ _ R Hlt). pose proof (crep_hw _ _ _ d R) as R1. destruct ((c' =? NL) || _ || _) eqn:Ef.
  - apply wp_when; [|done]. intros _. apply wp_bind, wp_cmod. apply wp_cons_wake; [done..|].
    specialize (HQ (set_cw (ce k1) k1)). rewrite bool_decide_false in HQ.
    + apply HQ; [exact (crep_finish _ _ _ c' R1 Hlt)|done|done|exact Hd].
    + intros E%(f_equal len). rewrite !len_app in E. change (len [c']) with 1 in E. pose proof (len_nonneg ed). lia.
  - apply wp_when; [done|]. intros _. apply wp_cons_leave; [done..|]. specialize (HQ k1). rewrite bool_decide_true in HQ by done.
    apply HQ; [|done|done|exact Hd]. apply (crep_push _ _ _ c' R1 Hlt). apply orb_false_iff in Ef as [[Ef _]%orb_false_iff _]. by apply Z.eqb_neq.
Qed.

(** ** [consoleread] *)

(** What a read of [n] characters gets and what it leaves, if it need not wait.
    A control-d ends it, and stays for the next read unless it comes first. *)
Fixpoint line_of (n : nat) (first : bool) (rd : list Z) : option (list Z * list Z) :=
  match n with
  | O => Some ([], rd)
  | S n' =>
      match rd with
      | [] => None
      | c :: rd' =>
          if c =? ctrl "D" then Some ([], if first then rd' else rd)
          else if c =? NL then Some ([c], rd')
          else (λ r, (c :: r.1, r.2)) <$> line_of n' false rd'
      end
  end.

Lemma crep_pop k c rd ed : crep k (c :: rd) ed →
  (cr k =? cw k) = false ∧ cbuf k (cr k mod INPUT_BUF_SIZE) = c ∧ crep (set_cr (u32 (cr k + 1)) k) rd ed.
Proof.
  intros [c1 c2 c3 c4 c5 c6]. pose proof (len_nonneg rd). pose proof (len_nonneg ed). assert (len (c :: rd) = len rd + 1) as El by (unfold len; simpl length; lia).
  rewrite El in *. split_and!.
  - apply Z.eqb_neq. rewrite c2. unfold INPUT_BUF_SIZE, u32 in *. dlia.
  - specialize (c5 0 ltac:(lia)). by rewrite Z.add_0_r in c5.
  - split; cbn [cr cw ce cbuf set_cr]; try done.
    + unfold u32. dlia.
    + rewrite c2, u32_plus. f_equal. lia.
    + rewrite c3. replace (u32 (cr k + 1) + len rd + len ed) with (u32 (cr k + 1) + (len rd + len ed)) by lia. rewrite u32_plus. f_equal. lia.
    + lia.
    + intros i Hi. specialize (c5 (i + 1) ltac:(lia)). replace (Z.to_nat (i + 1)) with (S (Z.to_nat i)) in c5 by lia. cbn [app nth] in c5. rewrite <-c5. f_equal.
      unfold u32, INPUT_BUF_SIZE in *. dlia.
Qed.

Lemma wp_cons_ready fuel k c rd ed s Q :
  crep k (c :: rd) ed → Q true (st k s) → wp (cons_wait (S fuel)) (st k s) Q.
Proof. intros R HQ. cbn [cons_wait]. apply wp_bind, wp_cget. apply wp_bind, wp_cget. destruct (crep_pop _ _ _ _ R) as (-> & _). by apply wp_ret. Qed.

(** A byte for the process that reads. *)
Lemma wp_copyout_user {LO : LayoutOk} i p g m k dst bs s Q :
  cpu_ok (kcpu s) → 0 < noff (kcpu s) → cproc s = Some i → procs s !! i = Some p →
  vinv g m → pagetable p ∈ roots g → 0 ≤ dst → are_bytes bs → span_writable m (pagetable p) dst (length bs) →
  (∀ m', put (pagetable p) dst bs g m m' → Q 0 (st k (set_mach m' s))) →
  wp (either_copyout true dst bs) (st k (set_mach m s)) Q.
Proof.
  intros Hk Hn Hc Hp V Hr Hd Hb Hw HQ. apply wp_bind, wp_myproc; [done|]. rewrite relax_pos by done.
  change (cproc (st k (set_mach m s))) with (cproc s). rewrite Hc. apply wp_bind, (wp_pget i p); [done|].
  apply wp_zoom, (wp_copyout_put _ (pagetable p) g); done.
Qed.

Lemma consoleread_loop_eq n target ud dst :
  consoleread_loop (S n) target ud dst =
    (go ← cons_wait (S patience); if negb go then mret None else r ← cget cr; c ← cget (λ k, cbuf k (r mod INPUT_BUF_SIZE)); cmod (set_cr (u32 (r + 1))) ;;
     if c =? ctrl "D" then when (Z.of_nat (S n) <? target) (cmod (λ k, set_cr (u32 (cr k - 1)) k)) ;; mret (Some (Z.of_nat (S n))) else
     e ← either_copyout ud dst [c]; if e =? -1 then mret (Some (Z.of_nat (S n))) else if c =? NL then mret (Some (Z.of_nat n)) else
     consoleread_loop n target ud (u64 (dst + 1)) : M K (option Z)).
Proof. done. Qed.

Lemma wp_consoleread_loop {LO : LayoutOk} i p g n target dst k rd ed out rest first m s Q :
  line_of n first rd = Some (out, rest) → crep k rd ed → are_bytes rd → cpu_ok (kcpu s) → 0 < noff (kcpu s) →
  cproc s = Some i → procs s !! i = Some p → vinv g m → pagetable p ∈ roots g → span_writable m (pagetable p) dst n →
  Z.of_nat n ≤ target → first = bool_decide (Z.of_nat n = target) → 0 ≤ dst → dst + Z.of_nat n < 2 ^ 64 →
  (∀ k' m', crep k' rest ed → hw k' = hw k → put (pagetable p) dst out g m m' → Q (Some (Z.of_nat n - len out)) (st k' (set_mach m' s))) →
  wp (consoleread_loop n target true dst) (st k (set_mach m s)) Q.
Proof.
  intros Hl R Hb Hk Hn Hc Hp. revert dst k rd out first m Hl R Hb.
  induction n as [|n IH]; intros dst k rd out first m Hl R Hb V Hr Hw Ht Hf Hd Hdn HQ.
  { simplify_eq/=. apply wp_ret. apply HQ; [done|done|by apply put_nil]. }
  cbn [line_of] in Hl. destruct rd as [|c rd]; [done|]. rewrite consoleread_loop_eq. apply Forall_cons in Hb as [Hbc Hb].
  apply wp_bind, (wp_cons_ready _ k c rd ed); [done|]. cbn [negb]. apply wp_bind, wp_cget. apply wp_bind, wp_cget.
  destruct (crep_pop _ _ _ _ R) as (_ & -> & R'). apply wp_bind, wp_cmod. destruct (c =? ctrl "D").
  - assert ((Z.of_nat (S n) <? target) = negb first) as -> by (rewrite Hf; case_bool_decide; [apply Z.ltb_ge|apply Z.ltb_lt]; lia).
    destruct first; injection Hl as <- <-; apply wp_bind; cbn [negb].
    + apply wp_when; [done|]. intros _. apply wp_ret. rewrite <-(Z.sub_0_r (Z.of_nat (S n))). by apply (HQ _ m R'); [|apply put_nil].
    + apply wp_when; [|done]. intros _. apply wp_cmod, wp_ret. cbn [cr set_cr]. rewrite <-(Z.sub_0_r (Z.of_nat (S n))).
      assert (set_cr (u32 (u32 (cr k + 1) - 1)) (set_cr (u32 (cr k + 1)) k) = k) as Ek.
      { rewrite u32_minus. replace (cr k + 1 - 1) with (cr k) by lia. rewrite u32_small by apply R. by destruct k. }
      rewrite Ek. by apply (HQ k m); [| |apply put_nil].
  - apply wp_bind, (wp_copyout_user i p g); [done..|by apply Forall_singleton|intros va Hva; apply Hw; simpl in Hva; lia|].
    intros m1 P1. change (0 =? -1) with false. destruct (c =? NL).
    + simplify_eq/=. apply wp_ret. replace (Z.of_nat n) with (Z.of_nat (S n) - len [c]) by (unfold len; simpl; lia). by apply HQ.
    + destruct (line_of n false rd) as [[out' rest']|] eqn:El; [|done]. simplify_eq/=. rewrite u64_small by lia.
      eapply (IH (dst + 1)); [done|done|done|apply P1|done| |lia|rewrite bool_decide_false; [done|lia]|lia|lia|].
      * intros va Hva. eapply put_writable; [done|exact P1|]. apply Hw. lia.
      * intros k' m' R1 Eh P2. replace (Z.of_nat n - len out') with (Z.of_nat (S n) - len (c :: out')) by (unfold len; simpl length; lia).
        apply HQ; [done|done|]. by apply (put_app _ _ [c] out' _ _ m1).
Qed.

Lemma wp_consoleread {LO : LayoutOk} i p g n dst k rd ed out rest s Q :
  line_of n true rd = Some (out, rest) → crep k rd ed → are_bytes rd → unlocked s → lks s ConsLock = initlock →
  cproc s = Some i → procs s !! i = Some p → vinv g (mach s) → pagetable p ∈ roots g → span_writable (mach s) (pagetable p) dst n →
  0 ≤ dst → dst + Z.of_nat n < 2 ^ 64 →
  (∀ k' m', crep k' rest ed → hw k' = hw k → put (pagetable p) dst out g (mach s) m' → Q (len out) (relax (st k' (set_mach m' s)))) →
  wp (consoleread true dst (Z.of_nat n)) (st k s) Q.
Proof.
  intros Hl R Hb U Hlk Hc Hp V Hr Hw Hd Hdn HQ. apply wp_bind, wp_acquire; [done|]. rewrite Nat2Z.id.
  assert (entered ConsLock (st k s) = st k (set_mach (mach s) (entered ConsLock s))) as -> by (by destruct s).
  apply wp_bind, (wp_consoleread_loop i p g n (Z.of_nat n) dst k rd ed out rest true);
    [done|done|done|apply cpu_ok_pushed, U|destruct (ul_cpu _ U); simpl; lia|done|done|done|done|done|lia|by rewrite bool_decide_true|done|done|].
  intros k' m' R' Eh P. apply wp_bind. apply (wp_leave ConsLock (st k' (set_mach m' s))); [apply U|done|].
  apply wp_ret. destruct (Z.ltb_spec (Z.of_nat n) 0); [lia|]. replace (Z.of_nat n - (Z.of_nat n - len out)) with (len out) by lia. by apply HQ.
Qed.
End consoleops.

(** An ordinary character. *)
Definition plain (c : Z) : Prop :=
  0 < c < 256 ∧ c ∉ [ctrl "P"; ctrl "U"; ctrl "H"; 127; ctrl "D"; NL; CR].

#[export] Instance plain_dec c : Decision (plain c).
Proof. unfold plain. apply _. Defined.

Lemma typed_plain c ed : plain c → len ed < 127 → typed c [] ed = ([], ed ++ [c], [c]).
Proof.
  intros [Hc Hn] Hl. pose proof (len_nonneg ed). rewrite !not_elem_of_cons in Hn. destruct Hn as (N1 & N2 & N3 & N4 & N5 & N6 & N7 & _).
  unfold typed, shown, INPUT_BUF_SIZE. change (len []) with 0. rewrite Z.add_0_l.
  rewrite (proj2 (Z.eqb_neq c (ctrl "U"))), (proj2 (Z.eqb_neq c (ctrl "H"))), (proj2 (Z.eqb_neq c 127)), (proj2 (Z.eqb_neq c 0)), (proj2 (Z.eqb_neq c CR)) by first [done|lia].
  rewrite (proj2 (Z.eqb_neq c NL)), (proj2 (Z.eqb_neq c (ctrl "D"))), (proj2 (Z.eqb_neq c BACKSPACE)), (proj2 (Z.eqb_neq (len ed + 1) 128)) by first [done|unfold BACKSPACE; lia].
  rewrite (proj2 (Z.ltb_lt _ _)) by lia. cbn [orb andb negb]. by rewrite Z.mod_small by lia.
Qed.

Lemma typed_enter ed : len ed < 128 → typed CR [] ed = (ed ++ [NL], [], [NL]).
Proof.
  intros Hl. pose proof (len_nonneg ed). unfold typed, INPUT_BUF_SIZE. change (len []) with 0. rewrite Z.add_0_l.
  rewrite (proj2 (Z.ltb_lt _ _)) by lia. done.
Qed.

Lemma line_of_line n first l : (length l < n)%nat → Forall plain l → line_of n first (l ++ [NL]) = Some (l ++ [NL], []).
Proof.
  revert n first. induction l as [|c l IH]; intros [|n] first Hn Hl; simpl in Hn; try lia; [done|]. inversion_clear Hl as [|?? [Hc Hp] Hl'].
  rewrite !not_elem_of_cons in Hp. destruct Hp as (_ & _ & _ & _ & N5 & N6 & _). cbn [line_of app]. rewrite !(proj2 (Z.eqb_neq _ _)) by done.
  by rewrite IH by (lia || done).
Qed.

Lemma plain_bytes l : Forall plain l → are_bytes (l ++ [NL]).
Proof. intros Hl. apply Forall_app_2; [|by apply Forall_singleton]. eapply Forall_impl; [done|]. intros c [? _]. lia. Qed.

(** The process that runs is not woken. *)
Lemma woken_self ch i (ps : list proc) : woken ch (Some i) ps !! i = ps !! i.
Proof. unfold woken. rewrite list_lookup_imap. destruct (ps !! i); [|done]. simpl. by rewrite decide_True. Qed.

Section line.
Context {UA : Uart} {fsT : Type} {HC : HasCon fsT} {LY : Layout} {SW : Switch fsT} {PA : Patience}.
Context {CL : ConLaws fsT} {UL : UartLaws UA PA}.
Notation K := (kst fsT).

(** Interrupts for characters, one after the other. *)
Fixpoint type_keys (l : list Z) : M K unit :=
  match l with [] => mret tt | c :: l' => consoleintr c ;; type_keys l' end.

Lemma wp_type_line l k ed (s : K) Q :
  unlocked s → lks s ConsLock = initlock → crep k [] ed → calm k → Forall plain l → len ed + len l < 128 →
  (∀ k' woke (s' : K), crep k' (ed ++ l ++ [NL]) [] → s' = s ∨ s' = relax s → sent (hw k') = sent (hw k) ++ l ++ [NL] → Q tt (after woke k' s')) →
  wp (type_keys (l ++ [CR])) (st k s) Q.
Proof.
  revert k ed s. induction l as [|c l IH]; intros k ed s U Hlk R C Hl Hlen HQ; cbn [type_keys app]; apply wp_bind.
  - apply (wp_consoleintr k [] ed); [done..|]. intros k'. rewrite typed_enter by (change (len []) with 0 in Hlen; lia). intros R' _ _ E'. apply wp_ret. apply HQ; [done|by left|done].
  - inversion_clear Hl as [|?? Hc Hl']. assert (len (c :: l) = len l + 1) as El by (unfold len; simpl length; lia). pose proof (len_nonneg l).
    assert (c ≠ ctrl "P") as HP by (destruct Hc as [_ Hc]; by apply not_elem_of_cons in Hc as [? _]).
    apply (wp_consoleintr k [] ed); [done..|]. intros k'. rewrite typed_plain by (done || lia). intros R' C' _ E'. rewrite bool_decide_true by done. cbn [negb].
    change (after false k' s) with (st k' (relax s)).
    apply (IH k' (ed ++ [c])); [by apply unlocked_relax|done|done|done|done|rewrite len_app; change (len [c]) with 1; lia|].
    intros k2 woke s' R2 Hs E2. apply HQ; [by rewrite <-app_assoc in R2|right|by rewrite E2, E', <-app_assoc]. destruct Hs as [-> | ->]; [done|apply relax_relax].
Qed.
End line.

(** C27. The console edits lines as the abstract console does: a character puts
    [consoleintr] from the buffer for one pair of lists, ready and being edited,
    to the buffer for the next pair, echoes what the terminal has to show, and
    wakes the readers exactly when characters become ready.  The key ^P, which
    prints the process table, is left out. *)
Theorem consoleintr_refines {UA : Uart} {fsT : Type} {HC : HasCon fsT} {LY : Layout} {SW : Switch fsT} {PA : Patience}
    {CL : ConLaws fsT} {UL : UartLaws UA PA} k rd ed c (s : kst fsT) :
  unlocked s → lks s ConsLock = initlock → crep k rd ed → calm k → c ≠ ctrl "P" →
  let '(rd', ed', out) := typed c rd ed in
  wp (consoleintr c) (st k s) (λ _ s', ∃ k', s' = after (negb (bool_decide (rd' = rd))) k' s ∧
    crep k' rd' ed' ∧ calm k' ∧ tx_busy k' = tx_busy k ∧ sent (hw k') = sent (hw k) ++ out).
Proof.
  intros U Hl R C Hc. destruct (typed c rd ed) as [[rd' ed'] out] eqn:Et. apply (wp_consoleintr k rd ed); [done..|].
  intros k'. rewrite Et. intros. by exists k'.
Qed.

(** C28. A line that is typed is read: ordinary characters and a carriage return,
    up to a full buffer, are echoed, and a read by the running process of more
    characters than the line has, into a buffer it can write, returns the length
    of the line with its newline; the process then reads exactly the line in its
    buffer, and no other byte of any address space has changed. *)
Theorem console_line {UA : Uart} {fsT : Type} {HC : HasCon fsT} {LY : Layout} {LO : LayoutOk} {SW : Switch fsT} {PA : Patience}
    {CL : ConLaws fsT} {UL : UartLaws UA PA} k l n dst i p g (s : kst fsT) :
  unlocked s → lks s ConsLock = initlock → crep k [] [] → calm k → Forall plain l → len l < 128 → (length l < n)%nat →
  cproc s = Some i → procs s !! i = Some p → vinv g (mach s) → pagetable p ∈ roots g →
  0 ≤ dst → dst + Z.of_nat n < 2 ^ 64 → span_writable (mach s) (pagetable p) dst n →
  wp (type_keys (l ++ [CR]) ;; consoleread true dst (Z.of_nat n)) (st k s) (λ r s',
    r = len l + 1 ∧ put (pagetable p) dst (l ++ [NL]) g (mach s) (mach s') ∧
    ∃ k', con_of (fsys s') = k' ∧ crep k' [] [] ∧ sent (hw k') = sent (hw k) ++ l ++ [NL]).
Proof.
  intros U Hlk R C Hl Hlen Hn Hc Hp V Hr Hd Hdn Hw. apply wp_bind, (wp_type_line l k []); [done..|]. intros k1 woke s1 R1 Hs E1.
  assert (len l + 1 = len (l ++ [NL])) as -> by (rewrite len_app; done). unfold after.
  set (s2 := relax (set_procs (if woke then woken ChanCons (cproc s1) (procs s1) else procs s1) s1)).
  change (relax _) with (st k1 s2). assert (unlocked s2 ∧ lks s2 ConsLock = initlock ∧ cproc s2 = Some i ∧ procs s2 !! i = Some p ∧ mach s2 = mach s) as (U2 & L2 & C2 & P2 & M2).
  { assert (unlocked s2) as U2.
    { destruct Hs as [-> | ->]; apply unlocked_relax, unlocked_procs; try done; try by apply unlocked_relax.
      all: destruct woke; rewrite ?woken_len; apply U. }
    assert (procs s2 = if woke then woken ChanCons (cproc s) (procs s) else procs s) as E by (by destruct Hs as [-> | ->]).
    split; [done|]. split; [by destruct Hs as [-> | ->]|]. split; [by destruct Hs as [-> | ->]|].
    split; [|by destruct Hs as [-> | ->]]. rewrite E, Hc. destruct woke; by rewrite ?woken_self. }
  apply (wp_consoleread i p g n dst k1 (l ++ [NL]) [] (l ++ [NL]) []); [by apply line_of_line|done|by apply plain_bytes|done|done|done|done|by rewrite M2|done|by rewrite M2|done|done|].
  intros k' m' R' Eh P. split; [done|]. split; [by rewrite M2 in P|].
  exists k'. split; [apply con_put|]. split; [done|]. by rewrite Eh.
Qed.
