(* ===== verification/Sh.v ===== *)
(** * The shell's parser

    user/sh.c from [gettoken] to [nulterminate].  The command line is a buffer of
    characters without NUL and a pointer into it is an index, so that [es] is the
    length of the buffer; the parser threads the index [s] as its state, and a
    panic of the shell is a panic of the monad.  The constructors of commands do
    not test what [malloc] returns; here it always succeeds. *)

From Stdlib Require Import Ascii.
From S2P Require Import Ulib.
From S2P Require Import Prelude.

Definition O_RDONLY : Z := 0.
Definition O_WRONLY : Z := 1.
Definition O_CREATE : Z := 512.
Definition O_TRUNC : Z := 1024.

(** A word of the line: its first character and the one after its last. *)
Definition word : Type := nat * nat.

Inductive cmd :=
  | EXEC (argv : list word)
  | REDIR (c : cmd) (file : word) (mode fd : Z)
  | PIPE (left right : cmd)
  | LIST (left right : cmd)
  | BACK (c : cmd).

(** What [parsecmd] makes of a line. *)
Inductive parsed :=
  | Parsed (c : cmd) (b : list Z)
  | Leftovers (s : list Z).

Definition MAXARGS : nat := 10.

Definition whitespace : list Z := str " " ++ [9; 13; 10; 11].
Definition symbols : list Z := str "<|>&;()".

Definition among (c : Z) (set : list Z) : bool := match strchr set c with Some _ => true | None => false end.

(** ** Tokens *)

(** The characters from [s] on: [while (s < es && p(s[0])) s++;] passes those at
    the front that satisfy [p]. *)
Fixpoint span (p : Z → bool) (l : list Z) : nat :=
  match l with [] => O | c :: l' => if p c then S (span p l') else O end.

Lemma among_elem c l : 0 ∉ l → among c l = true ↔ c ∈ l.
Proof.
  unfold among. induction l as [|x l IH]; intros H0; cbn [strchr]; [split; [done|by intros ?%elem_of_nil]|].
  apply not_elem_of_cons in H0 as [Hx H0]. rewrite elem_of_cons, <-(IH H0). destruct (Z.eqb_spec x 0); [congruence|].
  destruct (Z.eqb_spec x c) as [->|]; [naive_solver|]. destruct (strchr l c); naive_solver.
Qed.

Section parse.
Context (buf : list Z).

Definition at_ (s : nat) : Z := nth s buf 0.
Definition skip (p : Z → bool) (s : nat) : nat := (s + span p (drop s buf))%nat.
Definition blank (c : Z) : bool := among c whitespace.

Definition gettoken : M nat (Z * word) :=
  s ← get;
  let q := skip blank s in
  let c := at_ q in
  let '(ret, eq) :=
    if c =? 0 then (0, q)
    else if among c (str "|();&<") then (c, S q)
    else if c =? ch ">" then (if at_ (S q) =? ch ">" then (ch "+", S (S q)) else (c, S q))
    else (ch "a", skip (λ c, negb (among c whitespace) && negb (among c symbols)) q) in
  modify (λ _, skip blank eq) ;;
  mret (ret, (q, eq)).

Definition peek (toks : list Z) : M nat bool :=
  s ← get;
  let s := skip blank s in
  modify (λ _, s) ;;
  mret (negb (at_ s =? 0) && among (at_ s) toks).

(** ** Parsing *)

Fixpoint parseredirs (fuel : nat) (c : cmd) : M nat cmd :=
  match fuel with
  | O => nofuel
  | S fuel' =>
      more ← peek (str "<>");
      if more : bool then
        tok ← gettoken;
        file ← gettoken;
        if negb (file.1 =? ch "a") then panic "missing file for redirection" else
        let w := file.2 in
        parseredirs fuel'
          (if tok.1 =? ch "<" then REDIR c w O_RDONLY 0
           else if tok.1 =? ch ">" then REDIR c w (Z.lor (Z.lor O_WRONLY O_CREATE) O_TRUNC) 1
           else if tok.1 =? ch "+" then REDIR c w (Z.lor O_WRONLY O_CREATE) 1
           else c)
      else mret c
  end.

(** The execcmd at the bottom of the redirections of [c] gets one more word. *)
Fixpoint add_arg (w : word) (c : cmd) : cmd :=
  match c with
  | EXEC argv => EXEC (argv ++ [w])
  | REDIR c' f m fd => REDIR (add_arg w c') f m fd
  | _ => c
  end.

(** The loop of [parseexec] over the words. *)
Fixpoint parseargs (fuel argc : nat) (ret : cmd) : M nat cmd :=
  match fuel with
  | O => nofuel
  | S fuel' =>
      stop ← peek (str "|)&;");
      if stop : bool then mret ret else
      tok ← gettoken;
      if tok.1 =? 0 then mret ret else
      if negb (tok.1 =? ch "a") then panic "syntax" else
      let ret := add_arg tok.2 ret in
      if (MAXARGS <=? S argc)%nat then panic "too many args" else
      ret ← parseredirs (S (length buf)) ret;
      parseargs fuel' (S argc) ret
  end.

(** [while (peek(ps, es, "&"))] of [parseline]. *)
Fixpoint parseback (fuel : nat) (c : cmd) : M nat cmd :=
  match fuel with
  | O => nofuel
  | S fuel' =>
      more ← peek (str "&");
      if more : bool then
        _ ← gettoken;
        parseback fuel' (BACK c)
      else mret c
  end.

Fixpoint parseline (fuel : nat) : M nat cmd :=
  match fuel with
  | O => nofuel
  | S fuel' =>
      c ← parsepipe fuel';
      c ← parseback (S (length buf)) c;
      more ← peek (str ";");
      if more : bool then
        _ ← gettoken;
        r ← parseline fuel';
        mret (LIST c r)
      else mret c
  end
with parsepipe (fuel : nat) : M nat cmd :=
  match fuel with
  | O => nofuel
  | S fuel' =>
      c ← parseexec fuel';
      more ← peek (str "|");
      if more : bool then
        _ ← gettoken;
        r ← parsepipe fuel';
        mret (PIPE c r)
      else mret c
  end
with parseexec (fuel : nat) : M nat cmd :=
  match fuel with
  | O => nofuel
  | S fuel' =>
      block ← peek (str "(");
      if block : bool then parseblock fuel' else
      ret ← parseredirs (S (length buf)) (EXEC []);
      parseargs (S (length buf)) O ret
  end
with parseblock (fuel : nat) : M nat cmd :=
  match fuel with
  | O => nofuel
  | S fuel' =>
      open ← peek (str "(");
      if negb open then panic "parseblock" else
      _ ← gettoken;
      c ← parseline fuel';
      close ← peek (str ")");
      if negb close then panic "syntax - missing )" else
      _ ← gettoken;
      parseredirs (S (length buf)) c
  end.

(** ** Strings *)

(** The words of a command, in the order in which [nulterminate] ends them. *)
Fixpoint words (c : cmd) : list word :=
  match c with
  | EXEC argv => argv
  | REDIR c' f _ _ => words c' ++ [f]
  | PIPE l r => words l ++ words r
  | LIST l r => words l ++ words r
  | BACK c' => words c'
  end.

(** A NUL after each word, in the buffer with the NUL at its end. *)
Definition nulterminate (c : cmd) : list Z := foldl (λ b w, <[w.2 := 0]> b) (buf ++ [0]) (words c).

(** The command, and the buffer with its strings; or the rest of the line that is
    no part of the command, which the shell prints as leftovers before it panics
    with a syntax error. *)
Definition parsecmd (fuel : nat) : M nat parsed :=
  c ← parseline fuel;
  _ ← peek [];
  s ← get;
  if negb (s =? length buf)%nat then mret (Leftovers (drop s buf)) else mret (Parsed c (nulterminate c)).

(** ** Termination *)

(** Runs to the end, if only in a panic; [Q] holds of a result. *)
Definition ends {A} (c : M nat A) (s : nat) (Q : A → nat → Prop) : Prop :=
  match c s with Ok (a, s') => Q a s' | Panic _ => True | NoFuel => False end.

Lemma ends_bind {A B} (c : M nat A) (k : A → M nat B) s Q : ends c s (λ a s', ends (k a) s' Q) → ends (c ≫= k) s Q.
Proof. unfold ends, mbind, M_bind. by destruct (c s) as [[a s']| |]. Qed.
Lemma ends_mono {A} (c : M nat A) s (P Q : A → nat → Prop) : ends c s P → (∀ a s', P a s' → Q a s') → ends c s Q.
Proof. unfold ends. destruct (c s) as [[a s']| |]; naive_solver. Qed.

(** Positions only move forward, and within the line. *)
Notation len := (length buf).

Lemma span_le p l : (span p l ≤ length l)%nat.
Proof. induction l as [|c l IH]; simpl; [done|]. destruct (p c); lia. Qed.
Lemma skip_bounds p s : (s ≤ len → s ≤ skip p s ≤ len)%nat.
Proof. intros Hs. unfold skip. pose proof (span_le p (drop s buf)) as Hl. rewrite length_drop in Hl. lia. Qed.
Lemma at_lt s : at_ s ≠ 0 → (s < len)%nat.
Proof. unfold at_. intros Ha. destruct (decide (s < len)%nat); [done|]. by rewrite nth_overflow in Ha by lia. Qed.
Lemma skip_first p s : (s < len)%nat → p (at_ s) = true → (s < skip p s)%nat.
Proof.
  intros Hs Hp. unfold skip. destruct (lookup_lt_is_Some_2 buf s Hs) as [c Hc]. rewrite (drop_S _ _ _ Hc). simpl.
  unfold at_ in Hp. rewrite (nth_lookup_Some _ _ _ _ Hc) in Hp. rewrite Hp. lia.
Qed.

Lemma skip_stop p s : (skip p s < len)%nat → p (at_ (skip p s)) = false.
Proof.
  unfold skip, at_. rewrite <-nth_skipn. fold (drop s buf). intros Hl. assert (span p (drop s buf) < length (drop s buf))%nat as Hs by (rewrite length_drop; lia).
  clear Hl. revert Hs. generalize (drop s buf). intros l Hs. induction l as [|c l IH]; simpl in *; [lia|]. destruct (p c) eqn:Ep; [|done]. apply IH. lia.
Qed.

Lemma skip_all p s k : (s ≤ k < skip p s)%nat → p (at_ k) = true.
Proof.
  unfold skip, at_. intros Hk. replace k with (s + (k - s))%nat by lia. rewrite <-nth_skipn. fold (drop s buf).
  assert (k - s < span p (drop s buf))%nat as Hl by lia. clear Hk. revert Hl. generalize (k - s)%nat (drop s buf). intros j l. revert j.
  induction l as [|c l IH]; intros j Hj; simpl in *; [lia|]. destruct (p c) eqn:Ep; [|lia]. destruct j; [done|]. apply IH. lia.
Qed.

(** A word has a character: it starts with one that is no blank and no symbol. *)
Definition ordinary (c : Z) : bool := negb (among c whitespace) && negb (among c symbols).

Lemma word_first q : at_ q ≠ 0 → blank (at_ q) = false → among (at_ q) (str "|();&<") = false → (at_ q =? ch ">") = false → ordinary (at_ q) = true.
Proof.
  unfold ordinary, blank. intros _ -> H1 H2%Z.eqb_neq. apply negb_true_iff. cbn [negb andb].
  destruct (among (at_ q) symbols) eqn:E; [|done]. apply among_elem in E; [|by apply (bool_decide_unpack _)].
  assert (at_ q ∉ str "|();&<") as Hn by (intros Hi; apply among_elem in Hi; [congruence|by apply (bool_decide_unpack _)]).
  exfalso. revert E Hn H2. generalize (at_ q). intros c E Hn H2. cbn in E, Hn. rewrite ?elem_of_cons, ?elem_of_nil in *. naive_solver.
Qed.

(** A word: ordinary characters, up to one that is not or the end. *)
Definition good_word (w : word) : Prop :=
  (w.1 < w.2 ≤ len)%nat ∧ (∀ k, (w.1 ≤ k < w.2)%nat → ordinary (at_ k) = true) ∧ ((w.2 < len)%nat → ordinary (at_ w.2) = false).
(** The descriptors redirected are the standard input and output. *)
Fixpoint std_redirs (c : cmd) : Prop :=
  match c with
  | EXEC _ => True
  | REDIR c' _ _ fd => (fd = 0 ∨ fd = 1) ∧ std_redirs c'
  | PIPE l r | LIST l r => std_redirs l ∧ std_redirs r
  | BACK c' => std_redirs c'
  end.
Definition good (c : cmd) : Prop := Forall good_word (words c) ∧ std_redirs c.

(** A token takes at least one character, except at the end of the line. *)
Lemma ends_gettoken s (Q : Z * word → nat → Prop) :
  (s ≤ len)%nat → (∀ t w s', (s ≤ s' ≤ len)%nat → (t ≠ 0%Z → s < s')%nat → (at_ (skip blank s) ≠ 0 → t ≠ 0) → (t = ch "a" → good_word w) → Q (t, w) s') → ends gettoken s Q.
Proof.
  intros Hs HQ. unfold gettoken. apply ends_bind. change (ends get s ?P) with (P s s). cbv beta zeta.
  pose proof (skip_bounds blank s Hs) as Hq. set (q := skip blank s) in *.
  assert (∀ t w eq, (q ≤ eq ≤ len)%nat → (t ≠ 0%Z → q < eq)%nat → (at_ q ≠ 0 → t ≠ 0) → (t = ch "a" → good_word w) → ends (modify (λ _, skip blank eq) ;; mret (t, w)) s Q) as Hend.
  { intros t w eq He Ht Hz Hw. apply HQ; [|intros Hnz; specialize (Ht Hnz)|done|done]; pose proof (skip_bounds blank eq); lia. }
  destruct (Z.eqb_spec (at_ q) 0) as [E0|E0]; [apply Hend; [lia|intros Hn; by destruct Hn|done|done]|]. pose proof (at_lt q E0) as Hlt.
  destruct (among (at_ q) (str "|();&<")) eqn:E1; [apply Hend; [lia|lia|done|intros Ea; by rewrite Ea in E1]|].
  destruct (at_ q =? ch ">") eqn:E2.
  - destruct (Z.eqb_spec (at_ (S q)) (ch ">")) as [E3|E3]; [|apply Hend; [lia|lia|done|intros Ea; by rewrite Ea in E2]].
    assert (S q < len)%nat by (apply at_lt; by rewrite E3). apply Hend; [lia|lia|done|done].
  - change (λ c, negb (among c whitespace) && negb (among c symbols)) with ordinary.
    assert (blank (at_ q) = false) as Eb by (by apply skip_stop). pose proof (word_first q E0 Eb E1 E2) as Ho.
    pose proof (skip_bounds ordinary q ltac:(lia)). pose proof (skip_first ordinary q Hlt Ho). apply Hend; [lia|lia|done|].
    intros _. split; [simpl; lia|]. split; [intros k Hk; by apply (skip_all ordinary q)|apply skip_stop].
Qed.

Lemma ends_peek s toks (Q : bool → nat → Prop) :
  (s ≤ len)%nat → (∀ b s', (s ≤ s' ≤ len)%nat → (b = true → at_ (skip blank s') ≠ 0) → Q b s') → ends (peek toks) s Q.
Proof.
  intros Hs HQ. apply HQ; [by apply skip_bounds|]. intros [Hb _]%andb_true_iff. apply negb_true_iff, Z.eqb_neq in Hb.
  set (q := skip blank s) in *. pose proof (at_lt q Hb) as Hlt.
  assert (skip blank q = q) as ->; [|done]. assert (blank (at_ q) = false) as Eb by (by apply skip_stop).
  unfold skip. destruct (lookup_lt_is_Some_2 buf q Hlt) as [c Hc]. rewrite (drop_S _ _ _ Hc). simpl.
  unfold at_ in Eb. rewrite (nth_lookup_Some _ _ _ _ Hc) in Eb. rewrite Eb. lia.
Qed.

(** A token that was seen is taken. *)
Lemma ends_take s (Q : Z * word → nat → Prop) :
  (s ≤ len)%nat → at_ (skip blank s) ≠ 0 → (∀ t s', (s < s' ≤ len)%nat → Q t s') → ends gettoken s Q.
Proof. intros Hs Hn HQ. apply ends_gettoken; [done|]. intros t w s' Hb Ht Hz _. specialize (Ht (Hz Hn)). apply HQ. lia. Qed.

Definition onward (s : nat) : cmd → nat → Prop := λ c s', (s ≤ s' ≤ len)%nat ∧ good c.

Lemma onward_le s s' c s2 : (s ≤ s')%nat → onward s' c s2 → onward s c s2.
Proof. unfold onward. intros ? [? ?]. split; [lia|done]. Qed.

Lemma good_arg w c : good_word w → good c → good (add_arg w c).
Proof.
  unfold good. intros Hw. induction c as [argv|c IH f m fd|l _ r _|l _ r _|c _]; intros [Hc Hs]; cbn [add_arg words std_redirs] in *; try done.
  - split; [|done]. by apply Forall_app_2; [|apply Forall_singleton].
  - apply Forall_app in Hc as [Hc Hf]. destruct Hs as [Hfd Hs]. destruct (IH (conj Hc Hs)). split; [|done]. apply Forall_app_2; auto.
Qed.

Lemma ends_parseredirs fuel c s : good c → (s ≤ len)%nat → (len - s < fuel)%nat → ends (parseredirs fuel c) s (onward s).
Proof.
  revert c s. induction fuel as [|fuel IH]; intros c s Hc Hs Hf; [lia|]. cbn [parseredirs].
  apply ends_bind, ends_peek; [done|]. intros [] s1 H1 Hm; [|done]. apply ends_bind, ends_take; [lia|auto|]. intros t s2 H2.
  apply ends_bind, ends_gettoken; [lia|]. intros t' w s3 H3 _ _ Hw. cbn [fst snd]. destruct (Z.eqb_spec t' (ch "a")) as [Ea|]; [|done]. cbn [negb].
  assert (∀ m fd, fd = 0 ∨ fd = 1 → good (REDIR c w m fd)) as Hg by (intros m fd Hfd; destruct Hc as [Hc Hr]; split; [apply Forall_app_2; [done|apply Forall_singleton; auto]|done]).
  eapply ends_mono; [apply IH; [|lia|lia]|intros c' s'; apply onward_le; lia]. repeat (destruct (_ =? _); [apply Hg; auto|]). done.
Qed.

Lemma ends_parseargs fuel argc c s : good c → (s ≤ len)%nat → (len - s < fuel)%nat → ends (parseargs fuel argc c) s (onward s).
Proof.
  revert argc c s. induction fuel as [|fuel IH]; intros argc c s Hc Hs Hf; [lia|]. cbn [parseargs].
  apply ends_bind, ends_peek; [done|]. intros [] s1 H1 _; [done|]. apply ends_bind, ends_gettoken; [lia|]. intros t w s2 H2 Ht _ Hw. cbn [fst snd].
  destruct (Z.eqb_spec t 0) as [|Hnz]; [split; [lia|done]|]. specialize (Ht Hnz). destruct (Z.eqb_spec t (ch "a")) as [Ea|]; [|done]. destruct (_ <=? _)%nat; [done|].
  apply ends_bind. eapply ends_mono; [apply ends_parseredirs; [apply good_arg; auto|lia|lia]|]. intros c' s3 [H3 G3].
  eapply ends_mono; [apply IH; [done|lia|lia]|intros c2 s'; apply onward_le; lia].
Qed.

Lemma ends_parseback fuel c s : good c → (s ≤ len)%nat → (len - s < fuel)%nat → ends (parseback fuel c) s (onward s).
Proof.
  revert c s. induction fuel as [|fuel IH]; intros c s Hc Hs Hf; [lia|]. cbn [parseback].
  apply ends_bind, ends_peek; [done|]. intros [] s1 H1 Hm; [|done]. apply ends_bind, ends_take; [lia|auto|]. intros t s2 H2.
  eapply ends_mono; [apply IH; [done|lia|lia]|intros c' s'; apply onward_le; lia].
Qed.

(** The recursion: four calls for a character. *)
Definition parses (fuel s : nat) : Prop :=
  (4 * (len - s) + 4 ≤ fuel → ends (parseline fuel) s (onward s))%nat ∧
  (4 * (len - s) + 3 ≤ fuel → ends (parsepipe fuel) s (onward s))%nat ∧
  (4 * (len - s) + 2 ≤ fuel → ends (parseexec fuel) s (onward s))%nat ∧
  (4 * (len - s) + 1 ≤ fuel → ends (parseblock fuel) s (onward s))%nat.

(** A binary operator: the left command is there, the right one follows. *)
Lemma ends_operator (op : cmd → cmd → cmd) toks (next : M nat cmd) c s0 s :
  good c → (s0 ≤ s ≤ len)%nat → (∀ l r, good l → good r → good (op l r)) → (∀ s', (s < s' ≤ len)%nat → ends next s' (onward s')) →
  ends (more ← peek toks; if more : bool then _ ← gettoken; r ← next; mret (op c r) else mret c) s (onward s0).
Proof.
  intros Hc Hs Hop Hnext. apply ends_bind, ends_peek; [lia|]. intros [] s1 H1 Hm; [|split; [lia|done]].
  apply ends_bind, ends_take; [lia|auto|]. intros t s2 H2. apply ends_bind. eapply ends_mono; [apply Hnext; lia|]. intros r s3 [H3 G3].
  split; [lia|]. by apply Hop.
Qed.

Lemma good_pair (op : cmd → cmd → cmd) l r :
  (words (op l r) = words l ++ words r) → (std_redirs (op l r) ↔ std_redirs l ∧ std_redirs r) → good l → good r → good (op l r).
Proof. unfold good. intros -> -> [Hl1 Hl2] [Hr1 Hr2]. split; [by apply Forall_app_2|done]. Qed.

Lemma ends_parse fuel s : (s ≤ len)%nat → parses fuel s.
Proof.
  revert s. induction fuel as [|fuel IH]; intros s Hs; unfold parses; [split_and!; lia|]. cbn [parseline parsepipe parseexec parseblock]. split_and!; intros Hf.
  - apply ends_bind. eapply ends_mono; [apply (IH s Hs); lia|]. intros c s1 [H1 G1].
    apply ends_bind. eapply ends_mono; [apply ends_parseback; [done|lia|lia]|]. intros c2 s2 [H2 G2].
    apply (ends_operator LIST); [done|lia|intros l r; by apply good_pair|]. intros s' Hs'. apply (IH s'); lia.
  - apply ends_bind. eapply ends_mono; [apply (IH s Hs); lia|]. intros c s1 [H1 G1].
    apply (ends_operator PIPE); [done|lia|intros l r; by apply good_pair|]. intros s' Hs'. apply (IH s'); lia.
  - apply ends_bind, ends_peek; [done|]. intros [] s1 H1 _.
    + eapply ends_mono; [apply (IH s1); lia|intros c s'; apply onward_le; lia].
    + apply ends_bind. eapply ends_mono; [apply ends_parseredirs; [split; [apply Forall_nil_2|done]|lia|lia]|]. intros c2 s2 [H2 G2].
      eapply ends_mono; [apply ends_parseargs; [done|lia|lia]|intros c s'; apply onward_le; lia].
  - apply ends_bind, ends_peek; [done|]. intros [] s1 H1 Hm; [|done]. cbn [negb]. apply ends_bind, ends_take; [lia|auto|]. intros t s2 H2.
    apply ends_bind. eapply ends_mono; [apply (IH s2); lia|]. intros c3 s3 [H3 G3].
    apply ends_bind, ends_peek; [lia|]. intros [] s4 H4 Hm'; [|done]. cbn [negb]. apply ends_bind, ends_take; [lia|auto|]. intros t' s5 H5.
    eapply ends_mono; [apply ends_parseredirs; [done|lia|lia]|intros c s'; apply onward_le; lia].
Qed.
End parse.

(** The parser ends at the end of the line, with a command whose words are good,
    or before the end with the rest of the line. *)
Definition parsed_ok (buf : list Z) (r : parsed) (s : nat) : Prop :=
  match r with
  | Parsed c b => s = length buf ∧ good buf c ∧ b = nulterminate buf c
  | Leftovers l => (s < length buf)%nat ∧ l = drop s buf
  end.

Lemma parsecmd_ends buf : ends (parsecmd buf (4 * length buf + 4)) 0 (parsed_ok buf).
Proof.
  apply ends_bind. eapply ends_mono; [apply (ends_parse buf _ 0); lia|]. intros c s1 [H1 G1].
  apply ends_bind, ends_peek; [lia|]. intros b s2 H2 _. apply ends_bind. unfold ends. cbn.
  destruct (Nat.eqb_spec s2 (length buf)); [done|]. cbn. split; [lia|done].
Qed.

Lemma parsecmd_total buf : parsecmd buf (4 * length buf + 4) O ≠ NoFuel.
Proof. pose proof (parsecmd_ends buf) as He. unfold ends in He. by destruct (parsecmd buf _ _). Qed.

Lemma parsecmd_good buf c b s :
  parsecmd buf (4 * length buf + 4) O = Ok (Parsed c b, s) → good buf c ∧ b = nulterminate buf c.
Proof. intros Hp. pose proof (parsecmd_ends buf) as He. unfold ends in He. rewrite Hp in He. apply He. Qed.

(** C34. Parsing a command line terminates, whatever the line: with four calls for
    each character and four more, the parser returns a command, and then the whole
    line is consumed, or stops with a syntax error, and then the leftovers it
    reports are what follows the command. *)
Theorem parsecmd_terminates buf :
  match parsecmd buf (4 * length buf + 4) O with
  | Ok (Parsed _ _, s) => s = length buf
  | Ok (Leftovers l, s) => (s < length buf)%nat ∧ l = drop s buf
  | Panic _ => True
  | NoFuel => False
  end.
Proof.
  pose proof (parsecmd_ends buf) as He. unfold ends in He. destruct (parsecmd buf _ _) as [[[c b|l] s]| |]; [apply He|exact He|done..].
Qed.

(** ** The strings of the command *)

(** The characters of a word. *)
Definition text (buf : list Z) (w : word) : list Z := take (w.2 - w.1) (drop w.1 buf).

Lemma nul_lookup (ws : list word) (b : list Z) k v :
  b !! k = Some v → foldl (λ b w, <[w.2 := 0]> b) b ws !! k = Some (if decide (k ∈ ws.*2) then 0 else v).
Proof.
  revert b v. induction ws as [|w ws IH]; intros b v Hb; simpl; [done|]. destruct (decide (k = w.2)) as [->|Hne].
  - rewrite (IH _ 0); [|apply list_lookup_insert_eq; by eapply lookup_lt_Some]. rewrite (decide_True (P := w.2 ∈ w.2 :: _)) by apply list_elem_of_here. by case_decide.
  - rewrite (IH _ v) by (by rewrite list_lookup_insert_ne). f_equal. destruct (decide (k ∈ ws.*2)) as [Hi|Hi].
    + by rewrite decide_True by (by apply list_elem_of_further).
    + rewrite decide_False; [done|]. by rewrite elem_of_cons; intros [|].
Qed.

Lemma before_nul_take (l : list Z) n : (∀ k, (k < n)%nat → ∃ v, l !! k = Some v ∧ v ≠ 0) → l !! n = Some 0 → before_nul l = take n l.
Proof.
  revert n. induction l as [|c l IH]; intros n Hk Hn; [done|]. destruct n as [|n]; simpl in *; [by simplify_eq|].
  destruct (Hk 0%nat ltac:(lia)) as (v & [= <-] & Hv). destruct (Z.eqb_spec c 0); [done|]. f_equal. apply IH; [|done].
  intros k Hlt. apply (Hk (S k)). lia.
Qed.

(** No word goes over the end of another. *)
Lemma word_inside buf ws w k : Forall (good_word buf) ws → good_word buf w → (w.1 ≤ k < w.2)%nat → k ∉ ws.*2.
Proof.
  intros Hws (Hb & Ho & _) Hk (w' & -> & Hw')%list_elem_of_fmap. rewrite Forall_forall in Hws. destruct (Hws _ Hw') as (_ & _ & He).
  rewrite Ho in He by done. specialize (He ltac:(lia)). done.
Qed.

Lemma nulterminate_text buf c w : 0 ∉ buf → good buf c → w ∈ words c → before_nul (drop w.1 (nulterminate buf c)) = text buf w.
Proof.
  intros H0 [Hg _] Hw. pose proof (proj1 (Forall_forall _ _) Hg w Hw) as Gw. pose proof Gw as ((Hlt & Hle) & _).
  assert (∀ k, (w.1 ≤ k < w.2)%nat → nulterminate buf c !! k = buf !! k ∧ ∃ v, buf !! k = Some v ∧ v ≠ 0) as Hin.
  { intros k Hk. destruct (lookup_lt_is_Some_2 buf k ltac:(lia)) as [v Hv]. split; [|exists v; split; [done|]; intros ->; by apply H0, list_elem_of_lookup_2 with k].
    unfold nulterminate. rewrite (nul_lookup _ _ _ v) by (by apply lookup_app_l_Some). rewrite decide_False; [done|]. by apply (word_inside buf _ w). }
  rewrite (before_nul_take _ (w.2 - w.1)).
  - unfold text. apply list_eq. intros k. destruct (decide (k < w.2 - w.1)%nat) as [Hk|Hk].
    + rewrite !lookup_take_lt, !lookup_drop by done. apply Hin. lia.
    + by rewrite !lookup_take_ge by lia.
  - intros k Hk. rewrite lookup_drop. destruct (Hin (w.1 + k)%nat ltac:(lia)) as [-> Hv]. done.
  - rewrite lookup_drop. replace (w.1 + (w.2 - w.1))%nat with w.2 by lia.
    destruct (lookup_lt_is_Some_2 (buf ++ [0]) w.2) as [v Hv]; [rewrite length_app; simpl; lia|]. unfold nulterminate. rewrite (nul_lookup _ _ _ v Hv).
    rewrite decide_True; [done|]. by apply (list_elem_of_fmap_2 snd).
Qed.

(** C35. The strings of a parsed command are its words: after [nulterminate] the
    string at the start of every argument and file name is a word of the line, not
    empty, without blanks and symbols, and ended by a blank, a symbol or the end. *)
Theorem parsecmd_strings buf c b s :
  0 ∉ buf → parsecmd buf (4 * length buf + 4) O = Ok (Parsed c b, s) →
  Forall (λ w, before_nul (drop w.1 b) = text buf w ∧ text buf w ≠ [] ∧ Forall (λ x, ordinary x = true) (text buf w) ∧
    (w.2 < length buf → ordinary (at_ buf w.2) = false)%nat) (words c).
Proof.
  intros H0 Hp. destruct (parsecmd_good _ _ _ _ Hp) as [Hg ->]. apply Forall_forall. intros w Hw.
  pose proof (proj1 (Forall_forall _ _) (proj1 Hg) w Hw) as ((Hlt & Hle) & Ho & He). split; [by apply nulterminate_text|].
  assert (length (text buf w) = (w.2 - w.1)%nat) as Hl by (unfold text; rewrite length_take, length_drop; lia). split_and!; [intros E; rewrite E in Hl; simpl in Hl; lia| |done].
  apply Forall_lookup. intros k x Hx. assert (k < w.2 - w.1)%nat as Hk by (rewrite <-Hl; by eapply lookup_lt_Some). unfold text in Hx.
  rewrite lookup_take_lt, lookup_drop in Hx by done. specialize (Ho (w.1 + k)%nat ltac:(lia)). unfold at_ in Ho. by rewrite (nth_lookup_Some _ _ _ _ Hx) in Ho.
Qed.

Definition line1 : list Z := str "grep x < in | (wc; ls) >> out &".

Lemma parsecmd_strings_witness : ∃ c b s, parsecmd line1 (4 * length line1 + 4) O = Ok (Parsed c b, s) ∧ (λ w, before_nul (drop w.1 b)) <$> words c = [str "grep"; str "x"; str "in"; str "wc"; str "ls"; str "out"] ∧
  Forall (λ w, before_nul (drop w.1 b) = text line1 w) (words c).
Proof.
  destruct (parsecmd line1 (4 * length line1 + 4) O) as [[[c b|l] s]| |] eqn:E; [|by vm_compute in E..]. exists c, b, s. split; [reflexivity|]. split.
  - vm_compute in E. injection E as <- <- _. reflexivity.
  - eapply Forall_impl; [apply (parsecmd_strings line1 c b s); [|exact E]|by intros w (H & _)]. apply (bool_decide_unpack _). by vm_compute.
Defined.
