(* ===== verification/ShRun.v ===== *)
(** * The shell runs a command

    [runcmd], [getcmd] and [main] of user/sh.c.  The code of a process is the tree
    of the system calls it makes, with a branch for each result; [eval] runs the tree
    on a table of descriptors the way the kernel does: a new descriptor is the lowest
    that is free, a child starts with a copy of the table, and any call that can fail
    may fail.  [eval] is a specification of these calls, not a translation of the
    kernel's code, and it runs a child to its end before the parent goes on: the
    events of one process are in their order, the order between processes is one of
    those that can occur.  The theorems say which descriptors every program gets. *)

From Stdlib Require Import Ascii.
From S2P Require Import Ulib Prelude Sh Printf.

Definition O_RDWR : Z := 2.

(** ** The system calls of the shell *)

Inductive prog :=
  | Exit (status : Z)
  | Exec (path : list Z) (argv : list (list Z)) (failed : prog)
  | Close (fd : Z) (k : prog)
  | Dup (fd : Z) (k : prog)
  | Open (path : list Z) (mode : Z) (k : Z → prog)
  | Pipe (failed : prog) (k : Z → Z → prog)
  | Fork (failed child parent : prog)
  | Wait (k : prog)
  | Write (fd : Z) (bytes : list Z) (k : prog)
  | Chdir (path : list Z) (failed k : prog).

Definition fprintf (fd : Z) (fmt : list Z) (ap : list varg) (k : prog) : prog := Write fd (default [] (printf fmt ap)) k.
Definition panic_ (s : list Z) : prog := fprintf 2 (str "%s" ++ [NL]) [AStr (Some s)] (Exit 1).
Definition fork1 (child parent : prog) : prog := Fork (panic_ (str "fork")) child parent.

(** The arguments are the strings that [nulterminate] left in the line [b]. *)
Section runcmd.
Context (b : list Z).

Definition string_at (w : word) : list Z := before_nul (drop w.1 b).

Fixpoint runcmd (c : cmd) : prog :=
  match c with
  | EXEC argv =>
      match argv with
      | [] => Exit 1
      | w :: _ =>
          Exec (string_at w) (string_at <$> argv)
            (fprintf 2 (str "exec %s failed" ++ [NL]) [AStr (Some (string_at w))] (Exit 0))
      end
  | REDIR c' file mode fd =>
      Close fd
        (Open (string_at file) mode (λ fd',
          if fd' <? 0 then fprintf 2 (str "open %s failed" ++ [NL]) [AStr (Some (string_at file))] (Exit 1)
          else runcmd c'))
  | LIST l r => fork1 (runcmd l) (Wait (runcmd r))
  | PIPE l r =>
      Pipe (panic_ (str "pipe")) (λ p0 p1,
        fork1 (Close 1 (Dup p1 (Close p0 (Close p1 (runcmd l)))))
        (fork1 (Close 0 (Dup p0 (Close p0 (Close p1 (runcmd r)))))
        (Close p0 (Close p1 (Wait (Wait (Exit 0)))))))
  | BACK c' => fork1 (runcmd c') (Exit 0)
  end.
End runcmd.

(** [runcmd(parsecmd(cmd))] in the child. *)
Definition run_line (s : list Z) : prog :=
  match parsecmd s (4 * length s + 4) O with
  | Ok (Parsed c b, _) => runcmd b c
  | Ok (Leftovers l, _) => fprintf 2 (str "leftovers: %s" ++ [NL]) [AStr (Some l)] (panic_ (str "syntax"))
  | Panic msg => panic_ (str msg)
  | NoFuel => Exit 1
  end.

(** The prompt, and what [gets] left in the buffer: [None] at the end of the input. *)
Definition getcmd (line : list Z) (k : option (list Z) → prog) : prog :=
  Write 2 (str "$ ") (k (match before_nul line with [] => None | s => Some s end)).

Definition space_or_tab (c : Z) : bool := (c =? ch " ") || (c =? 9).
Definition is_cd (s : list Z) : bool := bool_decide (take 3 s = str "cd ").

(** One round of the loop of [main], for a line. *)
Definition do_line (s : list Z) (next : prog) : prog :=
  let cmd := drop (span space_or_tab s) s in
  if nth 0 cmd 0 =? NL then next
  else if is_cd cmd then
    let dir := drop 3 (take (length cmd - 1) cmd) in
    Chdir dir (fprintf 2 (str "cannot cd %s" ++ [NL]) [AStr (Some dir)] next) next
  else fork1 (run_line cmd) (Wait next).

(** The loop, on the lines that its calls of [gets] find; then the input ends. *)
Fixpoint main_loop (lines : list (list Z)) : prog :=
  match lines with
  | [] => getcmd [] (λ _, Exit 0)
  | l :: lines' => getcmd l (λ s, match s with None => Exit 0 | Some s => do_line s (main_loop lines') end)
  end.

(** Descriptor 3 is reached after at most three rounds that succeed. *)
Fixpoint open_console (fuel : nat) (k : prog) : prog :=
  match fuel with
  | O => Exit 255
  | S fuel' =>
      Open (str "console") O_RDWR (λ fd,
        if 0 <=? fd then if 3 <=? fd then Close fd k else open_console fuel' k
        else k)
  end.

Definition main (lines : list (list Z)) : prog := open_console 4 (main_loop lines).

(** ** What the kernel does with the calls *)

Inductive desc := Opened (path : list Z) (mode : Z) | ReadEnd (pipe : nat) | WriteEnd (pipe : nat) | Inherited (n : nat).
Notation fds := (list (option desc)).

(** What a process does that can be seen: it becomes another program, with its
    descriptors; it waits for a child; it writes; it changes its directory; it ends. *)
Inductive event :=
  | Ran (path : list Z) (argv : list (list Z)) (f : fds)
  | Waits (f : fds)
  | Said (d : option desc) (bytes : list Z)
  | Went (dir : list Z)
  | Exited (status : Z).

Fixpoint lowest (f : fds) : option nat :=
  match f with [] => None | None :: _ => Some O | Some _ :: f' => S <$> lowest f' end.
Definition close_fd (fd : Z) (f : fds) : fds := if 0 <=? fd then <[Z.to_nat fd := None]> f else f.
Definition desc_of (fd : Z) (f : fds) : option desc := if 0 <=? fd then mjoin (f !! Z.to_nat fd) else None.

Section eval.
(** Whether the n-th call that may fail succeeds. *)
Context (ok : nat → bool).

(** [e]: the pipes made so far, and the calls so far that may fail. *)
Fixpoint eval (p : prog) (f : fds) (e : nat * nat) : list event * (nat * nat) :=
  let e' := (e.1, S e.2) in
  match p with
  | Exit status => ([Exited status], e)
  | Exec path argv failed => if ok e.2 then ([Ran path argv f], e') else eval failed f e'
  | Close fd k => eval k (close_fd fd f) e
  | Dup fd k =>
      match desc_of fd f, lowest f with
      | Some d, Some i => eval k (<[i := Some d]> f) e
      | _, _ => eval k f e
      end
  | Open path mode k =>
      match lowest f with
      | Some i => if ok e.2 then eval (k (Z.of_nat i)) (<[i := Some (Opened path mode)]> f) e' else eval (k (-1)) f e'
      | None => eval (k (-1)) f e'
      end
  | Pipe failed k =>
      match lowest f with
      | Some i =>
          let f1 := <[i := Some (ReadEnd e.1)]> f in
          match lowest f1 with
          | Some j =>
              if ok e.2 then eval (k (Z.of_nat i) (Z.of_nat j)) (<[j := Some (WriteEnd e.1)]> f1) (S e.1, S e.2)
              else eval failed f e'
          | None => eval failed f e'
          end
      | None => eval failed f e'
      end
  | Fork failed child parent =>
      if ok e.2 then
        let '(l1, e1) := eval child f e' in
        let '(l2, e2) := eval parent f e1 in (l1 ++ l2, e2)
      else eval failed f e'
  | Wait k => let '(l, e1) := eval k f e in (Waits f :: l, e1)
  | Write fd bytes k => let '(l, e1) := eval k f e in (Said (desc_of fd f) bytes :: l, e1)
  | Chdir path failed k =>
      if ok e.2 then let '(l, e1) := eval k f e' in (Went path :: l, e1) else eval failed f e'
  end.
End eval.

(** ** What a command is meant to do *)

(** Three descriptors are open, and no other. *)
Definition std (io : Z → desc) : fds := Some (io 0) :: Some (io 1) :: Some (io 2) :: replicate 13 None.

Section plumb.
Context (b : list Z).

(** Every program of the command with its three descriptors. *)
Fixpoint plumb (c : cmd) (io : Z → desc) (n : nat) : list event * nat :=
  match c with
  | EXEC [] => ([Exited 1], n)
  | EXEC (w :: ws) => ([Ran (string_at b w) (string_at b <$> w :: ws) (std io)], n)
  | REDIR c' file mode fd => plumb c' (<[fd := Opened (string_at b file) mode]> io) n
  | LIST l r =>
      let '(l1, n1) := plumb l io n in
      let '(l2, n2) := plumb r io n1 in (l1 ++ Waits (std io) :: l2, n2)
  | PIPE l r =>
      let '(l1, n1) := plumb l (<[1 := WriteEnd n]> io) (S n) in
      let '(l2, n2) := plumb r (<[0 := ReadEnd n]> io) n1 in
      (l1 ++ l2 ++ [Waits (std io); Waits (std io); Exited 0], n2)
  | BACK c' => let '(l1, n1) := plumb c' io n in (l1 ++ [Exited 0], n1)
  end.
End plumb.

(** ** Every program gets its descriptors *)

(** The table with both ends of a pipe. *)
Definition piped (io : Z → desc) (n : nat) : fds :=
  Some (io 0) :: Some (io 1) :: Some (io 2) :: Some (ReadEnd n) :: Some (WriteEnd n) :: replicate 11 None.

Section steps.
Context (ok : nat → bool) (b : list Z).
Implicit Types (io : Z → desc) (p : prog) (n c : nat) (e : nat * nat).

Lemma eval_redir fd path mode k io n c : fd = 0 ∨ fd = 1 →
  eval ok (Close fd (Open path mode k)) (std io) (n, c) =
    if ok c then eval ok (k fd) (std (<[fd := Opened path mode]> io)) (n, S c) else eval ok (k (-1)) (close_fd fd (std io)) (n, S c).
Proof. by intros [->| ->]. Qed.

Lemma eval_pipe failed k io n c :
  eval ok (Pipe failed k) (std io) (n, c) = if ok c then eval ok (k 3 4) (piped io n) (S n, S c) else eval ok failed (std io) (n, S c).
Proof. done. Qed.

Lemma eval_left p io n e : eval ok (Close 1 (Dup 4 (Close 3 (Close 4 p)))) (piped io n) e = eval ok p (std (<[1 := WriteEnd n]> io)) e.
Proof. done. Qed.
Lemma eval_right p io n e : eval ok (Close 0 (Dup 3 (Close 3 (Close 4 p)))) (piped io n) e = eval ok p (std (<[0 := ReadEnd n]> io)) e.
Proof. done. Qed.
Lemma eval_both p io n e : eval ok (Close 3 (Close 4 p)) (piped io n) e = eval ok p (std io) e.
Proof. done. Qed.

Lemma eval_fprintf fd fmt ap p f e :
  eval ok (fprintf fd fmt ap p) f e = let '(l, e1) := eval ok p f e in (Said (desc_of fd f) (default [] (printf fmt ap)) :: l, e1).
Proof. done. Qed.

Lemma printf_leftovers l : default [] (printf (str "leftovers: %s" ++ [NL]) [AStr (Some l)]) = str "leftovers: " ++ l ++ [NL].
Proof. done. Qed.

Lemma eval_panic s f e : eval ok (panic_ s) f e = ([Said (desc_of 2 f) (s ++ [NL]); Exited 1], e).
Proof. unfold panic_. rewrite eval_fprintf. done. Qed.

Lemma eval_fork1 p1 p2 f n c :
  eval ok (fork1 p1 p2) f (n, c) =
    if ok c then
      let '(l1, e1) := eval ok p1 f (n, S c) in
      let '(l2, e2) := eval ok p2 f e1 in (l1 ++ l2, e2)
    else ([Said (desc_of 2 f) (str "fork" ++ [NL]); Exited 1], (n, S c)).
Proof. unfold fork1. cbn [eval fst snd]. by rewrite eval_panic. Qed.

Lemma eval_exec path argv p f n c :
  eval ok (Exec path argv p) f (n, c) = if ok c then ([Ran path argv f], (n, S c)) else eval ok p f (n, S c).
Proof. done. Qed.
Lemma eval_wait p f e : eval ok (Wait p) f e = let '(l, e1) := eval ok p f e in (Waits f :: l, e1).
Proof. done. Qed.
End steps.

Lemma runcmd_plumb b c io n k : std_redirs c →
  ∃ k', eval (λ _, true) (runcmd b c) (std io) (n, k) = ((plumb b c io n).1, ((plumb b c io n).2, k')).
Proof.
  revert io n k. induction c as [argv|c IH f m fd|l IHl r IHr|l IHl r IHr|c IH]; intros io n k Hc; cbn [std_redirs] in Hc; cbn [runcmd plumb].
  - destruct argv; cbn; eauto.
  - destruct Hc as [Hfd Hc]. rewrite eval_redir by done. destruct (IH (<[fd := Opened (string_at b f) m]> io) n (S k) Hc) as [k' E].
    destruct (Z.ltb_spec fd 0); [lia|]. by exists k'.
  - destruct Hc as [Hl Hr]. rewrite eval_pipe, eval_fork1, eval_left.
    destruct (IHl (<[1 := WriteEnd n]> io) (S n) (S (S k)) Hl) as [k1 ->]. destruct (plumb b l _ _) as [l1 n1]. cbn [fst snd].
    rewrite eval_fork1, eval_right. destruct (IHr (<[0 := ReadEnd n]> io) n1 (S k1) Hr) as [k2 ->]. destruct (plumb b r _ _) as [l2 n2].
    rewrite eval_both. by exists k2.
  - destruct Hc as [Hl Hr]. rewrite eval_fork1. destruct (IHl io n (S k) Hl) as [k1 ->]. destruct (plumb b l _ _) as [l1 n1]. cbn [fst snd].
    destruct (IHr io n1 k1 Hr) as [k2 E2]. destruct (plumb b r _ _) as [l2 n2]. cbn [eval]. rewrite E2. by exists k2.
  - rewrite eval_fork1. destruct (IH io n (S k) Hc) as [k1 ->]. destruct (plumb b c _ _) as [l1 n1]. by exists k1.
Qed.

(** ** Whatever fails, no descriptor is lost or left over *)

(** A program is run and a child is waited for with three descriptors and no other
    one, and every message goes to the standard error output of the shell. *)
Definition sound (err : desc) (ev : event) : Prop :=
  match ev with
  | Ran _ _ f | Waits f => ∃ io, f = std io ∧ io 2 = err
  | Said d _ => d = Some err
  | Went _ | Exited _ => True
  end.

Lemma sound_std io : sound (io 2) (Waits (std io)).
Proof. by exists io. Qed.
Lemma sound_end io f bytes status : desc_of 2 f = Some (io 2) → Forall (sound (io 2)) [Said (desc_of 2 f) bytes; Exited status].
Proof. intros Hf. by repeat constructor. Qed.

Lemma sound_fork1 ok p1 p2 io f e : desc_of 2 f = Some (io 2) →
  (∀ e, Forall (sound (io 2)) (eval ok p1 f e).1) → (∀ e, Forall (sound (io 2)) (eval ok p2 f e).1) →
  Forall (sound (io 2)) (eval ok (fork1 p1 p2) f e).1.
Proof.
  intros Hf H1 H2. destruct e as [n k]. rewrite eval_fork1. destruct (ok k); [|by apply sound_end].
  specialize (H1 (n, S k)). destruct (eval ok p1 _ _) as [l1 e1]. specialize (H2 e1). destruct (eval ok p2 _ _) as [l2 e2].
  by apply Forall_app_2.
Qed.

Lemma sound_fprintf ok fmt ap p io f e : desc_of 2 f = Some (io 2) →
  Forall (sound (io 2)) (eval ok p f e).1 → Forall (sound (io 2)) (eval ok (fprintf 2 fmt ap p) f e).1.
Proof. intros Hf H. rewrite eval_fprintf. destruct (eval ok p f e) as [l e1]. by constructor. Qed.

Lemma sound_wait ok p io e : Forall (sound (io 2)) (eval ok p (std io) e).1 → Forall (sound (io 2)) (eval ok (Wait p) (std io) e).1.
Proof. intros H. rewrite eval_wait. destruct (eval ok p _ e) as [l e1]. constructor; [by exists io|done]. Qed.

Lemma runcmd_all_sound ok b c io e : std_redirs c → Forall (sound (io 2)) (eval ok (runcmd b c) (std io) e).1.
Proof.
  revert io e. induction c as [argv|c IH f m fd|l IHl r IHr|l IHl r IHr|c IH]; intros io e Hc; cbn [std_redirs] in Hc; cbn [runcmd].
  - destruct argv as [|w ws]; [by repeat constructor|]. destruct e as [n k]. rewrite eval_exec. destruct (ok k).
    + constructor; [by exists io|done].
    + apply sound_fprintf; [done|by repeat constructor].
  - destruct Hc as [Hfd Hc]. destruct e as [n k]. rewrite eval_redir by done. destruct (ok k); cbn beta.
    + destruct (Z.ltb_spec fd 0); [lia|]. specialize (IH (<[fd := Opened (string_at b f) m]> io) (n, S k) Hc).
      by rewrite fn_lookup_insert_ne in IH by lia.
    + apply sound_fprintf; [by destruct Hfd as [->| ->]|by repeat constructor].
  - destruct Hc as [Hl Hr]. destruct e as [n k]. rewrite eval_pipe. destruct (ok k); [|rewrite eval_panic; by apply sound_end].
    apply sound_fork1; [done|intros e; rewrite eval_left; exact (IHl (<[1 := WriteEnd n]> io) e Hl)|intros e].
    apply sound_fork1; [done|intros e'; rewrite eval_right; exact (IHr (<[0 := ReadEnd n]> io) e' Hr)|intros e'].
    rewrite eval_both. by do 2 apply sound_wait; repeat constructor.
  - destruct Hc as [Hl Hr]. apply sound_fork1; [done|by auto|]. intros e'. apply sound_wait. auto.
  - apply sound_fork1; [done|by auto|]. intros e'. by repeat constructor.
Qed.

(** ** The shell *)

Lemma run_line_sound ok s io e : Forall (sound (io 2)) (eval ok (run_line s) (std io) e).1.
Proof.
  unfold run_line. destruct (parsecmd s _ O) as [[[c b|l] s']|msg|] eqn:E.
  - apply runcmd_all_sound. by apply (parsecmd_good _ _ _ _ E).
  - apply sound_fprintf; [done|]. rewrite eval_panic. by apply sound_end.
  - rewrite eval_panic. by apply sound_end.
  - by repeat constructor.
Qed.

Lemma do_line_sound ok s p io e :
  (∀ e, Forall (sound (io 2)) (eval ok p (std io) e).1) → Forall (sound (io 2)) (eval ok (do_line s p) (std io) e).1.
Proof.
  intros Hp. unfold do_line. set (cmd := drop _ s). destruct (_ =? NL); [done|]. destruct (is_cd cmd).
  - destruct e as [n k]. cbn [eval fst snd]. destruct (ok k); [|apply sound_fprintf; auto].
    specialize (Hp (n, S k)). destruct (eval ok p _ _) as [l e1]. by constructor.
  - apply sound_fork1; [done|intros e'; apply run_line_sound|]. intros e'. by apply sound_wait.
Qed.

(** C36. Whatever the lines are and whichever calls of [open], [pipe], [fork],
    [exec] and [chdir] fail, the shell and the processes it makes start every program
    and wait for every child with exactly three descriptors open, and no end of a
    pipe besides; every message goes to the standard error output of the shell. *)
Theorem shell_sound ok lines io e : Forall (sound (io 2)) (eval ok (main_loop lines) (std io) e).1.
Proof.
  revert e. induction lines as [|l lines IH]; intros e; cbn [main_loop getcmd eval].
  - by repeat constructor.
  - destruct (before_nul l) as [|x s]; [by repeat constructor|].
    pose proof (do_line_sound ok (x :: s) (main_loop lines) io e IH) as H. destruct (eval ok (do_line _ _) _ _) as [l1 e1]. by constructor.
Qed.

(** A line without its newline, if it has one. *)
Definition without_newline (s : list Z) : list Z := if bool_decide (last s = Some NL) then take (length s - 1) s else s.

(** A line that changes the directory is complete: it ends in its newline. *)
Definition complete_cd (l : list Z) : Prop :=
  let cmd := drop (span space_or_tab (before_nul l)) (before_nul l) in
  is_cd cmd = true → last cmd = Some NL.

#[export] Instance complete_cd_dec l : Decision (complete_cd l).
Proof. unfold complete_cd. cbv zeta. destruct (is_cd _); [destruct (decide (last (drop (span space_or_tab (before_nul l)) (before_nul l)) = Some NL)); [left|right]; naive_solver|by left]. Defined.

(** What the lines are meant to do. *)
Fixpoint session (lines : list (list Z)) (io : Z → desc) (n : nat) : list event :=
  Said (Some (io 2)) (str "$ ") ::
  match lines with
  | [] => [Exited 0]
  | l :: lines' =>
      match before_nul l with
      | [] => [Exited 0]
      | s =>
          let cmd := drop (span space_or_tab s) s in
          if nth 0 cmd 0 =? NL then session lines' io n
          else if is_cd cmd then Went (drop 3 (without_newline cmd)) :: session lines' io n
          else
            match parsecmd cmd (4 * length cmd + 4) O with
            | Ok (Parsed c b, _) => (plumb b c io n).1 ++ Waits (std io) :: session lines' io (plumb b c io n).2
            | Ok (Leftovers l, _) => Said (Some (io 2)) (str "leftovers: " ++ l ++ [NL]) :: Said (Some (io 2)) (str "syntax" ++ [NL]) :: Exited 1 :: Waits (std io) :: session lines' io n
            | Panic msg => Said (Some (io 2)) (str msg ++ [NL]) :: Exited 1 :: Waits (std io) :: session lines' io n
            | NoFuel => []
            end
      end
  end.

Lemma main_loop_session lines io n k : Forall complete_cd lines →
  (eval (λ _, true) (main_loop lines) (std io) (n, k)).1 = session lines io n.
Proof.
  intros Hcd. revert n k. induction Hcd as [|l lines Hl _ IH]; intros n k; cbn [main_loop getcmd eval session]; [done|].
  unfold complete_cd in Hl. destruct (before_nul l) as [|x s]; [done|]. cbv zeta in Hl. assert (∀ e, (eval (λ _, true) (do_line (x :: s) (main_loop lines)) (std io) (n, k)).1 = e →
    (let '(l1, e1) := eval (λ _, true) (do_line (x :: s) (main_loop lines)) (std io) (n, k) in (Said (desc_of 2 (std io)) (str "$ ") :: l1, e1)).1 = Said (Some (io 2)) (str "$ ") :: e) as Hc.
  { intros e <-. by destruct (eval _ _ _ _). }
  apply Hc. clear Hc. unfold do_line. set (cmd := drop _ (x :: s)) in *. destruct (_ =? NL); [apply IH|]. destruct (is_cd cmd).
  - unfold without_newline. rewrite bool_decide_true by auto. cbn [eval fst snd]. specialize (IH n (S k)). destruct (eval _ (main_loop lines) _ _). simpl in *. by rewrite IH.
  - rewrite eval_fork1. cbn iota beta. unfold run_line. destruct (parsecmd cmd _ O) as [[[c b|l'] s']|msg|] eqn:E.
    + destruct (runcmd_plumb b c io n (S k)) as [k' ->]; [by apply (parsecmd_good _ _ _ _ E)|]. destruct (plumb b c io n) as [l1 n1]. cbn [fst snd]. rewrite eval_wait.
      specialize (IH n1 k'). destruct (eval _ (main_loop lines) _ _). simpl in *. by rewrite IH.
    + rewrite eval_fprintf, printf_leftovers, eval_panic, eval_wait. cbn iota beta. specialize (IH n (S k)). destruct (eval _ (main_loop lines) _ _). simpl in *. by rewrite IH.
    + rewrite eval_panic, eval_wait. specialize (IH n (S k)). destruct (eval _ (main_loop lines) _ _). simpl in *. by rewrite IH.
    + by destruct (parsecmd_total cmd).
Qed.

(** At the start some of the three descriptors may be closed. *)
Definition starts (a b c : option desc) : fds := a :: b :: c :: replicate 13 None.
Definition console : desc := Opened (str "console") O_RDWR.

Lemma open_console_std a b c p e : ∃ k,
  eval (λ _, true) (open_console 4 p) (starts a b c) e =
  eval (λ _, true) p (std (λ i, default console (if i =? 0 then a else if i =? 1 then b else c))) (e.1, k).
Proof. destruct a, b, c, e as [n k]; eexists; reflexivity. Qed.

(** C37. When no call fails, a shell started with any of the descriptors 0, 1 and 2
    open opens the console on the others and then does what its lines mean: each
    command line is parsed and each program of it runs with its arguments and with
    exactly the descriptors that the redirections and pipes around it give it; the
    shell waits for the line and goes on, a syntax error is reported, with what is
    left over of the line, and ends only the child, and a change of directory is
    done by the shell itself.  A line with [cd] has to end in a newline: its last
    character is cut off. *)
Theorem shell_session lines a b c :
  let io := λ i, default console (if i =? 0 then a else if i =? 1 then b else c) in
  Forall complete_cd lines →
  (eval (λ _, true) (main lines) (starts a b c) (0%nat, 0%nat)).1 = session lines io 0.
Proof. intros io Hcd. unfold main. destruct (open_console_std a b c (main_loop lines) (0%nat, 0%nat)) as [k ->]. by apply main_loop_session. Qed.

(** A line that is left over in part, a change of directory, and a pipe. *)
Lemma shell_session_witness :
  (eval (λ _, true) (main [str "ls )" ++ [NL]; str "cd dir" ++ [NL]; str "ls|wc" ++ [NL]]) (starts None None None) (0%nat, 0%nat)).1 =
    [Said (Some console) (str "$ "); Said (Some console) (str "leftovers: )" ++ [NL; NL]); Said (Some console) (str "syntax" ++ [NL]); Exited 1;
     Waits (std (λ _, console));
     Said (Some console) (str "$ "); Went (str "dir");
     Said (Some console) (str "$ ");
     Ran (str "ls") [str "ls"] (std (<[1 := WriteEnd 0]> (λ _, console))); Ran (str "wc") [str "wc"] (std (<[0 := ReadEnd 0]> (λ _, console)));
     Waits (std (λ _, console)); Waits (std (λ _, console)); Exited 0; Waits (std (λ _, console));
     Said (Some console) (str "$ "); Exited 0].
Proof.
  rewrite (shell_session _ None None None) by (apply (bool_decide_unpack _); by vm_compute). by vm_compute.
Defined.

(** A session: a line with every construct. *)
Example session_example :
  let io := Inherited ∘ Z.to_nat in
  session [str "grep x < in | wc > out; ls" ++ [NL]] io 0 =
    [Said (Some (Inherited 2)) (str "$ ");
     Ran (str "grep") [str "grep"; str "x"] (std (<[0 := Opened (str "in") O_RDONLY]> (<[1 := WriteEnd 0]> io)));
     Ran (str "wc") [str "wc"] (std (<[1 := Opened (str "out") 1537]> (<[0 := ReadEnd 0]> io)));
     Waits (std io); Waits (std io); Exited 0;
     Waits (std io);
     Ran (str "ls") [str "ls"] (std io);
     Waits (std io);
     Said (Some (Inherited 2)) (str "$ "); Exited 0].
Proof. by vm_compute. Qed.

(** The last character of a [cd] line is taken off even if it is no newline. *)
Example cd_chops_last : (eval (λ _, true) (main_loop [str "cd dir"]) (std (Inherited ∘ Z.to_nat)) (0%nat, 0%nat)).1 =
  [Said (Some (Inherited 2)) (str "$ "); Went (str "di"); Said (Some (Inherited 2)) (str "$ "); Exited 0].
Proof. by vm_compute. Qed.
