(* ===== verification/Tools.v ===== *)
(** * Small programs

    user/wc.c, cat.c, echo.c, ls.c, rm.c, mkdir.c, ln.c, kill.c and the wrappers
    of ulib.c.  A program makes system calls, which are recorded in order, until it
    exits.  What the kernel answers is a parameter that may depend on all the calls
    before; an open file is the pieces that [read] will return and whether it fails
    then. *)

From Stdlib Require Import Ascii.
From S2P Require Import Ulib Prelude Sh Printf FsState.

Inductive call :=
  | Write (fd : Z) (bytes : list Z)
  | Unlink (path : list Z)
  | Mkdir (path : list Z)
  | Link (old new : list Z)
  | Kill (pid : Z)
  | Open (path : list Z)
  | Close.

(** A value or an exit status, with the calls so far. *)
Definition T (A : Type) : Type := list call → (A + Z) * list call.
#[local] Instance T_ret : MRet T := λ A a h, (inl a, h).
#[local] Instance T_bind : MBind T := λ A B k c h, match c h with (inl a, h') => k a h' | (inr st, h') => (inr st, h') end.
Definition exit {A} (status : Z) : T A := λ h, (inr status, h).
Definition log (c : call) : T unit := λ h, (inl tt, h ++ [c]).
Definition fprintf (fd : Z) (fmt : list Z) (ap : list varg) : T unit := log (Write fd (default [] (printf fmt ap))).

Record stream := mkStream { pieces : list (list Z); read_fails : bool }.
(** type, inode number, size *)
Record stat_t := mkStat { st_type : Z; st_ino : Z; st_size : Z }.
Record dirent := mkDirent { inum : Z; dname : list Z }.

(** ** wc *)

Record counts := mkCounts { nl : Z; nw : Z; nc : Z; inword : bool }.

Definition wc_char (s : counts) (b : Z) : counts :=
  let c := s32 (nc s + 1) in
  let l := if b =? NL then s32 (nl s + 1) else nl s in
  match strchr (str " " ++ [13; 9; 10; 11]) b with
  | Some _ => mkCounts l (nw s) c false
  | None => if inword s then mkCounts l (nw s) c true else mkCounts l (s32 (nw s + 1)) c true
  end.

(** The loop over what [read] returns, until it returns 0 or less. *)
Fixpoint wc_loop (chunks : list (list Z)) (s : counts) : counts :=
  match chunks with
  | [] | [] :: _ => s
  | buf :: chunks' => wc_loop chunks' (foldl wc_char s buf)
  end.

Definition wc (f : stream) (name : list Z) : T unit :=
  let s := wc_loop (pieces f) (mkCounts 0 0 0 false) in
  if read_fails f then fprintf 1 (str "wc: read error" ++ [NL]) [] ;; exit 1
  else fprintf 1 (str "%d %d %d %s" ++ [NL]) [ANum (nl s); ANum (nw s); ANum (nc s); AStr (Some name)].

Section programs.
Context (ret : list call → call → Z) (files : list Z → option stream) (stdin : stream).

Definition sys (c : call) : T Z := λ h, (inl (ret h c), h ++ [c]).
Definition open (path : list Z) : T (option stream) := λ h, (inl (files path), h ++ [Open path]).

(** The loop over the arguments in [main] of wc.c and of cat.c. *)
Fixpoint each_file (body : stream → list Z → T unit) (fd : Z) (cannot : list Z) (args : list (list Z)) : T unit :=
  match args with
  | [] => mret tt
  | a :: args' =>
      o ← open a;
      match o with
      | None => fprintf fd cannot [AStr (Some a)] ;; exit 1
      | Some f => body f a ;; log Close ;; each_file body fd cannot args'
      end
  end.

Definition wc_main (args : list (list Z)) : T unit :=
  match args with
  | [] => wc stdin [] ;; exit 0
  | _ => each_file wc 1 (str "wc: cannot open %s" ++ [NL]) args ;; exit 0
  end.

(** ** cat *)

Fixpoint cat_loop (chunks : list (list Z)) : T unit :=
  match chunks with
  | [] | [] :: _ => mret tt
  | buf :: chunks' =>
      n ← sys (Write 1 buf);
      if negb (n =? Z.of_nat (length buf)) then fprintf 2 (str "cat: write error" ++ [NL]) [] ;; exit 1
      else cat_loop chunks'
  end.

Definition cat (f : stream) : T unit :=
  cat_loop (pieces f) ;;
  if read_fails f then fprintf 2 (str "cat: read error" ++ [NL]) [] ;; exit 1 else mret tt.

Definition cat_main (args : list (list Z)) : T unit :=
  match args with
  | [] => cat stdin ;; exit 0
  | _ => each_file (λ f _, cat f) 2 (str "cat: cannot open %s" ++ [NL]) args ;; exit 0
  end.

(** ** echo, rm, mkdir, ln, kill *)

Fixpoint echo_loop (args : list (list Z)) : T unit :=
  match args with
  | [] => mret tt
  | a :: args' =>
      _ ← sys (Write 1 a);
      _ ← sys (Write 1 (match args' with [] => [NL] | _ => str " " end));
      echo_loop args'
  end.
Definition echo_main (args : list (list Z)) : T unit := echo_loop args ;; exit 0.

(** The loop of rm.c and mkdir.c: stop at the first that fails. *)
Fixpoint until_failure (c : list Z → call) (msg : list Z) (args : list (list Z)) : T unit :=
  match args with
  | [] => mret tt
  | a :: args' =>
      r ← sys (c a);
      if r <? 0 then fprintf 2 msg [AStr (Some a)] else until_failure c msg args'
  end.

Definition rm_main (args : list (list Z)) : T unit :=
  match args with
  | [] => fprintf 2 (str "Usage: rm files..." ++ [NL]) [] ;; exit 1
  | _ => until_failure Unlink (str "rm: %s failed to delete" ++ [NL]) args ;; exit 0
  end.

Definition mkdir_main (args : list (list Z)) : T unit :=
  match args with
  | [] => fprintf 2 (str "Usage: mkdir files..." ++ [NL]) [] ;; exit 1
  | _ => until_failure Mkdir (str "mkdir: %s failed to create" ++ [NL]) args ;; exit 0
  end.

Definition ln_main (args : list (list Z)) : T unit :=
  match args with
  | [old; new] =>
      r ← sys (Link old new);
      (if r <? 0 then fprintf 2 (str "link %s %s: failed" ++ [NL]) [AStr (Some old); AStr (Some new)] else mret tt) ;;
      exit 0
  | _ => fprintf 2 (str "Usage: ln old new" ++ [NL]) [] ;; exit 1
  end.

Fixpoint kill_loop (args : list (list Z)) : T unit :=
  match args with
  | [] => mret tt
  | a :: args' => _ ← sys (Kill (atoi a)); kill_loop args'
  end.
Definition kill_main (args : list (list Z)) : T unit :=
  match args with
  | [] => fprintf 2 (str "usage: kill pid..." ++ [NL]) [] ;; exit 1
  | _ => kill_loop args ;; exit 0
  end.

(** ** ls *)

(** Back from [i] to the last slash, and one on. *)
Fixpoint name_start (path : list Z) (i : nat) : nat :=
  if nth i path 0 =? ch "/" then S i else match i with O => O | S j => name_start path j end.

Definition fmtname (path : list Z) : list Z :=
  let p := drop (name_start path (length path)) path in
  if DIRSIZ <=? Z.of_nat (length p) then p
  else p ++ replicate (Z.to_nat (DIRSIZ - Z.of_nat (length p))) (ch " ").

Context (fstat : list Z → option stat_t) (dirents : list Z → list dirent).

(** [stat] of ulib.c: the file must open. *)
Definition stat (n : list Z) : T (option stat_t) :=
  o ← open n;
  match o with
  | None => mret None
  | Some _ => log Close ;; mret (fstat n)
  end.

Definition ls_line (name : list Z) (st : stat_t) : T unit :=
  fprintf 1 (str "%s %d %d %d" ++ [NL]) [AStr (Some (fmtname name)); ANum (st_type st); ANum (st_ino st); ANum (s32 (st_size st))].

Fixpoint ls_entries (path : list Z) (des : list dirent) : T unit :=
  match des with
  | [] => mret tt
  | de :: des' =>
      (if inum de =? 0 then mret tt else
       let buf := path ++ str "/" ++ before_nul (take 14 (dname de)) in
       st ← stat buf;
       match st with
       | None => fprintf 1 (str "ls: cannot stat %s" ++ [NL]) [AStr (Some buf)]
       | Some st => ls_line buf st
       end) ;;
      ls_entries path des'
  end.

Definition ls (path : list Z) : T unit :=
  o ← open path;
  match o with
  | None => fprintf 2 (str "ls: cannot open %s" ++ [NL]) [AStr (Some path)]
  | Some _ =>
      match fstat path with
      | None => fprintf 2 (str "ls: cannot stat %s" ++ [NL]) [AStr (Some path)] ;; log Close
      | Some st =>
          (if (st_type st =? T_DEVICE) || (st_type st =? T_FILE) then ls_line path st
           else if st_type st =? T_DIR then
             if 512 <? Z.of_nat (length path) + 1 + DIRSIZ + 1 then fprintf 1 (str "ls: path too long" ++ [NL]) []
             else ls_entries path (dirents path)
           else mret tt) ;;
          log Close
      end
  end.

Fixpoint ls_args (args : list (list Z)) : T unit :=
  match args with [] => mret tt | a :: args' => ls a ;; ls_args args' end.
Definition ls_main (args : list (list Z)) : T unit :=
  match args with [] => ls (str ".") ;; exit 0 | _ => ls_args args ;; exit 0 end.
End programs.

(** ** What they do *)

Lemma T_bind_inl {A B} (m : T A) (k : A → T B) h a h' : m h = (inl a, h') → (m ≫= k) h = k a h'.
Proof. unfold mbind, T_bind. by intros ->. Qed.

(** The words of a text: the longest pieces without space, [cur] being the last so far. *)
Definition space (b : Z) : bool := bool_decide (b ∈ [32; 13; 9; 10; 11]).
Fixpoint split_words (cur text : list Z) : list (list Z) :=
  match text with
  | [] => match cur with [] => [] | _ => [cur] end
  | b :: text' =>
      if space b then match cur with [] => split_words [] text' | _ => cur :: split_words [] text' end
      else split_words (cur ++ [b]) text'
  end.
Definition newlines (text : list Z) : nat := length (filter (λ b, b = NL) text).

Lemma space_strchr b : match strchr (str " " ++ [13; 9; 10; 11]) b with Some _ => true | None => false end = space b.
Proof.
  fold (among b (str " " ++ [13; 9; 10; 11])). apply eq_bool_prop_intro. rewrite !Is_true_true. unfold space. rewrite bool_decide_eq_true.
  apply (among_elem b (str " " ++ [13; 9; 10; 11])). by apply (bool_decide_unpack _).
Qed.

(** The counts do not overflow. *)
Definition counted (s : counts) : Prop := 0 ≤ nl s ≤ nc s ∧ 0 ≤ nw s ≤ nc s.

Lemma wc_char_eq s b : counted s → nc s + 1 < 2 ^ 31 →
  wc_char s b = mkCounts (nl s + if b =? NL then 1 else 0) (nw s + if space b || inword s then 0 else 1) (nc s + 1) (negb (space b)).
Proof.
  intros [H1 H2] H3. unfold wc_char. rewrite <-space_strchr. rewrite !s32_small by lia.
  replace (if b =? NL then nl s + 1 else nl s) with (nl s + if b =? NL then 1 else 0) by (destruct (b =? NL); lia).
  destruct (strchr _ b); cbn [orb negb]; [by rewrite Z.add_0_r|]. destruct (inword s); [by rewrite Z.add_0_r|done].
Qed.

Lemma newlines_cons b text : Z.of_nat (newlines (b :: text)) = (if b =? NL then 1 else 0) + Z.of_nat (newlines text).
Proof. unfold newlines. rewrite filter_cons. destruct (Z.eqb_spec b NL); [rewrite decide_True by done; simpl; lia|by rewrite decide_False by done]. Qed.

Lemma wc_chars text cur s :
  counted s → nc s + Z.of_nat (length text) < 2 ^ 31 → inword s = negb (bool_decide (cur = [])) →
  let s' := foldl wc_char s text in
  nl s' = nl s + Z.of_nat (newlines text) ∧ nc s' = nc s + Z.of_nat (length text) ∧
  nw s' = nw s + Z.of_nat (length (split_words cur text)) - (if inword s then 1 else 0).
Proof.
  revert cur s. induction text as [|b text IH]; intros cur s Hc H6 Hi; cbn [foldl split_words].
  - rewrite Hi. destruct cur; cbn; lia.
  - cbn [length] in *. rewrite newlines_cons, wc_char_eq by (done || lia). set (s1 := mkCounts _ _ _ _).
    assert (counted s1) as Hc1 by (destruct Hc; split; subst s1; cbn; repeat case_match; lia).
    destruct (space b) eqn:Es.
    + destruct (IH [] s1 Hc1) as (E1 & E2 & E3); [subst s1; cbn; lia|done|]. rewrite E1, E2, E3. subst s1. cbn [nl nw nc inword orb negb]. rewrite Hi.
      destruct cur; cbn [bool_decide negb length]; cbn; lia.
    + destruct (IH (cur ++ [b]) s1 Hc1) as (E1 & E2 & E3); [subst s1; cbn; lia|by destruct cur|]. rewrite E1, E2, E3. subst s1. cbn [nl nw nc inword orb negb].
      destruct (inword s); lia.
Qed.

Lemma wc_loop_concat chunks s : Forall (λ b, b ≠ []) chunks → wc_loop chunks s = foldl wc_char s (concat chunks).
Proof.
  intros Hc. revert s. induction Hc as [|[|b buf] chunks Hb _ IH]; intros s; [done|done|]. cbn [wc_loop concat]. by rewrite IH, foldl_app.
Qed.

(** However [read] splits the file, [wc] prints the numbers of its newlines, of its
    words and of its characters. *)
Lemma wc_counts chunks name h :
  Forall (λ b, b ≠ []) chunks → Z.of_nat (length (concat chunks)) < 2 ^ 31 →
  let text := concat chunks in
  wc (mkStream chunks false) name h =
    (inl tt, h ++ [Write 1 (default [] (printf (str "%d %d %d %s" ++ [NL])
       [ANum (Z.of_nat (newlines text)); ANum (Z.of_nat (length (split_words [] text))); ANum (Z.of_nat (length text)); AStr (Some name)]))]).
Proof.
  intros Hc Hl text. unfold wc. cbn [pieces read_fails]. rewrite wc_loop_concat by done.
  destruct (wc_chars text [] (mkCounts 0 0 0 false)) as (E1 & E2 & E3); [split; cbn; lia|exact Hl|done|]. cbn [nl nw nc inword] in *. fold text.
  rewrite E1, E2, E3. unfold fprintf, log. by rewrite !Z.sub_0_r, !Z.add_0_l.
Qed.

(** What was written to a descriptor. *)
Definition written (fd : Z) (h : list call) : list Z :=
  concat (omap (λ c, match c with Write fd' b => if fd' =? fd then Some b else None | _ => None end) h).

Lemma written_app fd h1 h2 : written fd (h1 ++ h2) = written fd h1 ++ written fd h2.
Proof. unfold written. by rewrite omap_app, concat_app. Qed.

Lemma written_out b h : written 1 (Write 1 b :: h) = b ++ written 1 h.
Proof. done. Qed.
Lemma written_err b h : written 2 (Write 1 b :: h) = written 2 h.
Proof. done. Qed.

Section what.
Context (ret : list call → call → Z).

(** [cat] returns only when every write was complete, and then it wrote the file;
    when it stops it wrote a beginning of it. *)
Lemma cat_copies f h : Forall (λ b, b ≠ []) (pieces f) →
  match cat ret f h with
  | (inl _, h') => ∃ h1, h' = h ++ h1 ∧ written 1 h1 = concat (pieces f) ∧ written 2 h1 = [] ∧ read_fails f = false
  | (inr status, h') => ∃ h1, h' = h ++ h1 ∧ status = 1 ∧ written 1 h1 `prefix_of` concat (pieces f) ∧ written 2 h1 ≠ []
  end.
Proof.
  intros Hp. destruct f as [chunks fails]. cbn [pieces read_fails] in *. unfold cat. cbn [pieces read_fails].
  assert (match cat_loop ret chunks h with
          | (inl _, h') => ∃ h1, h' = h ++ h1 ∧ written 1 h1 = concat chunks ∧ written 2 h1 = []
          | (inr status, h') => ∃ h1, h' = h ++ h1 ∧ status = 1 ∧ written 1 h1 `prefix_of` concat chunks ∧ written 2 h1 ≠ []
          end) as H.
  { revert h. induction Hp as [|[|b buf] chunks Hb _ IH]; intros h; [exists []; by rewrite app_nil_r|done|].
    cbn [cat_loop]. unfold mbind, T_bind, sys. set (n := ret h _). destruct (negb _).
    - exists [Write 1 (b :: buf); Write 2 (default [] (printf (str "cat: write error" ++ [NL]) []))].
      unfold fprintf, log, exit. rewrite <-app_assoc. split; [done|]. split; [done|]. split; [|done]. exists (concat chunks). cbn. by rewrite app_nil_r.
    - specialize (IH (h ++ [Write 1 (b :: buf)])). destruct (cat_loop ret chunks _) as [[u|st] h'].
      + destruct IH as (h1 & -> & E1 & E2). exists (Write 1 (b :: buf) :: h1). by rewrite <-app_assoc, written_out, written_err, E1, E2.
      + destruct IH as (h1 & -> & -> & [k Ek] & E2). exists (Write 1 (b :: buf) :: h1). rewrite <-app_assoc, written_out, written_err.
        split; [done|]. split; [done|]. split; [|done]. exists k. cbn [concat]. by rewrite Ek, <-app_assoc. }
  unfold mbind, T_bind. destruct (cat_loop ret chunks h) as [[u|st] h']; [|done]. destruct H as (h1 & -> & E1 & E2). destruct fails; [|by exists h1].
  exists (h1 ++ [Write 2 (default [] (printf (str "cat: read error" ++ [NL]) []))]). unfold fprintf, log, exit. rewrite app_assoc, !written_app, E1, E2. split; [done|]. split; [done|]. split; [cbn; by rewrite app_nil_r|done].
Qed.

(** [echo] writes its arguments with a space between them and a newline at the end. *)
Lemma echo_prints a args h : ∃ h1, echo_main ret (a :: args) h = (inr 0, h ++ h1) ∧
  written 1 h1 = foldl (λ out b, out ++ str " " ++ b) a args ++ [NL].
Proof.
  unfold echo_main. unfold mbind at 1, T_bind at 1.
  assert (∃ h1, echo_loop ret (a :: args) h = (inl tt, h ++ h1) ∧ written 1 h1 = foldl (λ out b, out ++ str " " ++ b) a args ++ [NL]) as (h1 & -> & E); [|by exists h1].
  revert a h. induction args as [|b args IH]; intros a h.
  - exists [Write 1 a; Write 1 [NL]]. cbn. unfold mbind, T_bind, sys, mret, T_ret. by rewrite <-app_assoc.
  - destruct (IH b ((h ++ [Write 1 a]) ++ [Write 1 (str " ")])) as (h1 & E & W). exists ([Write 1 a; Write 1 (str " ")] ++ h1).
    split; [|rewrite written_app, W].
    + change (echo_loop ret (a :: b :: args) h) with (echo_loop ret (b :: args) ((h ++ [Write 1 a]) ++ [Write 1 (str " ")])). rewrite E. by rewrite <-!app_assoc.
    + cbn [foldl]. change (written 1 [Write 1 a; Write 1 (str " ")]) with (a ++ str " " ++ []). rewrite app_nil_r. clear.
      rewrite app_assoc. f_equal. revert b. induction args as [|c args IH]; intros b; cbn [foldl]; [by rewrite <-app_assoc|]. rewrite IH. by rewrite <-!app_assoc.
Qed.
End what.

Lemma name_start_last dir name k : ch "/" ∉ name → (k ≤ length name)%nat →
  name_start (dir ++ ch "/" :: name) (S (length dir) + k) = S (length dir).
Proof.
  intros Hn. assert (∀ j, (j ≤ length name)%nat → nth (S (length dir) + j) (dir ++ ch "/" :: name) 0 ≠ ch "/") as Hs.
  { intros j Hj. rewrite app_nth2 by lia. replace (S (length dir) + j - length dir)%nat with (S j) by lia. cbn [nth].
    destruct (decide (j < length name)%nat); [|by rewrite nth_overflow by lia]. intros E. apply Hn. rewrite <-E. by apply list_elem_of_In, nth_In. }
  induction k as [|k IH]; intros Hk.
  - specialize (Hs 0%nat ltac:(lia)). rewrite Nat.add_0_r in *. cbn [name_start]. destruct (Z.eqb_spec (nth (S (length dir)) (dir ++ ch "/" :: name) 0) (ch "/")); [done|].
    destruct (length dir) as [|d] eqn:Ed; [destruct dir; [done|done]|]. cbn [name_start]. rewrite app_nth2 by lia. rewrite Ed, Nat.sub_diag. done.
  - rewrite Nat.add_succ_r. cbn [name_start]. rewrite <-Nat.add_succ_r. destruct (Z.eqb_spec (nth (S (length dir) + S k) (dir ++ ch "/" :: name) 0) (ch "/")) as [E|]; [by destruct (Hs (S k) Hk)|]. apply IH. lia.
Qed.

(** [ls] shows the last part of a path, with spaces up to 14 characters. *)
Lemma fmtname_pads dir name : ch "/" ∉ name →
  fmtname (dir ++ ch "/" :: name) = name ++ replicate (14 - length name) (ch " ").
Proof.
  intros Hn. unfold fmtname. replace (length (dir ++ ch "/" :: name)) with (S (length dir) + length name)%nat by (rewrite length_app; simpl; lia).
  rewrite name_start_last by done. rewrite drop_app_ge by lia. replace (S (length dir) - length dir)%nat with 1%nat by lia. change (drop 1 (ch "/" :: name)) with name.
  unfold DIRSIZ. destruct (Z.leb_spec 14 (Z.of_nat (length name))).
  - replace (14 - length name)%nat with 0%nat by lia. cbn [replicate]. by rewrite app_nil_r.
  - by replace (Z.to_nat (14 - Z.of_nat (length name))) with (14 - length name)%nat by lia.
Qed.
