(* ===== verification/Mkfs.v ===== *)
(** * The program that makes the file system image

    mkfs.c on the image as an array of sectors.  The files it copies are an
    argument, each with what open and the calls of read on it return.  exit(1),
    after a message or a failed assert, is a panic here. *)

From S2P Require Import Prelude Memory Kalloc Vm FsState Fs.

Definition FSSIZE : Z := 2000.
Definition NINODES : Z := 200.
Definition nbitmap : Z := FSSIZE / BPB + 1.
Definition ninodeblocks : Z := NINODES / IPB + 1.
Definition nlog : Z := LOGBLOCKS + 1.

(** The file behind fsfd, and the variables sb, freeinode, freeblock. *)
Record mk := mkMk {
  img : Z → memory;
  nsect : Z;               (** its length *)
  msb : superblock;
  freeinode : Z;
  freeblock : Z;
}.
Definition set_img (d : Z → memory) (n : Z) (s : mk) : mk := mkMk d n (msb s) (freeinode s) (freeblock s).
Definition set_msb (v : superblock) (s : mk) : mk := mkMk (img s) (nsect s) v (freeinode s) (freeblock s).
Definition set_freeinode (v : Z) (s : mk) : mk := mkMk (img s) (nsect s) (msb s) v (freeblock s).
Definition set_freeblock (v : Z) (s : mk) : mk := mkMk (img s) (nsect s) (msb s) (freeinode s) v.

Definition zeroes : memory := λ _, 0.

(** The bytes of an integer in RISC-V order, read as an integer of the host,
    which has the same order. *)
Definition xshort (x : Z) : Z :=
  let a := upd zeroes 0 (x mod 256) in
  let a := upd a 1 (Z.shiftr x 8 mod 256) in
  load16 a 0.
Definition xint (x : Z) : Z :=
  let a := upd zeroes 0 (x mod 256) in
  let a := upd a 1 (Z.shiftr x 8 mod 256) in
  let a := upd a 2 (Z.shiftr x 16 mod 256) in
  let a := upd a 3 (Z.shiftr x 24 mod 256) in
  load32 a 0.

(** The sector at the offset [sec * BSIZE], an unsigned int. *)
Definition sector (sec : Z) : Z := u32 (sec * BSIZE) / BSIZE.
Definition wsect (sec : Z) (buf : memory) : M mk unit :=
  modify (λ s, set_img (<[sector sec := buf]> (img s)) (Z.max (nsect s) (sector sec + 1)) s).
Definition rsect (sec : Z) : M mk memory :=
  n ← gets nsect;
  if sector sec <? n then gets (λ s, img s (sector sec)) else panic "read".

(** A dinode is its bytes. *)
Definition dinode_in (buf : memory) (o : Z) : memory := λ i, buf (o + i).
Definition put_dinode (din : memory) (o : Z) (buf : memory) : memory :=
  λ x, if (o <=? x) && (x <? o + DINODE_SIZE) then din (x - o) else buf x.
Definition D_NLINK : Z := 6.
Definition D_SIZE : Z := 8.
Definition din_addr (din : memory) (i : Z) : Z := load32 din (12 + 4 * i).
Definition set_din_addr (i v : Z) (din : memory) : memory := store32 din (12 + 4 * i) v.

Definition winode (inum : Z) (ip : memory) : M mk unit :=
  bn ← gets (λ s, IBLOCK inum (msb s));
  buf ← rsect bn;
  wsect bn (put_dinode ip (inum mod IPB * DINODE_SIZE) buf).
Definition rinode (inum : Z) : M mk memory :=
  bn ← gets (λ s, IBLOCK inum (msb s));
  buf ← rsect bn;
  mret (dinode_in buf (inum mod IPB * DINODE_SIZE)).

Definition ialloc (type : Z) : M mk Z :=
  inum ← gets freeinode;
  modify (set_freeinode (u32 (inum + 1))) ;;
  let din := store16 zeroes 0 (xshort type) in
  let din := store16 din D_NLINK (xshort 1) in
  let din := store32 din D_SIZE (xint 0) in
  winode inum din ;;
  mret inum.

(** The first [n] bits from [i] on. *)
Fixpoint mark_loop (n : nat) (i : Z) (buf : memory) : memory :=
  match n with
  | O => buf
  | S n' => mark_loop n' (i + 1) (upd buf (i / 8) (Z.lor (buf (i / 8)) (Z.shiftl 1 (i mod 8))))
  end.
Definition balloc (used : Z) : M mk unit :=
  if negb (used <? BPB) then panic "assert" else
  sb ← gets msb;
  wsect (bmapstart sb) (mark_loop (Z.to_nat used) 0 zeroes).

(** [freeblock++] *)
Definition next_block : M mk Z :=
  b ← gets freeblock;
  modify (set_freeblock (u32 (b + 1))) ;;
  mret b.

(** The sector of block [fbn] of the file, which it gets here if it has none. *)
Definition block_for (fbn : Z) (din : memory) : M mk (Z * memory) :=
  if fbn <? NDIRECT then
    din ← (if xint (din_addr din fbn) =? 0 then
             b ← next_block;
             mret (set_din_addr fbn (xint b) din)
           else mret din);
    mret (xint (din_addr din fbn), din)
  else
    din ← (if xint (din_addr din NDIRECT) =? 0 then
             b ← next_block;
             mret (set_din_addr NDIRECT (xint b) din)
           else mret din);
    indirect ← rsect (xint (din_addr din NDIRECT));
    indirect ← (if entry indirect (fbn - NDIRECT) =? 0 then
                  b ← next_block;
                  let indirect := set_entry (fbn - NDIRECT) (xint b) indirect in
                  wsect (xint (din_addr din NDIRECT)) indirect ;;
                  mret indirect
                else mret indirect);
    mret (xint (entry indirect (fbn - NDIRECT)), din).

(** A round of the loop takes at least one of the [n] bytes at [p]. *)
Fixpoint iappend_loop (fuel : nat) (p : list Z) (n off : Z) (din : memory) : M mk (Z * memory) :=
  match fuel with
  | O => nofuel
  | S fuel' =>
      if negb (0 <? n) then mret (off, din) else
      let fbn := off / BSIZE in
      if negb (fbn <? MAXFILE) then panic "assert" else
      r ← block_for fbn din;
      let '(x, din) := r in
      let n1 := Z.min n ((fbn + 1) * BSIZE - off) in
      buf ← rsect x;
      wsect x (store_bytes buf (off - fbn * BSIZE) (take (Z.to_nat n1) p)) ;;
      iappend_loop fuel' (drop (Z.to_nat n1) p) (n - n1) (u32 (off + n1)) din
  end.
Definition iappend (inum : Z) (p : list Z) (n : Z) : M mk unit :=
  din ← rinode inum;
  let off := xint (load32 din D_SIZE) in
  r ← iappend_loop (S (Z.to_nat n)) p n off din;
  let '(off, din) := r in
  winode inum (store32 din D_SIZE (xint off)).

(** An argument: its name, and the results of read when it can be opened. *)
Record input := mkInput { path : list Z; reads : option (list (list Z)) }.

Definition user_ : list Z := [117; 115; 101; 114; 47].
Definition underscore : Z := 95.
Definition dot : Z := 46.

(** [while ((cc = read(fd, buf, sizeof(buf))) > 0)] *)
Fixpoint append_reads (inum : Z) (rs : list (list Z)) : M mk unit :=
  match rs with
  | [] => mret tt
  | buf :: rs' =>
      let cc := Z.of_nat (length buf) in
      if negb (0 <? cc) then mret tt else
      iappend inum buf cc ;;
      append_reads inum rs'
  end.

Definition add_file (rootino : Z) (a : input) : M mk unit :=
  let shortname := if decide (take 5 (path a) = user_) then drop 5 (path a) else path a in
  if decide (slash ∈ shortname) then panic "assert" else
  match reads a with
  | None => panic "open"
  | Some rs =>
      let shortname := if decide (head shortname = Some underscore) then tail shortname else shortname in
      if negb (Z.of_nat (length shortname) <=? DIRSIZ) then panic "assert" else
      inum ← ialloc T_FILE;
      iappend rootino (mk_dirent (xshort inum) (name_field shortname)) DIRENT_SIZE ;;
      append_reads inum rs
  end.

Fixpoint add_files (rootino : Z) (l : list input) : M mk unit :=
  match l with
  | [] => mret tt
  | a :: l' => add_file rootino a ;; add_files rootino l'
  end.

(** [memmove(buf, &sb, sizeof(sb))] *)
Definition encode_sb (x : superblock) (m : memory) : memory :=
  let m := store32 m 0 (magic x) in
  let m := store32 m 4 (sb_size x) in
  let m := store32 m 8 (nblocks x) in
  let m := store32 m 12 (ninodes x) in
  let m := store32 m 16 (FsState.nlog x) in
  let m := store32 m 20 (logstart x) in
  let m := store32 m 24 (inodestart x) in
  store32 m 28 (bmapstart x).

Definition nmeta : Z := 2 + nlog + ninodeblocks + nbitmap.

(** Before [main]; the image is opened with O_TRUNC. *)
Definition mk0 : mk := mkMk (λ _, zeroes) 0 (mkSb 0 0 0 0 0 0 0 0) 1 0.

Definition main (l : list input) : M mk unit :=
  let nblocks := FSSIZE - nmeta in
  let sb := mkSb FSMAGIC (xint FSSIZE) (xint nblocks) (xint NINODES) (xint nlog) (xint 2)
              (xint (2 + nlog)) (xint (2 + nlog + ninodeblocks)) in
  modify (set_msb sb) ;;
  modify (set_freeblock nmeta) ;;
  for_up (Z.to_nat FSSIZE) 0 1 (λ i, wsect i zeroes) ;;
  wsect 1 (encode_sb sb zeroes) ;;
  rootino ← ialloc T_DIR;
  if negb (rootino =? ROOTINO) then panic "assert" else
  iappend rootino (mk_dirent (xshort rootino) (name_field [dot])) DIRENT_SIZE ;;
  iappend rootino (mk_dirent (xshort rootino) (name_field [dot; dot])) DIRENT_SIZE ;;
  add_files rootino l ;;
  din ← rinode rootino;
  let off := xint (load32 din D_SIZE) in
  let off := u32 ((off / BSIZE + 1) * BSIZE) in
  winode rootino (store32 din D_SIZE (xint off)) ;;
  used ← gets freeblock;
  balloc used.
