(* ===== verification/MkfsOps.v ===== *)
(** * The image that mkfs makes

    The files of the image as the kernel reads them, and that each one holds what
    was appended to it. *)

From Stdlib Require Import FunctionalExtensionality.
From S2P Require Import Prelude Memory Kalloc Vm FsState Log LogCommit Tx Fs FsBlocks FsInode FsFile FsRw FsDir Mkfs.

Notation size bs := (Z.of_nat (length bs)).

(** ** Integers and sectors *)

Lemma xint_id x : 0 ≤ x < 2 ^ 32 → xint x = x.
Proof.
  intros Hx. unfold xint, load32. rewrite !Z.shiftr_div_pow2 by lia. rewrite (load_le_bytes _ _ _ x); [by apply Z.mod_small|].
  intros k Hk. assert (k = 0 ∨ k = 1 ∨ k = 2 ∨ k = 3) as [->|[->|[->| ->]]] by lia; unfold byte_at; simpl; by rewrite ?Z.div_1_r.
Qed.
Lemma xshort_id x : 0 ≤ x < 2 ^ 16 → xshort x = x.
Proof.
  intros Hx. unfold xshort, load16. rewrite !Z.shiftr_div_pow2 by lia. rewrite (load_le_bytes _ _ _ x); [by apply Z.mod_small|].
  intros k Hk. assert (k = 0 ∨ k = 1) as [->| ->] by lia; unfold byte_at; simpl; by rewrite ?Z.div_1_r.
Qed.

Lemma sector_id x : 0 ≤ x < FSSIZE → sector x = x.
Proof. unfold sector, FSSIZE, BSIZE. intros Hx. rewrite u32_small by lia. by apply Z.div_mul. Qed.

Lemma wp_rsect s x Q : nsect s = FSSIZE → 0 ≤ x < FSSIZE → Q (img s x) s → wp (rsect x) s Q.
Proof.
  intros En Hx HQ. apply wp_bind, wp_gets. rewrite sector_id, En, (proj2 (Z.ltb_lt _ _)) by lia. by apply wp_gets.
Qed.
Lemma wp_wsect s x b Q : nsect s = FSSIZE → 0 ≤ x < FSSIZE → Q tt (set_img (<[x := b]> (img s)) FSSIZE s) → wp (wsect x b) s Q.
Proof. intros En Hx HQ. apply wp_modify. rewrite sector_id, En by done. by replace (Z.max FSSIZE (x + 1)) with FSSIZE by lia. Qed.

(** ** One file *)

(** The owner of a block: an inode, and which of its blocks it is; -1 is the
    block of addresses. *)
Notation owner := (Z → option (Z * Z)).

(** The file of inode [k] has [nb] blocks, and the bytes [bs] followed by zeros
    in them; [ib] tells whether it has a block of addresses. *)
Record file_at (D : Z → memory) (ow : owner) (k : Z) (ip : inode) (bs : list Z) (nb : Z) (ib : bool) : Prop := {
  fa_nb : 0 ≤ nb ≤ MAXFILE;
  fa_len : size bs ≤ nb * BSIZE;
  fa_ind : if ib then ow (addrs ip NDIRECT) = Some (k, -1) else addrs ip NDIRECT = 0 ∧ nb ≤ NDIRECT;
  fa_has bn : 0 ≤ bn < nb → ow (baddr D ip bn) = Some (k, bn);
  fa_none bn : nb ≤ bn < MAXFILE → baddr D ip bn = 0;
  fa_data x : 0 ≤ x < nb * BSIZE → fbyte D ip x = nth (Z.to_nat x) bs 0;
}.

(** The blocks with an owner are those handed out, and the others are empty. *)
Record own_ok (D : Z → memory) (ow : owner) (fb : Z) : Prop := {
  ow_range b o : ow b = Some o → nmeta ≤ b < fb;
  ow_fb : nmeta ≤ fb ≤ FSSIZE;
  ow_empty b : fb ≤ b < FSSIZE → D b = zeroes;
}.

Lemma file_frame D D' ow ow' k ip ip' bs nb ib :
  (∀ b j, ow b = Some (k, j) → D' b = D b ∧ ow' b = Some (k, j)) →
  (∀ j, 0 ≤ j ≤ NDIRECT → addrs ip' j = addrs ip j) →
  file_at D ow k ip bs nb ib → file_at D' ow' k ip' bs nb ib.
Proof.
  intros Hf Ha [f1 f2 f3 f4 f5 f6]. assert (addrs ip' NDIRECT = addrs ip NDIRECT) as En by (apply Ha; done).
  assert (ib = false → addrs ip NDIRECT = 0 ∧ nb ≤ NDIRECT) as Hno by (intros ->; done).
  assert (∀ bn, 0 ≤ bn < MAXFILE → baddr D' ip' bn = baddr D ip bn) as Eb.
  { intros bn Hbn. unfold baddr. rewrite En. destruct (Z.ltb_spec bn NDIRECT); [apply Ha; lia|]. destruct (Z.eqb_spec (addrs ip NDIRECT) 0) as [|Hne]; [done|].
    destruct ib; [|by destruct (Hno eq_refl)]. by destruct (Hf _ _ f3) as [-> _]. }
  split; try done.
  - rewrite En. destruct ib; [by apply (Hf _ (-1))|done].
  - intros bn Hbn. rewrite Eb by lia. by apply Hf, f4.
  - intros bn Hbn. rewrite Eb by lia. auto.
  - intros x Hx. rewrite <-f6 by done. unfold fbyte. destruct (block_bounds x) as (B1 & _ & _). pose proof bsize_pos.
    assert (0 ≤ x / BSIZE < nb) as Hb by nia. rewrite Eb by lia. by destruct (Hf _ _ (f4 _ Hb)) as [-> _].
Qed.

Lemma nth_past (bs : list Z) x : size bs ≤ x → nth (Z.to_nat x) bs 0 = 0.
Proof. intros. apply nth_overflow. lia. Qed.

Lemma own_alloc D ow fb o : own_ok D ow fb → fb < FSSIZE → own_ok D (<[fb := Some o]> ow) (fb + 1).
Proof.
  intros [o1 o2 o3] Hfb. split; [|lia|intros b Hb; apply o3; lia]. intros b o'. destruct (decide (b = fb)) as [->|Hne]; [lia|].
  rewrite fn_lookup_insert_ne by done. intros E%o1. lia.
Qed.
Lemma own_write D ow fb x b : own_ok D ow fb → x < fb → own_ok (<[x := b]> D) ow fb.
Proof. intros [o1 o2 o3] Hx. split; try done. intros y Hy. rewrite fn_lookup_insert_ne by lia. auto. Qed.

Lemma fresh_owner D ow fb b o o' : own_ok D ow fb → ow b = Some o → (<[fb := o']> ow : owner) b = Some o.
Proof. intros O Hb. pose proof (ow_range _ _ _ O _ _ Hb). by rewrite fn_lookup_insert_ne by lia. Qed.

Section one.
Context (D : Z → memory) (ow : owner) (k : Z) (ip : inode) (bs : list Z) (nb : Z) (ib : bool) (fb : Z).
Context (O : own_ok D ow fb) (F : file_at D ow k ip bs nb ib) (Hfb : fb < FSSIZE).

(** Blocks of the file that have data. *)
Lemma file_block x : 0 ≤ x < nb * BSIZE → 0 ≤ x / BSIZE < nb.
Proof using. intros Hx. destruct (block_bounds x) as (B1 & _). pose proof bsize_pos. nia. Qed.

Lemma file_last x : nb * BSIZE ≤ x < (nb + 1) * BSIZE → x / BSIZE = nb ∧ nth (Z.to_nat x) bs 0 = 0.
Proof using F. intros Hx. split; [by apply block_of|]. apply nth_past. pose proof (fa_len _ _ _ _ _ _ _ F). lia. Qed.

(** A direct block is added. *)
Lemma grow_direct ip' :
  nb < NDIRECT → (∀ j, 0 ≤ j ≤ NDIRECT → addrs ip' j = if decide (j = nb) then fb else addrs ip j) →
  file_at D (<[fb := Some (k, nb)]> ow) k ip' bs (nb + 1) ib.
Proof using All.
  intros Hnb Ha. pose proof F as [f1 f2 f3 f4 f5 f6]. pose proof bsize_pos. assert (addrs ip' NDIRECT = addrs ip NDIRECT) as En by (rewrite Ha by done; rewrite decide_False by lia; done).
  assert (∀ bn, 0 ≤ bn < MAXFILE → baddr D ip' bn = if decide (bn = nb) then fb else baddr D ip bn) as Eb.
  { intros bn Hbn. unfold baddr. rewrite En. destruct (Z.ltb_spec bn NDIRECT); [apply Ha; lia|]. by rewrite decide_False by lia. }
  change MAXFILE with 268 in *. change NDIRECT with 12 in *. split; try done; [change MAXFILE with 268; lia|lia| | | |].
  - change NDIRECT with 12. rewrite En. destruct ib; [by eapply fresh_owner|]. split; [apply f3|change NDIRECT with 12; lia].
  - intros bn Hbn. rewrite Eb by lia. case_decide as E; [by rewrite E, fn_lookup_insert|]. eapply fresh_owner; [done|]. apply f4. lia.
  - intros bn Hbn. change MAXFILE with 268 in Hbn. rewrite Eb by lia. rewrite decide_False by lia. apply f5. lia.
  - intros x Hx. unfold fbyte. destruct (decide (x < nb * BSIZE)) as [Hl|Hl].
    + pose proof (file_block x ltac:(lia)). rewrite Eb, decide_False by lia. apply f6. lia.
    + destruct (file_last x) as [-> ->]; [lia|]. rewrite Eb, decide_True by lia. rewrite (ow_empty _ _ _ O); [done|lia].
Qed.

(** The block of addresses is added. *)
Lemma grow_indirect ip' :
  ib = false → nb = NDIRECT → (∀ j, 0 ≤ j ≤ NDIRECT → addrs ip' j = if decide (j = NDIRECT) then fb else addrs ip j) →
  file_at D (<[fb := Some (k, -1)]> ow) k ip' bs nb true.
Proof using All.
  intros -> Hnb Ha. pose proof F as [f1 f2 f3 f4 f5 f6]. pose proof (ow_fb _ _ _ O) as Hf. assert (addrs ip' NDIRECT = fb) as En by (rewrite Ha by done; by rewrite decide_True).
  assert (∀ bn, 0 ≤ bn < NDIRECT → baddr D ip' bn = baddr D ip bn) as Eb.
  { intros bn Hbn. unfold baddr. rewrite (proj2 (Z.ltb_lt bn _)) by lia. rewrite Ha by lia. by rewrite decide_False by lia. }
  split; try done.
  - by rewrite En, fn_lookup_insert.
  - intros bn Hbn. rewrite Eb by lia. eapply fresh_owner; [done|]. apply f4. lia.
  - intros bn Hbn. unfold baddr. rewrite (proj2 (Z.ltb_ge bn _)) by lia. rewrite En, (ow_empty _ _ _ O) by lia. by case_match.
  - intros x Hx. pose proof (file_block x Hx). unfold fbyte. rewrite Eb by lia. by apply f6.
Qed.

(** A block whose address is in the block of addresses is added. *)
Lemma grow_entry :
  ib = true → NDIRECT ≤ nb < MAXFILE →
  let a := addrs ip NDIRECT in
  file_at (<[a := set_entry (nb - NDIRECT) fb (D a)]> D) (<[fb := Some (k, nb)]> ow) k ip bs (nb + 1) true.
Proof using All.
  intros Hib Hnb a. pose proof F as [f1 f2 f3 f4 f5 f6]. rewrite Hib in f3. fold a in f3. pose proof (ow_range _ _ _ O _ _ f3) as Hr. set (D' := <[a := _]> D : Z → memory). pose proof bsize_pos.
  pose proof (ow_fb _ _ _ O) as Hf. change nmeta with 47 in *. change FSSIZE with 2000 in *.
  assert (∀ bn, 0 ≤ bn < MAXFILE → baddr D' ip bn = if decide (bn = nb) then fb else baddr D ip bn) as Eb.
  { intros bn Hbn. unfold baddr. fold a. destruct (Z.ltb_spec bn NDIRECT); [by rewrite decide_False by lia|]. rewrite (proj2 (Z.eqb_neq a 0)) by lia.
    unfold D'. rewrite fn_lookup_insert, entry_set by lia. destruct (decide (bn = nb)) as [->|]; [by rewrite decide_True|by rewrite decide_False by lia]. }
  assert (∀ b j, ow b = Some (k, j) → 0 ≤ j → D' b = D b) as ED.
  { intros b j Hb Hj. apply fn_lookup_insert_ne. intros <-. rewrite f3 in Hb. injection Hb. lia. }
  change MAXFILE with 268 in *. change NDIRECT with 12 in *. split; try done; [change MAXFILE with 268; lia|lia| | | |].
  - by eapply fresh_owner.
  - intros bn Hbn. rewrite Eb by lia. case_decide as E; [by rewrite E, fn_lookup_insert|]. eapply fresh_owner; [done|]. apply f4. lia.
  - intros bn Hbn. change MAXFILE with 268 in Hbn. rewrite Eb by lia. rewrite decide_False by lia. apply f5. lia.
  - intros x Hx. unfold fbyte. destruct (decide (x < nb * BSIZE)) as [Hl|Hl].
    + pose proof (file_block x ltac:(lia)) as Hb. rewrite Eb, decide_False by lia. rewrite (ED _ _ (f4 _ Hb)) by lia. apply f6. lia.
    + destruct (file_last x) as [-> ->]; [lia|]. rewrite Eb, decide_True by lia. unfold D'. rewrite fn_lookup_insert_ne by lia. rewrite (ow_empty _ _ _ O); [done|change FSSIZE with 2000; lia].
Qed.
End one.

(** Bytes are written after the end, within the last block. *)
Lemma file_write D ow k ip bs ds nb ib :
  let bn := size bs / BSIZE in let x := baddr D ip bn in let o := size bs - bn * BSIZE in
  file_at D ow k ip bs nb ib → bn < nb → o + size ds ≤ BSIZE →
  file_at (<[x := store_bytes (D x) o ds]> D) ow k ip (bs ++ ds) nb ib.
Proof.
  intros bn x o [f1 f2 f3 f4 f5 f6] Hbn Ho. destruct (block_bounds (size bs)) as (B1 & _ & B3). fold bn in B1. pose proof bsize_pos.
  assert (0 ≤ bn) as H0 by (apply Z.div_pos; lia). assert (ow x = Some (k, bn)) as Hx by (apply f4; lia). set (D' := <[x := _]> D : Z → memory).
  assert (∀ b j, ow b = Some (k, j) → j ≠ bn → D' b = D b) as ED.
  { intros b j Hb Hj. apply fn_lookup_insert_ne. intros <-. rewrite Hx in Hb. by injection Hb. }
  assert (∀ b, baddr D' ip b = baddr D ip b) as Eb.
  { intros b. unfold baddr. destruct (b <? NDIRECT); [done|]. destruct (Z.eqb_spec (addrs ip NDIRECT) 0); [done|]. destruct ib; [|by destruct f3]. by rewrite (ED _ _ f3) by lia. }
  split; try done.
  - rewrite length_app. nia.
  - intros b Hb. rewrite Eb. auto.
  - intros b Hb. rewrite Eb. auto.
  - intros y Hy. unfold fbyte. rewrite Eb. assert (0 ≤ y / BSIZE < nb) as Hyb by (by apply file_block). destruct (block_bounds y) as (Y1 & Y2 & Y3). pose proof (f6 y Hy) as Hold. unfold fbyte in Hold.
    assert (nth (Z.to_nat y) (bs ++ ds) 0 = if decide (y < size bs) then nth (Z.to_nat y) bs 0 else nth (Z.to_nat (y - size bs)) ds 0) as ->.
    { case_decide; [by apply app_nth1; lia|]. rewrite app_nth2 by lia. f_equal. lia. }
    destruct (decide (y / BSIZE = bn)) as [E|E].
    + rewrite E in *. unfold D'. fold x in Hold |- *. rewrite fn_lookup_insert. unfold store_bytes. mem_cases; case_decide; try lia; try done.
      * f_equal. lia.
      * rewrite Hold, !nth_overflow by lia. done.
    + rewrite (ED _ _ (f4 _ Hyb)) by done. rewrite Hold. case_decide; [done|]. rewrite !nth_overflow by nia. done.
Qed.

(** ** A dinode and its file *)

Definition blank : inode := mkInode ROOTDEV 0 0 (mkSleep false 0) false 0 0 0 0 0 (λ _, 0).
Definition dv (din : memory) : inode := decode_inode din 0 blank.

Lemma addrs_set i v din j : 0 ≤ v < 2 ^ 32 → 0 ≤ i → 0 ≤ j → addrs (dv (set_din_addr i v din)) j = if decide (j = i) then v else addrs (dv din) j.
Proof.
  intros Hv Hi Hj. unfold dv, set_din_addr, store32. cbn [decode_inode addrs]. unfold load32. case_decide as E.
  - subst. by apply load_store_same.
  - apply load_store_other. simpl. lia.
Qed.

Lemma set_addr_head i v din a : 0 ≤ i → a < 12 → set_din_addr i v din a = din a.
Proof. intros. unfold set_din_addr, store32, store_le. mem_cases; [lia|done|done]. Qed.

(** Blocks that a file of [nb] blocks takes. *)
Definition cost (nb : Z) : Z := nb + (if NDIRECT <? nb then 1 else 0).

(** Work on the file of inode [k]. *)
Record worked (k : Z) (ow : owner) (s : mk) (ow' : owner) (s' : mk) : Prop := {
  wk_len : nsect s' = FSSIZE;
  wk_sb : msb s' = msb s;
  wk_ino : freeinode s' = freeinode s;
  wk_own : own_ok (img s') ow' (freeblock s');
  wk_meta b : b < nmeta → img s' b = img s b;
  wk_other b k' j : k' ≠ k → ow b = Some (k', j) → img s' b = img s b ∧ ow' b = Some (k', j);
}.

Lemma worked_trans k ow1 s1 ow2 s2 ow3 s3 : worked k ow1 s1 ow2 s2 → worked k ow2 s2 ow3 s3 → worked k ow1 s1 ow3 s3.
Proof.
  intros [a1 a2 a3 a4 a5 a6] [b1 b2 b3 b4 b5 b6]. split; [done|congruence|congruence|done|intros b Hb; by rewrite b5, a5|].
  intros b k' j Hk Hb. destruct (a6 b k' j Hk Hb) as [<- Hb']. by apply b6.
Qed.

Lemma worked_refl k ow s : nsect s = FSSIZE → own_ok (img s) ow (freeblock s) → worked k ow s ow s.
Proof. by split. Qed.

(** A block is handed out; a block of the file is written. *)
Lemma worked_alloc k ow s j :
  nsect s = FSSIZE → own_ok (img s) ow (freeblock s) → freeblock s < FSSIZE →
  worked k ow s (<[freeblock s := Some (k, j)]> ow) (set_freeblock (freeblock s + 1) s).
Proof. intros En O Hf. split; try done; [by apply own_alloc|]. intros b k' j' _ Hb. split; [done|]. by eapply fresh_owner. Qed.

Lemma worked_write k ow s x j m :
  nsect s = FSSIZE → own_ok (img s) ow (freeblock s) → ow x = Some (k, j) →
  worked k ow s ow (set_img (<[x := m]> (img s)) FSSIZE s).
Proof.
  intros En O Hx. pose proof (ow_range _ _ _ O _ _ Hx). split; try done; cbn [img set_img].
  - apply own_write; [done|cbn; lia].
  - intros b Hb. apply fn_lookup_insert_ne. lia.
  - intros b k' j' Hk Hb. split; [|done]. apply fn_lookup_insert_ne. intros <-. rewrite Hx in Hb. by injection Hb.
Qed.

Lemma wp_next_block s Q : 0 ≤ freeblock s < FSSIZE → Q (freeblock s) (set_freeblock (freeblock s + 1) s) → wp next_block s Q.
Proof.
  intros Hf HQ. unfold FSSIZE in Hf. apply wp_bind, wp_gets, wp_bind, wp_modify, wp_ret. by rewrite u32_small by lia.
Qed.

Section append.
Context (k : Z).

(** The state while bytes are appended: the dinode is a local variable. *)
Record at_work (ow : owner) (s : mk) (din : memory) (bs : list Z) (nb : Z) : Prop := {
  aw_len : nsect s = FSSIZE;
  aw_own : own_ok (img s) ow (freeblock s);
  aw_file : file_at (img s) ow k (dv din) bs nb (NDIRECT <? nb);
}.

Lemma owned_id D ow fb a o : own_ok D ow fb → ow a = Some o → xint a = a ∧ a ≠ 0 ∧ 0 ≤ a < FSSIZE.
Proof.
  intros O Ha. pose proof (ow_range _ _ _ O _ _ Ha) as Hr. pose proof (ow_fb _ _ _ O). change nmeta with 47 in *. change FSSIZE with 2000 in *.
  rewrite xint_id by lia. lia.
Qed.

(** What [block_for] leaves: [nb'] blocks, the last of them [x]. *)
Definition prepared (ow : owner) (s : mk) (din : memory) (bs : list Z) (nb nb' fbn : Z) (Q : Z * memory → mk → Prop) : Prop :=
  ∀ ow' s' din', at_work ow' s' din' bs nb' → worked k ow s ow' s' → freeblock s' = freeblock s + cost nb' - cost nb →
    (∀ a, a < 12 → din' a = din a) → Q (baddr (img s') (dv din') fbn, din') s'.

Lemma wp_block_old ow s din bs nb fbn Q :
  at_work ow s din bs nb → 0 ≤ fbn < nb → prepared ow s din bs nb nb fbn Q → wp (block_for fbn din) s Q.
Proof.
  intros [a1 a2 a3] Hb HQ. pose proof (fa_nb _ _ _ _ _ _ _ a3) as Hnb. pose proof (fa_has _ _ _ _ _ _ _ a3 fbn Hb) as Hx.
  destruct (owned_id _ _ _ _ _ a2 Hx) as (E1 & E2 & E3). specialize (HQ ow s din (Build_at_work _ _ _ _ _ a1 a2 a3) (worked_refl _ _ _ a1 a2) ltac:(lia) (λ _ _, eq_refl)).
  unfold block_for. unfold baddr in *. destruct (Z.ltb_spec fbn NDIRECT) as [Hd|Hd].
  - change (addrs (dv din) fbn) with (din_addr din fbn) in *. apply wp_bind. rewrite E1, (proj2 (Z.eqb_neq _ _) E2). apply wp_ret. rewrite E1. by apply wp_ret.
  - pose proof (fa_ind _ _ _ _ _ _ _ a3) as Hi. rewrite (proj2 (Z.ltb_lt NDIRECT nb)) in Hi by lia. destruct (owned_id _ _ _ _ _ a2 Hi) as (I1 & I2 & I3).
    change (addrs (dv din) NDIRECT) with (din_addr din NDIRECT) in *. rewrite (proj2 (Z.eqb_neq _ _) I2) in *. apply wp_bind. rewrite I1, (proj2 (Z.eqb_neq _ _) I2). apply wp_ret.
    apply wp_bind. rewrite I1. apply wp_rsect; [done|done|]. apply wp_bind. rewrite (proj2 (Z.eqb_neq _ _) E2). apply wp_ret. rewrite E1. by apply wp_ret.
Qed.

Lemma wp_block_direct ow s din bs nb Q :
  at_work ow s din bs nb → nb < NDIRECT → freeblock s + cost (nb + 1) - cost nb ≤ FSSIZE →
  prepared ow s din bs nb (nb + 1) nb Q → wp (block_for nb din) s Q.
Proof.
  intros [a1 a2 a3] Hb Hf HQ. pose proof (fa_nb _ _ _ _ _ _ _ a3) as Hnb. pose proof (fa_none _ _ _ _ _ _ _ a3 nb ltac:(unfold MAXFILE, NINDIRECT; change (BSIZE / 4) with 256; lia)) as Hx.
  pose proof (ow_fb _ _ _ a2) as Hr. assert (cost (nb + 1) = cost nb + 1) as Ec by (unfold cost; rewrite !(proj2 (Z.ltb_ge _ _)) by lia; lia). rewrite Ec in *.
  unfold prepared in HQ. rewrite Ec in HQ. change nmeta with 47 in *. unfold baddr in Hx. unfold block_for. rewrite (proj2 (Z.ltb_lt _ _) Hb) in *. change (addrs (dv din) nb) with (din_addr din nb) in Hx.
  apply wp_bind. rewrite Hx. change (xint 0 =? 0) with true. apply wp_bind, wp_next_block; [lia|]. unfold FSSIZE in *. rewrite xint_id by lia. apply wp_ret.
  set (din' := set_din_addr nb (freeblock s) din). specialize (HQ (<[freeblock s := Some (k, nb)]> ow) (set_freeblock (freeblock s + 1) s) din').
  assert (∀ j, 0 ≤ j ≤ NDIRECT → addrs (dv din') j = if decide (j = nb) then freeblock s else addrs (dv din) j) as Ha by (intros j Hj; apply addrs_set; lia).
  assert (file_at (img s) (<[freeblock s := Some (k, nb)]> ow) k (dv din') bs (nb + 1) (NDIRECT <? nb)) as F by (apply (grow_direct _ _ _ (dv din)); [done|done|unfold FSSIZE; lia|done|done]).
  unfold baddr in HQ. rewrite (proj2 (Z.ltb_lt _ _) Hb) in HQ. change (addrs (dv din') nb) with (din_addr din' nb) in HQ. assert (din_addr din' nb = freeblock s) as E by (etransitivity; [by apply (Ha nb); lia|by rewrite decide_True]).
  rewrite E in *. rewrite xint_id by lia. apply wp_ret, HQ; [|by apply worked_alloc; [..|unfold FSSIZE; lia]|cbn; lia|intros a Ha'; apply set_addr_head; lia].
  split; [done|by apply own_alloc; [|unfold FSSIZE; lia]|]. by rewrite (proj2 (Z.ltb_ge NDIRECT nb)), <-(proj2 (Z.ltb_ge NDIRECT (nb + 1))) in F by lia.
Qed.

(** The part of [block_for] after the block of addresses is there. *)
Lemma wp_block_entry ow s din bs nb Q :
  nsect s = FSSIZE → own_ok (img s) ow (freeblock s) → file_at (img s) ow k (dv din) bs nb true → NDIRECT ≤ nb < MAXFILE → freeblock s < FSSIZE →
  (∀ ow' s', at_work ow' s' din bs (nb + 1) → worked k ow s ow' s' → freeblock s' = freeblock s + 1 → Q (baddr (img s') (dv din) nb, din) s') →
  wp (indirect ← rsect (xint (din_addr din NDIRECT));
      indirect ← (if entry indirect (nb - NDIRECT) =? 0 then
                    b ← next_block;
                    let indirect := set_entry (nb - NDIRECT) (xint b) indirect in
                    wsect (xint (din_addr din NDIRECT)) indirect ;;
                    mret indirect
                  else mret indirect);
      mret (xint (entry indirect (nb - NDIRECT)), din)) s Q.
Proof.
  intros a1 a2 a3 Hb Hf HQ. assert (ow (addrs (dv din) NDIRECT) = Some (k, -1)) as Hi by exact (fa_ind _ _ _ _ _ _ _ a3). destruct (owned_id _ _ _ _ _ a2 Hi) as (I1 & I2 & I3). pose proof (ow_fb _ _ _ a2) as Hr.
  pose proof (ow_range _ _ _ a2 _ _ Hi) as Hi2. pose proof (fa_none _ _ _ _ _ _ _ a3 nb ltac:(lia)) as Hx. unfold baddr in Hx. rewrite (proj2 (Z.ltb_ge nb NDIRECT)), (proj2 (Z.eqb_neq _ _) I2) in Hx by lia.
  pose proof (grow_entry _ _ _ _ _ _ _ _ a2 a3 Hf eq_refl Hb) as F. cbv zeta in F. set (a := addrs (dv din) NDIRECT) in *. change (din_addr din NDIRECT) with a. set (ow' := <[freeblock s := _]> ow) in F.
  pose proof (worked_alloc k ow s nb a1 a2 Hf) as W1. fold ow' in W1. rewrite I1. apply wp_bind, wp_rsect; [done|done|]. apply wp_bind. rewrite Hx, Z.eqb_refl. change nmeta with 47 in *.
  apply wp_bind, wp_next_block; [lia|]. rewrite xint_id by (unfold FSSIZE in *; lia). cbv zeta. apply wp_bind, wp_wsect; [done|done|]. apply wp_ret.
  set (s' := set_img _ _ _). assert (worked k ow' (set_freeblock (freeblock s + 1) s) ow' s') as W2.
  { apply (worked_write _ _ _ _ (-1)); [done|by apply W1|]. by eapply fresh_owner. }
  assert (at_work ow' s' din bs (nb + 1)) as A. { split; [done|by apply W2|]. rewrite (proj2 (Z.ltb_lt NDIRECT (nb + 1))) by lia. exact F. }
  specialize (HQ ow' s' A ltac:(by eapply worked_trans) eq_refl). unfold baddr in HQ. fold a in HQ. rewrite (proj2 (Z.ltb_ge nb NDIRECT)), (proj2 (Z.eqb_neq _ _) I2) in HQ by lia.
  cbn [img set_img s' set_freeblock] in HQ. rewrite fn_lookup_insert in HQ. rewrite entry_set, decide_True in * by (unfold FSSIZE in *; lia). rewrite xint_id by (unfold FSSIZE in *; lia). by apply wp_ret.
Qed.

Lemma wp_block_indirect ow s din bs nb Q :
  at_work ow s din bs nb → NDIRECT ≤ nb < MAXFILE → freeblock s + cost (nb + 1) - cost nb ≤ FSSIZE →
  prepared ow s din bs nb (nb + 1) nb Q → wp (block_for nb din) s Q.
Proof.
  intros [a1 a2 a3] Hb Hf HQ. pose proof (ow_fb _ _ _ a2) as Hr. unfold block_for. rewrite (proj2 (Z.ltb_ge nb NDIRECT)) by lia.
  destruct (Z.ltb_spec NDIRECT nb) as [Hlt|Hge].
  - assert (cost (nb + 1) = cost nb + 1) as Ec by (unfold cost; rewrite !(proj2 (Z.ltb_lt NDIRECT _)) by lia; lia). unfold prepared in HQ. rewrite Ec in *.
    assert (ow (addrs (dv din) NDIRECT) = Some (k, -1)) as Hi by exact (fa_ind _ _ _ _ _ _ _ a3). destruct (owned_id _ _ _ _ _ a2 Hi) as (I1 & I2 & I3). change (addrs (dv din) NDIRECT) with (din_addr din NDIRECT) in *.
    apply wp_bind. rewrite I1, (proj2 (Z.eqb_neq _ _) I2). apply wp_ret. apply (wp_block_entry ow s din bs nb); [done|done|done|done|lia|].
    intros ow' s' A W E. apply (HQ ow'); [done|done|lia|done].
  - assert (nb = NDIRECT) as Enb by lia. assert (cost (nb + 1) = cost nb + 2) as Ec by (by rewrite Enb). unfold prepared in HQ. rewrite Ec in *.
    destruct (fa_ind _ _ _ _ _ _ _ a3) as [Hi _]. change (addrs (dv din) NDIRECT) with (din_addr din NDIRECT) in Hi. apply wp_bind. rewrite Hi. change (xint 0 =? 0) with true. change nmeta with 47 in *.
    apply wp_bind, wp_next_block; [lia|]. rewrite xint_id by (unfold FSSIZE in *; lia). apply wp_ret. set (din' := set_din_addr NDIRECT (freeblock s) din).
    assert (∀ j, 0 ≤ j ≤ NDIRECT → addrs (dv din') j = if decide (j = NDIRECT) then freeblock s else addrs (dv din) j) as Ha by (intros j Hj; apply addrs_set; unfold FSSIZE in *; lia).
    pose proof (grow_indirect _ _ _ _ _ _ _ _ a2 a3 ltac:(lia) (dv din') eq_refl Enb Ha) as F. pose proof (worked_alloc k ow s (-1) a1 a2 ltac:(lia)) as W1.
    apply (wp_block_entry (<[freeblock s := Some (k, -1)]> ow) _ din' bs nb); [done|by apply W1|exact F|done|cbn; lia|].
    intros ow' s' A W E. apply (HQ ow'); [done|by eapply worked_trans|cbn in E; lia|intros a Ha'; by apply set_addr_head].
Qed.

(** The number of blocks for [n] bytes. *)
Definition blocks (n : Z) : Z := (n + (BSIZE - 1)) / BSIZE.

Lemma blocks_bounds n : n ≤ blocks n * BSIZE < n + BSIZE.
Proof. unfold blocks, BSIZE. dlia. Qed.
Lemma blocks_unique n b : n ≤ b * BSIZE < n + BSIZE → blocks n = b.
Proof. unfold blocks, BSIZE. intros. dlia. Qed.

Lemma cost_mono a b : a ≤ b → cost a ≤ cost b.
Proof. unfold cost. intros. destruct (Z.ltb_spec NDIRECT a), (Z.ltb_spec NDIRECT b); lia. Qed.

(** The block of the next byte: an old one or a new one. *)
Lemma wp_block_for ow s din bs n Q :
  let nb := blocks (size bs) in let fbn := size bs / BSIZE in
  at_work ow s din bs nb → fbn < MAXFILE → size bs < n → freeblock s + cost (blocks n) - cost nb ≤ FSSIZE →
  prepared ow s din bs nb (fbn + 1) fbn Q → wp (block_for fbn din) s Q.
Proof.
  intros nb fbn A Hm Hn Hf HQ. destruct (block_bounds (size bs)) as (B1 & _ & _). fold fbn in B1. pose proof (blocks_bounds (size bs)) as B2. fold nb in B2. pose proof (blocks_bounds n) as B3. pose proof bsize_pos.
  assert (0 ≤ fbn) by (apply Z.div_pos; lia). assert (fbn = nb ∨ fbn + 1 = nb) as [E|E] by nia.
  - assert (cost (fbn + 1) ≤ cost (blocks n)) by (apply cost_mono; nia). rewrite E in *. destruct (decide (nb < NDIRECT)).
    + apply (wp_block_direct ow s din bs); [done|done|lia|done].
    + apply (wp_block_indirect ow s din bs); [done|lia|lia|done].
  - rewrite E in HQ. apply (wp_block_old ow s din bs nb); [done|lia|done].
Qed.

Lemma wp_iappend_loop fuel ow s din bs p Q :
  at_work ow s din bs (blocks (size bs)) → (length p < fuel)%nat → size (bs ++ p) ≤ MAXFILE * BSIZE →
  freeblock s + cost (blocks (size (bs ++ p))) - cost (blocks (size bs)) ≤ FSSIZE →
  (∀ ow' s' din', at_work ow' s' din' (bs ++ p) (blocks (size (bs ++ p))) → worked k ow s ow' s' →
     freeblock s' = freeblock s + cost (blocks (size (bs ++ p))) - cost (blocks (size bs)) →
     (∀ a, a < 12 → din' a = din a) → Q (size (bs ++ p), din') s') →
  wp (iappend_loop fuel p (size p) (size bs) din) s Q.
Proof.
  revert ow s din bs p. induction fuel as [|fuel IH]; intros ow s din bs p A Hfu Hm Hf HQ; [lia|]. cbn [iappend_loop].
  destruct p as [|c p0] eqn:Ep.
  { rewrite app_nil_r in *. apply wp_ret, (HQ ow); [done|by apply worked_refl; apply A|lia|done]. }
  rewrite <-Ep in *. assert (0 < size p) as Hp by (rewrite Ep; simpl; lia). clear c p0 Ep. rewrite (proj2 (Z.ltb_lt 0 _)) by lia. rewrite length_app in Hm. pose proof bsize_pos.
  destruct (block_bounds (size bs)) as (B1 & _ & _). set (fbn := size bs / BSIZE) in *. rewrite (proj2 (Z.ltb_lt fbn _)) by nia. cbn [negb].
  apply wp_bind, (wp_block_for ow s din bs (size (bs ++ p))); [done|fold fbn; nia|rewrite length_app; lia|done|]. fold fbn. intros ow1 s1 din1 A1 W1 E1 Hd1. cbv zeta.
  set (n1 := Z.min (size p) ((fbn + 1) * BSIZE - size bs)). set (x := baddr (img s1) (dv din1) fbn). pose proof A1 as [l1 o1 f1].
  assert (ow1 x = Some (k, fbn)) as Hx by (apply (fa_has _ _ _ _ _ _ _ f1); split; [apply Z.div_pos|]; lia). destruct (owned_id _ _ _ _ _ o1 Hx) as (X1 & X2 & X3).
  apply wp_bind, wp_rsect; [done|done|]. apply wp_bind, wp_wsect; [done|done|]. set (ds := take (Z.to_nat n1) p). assert (size ds = n1) as Hds by (unfold ds; rewrite length_take; lia).
  pose proof (file_write _ _ _ _ _ ds _ _ f1) as F2. cbv zeta in F2. fold fbn in F2. fold x in F2. specialize (F2 ltac:(lia) ltac:(lia)). assert (bs ++ p = (bs ++ ds) ++ drop (Z.to_nat n1) p) as Eb by (rewrite <-app_assoc; unfold ds; by rewrite take_drop).
  assert (size (bs ++ ds) = size bs + n1) as Es by (rewrite length_app; lia). assert (blocks (size (bs ++ ds)) = fbn + 1) as Ebl by (apply blocks_unique; rewrite Es; lia).
  set (s2 := set_img _ _ _). assert (worked k ow1 s1 ow1 s2) as W2 by (by apply (worked_write _ _ _ _ fbn)).
  rewrite u32_small by (change (MAXFILE * BSIZE) with 274432 in *; lia). rewrite <-Es. replace (size p - n1) with (size (drop (Z.to_nat n1) p)) by (rewrite length_drop; lia).
  rewrite Eb in *. apply (IH ow1); [split; [done|by apply W2|rewrite Ebl; exact F2]|rewrite length_drop; lia|rewrite <-Eb, length_app; lia|cbn [freeblock s2 set_img]; rewrite Ebl; lia|].
  intros ow3 s3 din3 A3 W3 E3 Hd3. apply (HQ ow3); [done|by do 2 (eapply worked_trans; [done|])|cbn in E3; rewrite Ebl in E3; lia|]. intros a Ha. by rewrite Hd3, Hd1.
Qed.
End append.

(** ** The image *)

(** The super block. *)
Definition sb0 : superblock := mkSb FSMAGIC FSSIZE (FSSIZE - nmeta) NINODES nlog 2 (2 + nlog) (2 + nlog + ninodeblocks).

(** The dinode of inode [ino]. *)
Definition dnode (D : Z → memory) (ino : Z) : memory := dinode_in (D (IBLOCK ino sb0)) (dinode_off ino).

Lemma iblock_at ino : 0 ≤ ino < NINODES → IBLOCK ino sb0 = ino / 16 + 33 ∧ 33 ≤ IBLOCK ino sb0 < nmeta.
Proof.
  unfold NINODES. intros Hi. change (IBLOCK ino sb0) with (u32 (ino / 16 + 33)). change nmeta with 47.
  assert (0 ≤ ino / 16 < 13) by dlia. rewrite u32_small by lia. lia.
Qed.

Lemma dnode_put D k din ino i :
  0 ≤ k < NINODES → 0 ≤ ino < NINODES → 0 ≤ i < DINODE_SIZE →
  dnode (<[IBLOCK k sb0 := put_dinode din (dinode_off k) (D (IBLOCK k sb0))]> D) ino i = if decide (ino = k) then din i else dnode D ino i.
Proof.
  intros Hk Hn Hi. destruct (iblock_at k Hk) as [Ek _]. destruct (iblock_at ino Hn) as [En _]. unfold dnode, dinode_in, dinode_off, put_dinode. unfold NINODES, IPB, BSIZE, DINODE_SIZE in *. change (1024 / 64) with 16 in *.
  case_decide as E.
  - subst. rewrite fn_lookup_insert. mem_cases; [f_equal; lia|lia|lia].
  - rewrite Ek, En. destruct (decide (ino / 16 = k / 16)) as [Eb|Eb]; [|by rewrite fn_lookup_insert_ne by lia]. rewrite Eb, fn_lookup_insert. mem_cases; [|done|done]. exfalso. apply E. dlia.
Qed.

(** What is read of a dinode depends on its bytes. *)
Lemma dv_ext m m' : (∀ i, 0 ≤ i < DINODE_SIZE → m' i = m i) →
  itype (dv m') = itype (dv m) ∧ nlink (dv m') = nlink (dv m) ∧ isize (dv m') = isize (dv m) ∧ ∀ j, 0 ≤ j ≤ NDIRECT → addrs (dv m') j = addrs (dv m) j.
Proof.
  intros Hm. unfold DINODE_SIZE in Hm. unfold dv, load16, load32. cbn [decode_inode itype nlink isize addrs].
  split_and!; [f_equal|f_equal| |intros j Hj; change NDIRECT with 12 in Hj]; apply load_le_ext; intros x Hx; apply Hm; simpl in Hx; lia.
Qed.

(** Inode [ino] has this type, one link, and the contents [bs]. *)
Record stored (D : Z → memory) (ow : owner) (ino ty : Z) (bs : list Z) : Prop := {
  st_type : itype (dv (dnode D ino)) = ty;
  st_nlink : nlink (dv (dnode D ino)) = 1;
  st_size : isize (dv (dnode D ino)) = size bs;
  st_file : file_at D ow ino (dv (dnode D ino)) bs (blocks (size bs)) (NDIRECT <? blocks (size bs));
}.

Lemma stored_frame D D' ow ow' ino ty bs :
  (∀ i, 0 ≤ i < DINODE_SIZE → dnode D' ino i = dnode D ino i) → (∀ b j, ow b = Some (ino, j) → D' b = D b ∧ ow' b = Some (ino, j)) →
  stored D ow ino ty bs → stored D' ow' ino ty bs.
Proof.
  intros Hd Hb [s1 s2 s3 s4]. destruct (dv_ext _ _ Hd) as (E1 & E2 & E3 & E4). split; [congruence..|]. by apply (file_frame D D' ow ow' ino (dv (dnode D ino))).
Qed.

(** The type and the bytes of each inode from 1 on. *)
Notation contents := (list (Z * list Z)).
Definition total (T : contents) : Z := foldr (λ x n, cost (blocks (size x.2)) + n) 0 T.

Record image (T : contents) (ow : owner) (s : mk) : Prop := {
  im_len : nsect s = FSSIZE;
  im_sb : msb s = sb0;
  im_ino : freeinode s = 1 + Z.of_nat (length T);
  im_few : Z.of_nat (length T) < NINODES;
  im_own : own_ok (img s) ow (freeblock s);
  im_used : freeblock s = nmeta + total T;
  im_super : img s 1 = encode_sb sb0 zeroes;
  im_file k ty bs : T !! k = Some (ty, bs) → stored (img s) ow (Z.of_nat k + 1) ty bs;
  im_rest ino i : Z.of_nat (length T) < ino < NINODES → 0 ≤ i < DINODE_SIZE → dnode (img s) ino i = 0;
}.

Lemma cost_pos n : 0 ≤ n → 0 ≤ cost (blocks n).
Proof. intros Hn. pose proof (blocks_bounds n). pose proof bsize_pos. unfold cost. case_match; nia. Qed.
Lemma total_app T T' : total (T ++ T') = total T + total T'.
Proof. induction T as [|x T IH]; simpl; [lia|]. rewrite IH. lia. Qed.
Lemma total_insert T k x y : T !! k = Some x → total (<[k := y]> T) = total T + cost (blocks (size y.2)) - cost (blocks (size x.2)).
Proof.
  revert k. induction T as [|z T IH]; intros k Hk; [done|]. destruct k as [|k]; simpl in *; [injection Hk as ->; lia|]. rewrite (IH _ Hk). lia.
Qed.

Lemma wp_winode s ino din Q :
  nsect s = FSSIZE → msb s = sb0 → 0 ≤ ino < NINODES →
  Q tt (set_img (<[IBLOCK ino sb0 := put_dinode din (dinode_off ino) (img s (IBLOCK ino sb0))]> (img s)) FSSIZE s) → wp (winode ino din) s Q.
Proof.
  intros En Es Hi HQ. destruct (iblock_at ino Hi) as [_ Hb]. change nmeta with 47 in Hb. apply wp_bind, wp_gets. rewrite Es. 
  apply wp_bind, wp_rsect; [done|unfold FSSIZE; lia|]. apply wp_wsect; [done|unfold FSSIZE; lia|done].
Qed.
Lemma wp_rinode s ino Q : nsect s = FSSIZE → msb s = sb0 → 0 ≤ ino < NINODES → Q (dnode (img s) ino) s → wp (rinode ino) s Q.
Proof.
  intros En Es Hi HQ. destruct (iblock_at ino Hi) as [_ Hb]. change nmeta with 47 in Hb. apply wp_bind, wp_gets. rewrite Es.
  apply wp_bind, wp_rsect; [done|unfold FSSIZE; lia|]. by apply wp_ret.
Qed.

(** Inode [k] of the list gets a new dinode, after work on its file. *)
Lemma image_put T T' ow ow' s s1 k din ty bs :
  let ino := Z.of_nat k + 1 in
  image T ow s → nsect s1 = FSSIZE → msb s1 = sb0 → own_ok (img s1) ow' (freeblock s1) → (∀ b, b < nmeta → img s1 b = img s b) →
  (∀ b k' j, k' ≠ ino → ow b = Some (k', j) → img s1 b = img s b ∧ ow' b = Some (k', j)) →
  freeinode s1 = 1 + Z.of_nat (length T') → Z.of_nat (length T') < NINODES → freeblock s1 = nmeta + total T' →
  (length T ≤ length T')%nat → (∀ k', k' ≠ k → T' !! k' = T !! k') → T' !! k = Some (ty, bs) →
  itype (dv din) = ty → nlink (dv din) = 1 → isize (dv din) = size bs →
  file_at (img s1) ow' ino (dv din) bs (blocks (size bs)) (NDIRECT <? blocks (size bs)) →
  image T' ow' (set_img (<[IBLOCK ino sb0 := put_dinode din (dinode_off ino) (img s1 (IBLOCK ino sb0))]> (img s1)) FSSIZE s1).
Proof.
  intros ino [i1 i2 i3 i4 i5 i6 i7 i8 i9] En Es O Hmeta Hoth Efi Hfew Efb Hle HT HTk E1 E2 E3 F. set (D := img s1) in *. set (D' := <[_ := _]> D).
  pose proof (lookup_lt_Some _ _ _ HTk) as Hk. assert (0 ≤ ino < NINODES) as Hino by lia. destruct (iblock_at ino Hino) as [_ Hib].
  assert (∀ n i, 0 ≤ n < NINODES → 0 ≤ i < DINODE_SIZE → dnode D' n i = if decide (n = ino) then din i else dnode D n i) as Hdn by (intros; by apply dnode_put).
  assert (∀ n i, 0 ≤ n < NINODES → dnode D n i = dnode (img s) n i) as Hdm.
  { intros n i Hn. unfold dnode, dinode_in. destruct (iblock_at n Hn) as [_ Hb]. by rewrite Hmeta by lia. }
  assert (∀ b o, ow' b = Some o → D' b = D b) as HD.
  { intros b o Hb. pose proof (ow_range _ _ _ O _ _ Hb). apply fn_lookup_insert_ne. lia. }
  assert (own_ok D' ow' (freeblock s1)) as O' by (apply own_write; [done|pose proof (ow_fb _ _ _ O); lia]).
  split; cbn [set_img img nsect msb freeinode freeblock]; try done.
  - unfold D'. rewrite fn_lookup_insert_ne by lia. by rewrite Hmeta.
  - intros k' ty' bs' Hk'. destruct (decide (k' = k)) as [->|Hne].
    + rewrite HTk in Hk'. injection Hk' as <- <-. fold ino.
      destruct (dv_ext din (dnode D' ino)) as (d1 & d2 & d3 & d4); [intros i Hi; by rewrite Hdn, decide_True by done|]. split; [congruence..|].
      apply (file_frame D D' ow' ow' ino (dv din)); [|done|done]. intros b j Hb. split; [by eapply HD|done].
    + pose proof (lookup_lt_Some _ _ _ Hk'). rewrite HT in Hk' by done. apply (stored_frame (img s) D' ow ow'); [| |by apply i8].
      * intros i Hi. rewrite Hdn, decide_False by lia. apply Hdm. lia.
      * intros b j Hb. destruct (Hoth b (Z.of_nat k' + 1) j ltac:(lia) Hb) as [<- Hb']. split; [by eapply HD|done].
  - intros n i Hn Hi. rewrite Hdn, decide_False by lia. rewrite Hdm by lia. apply i9; [lia|done].
Qed.

Lemma wp_iappend T ow s k ty bs p Q :
  image T ow s → T !! k = Some (ty, bs) → size (bs ++ p) ≤ MAXFILE * BSIZE → nmeta + total (<[k := (ty, bs ++ p)]> T) ≤ FSSIZE →
  (∀ ow' s', image (<[k := (ty, bs ++ p)]> T) ow' s' → Q tt s') →
  wp (iappend (Z.of_nat k + 1) p (size p)) s Q.
Proof.
  intros I Hk Hm Hf HQ. pose proof I as [i1 i2 i3 i4 i5 i6 i7 i8 i9]. pose proof (lookup_lt_Some _ _ _ Hk) as Hlt. set (ino := Z.of_nat k + 1) in *.
  rewrite (total_insert _ _ _ _ Hk) in Hf. cbn [snd] in Hf. destruct (i8 _ _ _ Hk) as [s1 s2 s3 s4]. fold ino in s1, s2, s3, s4.
  apply wp_bind, wp_rinode; [done|done|lia|]. set (din := dnode (img s) ino) in *. change (load32 din D_SIZE) with (isize (dv din)). rewrite s3.
  rewrite length_app in Hm. change (MAXFILE * BSIZE) with 274432 in Hm. cbv zeta. rewrite xint_id by lia.
  apply wp_bind, (wp_iappend_loop ino _ ow); [split; try done|lia|rewrite length_app; change (MAXFILE * BSIZE) with 274432; lia|lia|].
  intros ow' s' din' [a1 a2 a3] W E Hd. rewrite xint_id by (rewrite length_app; lia). set (dn := store32 din' D_SIZE _).
  assert (∀ n x, x + Z.of_nat n ≤ 8 → load_le n dn x = load_le n din x) as Hh.
  { intros n x Hx. apply load_le_ext. intros a Ha. unfold dn, store32, store_le, D_SIZE. mem_cases; [lia|apply Hd; lia..]. }
  apply wp_winode; [done|by rewrite (wk_sb _ _ _ _ _ W)|lia|]. apply (HQ ow'). apply (image_put T _ ow ow' s s' k dn ty (bs ++ p)); try done.
  - by rewrite (wk_sb _ _ _ _ _ W).
  - apply W.
  - apply W.
  - by rewrite (wk_ino _ _ _ _ _ W), length_insert.
  - by rewrite length_insert.
  - rewrite (total_insert _ _ _ _ Hk). cbn [snd]. lia.
  - by rewrite length_insert.
  - intros k' Hne. by rewrite list_lookup_insert_ne.
  - rewrite list_lookup_insert_eq; done.
  - rewrite <-s1. unfold dv, load16. cbn [decode_inode itype]. f_equal. by apply Hh.
  - rewrite <-s2. unfold dv, load16. cbn [decode_inode nlink]. f_equal. by apply Hh.
  - unfold dv. cbn [decode_inode isize]. apply load_store_same. rewrite length_app. simpl. lia.
  - eapply file_frame; [|intros j Hj|exact a3]; [done|]. unfold dv, load32. cbn [decode_inode addrs]. apply load_store_other. unfold D_SIZE. simpl. lia.
Qed.

Lemma wp_ialloc T ow s ty Q :
  image T ow s → Z.of_nat (length T) + 1 < NINODES → 0 ≤ ty < 2 ^ 15 →
  (∀ s', image (T ++ [(ty, [])]) ow s' → Q (Z.of_nat (length T) + 1) s') → wp (ialloc ty) s Q.
Proof.
  intros I Hn Hty HQ. pose proof I as [i1 i2 i3 i4 i5 i6 i7 i8 i9]. unfold ialloc. apply wp_bind, wp_gets. rewrite i3. apply wp_bind, wp_modify. unfold NINODES in Hn. rewrite u32_small by lia. cbv zeta.
  rewrite !xshort_id, xint_id by lia. set (din := store32 _ _ _). apply wp_bind. replace (1 + Z.of_nat (length T)) with (Z.of_nat (length T) + 1) by lia. apply wp_winode; [done|done|unfold NINODES; lia|]. apply wp_ret, HQ.
  assert (∀ j, 0 ≤ j → addrs (dv din) j = 0) as Ha.
  { intros j Hj. unfold dv. cbn [decode_inode addrs]. unfold load32. unfold din, store32, store16, D_SIZE, D_NLINK. rewrite !load_store_other by (simpl; lia). done. }
  apply (image_put T _ ow ow s (set_freeinode (Z.of_nat (length T) + 1 + 1) s) (length T) din ty []); try done.
  - cbn. rewrite length_app. simpl. lia.
  - rewrite length_app. unfold NINODES. simpl. lia.
  - cbn [set_freeinode freeblock]. rewrite total_app, i6. change (total [(ty, [])]) with 0. lia.
  - rewrite length_app. lia.
  - intros k' Hne. destruct (decide (k' < length T)%nat); [by apply lookup_app_l|]. rewrite !lookup_ge_None_2; [done|lia|rewrite length_app; simpl; lia].
  - by apply list_lookup_middle.
  - unfold dv. cbn [decode_inode itype]. unfold load16. unfold din, store32, store16, D_SIZE, D_NLINK. rewrite !load_store_other by (simpl; lia). rewrite load_store_same by (simpl; lia). apply s16_small. lia.
  - split; try done.
    + intros bn Hb. change (blocks (size [])) with 0 in Hb. lia.
    + intros bn Hb. change (blocks (size [])) with 0 in Hb. unfold baddr. rewrite !Ha by (done || lia). by case_match.
    + intros x Hx. change (blocks (size [])) with 0 in Hx. lia.
Qed.

(** ** The whole program *)

(** What the calls of read on a file return, up to its end. *)
Fixpoint read_all (rs : list (list Z)) : list Z :=
  match rs with
  | [] => []
  | buf :: rs' => match buf with [] => [] | _ => buf ++ read_all rs' end
  end.
Definition fdata (a : input) : list Z := match reads a with Some rs => read_all rs | None => [] end.

(** The name without its directory, and without the underscore. *)
Definition base_name (p : list Z) : list Z := if decide (take 5 p = user_) then drop 5 p else p.
Definition short (p : list Z) : list Z := if decide (head (base_name p) = Some underscore) then tail (base_name p) else base_name p.

Record input_ok (a : input) : Prop := {
  in_open : is_Some (reads a);
  in_slash : slash ∉ base_name (path a);
  in_name : size (short (path a)) ≤ DIRSIZ;
  in_size : size (fdata a) ≤ MAXFILE * BSIZE;
}.

(** The entries of the root directory, and all that is to be stored. *)
Definition dirents (names : list (list Z)) : list Z :=
  mk_dirent ROOTINO (name_field [dot]) ++ mk_dirent ROOTINO (name_field [dot; dot]) ++
  concat (imap (λ i n, mk_dirent (Z.of_nat i + 2) (name_field n)) names).
Definition plan (l : list input) : contents :=
  (T_DIR, dirents (short ∘ path <$> l)) :: ((λ a, (T_FILE, fdata a)) <$> l).

Lemma dirents_snoc ns n : dirents (ns ++ [n]) = dirents ns ++ mk_dirent (Z.of_nat (length ns) + 2) (name_field n).
Proof.
  unfold dirents. rewrite imap_app, concat_app, <-!app_assoc. do 3 f_equal. cbn -[mk_dirent]. by rewrite app_nil_r, Nat.add_0_r.
Qed.
Lemma size_mk_dirent i n : size (mk_dirent i (name_field n)) = DIRENT_SIZE.
Proof. unfold mk_dirent. cbn [length]. by rewrite length_name_field. Qed.
Lemma size_dirents ns : size (dirents ns) = DIRENT_SIZE * (size ns + 2).
Proof.
  induction ns as [|n ns IH] using rev_ind; [done|]. rewrite dirents_snoc, length_app, Nat2Z.inj_add, IH, size_mk_dirent, length_app. simpl. unfold DIRENT_SIZE. lia.
Qed.

Lemma cost_le a b : a ≤ b → cost (blocks a) ≤ cost (blocks b).
Proof. intros Hab. apply cost_mono. unfold blocks. apply Z.div_le_mono; [done|lia]. Qed.
Lemma total_mono T k x y z : T !! k = Some x → size y.2 ≤ size z.2 → total (<[k := y]> T) ≤ total (<[k := z]> T).
Proof. intros Hk Hs. rewrite !(total_insert _ _ _ _ Hk). pose proof (cost_le _ _ Hs). lia. Qed.

Lemma wp_append_reads rs T ow s k ty bs Q :
  image T ow s → T !! k = Some (ty, bs) → size (bs ++ read_all rs) ≤ MAXFILE * BSIZE → nmeta + total (<[k := (ty, bs ++ read_all rs)]> T) ≤ FSSIZE →
  (∀ ow' s', image (<[k := (ty, bs ++ read_all rs)]> T) ow' s' → Q tt s') →
  wp (append_reads (Z.of_nat k + 1) rs) s Q.
Proof.
  revert T ow s bs. induction rs as [|buf rs IH]; intros T ow s bs I Hk Hm Hf HQ; cbn [append_reads read_all] in *.
  { rewrite app_nil_r, list_insert_id in HQ by done. by apply wp_ret, (HQ ow). }
  destruct buf as [|c buf0] eqn:Eb; [rewrite app_nil_r, list_insert_id in HQ by done; by apply wp_ret, (HQ ow)|]. rewrite <-Eb in *.
  rewrite (proj2 (Z.ltb_lt 0 _)) by (rewrite Eb; simpl; lia). cbn [negb]. rewrite app_assoc in *. pose proof (lookup_lt_Some _ _ _ Hk).
  assert (size (bs ++ buf) ≤ size ((bs ++ buf) ++ read_all rs)) as Hs by (rewrite (length_app (bs ++ buf)); lia).
  apply wp_bind, (wp_iappend T ow _ _ ty bs); [done|done|lia|pose proof (total_mono T k _ (ty, bs ++ buf) (ty, (bs ++ buf) ++ read_all rs) Hk Hs); lia|].
  intros ow' s' I'. apply (IH (<[k := (ty, bs ++ buf)]> T) ow' s' (bs ++ buf)); [done|by rewrite list_lookup_insert_eq|done|by rewrite list_insert_insert_eq|]. rewrite list_insert_insert_eq. done.
Qed.

Lemma plan_snoc l a : plan (l ++ [a]) = <[length (plan l) := (T_FILE, fdata a)]> (<[0%nat := (T_DIR, dirents (short ∘ path <$> (l ++ [a])))]> (plan l ++ [(T_FILE, [])])).
Proof.
  unfold plan. rewrite !fmap_app. simpl. f_equal. rewrite length_fmap. rewrite <-(length_fmap (λ a, (T_FILE, fdata a)) l). induction (_ <$> l) as [|x t IH]; simpl; [done|]. by f_equal.
Qed.
Lemma total_plan_mono l l' : total (plan l) ≤ total (plan (l ++ l')).
Proof.
  unfold plan. rewrite !fmap_app. change (total (?x :: ?t)) with (cost (blocks (size x.2)) + total t). rewrite total_app. cbn [snd].
  assert (cost (blocks (size (dirents (short ∘ path <$> l)))) ≤ cost (blocks (size (dirents ((short ∘ path <$> l) ++ (short ∘ path <$> l')))))) as Hd.
  { apply cost_le. rewrite !size_dirents, length_app. unfold DIRENT_SIZE. lia. }
  assert (0 ≤ total ((λ a, (T_FILE, fdata a)) <$> l')); [clear Hd|lia].
  induction l' as [|a l' IH]; [done|]. rewrite fmap_cons. change (total (?x :: ?t)) with (cost (blocks (size x.2)) + total t). cbn [snd]. pose proof (cost_pos (size (fdata a)) ltac:(lia)). lia.
Qed.

Lemma wp_add_file l a ow s Q :
  image (plan l) ow s → input_ok a → size l + 2 < NINODES → nmeta + total (plan (l ++ [a])) ≤ FSSIZE →
  (∀ ow' s', image (plan (l ++ [a])) ow' s' → Q tt s') → wp (add_file ROOTINO a) s Q.
Proof.
  intros I [[rs Er] a2 a3 a4] Hn Hf HQ. unfold add_file. fold (base_name (path a)). rewrite decide_False by done. rewrite Er. fold (short (path a)). rewrite (proj2 (Z.leb_le _ _) a3). cbn [negb].
  assert (length (plan l) = S (length l)) as El by (unfold plan; simpl; by rewrite length_fmap). unfold fdata in a4. rewrite Er in a4. rewrite plan_snoc in Hf, HQ. unfold fdata in Hf, HQ. rewrite Er in Hf, HQ.
  apply wp_bind, (wp_ialloc (plan l) ow); [done|rewrite El; lia|done|]. intros s1 I1. set (T1 := plan l ++ [(T_FILE, [])]) in *. rewrite El in *. set (d1 := dirents (short ∘ path <$> l)). set (k := S (length l)) in *.
  assert (dirents (short ∘ path <$> (l ++ [a])) = d1 ++ mk_dirent (Z.of_nat k + 1) (name_field (short (path a)))) as Ed.
  { replace (Z.of_nat k + 1) with (Z.of_nat (length l) + 2) by (unfold k; lia). rewrite fmap_app. cbn [fmap list_fmap]. by rewrite dirents_snoc, length_fmap. }
  rewrite Ed in Hf, HQ. unfold NINODES in Hn. rewrite xshort_id by (unfold k; lia). set (de := mk_dirent _ _) in *. assert (T1 !! 0%nat = Some (T_DIR, d1)) as H0 by done. assert (T1 !! k = Some (T_FILE, [])) as H1 by (unfold T1; rewrite lookup_app_r by lia; by rewrite El, Nat.sub_diag).
  set (T2 := <[0%nat := _]> T1) in *. assert (T2 !! k = Some (T_FILE, [])) as H2 by (unfold T2; by rewrite list_lookup_insert_ne). pose proof (total_mono T2 k _ (T_FILE, []) (T_FILE, read_all rs) H2 ltac:(simpl; lia)) as Hm. rewrite list_insert_id in Hm by done.
  rewrite <-(size_mk_dirent (Z.of_nat k + 1) (short (path a))). fold de. change ROOTINO with (Z.of_nat 0 + 1).
  apply wp_bind, (wp_iappend T1 ow s1 0%nat T_DIR d1); [done|done| |fold T2; lia|].
  { rewrite length_app. unfold d1. pose proof (size_dirents (short ∘ path <$> l)) as Hs. rewrite length_fmap in Hs. pose proof (size_mk_dirent (Z.of_nat k + 1) (short (path a))) as Hs2. fold de in Hs2. unfold DIRENT_SIZE in *. change (MAXFILE * BSIZE) with 274432. lia. }
  intros ow2 s2 I2. apply (wp_append_reads rs T2 ow2 s2 k T_FILE []); done.
Qed.

Lemma wp_add_files l2 : ∀ l ow s Q,
  image (plan l) ow s → Forall input_ok l2 → size (l ++ l2) + 2 ≤ NINODES → nmeta + total (plan (l ++ l2)) ≤ FSSIZE →
  (∀ ow' s', image (plan (l ++ l2)) ow' s' → Q tt s') → wp (add_files ROOTINO l2) s Q.
Proof.
  induction l2 as [|a l2 IH]; intros l ow s Q I Hok Hn Hf HQ; cbn [add_files].
  { rewrite app_nil_r in *. by apply wp_ret, (HQ ow). }
  apply Forall_cons in Hok as [Ha Hok]. assert (l ++ a :: l2 = (l ++ [a]) ++ l2) as E by (by rewrite <-app_assoc). rewrite E in *. pose proof (total_plan_mono (l ++ [a]) l2).
  rewrite !length_app in Hn. simpl in Hn. apply wp_bind, (wp_add_file l a ow); [done|done|lia|lia|]. intros ow' s' I'. apply (IH (l ++ [a]) ow'); [done|done|rewrite !length_app; simpl; lia|done|done].
Qed.

(** The image is complete: [fb] blocks are in use. *)
Record mounted (l : list input) (D : Z → memory) (ow : owner) (fb : Z) : Prop := {
  mo_sb : decode_sb (D 1) = sb0;
  mo_map b : 0 ≤ b < FSSIZE → is_free D sb0 b = (fb <=? b);
  mo_fb : nmeta ≤ fb ≤ FSSIZE;
  mo_owner b o : ow b = Some o → nmeta ≤ b < fb;
  mo_type : itype (dv (dnode D ROOTINO)) = T_DIR;
  mo_nlink : nlink (dv (dnode D ROOTINO)) = 1;
  mo_size : isize (dv (dnode D ROOTINO)) = (DIRENT_SIZE * (size l + 2) / BSIZE + 1) * BSIZE;
  mo_root : let ds := dirents (short ∘ path <$> l) in
    file_at D ow ROOTINO (dv (dnode D ROOTINO)) ds (blocks (size ds)) (NDIRECT <? blocks (size ds));
  mo_file k a : l !! k = Some a → stored D ow (Z.of_nat k + 2) T_FILE (fdata a);
  mo_rest ino : size l + 1 < ino < NINODES → itype (dv (dnode D ino)) = 0;
}.

Lemma bit_mark_loop n : ∀ i m j, 0 ≤ i → 0 ≤ j →
  bit_free (mark_loop n i m) j = if decide (i ≤ j < i + Z.of_nat n) then false else bit_free m j.
Proof.
  induction n as [|n IH]; intros i m j Hi Hj; cbn [mark_loop]; [by rewrite decide_False by lia|]. rewrite IH by lia. fold (bit_mask i). fold (mark i m). rewrite bit_mark.
  repeat case_decide; try lia; done.
Qed.

Lemma bblock_map b : 0 ≤ b < FSSIZE → BBLOCK b sb0 = 46 ∧ b mod BPB = b.
Proof.
  unfold FSSIZE. intros Hb. change (BBLOCK b sb0) with (u32 (b / 8192 + 46)). change BPB with 8192. rewrite Z.div_small, Z.mod_small by lia. done.
Qed.

Lemma finished l ow s :
  image (plan l) ow s →
  let din := dnode (img s) ROOTINO in
  let off := (DIRENT_SIZE * (size l + 2) / BSIZE + 1) * BSIZE in
  let D1 := <[IBLOCK ROOTINO sb0 := put_dinode (store32 din D_SIZE off) (dinode_off ROOTINO) (img s (IBLOCK ROOTINO sb0))]> (img s) in
  mounted l (<[46 := mark_loop (Z.to_nat (freeblock s)) 0 zeroes]> D1) ow (freeblock s).
Proof.
  intros I din off D1. pose proof I as [i1 i2 i3 i4 i5 i6 i7 i8 i9]. set (D := <[46 := _]> D1 : Z → memory). pose proof (ow_fb _ _ _ i5) as Hf. unfold plan in i3, i4, i9. cbn [length] in i3, i4, i9. rewrite length_fmap in i3, i4, i9.
  assert (∀ n i, 0 ≤ n < NINODES → 0 ≤ i < DINODE_SIZE → dnode D n i = if decide (n = ROOTINO) then store32 din D_SIZE off i else dnode (img s) n i) as Hd.
  { intros n i Hn Hi. rewrite <-(dnode_put (img s)) by (done || unfold NINODES, ROOTINO; lia). unfold dnode, dinode_in. unfold NINODES in Hn. destruct (iblock_at n) as [Eb _]; [unfold NINODES; lia|]. rewrite Eb. unfold D. rewrite fn_lookup_insert_ne by dlia. done. }
  assert (∀ b o, ow b = Some o → D b = img s b ∧ ow b = Some o) as HD.
  { intros b o Hb. pose proof (ow_range _ _ _ i5 _ _ Hb) as Hr. change nmeta with 47 in Hr. unfold D, D1. change (IBLOCK ROOTINO sb0) with 33. by rewrite !fn_lookup_insert_ne by lia. }
  destruct (i8 0%nat T_DIR _ eq_refl) as [r1 r2 r3 r4]. change (Z.of_nat 0 + 1) with ROOTINO in *. fold din in r1, r2, r3, r4.
  destruct (dv_ext (store32 din D_SIZE off) (dnode D ROOTINO)) as (d1 & d2 & d3 & d4); [intros i Hi; rewrite Hd by done; by rewrite decide_True|].
  unfold dv at 2 in d1. unfold dv at 2 in d2. unfold dv at 2 in d3. cbn [decode_inode itype nlink isize] in d1, d2, d3. unfold load16, load32, store32, D_SIZE in d1, d2, d3. rewrite load_store_other in d1, d2 by (simpl; lia).
  split.
  - change (D 1) with (img s 1). by rewrite i7.
  - intros b Hb. unfold is_free. destruct (bblock_map b Hb) as [-> ->]. unfold D. rewrite fn_lookup_insert, bit_mark_loop by lia. change nmeta with 47 in Hf.
    case_decide; destruct (Z.leb_spec (freeblock s) b); (lia || done).
  - exact Hf.
  - apply (ow_range _ _ _ i5).
  - by rewrite d1.
  - by rewrite d2.
  - rewrite d3. apply load_store_same. unfold off, NINODES, DIRENT_SIZE, BSIZE in *. change (2 ^ _) with (2 ^ 32). dlia.
  - intros ds. eapply file_frame; [intros b j; apply HD| |exact r4]. intros j Hj. rewrite d4 by done. unfold dv. cbn [decode_inode addrs]. unfold load32. apply load_store_other. unfold D_SIZE. simpl. lia.
  - intros k a Hk. pose proof (lookup_lt_Some _ _ _ Hk). replace (Z.of_nat k + 2) with (Z.of_nat (S k) + 1) by lia.
    apply (stored_frame (img s) D ow ow); [intros i Hi; rewrite Hd by (done || lia); rewrite decide_False by (unfold ROOTINO; lia); done|intros b j; apply HD|].
    apply i8. change (((λ a, (T_FILE, fdata a)) <$> l) !! k = Some (T_FILE, fdata a)). by rewrite list_lookup_fmap, Hk.
  - intros ino Hi. destruct (dv_ext zeroes (dnode D ino)) as [-> _]; [|done]. intros i Hi2. rewrite Hd by (done || lia). rewrite decide_False by (unfold ROOTINO; lia). apply i9; [lia|done].
Qed.

(** The state when the image is empty but for the super block. *)
Lemma image_empty s :
  (∀ b, img s b = if decide (b = 1) then encode_sb sb0 zeroes else zeroes) → nsect s = FSSIZE → msb s = sb0 → freeinode s = 1 → freeblock s = nmeta →
  image [] (λ _, None) s.
Proof.
  intros Hb En Es Ei Ef. split; try done.
  - split; [done|by rewrite Ef|]. intros b Hr. rewrite Hb, decide_False; [done|]. rewrite Ef in Hr. change nmeta with 47 in Hr. lia.
  - intros ino i Hi _. unfold dnode, dinode_in. destruct (iblock_at ino) as [_ Hr]; [simpl in Hi; lia|]. rewrite Hb, decide_False by lia. done.
Qed.

Lemma wp_zero_all s Q :
  img s = (λ _, zeroes) → nsect s = 0 →
  Q tt (set_img (λ _, zeroes) FSSIZE s) → wp (for_up (Z.to_nat FSSIZE) 0 1 (λ i, wsect i zeroes)) s Q.
Proof.
  intros Ei En HQ. apply (wp_for_up (λ k s', s' = set_img (λ _, zeroes) (Z.of_nat k) s)).
  - destruct s. simpl in *. by subst.
  - intros k s' Hk ->. apply wp_modify. unfold FSSIZE in Hk. rewrite sector_id by (unfold FSSIZE; lia). unfold set_img. cbn. f_equal; [|lia]. extensionality b. unfold insert, fn_insert. by case_decide.
  - intros s' ->. exact HQ.
Qed.

(** The first two entries. *)
Lemma wp_dot n ow s bs Q :
  image [(T_DIR, bs)] ow s → size bs ≤ DIRENT_SIZE → (∀ ow' s', image [(T_DIR, bs ++ mk_dirent ROOTINO (name_field n))] ow' s' → Q tt s') →
  wp (iappend ROOTINO (mk_dirent (xshort ROOTINO) (name_field n)) DIRENT_SIZE) s Q.
Proof.
  intros I Hbs HQ. rewrite xshort_id by done. pose proof (size_mk_dirent ROOTINO n) as Hsz. set (de := mk_dirent _ _) in *. rewrite <-Hsz. change ROOTINO with (Z.of_nat 0 + 1). unfold DIRENT_SIZE in *.
  assert (size (bs ++ de) ≤ 32) as Hs by (rewrite length_app; lia). pose proof (cost_le _ _ Hs) as Hc. change (cost (blocks 32)) with 1 in Hc.
  apply (wp_iappend [(T_DIR, bs)] ow s 0%nat T_DIR bs); [done|done|change (MAXFILE * BSIZE) with 274432; lia| |done].
  change (total (<[0%nat := ?x]> [?y])) with (cost (blocks (size x.2)) + 0). cbn [snd]. change nmeta with 47. unfold FSSIZE. lia.
Qed.

Lemma wp_main l Q :
  Forall input_ok l → size l + 2 ≤ NINODES → nmeta + total (plan l) ≤ FSSIZE →
  (∀ ow s', mounted l (img s') ow (freeblock s') → Q tt s') → wp (main l) mk0 Q.
Proof.
  intros Hok Hn Hf HQ. unfold main. change (mkSb FSMAGIC _ _ _ _ _ _ _) with sb0. apply wp_bind, wp_modify, wp_bind, wp_modify. apply wp_bind, wp_zero_all; [done|done|].
  apply wp_bind, wp_wsect; [done|done|]. set (s1 := set_img _ _ _). assert (image [] (λ _, None) s1) as I1.
  { apply image_empty; try done. intros b. unfold s1. cbn [img set_img]. unfold insert, fn_insert. by repeat case_decide. }
  apply wp_bind, (wp_ialloc [] (λ _, None)); [done|done|done|]. intros s2 I2. change (Z.of_nat (length ([] : contents)) + 1) with ROOTINO. rewrite Z.eqb_refl. cbn [negb].
  apply wp_bind, (wp_dot [dot] (λ _, None) s2 []); [done|done|]. intros ow3 s3 I3. apply wp_bind, (wp_dot [dot; dot] ow3 s3 _ _ I3); [by rewrite app_nil_l, size_mk_dirent|]. intros ow4 s4 I4.
  apply wp_bind, (wp_add_files l [] ow4 s4); [|done|done|done|]. { rewrite app_nil_l in I4. unfold plan, dirents. cbn [fmap list_fmap imap concat]. by rewrite app_nil_r. }
  intros ow5 s5 I5. rewrite app_nil_l in I5. apply wp_bind, wp_rinode; [apply I5|apply I5|done|]. destruct (im_file _ _ _ I5 0%nat T_DIR _ eq_refl) as [_ _ E _]. change (Z.of_nat 0 + 1) with ROOTINO in E.
  rewrite size_dirents, length_fmap in E. set (din := dnode (img s5) ROOTINO) in *. change (load32 din D_SIZE) with (isize (dv din)). rewrite E. unfold NINODES in Hn. cbv zeta. rewrite (xint_id (DIRENT_SIZE * _)) by (unfold DIRENT_SIZE; lia).
  set (off := (DIRENT_SIZE * (size l + 2) / BSIZE + 1) * BSIZE). assert (0 ≤ off < 2 ^ 32) as Ho by (unfold off, DIRENT_SIZE, BSIZE; dlia). rewrite u32_small, xint_id by done.
  apply wp_bind, wp_winode; [apply I5|apply I5|done|]. apply wp_bind, wp_gets. unfold balloc. set (s6 := set_img _ _ _). pose proof (ow_fb _ _ _ (im_own _ _ _ I5)) as Hfb. change (freeblock s6) with (freeblock s5).
  rewrite (proj2 (Z.ltb_lt (freeblock s5) BPB)) by (unfold FSSIZE in Hfb; change BPB with 8192; lia). cbn [negb]. apply wp_bind, wp_gets. change (msb s6) with (msb s5). rewrite (im_sb _ _ _ I5).
  apply wp_wsect; [done|done|]. apply (HQ ow5). exact (finished l ow5 s5 I5).
Qed.

(** ** As the kernel sees it *)

(** The inode that [ilock] reads. *)
Definition inode_at (D : Z → memory) (ip : inode) (ino : Z) : inode :=
  decode_inode (D (IBLOCK ino (decode_sb (D 1)))) (dinode_off ino) ip.

Lemma load_dinode n buf o x : load_le n (dinode_in buf o) x = load_le n buf (o + x).
Proof. revert x. induction n as [|n IH]; intros x; simpl; [done|]. rewrite IH. unfold dinode_in. do 3 f_equal. lia. Qed.

Section view.
Context (l : list input) (D : Z → memory) (ow : owner) (fb : Z) (Mo : mounted l D ow fb).
Context (ip0 : inode).
Notation ip := (inode_at D ip0).

Lemma inode_view ino :
  itype (ip ino) = itype (dv (dnode D ino)) ∧ nlink (ip ino) = nlink (dv (dnode D ino)) ∧ isize (ip ino) = isize (dv (dnode D ino)) ∧ ∀ j, addrs (ip ino) j = addrs (dv (dnode D ino)) j.
Proof using Mo.
  unfold inode_at, dv, dnode. rewrite (mo_sb _ _ _ _ Mo). cbn [decode_inode itype nlink isize addrs]. unfold load16, load32. rewrite !load_dinode.
  split_and!; [by rewrite Z.add_0_r|done|done|]. intros j. rewrite load_dinode. f_equal. lia.
Qed.

(** Each inode in use, with its contents. *)
Definition kept_in (ino : Z) (bs : list Z) : Prop :=
  (ino = ROOTINO ∧ bs = dirents (short ∘ path <$> l)) ∨ ∃ k a, ino = Z.of_nat k + 2 ∧ l !! k = Some a ∧ bs = fdata a.

Lemma view_file ino bs : kept_in ino bs → file_at D ow ino (ip ino) bs (blocks (size bs)) (NDIRECT <? blocks (size bs)).
Proof using Mo.
  intros Hk. destruct (inode_view ino) as (_ & _ & _ & Ha). apply (file_frame D D ow ow ino (dv (dnode D ino))); [done|done|].
  destruct Hk as [[-> ->]|(k & a & -> & Hk & ->)]; [apply (mo_root _ _ _ _ Mo)|apply (mo_file _ _ _ _ Mo _ _ Hk)].
Qed.

Lemma kept_exists ino : 1 ≤ ino ≤ size l + 1 → ∃ bs, kept_in ino bs.
Proof using.
  intros Hi. destruct (decide (ino = 1)) as [->|]; [eexists; by left|]. destruct (lookup_lt_is_Some_2 l (Z.to_nat (ino - 2)) ltac:(lia)) as [a Ha].
  exists (fdata a). right. exists (Z.to_nat (ino - 2)), a. split_and!; [lia|done|done].
Qed.

Lemma owned_nonzero b o : ow b = Some o → b ≠ 0.
Proof using Mo. intros Hb. pose proof (mo_owner _ _ _ _ Mo _ _ Hb) as Hr. change nmeta with 47 in Hr. lia. Qed.

Lemma file_used ino bs bn : kept_in ino bs → 0 ≤ bn < MAXFILE → baddr D (ip ino) bn ≠ 0 → 0 ≤ bn < blocks (size bs) ∧ ow (baddr D (ip ino) bn) = Some (ino, bn).
Proof using Mo.
  intros Hk Hb Hne. pose proof (view_file ino bs Hk) as F. assert (0 ≤ bn < blocks (size bs)) as Hr.
  { destruct (decide (bn < blocks (size bs))); [lia|]. destruct Hne. apply (fa_none _ _ _ _ _ _ _ F). lia. }
  split; [done|]. by apply (fa_has _ _ _ _ _ _ _ F).
Qed.

(** The bytes of a file, and the zeros after them in the last block. *)
Lemma fbytes_kept ino bs off n :
  kept_in ino bs → 0 ≤ off → 0 ≤ n → off + n ≤ blocks (size bs) * BSIZE → fbytes D (ip ino) off n = (λ k, nth (Z.to_nat off + k) bs 0) <$> seq 0 (Z.to_nat n).
Proof using Mo.
  intros Hk Ho Hn Hb. apply list_fmap_ext. intros i k [-> Hi]%lookup_seq. rewrite (fa_data _ _ _ _ _ _ _ (view_file ino bs Hk)) by lia. f_equal. lia.
Qed.
Lemma fbytes_within ino bs off n : kept_in ino bs → 0 ≤ off → 0 ≤ n → off + n ≤ size bs → fbytes D (ip ino) off n = take (Z.to_nat n) (drop (Z.to_nat off) bs).
Proof using Mo.
  intros Hk Ho Hn Hb. pose proof (blocks_bounds (size bs)). rewrite (fbytes_kept ino bs) by (done || lia). apply list_eq. intros i. rewrite list_lookup_fmap. destruct (decide (i < Z.to_nat n)%nat).
  - rewrite lookup_seq_lt, lookup_take_lt, lookup_drop by lia. cbn [fmap option_fmap option_map]. symmetry. rewrite (nth_lookup bs). simpl.
    destruct (bs !! (Z.to_nat off + i)%nat) eqn:E; [done|]. apply lookup_ge_None in E. lia.
  - rewrite lookup_seq_ge by lia. rewrite lookup_take_ge by lia. done.
Qed.
(** A kernel that has read the super block. *)
Context (f : fs) (Esb : sb f = sb0) (Elog : lstart (lg f) = 2).

Lemma layout_ok b : nmeta - 1 ≤ b < FSSIZE → ok_block f b.
Proof using Elog. unfold ok_block, in_log. rewrite Elog. change LOGBLOCKS with 30. change nmeta with 47. unfold FSSIZE. lia. Qed.

Lemma map_ok : bmap_ok ∅ D f.
Proof using Mo Esb Elog.
  split; rewrite Esb.
  - done.
  - done.
  - intros b Hb. destruct (bblock_map b Hb) as [-> _]. split; [by apply layout_ok|set_solver].
  - intros b Hb Hfree. rewrite (mo_map _ _ _ _ Mo b Hb) in Hfree. apply Z.leb_le in Hfree. pose proof (mo_fb _ _ _ _ Mo) as Hf. change nmeta with 47 in Hf.
    change (sb_size sb0) with FSSIZE in *. split_and!; [lia|apply layout_ok; change nmeta with 47; lia|set_solver|]. intros b' Hb'. destruct (bblock_map b' Hb') as [-> _]. lia.
Qed.

Lemma data_ok b o : ow b = Some o → data_block ∅ D f b.
Proof using Mo Esb Elog.
  intros Hb. pose proof (mo_owner _ _ _ _ Mo _ _ Hb) as Hr. pose proof (mo_fb _ _ _ _ Mo) as Hf. assert (0 ≤ b < FSSIZE) as Hb2 by (change nmeta with 47 in Hr; lia).
  split; rewrite ?Esb.
  - change (sb_size sb0) with FSSIZE. change nmeta with 47 in Hr. lia.
  - rewrite (mo_map _ _ _ _ Mo b Hb2). apply Z.leb_gt. lia.
  - apply layout_ok. lia.
  - set_solver.
  - intros b' Hb'. destruct (bblock_map b' Hb') as [-> _]. change nmeta with 47 in Hr. lia.
Qed.

Lemma kept_ok ino bs : idev ip0 = ROOTDEV → kept_in ino bs → file_ok ∅ D f (ip ino).
Proof using Mo Esb Elog.
  intros Ed Hk. pose proof (view_file ino bs Hk) as F. pose proof (fa_ind _ _ _ _ _ _ _ F) as Hi. split.
  - exact map_ok.
  - exact Ed.
  - intros Hne. destruct (NDIRECT <? blocks (size bs)); [by eapply data_ok|by destruct Hi].
  - intros bn Hb Hne. destruct (file_used ino bs bn Hk Hb Hne) as [Hbn Ho]. split; [by eapply data_ok|]. intros E. rewrite E in Ho, Hne.
    destruct (NDIRECT <? blocks (size bs)); [|by destruct Hi]. rewrite Hi in Ho. injection Ho. lia.
  - intros bn bn' Hb Hb' Hne E. destruct (file_used ino bs bn Hk Hb Hne) as [_ Ho]. rewrite E in Hne. destruct (file_used ino bs bn' Hk Hb' Hne) as [_ Ho']. rewrite E, Ho' in Ho. by injection Ho.
Qed.

Lemma kept_solid ino bs : kept_in ino bs → 0 ≤ isize (ip ino) ≤ blocks (size bs) * BSIZE → solid D (ip ino).
Proof using Mo.
  intros Hk Hs. pose proof (view_file ino bs Hk) as F. pose proof (fa_nb _ _ _ _ _ _ _ F) as Hn. pose proof bsize_pos. split; [nia|].
  intros bn H0 Hb. eapply owned_nonzero, (fa_has _ _ _ _ _ _ _ F). nia.
Qed.
End view.

Lemma concat_chunk (L : list (list Z)) n j e :
  (∀ x, x ∈ L → length x = n) → L !! j = Some e → take n (drop (n * j) (concat L)) = e.
Proof.
  revert j. induction L as [|x L IH]; intros j HL Hj; [done|]. assert (length x = n) as Hx by (apply HL; left). change (concat (x :: L)) with (x ++ concat L). destruct j as [|j].
  - injection Hj as ->. rewrite Nat.mul_0_r, drop_0. by apply take_app_length'.
  - rewrite drop_app_ge by nia. replace (n * S j - length x)%nat with (n * j)%nat by nia. apply IH; [|done]. intros y Hy. apply HL. by right.
Qed.

Lemma dirents_entry ns j :
  let ents := mk_dirent ROOTINO (name_field [dot]) :: mk_dirent ROOTINO (name_field [dot; dot]) :: imap (λ i n, mk_dirent (Z.of_nat i + 2) (name_field n)) ns in
  ∀ e, ents !! j = Some e → take 16 (drop (16 * j) (dirents ns)) = e.
Proof.
  intros ents e He. change (dirents ns) with (concat ents). apply concat_chunk; [|done]. intros x Hx. apply Nat2Z.inj.
  apply elem_of_cons in Hx as [->|[->|Hx]%elem_of_cons]; [apply size_mk_dirent..|]. apply elem_of_lookup_imap in Hx as (i & n & -> & _). apply size_mk_dirent.
Qed.

(** C24. [main] of mkfs, on files that can be opened, have names of at most DIRSIZ
    characters and fit, ends normally, and in the image that it leaves, read as the
    kernel reads it: the super block gives the layout; the free map marks exactly the
    blocks that are not in use; inode k+2 is a file with one link that holds the bytes
    of the k-th argument, and entry k+2 of the root directory has its name and inode
    number, after the entries for . and ..; every later entry in the blocks of the root
    directory is vacant, and every other inode is free. *)
Theorem mkfs_contents l :
  Forall input_ok l → size l + 2 ≤ NINODES → nmeta + total (plan l) ≤ FSSIZE →
  wp (main l) mk0 (λ _ s, let D := img s in ∀ ip0, let ip := inode_at D ip0 in
    decode_sb (D 1) = sb0 ∧
    (∀ b, 0 ≤ b < FSSIZE → is_free D sb0 b = (freeblock s <=? b)) ∧
    (itype (ip ROOTINO) = T_DIR ∧ nlink (ip ROOTINO) = 1 ∧
     dent D (ip ROOTINO) 0 = mk_dirent ROOTINO (name_field [dot]) ∧ dent D (ip ROOTINO) 1 = mk_dirent ROOTINO (name_field [dot; dot])) ∧
    (∀ k a, l !! k = Some a → let ino := Z.of_nat k + 2 in
      itype (ip ino) = T_FILE ∧ nlink (ip ino) = 1 ∧ isize (ip ino) = size (fdata a) ∧ fbytes D (ip ino) 0 (isize (ip ino)) = fdata a ∧
      dent D (ip ROOTINO) ino = mk_dirent ino (name_field (short (path a)))) ∧
    (∀ j, size l + 2 ≤ j < blocks (DIRENT_SIZE * (size l + 2)) * (BSIZE / DIRENT_SIZE) → vacant (dent D (ip ROOTINO) j) = true) ∧
    (∀ ino, size l + 1 < ino < NINODES → itype (ip ino) = 0)).
Proof.
  intros Hok Hn Hf. apply wp_main; [done..|]. intros ow s Mo D ip0 ip. fold D in Mo. set (ds := dirents (short ∘ path <$> l)). pose proof (size_dirents (short ∘ path <$> l)) as Hds. fold ds in Hds. rewrite length_fmap in Hds. unfold DIRENT_SIZE in Hds.
  assert (kept_in l ROOTINO ds) as Hroot by (by left). pose proof (inode_view l D ow _ Mo ip0) as V. fold ip in V.
  assert (∀ j e, (mk_dirent ROOTINO (name_field [dot]) :: mk_dirent ROOTINO (name_field [dot; dot]) :: imap (λ i n, mk_dirent (Z.of_nat i + 2) (name_field n)) (short ∘ path <$> l)) !! j = Some e → dent D (ip ROOTINO) (Z.of_nat j) = e) as Hent.
  { intros j e He. pose proof (lookup_lt_Some _ _ _ He) as Hj. cbn [length] in Hj. rewrite length_imap, length_fmap in Hj. unfold dent, DIRENT_SIZE. rewrite (fbytes_within l D ow _ Mo ip0 ROOTINO ds) by (done || lia).
    change (Z.to_nat 16) with 16%nat. replace (Z.to_nat (Z.of_nat j * 16)) with (16 * j)%nat by lia. by apply dirents_entry. }
  destruct (V ROOTINO) as (v1 & v2 & _). split_and!.
  - apply Mo.
  - apply Mo.
  - rewrite v1. apply Mo.
  - rewrite v2. apply Mo.
  - by apply (Hent 0%nat).
  - by apply (Hent 1%nat).
  - intros k a Hk ino. destruct (V ino) as (w1 & w2 & w3 & _). destruct (mo_file _ _ _ _ Mo _ _ Hk) as [f1 f2 f3 f4]. fold ino in f1, f2, f3. rewrite w1, w2, w3, f3. split_and!; try done.
    + rewrite (fbytes_within l D ow _ Mo ip0 ino (fdata a)); [|right; by exists k, a|lia..]. rewrite drop_0. apply take_ge. lia.
    + replace ino with (Z.of_nat (S (S k))) by lia. apply Hent. change (imap (λ i n, mk_dirent (Z.of_nat i + 2) (name_field n)) (short ∘ path <$> l) !! k = Some (mk_dirent (Z.of_nat (S (S k))) (name_field (short (path a))))).
      rewrite list_lookup_imap, list_lookup_fmap, Hk. replace (Z.of_nat (S (S k))) with (Z.of_nat k + 2) by lia. done.
  - intros j Hj. change (BSIZE / DIRENT_SIZE) with 64 in Hj. unfold DIRENT_SIZE in Hj. rewrite <-Hds in Hj. unfold dent, DIRENT_SIZE. unfold BSIZE in *. rewrite (fbytes_kept l D ow _ Mo ip0 ROOTINO ds) by (done || unfold BSIZE; lia).
    change (seq 0 (Z.to_nat 16)) with [0;1;2;3;4;5;6;7;8;9;10;11;12;13;14;15]%nat. cbn [fmap list_fmap]. rewrite !nth_overflow by lia. done.
  - intros ino Hi. destruct (V ino) as (-> & _). exact (mo_rest _ _ _ _ Mo ino Hi).
Qed.

(** C23. The image that [main] of mkfs leaves satisfies what the file system of the
    kernel relies on, whatever the kernel's state, once it has read the super block: the
    free map is sound, the blocks of every inode are marked blocks of data, all
    different, no block belongs to two inodes, every block below the size of a file is
    there, and the root directory is a well-formed directory, unless its entries fill
    its blocks exactly. *)
Theorem mkfs_mountable l :
  Forall input_ok l → size l + 2 ≤ NINODES → nmeta + total (plan l) ≤ FSSIZE →
  wp (main l) mk0 (λ _ s, let D := img s in
    ∀ f ip0, sb f = decode_sb (D 1) → lstart (lg f) = logstart (sb f) → idev ip0 = ROOTDEV → let ip := inode_at D ip0 in
    bmap_ok ∅ D f ∧
    (∀ ino, 1 ≤ ino ≤ size l + 1 → file_ok ∅ D f (ip ino)) ∧
    (∀ ino ino' bn bn', 1 ≤ ino ≤ size l + 1 → 1 ≤ ino' ≤ size l + 1 → 0 ≤ bn < MAXFILE → 0 ≤ bn' < MAXFILE →
       baddr D (ip ino) bn ≠ 0 → baddr D (ip ino) bn = baddr D (ip ino') bn' → ino = ino' ∧ bn = bn') ∧
    (∀ ino, 2 ≤ ino ≤ size l + 1 → solid D (ip ino)) ∧
    ((size l + 2) mod (BSIZE / DIRENT_SIZE) ≠ 0 → dir_ok ∅ D f (ip ROOTINO))).
Proof.
  intros Hok Hn Hf. apply wp_main; [done..|]. intros ow s Mo D f ip0 Esb Elog Ed ip. fold D in Mo. rewrite (mo_sb _ _ _ _ Mo) in Esb. rewrite Esb in Elog. change (logstart sb0) with 2 in Elog.
  pose proof (inode_view l D ow _ Mo ip0) as V. fold ip in V. split_and!.
  - exact (map_ok l D ow _ Mo f Esb Elog).
  - intros ino Hi. destruct (kept_exists l ino Hi) as [bs Hk]. exact (kept_ok l D ow _ Mo ip0 f Esb Elog ino bs Ed Hk).
  - intros ino ino' bn bn' Hi Hi' Hb Hb' Hne E. destruct (kept_exists l ino Hi) as [bs Hk]. destruct (kept_exists l ino' Hi') as [bs' Hk']. destruct (file_used l D ow _ Mo ip0 ino bs bn Hk Hb Hne) as [_ Ho].
    unfold ip in E, Hne. rewrite E in Ho, Hne. destruct (file_used l D ow _ Mo ip0 ino' bs' bn' Hk' Hb' Hne) as [_ Ho']. rewrite Ho' in Ho. injection Ho. lia.
  - intros ino Hi. destruct (kept_exists l ino ltac:(lia)) as [bs Hk]. apply (kept_solid l D ow _ Mo ip0 ino bs Hk). fold (ip ino). destruct (V ino) as (_ & _ & -> & _).
    destruct Hk as [[-> _]|(k & a & -> & Hk & ->)]; [unfold ROOTINO in Hi; lia|]. rewrite (st_size _ _ _ _ _ (mo_file _ _ _ _ Mo _ _ Hk)). pose proof (blocks_bounds (size (fdata a))). lia.
  - intros Hmod. change (BSIZE / DIRENT_SIZE) with 64 in Hmod. assert (kept_in l ROOTINO (dirents (short ∘ path <$> l))) as Hk by (by left). destruct (V ROOTINO) as (v1 & _ & v3 & _). rewrite (mo_size _ _ _ _ Mo) in v3. split.
    + exact (kept_ok l D ow _ Mo ip0 f Esb Elog _ _ Ed Hk).
    + apply (kept_solid l D ow _ Mo ip0 _ _ Hk). fold (ip ROOTINO). rewrite v3, size_dirents, length_fmap. unfold blocks, DIRENT_SIZE, BSIZE. dlia.
    + rewrite v1. apply Mo.
    + rewrite v3. unfold DIRENT_SIZE, BSIZE. dlia.
Qed.
