(* ===== verification/Umalloc.v ===== *)
(** * The allocator of user programs

    umalloc.c on the bytes of the process, and its correctness: the blocks that
    [malloc] has handed out never overlap, keep their contents, and together
    with the free blocks make up all that was obtained with [sbrk]. *)

From S2P Require Import Prelude Memory.

(** sizeof(Header); the pointer is at offset 0, the size at 8. *)
Definition HDR : Z := 16.
Definition H_SIZE : Z := 8.

(** The memory, the variable freep, and the end of the memory obtained. *)
Record heap := mkHeap { hm : memory; freep : Z; brk : Z }.
Definition set_hm (m : memory) (s : heap) : heap := mkHeap m (freep s) (brk s).
Definition set_freep (p : Z) (s : heap) : heap := mkHeap (hm s) p (brk s).

Definition SBRK_ERROR : Z := u64 (-1).

(** The address of the variable base, and the system call: it fails, or extends
    the memory by [n] and returns the old end, and nothing else calls it.  [limit]
    bounds the memory of a process, every page of which is one of the machine's. *)
Class Sbrk := {
  base : Z;
  limit : Z;
  sbrk : Z → M heap Z;
}.
Class SbrkLaws (SB : Sbrk) := {
  sbrk_grows n s Q : 0 ≤ n < 2 ^ 31 → bytes_ok (hm s) →
    Q SBRK_ERROR s →
    (∀ m, (∀ a, a < brk s → m a = hm s a) → bytes_ok m → brk s + n ≤ limit → Q (brk s) (mkHeap m (freep s) (brk s + n))) →
    wp (sbrk n) s Q;
  limit_small : limit ≤ 2 ^ 36;
}.

Section code.
Context {SB : Sbrk}.

Definition hptr (p : Z) : M heap Z := gets (λ s, load64 (hm s) p).
Definition hsize (p : Z) : M heap Z := gets (λ s, load32 (hm s) (p + H_SIZE)).
Definition put_ptr (p v : Z) : M heap unit := modify (λ s, set_hm (store64 (hm s) p v) s).
Definition put_size (p v : Z) : M heap unit := modify (λ s, set_hm (store32 (hm s) (p + H_SIZE) v) s).

(** The [for] loop of [free]. *)
Fixpoint free_loop (fuel : nat) (bp p : Z) : M heap Z :=
  match fuel with
  | O => nofuel
  | S fuel' =>
      n ← hptr p;
      if (p <? bp) && (bp <? n) then mret p else
      if (n <=? p) && ((p <? bp) || (bp <? n)) then mret p else
      free_loop fuel' bp n
  end.

Definition free (fuel : nat) (ap : Z) : M heap unit :=
  let bp := ap - HDR in
  p ← gets freep;
  p ← free_loop fuel bp p;
  bs ← hsize bp;
  n ← hptr p;
  (if u64 (bp + HDR * bs) =? n then
     ns ← hsize n;
     put_size bp (u32 (bs + ns)) ;;
     nn ← hptr n;
     put_ptr bp nn
   else put_ptr bp n) ;;
  ps ← hsize p;
  (if u64 (p + HDR * ps) =? bp then
     bs ← hsize bp;
     put_size p (u32 (ps + bs)) ;;
     bn ← hptr bp;
     put_ptr p bn
   else put_ptr p bp) ;;
  modify (set_freep p).

(** sbrk takes an int. *)
Definition morecore (fuel : nat) (nu : Z) : M heap Z :=
  let nu := if nu <? 4096 then 4096 else nu in
  p ← sbrk (s32 (nu * HDR));
  if p =? SBRK_ERROR then mret 0 else
  put_size p nu ;;
  free fuel (p + HDR) ;;
  gets freep.

Fixpoint malloc_loop (fuel : nat) (nunits prevp p : Z) : M heap Z :=
  match fuel with
  | O => nofuel
  | S fuel' =>
      s ← hsize p;
      if nunits <=? s then
        p ← (if s =? nunits then
               n ← hptr p;
               put_ptr prevp n ;;
               mret p
             else
               put_size p (u32 (s - nunits)) ;;
               s ← hsize p;
               put_size (u64 (p + HDR * s)) nunits ;;
               mret (u64 (p + HDR * s)));
        modify (set_freep prevp) ;;
        mret (u64 (p + HDR))
      else
        f ← gets freep;
        if p =? f then
          p ← morecore fuel' nunits;
          if p =? 0 then mret 0 else
          n ← hptr p;
          malloc_loop fuel' nunits p n
        else
          n ← hptr p;
          malloc_loop fuel' nunits p n
  end.

Definition malloc (fuel : nat) (nbytes : Z) : M heap Z :=
  let nunits := u32 ((nbytes + HDR - 1) / HDR + 1) in
  f ← gets freep;
  prevp ← (if f =? 0 then
             put_ptr base base ;;
             modify (set_freep base) ;;
             put_size base 0 ;;
             mret base
           else mret f);
  p ← hptr prevp;
  malloc_loop fuel nunits prevp p.
End code.

(** ** Blocks *)

(** An address and a number of units, the header included. *)
Notation blk := (Z * Z)%type.
Definition stop (x : blk) : Z := x.1 + HDR * x.2.

(** Arithmetic on the ends of blocks. *)
Ltac blia := unfold stop, HDR, H_SIZE in *; simpl in *; lia.

Definition apart (x y : blk) : Prop := stop x ≤ y.1 ∨ stop y ≤ x.1.
Definition units (l : list blk) : Z := foldr (λ x n, x.2 + n) 0 l.

(** The headers of [l] link them in order; the last one points to [z]. *)
Fixpoint linked (m : memory) (l : list blk) (z : Z) : Prop :=
  match l with
  | [] => True
  | x :: l' => load64 m x.1 = match l' with y :: _ => y.1 | [] => z end ∧ load32 m (x.1 + H_SIZE) = x.2 ∧ linked m l' z
  end.

(** Blocks from [lo] on in the order of their addresses, never adjacent. *)
Fixpoint rising (lo : Z) (l : list blk) : Prop :=
  match l with
  | [] => True
  | x :: l' => lo ≤ x.1 ∧ 1 ≤ x.2 ∧ rising (stop x + 1) l'
  end.
(** The lower bound after [l]. *)
Fixpoint bound (lo : Z) (l : list blk) : Z :=
  match l with
  | [] => lo
  | x :: l' => bound (stop x + 1) l'
  end.

Lemma units_app l l' : units (l ++ l') = units l + units l'.
Proof. induction l as [|x l IH]; simpl; lia. Qed.

Lemma links_app m l l' z :
  linked m (l ++ l') z ↔ linked m l (match l' with y :: _ => y.1 | [] => z end) ∧ linked m l' z.
Proof.
  induction l as [|x l IH]; simpl; [naive_solver|]. rewrite IH. destruct l as [|x' l]; simpl; naive_solver.
Qed.

Lemma links_ext m m' l z :
  (∀ x a, x ∈ l → x.1 ≤ a < x.1 + HDR → m' a = m a) → linked m l z → linked m' l z.
Proof.
  induction l as [|x l IH]; [done|]. intros Hm (H1 & H2 & H3). unfold HDR, H_SIZE in *. split_and!.
  - rewrite <-H1. apply load_le_ext. intros a Ha. apply (Hm x); [left|]. simpl in Ha. lia.
  - rewrite <-H2. apply load_le_ext. intros a Ha. apply (Hm x); [left|]. simpl in Ha. lia.
  - apply IH; [|done]. intros y a Hy. apply Hm. by right.
Qed.

Lemma rising_app lo l l' : rising lo (l ++ l') ↔ rising lo l ∧ rising (bound lo l) l'.
Proof. revert lo. induction l as [|x l IH]; intros lo; simpl; [naive_solver|]. rewrite IH. naive_solver. Qed.

Lemma rising_weaken lo lo' l : lo' ≤ lo → rising lo l → rising lo' l.
Proof. destruct l as [|x l]; simpl; [done|]. intros. split; [lia|tauto]. Qed.

Lemma bound_le lo l : rising lo l → lo ≤ bound lo l ∧ ∀ x, x ∈ l → lo ≤ x.1 ∧ 1 ≤ x.2 ∧ stop x < bound lo l.
Proof.
  revert lo. induction l as [|x l IH]; intros lo; [intros _; split; [simpl; lia|set_solver]|]. intros (H1 & H2 & H3).
  destruct (IH _ H3) as [Hb Hx]. assert (stop x = x.1 + HDR * x.2) as E by done. unfold HDR in *. simpl. split; [lia|].
  intros y [->|Hy]%elem_of_cons; [lia|]. specialize (Hx y Hy). lia.
Qed.

(** ** The invariant *)

Section invariant.
Context {SB : Sbrk}.

(** The free list starts at [base], which has no units. *)
Definition nodes (fl : list blk) : list blk := (base, 0) :: fl.

(** [fl] is free, [al] handed out, in the memory from [lo] on. *)
Record heap_ok (lo : Z) (fl al : list blk) (s : heap) : Prop := {
  hk_bytes : bytes_ok (hm s);
  hk_base : 0 < base ∧ base + HDR ≤ lo ∧ brk s ≤ limit;
  hk_freep : ∃ x, x ∈ nodes fl ∧ freep s = x.1;
  hk_linked : linked (hm s) (nodes fl) base;
  hk_rising : rising lo fl;
  hk_free x : x ∈ fl → stop x ≤ brk s;
  hk_used x : x ∈ al → lo ≤ x.1 ∧ 1 ≤ x.2 ∧ stop x ≤ brk s ∧ load32 (hm s) (x.1 + H_SIZE) = x.2;
  hk_apart x y : x ∈ al → y ∈ fl → apart x y;
  hk_nodup : NoDup al;
  hk_disjoint x y : x ∈ al → y ∈ al → x ≠ y → apart x y;
  hk_all : HDR * (units fl + units al) = brk s - lo;
}.

(** The contents of the blocks [al]. *)
Definition kept (al : list blk) (s s' : heap) : Prop :=
  ∀ x a, x ∈ al → x.1 + HDR ≤ a < stop x → hm s' a = hm s a.

(** The nodes in a circle. *)
Definition nd (fl : list blk) (i : nat) : blk := nth (i mod S (length fl)) (nodes fl) (base, 0).

Lemma nd_in fl i : nd fl i ∈ nodes fl.
Proof. apply list_elem_of_In, nth_In. change (length (nodes fl)) with (S (length fl)). apply Nat.mod_upper_bound. lia. Qed.

Lemma nd_lookup fl i x : nodes fl !! i = Some x → nd fl i = x.
Proof.
  intros Hx. pose proof (lookup_lt_Some _ _ _ Hx). unfold nd. rewrite Nat.mod_small by done. by apply nth_lookup_Some.
Qed.

Lemma linked_next m l z i x :
  linked m l z → l !! i = Some x → load64 m x.1 = match l !! S i with Some y => y.1 | None => z end ∧ load32 m (x.1 + H_SIZE) = x.2.
Proof.
  revert i. induction l as [|y l IH]; intros i; [done|]. intros (H1 & H2 & H3). destruct i as [|i]; simpl.
  - intros [= ->]. split; [|done]. rewrite H1. by destruct l.
  - intros Hx. by apply IH.
Qed.

Lemma nd_at fl i : nodes fl !! (i mod S (length fl))%nat = Some (nd fl i).
Proof.
  assert (i mod S (length fl) < length (nodes fl))%nat as Hi by (change (length (nodes fl)) with (S (length fl)); apply Nat.mod_upper_bound; lia).
  destruct (lookup_lt_is_Some_2 _ _ Hi) as [x Hx]. rewrite Hx. f_equal. unfold nd. symmetry. by apply nth_lookup_Some.
Qed.

Lemma nd_succ fl i : nd fl (S i) = default (base, 0) (nodes fl !! S (i mod S (length fl))).
Proof.
  assert (S i mod S (length fl) = if decide (S (i mod S (length fl)) = S (length fl)) then 0 else S (i mod S (length fl)))%nat as E.
  { pose proof (Nat.div_mod i (S (length fl)) ltac:(lia)) as D. pose proof (Nat.mod_upper_bound i (S (length fl)) ltac:(lia)).
    case_decide as Hd; symmetry.
    - apply (Nat.mod_unique _ _ (S (i / S (length fl)))); nia.
    - apply (Nat.mod_unique _ _ (i / S (length fl))); lia. }
  pose proof (nd_at fl (S i)) as Hs. rewrite E in Hs. case_decide as Hd; [|by rewrite Hs].
  rewrite lookup_ge_None_2 by (by rewrite Hd). by injection Hs.
Qed.

Lemma nd_next m fl i : linked m (nodes fl) base → load64 m (nd fl i).1 = (nd fl (S i)).1 ∧ load32 m ((nd fl i).1 + H_SIZE) = (nd fl i).2.
Proof.
  intros L. destruct (linked_next _ _ _ _ _ L (nd_at fl i)) as [H1 H2]. split; [|done]. rewrite H1, nd_succ. by destruct (nodes fl !! S _).
Qed.

(** ** Finding the place of a block *)

Lemma rising_split lo l bp :
  rising lo l → (∀ x, x ∈ l → x.1 ≠ bp) →
  ∃ l1 l2, l = l1 ++ l2 ∧ (∀ x, x ∈ l1 → x.1 < bp) ∧ (∀ x, x ∈ l2 → bp < x.1).
Proof.
  revert lo. induction l as [|x l IH]; intros lo R Hne; [by exists [], []; split_and!; [done|set_solver|set_solver]|]. destruct R as (H1 & H2 & H3).
  destruct (Z.lt_ge_cases x.1 bp) as [Hlt|Hge].
  - destruct (IH _ H3) as (l1 & l2 & -> & Ha & Hb); [intros y Hy; apply Hne; by right|]. exists (x :: l1), l2. split_and!; [done| |done].
    intros y [->|Hy]%elem_of_cons; auto.
  - assert (bp < x.1) as Hx by (pose proof (Hne x ltac:(left)); lia). exists [], (x :: l). split_and!; [done|set_solver|].
    intros y [->|Hy]%elem_of_cons; [done|]. destruct (bound_le _ _ H3) as [_ Hb]. specialize (Hb y Hy). unfold stop, HDR in *. lia.
Qed.

Lemma rising_lt lo l i j x y : rising lo l → l !! i = Some x → l !! j = Some y → (i < j)%nat → x.1 < y.1.
Proof.
  revert lo i j. induction l as [|z l IH]; intros lo i j; [done|]. intros (H1 & H2 & H3) Hi Hj Hij. destruct j as [|j]; [lia|].
  destruct i as [|i]; [|apply (IH _ i j H3); [done|done|lia]]. injection Hi as ->. destruct (bound_le _ _ H3) as [_ Hb].
  specialize (Hb y (list_elem_of_lookup_2 l j y Hj)). unfold stop, HDR in *. lia.
Qed.

(** The nodes before the place of [bp], the last of them, and those after it. *)
Record place (fl : list blk) (bp : Z) (l1 : list blk) (t : blk) (l2 : list blk) : Prop := {
  pl_nodes : nodes fl = l1 ++ t :: l2;
  pl_low x : x ∈ l1 ++ [t] → x.1 < bp;
  pl_high x : x ∈ l2 → bp < x.1;
}.

Lemma place_exists lo fl bp : rising lo fl → (∀ x, x ∈ nodes fl → x.1 ≠ bp) → base < bp → ∃ l1 t l2, place fl bp l1 t l2.
Proof.
  intros R Hne Hb. destruct (rising_split lo fl bp R) as (a & l2 & -> & Ha & H2); [intros x Hx; apply Hne; by right|].
  destruct (exists_last (l := (base, 0) :: a)) as (l1 & t & E); [done|]. exists l1, t, l2. split; [|rewrite <-E; intros x [->|Hx]%elem_of_cons; auto|done].
  unfold nodes. by rewrite app_comm_cons, E, <-app_assoc.
Qed.

Definition found (bp p n : Z) : bool := (p <? bp) && (bp <? n) || (n <=? p) && ((p <? bp) || (bp <? n)).

Lemma nodes_lt lo fl i j x y : base < lo → rising lo fl → nodes fl !! i = Some x → nodes fl !! j = Some y → (i < j)%nat → x.1 < y.1.
Proof.
  intros Hb R Hi Hj Hij. destruct j as [|j]; [lia|]. destruct i as [|i]; [|by apply (rising_lt lo fl i j); [..|lia]].
  injection Hi as <-. destruct (bound_le _ _ R) as [_ Hl]. specialize (Hl y (list_elem_of_lookup_2 fl j y Hj)). simpl. lia.
Qed.

Lemma found_iff lo fl bp l1 t l2 i :
  base < lo → rising lo fl → place fl bp l1 t l2 → base < bp →
  found bp (nd fl i).1 (nd fl (S i)).1 = bool_decide (i mod S (length fl) = length l1)%nat.
Proof.
  intros Hlo R [E Hl Hh] Hb. pose proof (nd_at fl i) as Hx. rewrite nd_succ. set (x := nd fl i) in *. set (k := (i mod S (length fl))%nat) in *.
  assert (∀ j y, nodes fl !! j = Some y → (j ≤ length l1)%nat → y.1 < bp) as Hlow.
  { intros j y Hj Hle. apply Hl, (list_elem_of_lookup_2 _ j). rewrite E, cons_middle, app_assoc, lookup_app_l in Hj; [done|]. rewrite length_app. simpl. lia. }
  assert (∀ j y, nodes fl !! j = Some y → (length l1 < j)%nat → bp < y.1) as Hhigh.
  { intros j y Hj Hle. apply Hh, (list_elem_of_lookup_2 _ (j - S (length l1))). rewrite E, lookup_app_r in Hj by lia.
    replace (j - length l1)%nat with (S (j - S (length l1))) in Hj by lia. done. }
  unfold found. destruct (decide (k < length l1)%nat) as [Hk|Hk].
  - rewrite bool_decide_false by lia. destruct (nodes fl !! S k) as [y|] eqn:Ey.
    + pose proof (Hlow _ _ Ey ltac:(lia)). pose proof (nodes_lt lo fl k (S k) x y Hlo R Hx Ey ltac:(lia)). simpl.
      rewrite (proj2 (Z.ltb_ge bp y.1)), (proj2 (Z.leb_gt y.1 x.1)) by lia. by rewrite andb_false_r.
    + apply lookup_ge_None in Ey. rewrite E, length_app in Ey. simpl in Ey. lia.
  - destruct (decide (k = length l1)) as [Hk'|Hk'].
    + rewrite bool_decide_true by done. pose proof (Hlow _ _ Hx ltac:(lia)). rewrite (proj2 (Z.ltb_lt x.1 bp)) by lia. cbn [andb orb].
      destruct (nodes fl !! S k) as [y|] eqn:Ey; simpl.
      * pose proof (Hhigh _ _ Ey ltac:(lia)). by rewrite (proj2 (Z.ltb_lt bp y.1)) by lia.
      * assert (base ≤ x.1) as Hbx; [|rewrite (proj2 (Z.leb_le base x.1)) by lia; by rewrite orb_true_r].
        destruct k as [|k0]; [by injection Hx as <-|]. pose proof (nodes_lt lo fl 0 (S k0) _ x Hlo R eq_refl Hx ltac:(lia)). simpl in *. lia.
    + rewrite bool_decide_false by done. pose proof (Hhigh _ _ Hx ltac:(lia)). rewrite (proj2 (Z.ltb_ge x.1 bp)) by lia. cbn [andb orb].
      destruct (nodes fl !! S k) as [y|] eqn:Ey; simpl.
      * pose proof (nodes_lt lo fl k (S k) x y Hlo R Hx Ey ltac:(lia)). by rewrite (proj2 (Z.leb_gt y.1 x.1)) by lia.
      * rewrite (proj2 (Z.ltb_ge bp base)) by lia. apply andb_false_r.
Qed.

Lemma nd_place fl bp l1 t l2 i : place fl bp l1 t l2 → (i mod S (length fl) = length l1)%nat → nd fl i = t.
Proof. intros P Hi. pose proof (nd_at fl i) as Hx. rewrite Hi, (pl_nodes _ _ _ _ _ P), lookup_app_r, Nat.sub_diag in Hx by lia. by injection Hx. Qed.

Lemma wp_free_walk lo fl bp l1 t l2 (s : heap) Q :
  base < lo → rising lo fl → place fl bp l1 t l2 → base < bp → linked (hm s) (nodes fl) base → Q t.1 s →
  ∀ d fuel i, (d < fuel)%nat → ((i + d) mod S (length fl) = length l1)%nat → wp (free_loop fuel bp (nd fl i).1) s Q.
Proof.
  intros Hlo R P Hb L HQ d. induction d as [|d IH]; intros fuel i Hf Hd; (destruct fuel as [|fuel]; [lia|]); cbn [free_loop];
    apply wp_bind, wp_gets; rewrite (proj1 (nd_next _ _ i L)); pose proof (found_iff lo fl bp l1 t l2 i Hlo R P Hb) as Hfd; unfold found in Hfd;
    (destruct (bool_decide_reflect (i mod S (length fl) = length l1)%nat) as [Hk|Hk];
      [rewrite (nd_place fl bp l1 t l2 i P Hk) in *; apply orb_true_iff in Hfd as [-> | ->]; [|case_match]; by apply wp_ret|]).
  - by rewrite Nat.add_0_r in Hd.
  - apply orb_false_iff in Hfd as [-> ->]. apply IH; [lia|]. by rewrite Nat.add_succ_comm.
Qed.

(** The walk ends within two rounds. *)
Lemma wp_free_loop lo fl bp l1 t l2 fuel x (s : heap) Q :
  base < lo → rising lo fl → place fl bp l1 t l2 → base < bp → linked (hm s) (nodes fl) base →
  (2 * length fl + 2 < fuel)%nat → x ∈ nodes fl → Q t.1 s → wp (free_loop fuel bp x.1) s Q.
Proof.
  intros Hlo R P Hb L Hf (i & Hi)%list_elem_of_lookup_1 HQ. rewrite <-(nd_lookup fl i x Hi). pose proof (lookup_lt_Some _ _ _ Hi) as Hlt.
  assert (length l1 < S (length fl))%nat as Hl1.
  { change (S (length fl)) with (length (nodes fl)). rewrite (pl_nodes _ _ _ _ _ P), length_app. simpl. lia. }
  change (length (nodes fl)) with (S (length fl)) in Hlt.
  apply (wp_free_walk lo fl bp l1 t l2 s Q Hlo R P Hb L HQ (S (length fl) - i + length l1)); [lia|].
  replace (i + (S (length fl) - i + length l1))%nat with (length l1 + 1 * S (length fl))%nat by lia. rewrite Nat.Div0.mod_add. by apply Nat.mod_small.
Qed.

(** ** Giving a block back *)

(** [x] before the list [l], as one block with the first of [l] when they touch. *)
Definition join (x : blk) (l : list blk) : list blk :=
  match l with
  | y :: l' => if stop x =? y.1 then (x.1, x.2 + y.2) :: l' else x :: l
  | [] => [x]
  end.

Lemma apart_sym x y : apart x y → apart y x.
Proof. unfold apart. tauto. Qed.
Lemma apart_join z x y : 1 ≤ z.2 → stop x = y.1 → apart z x → apart z y → apart z (x.1, x.2 + y.2).
Proof. unfold apart, stop, HDR. simpl. lia. Qed.

Lemma store64_frame m p v a : a < p ∨ p + 8 ≤ a → store64 m p v a = m a.
Proof. intros Ha. unfold store64, store_le. mem_cases; simpl in *; lia || done. Qed.
Lemma store32_frame m p v a : a < p ∨ p + 4 ≤ a → store32 m p v a = m a.
Proof. intros Ha. unfold store32, store_le. mem_cases; simpl in *; lia || done. Qed.

(** What joining keeps. *)
Definition joins (P : blk → Prop) : Prop := ∀ x y, stop x = y.1 → P x → P y → P (x.1, x.2 + y.2).

Lemma join_all P x l : joins P → P x → (∀ y, y ∈ l → P y) → ∀ y, y ∈ join x l → P y.
Proof.
  intros J Hx Hl y. destruct l as [|z l]; simpl; [by intros ->%list_elem_of_singleton|]. case_match eqn:E.
  - apply Z.eqb_eq in E. intros [->|Hy]%elem_of_cons; [apply J; [done|done|apply Hl; left]|apply Hl; by right].
  - intros [->|Hy]%elem_of_cons; auto.
Qed.
Lemma units_join x l : units (join x l) = x.2 + units l.
Proof. destruct l as [|y l]; simpl; [done|]. case_match; simpl; lia. Qed.

Lemma rising_join b b' x l :
  b ≤ x.1 → 1 ≤ x.2 → rising b' l → (∀ y, y ∈ l → stop x ≤ y.1) → rising b (join x l).
Proof.
  intros Hb Hx R Hl. destruct l as [|y l]; simpl; [done|]. destruct R as (R1 & R2 & R3). specialize (Hl y ltac:(left)). case_match eqn:E.
  - apply Z.eqb_eq in E. simpl. split_and!; [done|lia|]. assert (stop (x.1, x.2 + y.2) = stop y) as -> by (unfold stop, HDR in *; simpl in *; lia). done.
  - apply Z.eqb_neq in E. simpl. split_and!; [done|done|lia|done|done].
Qed.

Lemma join_head x l : ∃ n l', join x l = (x.1, n) :: l'.
Proof. destruct x as [a n], l as [|y l]; simpl; [eauto|]. case_match; eauto. Qed.

Lemma joins_stop B : joins (λ y, stop y ≤ B).
Proof. intros x y E Hx Hy. unfold stop, HDR in *. simpl. lia. Qed.
Lemma joins_apart z : 1 ≤ z.2 → joins (apart z).
Proof. intros Hz x y E. by apply apart_join. Qed.

Lemma join_covers x l n y : 0 ≤ x.2 → (y = x ∨ y ∈ l) → (∀ z, z ∈ l → 0 ≤ z.2) → n ≤ y.2 → ∃ z, z ∈ join x l ∧ n ≤ z.2.
Proof.
  intros Hx Hy Hl Hn. destruct l as [|z l]; simpl; [exists x; split; [left|destruct Hy as [->|?]; [done|set_solver]]|]. pose proof (Hl z ltac:(left)). case_match.
  - destruct Hy as [->|[->|Hy]%elem_of_cons]; [eexists; split; [left|simpl; lia]..|]. exists y. split; [by right|done].
  - exists y. split; [|done]. apply elem_of_cons. naive_solver.
Qed.
Lemma join_length x l : (length (join x l) ≤ S (length l))%nat.
Proof. destruct l as [|y l]; simpl; [lia|]. case_match; simpl; lia. Qed.

(** The free list that results. *)
Lemma give_back lo fl x l1 t l2 :
  rising lo fl → place fl x.1 l1 t l2 → base + HDR ≤ lo → lo ≤ x.1 → 1 ≤ x.2 → (∀ y, y ∈ fl → apart x y) →
  ∃ fl', nodes fl' = l1 ++ join t (join x l2) ∧ rising lo fl' ∧ units fl' = units fl + x.2 ∧
    (∀ P, joins P → P x → (∀ y, y ∈ fl → P y) → ∀ y, y ∈ fl' → P y) ∧
    (∃ y, y ∈ fl' ∧ x.2 ≤ y.2) ∧ (length fl' ≤ S (length fl))%nat ∧ t.1 + HDR ≤ x.1 ∧ stop t ≤ x.1 ∧ 0 ≤ t.2 ∧ ∀ y, y ∈ l2 → stop x ≤ y.1 ∧ y ∈ fl.
Proof.
  intros R [E Hl Hh] Hlo Hx Hn Ha. assert (∀ y, y ∈ l2 → y ∈ fl) as H2.
  { intros y Hy. assert (y ∈ nodes fl) as [->|?]%elem_of_cons; [rewrite E; set_solver|specialize (Hh _ Hy); simpl in Hh; unfold HDR in *; lia|done]. }
  assert (∀ y, y ∈ l2 → stop x ≤ y.1) as H2x.
  { intros y Hy. destruct (Ha y (H2 y Hy)) as [?|Hs]; [done|]. specialize (Hh y Hy). destruct (bound_le _ _ R) as [_ Hb].
    specialize (Hb y (H2 y Hy)). unfold stop, HDR in *. lia. }
  destruct l1 as [|b0 l1]; injection E as E0 E; subst.
  - exists (join x l2). cbn [app]. assert (stop (base, 0) = base) as Es by (unfold stop; simpl; lia). split_and!.
    + destruct (join_head x l2) as (n & l' & ->). simpl. rewrite Es, (proj2 (Z.eqb_neq base x.1)) by (unfold HDR in *; lia). done.
    + by eapply rising_join.
    + rewrite units_join. lia.
    + intros P J Px Pl. by apply join_all.
    + apply (join_covers x l2 x.2 x); [lia|by left| |done]. intros z Hz. destruct (bound_le _ _ R) as [_ Hb]. destruct (Hb z Hz). lia.
    + apply join_length.
    + simpl. lia.
    + rewrite Es. unfold HDR in *. lia.
    + done.
    + auto.
  - apply rising_app in R as (R1 & R2 & R3 & R4). assert (t.1 < x.1) as Ht by (apply Hl; set_solver).
    assert (stop t ≤ x.1) as Hst by (destruct (Ha t ltac:(set_solver)) as [Hs|?]; [unfold stop, HDR in *; lia|done]).
    exists (l1 ++ join t (join x l2)). split_and!.
    + done.
    + apply rising_app. split; [done|]. eapply (rising_join _ (stop t)); [done|done|by eapply rising_join|].
      destruct (join_head x l2) as (n & l' & El). pose proof (rising_join (stop t) _ x l2 Hst Hn R4 H2x) as Rj. destruct (bound_le _ _ Rj) as [_ Hb].
      intros y Hy. apply Hb in Hy. lia.
    + rewrite !units_app. rewrite !units_join. simpl. lia.
    + intros P J Px Pl y [Hy|Hy]%elem_of_app; [apply Pl; set_solver|]. revert y Hy. apply join_all; [done|apply Pl; set_solver|].
      apply join_all; [done|done|]. intros y Hy. apply Pl. set_solver.
    + assert (∀ z, z ∈ l2 → 0 ≤ z.2) as Hz2 by (intros z Hz; destruct (bound_le _ _ R4) as [_ Hb]; destruct (Hb z Hz); lia).
      destruct (join_covers x l2 x.2 x ltac:(lia) ltac:(by left) Hz2 ltac:(lia)) as (y & Hy & Hyn).
      destruct (join_covers t (join x l2) x.2 y) as (z & Hz & Hzn); [lia|by right| |done|].
      * apply (join_all (λ y, 0 ≤ y.2)); [intros a b _ Ha' Hb'; simpl; lia|lia|done].
      * exists z. split; [apply elem_of_app; by right|done].
    + rewrite !length_app. pose proof (join_length t (join x l2)). pose proof (join_length x l2). simpl. lia.
    + unfold stop, HDR in *. lia.
    + done.
    + lia.
    + auto.
Qed.

(** The first word after [l]. *)
Definition head_or (l : list blk) (z : Z) : Z := match l with y :: _ => y.1 | [] => z end.

(** Both halves of [free] put a block before a list. *)
Lemma wp_join (s : heap) x l Q :
  let m := hm s in
  bytes_ok m → load32 m (x.1 + H_SIZE) = x.2 → linked m l base → 0 ≤ x.1 → (l = [] → base ≠ stop x) → 0 < base < 2 ^ 37 →
  (∀ y, y ∈ l → x.1 + HDR ≤ y.1 ∧ stop x ≤ y.1 ∧ 0 ≤ x.2 ∧ 0 ≤ y.2 ∧ stop y ≤ 2 ^ 36 ∧ x.2 + y.2 < 2 ^ 32) → stop x ≤ 2 ^ 36 → 0 ≤ x.2 →
  (∀ m1, bytes_ok m1 → (∀ a, a < x.1 ∨ x.1 + HDR ≤ a → m1 a = m a) → linked m1 (join x l) base → Q tt (set_hm m1 s)) →
  wp (if u64 (x.1 + HDR * x.2) =? head_or l base then
        ns ← hsize (head_or l base);
        put_size x.1 (u32 (x.2 + ns)) ;;
        nn ← hptr (head_or l base);
        put_ptr x.1 nn
      else put_ptr x.1 (head_or l base)) s Q.
Proof.
  intros m Hm Hs L H0 Hb Hb0 Hl He Hx HQ. assert (0 ≤ x.1 + HDR * x.2 < 2 ^ 64) as Hu by (unfold stop, HDR in *; lia). rewrite u64_small by done. fold (stop x).
  assert (∀ v w m1, m1 = store64 m x.1 v ∨ m1 = store64 (store32 m (x.1 + H_SIZE) w) x.1 v → (∀ a, a < x.1 ∨ x.1 + HDR ≤ a → m1 a = m a)) as Hout.
  { intros v w m1 [-> | ->] a Ha; unfold HDR, H_SIZE in *; rewrite store64_frame by lia; [done|]. rewrite store32_frame by lia. done. }
  assert (∀ m1 l', (∀ a, a < x.1 ∨ x.1 + HDR ≤ a → m1 a = m a) → (∀ y, y ∈ l' → y ∈ l) → linked m l' base → linked m1 l' base) as Hext.
  { intros m1 l' Ho Hsub. apply links_ext. intros y a Hy Ha. apply Ho. right. destruct (Hl y (Hsub y Hy)). lia. }
  assert (∀ v, 0 ≤ v < 2 ^ 64 → ∀ m0, load64 (store64 m0 x.1 v) x.1 = v) as H64 by (intros v Hv m0; by apply load_store_same).
  destruct l as [|y l]; cbn [head_or join].
  - rewrite (proj2 (Z.eqb_neq (stop x) base)) by (by apply not_eq_sym, Hb). apply wp_modify, HQ; [by apply bytes_ok_store|by apply (Hout base 0); left|].
    cbn [join linked]. split_and!; [apply H64; lia| |done]. rewrite <-Hs. apply load_store_other. unfold H_SIZE. simpl. lia.
  - destruct (Hl y ltac:(left)) as (Y1 & Y2 & _ & Y3 & Y4 & Y5). destruct L as (L1 & L2 & L3). destruct (Z.eqb_spec (stop x) y.1) as [E|E].
    + apply wp_bind, wp_gets. change (hm s) with m. rewrite L2. apply wp_bind, wp_modify. apply wp_bind, wp_gets. apply wp_modify. cbn [hm set_hm freep brk]. change (hm s) with m.
      assert (load64 (store32 m (x.1 + H_SIZE) (u32 (x.2 + y.2))) y.1 = load64 m y.1) as -> by (apply load_store_other; unfold H_SIZE, HDR in *; simpl; lia).
      apply HQ; [by apply bytes_ok_store, bytes_ok_store|by eapply Hout; right|]. cbn [join]. rewrite E, Z.eqb_refl. cbn [linked fst snd]. pose proof (load_le_range 8 m y.1 Hm) as Hr. split_and!.
      * rewrite H64 by exact Hr. exact L1.
      * unfold H_SIZE. assert (u32 (x.2 + y.2) = x.2 + y.2) as -> by (unfold u32; apply Z.mod_small; lia).
        etransitivity; [apply load_store_other; simpl; lia|]. apply load_store_same. simpl. lia.
      * apply Hext; [by eapply Hout; right|intros z Hz; by right|done].
    + assert (0 ≤ y.1 < 2 ^ 64) as Hy by (unfold stop, HDR in *; lia). apply wp_modify, HQ; [by apply bytes_ok_store|by apply (Hout y.1 0); left|].
      cbn [join]. rewrite (proj2 (Z.eqb_neq _ _) E). cbn [linked].
      split; [by apply H64|]. split; [rewrite <-Hs; apply load_store_other; unfold H_SIZE; simpl; lia|].
      apply (Hext _ (y :: l)); [by apply (Hout y.1 0); left|done|by split_and!].
Qed.

Lemma nodes_gap lo fl l1 t l2 y : base + HDR ≤ lo → rising lo fl → nodes fl = l1 ++ t :: l2 → y ∈ l1 → y.1 + HDR ≤ t.1.
Proof.
  intros Hb R E Hy. destruct l1 as [|b l1]; [set_solver|]. injection E as <- E. rewrite E in R. apply rising_app in R as (R1 & R2 & _).
  destruct (bound_le _ _ R1) as [Hl Hx]. apply elem_of_cons in Hy as [->|Hy]; [simpl; lia|]. destruct (Hx y Hy) as (? & ? & ?). unfold stop, HDR in *. lia.
Qed.

(** A change of the headers of [x] and [t] leaves the used blocks alone. *)
Lemma used_frame (m m2 : memory) (x t y : blk) a :
  (∀ a, a < x.1 ∨ x.1 + HDR ≤ a → a < t.1 ∨ t.1 + HDR ≤ a → m2 a = m a) → 1 ≤ x.2 → apart y x → (stop y ≤ t.1 ∨ t.1 + HDR ≤ y.1) →
  y.1 ≤ a < stop y → m2 a = m a.
Proof. intros Hm Hx Ha Ht Hr. apply Hm; unfold apart, stop, HDR in *; lia. Qed.

(** The second half of [free], from the place that was found. *)
Lemma wp_free_join (s : heap) x t l2 Q :
  let m := hm s in
  bytes_ok m → load32 m (x.1 + H_SIZE) = x.2 → load32 m (t.1 + H_SIZE) = t.2 → load64 m t.1 = head_or l2 base → linked m l2 base →
  0 < base < 2 ^ 36 → base ≤ t.1 → t.1 + HDR ≤ x.1 → stop t ≤ x.1 → base < stop x ≤ 2 ^ 36 → 0 ≤ t.2 → 1 ≤ x.2 →
  (∀ y, y ∈ l2 → stop x ≤ y.1 ∧ 1 ≤ y.2 ∧ stop y ≤ 2 ^ 36) →
  (∀ m2, bytes_ok m2 → (∀ a, a < x.1 ∨ x.1 + HDR ≤ a → a < t.1 ∨ t.1 + HDR ≤ a → m2 a = m a) → linked m2 (join t (join x l2)) base →
     Q tt (set_freep t.1 (set_hm m2 s))) →
  wp (bs ← hsize x.1; n ← hptr t.1;
      (if u64 (x.1 + HDR * bs) =? n then
         ns ← hsize n; put_size x.1 (u32 (bs + ns)) ;; nn ← hptr n; put_ptr x.1 nn
       else put_ptr x.1 n) ;;
      ps ← hsize t.1;
      (if u64 (t.1 + HDR * ps) =? x.1 then
         bs ← hsize x.1; put_size t.1 (u32 (ps + bs)) ;; bn ← hptr x.1; put_ptr t.1 bn
       else put_ptr t.1 x.1) ;;
      modify (set_freep t.1)) s Q.
Proof.
  intros m Hm Xs Ts Tp L2 B0 Bt T1 T2 X3 T3 X2 Hl2 HQ. apply wp_bind, wp_gets. change (hm s) with m. rewrite Xs. apply wp_bind, wp_gets. change (hm s) with m. rewrite Tp. apply wp_bind.
  apply wp_join; [done|done|done|blia|intros _; lia|lia| |lia|lia|].
  { intros y Hy. destruct (Hl2 y Hy) as (Y1 & Y2 & Y3). blia. }
  intros m1 Hm1 Ho1 Lj. destruct (join_head x l2) as (n & l' & Ej). apply wp_bind, wp_gets. cbn [hm set_hm].
  assert (load32 m1 (t.1 + H_SIZE) = t.2) as Ts1. { rewrite <-Ts. apply load_le_ext. intros a Ha. apply Ho1. blia. }
  rewrite Ts1. apply wp_bind. assert (head_or (join x l2) base = x.1) as Eh by (by rewrite Ej). rewrite <-Eh.
  assert (∀ y, y ∈ join x l2 → x.1 ≤ y.1 ∧ 1 ≤ y.2 ∧ stop y ≤ 2 ^ 36) as Hj.
  { apply join_all; [intros a b Ea Ha Hb; blia|blia|]. intros y Hy. destruct (Hl2 y Hy) as (? & ? & ?). blia. }
  apply wp_join; [done|done|done|blia|by rewrite Ej|lia| |blia|lia|].
  { intros y Hy. destruct (Hj y Hy) as (? & ? & ?). blia. }
  intros m2 Hm2 Ho2 L. apply wp_modify, HQ; [done| |done]. intros a H1 H2. rewrite Ho2 by done. by apply Ho1.
Qed.

Lemma heap_freed lo fl al x s l1 t l2 fl' m2 :
  heap_ok lo fl (x :: al) s → place fl x.1 l1 t l2 → nodes fl' = l1 ++ join t (join x l2) → rising lo fl' → units fl' = units fl + x.2 →
  (∀ P, joins P → P x → (∀ y, y ∈ fl → P y) → ∀ y, y ∈ fl' → P y) → bytes_ok m2 →
  (∀ a, a < x.1 ∨ x.1 + HDR ≤ a → a < t.1 ∨ t.1 + HDR ≤ a → m2 a = hm s a) → linked m2 (join t (join x l2)) base → t.1 + HDR ≤ x.1 →
  heap_ok lo fl' al (set_freep t.1 (set_hm m2 s)) ∧ kept al s (set_freep t.1 (set_hm m2 s)).
Proof.
  intros [h1 (B0 & B1 & B2) h3 h4 h5 h6 h7 h8 hn h9 h10] P En R' Eu Hall Hm2 Ho Lj T1. destruct (h7 x ltac:(left)) as (X1 & X2 & X3 & X4).
  apply NoDup_cons in hn as [Hxal Hnd]. pose proof h4 as L. rewrite (pl_nodes _ _ _ _ _ P) in L. apply links_app in L as [L1 _].
  destruct (join_head t (join x l2)) as (n & l' & Ej).
  assert (∀ y a, y ∈ al → y.1 ≤ a < stop y → m2 a = hm s a) as Hal.
  { intros y a Hy Ha. apply (used_frame (hm s) m2 x t y); [done|done| | |done].
    - apply h9; [by right|left|]. by intros ->.
    - assert (t ∈ nodes fl) as [->|Ht]%elem_of_cons by (rewrite (pl_nodes _ _ _ _ _ P); set_solver).
      + right. destruct (h7 y ltac:(by right)). simpl. lia.
      + destruct (h8 y t ltac:(by right) Ht) as [?|?]; [by left|right]. destruct (bound_le _ _ h5) as [_ Hb]. destruct (Hb t Ht) as (? & ? & ?). blia. }
  split; [split|]; cbn [hm freep brk set_freep set_hm].
  - done.
  - done.
  - exists (t.1, n). split; [|done]. rewrite En, Ej. set_solver.
  - rewrite En. apply links_app. rewrite Ej in *. split; [|done]. cbn [fst]. eapply links_ext; [|exact L1].
    intros y a Hy Ha. pose proof (nodes_gap lo fl l1 t l2 y B1 h5 (pl_nodes _ _ _ _ _ P) Hy). apply Ho; blia.
  - done.
  - apply (Hall (λ y, stop y ≤ brk s)); [apply joins_stop|done|done].
  - intros y Hy. destruct (h7 y ltac:(by right)) as (Y1 & Y2 & Y3 & Y4). split_and!; try done. rewrite <-Y4. apply load_le_ext.
    intros a Ha. apply (Hal y); [done|]. blia.
  - intros y z Hy Hz. revert z Hz. apply Hall; [apply joins_apart; by apply h7; right| |].
    + apply h9; [by right|left|]. by intros ->.
    + intros z Hz. apply h8; [by right|done].
  - done.
  - intros y z Hy Hz. apply h9; by right.
  - rewrite Eu. simpl in h10. lia.
  - intros y a Hy Ha. apply (Hal y); [done|blia].
Qed.

Lemma wp_free {SL : SbrkLaws SB} lo fl al x fuel (s : heap) Q :
  heap_ok lo fl (x :: al) s → (2 * length fl + 2 < fuel)%nat →
  (∀ fl' s', heap_ok lo fl' al s' → kept al s s' → brk s' = brk s → (length fl' ≤ S (length fl))%nat → (∃ y, y ∈ fl' ∧ x.2 ≤ y.2) → Q tt s') →
  wp (free fuel (x.1 + HDR)) s Q.
Proof.
  intros H Hf HQ. pose proof H as [h1 (B0 & B1 & B2) h3 h4 h5 h6 h7 h8 hn h9 h10]. destruct (h7 x ltac:(left)) as (X1 & X2 & X3 & X4).
  pose proof limit_small as HL. assert (∀ y, y ∈ fl → apart x y) as Hax by (intros y Hy; apply h8; [left|done]).
  assert (∀ y, y ∈ fl → lo ≤ y.1 ∧ 1 ≤ y.2) as Hfl by (intros y Hy; destruct (bound_le _ _ h5) as [_ Hb]; destruct (Hb y Hy); tauto).
  destruct (place_exists lo fl x.1 h5) as (l1 & t & l2 & P); [|blia|].
  { intros y [->|Hy]%elem_of_cons; [blia|]. destruct (Hfl y Hy). specialize (Hax y Hy). unfold apart in Hax. blia. }
  destruct (give_back lo fl x l1 t l2 h5 P B1 X1 X2 Hax) as (fl' & En & R' & Eu & Hall & Hbig & Hlen & T1 & T2 & T3 & Hl2).
  pose proof h4 as L. rewrite (pl_nodes _ _ _ _ _ P) in L. apply links_app in L as [L1 (Lt1 & Lt2 & L2)].
  assert (base ≤ t.1) as Ht. { assert (t ∈ nodes fl) as [->|Hin]%elem_of_cons by (rewrite (pl_nodes _ _ _ _ _ P); set_solver); [done|]. destruct (Hfl t Hin). blia. }
  unfold free. rewrite Z.add_simpl_r. destruct h3 as (z & Hz & Ez). apply wp_bind, wp_gets. rewrite Ez. apply wp_bind.
  apply (wp_free_loop lo fl x.1 l1 t l2); [blia|done|done|blia|done|done|done|].
  apply wp_free_join with (l2 := l2); try done; try blia.
  { intros y Hy. destruct (Hl2 y Hy) as [Y1 Y2]. destruct (Hfl y Y2). specialize (h6 y Y2). lia. }
  intros m2 Hm2 Ho Lj. destruct (heap_freed lo fl al x s l1 t l2 fl' m2) as [H' K']; try done. by apply (HQ fl').
Qed.

(** ** Taking a block *)

Lemma nd_pair fl k : 0 < (nd fl (S k)).2 → ∃ l1 l2, nodes fl = l1 ++ nd fl k :: nd fl (S k) :: l2.
Proof.
  intros Hp. pose proof (nd_at fl k) as Hk. rewrite nd_succ in Hp |- *. set (i := (k mod S (length fl))%nat) in *.
  destruct (nodes fl !! S i) as [x|] eqn:Ex; [|simpl in Hp; lia]. exists (take i (nodes fl)), (drop (S (S i)) (nodes fl)).
  change (default (base, 0) (Some x)) with x. pose proof (take_drop_middle _ _ _ Hk) as E. by rewrite (drop_S _ _ _ Ex) in E.
Qed.

(** The free list [q ++ x :: l] when [x] is used for [n] units, and the block. *)
Definition cut (q : list blk) (x : blk) (l : list blk) (n : Z) : list blk * blk :=
  if x.2 =? n then (q ++ l, x) else (q ++ (x.1, x.2 - n) :: l, (x.1 + HDR * (x.2 - n), n)).

Lemma cut_spec q x l n fl b lo :
  cut q x l n = (fl, b) → rising lo (q ++ x :: l) → 1 ≤ n ≤ x.2 →
  b.2 = n ∧ x.1 ≤ b.1 ∧ stop b = stop x ∧ rising lo fl ∧ units fl + n = units (q ++ x :: l) ∧ (length fl ≤ length (q ++ x :: l))%nat ∧
  (∀ y, y ∈ fl → y ∈ q ++ l ∨ y.1 = x.1 ∧ stop y = b.1 ∧ 1 ≤ y.2) ∧ (∀ y, y ∈ q ++ l → apart b y).
Proof.
  intros Ec (R1 & R2 & R3 & R4)%rising_app Hn.
  assert (∀ y, y ∈ q ++ l → apart x y) as Ha.
  { intros y [Hy|Hy]%elem_of_app; [right|left].
    - destruct (bound_le _ _ R1) as [_ Hb]. destruct (Hb y Hy) as (? & ? & ?). lia.
    - destruct (bound_le _ _ R4) as [_ Hb]. destruct (Hb y Hy) as (? & ? & ?). lia. }
  unfold cut in Ec. destruct (Z.eqb_spec x.2 n) as [<-|Hne]; injection Ec as <- <-; rewrite !units_app, !length_app; simpl.
  - split_and!; try done; try lia; [|by left]. apply rising_app. split; [done|]. eapply rising_weaken; [|exact R4]. blia.
  - split_and!; try done; try blia.
    + apply rising_app. split; [done|]. simpl. split_and!; [done|lia|]. eapply rising_weaken; [|exact R4]. blia.
    + intros y [Hy|[->|Hy]%elem_of_cons]%elem_of_app; [left; set_solver|right; blia|left; set_solver].
    + intros y Hy. specialize (Ha y Hy). unfold apart in *. blia.
Qed.

(** Any state whose memory differs only in the header of [p], the node before
    [x], and inside [x]. *)
Lemma heap_cut lo q x l al s n fl b p m' :
  heap_ok lo (q ++ x :: l) al s → cut q x l n = (fl, b) → 1 ≤ n ≤ x.2 → p ∈ nodes q →
  bytes_ok m' → linked m' (nodes fl) base → load32 m' (b.1 + H_SIZE) = n →
  (∀ a, a < p.1 ∨ p.1 + HDR ≤ a → a < x.1 ∨ stop x ≤ a → m' a = hm s a) →
  heap_ok lo fl (b :: al) (set_freep p.1 (set_hm m' s)) ∧ kept al s (set_freep p.1 (set_hm m' s)) ∧ b.2 = n ∧ (length fl ≤ length (q ++ x :: l))%nat.
Proof.
  intros [h1 (B0 & B1 & B2) h3 h4 h5 h6 h7 h8 hn h9 h10] Ec Hn Hp Hm L Hs Ho. destruct (cut_spec _ _ _ _ _ _ _ Ec h5 Hn) as (C1 & C2 & C3 & C4 & C5 & C6 & C7 & C8).
  assert (x ∈ q ++ x :: l) as Hx by (apply elem_of_app; right; left).
  destruct (bound_le _ _ h5) as [_ Hb]. destruct (Hb x Hx) as (X1 & X2 & _).
  assert (∀ y, y ∈ q ++ l → y ∈ q ++ x :: l) as Hin by (intros y; rewrite !elem_of_app, elem_of_cons; tauto).
  assert (∀ y a, y ∈ al → y.1 ≤ a < stop y → m' a = hm s a) as Hal.
  { intros y a Hy Ha. destruct (h7 y Hy) as (Y1 & Y2 & _). apply Ho; [|destruct (h8 y x Hy Hx); lia].
    apply elem_of_cons in Hp as [->|Hp]; [simpl; lia|]. destruct (Hb p ltac:(apply elem_of_app; by left)) as (? & ? & _). destruct (h8 y p Hy ltac:(apply elem_of_app; by left)); blia. }
  assert (∀ y z, y ∈ al → z ∈ fl → apart y z) as Hap.
  { intros y z Hy [Hz|(Z1 & Z2 & _)]%C7; [by apply h8; [|apply Hin]|]. pose proof (h8 y x Hy Hx). unfold apart in *. blia. }
  assert (∀ y, y ∈ al → apart b y) as Hbal by (intros y Hy; pose proof (h8 y x Hy Hx); unfold apart in *; lia).
  split; [|split; [intros y a Hy Ha; apply (Hal y); [done|blia]|done]]. split; cbn [hm freep brk set_freep set_hm]; try done.
  - apply elem_of_cons in Hp as [->|Hp]; [exists (base, 0); split; [left|done]|]. exists p. split; [|done]. right. unfold cut in Ec.
    destruct (x.2 =? n); injection Ec as <- _; apply elem_of_app; by left.
  - intros y [Hy|(Y1 & Y2 & _)]%C7; [by apply h6, Hin|]. specialize (h6 x Hx). blia.
  - intros y [->|Hy]%elem_of_cons.
    + specialize (h6 x Hx). rewrite Hs. split_and!; blia.
    + destruct (h7 y Hy) as (Y1 & Y2 & Y3 & Y4). split_and!; try done. rewrite <-Y4. apply load_le_ext. intros a Ha. apply (Hal y); [done|blia].
  - intros y z [->|Hy]%elem_of_cons Hz; [|auto]. destruct (C7 z Hz) as [Hz'|(Z1 & Z2 & _)]; [auto|]. right. lia.
  - apply NoDup_cons. split; [|done]. intros Hy%Hbal. unfold apart in Hy. blia.
  - intros y z [->|Hy]%elem_of_cons [->|Hz]%elem_of_cons Hne; [done|by apply Hbal|by apply apart_sym, Hbal|auto].
  - change (units (b :: al)) with (b.2 + units al). rewrite C1. rewrite <-C5 in h10. lia.
Qed.

(** The two ways [malloc] uses the block after [p]. *)
Lemma links_unlink m l1 p x l2 :
  linked m (l1 ++ p :: x :: l2) base → 0 ≤ head_or l2 base < 2 ^ 64 → (∀ y, y ∈ l1 → y.1 + HDR ≤ p.1) → (∀ y, y ∈ l2 → p.1 + HDR ≤ y.1) →
  linked (store64 m p.1 (head_or l2 base)) (l1 ++ p :: l2) base.
Proof.
  intros (L1 & _ & P2 & _ & _ & L2)%links_app Hh H1 H2. apply links_app. split; [|cbn [linked]; split_and!].
  - eapply links_ext; [|exact L1]. intros y a Hy Ha. specialize (H1 y Hy). apply store64_frame. blia.
  - by apply load_store_same.
  - rewrite <-P2. apply load_store_other. unfold H_SIZE. simpl. lia.
  - eapply links_ext; [|exact L2]. intros y a Hy Ha. specialize (H2 y Hy). apply store64_frame. blia.
Qed.

Lemma linked_shrink m l1 p x l2 v m2 :
  linked m (l1 ++ p :: x :: l2) base → 0 ≤ v < 2 ^ 32 →
  (∀ y, y ∈ l1 ++ [p] → y.1 + HDR ≤ x.1) → (∀ y, y ∈ l2 → stop x ≤ y.1) → 1 ≤ v < x.2 →
  (∀ a, a < x.1 + HDR ∨ stop x ≤ a → m2 a = store32 m (x.1 + H_SIZE) v a) →
  linked m2 (l1 ++ p :: (x.1, v) :: l2) base.
Proof.
  intros L Hv H1 H2 Hx Ho. rewrite cons_middle, app_assoc in L |- *. apply links_app in L as [L1 (X1 & _ & L2)]. apply links_app. split; [|cbn [linked fst snd]; split_and!].
  - eapply links_ext; [|exact L1]. intros y a Hy Ha. specialize (H1 y Hy). rewrite Ho by blia. apply store32_frame. blia.
  - rewrite <-X1. apply load_le_ext. intros a Ha. rewrite Ho by blia. apply store32_frame. blia.
  - transitivity (load32 (store32 m (x.1 + H_SIZE) v) (x.1 + H_SIZE)); [|by apply load_store_same]. apply load_le_ext. intros a Ha. apply Ho. blia.
  - eapply links_ext; [|exact L2]. intros y a Hy Ha. specialize (H2 y Hy). rewrite Ho by blia. apply store32_frame. blia.
Qed.

Lemma wp_cut {SL : SbrkLaws SB} lo fl al k n (s : heap) Q :
  let p := (nd fl k).1 in let x := nd fl (S k) in
  heap_ok lo fl al s → 1 ≤ n ≤ x.2 →
  (∀ fl' b s', heap_ok lo fl' (b :: al) s' → kept al s s' → b.2 = n → brk s' = brk s → Q (b.1 + HDR) s') →
  wp (q ← (if x.2 =? n then v ← hptr x.1; put_ptr p v ;; mret x.1
           else put_size x.1 (u32 (x.2 - n)) ;; v ← hsize x.1; put_size (u64 (x.1 + HDR * v)) n ;; mret (u64 (x.1 + HDR * v)));
      modify (set_freep p) ;; mret (u64 (q + HDR))) s Q.
Proof.
  intros p x H Hn HQ. destruct (nd_pair fl k ltac:(fold x; lia)) as (l1 & l2 & En). fold x in En. set (pr := nd fl k) in *. pose proof H as [h1 (B0 & B1 & B2) h3 h4 h5 h6 h7 h8 hn h9 h10].
  pose proof limit_small as HL. assert (∃ q, l1 ++ [pr] = nodes q ∧ fl = q ++ x :: l2) as (q & Eq & Ef).
  { destruct l1 as [|b0 l1]; injection En as E0 E1; [exists []|exists (l1 ++ [pr])]; (split; [by rewrite <-E0|]); [done|by rewrite <-app_assoc]. }
  assert (pr ∈ nodes q) as Hpr by (rewrite <-Eq; set_solver). destruct (cut q x l2 n) as [fl' b] eqn:Ec. rewrite Ef in h5.
  destruct (cut_spec _ _ _ _ _ _ _ Ec h5 Hn) as (C1 & C2 & C3 & _ & _ & _). assert (x ∈ fl) as Hx by (rewrite Ef; set_solver). pose proof (h6 x Hx) as X3.
  assert (∀ y, y ∈ l1 ++ [pr] → y.1 + HDR ≤ x.1) as G1.
  { intros y. apply (nodes_gap lo fl (l1 ++ [pr]) x l2); [done|by rewrite Ef|]. by rewrite En, <-app_assoc. }
  assert (∀ y, y ∈ l1 → y.1 + HDR ≤ pr.1) as G2 by (intros y; apply (nodes_gap lo fl l1 pr (x :: l2)); [done|by rewrite Ef|done]).
  destruct (bound_le _ _ h5) as [_ Hlo]. destruct (Hlo x ltac:(set_solver)) as (X1 & _). clear Hlo.
  apply rising_app in h5 as (_ & R2 & R3 & R4). destruct (bound_le _ _ R4) as [_ Hl2]. rewrite En in h4.
  assert (∀ l', nodes (q ++ l') = l1 ++ pr :: l') as Enq by (intros l'; change (nodes (q ++ l')) with (nodes q ++ l'); by rewrite <-Eq, <-app_assoc).
  assert (0 ≤ head_or l2 base < 2 ^ 64) as Hh.
  { destruct l2 as [|y l3]; simpl; [blia|]. destruct (Hl2 y ltac:(left)) as (Y1 & Y2 & _). specialize (h6 y ltac:(rewrite Ef; set_solver)). blia. }
  pose proof h4 as (_ & _ & _ & L1 & L2 & _)%links_app. fold (head_or l2 base) in L1.
  assert (∀ m', bytes_ok m' → linked m' (nodes fl') base → load32 m' (b.1 + H_SIZE) = n → (∀ a, a < pr.1 ∨ pr.1 + HDR ≤ a → a < x.1 ∨ stop x ≤ a → m' a = hm s a) →
    Q (b.1 + HDR) (set_freep p (set_hm m' s))) as Hend.
  { intros m' Hm L Hs Ho. rewrite Ef in H. destruct (heap_cut lo q x l2 al s n fl' b pr m' H Ec Hn Hpr Hm L Hs Ho) as (H' & K & E & _). by apply (HQ fl' b). }
  unfold cut in Ec. destruct (Z.eqb_spec x.2 n) as [E|E]; injection Ec as <- <-.
  - apply wp_bind, wp_bind, wp_gets. rewrite L1. apply wp_bind, wp_modify, wp_ret. apply wp_bind, wp_modify, wp_ret. rewrite u64_small by blia.
    apply Hend; [by apply bytes_ok_store| | |].
    + rewrite Enq. apply links_unlink with (x := x); [done|done|done|]. intros y Hy. destruct (Hl2 y Hy). specialize (G1 pr ltac:(set_solver)). blia.
    + rewrite <-E, <-L2. apply load_store_other. specialize (G1 pr ltac:(set_solver)). blia.
    + intros a Ha _. apply store64_frame. blia.
  - assert (u32 (x.2 - n) = x.2 - n) as Eu by (unfold u32; apply Z.mod_small; blia). cbn [fst snd] in *.
    apply wp_bind, wp_bind, wp_modify. apply wp_bind, wp_gets. cbn [hm set_hm]. rewrite Eu.
    assert (load32 (store32 (hm s) (x.1 + H_SIZE) (x.2 - n)) (x.1 + H_SIZE) = x.2 - n) as -> by (apply load_store_same; blia).
    assert (u64 (x.1 + HDR * (x.2 - n)) = x.1 + HDR * (x.2 - n)) as -> by (apply u64_small; blia).
    apply wp_bind, wp_modify, wp_ret. apply wp_bind, wp_modify, wp_ret. rewrite u64_small by blia.
    apply Hend; [by apply bytes_ok_store, bytes_ok_store| | |].
    + rewrite Enq. apply (linked_shrink (hm s)) with (v := x.2 - n); [done|blia|done| |lia|].
      * intros y Hy. destruct (Hl2 y Hy). lia.
      * intros a Ha. cbn [hm set_hm]. apply store32_frame. blia.
    + apply load_store_same. blia.
    + intros a _ Ha. cbn [hm set_hm]. rewrite !store32_frame by blia. done.
Qed.

(** ** More memory *)

Lemma units_nonneg l : (∀ x, x ∈ l → 1 ≤ x.2) → 0 ≤ units l.
Proof. induction l as [|x l IH]; simpl; [done|]. intros H. pose proof (H x ltac:(left)). specialize (IH (λ y Hy, H y (list_elem_of_further _ _ _ Hy))). lia. Qed.

Lemma heap_lo lo fl al s : heap_ok lo fl al s → lo ≤ brk s.
Proof.
  intros [_ _ _ _ h5 _ h7 _ _ _ h10]. assert (0 ≤ units fl) by (apply units_nonneg; intros x Hx; destruct (bound_le _ _ h5) as [_ Hb]; apply (Hb x Hx)).
  assert (0 ≤ units al) by (apply units_nonneg; intros x Hx; apply (h7 x Hx)). blia.
Qed.

(** The new memory as a block in use. *)
Lemma heap_grown lo fl al s m nu :
  heap_ok lo fl al s → (∀ a, a < brk s → m a = hm s a) → bytes_ok m → brk s + HDR * nu ≤ limit → 1 ≤ nu < 2 ^ 32 →
  let s' := mkHeap (store32 m (brk s + H_SIZE) nu) (freep s) (brk s + HDR * nu) in
  heap_ok lo fl ((brk s, nu) :: al) s' ∧ kept al s s'.
Proof.
  intros H Hm Hb Hl Hn s'. pose proof (heap_lo _ _ _ _ H) as Hlo. destruct H as [h1 (B0 & B1 & B2) h3 h4 h5 h6 h7 h8 hn h9 h10].
  assert (∀ a, a < brk s → hm s' a = hm s a) as Hs by (intros a Ha; cbn; rewrite store32_frame by blia; auto).
  split; [|intros y a Hy Ha; apply Hs; destruct (h7 y Hy); lia]. split; cbn [freep brk s']; try done.
  - by apply bytes_ok_store.
  - eapply links_ext; [|exact h4]. intros y a [->|Hy]%elem_of_cons Ha; apply Hs; [blia|]. specialize (h6 y Hy). destruct (bound_le _ _ h5) as [_ Hy2]. destruct (Hy2 y Hy) as (_ & ? & _). blia.
  - intros y Hy. specialize (h6 y Hy). blia.
  - intros y [->|Hy]%elem_of_cons; [cbn [fst snd]; split_and!; [done|lia|blia|apply load_store_same; lia]|].
    destruct (h7 y Hy) as (Y1 & Y2 & Y3 & Y4). split_and!; [done|done|blia|]. rewrite <-Y4. apply load_le_ext. intros a Ha. apply Hs. blia.
  - intros y z [->|Hy]%elem_of_cons Hz; [|auto]. right. apply (h6 z Hz).
  - apply NoDup_cons. split; [|done]. intros Hy%h7. blia.
  - intros y z [->|Hy]%elem_of_cons [->|Hz]%elem_of_cons Hne; [done|right; by apply h7|left; by apply h7|auto].
  - change (units ((brk s, nu) :: al)) with (nu + units al). blia.
Qed.

Lemma kept_trans al al' s1 s2 s3 : kept al s1 s2 → kept al' s2 s3 → (∀ x, x ∈ al → x ∈ al') → kept al s1 s3.
Proof. intros A B Hs x a Hx Ha. rewrite (B x a); [by apply (A x)|auto|done]. Qed.

(** The units that [morecore] asks for. *)
Definition least (nu : Z) : Z := Z.max 4096 nu.
(** sbrk refuses to add them in this state. *)
Definition refused (nu : Z) (s : heap) : Prop := sbrk (least nu * HDR) s = Ok (SBRK_ERROR, s).

Lemma wp_sbrk {SL : SbrkLaws SB} n s Q : 0 ≤ n < 2 ^ 31 → bytes_ok (hm s) →
  (sbrk n s = Ok (SBRK_ERROR, s) → Q SBRK_ERROR s) →
  (∀ m, (∀ a, a < brk s → m a = hm s a) → bytes_ok m → brk s + n ≤ limit → Q (brk s) (mkHeap m (freep s) (brk s + n))) →
  wp (sbrk n) s Q.
Proof.
  intros Hn Hb H0 HQ. destruct (wp_run (sbrk n) s (λ p s', (p = SBRK_ERROR ∧ s' = s) ∨ Q p s')) as (p & s' & E & Hp).
  - apply sbrk_grows; [done|done|by left|]. intros m Hm Hb' Hl. right. by apply HQ.
  - apply (wp_Ok _ _ _ _ _ E). destruct Hp as [[-> ->]|Hp]; [by apply H0|done].
Qed.

Lemma wp_morecore {SL : SbrkLaws SB} lo fl al nu fuel (s : heap) Q :
  heap_ok lo fl al s → 1 ≤ nu → nu * HDR < 2 ^ 31 → (2 * length fl + 2 < fuel)%nat →
  (refused nu s → Q 0 s) →
  (∀ fl' s', heap_ok lo fl' al s' → kept al s s' → (length fl' ≤ S (length fl))%nat → (∃ y, y ∈ fl' ∧ nu ≤ y.2) → Q (freep s') s') →
  wp (morecore fuel nu) s Q.
Proof.
  intros H Hn Hs Hf H0 HQ. unfold morecore. set (nu' := if nu <? 4096 then 4096 else nu).
  assert (nu' = least nu) as Ew by (unfold nu', least; destruct (Z.ltb_spec nu 4096); lia).
  assert (nu ≤ nu' ∧ 1 ≤ nu' ∧ nu' * HDR < 2 ^ 31) as (N1 & N2 & N3) by (unfold nu', HDR in *; destruct (Z.ltb_spec nu 4096); lia).
  assert (s32 (nu' * HDR) = nu' * HDR) as -> by (unfold s32, HDR in *; dlia). apply wp_bind, wp_sbrk; [blia|by apply (hk_bytes _ _ _ _ H)| |].
  - intros E. change (SBRK_ERROR =? SBRK_ERROR) with true. apply wp_ret, H0. unfold refused. by rewrite <-Ew.
  - intros m Hm Hb Hl. pose proof (heap_lo _ _ _ _ H) as Hlo. pose proof limit_small as HL. rewrite (proj2 (Z.eqb_neq _ _)) by (destruct (hk_base _ _ _ _ H) as (B0 & B1 & B2); change SBRK_ERROR with (2 ^ 64 - 1); blia).
    apply wp_bind, wp_modify. cbn [hm freep brk]. destruct (heap_grown lo fl al s m nu' H Hm Hb ltac:(blia) ltac:(blia)) as [H' K]. cbv zeta in H', K.
    replace (HDR * nu') with (nu' * HDR) in H', K by lia. apply wp_bind, (wp_free lo fl al (brk s, nu')); [exact H'|done|].
    intros fl' s' H2 K2 _ Hlen (y & Hy & Hyn). apply wp_gets. apply (HQ fl'); [done| |done|exists y; split; [done|simpl in Hyn; lia]].
    by apply (kept_trans _ _ _ _ _ K K2).
Qed.

(** ** The search *)

Lemma nd_inj lo fl a b : base < lo → rising lo fl → (nd fl a).1 = (nd fl b).1 → (a mod S (length fl) = b mod S (length fl))%nat.
Proof.
  intros Hb R E. pose proof (nd_at fl a) as Ha. pose proof (nd_at fl b) as Hb'.
  destruct (Nat.lt_trichotomy (a mod S (length fl)) (b mod S (length fl))) as [Hl|[?|Hl]]; [|done|].
  - pose proof (nodes_lt lo fl _ _ _ _ Hb R Ha Hb' Hl). lia.
  - pose proof (nodes_lt lo fl _ _ _ _ Hb R Hb' Ha Hl). lia.
Qed.

(** Every node is met within one round from [j]. *)
Lemma nd_round fl j y : y ∈ nodes fl → ∃ c, (1 ≤ c ≤ S (length fl))%nat ∧ nd fl (j + c) = y.
Proof.
  intros (k & Hk)%list_elem_of_lookup_1. set (N := S (length fl)). pose proof (lookup_lt_Some _ _ _ Hk) as Hlt. change (length (nodes fl)) with N in Hlt.
  pose proof (Nat.div_mod j N ltac:(lia)) as D. pose proof (Nat.mod_upper_bound j N ltac:(lia)) as Hj.
  assert (∃ c, (1 ≤ c ≤ N)%nat ∧ ((j + c) mod N = k)%nat) as (c & Hc & E).
  { destruct (decide (j mod N < k)%nat).
    - exists (k - j mod N)%nat. split; [lia|]. symmetry. apply (Nat.mod_unique _ _ (j / N)); lia.
    - exists (N + k - j mod N)%nat. split; [lia|]. symmetry. apply (Nat.mod_unique _ _ (S (j / N))); nia. }
  exists c. split; [done|]. pose proof (nd_at fl (j + c)) as Ha. fold N in Ha. rewrite E, Hk in Ha. by injection Ha.
Qed.

Lemma wp_malloc_round {SL : SbrkLaws SB} lo fl al j n f (s : heap) Q :
  heap_ok lo fl al s → 1 ≤ n → freep s = (nd fl j).1 →
  (∀ fl' b s', heap_ok lo fl' (b :: al) s' → kept al s s' → b.2 = n → Q (b.1 + HDR) s') →
  ((∀ y, y ∈ fl → y.2 < n) → wp (p ← morecore f n; if p =? 0 then mret 0 else v ← hptr p; malloc_loop f n p v) s Q) →
  ∀ d e, (e + d = length fl)%nat → (∀ c, (1 ≤ c ≤ e)%nat → (nd fl (j + c)).2 < n) →
  wp (malloc_loop (d + S f) n (nd fl (j + e)).1 (nd fl (S (j + e))).1) s Q.
Proof.
  intros H Hn Hfp Hcut Hmore d. destruct (hk_base _ _ _ _ H) as (B0 & B1 & B2).
  assert (∀ e P, (¬ n ≤ (nd fl (S (j + e))).2 → wp P s Q) →
    wp (v ← hsize (nd fl (S (j + e))).1;
        if n <=? v then q ← (if v =? n then v ← hptr (nd fl (S (j + e))).1; put_ptr (nd fl (j + e)).1 v ;; mret (nd fl (S (j + e))).1
           else put_size (nd fl (S (j + e))).1 (u32 (v - n)) ;; v ← hsize (nd fl (S (j + e))).1; put_size (u64 ((nd fl (S (j + e))).1 + HDR * v)) n ;; mret (u64 ((nd fl (S (j + e))).1 + HDR * v)));
           modify (set_freep (nd fl (j + e)).1) ;; mret (u64 (q + HDR)) else P) s Q) as Htry.
  { intros e P HP. apply wp_bind, wp_gets. rewrite (proj2 (nd_next _ _ _ (hk_linked _ _ _ _ H))). destruct (Z.leb_spec n (nd fl (S (j + e))).2) as [Hle|Hgt]; [|apply HP; lia].
    apply (wp_cut lo fl al); [done|lia|]. intros fl' b s' H' K E _. by apply (Hcut fl'). }
  induction d as [|d IH]; intros e He Hno; cbn [Nat.add malloc_loop]; apply Htry; intros Hbig; apply wp_bind, wp_gets; rewrite Hfp.
  - assert (nd fl (S (j + e)) = nd fl j) as Ej.
    { unfold nd. replace (S (j + e)) with (j + 1 * S (length fl))%nat by lia. by rewrite Nat.Div0.mod_add. }
    rewrite Ej, Z.eqb_refl. apply Hmore. intros y Hy. destruct (nd_round fl j y ltac:(by right)) as (c & Hc & <-).
    destruct (decide (c = S (length fl))) as [->|]; [|apply Hno; lia]. replace (j + S (length fl))%nat with (S (j + e)) by lia. lia.
  - rewrite (proj2 (Z.eqb_neq _ _)).
    + apply wp_bind, wp_gets. rewrite (proj1 (nd_next _ _ _ (hk_linked _ _ _ _ H))). replace (S (j + e)) with (j + S e)%nat by lia. apply IH; [lia|].
      intros c Hc. destruct (decide (c = S e)) as [->|]; [|apply Hno; lia]. replace (j + S e)%nat with (S (j + e)) by lia. lia.
    + intros E%(nd_inj lo); [|blia|apply H]. pose proof (Nat.div_mod j (S (length fl)) ltac:(lia)) as D1. pose proof (Nat.div_mod (S (j + e)) (S (length fl)) ltac:(lia)) as D2.
      rewrite E in D2. assert (S e = S (length fl) * (S (j + e) / S (length fl) - j / S (length fl)))%nat as Hm by nia.
      destruct (S (j + e) / S (length fl) - j / S (length fl))%nat; nia.
Qed.

Lemma heap_perm lo fl al al' s : al ≡ₚ al' → heap_ok lo fl al s → heap_ok lo fl al' s.
Proof.
  intros E [h1 h2 h3 h4 h5 h6 h7 h8 hn h9 h10]. assert (∀ x, x ∈ al' ↔ x ∈ al) as Hx by (intros x; by rewrite E).
  split; try done; [intros x; rewrite Hx; apply h7|intros x y; rewrite Hx; apply h8|by rewrite <-E|intros x y; rewrite !Hx; apply h9|].
  assert (units al' = units al) as ->; [|done]. clear -E. symmetry. unfold units. induction E; simpl in *; lia.
Qed.

(** Before the first call: no list yet, the break at [lo]. *)
Record heap_new (lo : Z) (s : heap) : Prop := {
  hn_bytes : bytes_ok (hm s);
  hn_freep : freep s = 0;
  hn_brk : brk s = lo;
  hn_base : 0 < base ∧ base + HDR ≤ lo ∧ lo ≤ limit }.

(** What a caller sees: either nothing was allocated so far, or the list is there. *)
Definition heap_rep (lo : Z) (fl al : list blk) (s : heap) : Prop :=
  heap_ok lo fl al s ∨ fl = [] ∧ al = [] ∧ heap_new lo s.

Lemma heap_first {SL : SbrkLaws SB} lo s :
  heap_new lo s → heap_ok lo [] [] (set_hm (store32 (store64 (hm s) base base) (base + H_SIZE) 0) (set_freep base s)).
Proof.
  intros [h1 h2 h3 (B0 & B1 & B2)]. pose proof limit_small as HL.
  assert (linked (store32 (store64 (hm s) base base) (base + H_SIZE) 0) (nodes []) base) as Hl.
  { cbn [linked nodes fst snd]. unfold H_SIZE. unfold HDR in *. split_and!; [|apply load_store_same; simpl; lia|done].
    etransitivity; [apply load_store_other; simpl; lia|]. apply load_store_same. simpl. lia. }
  split; simpl; try done; try (intros *; by intros ?%elem_of_nil); try lia.
  - by apply bytes_ok_store, bytes_ok_store.
  - exists (base, 0). split; [left|done].
  - apply NoDup_nil_2.
Qed.

Lemma heap_freep_nd lo fl al s : heap_ok lo fl al s → ∃ j, freep s = (nd fl j).1.
Proof. intros H. destruct (hk_freep _ _ _ _ H) as (x & (j & Hj)%list_elem_of_lookup_1 & ->). exists j. by rewrite (nd_lookup _ _ _ Hj). Qed.

Lemma heap_freep_pos lo fl al s : heap_ok lo fl al s → 0 < freep s.
Proof.
  intros H. destruct (hk_base _ _ _ _ H) as (B0 & B1 & B2). destruct (hk_freep _ _ _ _ H) as (x & [->|Hx]%elem_of_cons & ->); [done|].
  destruct (bound_le _ _ (hk_rising _ _ _ _ H)) as [_ Hb]. destruct (Hb x Hx) as [? _]. blia.
Qed.

(** One round from the head pointer. *)
Lemma wp_malloc_from {SL : SbrkLaws SB} lo fl al n f (s : heap) Q :
  heap_ok lo fl al s → 1 ≤ n →
  (∀ fl' b s', heap_ok lo fl' (b :: al) s' → kept al s s' → b.2 = n → Q (b.1 + HDR) s') →
  ((∀ y, y ∈ fl → y.2 < n) → wp (p ← morecore f n; if p =? 0 then mret 0 else v ← hptr p; malloc_loop f n p v) s Q) →
  wp (v ← hptr (freep s); malloc_loop (length fl + S f) n (freep s) v) s Q.
Proof.
  intros H Hn Hcut Hmore. destruct (heap_freep_nd _ _ _ _ H) as [j Ej]. rewrite Ej. apply wp_bind, wp_gets.
  rewrite (proj1 (nd_next _ _ _ (hk_linked _ _ _ _ H))). rewrite <-(Nat.add_0_r j).
  apply (wp_malloc_round lo fl al j); [done|done|done|done|done|done|]. intros c Hc. lia.
Qed.

(** Two rounds: the second one after memory was added, and it finds a block. *)
Lemma wp_malloc_search {SL : SbrkLaws SB} lo fl al n fuel (s : heap) Q :
  heap_ok lo fl al s → 1 ≤ n → n * HDR < 2 ^ 31 → (3 * length fl + 4 ≤ fuel)%nat →
  (∀ fl' b s', heap_ok lo fl' (b :: al) s' → kept al s s' → b.2 = n → Q (b.1 + HDR) s') →
  ((∀ y, y ∈ fl → y.2 < n) → refused n s → Q 0 s) →
  wp (v ← hptr (freep s); malloc_loop fuel n (freep s) v) s Q.
Proof.
  intros H Hn Hs Hf Hcut H0. replace fuel with (length fl + S (fuel - S (length fl)))%nat by lia.
  apply (wp_malloc_from lo fl al); [done|done|done|]. intros Hsmall. set (f := (fuel - S (length fl))%nat).
  apply wp_bind, (wp_morecore lo fl al); [done|done|done|unfold f; lia|by intros Hr; apply wp_ret, H0|].
  intros fl2 s2 H2 K2 Hlen (y & Hy & Hyn). pose proof (heap_freep_pos _ _ _ _ H2).
  rewrite (proj2 (Z.eqb_neq _ _)) by lia. replace f with (length fl2 + S (f - S (length fl2)))%nat by (unfold f; lia).
  apply (wp_malloc_from lo fl2 al); [done|done| |].
  - intros fl' b s' H' K' Hb. apply (Hcut fl'); [done| |done]. by apply (kept_trans _ _ _ _ _ K2 K').
  - intros Hc. specialize (Hc y Hy). lia.
Qed.

(** The number of units of a request, the header included. *)
Definition want (nbytes : Z) : Z := (nbytes + HDR - 1) / HDR + 1.

Lemma want_bounds nbytes : 0 ≤ nbytes → nbytes + 31 < 2 ^ 31 → 1 ≤ want nbytes ∧ want nbytes * HDR < 2 ^ 31 ∧ nbytes ≤ HDR * (want nbytes - 1).
Proof. intros. unfold want, HDR. dlia. Qed.

(** C32. [malloc] on a heap in any state, the first call included, with enough
    iterations for two rounds of the list, returns.  It either returns a block with
    room for the request, disjoint from the blocks in use, and the heap is again in
    order with this block in use; or it returns 0 with the heap in order, and then no
    free block was large enough and sbrk, asked for the units of the request or for
    4096 if that is more, returns its error in the very state that is left.
    The contents of the blocks in use do not change.  Requests are those that, with
    the header and rounded up, stay below 2^31 bytes, as sbrk takes an int. *)
Theorem malloc_correct {SL : SbrkLaws SB} lo fl al nbytes fuel (s : heap) :
  heap_rep lo fl al s → 0 ≤ nbytes → nbytes + 31 < 2 ^ 31 → (3 * length fl + 4 ≤ fuel)%nat →
  wp (malloc fuel nbytes) s (λ p s', kept al s s' ∧
    ((∃ fl' b, p = b.1 + HDR ∧ nbytes ≤ HDR * (b.2 - 1) ∧ heap_ok lo fl' (b :: al) s') ∨
     (p = 0 ∧ heap_ok lo fl al s' ∧ brk s' = brk s ∧ (∀ y, y ∈ fl → HDR * (y.2 - 1) < nbytes) ∧ refused (want nbytes) s'))).
Proof.
  intros H H0 Hn Hf. destruct (want_bounds nbytes H0 Hn) as (W1 & W2 & W3). unfold malloc.
  assert (u32 ((nbytes + HDR - 1) / HDR + 1) = want nbytes) as -> by (apply u32_small; unfold HDR in *; fold (want nbytes); lia).
  assert (∀ y, y < want nbytes → HDR * (y - 1) < nbytes) as Hlt by (unfold want, HDR; intros; dlia).
  assert (∀ s1, heap_ok lo fl al s1 → kept al s s1 → brk s1 = brk s → wp (v ← hptr (freep s1); malloc_loop fuel (want nbytes) (freep s1) v) s1
    (λ p s', kept al s s' ∧ ((∃ fl' b, p = b.1 + HDR ∧ nbytes ≤ HDR * (b.2 - 1) ∧ heap_ok lo fl' (b :: al) s') ∨
     (p = 0 ∧ heap_ok lo fl al s' ∧ brk s' = brk s ∧ (∀ y, y ∈ fl → HDR * (y.2 - 1) < nbytes) ∧ refused (want nbytes) s')))) as Hgo.
  { intros s1 H1 K1 Eb. apply (wp_malloc_search lo fl al); [done|done|done|done| |].
    - intros fl' b s' H' K' E. split; [by apply (kept_trans _ _ _ _ _ K1 K')|]. left. exists fl', b. by rewrite E.
    - intros Hs Hr. split; [done|]. right. split_and!; [done..| |done]. intros y Hy. apply Hlt; auto. }
  apply wp_bind, wp_gets. apply wp_bind. destruct H as [H|(-> & -> & H)].
  - pose proof (heap_freep_pos _ _ _ _ H). rewrite (proj2 (Z.eqb_neq _ _)) by lia. apply wp_ret, Hgo; done.
  - rewrite (hn_freep _ _ H), Z.eqb_refl. do 2 apply wp_bind, wp_modify. apply wp_bind, wp_modify. apply wp_ret.
    apply (Hgo _ (heap_first lo s H)); [|done]. intros x a Hx. by apply elem_of_nil in Hx.
Qed.

(** C33. [free] of any block in use returns, with enough iterations for two rounds of
    the list: the block is in use no more, the list is again in order with no two
    adjacent free blocks, it has a block at least as large as the freed one, nothing is
    lost or added, and the contents of the other blocks in use do not change. *)
Theorem free_correct {SL : SbrkLaws SB} lo fl al al' x fuel (s : heap) :
  heap_ok lo fl al s → al ≡ₚ x :: al' → (2 * length fl + 3 ≤ fuel)%nat →
  wp (free fuel (x.1 + HDR)) s (λ _ s', ∃ fl', heap_ok lo fl' al' s' ∧ kept al' s s' ∧ brk s' = brk s ∧
    units fl' = units fl + x.2 ∧ ∃ y, y ∈ fl' ∧ x.2 ≤ y.2).
Proof.
  intros H E Hf. pose proof (heap_perm _ _ _ _ _ E H) as H1. apply (wp_free lo fl al'); [done|lia|].
  intros fl' s' H' K Eb _ Hy. exists fl'. split_and!; [done|done|done| |done].
  pose proof (hk_all _ _ _ _ H') as U'. pose proof (hk_all _ _ _ _ H1) as U. rewrite Eb in U'. change (units (x :: al')) with (x.2 + units al') in U. unfold HDR in *. lia.
Qed.
End invariant.
