(* ===== verification/Virtio.v ===== *)
(** * The disk driver

    virtio_disk.c and the structures of virtio.h.  The registers of
    the device are the operations of the class [VDev]; the variables of the
    driver, the three shared structures and what it uses of the buffers are the
    record [vdisk], a part of the kernel state (class [Driver]).  A pointer that
    the device follows is a [vptr]: where it points, not its address. *)

From S2P Require Import Prelude Riscv Memory Kalloc Vm Spinlock Proc FsState Sleeplock.

(** The device; reading a register may have an effect. *)
Class VDev := {
  vdev : Type;
  read_mmio : Z → vdev → Z * vdev;
  write_mmio : Z → Z → vdev → vdev;
}.

(** ** virtio.h *)

Definition VIRTIO_MMIO_MAGIC_VALUE : Z := 0x000.
Definition VIRTIO_MMIO_VERSION : Z := 0x004.
Definition VIRTIO_MMIO_DEVICE_ID : Z := 0x008.
Definition VIRTIO_MMIO_VENDOR_ID : Z := 0x00c.
Definition VIRTIO_MMIO_DEVICE_FEATURES : Z := 0x010.
Definition VIRTIO_MMIO_DRIVER_FEATURES : Z := 0x020.
Definition VIRTIO_MMIO_QUEUE_SEL : Z := 0x030.
Definition VIRTIO_MMIO_QUEUE_NUM_MAX : Z := 0x034.
Definition VIRTIO_MMIO_QUEUE_NUM : Z := 0x038.
Definition VIRTIO_MMIO_QUEUE_READY : Z := 0x044.
Definition VIRTIO_MMIO_QUEUE_NOTIFY : Z := 0x050.
Definition VIRTIO_MMIO_INTERRUPT_STATUS : Z := 0x060.
Definition VIRTIO_MMIO_INTERRUPT_ACK : Z := 0x064.
Definition VIRTIO_MMIO_STATUS : Z := 0x070.
Definition VIRTIO_MMIO_QUEUE_DESC_LOW : Z := 0x080.
Definition VIRTIO_MMIO_QUEUE_DESC_HIGH : Z := 0x084.
Definition VIRTIO_MMIO_DRIVER_DESC_LOW : Z := 0x090.
Definition VIRTIO_MMIO_DRIVER_DESC_HIGH : Z := 0x094.
Definition VIRTIO_MMIO_DEVICE_DESC_LOW : Z := 0x0a0.
Definition VIRTIO_MMIO_DEVICE_DESC_HIGH : Z := 0x0a4.

Definition VIRTIO_CONFIG_S_ACKNOWLEDGE : Z := 1.
Definition VIRTIO_CONFIG_S_DRIVER : Z := 2.
Definition VIRTIO_CONFIG_S_DRIVER_OK : Z := 4.
Definition VIRTIO_CONFIG_S_FEATURES_OK : Z := 8.

Definition VIRTIO_BLK_F_RO : Z := 5.
Definition VIRTIO_BLK_F_SCSI : Z := 7.
Definition VIRTIO_BLK_F_CONFIG_WCE : Z := 11.
Definition VIRTIO_BLK_F_MQ : Z := 12.
Definition VIRTIO_F_ANY_LAYOUT : Z := 27.
Definition VIRTIO_RING_F_INDIRECT_DESC : Z := 28.
Definition VIRTIO_RING_F_EVENT_IDX : Z := 29.

Definition NUM : Z := 8.

Definition VRING_DESC_F_NEXT : Z := 1.
Definition VRING_DESC_F_WRITE : Z := 2.
Definition VIRTIO_BLK_T_IN : Z := 0.
Definition VIRTIO_BLK_T_OUT : Z := 1.

(** &disk.ops[i], b->data, &disk.info[i].status *)
Inductive vptr := PNull | POps (i : Z) | PData (b : nat) | PStatus (i : Z).

Record virtq_desc := mkDesc { daddr : vptr; dlen : Z; dflags : Z; dnext : Z }.
Record virtio_blk_req := mkReq { rtype : Z; reserved : Z; rsector : Z }.

(** struct disk without its lock; of a buffer, the fields that the driver uses. *)
Record vdisk `{VDev} := mkVd {
  qdesc : Z;                  (** the pages of the three structures *)
  qavail : Z;
  qused : Z;
  desc : Z → virtq_desc;
  av_idx : Z;                 (** disk.avail->idx, ring *)
  av_ring : Z → Z;
  us_idx : Z;                 (** disk.used->idx, ring[].id *)
  us_ring : Z → Z;
  vfree : Z → Z;
  used_idx : Z;
  info_b : Z → option nat;
  info_status : Z → Z;
  ops : Z → virtio_blk_req;
  bflag : nat → Z;            (** b->disk *)
  bblk : nat → Z;             (** b->blockno *)
  bytes : nat → memory;       (** b->data *)
  vhw : vdev;
}.
Arguments mkVd {_}.

Section setters.
Context {VD : VDev}.
Definition set_queue (d a u : Z) (s : vdisk) : vdisk :=
  mkVd d a u (desc s) (av_idx s) (av_ring s) (us_idx s) (us_ring s) (vfree s) (used_idx s) (info_b s) (info_status s) (ops s) (bflag s) (bblk s) (bytes s) (vhw s).
Definition set_desc (v : Z → virtq_desc) (s : vdisk) : vdisk :=
  mkVd (qdesc s) (qavail s) (qused s) v (av_idx s) (av_ring s) (us_idx s) (us_ring s) (vfree s) (used_idx s) (info_b s) (info_status s) (ops s) (bflag s) (bblk s) (bytes s) (vhw s).
Definition set_avail (i : Z) (v : Z → Z) (s : vdisk) : vdisk :=
  mkVd (qdesc s) (qavail s) (qused s) (desc s) i v (us_idx s) (us_ring s) (vfree s) (used_idx s) (info_b s) (info_status s) (ops s) (bflag s) (bblk s) (bytes s) (vhw s).
Definition set_used (i : Z) (v : Z → Z) (s : vdisk) : vdisk :=
  mkVd (qdesc s) (qavail s) (qused s) (desc s) (av_idx s) (av_ring s) i v (vfree s) (used_idx s) (info_b s) (info_status s) (ops s) (bflag s) (bblk s) (bytes s) (vhw s).
Definition set_free (v : Z → Z) (s : vdisk) : vdisk :=
  mkVd (qdesc s) (qavail s) (qused s) (desc s) (av_idx s) (av_ring s) (us_idx s) (us_ring s) v (used_idx s) (info_b s) (info_status s) (ops s) (bflag s) (bblk s) (bytes s) (vhw s).
Definition set_used_idx (v : Z) (s : vdisk) : vdisk :=
  mkVd (qdesc s) (qavail s) (qused s) (desc s) (av_idx s) (av_ring s) (us_idx s) (us_ring s) (vfree s) v (info_b s) (info_status s) (ops s) (bflag s) (bblk s) (bytes s) (vhw s).
Definition set_info_b (v : Z → option nat) (s : vdisk) : vdisk :=
  mkVd (qdesc s) (qavail s) (qused s) (desc s) (av_idx s) (av_ring s) (us_idx s) (us_ring s) (vfree s) (used_idx s) v (info_status s) (ops s) (bflag s) (bblk s) (bytes s) (vhw s).
Definition set_info_status (v : Z → Z) (s : vdisk) : vdisk :=
  mkVd (qdesc s) (qavail s) (qused s) (desc s) (av_idx s) (av_ring s) (us_idx s) (us_ring s) (vfree s) (used_idx s) (info_b s) v (ops s) (bflag s) (bblk s) (bytes s) (vhw s).
Definition set_ops (v : Z → virtio_blk_req) (s : vdisk) : vdisk :=
  mkVd (qdesc s) (qavail s) (qused s) (desc s) (av_idx s) (av_ring s) (us_idx s) (us_ring s) (vfree s) (used_idx s) (info_b s) (info_status s) v (bflag s) (bblk s) (bytes s) (vhw s).
Definition set_bflag (v : nat → Z) (s : vdisk) : vdisk :=
  mkVd (qdesc s) (qavail s) (qused s) (desc s) (av_idx s) (av_ring s) (us_idx s) (us_ring s) (vfree s) (used_idx s) (info_b s) (info_status s) (ops s) v (bblk s) (bytes s) (vhw s).
Definition set_bblk (v : nat → Z) (s : vdisk) : vdisk :=
  mkVd (qdesc s) (qavail s) (qused s) (desc s) (av_idx s) (av_ring s) (us_idx s) (us_ring s) (vfree s) (used_idx s) (info_b s) (info_status s) (ops s) (bflag s) v (bytes s) (vhw s).
Definition set_bytes (v : nat → memory) (s : vdisk) : vdisk :=
  mkVd (qdesc s) (qavail s) (qused s) (desc s) (av_idx s) (av_ring s) (us_idx s) (us_ring s) (vfree s) (used_idx s) (info_b s) (info_status s) (ops s) (bflag s) (bblk s) v (vhw s).
Definition set_vhw (v : vdev) (s : vdisk) : vdisk :=
  mkVd (qdesc s) (qavail s) (qused s) (desc s) (av_idx s) (av_ring s) (us_idx s) (us_ring s) (vfree s) (used_idx s) (info_b s) (info_status s) (ops s) (bflag s) (bblk s) (bytes s) v.
End setters.

(** ** Descriptors

    The routines that hold the lock throughout, over any state that contains the
    driver; [wake] is [wakeup] there. *)

Class Driver {VD : VDev} (St : Type) := {
  vd : St → vdisk;
  put_vd : vdisk → St → St;
  wake : channel → M St unit;
}.

Section driver.
Context {VD : VDev} {St : Type} {DR : Driver St}.

Definition vget {A} (g : vdisk → A) : M St A := gets (λ s, g (vd s)).
Definition vmod (g : vdisk → vdisk) : M St unit := modify (λ s, put_vd (g (vd s)) s).

Definition ReadR (r : Z) : M St Z :=
  d ← vget (λ s, read_mmio r (vhw s));
  vmod (set_vhw d.2) ;;
  mret d.1.
Definition WriteR (r v : Z) : M St unit := vmod (λ s, set_vhw (write_mmio r (u32 v) (vhw s)) s).

Fixpoint alloc_from (n : nat) (i : Z) : M St Z :=
  match n with
  | O => mret (-1)
  | S n' =>
      f ← vget (λ s, vfree s i);
      if negb (f =? 0) then
        vmod (λ s, set_free (<[i := 0]> (vfree s)) s) ;;
        mret i
      else alloc_from n' (i + 1)
  end.
Definition alloc_desc : M St Z := alloc_from (Z.to_nat NUM) 0.

Definition free_desc (i : Z) : M St unit :=
  if NUM <=? i then panic "free_desc 1" else
  f ← vget (λ s, vfree s i);
  if negb (f =? 0) then panic "free_desc 2" else
  vmod (λ s, set_desc (<[i := mkDesc PNull 0 0 0]> (desc s)) s) ;;
  vmod (λ s, set_free (<[i := 1]> (vfree s)) s) ;;
  wake ChanFree.

(** A chain has at most [NUM] descriptors. *)
Fixpoint free_chain (fuel : nat) (i : Z) : M St unit :=
  match fuel with
  | O => nofuel
  | S fuel' =>
      d ← vget (λ s, desc s i);
      free_desc i ;;
      if negb (Z.land (dflags d) VRING_DESC_F_NEXT =? 0) then free_chain fuel' (dnext d) else mret tt
  end.

(** The [for] loops of [alloc3_desc]; [idx] is what it has so far. *)
Fixpoint free_all (idx : list Z) : M St unit :=
  match idx with
  | [] => mret tt
  | i :: idx' => free_desc i ;; free_all idx'
  end.
Fixpoint alloc_more (n : nat) (idx : list Z) : M St (option (list Z)) :=
  match n with
  | O => mret (Some idx)
  | S n' =>
      i ← alloc_desc;
      if i <? 0 then free_all idx ;; mret None
      else alloc_more n' (idx ++ [i])
  end.
Definition alloc3_desc : M St (option (list Z)) := alloc_more 3 [].

(** [virtio_disk_rw] from the three descriptors to the entry in the ring. *)
Definition format (b : nat) (write : bool) (sector i0 i1 i2 : Z) : M St unit :=
  vmod (λ s, set_ops (<[i0 := mkReq (if write then VIRTIO_BLK_T_OUT else VIRTIO_BLK_T_IN) 0 sector]> (ops s)) s) ;;
  vmod (λ s, set_desc (<[i0 := mkDesc (POps i0) 16 VRING_DESC_F_NEXT i1]> (desc s)) s) ;;
  vmod (λ s, set_desc (<[i1 := mkDesc (PData b) BSIZE
                 (Z.lor (if write then 0 else VRING_DESC_F_WRITE) VRING_DESC_F_NEXT) i2]> (desc s)) s) ;;
  vmod (λ s, set_info_status (<[i0 := 0xff]> (info_status s)) s) ;;
  vmod (λ s, set_desc (<[i2 := mkDesc (PStatus i0) 1 VRING_DESC_F_WRITE 0]> (desc s)) s) ;;
  vmod (λ s, set_bflag (<[b := 1]> (bflag s)) s) ;;
  vmod (λ s, set_info_b (<[i0 := Some b]> (info_b s)) s) ;;
  vmod (λ s, set_avail (av_idx s) (<[av_idx s mod NUM := i0]> (av_ring s)) s).

(** The entry becomes visible to the device. *)
Definition publish : M St unit := vmod (λ s, set_avail (u16 (av_idx s + 1)) (av_ring s) s).
Definition notify : M St unit := WriteR VIRTIO_MMIO_QUEUE_NOTIFY 0.

(** After the wait. *)
Definition retire (i0 : Z) : M St unit :=
  vmod (λ s, set_info_b (<[i0 := None]> (info_b s)) s) ;;
  free_chain (Z.to_nat NUM) i0.

(** One round of the loop of [virtio_disk_intr].  A null pointer in
    [info[id].b] would be followed. *)
Definition intr_round : M St unit :=
  id ← vget (λ s, us_ring s (used_idx s mod NUM));
  st ← vget (λ s, info_status s id);
  if negb (st =? 0) then panic "virtio_disk_intr status" else
  b ← vget (λ s, info_b s id);
  match b with
  | None => panic "null pointer"
  | Some b =>
      vmod (λ s, set_bflag (<[b := 0]> (bflag s)) s) ;;
      wake (ChanReq b) ;;
      vmod (λ s, set_used_idx (u16 (used_idx s + 1)) s)
  end.

(** At most [NUM] requests are complete. *)
Fixpoint intr_loop (fuel : nat) : M St unit :=
  match fuel with
  | O => nofuel
  | S fuel' =>
      go ← vget (λ s, negb (used_idx s =? us_idx s));
      if go : bool then intr_round ;; intr_loop fuel' else mret tt
  end.
End driver.

(** ** The whole routines *)

Class HasVd {VD : VDev} (fsT : Type) := { vd_of : fsT → vdisk; put_vd_of : vdisk → fsT → fsT }.

Section virtio.
Context {VD : VDev} {fsT : Type} {HV : HasVd fsT} {LY : Layout} {SW : Switch fsT} {PA : Patience}.
Notation K := (kst fsT).

#[export] Instance kernel_driver : Driver K := {|
  vd s := vd_of (fsys s);
  put_vd d s := set_fsys (put_vd_of d (fsys s)) s;
  wake := wakeup;
|}.

(** [while (1) { if (alloc3_desc(idx) == 0) break; sleep(...); }] *)
Fixpoint alloc3_wait (fuel : nat) : M K (list Z) :=
  match fuel with
  | O => nofuel
  | S fuel' =>
      idx ← alloc3_desc;
      match idx with
      | Some idx => mret idx
      | None =>
          sleep ChanFree DiskLock ;;
          alloc3_wait fuel'
      end
  end.

(** [while (b->disk == 1) sleep(b, &disk.vdisk_lock);] *)
Fixpoint wait_done (fuel : nat) (b : nat) : M K unit :=
  match fuel with
  | O => nofuel
  | S fuel' =>
      f ← vget (λ s, bflag s b);
      if f =? 1 then
        sleep (ChanReq b) DiskLock ;;
        wait_done fuel' b
      else mret tt
  end.

Definition virtio_disk_rw (b : nat) (write : bool) : M K unit :=
  n ← vget (λ s, bblk s b);
  let sector := u32 (n * (BSIZE / 512)) in
  acquire DiskLock ;;
  idx ← alloc3_wait (S patience);
  let i0 := nth 0 idx 0 in
  format b write sector i0 (nth 1 idx 0) (nth 2 idx 0) ;;
  publish ;;
  notify ;;
  wait_done (S patience) b ;;
  retire i0 ;;
  release DiskLock.

Definition virtio_disk_intr : M K unit :=
  acquire DiskLock ;;
  st ← ReadR VIRTIO_MMIO_INTERRUPT_STATUS;
  WriteR VIRTIO_MMIO_INTERRUPT_ACK (Z.land st 3) ;;
  intr_loop (S (Z.to_nat NUM)) ;;
  release DiskLock.

(** [~(1 << k)], an int, as a mask of 64 bits. *)
Definition without (k features : Z) : Z := Z.land features (u64 (Z.lnot (Z.shiftl 1 k))).

Definition virtio_disk_init : M K unit :=
  modify (λ s, set_lks (<[DiskLock := initlock]> (lks s)) s) ;;
  magic ← ReadR VIRTIO_MMIO_MAGIC_VALUE;
  if negb (magic =? 0x74726976) then panic "could not find virtio disk" else
  version ← ReadR VIRTIO_MMIO_VERSION;
  if negb (version =? 2) then panic "could not find virtio disk" else
  device ← ReadR VIRTIO_MMIO_DEVICE_ID;
  if negb (device =? 2) then panic "could not find virtio disk" else
  vendor ← ReadR VIRTIO_MMIO_VENDOR_ID;
  if negb (vendor =? 0x554d4551) then panic "could not find virtio disk" else
  let status := 0 in
  WriteR VIRTIO_MMIO_STATUS status ;;
  let status := Z.lor status VIRTIO_CONFIG_S_ACKNOWLEDGE in
  WriteR VIRTIO_MMIO_STATUS status ;;
  let status := Z.lor status VIRTIO_CONFIG_S_DRIVER in
  WriteR VIRTIO_MMIO_STATUS status ;;
  features ← ReadR VIRTIO_MMIO_DEVICE_FEATURES;
  let features := without VIRTIO_BLK_F_RO features in
  let features := without VIRTIO_BLK_F_SCSI features in
  let features := without VIRTIO_BLK_F_CONFIG_WCE features in
  let features := without VIRTIO_BLK_F_MQ features in
  let features := without VIRTIO_F_ANY_LAYOUT features in
  let features := without VIRTIO_RING_F_EVENT_IDX features in
  let features := without VIRTIO_RING_F_INDIRECT_DESC features in
  WriteR VIRTIO_MMIO_DRIVER_FEATURES features ;;
  let status := Z.lor status VIRTIO_CONFIG_S_FEATURES_OK in
  WriteR VIRTIO_MMIO_STATUS status ;;
  status ← ReadR VIRTIO_MMIO_STATUS;
  if Z.land status VIRTIO_CONFIG_S_FEATURES_OK =? 0 then panic "virtio disk FEATURES_OK unset" else
  WriteR VIRTIO_MMIO_QUEUE_SEL 0 ;;
  ready ← ReadR VIRTIO_MMIO_QUEUE_READY;
  if negb (ready =? 0) then panic "virtio disk should not be ready" else
  max ← ReadR VIRTIO_MMIO_QUEUE_NUM_MAX;
  if max =? 0 then panic "virtio disk has no queue 0" else
  if max <? NUM then panic "virtio disk max queue too short" else
  d ← on_mem kalloc;
  a ← on_mem kalloc;
  u ← on_mem kalloc;
  vmod (set_queue d a u) ;;
  if (d =? 0) || (a =? 0) || (u =? 0) then panic "virtio disk kalloc" else
  on_mem (kmemset d 0 PGSIZE) ;;
  on_mem (kmemset a 0 PGSIZE) ;;
  on_mem (kmemset u 0 PGSIZE) ;;
  vmod (set_desc (λ _, mkDesc PNull 0 0 0)) ;;
  vmod (set_avail 0 (λ _, 0)) ;;
  vmod (set_used 0 (λ _, 0)) ;;
  WriteR VIRTIO_MMIO_QUEUE_NUM NUM ;;
  WriteR VIRTIO_MMIO_QUEUE_DESC_LOW d ;;
  WriteR VIRTIO_MMIO_QUEUE_DESC_HIGH (Z.shiftr d 32) ;;
  WriteR VIRTIO_MMIO_DRIVER_DESC_LOW a ;;
  WriteR VIRTIO_MMIO_DRIVER_DESC_HIGH (Z.shiftr a 32) ;;
  WriteR VIRTIO_MMIO_DEVICE_DESC_LOW u ;;
  WriteR VIRTIO_MMIO_DEVICE_DESC_HIGH (Z.shiftr u 32) ;;
  WriteR VIRTIO_MMIO_QUEUE_READY 1 ;;
  for_up (Z.to_nat NUM) 0 1 (λ i, vmod (λ s, set_free (<[i := 1]> (vfree s)) s)) ;;
  let status := Z.lor status VIRTIO_CONFIG_S_DRIVER_OK in
  WriteR VIRTIO_MMIO_STATUS status.
End virtio.
