(* ===== verification/VirtioOps.v ===== *)
(** * The disk driver and the device

    Calls of [virtio_disk_rw], rounds of [virtio_disk_intr] and the device as
    steps that interleave, with the events their users see; the invariant of the
    descriptors and the rings; the refinement of the synchronous transfer that the buffer cache uses. *)

From S2P Require Import Prelude Riscv Memory Kalloc Vm CopyUser Spinlock Proc FsState Sleeplock Virtio.

(** ** The device

    What the driver relies on, from the virtio specification: the device takes
    the entries of the available ring in order and completes the requests it has
    taken in any order.  Of a request that is not a proper chain nothing is
    known.  Requests within the capacity succeed: a device that reports an I/O
    error, on which [virtio_disk_intr] panics, is not one of these. *)

Class BlockDev {VD : VDev} := {
  media : vdev → memory;             (** the sectors of 512 bytes, one after the other *)
  capacity : Z;                      (** in sectors *)
  seen : vdev → Z;                   (** how far it has read the available ring *)
  taken : vdev → list Z;             (** the requests it works on *)
  dstep : vdisk → vdisk → Prop;      (** what it may do *)
}.

Section device.
Context {VD : VDev} {BD : BlockDev}.

(** The chain at [h] asks for a transfer of a block; the status goes to [j]. *)
Definition chain (s : vdisk) (h : Z) (b : nat) (write : bool) (sector j : Z) : Prop :=
  ∃ o i1 i2, desc s h = mkDesc (POps o) 16 VRING_DESC_F_NEXT i1 ∧
    ops s o = mkReq (if write then VIRTIO_BLK_T_OUT else VIRTIO_BLK_T_IN) 0 sector ∧
    desc s i1 = mkDesc (PData b) BSIZE (Z.lor (if write then 0 else VRING_DESC_F_WRITE) VRING_DESC_F_NEXT) i2 ∧
    desc s i2 = mkDesc (PStatus j) 1 VRING_DESC_F_WRITE 0.

Definition takes (s s' : vdisk) : Prop :=
  seen (vhw s) ≠ av_idx s ∧ ∃ hw, s' = set_vhw hw s ∧ media hw = media (vhw s) ∧
    seen hw = u16 (seen (vhw s) + 1) ∧ taken hw = taken (vhw s) ++ [av_ring s (seen (vhw s) mod NUM)].

(** The transfer between a buffer and the medium. *)
Definition moved (b : nat) (write : bool) (sector : Z) (s : vdisk) : memory * (nat → memory) :=
  if write then (store_bytes (media (vhw s)) (sector * 512) (load_bytes (bytes s b) 0 BSIZE), bytes s)
  else (media (vhw s), <[b := store_bytes (bytes s b) 0 (load_bytes (media (vhw s)) (sector * 512) BSIZE)]> (bytes s)).

Definition completes (s s' : vdisk) : Prop :=
  ∃ t1 h t2, taken (vhw s) = t1 ++ h :: t2 ∧
    ∀ b write sector j, chain s h b write sector j → 0 ≤ sector → sector + 2 ≤ capacity →
      ∃ hw, media hw = (moved b write sector s).1 ∧ seen hw = seen (vhw s) ∧ taken hw = t1 ++ t2 ∧
        s' = set_vhw hw (set_used (u16 (us_idx s + 1)) (<[us_idx s mod NUM := h]> (us_ring s))
               (set_info_status (<[j := 0]> (info_status s)) (set_bytes (moved b write sector s).2 s))).
End device.

Class BlockLaws {VD : VDev} (BD : BlockDev) := {
  dev_step s s' : dstep s s' → takes s s' ∨ completes s s';
  (** the queue register only prompts the device *)
  dev_notify v h : let h' := write_mmio VIRTIO_MMIO_QUEUE_NOTIFY v h in
    media h' = media h ∧ seen h' = seen h ∧ taken h' = taken h;
  dev_size : capacity ≤ 2 ^ 32;
}.

(** ** The system *)

(** The driver on its own: waking processes does not touch its state. *)
#[local] Instance alone_driver {VD : VDev} : Driver vdisk := {| vd := id; put_vd d _ := d; wake _ := mret tt |}.

(** The driver, the buffer whose request is in the ring but not yet visible
    (its process holds the lock), and for each buffer in a call of
    [virtio_disk_rw] that has its descriptors the direction and idx[0]. *)
Record dsys {VD : VDev} := mkSys { drv : vdisk; formatting : option nat; calls : gmap nat (bool * Z) }.
Arguments mkSys {_}.

(** What the users of the disk see: a call of [virtio_disk_rw] for a buffer and
    the block it is of, the return of the call, and that the owner of a buffer
    gave it to a block and filled it. *)
Inductive event :=
  | Called (b : nat) (write : bool) (n : Z)
  | Returned (b : nat) (write : bool)
  | Filled (b : nat) (n : Z) (d : memory).

(** The events of a run; a step without one is internal. *)
Inductive run {X} (step : option event → X → X → Prop) : list event → X → X → Prop :=
  | run_nil x : run step [] x x
  | run_step l t x y z : step l x y → run step t y z → run step (option_list l ++ t) x z.

Lemma run_app {X} (step : option event → X → X → Prop) t1 t2 x y z :
  run step t1 x y → run step t2 y z → run step (t1 ++ t2) x z.
Proof. induction 1 as [|l t x y y' St _ IH]; [done|]. intros R. rewrite <-app_assoc. eapply run_step; [exact St|auto]. Qed.
Lemma run_one {X} (step : option event → X → X → Prop) l x y : step l x y → run step (option_list l) x y.
Proof. intros St. rewrite <-(app_nil_r (option_list l)). eapply run_step; [exact St|constructor]. Qed.

Section system.
Context {VD : VDev} {BD : BlockDev}.

Inductive vstep : option event → dsys → dsys → Prop :=
  (** a call gets its descriptors, fills them in and enters them into the ring *)
  | call_step s c b write i0 i1 i2 s1 s2 :
      c !! b = None → alloc3_desc s = Ok (Some [i0; i1; i2], s1) →
      format b write (u32 (bblk s b * (BSIZE / 512))) i0 i1 i2 s1 = Ok (tt, s2) →
      vstep (Some (Called b write (bblk s b))) (mkSys s None c) (mkSys s2 (Some b) (<[b := (write, i0)]> c))
  (** it finds too few descriptors and sleeps *)
  | wait_step s c s1 :
      alloc3_desc s = Ok (None, s1) → vstep None (mkSys s None c) (mkSys s1 None c)
  (** it makes the request visible, and waits *)
  | publish_step s c b s1 s2 :
      publish s = Ok (tt, s1) → notify s1 = Ok (tt, s2) → vstep None (mkSys s (Some b) c) (mkSys s2 None c)
  | device_step s f c s1 :
      dstep s s1 → vstep None (mkSys s f c) (mkSys s1 f c)
  | intr_step s c s1 :
      used_idx s ≠ us_idx s → intr_round s = Ok (tt, s1) → vstep None (mkSys s None c) (mkSys s1 None c)
  (** it sees that the request is done, and returns *)
  | return_step s c b write i0 s1 :
      c !! b = Some (write, i0) → bflag s b ≠ 1 → retire i0 s = Ok (tt, s1) →
      vstep (Some (Returned b write)) (mkSys s None c) (mkSys s1 None (delete b c))
  (** the owner of a buffer fills it or gives it to another block *)
  | client_step s f c b n d :
      c !! b = None → 0 ≤ n → n * 2 + 2 ≤ capacity →
      vstep (Some (Filled b n d)) (mkSys s f c) (mkSys (set_bblk (<[b := n]> (bblk s)) (set_bytes (<[b := d]> (bytes s)) s)) f c).

(** Any step. *)
Definition any_step (x y : dsys) : Prop := ∃ l, vstep l x y.

Lemma run_steps t x y : run vstep t x y → rtc any_step x y.
Proof. induction 1 as [|l t x y z St _ IH]; [done|]. eapply rtc_l; [by exists l|done]. Qed.

(** After [virtio_disk_init]: nothing in the rings, every descriptor free. *)
Record vinit (x : dsys) : Prop := {
  vi_calls : calls x = ∅;
  vi_lock : formatting x = None;
  vi_free i : 0 ≤ i < NUM → vfree (drv x) i = 1;
  vi_av : av_idx (drv x) = seen (vhw (drv x));
  vi_seen : 0 ≤ seen (vhw (drv x)) < 2 ^ 16;
  vi_taken : taken (vhw (drv x)) = [];
  vi_us : us_idx (drv x) = used_idx (drv x);
  vi_used : 0 ≤ used_idx (drv x) < 2 ^ 16;
  vi_blk b : 0 ≤ bblk (drv x) b ∧ bblk (drv x) b * 2 + 2 ≤ capacity;
}.

(** ** The invariant *)

(** A request: its descriptors, buffer and direction. *)
Record req := mkR { r0 : Z; r1 : Z; r2 : Z; rb : nat; rw : bool }.
#[export] Instance req_eq_dec : EqDecision req.
Proof. solve_decision. Defined.
Definition idxs (r : req) : list Z := [r0 r; r1 r; r2 r].

Definition formatted (s : vdisk) (r : req) : Prop :=
  desc s (r0 r) = mkDesc (POps (r0 r)) 16 VRING_DESC_F_NEXT (r1 r) ∧
  ops s (r0 r) = mkReq (if rw r then VIRTIO_BLK_T_OUT else VIRTIO_BLK_T_IN) 0 (u32 (bblk s (rb r) * 2)) ∧
  desc s (r1 r) = mkDesc (PData (rb r)) BSIZE (Z.lor (if rw r then 0 else VRING_DESC_F_WRITE) VRING_DESC_F_NEXT) (r2 r) ∧
  desc s (r2 r) = mkDesc (PStatus (r0 r)) 1 VRING_DESC_F_WRITE 0.

(** The requests in flight own their descriptors; the others are free. *)
Record owns (l : list req) (s : vdisk) (c : gmap nat (bool * Z)) : Prop := {
  ow_idxs : NoDup (l ≫= idxs);
  ow_bufs : NoDup (rb <$> l);
  ow_range i : i ∈ l ≫= idxs → 0 ≤ i < NUM;
  ow_free i : 0 ≤ i < NUM → vfree s i = if decide (i ∈ l ≫= idxs) then 0 else 1;
  ow_fmt r : r ∈ l → formatted s r;
  ow_info r : r ∈ l → info_b s (r0 r) = Some (rb r);
  ow_calls b v : c !! b = Some v ↔ ∃ r, r ∈ l ∧ rb r = b ∧ v = (rw r, r0 r);
  ow_blk b : 0 ≤ bblk s b ∧ bblk s b * 2 + 2 ≤ capacity;
}.

(** Where the requests are: in the available ring, in the device, in the used
    ring, or acknowledged. *)
Record rings (p : option req) (A T U D : list req) (s : vdisk) : Prop := {
  rg_seen : 0 ≤ seen (vhw s) < 2 ^ 16;
  rg_av : av_idx s = u16 (seen (vhw s) + Z.of_nat (length A));
  rg_ring k r : A !! k = Some r → av_ring s ((seen (vhw s) + Z.of_nat k) mod NUM) = r0 r;
  rg_next r : p = Some r → av_ring s (av_idx s mod NUM) = r0 r;
  rg_taken : taken (vhw s) = r0 <$> T;
  rg_used : 0 ≤ used_idx s < 2 ^ 16;
  rg_us : us_idx s = u16 (used_idx s + Z.of_nat (length U));
  rg_usring k r : U !! k = Some r → us_ring s ((used_idx s + Z.of_nat k) mod NUM) = r0 r;
  rg_ok r : r ∈ U → info_status s (r0 r) = 0;
  rg_wait r : r ∈ option_list p ++ A ++ T ++ U → bflag s (rb r) = 1;
  rg_done r : r ∈ D → bflag s (rb r) = 0;
}.

Definition flight (p : option req) (A T U D : list req) : list req := option_list p ++ A ++ T ++ U ++ D.

(** ** Running the routines *)

Lemma vget_bind {A B} (g : vdisk → A) (k : A → M vdisk B) s : (vget g ≫= k) s = k (g s) s.
Proof. done. Qed.
Lemma vmod_bind {B} (g : vdisk → vdisk) (k : unit → M vdisk B) s : (vmod g ≫= k) s = k tt (g s).
Proof. done. Qed.
Lemma bind_Ok {A B} (m : M vdisk A) (k : A → M vdisk B) s a s1 : m s = Ok (a, s1) → (m ≫= k) s = k a s1.
Proof. intros E. unfold mbind, M_bind. by rewrite E. Qed.

(** ** Descriptors *)

Lemma idxs_0 r : r0 r ∈ idxs r.
Proof. left. Qed.
Lemma idxs_1 r : r1 r ∈ idxs r.
Proof. right. left. Qed.
Lemma idxs_2 r : r2 r ∈ idxs r.
Proof. right. right. left. Qed.
#[local] Hint Resolve idxs_0 idxs_1 idxs_2 : core.

Lemma owns_perm l l' s c : l ≡ₚ l' → owns l s c → owns l' s c.
Proof.
  intros E [o1 o2 o3 o4 o5 o6 o7 o8].
  assert (∀ i, i ∈ l' ≫= idxs ↔ i ∈ l ≫= idxs) as Hi by (intros i; by rewrite E).
  assert (∀ r, r ∈ l' ↔ r ∈ l) as Hr by (intros r; by rewrite E).
  split; try done.
  - by rewrite <-E.
  - by rewrite <-E.
  - intros i. rewrite Hi. apply o3.
  - intros i Hr'. rewrite (o4 i Hr'). by apply decide_ext.
  - intros r. rewrite Hr. apply o5.
  - intros r. rewrite Hr. apply o6.
  - intros b v. rewrite o7. by setoid_rewrite Hr.
Qed.

(** What [owns] depends on. *)
Lemma owns_same l s s' c :
  (∀ i, 0 ≤ i < NUM → vfree s' i = vfree s i) → (∀ i, i ∈ l ≫= idxs → desc s' i = desc s i) → ops s' = ops s → info_b s' = info_b s →
  bblk s' = bblk s → owns l s c → owns l s' c.
Proof.
  intros Ef Ed Eo Ei Eb [o1 o2 o3 o4 o5 o6 o7 o8]. split; try done.
  - intros i Hi. rewrite Ef by done. by apply o4.
  - intros r Hr. unfold formatted. rewrite Eo, Eb, !Ed by (apply list_elem_of_bind; by exists r). by apply o5.
  - intros r Hr. rewrite Ei. by apply o6.
  - intros b. by rewrite Eb.
Qed.

Lemma length_idxs l : length (l ≫= idxs) = (3 * length l)%nat.
Proof. induction l as [|r l IH]; [done|]. cbn. rewrite IH. lia. Qed.

(** There are at most two requests. *)
Lemma owns_few l s c : owns l s c → (length l ≤ 2)%nat.
Proof.
  intros O. pose proof (length_idxs l) as El. assert (l ≫= idxs ⊆+ seqZ 0 NUM) as Hs%submseteq_length.
  { apply NoDup_submseteq; [apply O|]. intros i Hi. apply elem_of_seqZ. pose proof (ow_range _ _ _ O i Hi). lia. }
  rewrite length_seqZ in Hs. change (Z.to_nat NUM) with 8%nat in Hs. lia.
Qed.

Lemma alloc_from_run n i s :
  (∃ j, i ≤ j < i + Z.of_nat n ∧ vfree s j ≠ 0 ∧ alloc_from n i s = Ok (j, set_free (<[j := 0]> (vfree s)) s)) ∨
  (∀ j, i ≤ j < i + Z.of_nat n → vfree s j = 0) ∧ alloc_from n i s = Ok (-1, s).
Proof.
  revert i. induction n as [|n IH]; intros i; [right; split; [lia|done]|].
  assert (alloc_from (S n) i s = if negb (vfree s i =? 0) then Ok (i, set_free (<[i := 0]> (vfree s)) s) else alloc_from n (i + 1) s) as ->
    by (cbn [alloc_from]; rewrite vget_bind; by destruct (vfree s i =? 0)).
  destruct (Z.eqb_spec (vfree s i) 0) as [E|E]; cbn [negb].
  - destruct (IH (i + 1)) as [(j & Hj & Hf & Er)|[Hz Er]]; [left; exists j; split; [lia|done]|right; split; [|done]].
    intros j Hj. destruct (decide (j = i)) as [->|]; [done|]. apply Hz. lia.
  - left. exists i. split; [lia|done].
Qed.

(** [s] is [s0] with the descriptors [idx] taken, and some free ones cleared. *)
Record held (s0 : vdisk) (idx : list Z) (s : vdisk) : Prop := {
  hd_state : s = set_free (vfree s) (set_desc (desc s) s0);
  hd_free i : 0 ≤ i < NUM → vfree s i = if decide (i ∈ idx) then 0 else vfree s0 i;
  hd_desc i : 0 ≤ i < NUM → vfree s0 i = 0 → desc s i = desc s0 i;
  hd_nodup : NoDup idx;
  hd_range i : i ∈ idx → 0 ≤ i < NUM ∧ vfree s0 i = 1;
}.

Lemma free_desc_run i s :
  0 ≤ i < NUM → vfree s i = 0 →
  free_desc i s = Ok (tt, set_free (<[i := 1]> (vfree s)) (set_desc (<[i := mkDesc PNull 0 0 0]> (desc s)) s)).
Proof. intros Hi Hf. unfold free_desc. rewrite (proj2 (Z.leb_gt NUM i)) by lia. by rewrite vget_bind, Hf. Qed.

Lemma held_free s0 i idx s : held s0 (i :: idx) s →
  held s0 idx (set_free (<[i := 1]> (vfree s)) (set_desc (<[i := mkDesc PNull 0 0 0]> (desc s)) s)).
Proof.
  intros [h1 h2 h3 h4 h5]. apply NoDup_cons in h4 as [Hi Hn]. destruct (h5 i ltac:(left)) as [Hr H1]. split; cbn [vfree desc set_free set_desc].
  - rewrite h1. done.
  - intros j Hj. destruct (decide (i = j)) as [<-|Hne]; [rewrite fn_lookup_insert, decide_False by done; by symmetry|].
    rewrite fn_lookup_insert_ne by done. rewrite h2 by done. apply decide_ext. rewrite elem_of_cons. naive_solver.
  - intros j Hj Hf. rewrite fn_lookup_insert_ne by congruence. by apply h3.
  - done.
  - intros j Hj. apply h5. by right.
Qed.

Lemma free_all_run s0 idx s : held s0 idx s → ∃ s1, free_all idx s = Ok (tt, s1) ∧ held s0 [] s1.
Proof.
  revert s. induction idx as [|i idx IH]; intros s Hh; [by exists s|]. cbn [free_all].
  destruct (hd_range _ _ _ Hh i ltac:(left)) as [Hr _]. assert (vfree s i = 0) as Hf by (rewrite (hd_free _ _ _ Hh i Hr), decide_True by left; done).
  destruct (IH _ (held_free _ _ _ _ Hh)) as (s1 & E & H1). exists s1. split; [|done]. by rewrite (bind_Ok _ _ _ _ _ (free_desc_run i s Hr Hf)).
Qed.

Lemma alloc_more_run s0 n idx s :
  (∀ i, 0 ≤ i < NUM → vfree s0 i = 0 ∨ vfree s0 i = 1) → held s0 idx s →
  (∃ idx' s1, alloc_more n idx s = Ok (Some idx', s1) ∧ held s0 idx' s1 ∧ length idx' = (length idx + n)%nat) ∨
  (∃ s1, alloc_more n idx s = Ok (None, s1) ∧ held s0 [] s1).
Proof.
  intros Hb. revert idx s. induction n as [|n IH]; intros idx s Hh; [left; exists idx, s; split; [done|]; split; [done|lia]|].
  cbn [alloc_more]. destruct (alloc_from_run (Z.to_nat NUM) 0 s) as [(j & Hj & Hf & Ea)|[Hz Ea]]; rewrite (bind_Ok alloc_desc _ _ _ _ Ea).
  - change (0 + Z.of_nat (Z.to_nat NUM)) with NUM in Hj. rewrite (proj2 (Z.ltb_ge j 0)) by lia. rewrite (hd_free _ _ _ Hh j Hj) in Hf. case_decide as Hin; [done|].
    destruct (IH (idx ++ [j]) (set_free (<[j := 0]> (vfree s)) s)) as [(idx' & s1 & E & H1 & Hl)|H1]; [| |by right].
    + destruct Hh as [h1 h2 h3 h4 h5]. split; cbn [vfree desc set_free set_desc].
      * rewrite h1. done.
      * intros i Hi. destruct (decide (j = i)) as [<-|Hne]; [rewrite fn_lookup_insert, decide_True by set_solver; done|].
        rewrite fn_lookup_insert_ne by done. rewrite h2 by done. apply decide_ext. rewrite elem_of_app, list_elem_of_singleton. naive_solver.
      * done.
      * apply NoDup_app. split; [done|]. split; [|apply NoDup_singleton]. set_solver.
      * intros i [Hi| ->%list_elem_of_singleton]%elem_of_app; [by apply h5|]. split; [done|]. destruct (Hb j Hj); [done|done].
    + left. exists idx', s1. split; [done|]. split; [done|]. rewrite length_app in Hl. simpl in Hl. lia.
  - right. cbn [Z.ltb Z.compare]. destruct (free_all_run _ _ _ Hh) as (s1 & E & H1). exists s1. by rewrite (bind_Ok _ _ _ _ _ E).
Qed.

Lemma owns_bits l s c i : owns l s c → 0 ≤ i < NUM → vfree s i = 0 ∨ vfree s i = 1.
Proof. intros O Hi. rewrite (ow_free _ _ _ O i Hi). case_decide; auto. Qed.

Lemma held_start s : held s [] s.
Proof. split; [by destruct s|done|done|apply NoDup_nil_2|set_solver]. Qed.

(** Too few descriptors: nothing is lost. *)
Lemma owns_released l s c s1 : owns l s c → held s [] s1 → owns l s1 c.
Proof.
  intros O [h1 h2 h3 _ _]. apply (owns_same l s); [exact h2| |by rewrite h1|by rewrite h1|by rewrite h1|done].
  intros i Hi. pose proof (ow_range _ _ _ O i Hi). apply h3; [done|]. rewrite (ow_free _ _ _ O) by done. by rewrite decide_True.
Qed.

Definition format_state (b : nat) (write : bool) (sector i0 i1 i2 : Z) (s : vdisk) : vdisk :=
  set_avail (av_idx s) (<[av_idx s mod NUM := i0]> (av_ring s))
  (set_info_b (<[i0 := Some b]> (info_b s)) (set_bflag (<[b := 1]> (bflag s)) (set_info_status (<[i0 := 0xff]> (info_status s))
  (set_ops (<[i0 := mkReq (if write then VIRTIO_BLK_T_OUT else VIRTIO_BLK_T_IN) 0 sector]> (ops s))
  (set_desc (<[i2 := mkDesc (PStatus i0) 1 VRING_DESC_F_WRITE 0]>
    (<[i1 := mkDesc (PData b) BSIZE (Z.lor (if write then 0 else VRING_DESC_F_WRITE) VRING_DESC_F_NEXT) i2]>
    (<[i0 := mkDesc (POps i0) 16 VRING_DESC_F_NEXT i1]> (desc s)))) s))))).

Lemma format_run b write sector i0 i1 i2 s : format b write sector i0 i1 i2 s = Ok (tt, format_state b write sector i0 i1 i2 s).
Proof. by destruct s. Qed.

Lemma formatted_new b write i0 i1 i2 s :
  NoDup [i0; i1; i2] → formatted (format_state b write (u32 (bblk s b * 2)) i0 i1 i2 s) (mkR i0 i1 i2 b write).
Proof.
  intros (H0 & (H1 & _)%NoDup_cons)%NoDup_cons. assert (i0 ≠ i1 ∧ i0 ≠ i2 ∧ i1 ≠ i2) as (? & ? & ?) by set_solver.
  unfold formatted. cbn. rewrite !fn_lookup_insert, !fn_lookup_insert_ne, !fn_lookup_insert by done. split_and!; try done.
  by rewrite fn_lookup_insert_ne, fn_lookup_insert by done.
Qed.

Lemma formatted_old b write sector i0 i1 i2 s r :
  i0 ∉ idxs r → i1 ∉ idxs r → i2 ∉ idxs r → formatted s r → formatted (format_state b write sector i0 i1 i2 s) r.
Proof.
  intros H0 H1 H2 Hf. unfold formatted, idxs in *. cbn.
  rewrite !fn_lookup_insert_ne by (intros ->; set_solver). exact Hf.
Qed.

(** A call takes three free descriptors. *)
Lemma owns_call l s c b write i0 i1 i2 s1 :
  owns l s c → c !! b = None → held s [i0; i1; i2] s1 →
  owns (mkR i0 i1 i2 b write :: l) (format_state b write (u32 (bblk s b * 2)) i0 i1 i2 s1) (<[b := (write, i0)]> c).
Proof.
  intros O Hb Hh. pose proof O as [o1 o2 o3 o4 o5 o6 o7 o8]. destruct Hh as [h1 h2 h3 h4 h5].
  assert (∀ i, i ∈ [i0; i1; i2] → i ∉ l ≫= idxs) as Hout.
  { intros i Hi Hl. destruct (h5 i Hi) as [Hr H1]. rewrite (o4 i Hr), decide_True in H1 by done. done. }
  assert (bblk s1 = bblk s) as Eb by (by rewrite h1).
  assert (∀ r, r ∈ l → rb r ≠ b) as Hne.
  { intros r Hr <-. assert (c !! rb r = Some (rw r, r0 r)) as E by (apply o7; eauto). congruence. }
  assert (∀ r i, r ∈ l → i ∈ idxs r → i ∈ l ≫= idxs) as Hin by (intros r i Hr Hi; apply list_elem_of_bind; eauto).
  split.
  - change ((mkR i0 i1 i2 b write :: l) ≫= idxs) with ([i0; i1; i2] ++ (l ≫= idxs)). by apply NoDup_app.
  - rewrite fmap_cons. apply NoDup_cons. split; [|done]. intros (r & E & Hr)%list_elem_of_fmap. by apply (Hne r).
  - change ((mkR i0 i1 i2 b write :: l) ≫= idxs) with ([i0; i1; i2] ++ (l ≫= idxs)). intros i [Hi|Hi]%elem_of_app; [by apply h5|by apply o3].
  - change ((mkR i0 i1 i2 b write :: l) ≫= idxs) with ([i0; i1; i2] ++ (l ≫= idxs)). intros i Hi. cbn [vfree format_state set_avail set_info_b set_bflag set_info_status set_ops set_desc].
    rewrite h2, o4 by done. destruct (decide (i ∈ [i0; i1; i2])) as [Hi'|Hi'].
    + by rewrite decide_True by (apply elem_of_app; by left).
    + apply decide_ext. rewrite elem_of_app. tauto.
  - intros r [->|Hr]%elem_of_cons; [rewrite <-Eb; by apply formatted_new|]. apply formatted_old.
    1-3: intros Hi; eapply Hout; [|exact (Hin r _ Hr Hi)]; set_solver.
    pose proof (o5 r Hr) as (f1 & f2 & f3 & f4). pose proof (λ i Hi, ow_range _ _ _ O i (Hin r i Hr Hi)) as Hrr.
    assert (∀ i, i ∈ idxs r → desc s1 i = desc s i) as Ed.
    { intros i Hi. apply h3; [by apply Hrr|]. rewrite o4 by (by apply Hrr). by rewrite decide_True by eauto. }
    unfold formatted. rewrite Eb, !Ed by done. assert (ops s1 = ops s) as -> by (by rewrite h1). done.
  - intros r [->|Hr]%elem_of_cons; cbn; [by rewrite fn_lookup_insert|]. rewrite fn_lookup_insert_ne.
    + assert (info_b s1 = info_b s) as -> by (by rewrite h1). by apply o6.
    + intros E. apply (Hout i0 ltac:(set_solver)). rewrite E. by apply (Hin r).
  - intros b' v. destruct (decide (b = b')) as [<-|Hbb].
    + rewrite lookup_insert_eq. split; [intros [= <-]; exists (mkR i0 i1 i2 b write); split; [left|done]|].
      intros (r & [->|Hr]%elem_of_cons & E & ->); [done|]. by destruct (Hne r Hr).
    + rewrite lookup_insert_ne by done. rewrite o7. split; [intros (r & Hr & E); exists r; split; [by right|done]|].
      intros (r & [->|Hr]%elem_of_cons & E & ->); [done|]. eauto.
  - intros b'. cbn. rewrite Eb. apply o8.
Qed.

Definition null_desc : virtq_desc := mkDesc PNull 0 0 0.
Definition retire_state (r : req) (s : vdisk) : vdisk :=
  set_free (<[r2 r := 1]> (<[r1 r := 1]> (<[r0 r := 1]> (vfree s))))
  (set_desc (<[r2 r := null_desc]> (<[r1 r := null_desc]> (<[r0 r := null_desc]> (desc s))))
  (set_info_b (<[r0 r := None]> (info_b s)) s)).

Lemma idxs_distinct r l : NoDup ((r :: l) ≫= idxs) → r0 r ≠ r1 r ∧ r0 r ≠ r2 r ∧ r1 r ≠ r2 r ∧ ∀ i, i ∈ idxs r → i ∉ l ≫= idxs.
Proof.
  intros Hn. change ((r :: l) ≫= idxs) with (idxs r ++ (l ≫= idxs)) in Hn.
  apply NoDup_app in Hn as ((H0 & (H1 & _)%NoDup_cons)%NoDup_cons & Hd & _).
  rewrite !not_elem_of_cons in H0. rewrite !not_elem_of_cons in H1. split_and!; [apply H0|apply H0|apply H1|exact Hd].
Qed.

Lemma retire_run r l s c : owns (r :: l) s c → retire (r0 r) s = Ok (tt, retire_state r s).
Proof.
  intros O. destruct (idxs_distinct r l (ow_idxs _ _ _ O)) as (H01 & H02 & H12 & _).
  assert (∀ i, i ∈ idxs r → 0 ≤ i < NUM ∧ vfree s i = 0) as Hi.
  { intros i Hi. assert (i ∈ (r :: l) ≫= idxs) as Hin by (apply elem_of_app; by left). pose proof (ow_range _ _ _ O i Hin) as Hr.
    split; [done|]. rewrite (ow_free _ _ _ O i Hr). by rewrite decide_True. }
  destruct (Hi (r0 r)) as [R0 F0], (Hi (r1 r)) as [R1 F1], (Hi (r2 r)) as [R2 F2]; try done.
  destruct (ow_fmt _ _ _ O r ltac:(left)) as (f1 & _ & f3 & f4).
  unfold retire. rewrite vmod_bind. change (Z.to_nat NUM) with 8%nat. cbn [free_chain].
  rewrite vget_bind. cbn [desc set_info_b]. rewrite f1. rewrite (bind_Ok _ _ _ _ _ (free_desc_run _ (set_info_b _ s) R0 F0)).
  cbn [dflags dnext]. change (negb (Z.land VRING_DESC_F_NEXT VRING_DESC_F_NEXT =? 0)) with true. cbv iota. rewrite vget_bind. cbn [desc set_free set_desc set_info_b]. rewrite fn_lookup_insert_ne, f3 by done.
  erewrite (bind_Ok (free_desc (r1 r))) by (apply free_desc_run; [done|cbn; by rewrite fn_lookup_insert_ne]).
  cbn [dflags dnext]. replace (negb _) with true by (by destruct (rw r)). rewrite vget_bind. cbn [desc set_free set_desc set_info_b].
  rewrite !fn_lookup_insert_ne, f4 by done.
  erewrite (bind_Ok (free_desc (r2 r))) by (apply free_desc_run; [done|cbn; by rewrite !fn_lookup_insert_ne]). done.
Qed.

(** A call that is over gives its descriptors back. *)
Lemma owns_return r l s c : owns (r :: l) s c → owns l (retire_state r s) (delete (rb r) c).
Proof.
  intros O. destruct (idxs_distinct r l (ow_idxs _ _ _ O)) as (H01 & H02 & H12 & Hd).
  assert (∀ r' i, r' ∈ l → i ∈ idxs r' → i ≠ r0 r ∧ i ≠ r1 r ∧ i ≠ r2 r) as Hne.
  { intros r' i Hr' Hi. assert (i ∈ l ≫= idxs) as Hin by (apply list_elem_of_bind; eauto).
    split_and!; intros ->; (eapply Hd; [|exact Hin]); done. }
  assert (∀ r', r' ∈ l → rb r' ≠ rb r) as Hb.
  { intros r' Hr' E. pose proof (ow_bufs _ _ _ O) as Hn. rewrite fmap_cons in Hn. apply NoDup_cons in Hn as [Hn _]. apply Hn. rewrite <-E. by apply list_elem_of_fmap_2. }
  pose proof O as [o1 o2 o3 o4 o5 o6 o7 o8]. split.
  - change ((r :: l) ≫= idxs) with (idxs r ++ (l ≫= idxs)) in o1. by apply NoDup_app in o1 as (_ & _ & ?).
  - rewrite fmap_cons in o2. by apply NoDup_cons in o2 as [_ ?].
  - intros i Hi. apply o3. apply elem_of_app. by right.
  - intros i Hi. cbn [vfree retire_state set_free]. specialize (o4 i Hi). change ((r :: l) ≫= idxs) with (idxs r ++ (l ≫= idxs)) in o4.
    destruct (decide (i ∈ idxs r)) as [Hr|Hr].
    + rewrite (decide_False (P := i ∈ l ≫= idxs)) by (by apply Hd). unfold idxs in Hr.
      destruct (decide (r2 r = i)) as [->|]; [by rewrite fn_lookup_insert|]. rewrite fn_lookup_insert_ne by done.
      destruct (decide (r1 r = i)) as [->|]; [by rewrite fn_lookup_insert|]. rewrite fn_lookup_insert_ne by done.
      destruct (decide (r0 r = i)) as [->|]; [by rewrite fn_lookup_insert|]. set_solver.
    + rewrite !fn_lookup_insert_ne by (intros <-; by apply Hr). rewrite o4. apply decide_ext. rewrite elem_of_app. tauto.
  - intros r' Hr'. unfold formatted, retire_state. cbn. pose proof (Hne r' (r0 r') Hr' ltac:(done)).
    pose proof (Hne r' (r1 r') Hr' ltac:(done)). pose proof (Hne r' (r2 r') Hr' ltac:(done)).
    rewrite !fn_lookup_insert_ne by naive_solver. apply o5. by right.
  - intros r' Hr'. cbn. pose proof (Hne r' (r0 r') Hr' ltac:(done)). rewrite fn_lookup_insert_ne by naive_solver. apply o6. by right.
  - intros b v. destruct (decide (rb r = b)) as [<-|Hbb].
    + rewrite lookup_delete_eq. split; [done|]. intros (r' & Hr' & E & _). by destruct (Hb r' Hr').
    + rewrite lookup_delete_ne, o7 by done. split; [|intros (r' & Hr' & E); exists r'; split; [by right|done]].
      intros (r' & [->|Hr']%elem_of_cons & E & Ev); [done|]. eauto.
  - intros b. apply o8.
Qed.

(** ** Rings *)

Lemma owns_head r l s c r' : owns (r :: l) s c → r' ∈ l → rb r' ≠ rb r ∧ r0 r' ≠ r0 r.
Proof.
  intros O Hr'. destruct (idxs_distinct r l (ow_idxs _ _ _ O)) as (_ & _ & _ & Hd). pose proof (ow_bufs _ _ _ O) as Hn.
  rewrite fmap_cons in Hn. apply NoDup_cons in Hn as [Hn _]. split.
  - intros E. apply Hn. rewrite <-E. by apply list_elem_of_fmap_2.
  - intros E. apply (Hd (r0 r) (idxs_0 r)). rewrite <-E. apply list_elem_of_bind. by exists r'.
Qed.

Lemma u16_slot x : u16 x mod NUM = x mod NUM.
Proof. unfold u16, NUM. dlia. Qed.
Lemma ring_slot_inj x i j : 0 ≤ i < NUM → 0 ≤ j < NUM → (x + i) mod NUM = (x + j) mod NUM → i = j.
Proof. unfold NUM. dlia. Qed.

(** The parts of the state that the rings depend on, when the rest changes. *)
Lemma rings_held p A T U D s idx s1 : held s idx s1 → rings p A T U D s → rings p A T U D s1.
Proof. intros [-> _ _ _ _] [? ? ? ? ? ? ? ? ? ? ?]. by split. Qed.

Lemma rings_call A T U D s c b write sector i0 i1 i2 :
  let r := mkR i0 i1 i2 b write in
  owns (r :: flight None A T U D) (format_state b write sector i0 i1 i2 s) c → rings None A T U D s →
  rings (Some r) A T U D (format_state b write sector i0 i1 i2 s).
Proof.
  intros r O [g1 g2 g3 g4 g5 g6 g7 g8 g9 g10 g11]. pose proof (owns_few _ _ _ O) as Hf. unfold flight in Hf.
  cbn [length option_list app] in Hf. rewrite !length_app in Hf.
  assert (∀ r', r' ∈ A ++ T ++ U ++ D → rb r' ≠ b ∧ i0 ≠ r0 r') as Hd by (intros r' Hr'; destruct (owns_head r _ _ _ r' O Hr') as [? E]; split; [done|by apply not_eq_sym]).
  split; cbn -[NUM]; try done.
  - intros k r' Hk. pose proof (lookup_lt_Some _ _ _ Hk). rewrite fn_lookup_insert_ne; [auto|]. rewrite g2, u16_slot.
    intros E%ring_slot_inj; unfold NUM in *; lia.
  - intros r' [= <-]. by rewrite fn_lookup_insert.
  - intros r' Hr'. rewrite fn_lookup_insert_ne; [auto|]. apply Hd. set_solver.
  - intros r' [->|Hr']%elem_of_cons; [by rewrite fn_lookup_insert|]. rewrite fn_lookup_insert_ne; [auto|]. apply not_eq_sym, Hd. set_solver.
  - intros r' Hr'. rewrite fn_lookup_insert_ne; [auto|]. apply not_eq_sym, Hd. set_solver.
Qed.

(** A change of the device that keeps what the rings are about. *)
Lemma rings_publish {BL : BlockLaws BD} r A T U D s v :
  (length A ≤ 2)%nat → rings (Some r) A T U D s →
  rings None (A ++ [r]) T U D (set_vhw (write_mmio VIRTIO_MMIO_QUEUE_NOTIFY v (vhw s)) (set_avail (u16 (av_idx s + 1)) (av_ring s) s)).
Proof.
  intros Hf [g1 g2 g3 g4 g5 g6 g7 g8 g9 g10 g11]. destruct (dev_notify v (vhw s)) as (_ & Es & Et). split; cbn -[NUM write_mmio]; rewrite ?Es, ?Et; try done.
  - rewrite g2, length_app, Nat2Z.inj_add. cbn [length]. unfold u16. dlia.
  - intros k r' [Hk|[Hk Hr]]%lookup_app_Some; [auto|]. destruct (k - length A)%nat eqn:Ek; [|done]. injection Hr as <-.
    specialize (g4 r eq_refl). rewrite g2, u16_slot in g4. rewrite <-g4. do 3 f_equal. lia.
  - intros r' Hr'. apply g10. cbn [option_list app] in *. set_solver.
Qed.

Lemma rings_take p A T U D s s' c :
  owns (flight p A T U D) s c → rings p A T U D s → takes s s' →
  ∃ r A', A = r :: A' ∧ rings p A' (T ++ [r]) U D s'.
Proof.
  intros O [g1 g2 g3 g4 g5 g6 g7 g8 g9 g10 g11] (Hne & hw & -> & _ & Es & Et). destruct A as [|r A].
  { rewrite g2, Z.add_0_r in Hne. unfold u16 in Hne. rewrite Z.mod_small in Hne; done. }
  exists r, A. split; [done|]. pose proof (g3 0%nat r eq_refl) as E0. rewrite Z.add_0_r in E0.
  split; cbn -[NUM]; rewrite ?Es; try done.
  - unfold u16. dlia.
  - rewrite g2. cbn [length]. unfold u16. dlia.
  - intros k r' Hk. rewrite <-(g3 (S k) r' Hk). f_equal. rewrite <-Zplus_mod_idemp_l, u16_slot, Zplus_mod_idemp_l. f_equal. lia.
  - by rewrite Et, g5, E0, fmap_app.
  - intros r' Hr'. apply g10. set_solver.
Qed.

Lemma rings_complete p A T1 r T2 U D s c hw m d :
  owns (flight p A (T1 ++ r :: T2) U D) s c → rings p A (T1 ++ r :: T2) U D s →
  seen hw = seen (vhw s) → taken hw = (r0 <$> T1) ++ (r0 <$> T2) → media hw = m →
  rings p A (T1 ++ T2) (U ++ [r]) D (set_vhw hw (set_used (u16 (us_idx s + 1)) (<[us_idx s mod NUM := r0 r]> (us_ring s))
               (set_info_status (<[r0 r := 0]> (info_status s)) (set_bytes d s)))).
Proof.
  intros O [g1 g2 g3 g4 g5 g6 g7 g8 g9 g10 g11] Es Et _. pose proof (owns_few _ _ _ O) as Hf. unfold flight in Hf. rewrite !length_app in Hf.
  split; cbn -[NUM]; rewrite ?Es; try done.
  - by rewrite Et, fmap_app.
  - rewrite g7, length_app, Nat2Z.inj_add. cbn [length]. unfold u16. dlia.
  - intros k r' [Hk|[Hk Hr]]%lookup_app_Some.
    + pose proof (lookup_lt_Some _ _ _ Hk). rewrite fn_lookup_insert_ne; [auto|]. rewrite g7, u16_slot. intros E%ring_slot_inj; unfold NUM in *; lia.
    + destruct (k - length U)%nat eqn:Ek; [|done]. injection Hr as <-. rewrite g7, u16_slot. replace k with (length U) by lia. by rewrite fn_lookup_insert.
  - intros r' [Hr'| ->%list_elem_of_singleton]%elem_of_app; [|by rewrite fn_lookup_insert].
    destruct (decide (r0 r = r0 r')) as [->|]; [by rewrite fn_lookup_insert|]. rewrite fn_lookup_insert_ne by done. auto.
  - intros r' Hr'. apply g10. set_solver.
Qed.

Lemma intr_round_run r U s A T D p c :
  owns (flight p A T (r :: U) D) s c → rings p A T (r :: U) D s →
  intr_round s = Ok (tt, set_used_idx (u16 (used_idx s + 1)) (set_bflag (<[rb r := 0]> (bflag s)) s)).
Proof.
  intros O R. pose proof (rg_usring _ _ _ _ _ _ R 0%nat r eq_refl) as E0. rewrite Z.add_0_r in E0. unfold intr_round. rewrite !vget_bind, E0.
  rewrite (rg_ok _ _ _ _ _ _ R r) by left. cbn [Z.eqb negb]. rewrite vget_bind, (ow_info _ _ _ O r) by (unfold flight; set_solver). done.
Qed.

Lemma rings_intr p A T r U D s c :
  owns (r :: flight p A T U D) s c → rings p A T (r :: U) D s →
  rings p A T U (r :: D) (set_used_idx (u16 (used_idx s + 1)) (set_bflag (<[rb r := 0]> (bflag s)) s)).
Proof.
  intros O [g1 g2 g3 g4 g5 g6 g7 g8 g9 g10 g11].
  assert (∀ r', r' ∈ flight p A T U D → rb r ≠ rb r') as Hd by (intros r' Hr'; by apply not_eq_sym, (owns_head r _ _ _ r' O)).
  unfold flight in Hd. split; cbn -[NUM]; try done.
  - unfold u16. dlia.
  - rewrite g7. cbn [length]. unfold u16. dlia.
  - intros k r' Hk. rewrite <-(g8 (S k) r' Hk). f_equal. rewrite <-Zplus_mod_idemp_l, u16_slot, Zplus_mod_idemp_l. f_equal. lia.
  - intros r' Hr'. apply g9. by right.
  - intros r' Hr'. rewrite fn_lookup_insert_ne by (apply Hd; set_solver). apply g10. set_solver.
  - intros r' [->|Hr']%elem_of_cons; [by rewrite fn_lookup_insert|]. rewrite fn_lookup_insert_ne by (apply Hd; set_solver). auto.
Qed.

Lemma rings_return p A T U D1 r D2 s : rings p A T U (D1 ++ r :: D2) s → rings p A T U (D1 ++ D2) (retire_state r s).
Proof. intros [? ? ? ? ? ? ? ? ? ? Hd]. split; try done. intros r' Hr'. apply Hd. set_solver. Qed.

(** ** The abstract disk

    Calls, each of which moves its block at one moment between its begin and its
    end, as [virtio_disk_rw] of the file-system model does. *)

Record asys := mkA { ak : K; acalls : gmap nat (bool * bool) }.   (** direction; moved yet *)

Definition refill (b : nat) (n : Z) (d : memory) (x : fs) : fs :=
  set_bc (set_bufs (<[b := set_bkey ROOTDEV n (set_bdata d (bufs (bc x) b))]> (bufs (bc x))) (bc x)) x.

(** Only the moment of the transfer is not seen. *)
Inductive astep : option event → asys → asys → Prop :=
  | begin_astep k c b write :
      c !! b = None → astep (Some (Called b write (bblockno (bufs (bc (fsys k)) b)))) (mkA k c) (mkA k (<[b := (write, false)]> c))
  | move_astep k c b write k' :
      c !! b = Some (write, false) → FsState.virtio_disk_rw b write k = Ok (tt, k') →
      astep None (mkA k c) (mkA k' (<[b := (write, true)]> c))
  | end_astep k c b write :
      c !! b = Some (write, true) → astep (Some (Returned b write)) (mkA k c) (mkA k (delete b c))
  | client_astep k c b n d :
      c !! b = None → astep (Some (Filled b n d)) (mkA k c) (mkA (set_fsys (refill b n d (fsys k)) k) c).

(** The buffers and the blocks of the disk, byte for byte. *)
Record agrees (s : vdisk) (k : K) : Prop := {
  ag_blk b : bblockno (bufs (bc (fsys k)) b) = bblk s b;
  ag_data b i : 0 ≤ i < BSIZE → bdata (bufs (bc (fsys k)) b) i = bytes s b i;
  ag_disk n i : 0 ≤ n → n * 2 + 2 ≤ capacity → 0 ≤ i < BSIZE → disk (bc (fsys k)) n i = media (vhw s) (n * BSIZE + i);
}.

(** A call is moved once the device is done with it. *)
Definition moved_calls (p : option req) (A T U D : list req) (c : gmap nat (bool * bool)) : Prop :=
  ∀ b v, c !! b = Some v ↔
    (∃ r, r ∈ option_list p ++ A ++ T ∧ rb r = b ∧ v = (rw r, false)) ∨ (∃ r, r ∈ U ++ D ∧ rb r = b ∧ v = (rw r, true)).

Definition sim (x : dsys) (a : asys) : Prop :=
  ∃ p A T U D, formatting x = rb <$> p ∧ owns (flight p A T U D) (drv x) (calls x) ∧ rings p A T U D (drv x) ∧
    agrees (drv x) (ak a) ∧ moved_calls p A T U D (acalls a).

Lemma lookup_transfer (m m' : memory) a c i :
  store_bytes m a (load_bytes m' c BSIZE) i = if decide (a ≤ i < a + BSIZE) then m' (c + (i - a)) else m i.
Proof.
  unfold store_bytes. rewrite length_load_bytes. change (Z.of_nat (Z.to_nat BSIZE)) with BSIZE. mem_cases; case_decide; try lia; try done.
  apply nth_lookup_Some. apply lookup_load_bytes. split; [lia|]. f_equal. lia.
Qed.

(** The device moves the block as the model of the buffer cache does. *)
Lemma agrees_move b write s k s' :
  agrees s k → 0 ≤ bblk s b → bblk s b * 2 + 2 ≤ capacity → bblk s' = bblk s →
  media (vhw s') = (moved b write (bblk s b * 2) s).1 → bytes s' = (moved b write (bblk s b * 2) s).2 →
  ∃ k', FsState.virtio_disk_rw b write k = Ok (tt, k') ∧ agrees s' k'.
Proof.
  intros [a1 a2 a3] H0 Hc Eb Em Ed. destruct write; (eexists; split; [reflexivity|]); cbn [moved fst snd] in Em, Ed; split; cbn -[BSIZE]; rewrite ?Eb, ?Em, ?Ed; try done.
  - intros n i Hn Hcn Hi. rewrite lookup_transfer, a1. destruct (decide (bblk s b = n)) as [<-|Hne].
    + rewrite fn_lookup_insert, decide_True, a2 by (unfold BSIZE in *; lia). f_equal. unfold BSIZE. lia.
    + rewrite fn_lookup_insert_ne, decide_False by (done || unfold BSIZE in *; lia). auto.
  - intros b'. destruct (decide (b = b')) as [<-|]; [rewrite fn_lookup_insert|rewrite fn_lookup_insert_ne by done]; apply a1.
  - intros b' i Hi. destruct (decide (b = b')) as [<-|]; [|rewrite !fn_lookup_insert_ne by done; auto]. rewrite !fn_lookup_insert. cbn -[BSIZE].
    rewrite lookup_transfer, decide_True, a1, a3 by lia. f_equal. unfold BSIZE. lia.
Qed.

Lemma agrees_same s s' k : bblk s' = bblk s → bytes s' = bytes s → media (vhw s') = media (vhw s) → agrees s k → agrees s' k.
Proof. intros E1 E2 E3 [? ? ?]. split; by rewrite ?E1, ?E2, ?E3. Qed.

(** The sector of a block within the capacity. *)
Lemma sector_of {BL : BlockLaws BD} n : 0 ≤ n → n * 2 + 2 ≤ capacity → u32 (n * 2) = n * 2.
Proof. intros H0 H1. pose proof dev_size. unfold u32. apply Z.mod_small. lia. Qed.

Lemma held_fields s idx s1 : held s idx s1 → bblk s1 = bblk s ∧ bytes s1 = bytes s ∧ vhw s1 = vhw s.
Proof. by intros [-> _ _ _ _]. Qed.

(** ** One step *)

Section step.
Context {BL : BlockLaws BD}.

Lemma sim_call s c b write i0 i1 i2 s1 s2 a :
  c !! b = None → alloc3_desc s = Ok (Some [i0; i1; i2], s1) → format b write (u32 (bblk s b * (BSIZE / 512))) i0 i1 i2 s1 = Ok (tt, s2) →
  sim (mkSys s None c) a → ∃ a', astep (Some (Called b write (bblk s b))) a a' ∧ sim (mkSys s2 (Some b) (<[b := (write, i0)]> c)) a'.
Proof.
  intros Hc Ea Ef (p & A & T & U & D & Ep & O & R & G & Mc). cbn [formatting drv calls] in *. destruct p; [done|]. destruct a as [k ac]. cbn [ak acalls] in *.
  destruct (alloc_more_run s 3 [] s (λ i, owns_bits _ _ _ i O) (held_start s)) as [(idx & s1' & E & Hh & _)|(s1' & E & _)]; unfold alloc3_desc in Ea; rewrite E in Ea; [|done].
  injection Ea as -> ->. rewrite format_run in Ef. injection Ef as <-. change (BSIZE / 512) with 2.
  set (r := mkR i0 i1 i2 b write). destruct (held_fields _ _ _ Hh) as (E1 & E2 & E3).
  assert (owns (r :: flight None A T U D) (format_state b write (u32 (bblk s b * 2)) i0 i1 i2 s1) (<[b := (write, i0)]> c)) as O2 by (by apply owns_call).
  exists (mkA k (<[b := (write, false)]> ac)). split.
  - rewrite <-(ag_blk _ _ G b). constructor. destruct (ac !! b) as [v|] eqn:Eb; [|done]. exfalso. assert (∃ r', r' ∈ flight None A T U D ∧ rb r' = b) as (r' & Hr' & Er).
    { unfold flight. apply Mc in Eb as [(r' & Hr' & Er & _)|(r' & Hr' & Er & _)]; exists r'; split; try done; set_solver. }
    assert (c !! b = Some (rw r', r0 r')) as E'; [|congruence]. apply (ow_calls _ _ _ O). eauto.
  - exists (Some r), A, T, U, D. cbn [formatting drv calls ak acalls]. split; [done|]. split; [exact O2|]. split; [eapply rings_call; [exact O2|by eapply rings_held]|].
    split; [eapply agrees_same; [..|exact G]; cbn; congruence|]. intros b' v. destruct (decide (b = b')) as [<-|Hne].
    + rewrite lookup_insert_eq. split; [intros [= <-]; left; exists r; split; [left|done]|]. pose proof (λ r' H, proj1 (owns_head r _ _ _ r' O2 H)) as Hd. unfold flight in Hd.
      intros [(r' & Hr' & Er & ->)|(r' & Hr' & Er & ->)].
      * apply elem_of_cons in Hr' as [->|Hr']; [done|]. destruct (Hd r'); [set_solver|done].
      * destruct (Hd r'); [set_solver|done].
    + rewrite lookup_insert_ne by done. unfold moved_calls in Mc. rewrite (Mc b' v). split; (intros [(r' & Hr' & Er & ->)|(r' & Hr' & Er & ->)]; [left|right]; exists r'; split; try done).
      * right. exact Hr'.
      * apply elem_of_cons in Hr' as [->|Hr']; done.
Qed.

Lemma sim_wait s c s1 a : alloc3_desc s = Ok (None, s1) → sim (mkSys s None c) a → sim (mkSys s1 None c) a.
Proof.
  intros Ea (p & A & T & U & D & Ep & O & R & G & Mc). cbn [formatting drv calls] in *.
  destruct (alloc_more_run s 3 [] s (λ i, owns_bits _ _ _ i O) (held_start s)) as [(idx & s1' & E & _)|(s1' & E & Hh)]; unfold alloc3_desc in Ea; rewrite E in Ea; [done|].
  injection Ea as ->. destruct (held_fields _ _ _ Hh) as (E1 & E2 & E3). exists p, A, T, U, D. cbn [formatting drv calls]. split; [done|].
  split; [by eapply owns_released|]. split; [by eapply rings_held|]. split; [|done]. eapply agrees_same; [..|exact G]; congruence.
Qed.

Lemma moved_calls_same p A T U D p' A' T' U' D' c :
  (∀ r, r ∈ option_list p' ++ A' ++ T' ↔ r ∈ option_list p ++ A ++ T) → (∀ r, r ∈ U' ++ D' ↔ r ∈ U ++ D) →
  moved_calls p A T U D c → moved_calls p' A' T' U' D' c.
Proof. intros H1 H2 Mc b v. rewrite (Mc b v). setoid_rewrite H1. by setoid_rewrite H2. Qed.

Lemma sim_publish s c b s1 s2 a :
  publish s = Ok (tt, s1) → notify s1 = Ok (tt, s2) → sim (mkSys s (Some b) c) a → sim (mkSys s2 None c) a.
Proof.
  intros Ep En (p & A & T & U & D & Eb & O & R & G & Mc). cbn [formatting drv calls] in *. destruct p as [r|]; [|done].
  injection Ep as <-. injection En as <-. pose proof (owns_few _ _ _ O) as Hf. unfold flight in Hf. rewrite !length_app in Hf. cbn [option_list length] in Hf.
  exists None, (A ++ [r]), T, U, D. cbn [formatting drv calls]. split; [done|]. split.
  - apply (owns_same _ s); try done. eapply owns_perm; [|exact O]. unfold flight. cbn [option_list app]. solve_Permutation.
  - split; [by apply rings_publish; [lia|]|]. split; [eapply agrees_same; [..|exact G]; try done; apply dev_notify|].
    eapply moved_calls_same; [..|exact Mc]; [|done]. intros r'. cbn [option_list app]. set_solver.
Qed.

Lemma sim_device s f c s1 a :
  dstep s s1 → sim (mkSys s f c) a → ∃ a', (a' = a ∨ astep None a a') ∧ sim (mkSys s1 f c) a'.
Proof.
  intros Hd (p & A & T & U & D & Eb & O & R & G & Mc). cbn [formatting drv calls] in *. destruct (dev_step s s1 Hd) as [Ht|(t1 & h & t2 & Et & Hc)].
  - destruct (rings_take _ _ _ _ _ _ _ _ O R Ht) as (r & A' & -> & R'). destruct Ht as (_ & hw & -> & Em & _). exists a. split; [by left|].
    exists p, A', (T ++ [r]), U, D. cbn [formatting drv calls]. split; [done|]. split.
    + apply (owns_same _ s); try done. eapply owns_perm; [|exact O]. unfold flight. solve_Permutation.
    + split; [done|]. split; [by eapply agrees_same; [..|exact G]|]. eapply moved_calls_same; [..|exact Mc]; [|done]. set_solver.
  - rewrite (rg_taken _ _ _ _ _ _ R) in Et. apply fmap_app_inv in Et as (T1 & T' & -> & E2 & ->). destruct T' as [|r T2]; [done|]. injection E2 as -> ->.
    assert (owns (r :: flight p A (T1 ++ T2) U D) s c) as O' by (eapply owns_perm; [|exact O]; unfold flight; solve_Permutation).
    destruct (ow_fmt _ _ _ O' r ltac:(left)) as (f1 & f2 & f3 & f4). destruct (ow_blk _ _ _ O (rb r)) as [B0 B1]. rewrite (sector_of _ B0 B1) in f2.
    destruct (Hc (rb r) (rw r) (bblk s (rb r) * 2) (r0 r)) as (hw & Em & Es & Etk & ->); [by exists (r0 r), (r1 r), (r2 r)|lia|done|].
    destruct a as [k ac]. cbn [ak acalls] in *. set (s1 := set_vhw _ _).
    destruct (agrees_move (rb r) (rw r) s k s1 G B0 B1 eq_refl Em eq_refl) as (k' & Ek & G'). exists (mkA k' (<[rb r := (rw r, true)]> ac)). split.
    + right. constructor; [|done]. apply Mc. left. exists r. split; [|done]. set_solver.
    + exists p, A, (T1 ++ T2), (U ++ [r]), D. cbn [formatting drv calls ak acalls]. split; [done|]. split.
      { apply (owns_same _ s); try done. eapply owns_perm; [|exact O']. unfold flight. solve_Permutation. }
      split; [by eapply rings_complete|]. split; [done|]. pose proof (λ r' H, proj1 (owns_head r _ _ _ r' O' H)) as Hne. unfold flight in Hne.
      intros b v. destruct (decide (rb r = b)) as [<-|Hb].
      * rewrite lookup_insert_eq. split; [intros [= <-]; right; exists r; split; [set_solver|done]|].
        intros [(r' & Hr' & Er & ->)|(r' & Hr' & Er & ->)]; [destruct (Hne r'); [set_solver|done]|].
        destruct (decide (r' = r)) as [->|Hn]; [done|]. destruct (Hne r'); [set_solver|done].
      * rewrite lookup_insert_ne by done. unfold moved_calls in Mc. rewrite (Mc b v).
        split; (intros [(r' & Hr' & Er & ->)|(r' & Hr' & Er & ->)]; [left|right]; exists r'; split; try done); set_solver.
Qed.

Lemma sim_intr s c s1 a : used_idx s ≠ us_idx s → intr_round s = Ok (tt, s1) → sim (mkSys s None c) a → sim (mkSys s1 None c) a.
Proof.
  intros Hne Ei (p & A & T & U & D & Eb & O & R & G & Mc). cbn [formatting drv calls] in *. destruct U as [|r U].
  { pose proof (rg_us _ _ _ _ _ _ R) as Eu. rewrite Z.add_0_r, u16_small in Eu by apply R. congruence. }
  rewrite (intr_round_run _ _ _ _ _ _ _ _ O R) in Ei. injection Ei as <-. exists p, A, T, U, (r :: D). cbn [formatting drv calls]. split; [done|]. split.
  - apply (owns_same _ s); try done. eapply owns_perm; [|exact O]. unfold flight. solve_Permutation.
  - split; [|split; [by eapply agrees_same; [..|exact G]|]].
    + eapply rings_intr; [|exact R]. eapply owns_perm; [|exact O]. unfold flight. solve_Permutation.
    + eapply moved_calls_same; [..|exact Mc]; [done|]. set_solver.
Qed.

(** A call in progress whose flag is reset has been acknowledged. *)
Lemma done_call p A T U D s c b write i0 :
  owns (flight p A T U D) s c → rings p A T U D s → c !! b = Some (write, i0) → bflag s b ≠ 1 →
  ∃ D1 r D2, D = D1 ++ r :: D2 ∧ rb r = b ∧ rw r = write ∧ r0 r = i0.
Proof.
  intros O R Hc Hf. apply (ow_calls _ _ _ O) in Hc as (r & Hr & <- & [= -> ->]). unfold flight in Hr.
  assert (r ∈ D) as (D1 & D2 & ->)%list_elem_of_split; [|by exists D1, r, D2].
  rewrite !app_assoc in Hr. apply elem_of_app in Hr as [Hr|Hr]; [|done]. destruct Hf. apply (rg_wait _ _ _ _ _ _ R). by rewrite !app_assoc.
Qed.

Lemma sim_return s c b write i0 s1 a :
  c !! b = Some (write, i0) → bflag s b ≠ 1 → retire i0 s = Ok (tt, s1) → sim (mkSys s None c) a →
  ∃ a', astep (Some (Returned b write)) a a' ∧ sim (mkSys s1 None (delete b c)) a'.
Proof.
  intros Hc Hf Er (p & A & T & U & D & Eb & O & R & G & Mc). cbn [formatting drv calls] in *.
  destruct (done_call _ _ _ _ _ _ _ _ _ _ O R Hc Hf) as (D1 & r & D2 & -> & <- & <- & <-).
  assert (owns (r :: flight p A T U (D1 ++ D2)) s c) as O' by (eapply owns_perm; [|exact O]; unfold flight; solve_Permutation).
  rewrite (retire_run _ _ _ _ O') in Er. injection Er as <-. destruct a as [k ac]. cbn [ak acalls] in *.
  pose proof (λ r' H, proj1 (owns_head r _ _ _ r' O' H)) as Hne. unfold flight in Hne.
  exists (mkA k (delete (rb r) ac)). split; [econstructor; apply Mc; right; exists r; split; [set_solver|done]|].
  exists p, A, T, U, (D1 ++ D2). cbn [formatting drv calls ak acalls]. split; [done|]. split; [by apply owns_return|]. split; [by apply rings_return|].
  split; [by eapply agrees_same; [..|exact G]|]. intros b v. destruct (decide (rb r = b)) as [<-|Hb].
  - rewrite lookup_delete_eq. split; [done|]. intros [(r' & Hr' & Er & _)|(r' & Hr' & Er & _)]; (destruct (Hne r'); [set_solver|done]).
  - rewrite lookup_delete_ne by done. unfold moved_calls in Mc. rewrite (Mc b v).
    split; (intros [(r' & Hr' & Er & ->)|(r' & Hr' & Er & ->)]; [left|right]; exists r'; split; try done); set_solver.
Qed.

Lemma sim_client s f c b n d a :
  c !! b = None → 0 ≤ n → n * 2 + 2 ≤ capacity → sim (mkSys s f c) a →
  ∃ a', astep (Some (Filled b n d)) a a' ∧ sim (mkSys (set_bblk (<[b := n]> (bblk s)) (set_bytes (<[b := d]> (bytes s)) s)) f c) a'.
Proof.
  intros Hc H0 H1 (p & A & T & U & D & Eb & O & R & G & Mc). cbn [formatting drv calls] in *. destruct a as [k ac]. cbn [ak acalls] in *.
  assert (∀ r, r ∈ flight p A T U D → b ≠ rb r) as Hne.
  { intros r Hr ->. assert (c !! rb r = Some (rw r, r0 r)) as E by (apply (ow_calls _ _ _ O); eauto). congruence. }
  exists (mkA (set_fsys (refill b n d (fsys k)) k) ac). split.
  - constructor. destruct (ac !! b) as [v|] eqn:Ea; [|done]. exfalso. unfold flight in Hne.
    apply Mc in Ea as [(r & Hr & Er & _)|(r & Hr & Er & _)]; (apply (Hne r); [set_solver|done]).
  - exists p, A, T, U, D. cbn [formatting drv calls ak acalls]. split; [done|]. split; [|split; [by destruct R; split|split; [|done]]].
    + destruct O as [o1 o2 o3 o4 o5 o6 o7 o8]. split; try done.
      * intros r Hr. unfold formatted. cbn. rewrite fn_lookup_insert_ne by (by apply Hne). by apply o5.
      * intros b'. cbn. destruct (decide (b = b')) as [<-|]; [by rewrite fn_lookup_insert|by rewrite fn_lookup_insert_ne].
    + destruct G as [a1 a2 a3]. split; try done; intros b'; cbn.
      * destruct (decide (b = b')) as [<-|]; [by rewrite !fn_lookup_insert|by rewrite !fn_lookup_insert_ne].
      * intros i Hi. destruct (decide (b = b')) as [<-|]; [by rewrite !fn_lookup_insert|rewrite !fn_lookup_insert_ne by done; auto].
Qed.

Lemma sim_step l x y a : vstep l x y → sim x a → ∃ a', run astep (option_list l) a a' ∧ sim y a'.
Proof.
  intros St Hs. destruct St as [s c b write i0 i1 i2 s1 s2 Hc Ea Ef|s c s1 Ea|s c b s1 s2 Ep En|s f c s1 Hd|s c s1 Hu Ei|s c b write i0 s1 Hc Hf Er|s f c b n d Hc H0 H1].
  - destruct (sim_call _ _ _ _ _ _ _ _ _ _ Hc Ea Ef Hs) as (a' & ? & ?). eauto using run_one.
  - exists a. split; [constructor|]. by eapply sim_wait.
  - exists a. split; [constructor|]. by eapply sim_publish.
  - destruct (sim_device _ _ _ _ _ Hd Hs) as (a' & [->|St] & ?); [exists a|exists a']; (split; [|done]); [constructor|by apply run_one].
  - exists a. split; [constructor|]. by eapply sim_intr.
  - destruct (sim_return _ _ _ _ _ _ _ Hc Hf Er Hs) as (a' & ? & ?). eauto using run_one.
  - destruct (sim_client _ _ _ _ n d _ Hc H0 H1 Hs) as (a' & ? & ?). eauto using run_one.
Qed.

Lemma sim_init x k : vinit x → agrees (drv x) k → sim x (mkA k ∅).
Proof.
  intros [v1 v2 v3 v4 v5 v6 v7 v8 v9] G. exists None, [], [], [], []. split; [done|]. split; [|split; [|split; [done|]]].
  - rewrite v1. split; [apply NoDup_nil_2|apply NoDup_nil_2|set_solver|intros i Hi; by rewrite (v3 i Hi)|set_solver|set_solver| |done].
    intros b v. rewrite lookup_empty. split; [done|]. intros (r & Hr & _). set_solver.
  - split; try done; try set_solver; [rewrite v4, Z.add_0_r; symmetry; by apply u16_small|rewrite v7, Z.add_0_r; symmetry; by apply u16_small].
  - intros b v. cbn [acalls]. rewrite lookup_empty. split; [done|]. intros [(r & Hr & _)|(r & Hr & _)]; set_solver.
Qed.

Lemma sim_run t x y a : run vstep t x y → sim x a → ∃ a', run astep t a a' ∧ sim y a'.
Proof.
  intros St. revert a. induction St as [x|l t x y z Hxy _ IH]; intros a Hs; [exists a; split; [constructor|done]|].
  destruct (sim_step _ _ _ _ Hxy Hs) as (a1 & H1 & Hs1). destruct (IH a1 Hs1) as (a2 & H2 & Hs2). exists a2. split; [by eapply run_app|done].
Qed.

Lemma sim_steps x y a : rtc any_step x y → sim x a → ∃ a', sim y a'.
Proof.
  intros St. revert a. induction St as [x|x y z [l Hxy] _ IH]; intros a Hs; [by exists a|].
  destruct (sim_step _ _ _ _ Hxy Hs) as (a1 & _ & Hs1). by eapply IH.
Qed.
End step.
End system.

(** C18. The driver implements the synchronous disk of the file-system model.
    Whatever calls, device and interrupts do in turn, the same calls and returns,
    for the same buffers and blocks in the same order, are a run of a disk on
    which each call moves its block at one moment between its begin and its
    return; the buffers and the medium of the two are the same.  When a call sees its flag
    reset, its block has been moved.  The device completes a request
    for blocks within its capacity without an error. *)
Theorem virtio_refines {VD : VDev} {BD : BlockDev} {BL : BlockLaws BD} t x y k :
  vinit x → agrees (drv x) k → run vstep t x y →
  ∃ a, run astep t (mkA k ∅) a ∧ agrees (drv y) (ak a) ∧
    ∀ b write i0, calls y !! b = Some (write, i0) → bflag (drv y) b ≠ 1 → acalls a !! b = Some (write, true).
Proof.
  intros Hi G St. destruct (sim_run t x y _ St (sim_init x k Hi G)) as (a & Ha & p & A & T & U & D & _ & O & R & G' & Mc). exists a. split_and!; [done|done|].
  intros b write i0 Hc Hf. destruct (done_call _ _ _ _ _ _ _ _ _ _ O R Hc Hf) as (D1 & r & D2 & -> & <- & <- & _).
  apply Mc. right. exists r. split; [set_solver|done].
Qed.

(** C19. No interleaving of calls, device and interrupts reaches a panic of the
    driver or a null pointer: the handler finds a successful status and a
    buffer for every completed request, a call that is done frees three
    descriptors that are in use, and looking for descriptors always ends.  When
    no call is in progress, every descriptor is free.  That the status is
    success rests on the device, which completes a request for blocks within its
    capacity without an error. *)
Theorem virtio_safe {VD : VDev} {BD : BlockDev} {BL : BlockLaws BD} x y k :
  vinit x → agrees (drv x) k → rtc any_step x y →
  (used_idx (drv y) ≠ us_idx (drv y) → ∃ s, intr_round (drv y) = Ok (tt, s)) ∧
  (∀ b write i0, calls y !! b = Some (write, i0) → bflag (drv y) b ≠ 1 → ∃ s, retire i0 (drv y) = Ok (tt, s)) ∧
  (∃ idx s, alloc3_desc (drv y) = Ok (idx, s) ∧ ∀ l, idx = Some l → length l = 3%nat) ∧
  (calls y = ∅ → ∀ i, 0 ≤ i < NUM → vfree (drv y) i = 1).
Proof.
  intros Hi G St. destruct (sim_steps x y _ St (sim_init x k Hi G)) as (a & p & A & T & U & D & _ & O & R & _ & _). split_and!.
  - intros Hne. destruct U as [|r U]; [|eexists; by eapply intr_round_run].
    pose proof (rg_us _ _ _ _ _ _ R) as Eu. rewrite Z.add_0_r, u16_small in Eu by apply R. congruence.
  - intros b write i0 Hc Hf. destruct (done_call _ _ _ _ _ _ _ _ _ _ O R Hc Hf) as (D1 & r & D2 & -> & <- & <- & <-).
    eexists. apply (retire_run r (flight p A T U (D1 ++ D2)) _ (calls y)). eapply owns_perm; [|exact O]. unfold flight. solve_Permutation.
  - destruct (alloc_more_run (drv y) 3 [] (drv y) (λ i, owns_bits _ _ _ i O) (held_start _)) as [(idx & s & E & _ & Hl)|(s & E & _)].
    + exists (Some idx), s. split; [done|]. by intros ? [= <-].
    + by exists None, s.
  - intros Hc i Hi'. rewrite (ow_free _ _ _ O i Hi'), decide_False; [done|]. intros (r & _ & Hr)%list_elem_of_bind.
    assert (calls y !! rb r = Some (rw r, r0 r)) as E by (apply (ow_calls _ _ _ O); eauto). by rewrite Hc in E.
Qed.
