(* ===== verification/Examples.v ===== *)
(** * A concrete machine

    A small machine (24 free pages) is booted and two address spaces are built
    on it by running the routines; the theorems are applied to the states it
    goes through. *)

From S2P Require Import Prelude Riscv Memory Kalloc Vm VmInv VmWalk VmRef VmOps Cow VmUser CopyUser Fork Isolation VmRoot.

Definition exec {S A} (c : M S A) (s : S) : S := match c s with Ok (_, s') => s' | _ => s end.
Definition value {S A} (d : A) (c : M S A) (s : S) : A := match c s with Ok (a, _) => a | _ => d end.

#[local] Instance small : Layout := {|
  etext := KERNBASE + 16 * PGSIZE; trampoline := KERNBASE + 15 * PGSIZE; kend := PHYSTOP - 24 * PGSIZE |}.
#[local] Instance small_ok : LayoutOk.
Proof. split; vm_compute; try split; done. Qed.

Definition m0 : kmem := mkKmem (λ _, 0) false 0 (λ _, 0).
Definition m1 : kmem := exec kinit m0.
Definition r1 : Z := value 0 uvmcreate m1.
Definition m2 : kmem := exec uvmcreate m1.
(** two pages, readable and writable *)
Definition m3 : kmem := exec (uvmalloc r1 0 8000 PTE_W) m2.
Definition r2 : Z := value 0 uvmcreate m3.
Definition m4 : kmem := exec uvmcreate m3.
(** the second address space shares them *)
Definition m5 : kmem := exec (uvmcopy r1 r2 8000) m4.

Lemma wp_exec {S A} (d : A) (c : M S A) s Q : wp c s Q → Q (value d c s) (exec c s).
Proof. unfold wp, value, exec. by destruct (c s) as [[a s']| |]. Qed.

(** ** The invariant holds in each state *)

Lemma m1_inv : ∃ g, vinv g m1 ∧ roots g = ∅.
Proof.
  apply (wp_exec tt kinit m0 (λ _ s, ∃ g, vinv g s ∧ roots g = ∅)).
  apply wp_kinit; [by intros x|done|]. intros fl s K Hfl. exists (g_boot fl). auto using boot_vinv.
Qed.

Lemma m2_inv : ∃ g, vinv g m2 ∧ r1 ∈ roots g ∧ ∀ v, upte m2 r1 v = 0.
Proof.
  destruct m1_inv as (g & V & _).
  assert (r1 ≠ 0 → ∃ g, vinv g m2 ∧ r1 ∈ roots g ∧ ∀ v, upte m2 r1 v = 0) as Hc; [|apply Hc; by vm_compute].
  apply (wp_exec 0 uvmcreate m1 (λ r s, r ≠ 0 → ∃ g, vinv g s ∧ r ∈ roots g ∧ ∀ v, upte s r v = 0)).
  apply (wp_uvmcreate g); [done|done|]. intros p fl _ _ _ V' _ Hz _. eexists. split; [exact V'|].
  split; [cbn [roots g_root]; set_solver|done].
Qed.

Lemma m3_inv : ∃ g, vinv g m3 ∧ r1 ∈ roots g.
Proof.
  destruct m2_inv as (g & V & Hr & Hz).
  unfold m3. apply (wp_exec 0 (uvmalloc r1 0 8000 PTE_W) m2 (λ _ s, ∃ g, vinv g s ∧ r1 ∈ roots g)).
  eapply (wp_uvmalloc g); [done|done|lia|by vm_compute|done|intros v _; by rewrite Hz|..].
  - intros g' s' V' G. exists g'. by rewrite (sb_roots _ _ _ _ (gw_stable _ _ _ _ _ _ _ _ G)).
  - intros g' s' V' U. exists g'. by rewrite (ud_roots _ _ _ _ _ _ _ U).
Qed.

Lemma m4_inv : ∃ g, vinv g m4 ∧ r1 ∈ roots g ∧ r2 ∈ roots g ∧ ∀ v, upte m4 r2 v = 0.
Proof.
  destruct m3_inv as (g & V & Hr).
  assert (r2 ≠ 0 → ∃ g, vinv g m4 ∧ r1 ∈ roots g ∧ r2 ∈ roots g ∧ ∀ v, upte m4 r2 v = 0) as Hc; [|apply Hc; by vm_compute].
  apply (wp_exec 0 uvmcreate m3 (λ r s, r ≠ 0 → ∃ g, vinv g s ∧ r1 ∈ roots g ∧ r ∈ roots g ∧ ∀ v, upte s r v = 0)).
  apply (wp_uvmcreate g); [done|done|]. intros p fl _ _ _ V' _ Hz _. eexists. split; [exact V'|].
  cbn [roots g_root g_alloc]. split_and!; [set_solver|set_solver|done].
Qed.

Lemma m5_inv : ∃ g, vinv g m5 ∧ r1 ∈ roots g ∧ r2 ∈ roots g.
Proof.
  destruct m4_inv as (g & V & H1 & H2 & Hz).
  unfold m5. apply (wp_exec 0 (uvmcopy r1 r2 8000) m4 (λ _ s, ∃ g, vinv g s ∧ r1 ∈ roots g ∧ r2 ∈ roots g)).
  assert (r1 ≠ r2) by (by vm_compute). assert (0 ≤ 8000 ≤ TRAPFRAME) by (by vm_compute).
  apply (wp_uvmcopy g); [done|done|done|done|done|intros v _; by rewrite Hz|..].
  - intros g' s' V' Sh. exists g'. by rewrite (sh_roots _ _ _ _ _ _ _ _ Sh).
  - intros v g2 s2 g' s' Hv V2 Sh V' U. exists g'.
    by rewrite (um_roots _ _ _ _ _ _ _ U), (sh_roots _ _ _ _ _ _ _ _ Sh).
Qed.

(** ** The theorems at work *)

#[local] Opaque m1 m2 m3 m4 m5 r1 r2 exec value.

(** The first write to a shared page gives [r1] a page of its own, and [r2]
    reads what it read. *)
Lemma cowfault_transparent_witness :
  value 0 (cowfault r1 4100) m5 ≠ 0 ∧
  has (upte (exec (cowfault r1 4100) m5) r1 1) PTE_W = true ∧
  ∀ va, 0 ≤ va < MAXVA → uread (exec (cowfault r1 4100) m5) r2 va = uread m5 r2 va.
Proof.
  assert (value 0 (cowfault r1 4100) m5 ≠ 0) as Ha by (by vm_compute). split; [done|].
  destruct m5_inv as (g & V & H1 & H2).
  pose proof (cowfault_transparent g m5 r1 4100 V H1 ltac:(lia)) as W. apply (wp_exec 0) in W.
  destruct W as (g' & _ & _ & R & W). rewrite decide_False in W by done. destruct W as [(_ & _ & W & _) _].
  split; [exact W|]. intros va Hva. by apply R.
Defined.

(** Child and parent write to the same addresses of a page that they share. *)
Definition acts_of (old new : Z) : list act :=
  [UserStore (mkUproc 8000 new) 4100 7; KernelCopy (mkUproc 8000 old) 4099 [1; 2; 3]; UserStore (mkUproc 8000 old) 4101 9].
Definition acts : list act := acts_of r1 r2.

Lemma effect_other a ok r va x y : r ≠ upagetable (actor a) → effect a ok r va x y → y = x.
Proof. intros Hne. unfold effect. by rewrite decide_False. Qed.
Lemma effect_named b a r va x y : r = upagetable (actor a) → named a va = Some b → effect a true r va x y → y = Some b.
Proof. intros -> E. unfold effect. rewrite decide_True, E by done. by intros [?|[? _]]. Qed.
Lemma effect_unnamed a ok r va x y : r = upagetable (actor a) → named a va = None → effect a ok r va x y → grew x y.
Proof. intros -> E. unfold effect. by rewrite decide_True, E by done. Qed.

Lemma acts_history old new x1 x2 x3 x4 y1 y2 y3 y4 :
  old ≠ new → let l := zip (acts_of old new) [true; true; true] in
  history l new 4100 x1 y1 → history l new 4101 x2 y2 → history l old 4100 x3 y3 → history l old 4101 x4 y4 →
  y1 = Some 7 ∧ (y2 = x2 ∨ x2 = None) ∧ y3 = Some 2 ∧ y4 = Some 9.
Proof.
  intros Hne l (a1 & A1 & a2 & A2 & a3 & A3 & ->) (b1 & B1 & b2 & B2 & b3 & B3 & ->) (c1 & C1 & c2 & C2 & c3 & C3 & ->) (d1 & D1 & d2 & D2 & d3 & D3 & ->).
  apply (effect_named 7) in A1; [|done..]. apply effect_other in A2, A3; [|done..].
  apply effect_unnamed in B1; [|done..]. apply effect_other in B2, B3; [|done..].
  apply (effect_named 2) in C2; [|done..]. apply effect_unnamed in C3; [|done..].
  apply (effect_named 9) in D3; [|done..]. unfold grew in *. naive_solver.
Qed.
Definition fork_acts : M kmem (option (list bool)) :=
  c ← uvmcopy r1 r2 8000; if c =? 0 then oks ← run_acts acts; mret (Some oks) else mret None.

Lemma fork_isolates_witness :
  let s' := exec fork_acts m4 in
  uread s' r2 4100 = Some 7 ∧ uread s' r2 4101 = uread m4 r1 4101 ∧ uread s' r1 4100 = Some 2 ∧ uread s' r1 4101 = Some 9.
Proof.
  intros s'. assert (r1 ≠ r2) as Hne by (by vm_compute). assert (0 ≤ 8000 ≤ TRAPFRAME) as Hsz by (by vm_compute).
  assert (0 ≤ 4100 < MAXVA) as Hv by (by vm_compute). assert (0 ≤ 4101 < MAXVA) as Hv' by (by vm_compute).
  assert (value None fork_acts m4 = Some [true; true; true]) as Hc by (by vm_compute).
  destruct m4_inv as (g & V & H1 & H2 & Hz).
  assert (∀ v, 0 ≤ v < npg 8000 → has (upte m4 r2 v) PTE_V = false) as Hi by (intros v _; rewrite Hz; reflexivity).
  assert (Forall (act_ok (roots g)) acts) as Ha.
  { repeat apply Forall_cons_2; [..|apply Forall_nil_2]; (split; [assumption|]); (split; [exact (proj2 Hsz)|]); split; [exact Hv|lia|lia|by repeat constructor|exact Hv'|lia]. }
  pose proof (fork_isolates g m4 r1 r2 8000 acts V H1 H2 Hne Hsz Hi Ha) as W. fold fork_acts in W.
  apply (wp_exec None) in W. rewrite Hc in W. destruct W as (g' & _ & _ & _ & W). fold s' in W.
  assert (∀ va, va = 4100 ∨ va = 4101 → r2 = r2 → va < npg 8000 * PGSIZE) as Hn by (intros va Hva _; change (npg 8000 * PGSIZE) with 8192; lia).
  pose proof (W r2 4100 H2 Hv (Hn _ ltac:(by left))) as W1. pose proof (W r2 4101 H2 Hv' (Hn _ ltac:(by right))) as W2.
  pose proof (W r1 4100 H1 Hv (λ E, match Hne E with end)) as W3. pose proof (W r1 4101 H1 Hv' (λ E, match Hne E with end)) as W4.
  destruct (acts_history r1 r2 _ _ _ _ _ _ _ _ Hne W1 W2 W3 W4) as (E1 & E2 & E3 & E4). split; [exact E1|]. split; [|split; [exact E3|exact E4]].
  rewrite decide_True in E2 by reflexivity. destruct E2 as [E2|E2]; [exact E2|]. assert (uread m4 r1 4101 = Some 0) as E by (by vm_compute). rewrite E in E2. discriminate E2.
Defined.

(** Six bytes written by [copyout] over the border of two shared pages. *)
Lemma copyout_correct_witness :
  let p := mkUproc 8000 r2 in let s' := exec (copyout p r2 4093 [1; 2; 3; 4; 5; 6]) m5 in
  value 0 (copyout p r2 4093 [1; 2; 3; 4; 5; 6]) m5 = 0 ∧ uread s' r2 4097 = Some 5 ∧
  uread s' r1 4097 = uread m5 r1 4097.
Proof.
  intros p s'. assert (0 ≤ 4097 < MAXVA) as Hv by (by vm_compute). assert (r1 ≠ r2) as Hne by (by vm_compute).
  assert (usz p ≤ TRAPFRAME) as Hsz by (by vm_compute). assert (0 ≤ 4093) as Hd by lia.
  assert (are_bytes [1; 2; 3; 4; 5; 6]) as Hb by (by repeat constructor).
  assert (value 0 (copyout p r2 4093 [1; 2; 3; 4; 5; 6]) m5 = 0) as Hc by (by vm_compute).
  split; [exact Hc|]. destruct m5_inv as (g & V & H1 & H2).
  pose proof (wp_exec 0 _ _ _ (copyout_correct g m5 p 4093 [1; 2; 3; 4; 5; 6] V H2 Hsz Hd Hb)) as W.
  change (upagetable p) with r2 in W.
  destruct W as (g' & k & _ & _ & W & [[_ Hk]|Hk]); [|rewrite Hk in Hc; discriminate Hc].
  rewrite take_ge in W by exact Hk. fold s' in W. split.
  - specialize (W r2 4097 H2 Hv). rewrite decide_True in W by (split; [reflexivity|simpl; lia]). exact W.
  - specialize (W r1 4097 H1 Hv). rewrite decide_False in W by (intros [E _]; exact (Hne E)).
    destruct W as [W|(W & _)]; [exact W|destruct (Hne W)].
Defined.

Lemma copyin_correct_witness :
  let p := mkUproc 8000 r1 in
  value (0, []) (copyin p r1 4095 3) m5 = (0, [0; 0; 0]) ∧
  reads_at (exec (copyin p r1 4095 3) m5) r1 4095 [0; 0; 0].
Proof.
  intros p. assert (usz p ≤ TRAPFRAME) as Hsz by (by vm_compute).
  assert (value (0, []) (copyin p r1 4095 3) m5 = (0, [0; 0; 0])) as Hc by (by vm_compute).
  split; [exact Hc|]. destruct m5_inv as (g & V & H1 & _).
  pose proof (wp_exec (0, []) _ _ _ (copyin_correct g m5 p 4095 3 V H1 Hsz ltac:(lia) ltac:(lia))) as W.
  change (upagetable p) with r1 in W. rewrite Hc in W. destruct W as (g' & _ & _ & _ & R & _). exact R.
Defined.

Lemma uvmcopy_shares_witness :
  value 1 (uvmcopy r1 r2 8000) m4 = 0 ∧
  ∀ va, 0 ≤ va < npg 8000 * PGSIZE → uread (exec (uvmcopy r1 r2 8000) m4) r2 va = uread m4 r1 va.
Proof.
  assert (r1 ≠ r2) as Hne by (by vm_compute). assert (0 ≤ 8000 ≤ TRAPFRAME) as Hsz by (by vm_compute).
  assert (value 1 (uvmcopy r1 r2 8000) m4 = 0) as Hc by (by vm_compute). split; [exact Hc|].
  destruct m4_inv as (g & V & H1 & H2 & Hz).
  assert (∀ v, 0 ≤ v < npg 8000 → has (upte m4 r2 v) PTE_V = false) as Hi by (intros v _; rewrite Hz; reflexivity).
  pose proof (wp_exec 1 _ _ _ (uvmcopy_shares g m4 r1 r2 8000 V H1 H2 Hne Hsz Hi)) as W.
  destruct W as (g' & _ & _ & _ & [[_ F]|[Hf _]]); [|rewrite Hf in Hc; discriminate Hc].
  intros va Hva. exact (fk_reads _ _ _ _ _ _ _ F va Hva).
Defined.

Lemma m1_represents : ∃ a, represents a m1 ∧ afree a ≠ [] ∧ acount a (PHYSTOP - PGSIZE) = 0.
Proof.
  destruct m1_inv as (g & V & _). exists (mkA (gfl g) (λ p, refcount m1 (p / PGSIZE))).
  split; [split; [apply V|done]|]. split; [|by vm_compute].
  pose proof (ki_chain _ _ (ti_k _ _ (vi_t _ _ V))) as Hc. intros E. simpl in E. rewrite E in Hc.
  by vm_compute in Hc.
Qed.

(** Freeing a page twice. *)
Lemma kfree_refines_witness : ∃ msg, kfree (PHYSTOP - PGSIZE) m1 = Panic msg.
Proof.
  destruct m1_represents as (a & R & _ & Hc). pose proof (kfree_refines a m1 (PHYSTOP - PGSIZE) R) as W.
  unfold a_free in W. by rewrite Hc, orb_true_r in W.
Defined.

