(* ===== verification/ExamplesProc.v ===== *)
(** * A concrete process table

    On the machine of Examples.v a process table is built by running
    [allocproc]; the theorems on locks, the scheduler and the life of processes
    are applied to it. *)

From stdpp Require Import sorting.
From S2P Require Import Prelude Riscv Memory Kalloc Vm VmInv VmWalk VmRef VmOps Cow VmUser CopyUser Fork VmRoot VmFree.
From S2P Require Import ProcVm Spinlock Proc ProcOps Sched ProcMem ProcFork ProcExit ProcWait Syscall Examples.

#[local] Existing Instance small.
#[local] Existing Instance small_ok.

(** ** A trivial environment: no files, processes that yield at once *)

#[local] Instance no_files : FileOps unit := {|
  filedup f := mret f; idup d := mret d; fileclose _ := mret tt; iput _ := mret tt;
  begin_op := mret tt; end_op := mret tt; namei _ := mret 0 |}.
#[local] Instance no_files_ok : FileOpsOk unit.
Proof.
  refine {| file_open _ _ := True; inode_live _ _ := True |}; intros z s _ _ _ _; (split; [done|]);
    exists (fsys s); by destruct s.
Defined.
#[local] Instance a_forkret : Code := {| forkret := KERNBASE |}.

(** A process that is switched to marks process 1 as killed and goes back to the
    scheduler from [yield]. *)
#[local] Instance yielding : Switch unit := {|
  to_scheduler _ := mret tt;
  to_process i := pset 1 (set_killedf 1) ;; pset i (set_ready 0) ;; pset i (set_state RUNNABLE) ;; sched_enter ;; mret tt;
  interrupts := mret tt |}.

Definition blank : proc :=
  mkProc UNUSED ChanNull 0 0 0 DEFAULT_PRIORITY 0 None 0 0 0 0 (replicate 14 0) (replicate NOFILE 0) 0 (replicate 16 0).

(** The table after [procinit], on a machine that has booted. *)
Definition k0 : kst unit :=
  mkKst (λ _, initlock) (mkCpu 0 true true) 0 None (replicate NPROC blank) 1 None 100 m1 tt.

(** Takes an entry as [kfork] and [userinit] do. *)
Definition new_entry (f : proc → proc) : M (kst unit) bool :=
  r ← allocproc;
  match r with
  | Some j => pset j f ;; release (ProcLock j) ;; mret true
  | None => mret false
  end.

Definition start (st : procstate) (pr : Z) (pp : option nat) (p : proc) : proc :=
  set_state st (set_priority pr (set_parent pp p)).

(** A RUNNING parent and two RUNNABLE children of different priority. *)
Definition k1 : kst unit :=
  set_cproc (Some 0%nat) (set_initproc (Some 0%nat) (exec (
    new_entry (start RUNNING 2 None) ;;
    new_entry (start RUNNABLE 4 (Some 0%nat)) ;;
    new_entry (start RUNNABLE 1 (Some 0%nat))) k0)).

(** ** The invariant *)

Lemma k0_unlocked : unlocked k0.
Proof. split; [split; simpl; lia|done|apply length_replicate]. Qed.

Lemma k0_inv : ∃ g, pinv g k0.
Proof.
  destruct m1_inv as (g & V & _). exists g.
  assert (∀ i p, procs k0 !! i = Some p → p = blank) as Hb by (by intros i p [-> _]%lookup_replicate).
  split; [exact V|..].
  - intros i p ->%Hb []. done.
  - intros i p ->%Hb _. done.
  - intros i p ->%Hb. done.
  - intros i j p q _ ->%Hb _ []. done.
  - intros i j p q _ ->%Hb _ []. done.
  - done.
  - intros i p ->%Hb []. done.
  - intros i j p q _ ->%Hb _ []. done.
Qed.

(** A state with the invariant and no lock taken. *)
Record good (s : kst unit) : Prop := {
  gd_inv : ∃ g, pinv g s;
  gd_unlocked : unlocked s;
  gd_locks : lks s = λ _, initlock;
  gd_next : nextpid s < 10;
}.

Lemma wp_new_entry st pr pp (s : kst unit) Q :
  good s → nextpid s < 9 → st ≠ UNUSED → st ≠ ZOMBIE →
  (∀ b s', good s' → nextpid s' ≤ nextpid s + 1 → Q b s') → wp (new_entry (start st pr pp)) s Q.
Proof.
  intros [[g I] U El Hn] Hn' Hst Hz HQ. pose proof (pi_next _ _ I).
  assert (s32 (nextpid s + 1) = nextpid s + 1) as En by (apply s32_small; lia).
  apply wp_bind. apply (wp_allocproc g); [exact I|exact U|by rewrite El|..].
  - apply HQ; [|simpl; lia]. split; [exists g; by apply pinv_relax|by apply unlocked_relax|exact El|exact Hn].
  - intros j q g1 m Hq Hu V1 P1. apply HQ; [|simpl; lia]. split; [..|exact El|simpl; lia].
    + exists g1. apply (pinv_cleared g s g1 _ j q (cleared q)); try done; [by eexists|simpl; lia].
    + apply unlocked_relax, unlocked_with. by destruct U.
  - intros j q tf pt g1 m Hq Hu [A1 A2 A3 A4 A5 A6]. pose proof (lookup_lt_Some _ _ _ Hq) as Hj.
    destruct (pi_files _ _ I j q Hq) as [Hl _]. destruct (pi_unused _ _ I j q Hq Hu) as (_ & _ & Hsz & _).
    set (s1 := set_mach m (set_nextpid _ s)). assert (unlocked s1) as U1 by (by destruct U).
    apply wp_bind. apply (wp_pset_next j _ _ (entered (ProcLock j) s1)); [done|].
    apply wp_bind. apply (wp_leave _ (with_proc j (start st pr pp (born (nextpid s) q tf pt)) s1)); [apply U|apply U|].
    apply HQ; [|simpl; lia]. split; [..|exact El|simpl; lia].
    + exists g1. apply (pinv_update g s g1 _ j q (start st pr pp (born (nextpid s) q tf pt))); try done; [simpl; lia|].
      intros _. split; try done; [|simpl; lia]. split; try done; [simpl; rewrite Hsz; done|].
      intros v Hv. apply A6. simpl in Hv. rewrite Hsz in Hv. exact Hv.
    + by apply unlocked_relax, unlocked_with.
Qed.

Lemma good_env c i (s : kst unit) : good s → good (set_cproc c (set_initproc i s)).
Proof.
  intros [[g [a1 a2 a3 a4 a5 a6 a7 a8 a9]] [b1 b2 b3] d e].
  split; [exists g; by split|by split|exact d|exact e].
Qed.

Lemma k0_good : good k0.
Proof. split; [apply k0_inv|apply k0_unlocked|reflexivity|reflexivity]. Qed.

#[local] Opaque m1 exec value.

Lemma k1_good : good k1.
Proof.
  unfold k1. apply good_env. apply (wp_exec true _ k0 (λ _ s, good s)).
  assert (nextpid k0 = 1) as H0 by reflexivity. pose proof k0_good as G0.
  apply wp_bind, wp_new_entry; [exact G0|lia|discriminate|discriminate|]. intros _ s1 G1 H1.
  apply wp_bind, wp_new_entry; [exact G1|lia|discriminate|discriminate|]. intros _ s2 G2 H2.
  apply wp_new_entry; [exact G2|lia|discriminate|discriminate|]. intros _ s3 G3 H3. exact G3.
Qed.

#[local] Opaque k1.

Lemma entry (s : kst unit) (i : nat) : unlocked s → (i < 64)%nat → ∃ p, procs s !! i = Some p.
Proof. intros U Hi. apply lookup_lt_is_Some_2. by rewrite (ul_len _ U). Qed.

(** A fact on an entry of a table, by evaluation. *)
Definition check (s : kst unit) (i : nat) (f : proc → bool) : bool :=
  match procs s !! i with Some p => f p | None => false end.
Lemma checked s i f p : check s i f = true → procs s !! i = Some p → f p = true.
Proof. unfold check. intros Hc Hp. by rewrite Hp in Hc. Qed.
Definition is_state (st : procstate) (p : proc) : bool := bool_decide (state p = st).

Lemma check_all (s : kst unit) (f : proc → bool) i p :
  forallb f (procs s) = true → procs s !! i = Some p → f p = true.
Proof.
  intros Hf Hp. rewrite forallb_forall in Hf. apply Hf, list_elem_of_In. by eapply list_elem_of_lookup_2.
Qed.

(** ** Locks *)

(** CPU 1 has taken lock 3; CPU 2 spins on it. *)
Definition b0 : smp := mkSmp (λ _, mkCpu 0 true true) (λ _, initlock) (λ _, Run) (λ _, ∅).
Definition ok_or (d : smp) (r : res smp) : smp := match r with Ok s => s | _ => d end.
Definition b1 : smp := ok_or b0 (acquire_call 1 3 b0).
Definition b2 : smp := record_owner 1 3 (exchange 1 3 b1).
Definition b3 : smp := exchange 2 3 (ok_or b0 (acquire_call 2 3 b2)).

Lemma b3_reachable : reachable b3.
Proof.
  exists b0. split; [done|]. eapply rtc_l; [by apply (StepAcquire 1 3 b0 b1)|].
  eapply rtc_l; [by apply (StepExchange 1 3)|]. eapply rtc_l; [by apply (StepOwner 1 3)|].
  eapply rtc_l; [by apply (StepAcquire 2 3 b2 (ok_or b0 (acquire_call 2 3 b2)))|].
  apply rtc_once. by apply (StepExchange 2 3).
Qed.

Lemma mutual_exclusion_witness : holding 2 (locks b3 3) = false ∧ sie (cpus b3 1%nat) = false.
Proof.
  assert (3%nat ∈ held b3 1) as H1 by (by vm_compute). assert (3%nat ∉ held b3 2) as H2 by set_solver.
  destruct (mutual_exclusion b3 1 2 3 b3_reachable H1) as (_ & Hs & Hh). split; [|exact Hs].
  rewrite Hh. by apply bool_decide_false.
Defined.

(** ** The scheduler *)

Lemma yielding_runs calm now B i (s : kst unit) : dispatching now B i s → wp (to_process i) s (λ _ s', returned calm i s s').
Proof.
  intros [Hc (p0 & Hp0 & _) Hl [Hn Hs] Hlen]. destruct (lookup_lt_is_Some_2 (procs s) 1) as [q1 Hq1]; [rewrite Hlen; by apply Nat.ltb_lt|].
  apply wp_bind, (wp_pset 1 q1); [exact Hq1|]. set (s1 := with_proc 1 _ s). pose proof (lookup_lt_Some _ _ _ Hq1) as H1.
  assert (∃ p, procs s1 !! i = Some p) as (p & Hp).
  { apply lookup_lt_is_Some_2. unfold s1. simpl. rewrite length_insert. by eapply lookup_lt_Some. }
  assert (∀ j q, procs s !! j = Some q → ∃ q', procs s1 !! j = Some q' ∧ like q q') as Hk.
  { intros j q Hq. unfold s1. simpl. destruct (decide (j = 1%nat)) as [->|Hne].
    - rewrite list_lookup_insert_eq by exact H1. rewrite Hq1 in Hq. injection Hq as <-. eexists. split; [reflexivity|by split].
    - rewrite list_lookup_insert_ne by congruence. exists q. split; [exact Hq|apply like_refl]. }
  assert (length (procs s1) = NPROC) as Hlen1 by (unfold s1; simpl; by rewrite length_insert).
  assert (cproc s1 = Some i ∧ kcpu s1 = kcpu s ∧ lks s1 = lks s ∧ mycpu s1 = mycpu s) as (Hc1 & Ec & Elk & Em) by done.
  rewrite <-Ec in Hn, Hs. rewrite <-Elk, <-Em in Hl. revert Hp Hk Hlen1 Hc1 Hn Hs Hl. clear Ec Elk Em Hq1 H1. generalize s1. clear s1.
  intros s1 Hp Hk Hlen1 Hc1 Hn Hs Hl. apply wp_bind, (wp_pset i p); [exact Hp|]. pose proof (lookup_lt_Some _ _ _ Hp) as Hi.
  apply wp_bind, wp_pset_next; [exact Hi|].
  apply wp_bind. apply (wp_sched_enter i (set_state RUNNABLE (set_ready 0 p))); [exact Hn|exact Hs|exact Hc1|simpl; rewrite Hl; by rewrite decide_True| |done|].
  - by apply with_proc_lookup.
  - apply wp_ret. split; [exact Hl|done|simpl; by rewrite length_insert|].
    intros j q Hj _ Hq _. simpl. rewrite list_lookup_insert_ne by congruence. by apply Hk.
Qed.

(** The state in which the scheduler of a CPU looks for work. *)
Definition k2 : kst unit := set_cproc None k1.

Lemma unlocked_cproc c (s : kst unit) : unlocked s → unlocked (set_cproc c s).
Proof. intros [a b d]. by split. Qed.
Lemma good_ticks c (s : kst unit) : good s → lks (set_cproc c s) TicksLock = initlock.
Proof. intros G. simpl. by rewrite (gd_locks _ G). Qed.

Lemma k2_idle : idle k2.
Proof. split; [apply unlocked_cproc, k1_good|by vm_compute]. Qed.
Lemma k2_ticks : lks k2 TicksLock = initlock.
Proof. exact (good_ticks None k1 k1_good). Qed.

#[local] Opaque k2.

Definition prio_ok (p : proc) : bool := bool_decide (0 ≤ priority p ≤ PRIORITY_MAX).
Lemma prios_ok (s : kst unit) : forallb prio_ok (procs s) = true → priorities_ok s.
Proof. intros Hf j p Hp _. apply (check_all s prio_ok j p) in Hp; [|exact Hf]. by apply bool_decide_eq_true in Hp. Qed.

(** The child of priority 1 runs and the one of priority 4 does not. *)
Lemma scheduler_runs_best_level_witness :
  2%nat ∈ value [] scheduler_pass k2 ∧ 1%nat ∉ value [] scheduler_pass k2.
Proof.
  assert (priorities_ok k2) as Hok by (apply prios_ok; by vm_compute).
  destruct (entry k2 1 (proj1 k2_idle) ltac:(lia)) as [p1 H1], (entry k2 2 (proj1 k2_idle) ltac:(lia)) as [p2 H2].
  assert (level_of 100 p2 = 1 ∧ state p2 = RUNNABLE) as [L2 R2].
  { assert (check k2 2 (λ p, bool_decide (level_of 100 p = 1) && is_state RUNNABLE p) = true) as Hc by (by vm_compute).
    apply (checked _ _ _ p2) in Hc; [|exact H2]. apply andb_prop in Hc as [?%bool_decide_eq_true ?%bool_decide_eq_true]. split; assumption. }
  assert (level_of 100 p1 = 4 ∧ state p1 = RUNNABLE) as [L1 R1].
  { assert (check k2 1 (λ p, bool_decide (level_of 100 p = 4) && is_state RUNNABLE p) = true) as Hc by (by vm_compute).
    apply (checked _ _ _ p1) in Hc; [|exact H1]. apply andb_prop in Hc as [?%bool_decide_eq_true ?%bool_decide_eq_true]. split; assumption. }
  assert (ticks k2 = 100) as Et by (by vm_compute).
  assert (best 100 k2 1) as HB.
  { split; [exists 2%nat, p2; split; [exact H2|split; [exact R2|exact L2]]|]. intros j p Hp Hr.
    assert (forallb (λ p, negb (is_state RUNNABLE p) || (1 <=? level_of 100 p)) (procs k2) = true) as Hc by (by vm_compute).
    apply (check_all _ _ j p) in Hc; [|exact Hp]. unfold is_state in Hc. rewrite bool_decide_true in Hc by exact Hr. by apply Z.leb_le. }
  rewrite <-Et in HB.
  destruct (wp_exec [] _ _ _ (scheduler_runs_best_level (λ _, True) 1 k2 (yielding_runs _ _ _) k2_idle k2_ticks Hok HB)) as (_ & _ & _ & W1).
  rewrite Et in W1. split.
  - apply (W1 2%nat p2 I H2 R2). exact L2.
  - rewrite (proj1 (W1 1%nat p1 I H1 R1)), L1. discriminate.
Defined.

(** The child of priority 4 is passed over at tick 100 and runs at tick 180. *)
Definition k4 : kst unit := set_ticks 180 (exec scheduler_pass k2).

Lemma idle_ticks t (s : kst unit) : idle s → idle (set_ticks t s).
Proof. intros [[a b c] d]. split; [by split|exact d]. Qed.

Lemma procs_ticks t (s : kst unit) : procs (set_ticks t s) = procs s.
Proof. reflexivity. Qed.

Lemma k4_idle : idle k4.
Proof.
  unfold k4. apply idle_ticks. apply (wp_exec [] _ k2 (λ _ s, idle s)).
  assert (priorities_ok k2) as Hok by (apply prios_ok; by vm_compute).
  destruct (entry k2 2 (proj1 k2_idle) ltac:(lia)) as [p2 H2]. assert (state p2 = RUNNABLE) as R2.
  { assert (check k2 2 (is_state RUNNABLE) = true) as Hc by (by vm_compute). apply (checked _ _ _ p2) in Hc; [|exact H2]. by apply bool_decide_eq_true in Hc. }
  destruct (best_exists (ticks k2) k2 2 p2 H2 R2 Hok) as (B & HB & _).
  apply (wp_pass B (λ _, True)); [apply yielding_runs|exact k2_idle|exact k2_ticks|exact Hok|exact HB|].
  intros l x L. apply L.
Qed.

Lemma aging_bounds_waiting_witness : 1%nat ∉ value [] scheduler_pass k2 ∧ 1%nat ∈ value [] scheduler_pass k4.
Proof.
  assert (1%nat ∉ value [] scheduler_pass k2) as Hn.
  { assert (value [] scheduler_pass k2 = [2%nat]) as -> by (by vm_compute). set_solver. }
  split; [exact Hn|].
  destruct (entry k2 1 (proj1 k2_idle) ltac:(lia)) as [p H1].
  assert (state p = RUNNABLE ∧ ready_since p = 0 ∧ priority p = 4) as (R1 & R2 & R3).
  { assert (check k2 1 (λ p, is_state RUNNABLE p && ((ready_since p =? 0) && (priority p =? 4))) = true) as Hc by (by vm_compute).
    apply (checked _ _ _ p) in Hc; [|exact H1].
    apply andb_prop in Hc as [?%bool_decide_eq_true [?%Z.eqb_eq ?%Z.eqb_eq]%andb_prop]. split_and!; assumption. }
  assert (ticks k2 = 100) as Et by (by vm_compute). assert (ticks k4 = 180) as Et4 by (by vm_compute).
  assert (lks k4 TicksLock = initlock) as Hl by (by vm_compute).
  assert (priorities_ok k2) as Hok by (apply prios_ok; by vm_compute).
  assert (priorities_ok k4) as Hok4 by (apply prios_ok; by vm_compute).
  pose proof (aging_bounds_waiting k2 k4 1 p (yielding_runs _) k2_idle k2_ticks Hok k4_idle Hl Hok4 H1 R1
    ltac:(rewrite R2, Et; lia) ltac:(rewrite Et; lia)) as W.
  apply (wp_exec []) in W. destruct W as [W|W]; [destruct (Hn W)|].
  destruct (entry k4 1 (proj1 k4_idle) ltac:(lia)) as [q Hq].
  pose proof Hq as Ep. unfold k4 in Ep. rewrite procs_ticks in Ep.
  assert (ticks k2 + AGING_INTERVAL * priority p ≤ ticks k4 < 2 ^ 32) as Ht
    by (rewrite Et, Et4, R3; unfold AGING_INTERVAL; lia).
  exact (wp_exec [] _ _ _ (W q q Ep Hq (like_refl q) Ht)).
Defined.

(** Stamped one tick ahead of the snapshot, the lowest priority beats all. *)
Lemma stale_clock_boosts_witness : level_of 100 (set_ready 101 (start RUNNABLE 4 None blank)) = 0.
Proof.
  apply (stale_clock_boosts 100 1); [reflexivity|simpl; unfold PRIORITY_MAX; lia|reflexivity|lia|lia|lia].
Defined.

(** ** The life of a process *)

Lemma k1_entry i f : (i < 64)%nat → check k1 i f = true → ∃ p, procs k1 !! i = Some p ∧ f p = true.
Proof.
  intros Hi Hc. destruct (entry k1 i (gd_unlocked _ k1_good) Hi) as [p Hp]. exists p. split; [exact Hp|].
  exact (checked _ _ _ _ Hc Hp).
Qed.

Lemma k1_free l : lks k1 l = initlock.
Proof. by rewrite (gd_locks _ k1_good). Qed.
Lemma k1_current : cproc k1 = Some 0%nat.
Proof. by vm_compute. Qed.

Lemma kfork_clones_witness :
  ∃ j c, procs (exec kfork k1) !! j = Some c ∧ state c = RUNNABLE ∧ parent c = Some 0%nat ∧ priority c = 2 ∧ pid c = 4.
Proof.
  assert (value 0 kfork k1 = 4) as Hv by (by vm_compute).
  destruct (k1_entry 0 (λ p, is_state RUNNING p && (priority p =? 2)) ltac:(lia) ltac:(by vm_compute)) as (p & Hp & Hc).
  apply andb_prop in Hc as [Hst%bool_decide_eq_true Hpr%Z.eqb_eq].
  assert (used p) as Hu by (unfold used; rewrite Hst; discriminate).
  assert (nextpid k1 = 4) as Hn by (by vm_compute). assert (nextpid k1 < 2 ^ 31 - 1) as Hn' by (rewrite Hn; lia).
  assert (files_open (fsys k1) p) as Hfo by (split; [intros; exact I|exact I]).
  destruct (gd_inv _ k1_good) as [g Hg].
  pose proof (kfork_clones g 0 p k1 Hg (gd_unlocked _ k1_good) (k1_free _) (k1_free _) (k1_free _) (k1_free _) k1_current Hp Hu Hfo Hn') as W.
  apply (wp_exec 0) in W. rewrite Hv in W. destruct W as (g' & _ & _ & _ & _ & W).
  destruct W as [[W _]|[_ (j & q & tf & pt & Hq & _ & _ & Ep & _)]]; [discriminate W|].
  exists j, (child_of 0 p q 4 tf pt). rewrite Ep, list_lookup_insert_eq by exact (lookup_lt_Some _ _ _ Hq).
  split; [reflexivity|]. split; [reflexivity|]. split; [reflexivity|]. split; [exact Hpr|reflexivity].
Defined.

(** Process 1 exits with status 7; its parent is process 0. *)
Definition k5 : kst unit := set_cproc (Some 1%nat) k1.

Lemma current_cproc c (s : kst unit) : cproc (set_cproc c s) = c.
Proof. reflexivity. Qed.
Lemma free_cproc c (s : kst unit) l : good s → lks (set_cproc c s) l = initlock.
Proof. intros G. simpl. by rewrite (gd_locks _ G). Qed.
#[local] Opaque k5.

Lemma kexit_leaves_zombie_witness :
  ∃ p, procs (exec (kexit_zombie 1 7 ;; sched_enter) k5) !! 1%nat = Some p ∧ state p = ZOMBIE ∧ xstate p = 7.
Proof.
  assert (unlocked k5) as U by exact (unlocked_cproc _ _ (gd_unlocked _ k1_good)).
  assert (noff (kcpu k5) = 0) as Hn by (by vm_compute).
  assert (lks k5 WaitLock = initlock) as Hl by exact (free_cproc _ _ _ k1_good).
  assert (cproc k5 = Some 1%nat) as Hc by exact (current_cproc _ _).
  destruct (entry k5 1 U ltac:(lia)) as [p Hp].
  assert (parent p ≠ Some 1%nat) as Hpp.
  { assert (check k5 1 (λ p, bool_decide (parent p ≠ Some 1%nat)) = true) as E by (by vm_compute).
    apply (checked _ _ _ p) in E; [|exact Hp]. by apply bool_decide_eq_true in E. }
  pose proof (kexit_leaves_zombie 1 p 7 k5 U Hn Hl Hc Hp Hpp) as W. apply (wp_exec (0%nat, true)) in W.
  destruct W as (_ & _ & _ & _ & W & _). exists (ended 7 p). split; [exact W|]. split; reflexivity.
Defined.

(** Process 1 has exited when its parent waits. *)
Definition k6 : kst unit := with_proc 1 (ended 7 (default blank (procs k1 !! 1%nat))) k1.

Lemma good_ended i p x (s : kst unit) :
  good s → procs s !! i = Some p → used p → ofile p = replicate NOFILE 0 → good (with_proc i (ended x p) s).
Proof.
  intros [[g I] U c d] Hp Hu Ho. split; [|by apply unlocked_with|exact c|exact d]. exists g.
  apply (pinv_entry g s i p); [exact I|exact Hp|exact Hu|discriminate|done|simpl; by rewrite Ho|by intros _].
Qed.

Lemma k6_good : good k6.
Proof.
  destruct (k1_entry 1 (λ p, is_state RUNNABLE p && bool_decide (ofile p = replicate NOFILE 0)) ltac:(lia) ltac:(by vm_compute))
    as (p & Hp & Hc). apply andb_prop in Hc as [Hst%bool_decide_eq_true Ho%bool_decide_eq_true].
  unfold k6. rewrite Hp. cbn [default from_option id].
  apply good_ended; [exact k1_good|exact Hp|unfold used; rewrite Hst; discriminate|exact Ho].
Qed.
#[local] Opaque k6.

Lemma kwait_collects_witness : value 0 (kwait 1 0) k6 = 2 ∧ ∃ p, procs (exec (kwait 1 0) k6) !! 1%nat = Some p ∧ ¬ used p.
Proof.
  assert (value 0 (kwait 1 0) k6 = 2) as Hv by (by vm_compute). split; [exact Hv|].
  pose proof (gd_unlocked _ k6_good) as U. assert (cproc k6 = Some 0%nat) as Hc by (by vm_compute).
  assert (lks k6 WaitLock = initlock) as Hl by (rewrite (gd_locks _ k6_good); reflexivity).
  destruct (entry k6 0 U ltac:(lia)) as [p Hp], (entry k6 1 U ltac:(lia)) as [q Hq].
  assert (used p) as Hu.
  { assert (check k6 0 (is_state RUNNING) = true) as E by (by vm_compute).
    apply (checked _ _ _ p) in E; [|exact Hp]. apply bool_decide_eq_true in E. unfold used. rewrite E. discriminate. }
  assert (zombie_child 0 q) as Hz.
  { assert (check k6 1 (λ q, bool_decide (parent q = Some 0%nat) && is_state ZOMBIE q) = true) as E by (by vm_compute).
    apply (checked _ _ _ q) in E; [|exact Hq]. apply andb_prop in E as [?%bool_decide_eq_true ?%bool_decide_eq_true].
    split; assumption. }
  assert (∀ k q', (k < 1)%nat → procs k6 !! k = Some q' → ¬ zombie_child 0 q') as Hb.
  { intros k q' Hk Hq' [E _]. assert (k = 0%nat) as -> by lia.
    assert (check k6 0 (λ q, bool_decide (parent q ≠ Some 0%nat)) = true) as E' by (by vm_compute).
    apply (checked _ _ _ q') in E'; [|exact Hq']. apply bool_decide_eq_true in E'. exact (E' E). }
  destruct (gd_inv _ k6_good) as [g Hg].
  pose proof (kwait_collects 0 g 0 1 p q 0 k6 Hg U Hl ltac:(lia) Hc Hp Hu Hq Hz Hb) as W.
  apply (wp_exec 0) in W. rewrite Hv in W. destruct W as (g1 & m & g' & _ & _ & _ & [W|W]).
  - destruct W as (_ & _ & _ & Ep & _). exists (cleared q). rewrite Ep, list_lookup_insert_eq by exact (lookup_lt_Some _ _ _ Hq).
    split; [reflexivity|]. intros Hx. exact (Hx eq_refl).
  - destruct W as [W _]. discriminate W.
Defined.
