(* ===== verification/ExamplesFs.v ===== *)
(** * A concrete file system

    A small disk and the cache in front of it, built by running [binit],
    [initlog], [begin_op] and changes of blocks; the theorems on the buffer
    cache, the log and the inodes are applied to it. *)

From Stdlib Require Import FunctionalExtensionality.
From S2P Require Import Prelude Riscv Memory Kalloc Vm Spinlock Proc ProcOps FsState Sleeplock Bio BioOps BioSpec.
From S2P Require Import Log LogOps LogCommit LogRecover Tx TxOps TxLog Fs FsBlocks FsInode FsFile FsRw FsDir Examples ExamplesProc.

#[local] Existing Instance small.

#[local] Instance alone : Switch fs := {|
  to_scheduler _ := mret tt; to_process _ := mret tt; interrupts := mret tt |}.
#[local] Instance brief : Patience := {| patience := 3 |}.

(** 100 blocks: boot, super, 31 of the log, 2 of inodes, 1 of the free map. *)
Definition sb0 : superblock := mkSb FSMAGIC 100 64 32 31 2 33 35.

(** The map marks the blocks 0 to 35. *)
Definition map0 : memory := λ x, if (0 <=? x) && (x <? 4) then 255 else if x =? 4 then 15 else 0.
Definition disk0 (n : Z) : memory := if n =? 35 then map0 else λ _, 0.

Definition buf0 : buf := mkBuf false 0 0 unlocked_sleep 0 0 0 (λ _, 0).
Definition inode0 : inode := mkInode 0 0 0 unlocked_sleep false 0 0 0 0 0 (λ _, 0).
Definition file0 : file := mkFile FD_NONE 0 false false 0 0 0 0.

(** The zeroed memory of a kernel that starts, with the super block read. *)
Definition boot_fs (dk : Z → memory) : fs :=
  mkFs (mkBcache (λ _, buf0) dk []) (mkLog 0 0 false 0 0 0 (λ _, 0)) sb0 (λ _, inode0) (λ _, file0).
Definition f0 : fs := boot_fs disk0.

(** Its current directory is entry 0 of the table of inodes. *)
Definition running7 : proc := set_cwd 1 (set_pid 7 (set_state RUNNING blank)).
Definition s0 : K :=
  mkKst (λ _, initlock) (mkCpu 0 true true) 0 (Some 0%nat) (running7 :: replicate (NPROC - 1) blank) 8 None 0 m1 f0.

Lemma s0_quiet : quiet 7 s0.
Proof.
  split; try done.
  - exists 0%nat, running7. done.
  - intros [|j] p Hp; [by injection Hp as <-|]. apply lookup_replicate in Hp as [-> _]. done.
Qed.

Lemma boot_blank dk : blank_cache (bc (boot_fs dk)).
Proof. intros b _. done. Qed.

#[local] Opaque m1 exec value.

(** The locks of [s0] are set up already. *)
Lemma s0_locks lk : (∀ l, lk l = initlock ∨ lk l = lks s0 l) → set_lks lk s0 = s0.
Proof. intros Hl. unfold set_lks. simpl. f_equal. extensionality l. by destruct (Hl l) as [->| ->]. Qed.

(** ** After boot *)

Definition booted (dk : Z → memory) : fs := fsys (exec (binit ;; initlog ROOTDEV sb0) (set_fsys (boot_fs dk) s0)).
Definition f1 : fs := booted disk0.

Lemma booted_idle dk : hdr_n (dk 2) = 0 → idle 7 dk (booted dk) ∧ sb (booted dk) = sb0 ∧ lstart (lg (booted dk)) = 2.
Proof.
  intros E0. unfold booted. apply (wp_exec tt (binit ;; initlog ROOTDEV sb0) (set_fsys (boot_fs dk) s0) (λ _ s, idle 7 dk (fsys s) ∧ sb (fsys s) = sb0 ∧ lstart (lg (fsys s)) = 2)).
  apply wp_bind, (wp_binit 7); [apply boot_blank|]. intros c lk R Hl.
  rewrite s0_locks by (intros l; destruct (Hl l) as [|(? & _)]; auto).
  apply (wp_initlog 7 s0 s0_quiet dk [] _ sb0 2); [exact R|reflexivity|lia|by vm_compute| |].
  { split; [rewrite E0; done|]. rewrite E0. intros i Hi. lia. }
  intros a c' l' R' Er Eh Hd Hx (blk & ->). split; [|done]. split; try done.
  exists (awrites a), (adisk a). split_and!; [|exact Hd|].
  - replace (a_clean (adisk a) (awrites a)) with a; [exact R'|]. apply bst_eq; try done. intros n. apply (br_clean _ _ _ R'). by rewrite Er.
  - intros x Hnx. rewrite Hx by exact Hnx. unfold redo. by rewrite E0.
Qed.
Lemma f1_idle : idle 7 disk0 f1 ∧ sb f1 = sb0 ∧ lstart (lg f1) = 2.
Proof. by apply booted_idle. Qed.

#[local] Opaque booted f1.

(** ** An open transaction *)

Definition opened (dk : Z → memory) : fs := fsys (exec begin_op (set_fsys (booted dk) s0)).
Definition f2 : fs := opened disk0.

Lemma opened_tx dk : hdr_n (dk 2) = 0 →
  ∃ d, tx 7 ∅ ∅ d ∅ (opened dk) ∧ sole (opened dk) ∧ sb (opened dk) = sb0 ∧ lstart (lg (opened dk)) = 2 ∧ ∀ x, ¬ (2 ≤ x ≤ 32) → d x = dk x.
Proof.
  intros E0. destruct (booted_idle dk E0) as (I & Es & El). unfold opened.
  apply (wp_exec tt begin_op (set_fsys (booted dk) s0) (λ _ s, ∃ d, tx 7 ∅ ∅ d ∅ (fsys s) ∧ sole (fsys s) ∧ sb (fsys s) = sb0 ∧
    lstart (lg (fsys s)) = 2 ∧ ∀ x, ¬ (2 ≤ x ≤ 32) → d x = dk x)).
  apply (wp_begin_op 7 s0 s0_quiet dk); [exact I|]. intros f' d T S O Hd. exists d. cbn [fsys set_fsys].
  split_and!; [exact T|exact S|by rewrite (ou_sb _ _ O)|by rewrite (ou_start _ _ O)|]. intros x Hx. apply Hd. unfold in_log. rewrite El. exact Hx.
Qed.
Lemma f2_open : ∃ d, tx 7 ∅ ∅ d ∅ f2 ∧ sole f2 ∧ sb f2 = sb0 ∧ lstart (lg f2) = 2 ∧ ∀ x, ¬ (2 ≤ x ≤ 32) → d x = disk0 x.
Proof. by apply opened_tx. Qed.

#[local] Opaque opened f2 s0.

Lemma opened_block f x : lstart (lg f) = 2 → 33 ≤ x < 100 → ok_block f x.
Proof. intros El Hx. unfold ok_block, in_log. rewrite El. change LOGBLOCKS with 30. lia. Qed.
Lemma f2_block x : 33 ≤ x < 100 → ok_block f2 x.
Proof. destruct f2_open as (d & _ & _ & _ & El & _). by apply opened_block. Qed.

(** Block 40 read and held. *)
Definition f4 : fs := fsys (exec (bread ROOTDEV 40) (set_fsys f2 s0)).
Definition b4 : nat := value 0%nat (bread ROOTDEV 40) (set_fsys f2 s0).

Lemma f4_held : ∃ d, tx 7 ∅ {[40]} d ∅ f4 ∧ handle (bc f4) b4 40 ∧ sole f4.
Proof.
  destruct f2_open as (d & T & S & _). unfold f4, b4.
  apply (wp_exec 0%nat (bread ROOTDEV 40) (set_fsys f2 s0) (λ b s, ∃ d, tx 7 ∅ {[40]} d ∅ (fsys s) ∧ handle (bc (fsys s)) b 40 ∧ sole (fsys s))).
  apply (wp_tread 7 s0 s0_quiet ∅ ∅ d ∅ f2 40); [exact T|by apply f2_block|apply not_elem_of_empty|right; by apply Nat.ltb_lt|].
  intros b f' T' Hh E. exists d. rewrite union_empty_r_L in T'. split_and!; [exact T'|exact Hh|by eapply sole_evolves].
Qed.

(** Changes of [n] blocks from 40 on, in one transaction. *)
Definition change (n : nat) : M K unit :=
  for_up n 40 1 (λ x, b ← bread ROOTDEV x; bupd b (λ m, upd m 0 x) ;; log_write b ;; brelse b).
Definition f5 (n : nat) : fs := fsys (exec (change n) (set_fsys f2 s0)).

Lemma f5_full n : (n ≤ 30)%nat →
  ∃ d, tx 7 ∅ ∅ d (list_to_set (seqZ 40 (Z.of_nat n))) (f5 n) ∧ sole (f5 n) ∧ lstart (lg (f5 n)) = 2.
Proof.
  intros Hn. destruct f2_open as (d & T & S & _ & El & _). unfold f5.
  apply (wp_exec tt (change n) (set_fsys f2 s0) (λ _ s, ∃ d, tx 7 ∅ ∅ d (list_to_set (seqZ 40 (Z.of_nat n))) (fsys s) ∧ sole (fsys s) ∧ lstart (lg (fsys s)) = 2)).
  apply (wp_for_up (λ k s, ∃ f d, s = set_fsys f s0 ∧ evolves ∅ f2 f ∧ tx 7 ∅ ∅ d (list_to_set (seqZ 40 (Z.of_nat k))) f)).
  - exists f2, d. split; [reflexivity|]. split; [reflexivity|exact T].
  - intros k s Hk (f & d' & -> & E & T'). rewrite Z.mul_1_r. set (x := 40 + Z.of_nat k). set (L := list_to_set _) in T'.
    assert (size L = k) as Hs by (unfold L; rewrite size_list_to_set, length_seqZ by apply NoDup_seqZ; lia).
    assert (ok_block f x) as Hok by (rewrite (ok_block_evolves _ _ _ _ E); apply f2_block; lia).
    assert (room 0 L ∅) as Hr by (unfold room; rewrite union_empty_r_L, Hs; unfold NBUF; lia).
    cbv beta. apply (wp_tget 7 s0 s0_quiet ∅ d' L f x); [exact T'|exact Hok|apply not_elem_of_empty|exact Hr|]. intros b g T1 H1 E1 _.
    apply (wp_tset 7 s0 s0_quiet ∅ d' L g b x); [exact T1|apply not_elem_of_empty|exact H1|by eapply room_logs|]. intros g' T2 E2.
    eexists g', _. split; [done|]. split; [exact (evolves_trans _ _ _ _ E (evolves_trans _ _ _ _ E1 E2))|].
    replace (list_to_set (seqZ 40 (Z.of_nat (Datatypes.S k)))) with ({[x]} ∪ L : gset Z); [exact T2|].
    unfold L. replace (Z.of_nat (Datatypes.S k)) with (Z.of_nat k + 1) by lia. rewrite seqZ_app, list_to_set_app_L by lia.
    change (seqZ (40 + Z.of_nat k) 1) with [x]. rewrite list_to_set_singleton_L. apply union_comm_L.
  - intros s (f & d' & -> & E & T'). exists d'. cbn [fsys set_fsys]. split; [exact T'|]. split; [by eapply sole_evolves|]. by rewrite (ev_start _ _ _ E).
Qed.

#[local] Opaque f4 b4 f5.

(** ** The buffer cache *)

(** The abstract cache of an open transaction with no block in use. *)
Lemma tx_brep D L f : tx 7 ∅ ∅ D L f → ∃ a l, brep 7 a (bc f) ∧ ring (bufs (bc f)) l ∧ hold a = ∅ ∧ dom (refs a) = L ∧ cont a = D.
Proof.
  intros (a & R & T & Eh & Ec & El & _). destruct (br_ring _ _ _ R) as [l Rl]. exists a, l.
  rewrite (topen_dom _ _ _ _ _ R T), Eh, El. split_and!; try done. set_solver.
Qed.

Lemma bread_refines_witness :
  ∃ a l, wp (bread ROOTDEV 40) (set_fsys f2 s0) (λ b s', brep 7 (a_read 40 a) (bc (fsys s')) ∧ ring (bufs (bc (fsys s'))) l ∧
    bdata (bufs (bc (fsys s')) b) 0 = 0).
Proof.
  destruct f2_open as (d & T & _ & _ & _ & Hd). destruct (tx_brep _ _ _ T) as (a & l & R & Rl & Eh & Er & Ec). exists a, l. eapply wp_mono.
  - apply (bread_refines 7 a 40 f2 l s0 s0_quiet R Rl); [rewrite Eh; apply not_elem_of_empty|right; rewrite Er; by apply Nat.ltb_lt|].
    unfold nrefs. replace (refs a !! 40) with (None : option Z); [done|]. symmetry. apply not_elem_of_dom. rewrite Er. apply not_elem_of_empty.
  - intros b s' (c' & -> & R' & Rl' & _ & E & _). split_and!; [exact R'|exact Rl'|]. cbn [bc fsys set_fsys set_bc]. rewrite E, Ec, Hd; [reflexivity|lia].
Defined.

Lemma brelse_refines_witness : wp (brelse b4) (set_fsys f4 s0) (λ _ s', ∃ l, ring (bufs (bc (fsys s'))) (b4 :: l)).
Proof.
  destruct f4_held as (d & (a & R & T & Eh & Ec & El & _) & Hh & _). destruct (br_ring _ _ _ R) as [l Rl].
  pose proof (brelse_refines 7 a b4 40 f4 l s0 s0_quiet R Rl Hh) as P. rewrite decide_True in P by (rewrite Eh; by apply elem_of_singleton).
  assert (nrefs a 40 = 1) as E1.
  { rewrite (to_refs _ _ _ T), El, Eh. reflexivity. }
  eapply wp_mono; [apply P; intros _; apply (to_clean _ _ _ T); rewrite ?El; apply not_elem_of_empty|].
  intros _ s' (c' & -> & _ & Rl'). rewrite E1 in Rl'. eexists. exact Rl'.
Defined.

(** ** The log *)

Lemma transaction_durable_witness :
  wp (begin_op ;; b ← bread ROOTDEV 40; bupd b (λ m, upd m 0 1) ;; log_write b ;; brelse b ;; end_op) (set_fsys f1 s0) (λ _ s',
    disk (bc (fsys s')) 40 0 = 1).
Proof.
  destruct f1_idle as (I & _ & El). assert (ok_block f1 40) as Hok by (unfold ok_block, in_log; rewrite El; change LOGBLOCKS with 30; lia).
  eapply wp_mono; [exact (transaction_durable 7 s0 disk0 f1 40 (λ m, upd m 0 1) s0_quiet I Hok)|].
  intros _ s' (f' & -> & _ & _ & Hx). cbn [fsys set_fsys]. rewrite Hx by apply Hok. reflexivity.
Defined.

Lemma full_log_cannot_commit_witness : commit (set_fsys (f5 30) s0) = Panic "bget: no buffers".
Proof.
  destruct (f5_full 30 (le_n _)) as (d & T & _). apply (full_log_cannot_commit 7 s0 d _ (f5 30) s0_quiet T).
  rewrite size_list_to_set, length_seqZ by apply NoDup_seqZ. reflexivity.
Defined.

Lemma bread_no_buffers_witness : bread ROOTDEV 90 (set_fsys (f5 30) s0) = Panic "bget: no buffers".
Proof.
  destruct (f5_full 30 (le_n _)) as (d & T & _). destruct (tx_brep _ _ _ T) as (a & l & R & _ & _ & Ed & _).
  apply (bread_no_buffers 7 a 90 (f5 30) s0 s0_quiet R).
  - rewrite Ed, elem_of_list_to_set, elem_of_seqZ. lia.
  - apply (all_used 7 a); [exact R|]. rewrite Ed, size_list_to_set, length_seqZ by apply NoDup_seqZ. reflexivity.
Defined.

Lemma commit_crash_safe_witness :
  wp commit (set_fsys (f5 2) s0) (λ _ s', lh_n (lg (fsys s')) = 0 ∧ hdr_n (disk (bc (fsys s')) 2) = 0).
Proof.
  destruct (f5_full 2 ltac:(lia)) as (d & (a & R & T & Eh & Ec & El & _) & S & Es).
  assert (txn (lg (f5 2)) a) as Tx.
  { apply (topen_txn 7 ∅ _ _ (bc (f5 2)) R T Eh); rewrite El; [done|]. by apply Nat.ltb_lt. }
  eapply wp_mono; [apply (commit_crash_safe 7 a (f5 2) s0 s0_quiet R Tx); apply S|].
  intros _ s' (W & _ & _ & E1 & E2 & _). rewrite Es in E2. by split.
Defined.

(** ** The free map *)

Lemma sb0_bblock b : 0 ≤ b < 100 → BBLOCK b sb0 = 35.
Proof. intros Hb. unfold BBLOCK, BPB, BSIZE, sb0. cbn [bmapstart]. rewrite Z.div_small by lia. reflexivity. Qed.

(** The blocks from 36 on are free. *)
Lemma map0_free b : 0 ≤ b < 100 → bit_free map0 (b mod BPB) = (36 <=? b).
Proof.
  intros Hb. assert (forallb (λ b, Bool.eqb (bit_free map0 (b mod BPB)) (36 <=? b)) (seqZ 0 100) = true) as Hall by (by vm_compute).
  rewrite forallb_forall in Hall. apply Bool.eqb_prop, Hall, list_elem_of_In, elem_of_seqZ. lia.
Qed.

Lemma f2_free d b : (∀ x, ¬ (2 ≤ x ≤ 32) → d x = disk0 x) → 0 ≤ b < 100 → is_free d sb0 b = (36 <=? b).
Proof. intros Hd Hb. unfold is_free. rewrite sb0_bblock, Hd by lia. by apply map0_free. Qed.

(** Only blocks of data are free. *)
Lemma opened_map d f : sb f = sb0 → lstart (lg f) = 2 → (∀ b, 0 ≤ b < 100 → is_free d sb0 b = true → 36 ≤ b) → bmap_ok ∅ d f.
Proof.
  intros Es El Hf. pose proof (opened_block f) as Hok. split.
  - rewrite Es. cbn [sb_size sb0]. lia.
  - rewrite Es. cbn [sb_size bmapstart sb0]. split; [lia|reflexivity].
  - rewrite Es. cbn [sb_size sb0]. intros b Hb. rewrite sb0_bblock by exact Hb. split; [by apply Hok|apply not_elem_of_empty].
  - rewrite Es. cbn [sb_size sb0]. intros b Hb Hfb%Hf; [|exact Hb].
    split; [lia|]. split; [apply Hok; [exact El|lia]|]. split; [apply not_elem_of_empty|]. intros b' Hb'. rewrite sb0_bblock by exact Hb'. lia.
Qed.
Lemma f2_map d : sb f2 = sb0 → (∀ x, ¬ (2 ≤ x ≤ 32) → d x = disk0 x) → bmap_ok ∅ d f2.
Proof.
  intros Es Hd. destruct f2_open as (_ & _ & _ & _ & El & _). apply opened_map; [done..|]. intros b Hb. rewrite (f2_free d b Hd Hb). apply Z.leb_le.
Qed.

Lemma bfree_free_panics_witness : bfree ROOTDEV 50 (set_fsys f2 s0) = Panic "freeing free block".
Proof.
  destruct f2_open as (d & T & _ & Es & _ & Hd).
  apply (bfree_free_panics 7 s0 ∅ d ∅ f2 50 s0_quiet T (f2_map d Es Hd)); [by apply Nat.ltb_lt|rewrite Es; cbn [sb_size sb0]; lia|].
  rewrite Es, (f2_free d 50 Hd) by lia. reflexivity.
Defined.

(** ** Inodes *)

(** Inode 5, a file, in entry 0; entry 1 is to be read from the disk. *)
Definition table0 (i : nat) : inode :=
  match i with
  | 0%nat => mkInode ROOTDEV 5 1 unlocked_sleep true T_FILE 0 0 1 2000 (λ k, if k <? 2 then 40 + k else 0)
  | 1%nat => mkInode ROOTDEV 5 1 unlocked_sleep false 0 0 0 0 0 (λ _, 0)
  | _ => inode0
  end.

Lemma table0_range : inode_range (table0 0).
Proof.
  split; [by vm_compute; split; [discriminate|]..|].
  intros k Hk. cbn [table0 addrs]. destruct (Z.ltb_spec k 2); unfold NDIRECT in *; lia.
Qed.

Lemma inode_roundtrip_witness :
  wp (iupdate 0 ;; ilock 1) (set_fsys (set_itable table0 f2) s0) (λ _ s',
    itype (itable (fsys s') 1) = T_FILE ∧ isize (itable (fsys s') 1) = 2000).
Proof.
  destruct f2_open as (d & T & _ & Es & _). pose proof (f2_block 33 ltac:(lia)) as Hok. revert T Es Hok. generalize f2. intros f T Es Hok.
  assert (inode_block (set_itable table0 f) 5 = 33) as Eb by (unfold inode_block; cbn [sb set_itable]; by rewrite Es).
  eapply wp_mono.
  - apply (inode_roundtrip 7 s0 ∅ d ∅ (set_itable table0 f) 0 1 s0_quiet T).
    + by apply Nat.ltb_lt.
    + exact table0_range.
    + discriminate.
    + reflexivity.
    + change (inum (itable (set_itable table0 f) 0)) with 5. rewrite Eb. exact Hok.
    + apply not_elem_of_empty.
    + cbn [itable set_itable table0 iref]. lia.
    + reflexivity.
    + reflexivity.
    + reflexivity.
    + reflexivity.
  - intros _ s' (f' & -> & _ & _ & (E1 & _ & _ & _ & E2 & _)). cbn [fsys set_fsys]. rewrite E1, E2. split; reflexivity.
Defined.

(** ** An empty file *)

Definition file1 (t : Z) : inode := mkInode ROOTDEV 5 1 unlocked_sleep true t 0 0 1 0 (λ _, 0).

Lemma file1_ok t f d : sb f = sb0 → bmap_ok ∅ d f → file_ok ∅ d f (file1 t).
Proof.
  intros Es B. assert (∀ bn, baddr d (file1 t) bn = 0) as E0 by (intros bn; unfold baddr; by destruct (bn <? NDIRECT)).
  split; [exact B|reflexivity|intros Hn; by destruct Hn|intros bn _ Hn; by destruct Hn; rewrite E0|intros bn bn' _ _ Hn; by destruct Hn; rewrite E0].
Qed.

Lemma file1_solid t d : solid d (file1 t).
Proof. split; [by vm_compute|]. intros bn Hb Hlt. cbn [isize file1] in Hlt. pose proof bsize_pos. nia. Qed.

Lemma file1_home t f d : sb f = sb0 → ok_block f 33 → is_free d sb0 33 = false → inode_home ∅ d f (file1 t).
Proof.
  intros Es Hok Hf. assert (inode_block f (inum (file1 t)) = 33) as Eb by (unfold inode_block; by rewrite Es).
  split; rewrite Eb; [exact Hok|apply not_elem_of_empty|]. split; [split|discriminate|].
  - rewrite Es. intros _. exact Hf.
  - rewrite Es. intros b Hb. rewrite sb0_bblock by exact Hb. discriminate.
  - discriminate.
  - intros bn _. unfold baddr. by destruct (bn <? NDIRECT).
Qed.

(** A name entered in an empty directory. *)
Lemma dirlink_then_lookup_witness :
  wp (r ← dirlink 0 [104; 105] 7; if r =? 0 then dirlookup 0 [104; 105] else mret None)
    (set_fsys (put_inode 0 (file1 T_DIR) (set_itable (λ _, inode0) f2)) s0)
    (λ res s', match res with Some (i, off) => inum (itable (fsys s') i) = 7 ∧ off = 0 | None => True end).
Proof.
  destruct f2_open as (d & T & _ & Es & _ & Hd). pose proof (f2_block 33 ltac:(lia)) as Hok. pose proof (f2_map d Es Hd) as B.
  pose proof (f2_free d 33 Hd ltac:(lia)) as Hf. revert T Es Hok B. generalize f2. intros f T Es Hok B. set (g := put_inode 0 (file1 T_DIR) (set_itable (λ _, inode0) f)).
  assert (itable g 0 = file1 T_DIR) as Ei by apply put_inode_eq. eapply wp_mono.
  - apply (dirlink_then_lookup 7 s0 ∅ d ∅ g 0 [104; 105] 7 s0_quiet T); rewrite ?Ei.
    + split; [apply file1_ok; [exact Es|by destruct B]|apply file1_solid|reflexivity|reflexivity].
    + apply file1_home; [exact Es|exact Hok|exact Hf].
    + by apply Nat.ltb_lt.
    + by vm_compute.
    + change (nents (file1 T_DIR)) with 0. split_and!; [lia|reflexivity|intros k Hk; lia|intros Hlt; by destruct (Z.lt_irrefl _ Hlt)].
    + cbn. lia.
    + lia.
    + apply itable_ok_put; [split; cbn [itable set_itable]; [reflexivity|intros i j _ _ Hp; discriminate Hp]|by vm_compute|].
      intros _ j _ _ (Hp & _). discriminate Hp.
    + unfold NINODE. lia.
    + reflexivity.
    + exists 1%nat. split; [unfold NINODE; lia|right; reflexivity].
  - intros res s' (f' & D' & L' & -> & _ & Hm). destruct res as [[i off]|]; [|exact I]. cbn [fsys set_fsys].
    destruct Hm as ((_ & _ & Hi) & j & dp' & -> & ((Hj1 & Hj2) & _) & _). rewrite Ei in Hj2. change (nents (file1 T_DIR)) with 0 in Hj2. split; [exact Hi|unfold DIRENT_SIZE; lia].
Defined.
