(* ===== verification/ExamplesPath.v ===== *)
(** * A concrete directory

    A disk with a root directory and a file in it, opened for a transaction as
    in [ExamplesFs]; [namex] is applied to it. *)

From S2P Require Import Prelude Riscv Memory Kalloc Vm Spinlock Proc ProcOps FsState Sleeplock Bio BioOps BioSpec.
From S2P Require Import Log LogOps LogCommit LogRecover Tx TxOps TxLog Fs FsBlocks FsInode FsFile FsRw FsDir FsPath Examples ExamplesProc ExamplesFs.

#[local] Existing Instances small ExamplesFs.alone ExamplesFs.brief.

(** The root is inode 1, with the entries [.] and [a] in block 40; [a] is the
    empty file 2. *)
Definition root1 : inode := mkInode ROOTDEV 1 0 unlocked_sleep true T_DIR 0 0 1 32 (λ k, if k =? 0 then 40 else 0).
Definition file2 : inode := mkInode ROOTDEV 2 0 unlocked_sleep true T_FILE 0 0 1 0 (λ _, 0).
Definition ents : list Z := mk_dirent 1 (name_field [46]) ++ mk_dirent 2 (name_field [97]).

(** The map marks the blocks 0 to 40. *)
Definition mapd : memory := λ x, if (0 <=? x) && (x <? 5) then 255 else if x =? 5 then 1 else 0.
Definition diskd (n : Z) : memory :=
  if n =? 33 then encode_inode root1 (dinode_off 1) (encode_inode file2 (dinode_off 2) (λ _, 0))
  else if n =? 35 then mapd else if n =? 40 then store_bytes (λ _, 0) 0 ents else λ _, 0.

(** The process has the root, which is not read yet, as its directory. *)
Definition tabled (i : nat) : inode :=
  match i with 0%nat => mkInode ROOTDEV 1 1 unlocked_sleep false 0 0 0 0 0 (λ _, 0) | _ => inode0 end.
Definition fd : fs := set_itable tabled (opened diskd).

#[local] Opaque opened s0.

(** Inode [n], decoded. *)
Definition decoded (n : Z) : inode :=
  decode_inode (diskd 33) (dinode_off n) (mkInode ROOTDEV n 0 unlocked_sleep true 0 0 0 0 0 (λ _, 0)).

Lemma fd_open : ∃ d, tx 7 ∅ ∅ d ∅ fd ∧ sb fd = sb0 ∧ lstart (lg fd) = 2 ∧ itable fd = tabled ∧ ∀ x, ¬ (2 ≤ x ≤ 32) → d x = diskd x.
Proof.
  destruct (opened_tx diskd eq_refl) as (d & T & _ & Es & El & Hd). exists d. unfold fd.
  revert T Es El. generalize (opened diskd). intros f T Es El. split; [exact T|]. split; [exact Es|]. split; [exact El|]. split; [reflexivity|exact Hd].
Qed.

#[local] Opaque fd.

Section dir.
Context (f : fs) (d : Z → memory) (Es : sb f = sb0) (El : lstart (lg f) = 2) (Et : itable f = tabled) (Hd : ∀ x, ¬ (2 ≤ x ≤ 32) → d x = diskd x).

Lemma fd_dinode n : n = 1 ∨ n = 2 → inode_block f n = 33 ∧ dinode_at d f n = decoded n.
Proof.
  intros Hn. assert (inode_block f n = 33) as Eb by (unfold inode_block; rewrite Es; by destruct Hn as [->| ->]).
  split; [exact Eb|]. unfold dinode_at. rewrite Eb, Hd by lia. reflexivity.
Qed.

Lemma root_addrs k : 0 ≤ k ≤ NDIRECT → addrs (decoded 1) k = if k =? 0 then 40 else 0.
Proof.
  intros Hk. assert (forallb (λ k, addrs (decoded 1) k =? (if k =? 0 then 40 else 0)) (seqZ 0 13) = true) as Hall by (by vm_compute).
  rewrite forallb_forall in Hall. apply Z.eqb_eq, Hall, list_elem_of_In, elem_of_seqZ. unfold NDIRECT in Hk. lia.
Qed.

Lemma root_baddr bn : 0 ≤ bn → baddr d (decoded 1) bn = if bn =? 0 then 40 else 0.
Proof.
  intros Hb. unfold baddr. rewrite (root_addrs NDIRECT) by (unfold NDIRECT; lia). change (NDIRECT =? 0) with false. cbv iota. rewrite Z.eqb_refl.
  destruct (Z.ltb_spec bn NDIRECT); [apply root_addrs; lia|]. destruct (Z.eqb_spec bn 0); [unfold NDIRECT in *; lia|done].
Qed.

Lemma root_dent j : 0 ≤ j < 2 → dent d (decoded 1) j = if j =? 0 then mk_dirent 1 (name_field [46]) else mk_dirent 2 (name_field [97]).
Proof.
  intros Hj. transitivity ((λ k, diskd 40 (j * DIRENT_SIZE + Z.of_nat k)) <$> seq 0 16).
  - apply list_fmap_ext. intros i k [-> Hk]%lookup_seq. unfold fbyte. assert (0 ≤ j * DIRENT_SIZE + Z.of_nat (0 + i) < BSIZE) as Hx.
    { change DIRENT_SIZE with 16. change (Z.to_nat DIRENT_SIZE) with 16%nat in Hk. change BSIZE with 1024. lia. }
    rewrite Z.div_small, Z.mod_small, root_baddr by lia. change (0 =? 0) with true. cbv iota. rewrite Hd by lia. reflexivity.
  - assert (j = 0 ∨ j = 1) as [-> | ->] by lia; by vm_compute.
Qed.

Lemma diskd_free b : 0 ≤ b < 100 → is_free d sb0 b = (41 <=? b).
Proof.
  intros Hb. unfold is_free. rewrite sb0_bblock, Hd by lia.
  assert (forallb (λ b, Bool.eqb (bit_free mapd (b mod BPB)) (41 <=? b)) (seqZ 0 100) = true) as Hall by (by vm_compute).
  rewrite forallb_forall in Hall. apply Bool.eqb_prop, Hall, list_elem_of_In, elem_of_seqZ. lia.
Qed.

Lemma root_data : data_block ∅ d f 40.
Proof.
  split; rewrite ?Es; [cbn [sb_size sb0]; lia|by rewrite diskd_free by lia|by apply opened_block|apply not_elem_of_empty|].
  intros b' Hb'. by rewrite sb0_bblock by exact Hb'.
Qed.

Lemma root_ok : dir_ok ∅ d f (decoded 1).
Proof.
  split; [split|split|reflexivity|reflexivity].
  - apply opened_map; [exact Es|exact El|]. intros b Hb. rewrite diskd_free by exact Hb. intros Hle%Z.leb_le. lia.
  - reflexivity.
  - rewrite root_addrs by (unfold NDIRECT; lia). intros Hn. by destruct Hn.
  - intros bn Hb. rewrite root_baddr, root_addrs by (unfold NDIRECT; lia). destruct (bn =? 0); intros Hn; [|by destruct Hn]. split; [apply root_data|discriminate].
  - intros bn bn' Hb Hb'. rewrite !root_baddr by lia. destruct (Z.eqb_spec bn 0), (Z.eqb_spec bn' 0); intros Hn E; congruence || done.
  - change (isize (decoded 1)) with 32. unfold MAXFILE, BSIZE, NDIRECT, NINDIRECT. split; [lia|by vm_compute].
  - change (isize (decoded 1)) with 32. intros bn Hb Hlt. change BSIZE with 1024 in Hlt. assert (bn = 0) as -> by lia. by rewrite root_baddr.
Qed.

Lemma fd_tree : tree ∅ d f {[1; 2]}.
Proof.
  assert (∀ n, n ∈ ({[1; 2]} : gset Z) → inode_block f n = 33 ∧ dinode_at d f n = decoded n ∧ (n = 1 ∨ n = 2)) as Hn.
  { intros n Hn. assert (n = 1 ∨ n = 2) as H12 by set_solver. by destruct (fd_dinode n H12). }
  split; [intros n Hin..|intros n j Hin]; destruct (Hn n Hin) as (Eb & Ed & H12); rewrite ?Eb, ?Ed.
  - by apply opened_block.
  - apply not_elem_of_empty.
  - by destruct H12 as [->| ->].
  - by destruct H12 as [->| ->].
  - destruct H12 as [->| ->]; [intros _; apply root_ok|discriminate].
  - destruct H12 as [->| ->]; [|discriminate]. intros _. change (nents (decoded 1)) with 2. intros Hj _. rewrite root_dent by exact Hj.
    destruct (j =? 0); rewrite de_inum_mk by lia; set_solver.
Qed.

Lemma fd_synced : synced 7 {[1; 2]} d tabled [] None f.
Proof.
  split; rewrite ?Et.
  - split; [intros [|i] _; done|]. intros [|i] [|j] _ _ Hi Hj; try discriminate; done.
  - intros [|k] _; done.
  - intros [|k] _; done.
  - intros k Hk. by apply not_elem_of_nil in Hk.
  - intros [|k] _ Hp; [discriminate|discriminate Hp].
  - intros [|k] _ _ _; reflexivity.
  - discriminate.
Qed.

Lemma root_find c j : 0 ≤ j < 2 → (∀ k, 0 ≤ k < j → names_entry c (dent d (decoded 1) k) = false) →
  names_entry c (dent d (decoded 1) j) = true → dir_find d (decoded 1) c = Some (j + 1).
Proof.
  intros Hj H1 H2. rewrite (dir_find_some _ _ _ j), root_dent; [|exact Hj| |change (nents (decoded 1)) with 2; lia].
  - assert (j = 0 ∨ j = 1) as [->| ->] by lia; cbv [Z.eqb]; rewrite de_inum_mk by lia; reflexivity.
  - split; [change (nents (decoded 1)) with 2; lia|]. split; [exact H1|intros _; exact H2].
Qed.

(** The walk of [/./a] ends at the file. *)
Lemma fd_follow : follow d f false 1 [[46]; [97]] = Some 2.
Proof.
  destruct (fd_dinode 1 (or_introl eq_refl)) as [_ E1]. cbn [follow]. rewrite E1. change (itype (decoded 1) =? T_DIR) with true. cbn [andb].
  rewrite (root_find [46] 0); [|lia|intros k Hk; lia|rewrite root_dent by lia; by vm_compute].
  cbn [mbind option_bind]. change (0 + 1) with 1. rewrite E1. change (itype (decoded 1) =? T_DIR) with true. cbv iota.
  rewrite (root_find [97] 1); [reflexivity|lia| |rewrite root_dent by lia; by vm_compute].
  intros k Hk. assert (k = 0) as -> by lia. rewrite root_dent by lia. by vm_compute.
Qed.
End dir.

Lemma namex_walks_witness :
  wp (namex [47; 46; 47; 97] false (repeat 0 14)) (set_fsys fd s0) (λ r s', ∃ i, r.1 = Some i ∧ inum (itable (fsys s') i) = 2).
Proof.
  destruct fd_open as (d & T & Es & El & Et & Hd). eapply wp_mono.
  - apply (namex_walks 7 s0 ∅ d ∅ fd {[1; 2]} 0 running7 [47; 46; 47; 97] false (repeat 0 14) s0_quiet).
    + reflexivity.
    + reflexivity.
    + exact T.
    + by apply Nat.ltb_lt.
    + apply fd_tree; assumption.
    + apply elem_of_union_l, elem_of_singleton. reflexivity.
    + rewrite Et; apply fd_synced; assumption.
    + exists 1%nat, 2%nat. split_and!; [by apply Nat.ltb_lt|by apply Nat.ltb_lt|discriminate|reflexivity|reflexivity].
    + by apply Nat.ltb_lt.
    + reflexivity.
    + reflexivity.
    + apply elem_of_union_l, elem_of_singleton. reflexivity.
    + cbn. lia.
  - intros r s' (f' & -> & Har). change (components [47; 46; 47; 97]) with [[46]; [97]] in Har. change (start_of _ _ _) with 1 in Har.
    rewrite (fd_follow fd d) in Har by assumption. unfold arrived in Har. destruct r.1 as [i|]; [|destruct Har]. destruct Har as (_ & En & _). exists i. split; [reflexivity|exact En].
Defined.
