(* ===== verification/ExamplesCon.v ===== *)
(** * A concrete console

    A UART that records what is sent; the theorems on the console are applied to
    it. *)

From Stdlib Require Import Ascii.
From S2P Require Import Ulib Printf.
From S2P Require Import Prelude Riscv Memory Kalloc Vm VmInv Cow VmUser CopyUser CopyPut Spinlock Proc ProcOps Sleeplock Console ConsoleOps Examples.

#[local] Existing Instances small small_ok.

(** Always ready, with no input. *)
#[local] Instance recorder : Uart := {|
  uart := list Z; read_reg r d := (if r =? LSR then LSR_TX_IDLE else 0, d); write_reg r v d := if r =? THR then d ++ [v] else d |}.
#[local] Instance whole : HasCon con := {| con_of := id; put_con k _ := k |}.
#[local] Instance lone : Switch con := {| to_scheduler _ := mret tt; to_process _ := mret tt; interrupts := mret tt |}.
#[local] Instance brief : Patience := {| patience := 3 |}.
#[local] Instance whole_laws : ConLaws con.
Proof. by split. Qed.
#[local] Instance recorder_laws : UartLaws recorder brief.
Proof. refine {| sent d := d |}; [done|done|]. intros d. left. discriminate. Defined.

Definition con0 : con := mkCon (λ _, 0) 4294967290 4294967290 4294967290 0 0 0 [].
Definition proc0 : proc := mkProc UNUSED ChanNull 0 0 0 0 0 None 0 0 0 0 [] [] 0 [].

(** A process with two pages runs. *)
Definition reader : proc := set_pagetable r1 (set_sz 8000 (set_state RUNNING proc0)).
Definition kcon : kst con :=
  mkKst (λ _, initlock) (mkCpu 0 false false) 0 (Some 0%nat) (reader :: replicate (NPROC - 1) proc0) 1 None 0 m3 con0.

Lemma kcon_unlocked : unlocked kcon.
Proof. split; [split; [reflexivity|discriminate]|reflexivity|reflexivity]. Qed.

Lemma kcon_free : lks kcon ConsLock = initlock.
Proof. reflexivity. Qed.

(** The indices are about to wrap around. *)
Lemma con0_empty : crep con0 [] [].
Proof. split; try (by vm_compute); [intros i Hi; change (len []) with 0 in Hi; lia|apply not_elem_of_nil]. Qed.

Lemma consoleintr_refines_witness : wp (consoleintr (ch "a")) (st con0 kcon) (λ _ s', ∃ k', crep k' [] [97] ∧ hw k' = [97]).
Proof.
  generalize kcon_unlocked kcon_free. generalize kcon. intros s U L.
  eapply wp_mono; [exact (consoleintr_refines con0 [] [] (ch "a") s U L con0_empty (conj eq_refl eq_refl) ltac:(discriminate))|].
  intros _ s' (k' & _ & R & _ & _ & E). exists k'. split; [exact R|exact E].
Defined.

(** The buffer of the process lies across its two pages. *)
Lemma reader_writable : span_writable m3 r1 4090 100.
Proof.
  intros va Hva. assert (va / PGSIZE = 0 ∨ va / PGSIZE = 1) as [-> | ->] by (unfold PGSIZE; dlia); split_and!; by vm_compute.
Qed.

#[local] Opaque m3 r1.

Lemma console_line_witness :
  wp (type_keys (str "echo hello" ++ [CR]) ;; consoleread true 4090 100) (st con0 kcon) (λ r s',
    r = 11 ∧ uread (mach s') r1 4097 = Some (ch "l")).
Proof.
  destruct m3_inv as (g & V & Hr). pose proof reader_writable as W. assert (cproc kcon = Some 0%nat ∧ procs kcon !! 0%nat = Some reader ∧ mach kcon = m3) as (Hc & Hp & Hm) by done.
  assert (4090 + Z.of_nat 100 < 2 ^ 64) as H64 by lia. generalize dependent kcon_unlocked. generalize dependent kcon_free.
  revert Hc Hp Hm. generalize kcon. intros s Hc Hp Hm L U. eapply wp_mono.
  - apply (console_line con0 (str "echo hello") 100 4090 0 reader g s U L); [exact con0_empty|by split| |by vm_compute|by apply Nat.ltb_lt|exact Hc|exact Hp|by rewrite Hm|exact Hr|lia|exact H64|by rewrite Hm].
    apply (bool_decide_unpack _). by vm_compute.
  - intros r s' (E & P & _). split; [exact E|]. rewrite (put_reads _ _ _ _ _ _ P r1 4097 Hr) by (split; by vm_compute).
    change (pagetable reader) with r1. change (Z.of_nat (length (str "echo hello" ++ [NL]))) with 11.
    destruct (decide _) as [Hin|Hout]; [reflexivity|]. destruct Hout. split; [reflexivity|lia].
Defined.
