(* ===== verification/ExamplesPipe.v ===== *)
(** * Witnesses for the pipes *)

From S2P Require Import Prelude Riscv Memory Kalloc Vm VmInv VmWalk VmRef VmOps Cow VmUser CopyUser ProcMem Spinlock Proc ProcOps FsState Sleeplock Pipe PipeOps Examples ExamplesProc ExamplesFs.

#[local] Existing Instance small.
#[local] Existing Instance small_ok.
#[local] Instance solo : Switch fs := {| to_scheduler _ := mret tt; to_process _ := mret tt; interrupts := mret tt |}.
#[local] Instance hasty : Patience := {| patience := 3 |}.

#[local] Opaque m1 m2 m3 r1 exec value.

(** A process of 8000 bytes with 1, 2, 3 at 100, and a page for a pipe. *)
Definition u1 : uproc := mkUproc 8000 r1.
Definition p1 : kmem := exec (copyout u1 r1 100 [1; 2; 3]) m3.
Definition pi1 : Z := value 0 kalloc p1.
Definition p2 : kmem := exec kalloc p1.
(** The bytes 7 and 8 are in the ring, across its end; the counters wrap. *)
Definition ring1 : memory :=
  store_bytes (store_bytes (store32 (store32 (store32 (store32 (mem p2) (pi1 + P_READOPEN) 1) (pi1 + P_WRITEOPEN) 1)
    (pi1 + P_NWRITE) 1) (pi1 + P_NREAD) 4294967295) (pi1 + P_DATA + 511) [7]) (pi1 + P_DATA) [8].
Definition p3 : kmem := set_mem ring1 p2.

Lemma p1_inv : ∃ g, vinv g p1 ∧ r1 ∈ roots g.
Proof.
  destruct m3_inv as (g & V & Hr). unfold p1. apply (wp_exec 0 (copyout u1 r1 100 [1; 2; 3]) m3 (λ _ s, ∃ g, vinv g s ∧ r1 ∈ roots g)).
  change (copyout u1 r1 100 [1; 2; 3]) with (copyout_loop 4 u1 (upagetable u1) 100 [1; 2; 3]). eapply wp_mono.
  - assert (usz u1 ≤ TRAPFRAME) as Hs by (by vm_compute). assert (length [1; 2; 3] < 4)%nat as Hl by (simpl; lia).
    assert (are_bytes [1; 2; 3]) as Hb by (by repeat constructor).
    exact (wp_copyout_loop 4 g m3 u1 100 [1; 2; 3] Hl V Hr Hs ltac:(lia) Hb).
  - intros c s' (g' & k & V' & C & _). exists g'. split; [exact V'|]. by rewrite (cf_roots _ _ _ _ _ C).
Qed.

#[local] Opaque p1.

Lemma p2_inv : ∃ g, vinv g p2 ∧ r1 ∈ roots g ∧ private_page g pi1.
Proof.
  destruct p1_inv as (g & V & Hr). assert (pi1 ≠ 0) as Hn by (by vm_compute). revert Hn. unfold pi1, p2.
  apply (wp_exec 0 kalloc p1 (λ r s, r ≠ 0 → ∃ g, vinv g s ∧ r1 ∈ roots g ∧ private_page g r)).
  destruct (kalloc_cases g p1 V) as [[Hfl E]|(p & fl & Hfl & Hp & Hp0 & Hfr & E)].
  { eapply wp_Ok; [exact E|]. intros Hz. by destruct (Hz eq_refl). }
  eapply wp_Ok; [exact E|]. intros _. exists (g_alloc p fl g). destruct (preserves_alloc g p1 p fl V Hfl) as [Pr Pp]. split; [exact (vinv_alloc g p1 V p fl Hfl)|].
  split; [|exact Pp]. apply (pv_root _ _ _ _ _ Pr); [exact Hr|apply not_elem_of_empty].
Qed.

#[local] Opaque p2 pi1.

Lemma p3_pipe : ∃ g, pipe_at g pi1 1 1 [7; 8] p3 ∧ r1 ∈ roots g.
Proof.
  destruct p2_inv as (g & V & Hr & P). exists g. split; [|exact Hr]. assert (beyond pi1 (mem p2) ring1) as B.
  { intros a Ha. unfold ring1, P_READOPEN, P_WRITEOPEN, P_NWRITE, P_NREAD, P_DATA, PGSIZE in *.
    rewrite !store_byte_at, !decide_False, !store32_outside by lia. done. }
  assert (bytes_ok ring1) as Hb.
  { do 2 (apply bytes_ok_store_bytes; [|by apply Forall_singleton]). do 4 apply bytes_ok_store. apply (ki_bytes _ _ (ti_k _ _ (vi_t _ _ V))). }
  split; [by apply (preserves_write g p2 pi1 ring1 V P Hb B)|exact P|]. split; [by vm_compute..|].
  intros [|[|i]] b Hi; [injection Hi as <-; by vm_compute..|done].
Qed.

#[local] Opaque p3.

Lemma p3_user : reads_at p3 r1 100 [1; 2; 3] ∧ ∀ va, 200 ≤ va < 200 + 3 → own_page p3 r1 va.
Proof.
  split.
  - intros [|[|[|i]]] b Hi; [injection Hi as <-; split; by vm_compute..|done].
  - intros va Hva. assert (va / PGSIZE = 0) as E by (unfold PGSIZE; dlia). unfold own_page. rewrite E. split; by vm_compute.
Qed.

Definition writer : proc := set_pagetable r1 (set_sz 8000 running7).
(** The process runs. *)
Definition kp : K :=
  mkKst (λ _, initlock) (mkCpu 0 true true) 0 (Some 0%nat) (writer :: replicate (NPROC - 1) blank) 8 None 0 p3 f0.

Lemma kp_caller : caller 0 writer pi1 kp.
Proof. by split. Qed.

Lemma pipewrite_queues_witness :
  value 0 (pipewrite pi1 100 3) kp = 3 ∧ ∃ g, pipe_at g pi1 1 1 [7; 8; 1; 2; 3] (mach (exec (pipewrite pi1 100 3) kp)).
Proof.
  destruct p3_pipe as (g & P & Hr). destruct p3_user as [R _]. pose proof kp_caller as C.
  assert (qlen [7; 8] + qlen [1; 2; 3] ≤ PIPESIZE) as Hl by (by vm_compute).
  pose proof (pipewrite_queues 0 writer g pi1 1 1 [7; 8] 100 [1; 2; 3] kp C eq_refl Hr P ltac:(lia) ltac:(lia) R Hl) as W. change (qlen [1; 2; 3]) with 3 in W.
  destruct (wp_exec 0 _ _ _ W) as (E & m' & _ & P' & _). split; [exact E|].
  refine (ex_intro _ g _). exact P'.
Defined.

Lemma piperead_takes_witness :
  value 0 (piperead pi1 200 3) kp = 2 ∧ uread (mach (exec (piperead pi1 200 3) kp)) r1 201 = Some 8.
Proof.
  assert (0 ≤ 201 < MAXVA) as Hv by (by vm_compute). assert (200 + 3 ≤ MAXVA) as Hm by (by vm_compute).
  destruct p3_pipe as (g & P & Hr). destruct p3_user as [_ O]. pose proof kp_caller as C.
  pose proof (piperead_takes 0 writer g pi1 1 1 [7; 8] 200 3 kp C eq_refl Hr P ltac:(by left) ltac:(lia) ltac:(lia) Hm O) as W.
  destruct (wp_exec 0 _ _ _ W) as (E & m' & _ & _ & Wr). split; [exact E|].
  unfold wrote in Wr.
  pose proof (Wr r1 201 Hr Hv) as W1.
 
destruct (decide _) as [Hd|Hd] in W1; [exact W1|]. destruct Hd. split; [reflexivity|]. change (Z.of_nat (length (take (Z.to_nat 3) [7; 8]))) with 2. lia.
Defined.
