(* ===== verification/ExamplesRw.v ===== *)
(** * Witness for [writei] and [readi]

    A process writes three bytes of its memory to an empty file and reads them
    back to another place of its memory. *)

From S2P Require Import Prelude Riscv Memory Kalloc Vm VmInv VmWalk VmRef VmOps Cow VmUser CopyUser CopyPut ProcMem Spinlock Proc ProcOps FsState Sleeplock.
From S2P Require Import Bio BioOps BioSpec Tx TxOps Fs FsBlocks FsInode FsFile FsRw Pipe PipeOps Examples ExamplesProc ExamplesFs ExamplesPipe.

#[local] Existing Instance small.
#[local] Existing Instance small_ok.
#[local] Instance single : Switch fs := {| to_scheduler _ := mret tt; to_process _ := mret tt; interrupts := mret tt |}.
#[local] Instance quick : Patience := {| patience := 3 |}.

#[local] Opaque m1 m2 m3 r1 p1 p2 p3 f2.

Lemma kp_quiet : quiet 7 kp.
Proof.
  split; try done.
  - exists 0%nat, writer. done.
  - intros [|j] p Hp; [by injection Hp as <-|]. apply lookup_replicate in Hp as [-> _]. done.
Qed.

Lemma writer_writable : span_writable p3 r1 200 3.
Proof. intros va Hva. assert (va / PGSIZE = 0) as -> by (unfold PGSIZE; dlia). split_and!; by vm_compute. Qed.

Lemma kp_runs : ∃ g, runs_on g r1 kp.
Proof.
  destruct p3_pipe as (g & P & Hr). exists g. split; [exact _|]. split; [apply P|]. split; [exact Hr|]. by exists 0%nat, writer.
Qed.

Lemma kp_mach : mach kp = p3.
Proof. reflexivity. Qed.

#[local] Opaque kp.

Lemma write_then_read_witness :
  wp (r ← writei 0 (FromUser 100) 0 3; readi 0 (ToUser 200) 0 r) (set_fsys (put_inode 0 (file1 T_FILE) f2) kp)
    (λ res s', ∃ tot, 0 ≤ tot ≤ 3 ∧ res = (tot, take (Z.to_nat tot) [1; 2; 3]) ∧ (1 < tot → uread (mach s') r1 201 = Some 2)).
Proof.
  destruct f2_open as (d & T & _ & Es & _ & Hd). pose proof (f2_block 33 ltac:(lia)) as Hok. pose proof (f2_map d Es Hd) as B.
  pose proof (f2_free d 33 Hd ltac:(lia)) as Hf. revert T Es Hok B. generalize f2. intros f T Es Hok B. set (e := put_inode 0 (file1 T_FILE) f).
  assert (itable e 0 = file1 T_FILE) as Ei by apply put_inode_eq. destruct kp_runs as (g & R). pose proof R as (_ & V & Hr & _).
  destruct p3_user as [U _]. rewrite <-kp_mach in U. pose proof writer_writable as W. rewrite <-kp_mach in W. eapply wp_mono.
  - apply (write_then_read 7 kp g r1 (FromUser 100) (ToUser 200) ∅ d ∅ e 0 [1; 2; 3] 0 kp_quiet); rewrite ?Ei.
    + split; [exact R|]. split; [lia|exact U].
    + split; [exact R|]. split; [lia|]. split; [by vm_compute|exact W].
    + by repeat constructor.
    + exact T.
    + apply file1_ok; [exact Es|]. by destruct B.
    + apply file1_solid.
    + apply file1_home; [exact Es|exact Hok|exact Hf].
    + by vm_compute.
    + by vm_compute.
    + by apply Nat.ltb_lt.
  - intros res s' (tot & f' & m' & D' & L' & -> & _ & -> & P & [Ht _] & _). exists tot. split; [exact Ht|]. split; [reflexivity|]. intros H1.
    cbn [mach set_fsys set_mach]. cbn [delivered] in P. rewrite (put_reads _ _ _ _ _ _ P r1 201 Hr) by (by vm_compute).
    change (Z.of_nat (length [1; 2; 3])) with 3 in Ht. assert (tot = 2 ∨ tot = 3) as [-> | ->] by lia; (destruct (decide _) as [Hin|Hout]; [reflexivity|destruct Hout; split; [reflexivity|simpl; lia]]).
Defined.
