(* ===== verification/ExamplesVirtio.v ===== *)
(** * Witnesses for the disk driver *)

From S2P Require Import Prelude Riscv Memory Kalloc Vm CopyUser Spinlock Proc FsState Sleeplock Virtio VirtioOps Examples ExamplesProc ExamplesFs.

#[local] Existing Instance alone_driver.

(** A device that completes the requests in the order in which it took them. *)
Record dev0 := mkDev { d_media : memory; d_seen : Z; d_taken : list Z }.

#[local] Instance plain_vdev : VDev := {| vdev := dev0; read_mmio _ h := (0, h); write_mmio _ _ h := h |}.

Definition dev_accept (s : vdisk) : option vdisk :=
  let h := vhw s in
  if d_seen h =? av_idx s then None
  else Some (set_vhw (mkDev (d_media h) (u16 (d_seen h + 1)) (d_taken h ++ [av_ring s (d_seen h mod NUM)])) s).

Definition dev_perform (s : vdisk) : option vdisk :=
  match d_taken (vhw s) with
  | [] => None
  | h :: t =>
      let i1 := dnext (desc s h) in
      match daddr (desc s h), daddr (desc s i1), daddr (desc s (dnext (desc s i1))) with
      | POps o, PData b, PStatus j =>
          let at_ := rsector (ops s o) * 512 in
          let m := d_media (vhw s) in
          let write := rtype (ops s o) =? VIRTIO_BLK_T_OUT in
          let m' := if write then store_bytes m at_ (load_bytes (bytes s b) 0 BSIZE) else m in
          let d' := if write then bytes s else <[b := store_bytes (bytes s b) 0 (load_bytes m at_ BSIZE)]> (bytes s) in
          Some (set_vhw (mkDev m' (d_seen (vhw s)) t) (set_used (u16 (us_idx s + 1)) (<[us_idx s mod NUM := h]> (us_ring s))
                  (set_info_status (<[j := 0]> (info_status s)) (set_bytes d' s))))
      | _, _, _ => None
      end
  end.

#[local] Instance plain_blockdev : BlockDev := {|
  media := d_media; capacity := 2000; seen := d_seen; taken := d_taken;
  dstep s s' := dev_accept s = Some s' ∨ dev_perform s = Some s' |}.

#[local] Instance plain_laws : BlockLaws plain_blockdev.
Proof.
  split.
  - intros s s' [E|E]; [left|right].
    + unfold dev_accept in E. destruct (Z.eqb_spec (d_seen (vhw s)) (av_idx s)); [done|]. injection E as <-. split; [done|]. eexists. split; [reflexivity|done].
    + unfold dev_perform in E. destruct (d_taken (vhw s)) as [|h t] eqn:Et; [done|]. exists [], h, t. split; [done|].
      intros b write sector j (o & i1 & i2 & E1 & E2 & E3 & E4) _ _. rewrite E1 in E. cbn [daddr dnext] in E. rewrite E3 in E. cbn [daddr dnext] in E.
      rewrite E4, E2 in E. cbn [daddr rtype rsector] in E. destruct write; injection E as <-; eexists (mkDev _ _ _); split_and!; reflexivity.
  - done.
  - cbn. lia.
Qed.

(** Block 3 of the medium holds 9 everywhere, the others 0. *)
Definition v0 : vdisk :=
  mkVd 0 0 0 (λ _, mkDesc PNull 0 0 0) 65535 (λ _, 0) 65535 (λ _, 0) (λ _, 1) 65535 (λ _, None) (λ _, 0) (λ _, mkReq 0 0 0)
    (λ _, 0) (λ _, 3) (λ _ _, 0) (mkDev (λ a, if a / 1024 =? 3 then 9 else 0) 65535 []).
Definition x0 : dsys := mkSys v0 None ∅.

(** Buffer 2 is read: the call, the device, the handler. *)
Definition after_ {A} (c : M vdisk A) (s : vdisk) : vdisk := match c s with Ok (_, s') => s' | _ => s end.
Definition w1 : vdisk := after_ alloc3_desc v0.
Definition w2 : vdisk := after_ (format 2 false 6 0 1 2) w1.
Definition w3 : vdisk := after_ publish w2.
Definition w4 : vdisk := after_ notify w3.
Definition w5 : vdisk := default w4 (dev_accept w4).
Definition w6 : vdisk := default w5 (dev_perform w5).
Definition w7 : vdisk := after_ intr_round w6.
Definition x7 : dsys := mkSys w7 None {[2%nat := (false, 0)]}.

Lemma x0_init : vinit x0.
Proof. by split. Qed.

Lemma x7_run : run vstep [Called 2 false 3] x0 x7.
Proof.
  apply (run_step _ (Some (Called 2 false 3)) [] _ (mkSys w2 (Some 2%nat) {[2%nat := (false, 0)]})); [by apply (call_step v0 ∅ 2 false 0 1 2 w1)|].
  apply (run_step _ None [] _ (mkSys w4 None {[2%nat := (false, 0)]})); [by apply (publish_step w2 _ 2 w3)|].
  apply (run_step _ None [] _ (mkSys w5 None {[2%nat := (false, 0)]})); [apply device_step; by left|].
  apply (run_step _ None [] _ (mkSys w6 None {[2%nat := (false, 0)]})); [apply device_step; by right|].
  apply (run_step _ None [] _ x7); [by apply intr_step|constructor].
Qed.

Lemma x7_reached : rtc any_step x0 x7.
Proof. exact (run_steps _ _ _ x7_run). Qed.

(** The file-system state with the same disk and buffers. *)
Definition kv : K :=
  set_fsys (set_bc (mkBcache (λ _, set_bkey ROOTDEV 3 buf0) (λ n _, if n =? 3 then 9 else 0) []) f0) s0.

Lemma kv_agrees : agrees (drv x0) kv.
Proof.
  split; try done. intros n i H0 _ Hi. cbn -[BSIZE Z.div Z.mul]. assert ((n * BSIZE + i) / 1024 = n) as -> by (unfold BSIZE in *; dlia). done.
Qed.

Lemma virtio_refines_witness : ∃ a, run astep [Called 2 false 3] (mkA kv ∅) a ∧ acalls a !! 2%nat = Some (false, true) ∧
  bdata (bufs (bc (fsys (ak a))) 2) 1023 = 9.
Proof.
  destruct (virtio_refines _ x0 x7 kv x0_init kv_agrees x7_run) as (a & Ha & G & Hc). exists a. split; [exact Ha|]. split.
  - apply (Hc 2%nat false 0); [reflexivity|]. by vm_compute.
  - assert (0 ≤ 1023 < BSIZE) as Hi by (unfold BSIZE; lia). rewrite (ag_data _ _ G 2 1023 Hi). by vm_compute.
Defined.

Lemma virtio_safe_witness : ∃ s, retire 0 w7 = Ok (tt, s).
Proof.
  destruct (virtio_safe x0 x7 kv x0_init kv_agrees x7_reached) as (_ & Hr & _). apply (Hr 2%nat false 0); [reflexivity|]. by vm_compute.
Defined.
