(* ===== verification/ExamplesMalloc.v ===== *)
(** * Witnesses for the allocator of user programs *)

From S2P Require Import Prelude Memory Umalloc.

(** A process of at most 1 MB whose variable base is at 16. *)
#[local] Instance small_sbrk : Sbrk := {|
  base := 16; limit := 2 ^ 20;
  sbrk n := λ s, if brk s + n <=? 2 ^ 20 then Ok (brk s, mkHeap (λ a, if a <? brk s then hm s a else 0) (freep s) (brk s + n))
                 else Ok (SBRK_ERROR, s) |}.

Definition zero : memory := λ _, 0.
Lemma zero_ok : bytes_ok zero.
Proof. intros a. by vm_compute. Qed.

(** Nothing allocated; and 20 free units, then two blocks in use. *)
Definition h_new : heap := mkHeap zero 0 4096.
Definition h_two : heap :=
  mkHeap (store32 (store64 (store32 (store64 (store32 (store32 zero 4424 8) 4552 5) 4096 16) 4104 20) 16 4096) 24 0) 16 4624.

#[local] Instance small_laws : SbrkLaws small_sbrk.
Proof.
  split; [|done]. intros n s Q Hn Hb H0 HQ. cbn [sbrk small_sbrk]. unfold wp. destruct (Z.leb_spec (brk s + n) (2 ^ 20)); [|done].
  apply HQ; [| |done]; [intros a Ha; by rewrite (proj2 (Z.ltb_lt _ _) Ha)|]. intros a. destruct (a <? brk s); [apply Hb|lia].
Qed.

Lemma h_two_ok : heap_ok 4096 [(4096, 20)] [(4544, 5); (4416, 8)] h_two.
Proof.
  split.
  - do 6 apply bytes_ok_store. exact zero_ok.
  - by vm_compute.
  - exists (16, 0). split; [left|done].
  - cbn [linked nodes]. split_and!; by vm_compute.
  - by vm_compute.
  - intros x ->%list_elem_of_singleton. by vm_compute.
  - intros x [->| ->%list_elem_of_singleton]%elem_of_cons; split_and!; by vm_compute.
  - intros x y [->| ->%list_elem_of_singleton]%elem_of_cons ->%list_elem_of_singleton; right; by vm_compute.
  - by apply (bool_decide_unpack _).
  - intros x y [->| ->%list_elem_of_singleton]%elem_of_cons [->| ->%list_elem_of_singleton]%elem_of_cons Hne; [done|right|left|done]; by vm_compute.
  - by vm_compute.
Qed.

Lemma h_new_ok : heap_new 4096 h_new.
Proof. split; [exact zero_ok|done|done|by vm_compute]. Qed.

(** The first call asks for 100 bytes; it gets them, as the process may grow. *)
Lemma malloc_correct_witness :
  heap_new 4096 h_new ∧ wp (malloc 10 100) h_new (λ p s', ∃ fl' b, p = b.1 + HDR ∧ 100 ≤ HDR * (b.2 - 1) ∧ heap_ok 4096 fl' [b] s').
Proof.
  assert (match malloc 10 100 h_new with Ok (p, _) => p | _ => 0 end = 69520) as Hp by (by vm_compute).
  split; [exact h_new_ok|]. assert (heap_rep 4096 [] [] h_new) as Hrep by (right; exact (conj eq_refl (conj eq_refl h_new_ok))).
  pose proof (malloc_correct 4096 [] [] 100 10 h_new Hrep ltac:(lia) ltac:(lia) ltac:(simpl; lia)) as H.
  unfold wp in *. destruct (malloc 10 100 h_new) as [[p s']| |]; [|exact H|exact H].
  destruct H as [_ [H|(-> & _)]]; [exact H|discriminate].
Defined.

(** Of two blocks in use the one next to the free block is freed. *)
Lemma free_correct_witness :
  wp (free 5 4432) h_two (λ _ s', ∃ fl', heap_ok 4096 fl' [(4544, 5)] s' ∧ units fl' = 28).
Proof.
  pose proof (free_correct 4096 [(4096, 20)] [(4544, 5); (4416, 8)] [(4544, 5)] (4416, 8) 5 h_two h_two_ok
    (Permutation_swap _ _ _) ltac:(simpl; lia)) as H.
  eapply wp_mono; [exact H|]. intros _ s' (fl' & H' & _ & _ & U & _). exists fl'. exact (conj H' U).
Defined.
