(* ===== verification/ExamplesMkfs.v ===== *)
(** * Witnesses for mkfs *)

From S2P Require Import Prelude Memory FsState Log LogCommit Fs FsBlocks FsInode FsFile FsRw FsDir Mkfs MkfsOps.

(** README, of five bytes in two reads, and user/_cat, of 2000. *)
Definition readme : input := mkInput [82; 69; 65; 68; 77; 69] (Some [[104; 101; 108]; [108; 111]]).
Definition cat : input := mkInput [117; 115; 101; 114; 47; 95; 99; 97; 116] (Some [replicate 1024 7; replicate 976 7]).
Definition two : list input := [readme; cat].

Lemma two_ok : Forall input_ok two.
Proof.
  assert (size (fdata cat) = 2000) as Hc by (by vm_compute).
  repeat constructor; try (by eexists); try (by apply (bool_decide_unpack _); vm_compute); try (by vm_compute).
Qed.
Lemma two_fits : size two + 2 ≤ NINODES ∧ nmeta + total (plan two) ≤ FSSIZE.
Proof. split; by vm_compute. Qed.

#[local] Opaque main mk0.

Lemma mkfs_contents_witness :
  wp (main two) mk0 (λ _ s, decode_sb (img s 1) = sb0 ∧ isize (inode_at (img s) blank 3) = 2000 ∧
    dent (img s) (inode_at (img s) blank 1) 3 = mk_dirent 3 (name_field [99; 97; 116])).
Proof.
  destruct two_fits as [H1 H2]. pose proof (mkfs_contents two two_ok H1 H2) as H. eapply wp_mono; [exact H|]. intros u s Hs. cbv zeta in Hs.
  destruct (Hs blank) as (S1 & _ & _ & S4 & _). destruct (S4 1%nat cat eq_refl) as (_ & _ & S5 & _ & S6). exact (conj S1 (conj S5 S6)).
Defined.

Lemma mkfs_mountable_witness :
  (size two + 2) mod (BSIZE / DIRENT_SIZE) ≠ 0 ∧
  wp (main two) mk0 (λ _ s, ∀ f, sb f = decode_sb (img s 1) → lstart (lg f) = logstart (sb f) → dir_ok ∅ (img s) f (inode_at (img s) blank 1)).
Proof.
  assert ((size two + 2) mod (BSIZE / DIRENT_SIZE) ≠ 0) as Hm by (by vm_compute). split; [exact Hm|].
  destruct two_fits as [H1 H2]. pose proof (mkfs_mountable two two_ok H1 H2) as H. eapply wp_mono; [exact H|]. intros u s Hs f E1 E2.
  cbv zeta in Hs. destruct (Hs f blank E1 E2 eq_refl) as (_ & _ & _ & _ & Hd). exact (Hd Hm).
Defined.
