(* ===== verification/ExamplesKvm.v ===== *)
(** * Booting the kernel's page table on a concrete machine

    A machine with 200 free pages: the hypotheses of the theorem about [kvminit] hold
    after [kinit]. *)

From S2P Require Import Prelude Riscv Memory Kalloc Vm VmInv VmWalk VmRef VmOps Cow VmUser VmRoot Kvm.

#[local] Instance roomy : Layout := {|
  etext := KERNBASE + 16 * PGSIZE; trampoline := KERNBASE + 15 * PGSIZE; kend := PHYSTOP - 200 * PGSIZE |}.
#[local] Instance roomy_ok : LayoutOk.
Proof. split; vm_compute; try split; done. Qed.

Definition raw : kmem := mkKmem (λ _, 0) false 0 (λ _, 0).
Definition upper_pages : list Z := (λ k, PHYSTOP - k * PGSIZE) <$> seqZ 1 167.

Lemma upper_pages_NoDup : NoDup upper_pages.
Proof. apply NoDup_fmap_2_strong; [|apply NoDup_seqZ]. intros x y _ _ E. unfold PGSIZE in E. lia. Qed.

Lemma upper_pages_ok p : p ∈ upper_pages → page_ok p.
Proof.
  intros (k & -> & Hk%elem_of_seqZ)%list_elem_of_fmap. unfold page_ok. cbn [kend roomy]. change PHYSTOP with (557056 * PGSIZE).
  split_and!; [|unfold PGSIZE; lia..]. replace (_ - _) with ((557056 - k) * PGSIZE) by lia. by apply Z.mod_mul.
Qed.

Lemma booted : ∃ g m, kinit raw = Ok (tt, m) ∧ vinv g m ∧ (167 ≤ length (gfl g))%nat.
Proof.
  assert (wp kinit raw (λ _ m, ∃ g, vinv g m ∧ (167 ≤ length (gfl g))%nat)) as W.
  { apply wp_kinit; [by intros x|done|]. intros fl s K Hfl. exists (g_boot fl). split; [by apply boot_vinv|].
    change 167%nat with (length upper_pages). apply submseteq_length, NoDup_submseteq; [apply upper_pages_NoDup|].
    intros p Hp. by apply Hfl, upper_pages_ok. }
  destruct (wp_run _ _ _ W) as ([] & m & E & g & V & Hl). exists g, m. exact (conj E (conj V Hl)).
Qed.

Lemma kvminit_maps_witness :
  ∃ m, kinit raw = Ok (tt, m) ∧
    wp (kvminit ;; kvminithart) (mkHart m 0 0 false) (λ _ h, satp_mode (hsatp h) = 8 ∧
      ∃ stk, length stk = NPROC ∧ ∀ v, 0 ≤ v < VPAGES → upte (hmem h) (kernel_pagetable h) v = kernel_map stk v).
Proof.
  destruct booted as (g & m & E & V & Hl). exists m. split; [exact E|].
  assert (etext mod PGSIZE = 0) as He by reflexivity.
  eapply wp_mono; [apply (kvminit_maps g (mkHart m 0 0 false) V He Hl)|].
  intros u h (Hm & _ & Hr & g' & stk & _ & _ & _ & Hs & _ & _ & Hk). split; [exact Hm|]. exists stk. split; [exact Hs|].
  rewrite <-Hr. exact Hk.
Defined.
