(* ===== verification/ExamplesExec.v ===== *)
(** * A process that starts a program

    A process with an empty address space, a second table, a page for its
    trapframe and one with the string of an argument: [exec_stack] runs on them. *)

From S2P Require Import Prelude FsState Sleeplock Bio Log Fs Syscall Exec.
From S2P Require Import Riscv Memory Kalloc Vm VmInv VmWalk VmRef VmOps Cow VmUser CopyUser Fork VmRoot VmFree.
From S2P Require Import ProcVm Spinlock Proc ProcOps ProcMem ProcFork ExecOps Examples ExamplesProc ExamplesFs.

#[local] Existing Instance small.
#[local] Existing Instance small_ok.
#[local] Instance solo : Switch fs := {| to_scheduler _ := mret tt; to_process _ := mret tt; interrupts := mret tt |}.
#[local] Instance hasty : Patience := {| patience := 3 |}.

#[local] Opaque m1 m2 r1 exec value.

Definition e1 : kmem := exec uvmcreate m2.
Definition rx : Z := value 0 uvmcreate m2.
Definition tfx : Z := value 0 kalloc e1.
Definition e2 : kmem := exec kalloc e1.
Definition ax : Z := value 0 kalloc e2.
Definition e3 : kmem := exec kalloc e2.
(** the string ls *)
Definition ls_str : list Z := [108; 115].
Definition e4 : kmem := set_mem (store_bytes (mem e3) ax (ls_str ++ [0])) e3.

(** Two empty tables. *)
Definition two_tables (g : ghost) (m : kmem) : Prop :=
  vinv g m ∧ r1 ∈ roots g ∧ rx ∈ roots g ∧
  ∀ r v, r = r1 ∨ r = rx → 0 ≤ v < VPAGES → has (upte m r v) PTE_V = false.

Lemma two_tables_preserved D g m g' m' :
  vinv g' m' → preserves D g m g' m' → r1 ∉ D → rx ∉ D → two_tables g m → two_tables g' m'.
Proof.
  intros V' P H1 H2 (V & R1 & R2 & Hv). split; [done|]. split; [by apply (pv_root _ _ _ _ _ P)|]. split; [by apply (pv_root _ _ _ _ _ P)|].
  intros r v [->| ->] Hp; rewrite (pv_valid _ _ _ _ _ P) by done; apply Hv; auto.
Qed.

Lemma e1_inv : ∃ g, two_tables g e1.
Proof.
  destruct m2_inv as (g & V & Hr & Hz). assert (rx ≠ 0) as Hn by (by vm_compute). revert Hn. unfold two_tables, rx, e1.
  apply (wp_exec 0 uvmcreate m2 (λ r s, r ≠ 0 → ∃ g, vinv g s ∧ r1 ∈ roots g ∧ r ∈ roots g ∧
    ∀ r' v, r' = r1 ∨ r' = r → 0 ≤ v < VPAGES → has (upte s r' v) PTE_V = false)).
  apply (wp_uvmcreate g); [done|done|]. intros p fl Hfl _ _ V' _ Hp _. exists (g_root p (g_alloc p fl g)).
  pose proof (new_root_keeps g m2 p fl V Hfl) as Kp. split; [exact V'|]. cbn [roots g_root g_alloc]. split; [exact (elem_of_union_r _ _ _ Hr)|]. split; [apply elem_of_union_l, elem_of_singleton_2; reflexivity|].
  intros r' v [->| ->] Hv; [|by rewrite Hp]. rewrite (kp_ptes _ _ _ _ Kp r1 v); [rewrite Hz; reflexivity|exact (root_label _ _ V r1 Hr)|exact (vpage_va v Hv)].
Qed.

#[local] Opaque e1 rx.

(** A page from [kalloc]. *)
Lemma page_inv g m : two_tables g m → value 0 kalloc m ≠ 0 →
  ∃ g', two_tables g' (exec kalloc m) ∧ preserves ∅ g m g' (exec kalloc m) ∧ private_page g' (value 0 kalloc m).
Proof.
  intros T. pose proof T as (V & _).
  apply (wp_exec 0 kalloc m (λ p s, p ≠ 0 → ∃ g', two_tables g' s ∧ preserves ∅ g m g' s ∧ private_page g' p)).
  destruct (kalloc_cases g m V) as [[Hfl E]|(p & fl & Hfl & Hp & Hp0 & Hfr & E)].
  { eapply wp_Ok; [exact E|]. intros Hz. by destruct (Hz eq_refl). }
  eapply wp_Ok; [exact E|]. intros _. exists (g_alloc p fl g). destruct (preserves_alloc g m p fl V Hfl) as [Pr Pp].
  split; [|exact (conj Pr Pp)]. eapply two_tables_preserved; [exact (vinv_alloc g m V p fl Hfl)|exact Pr|apply not_elem_of_empty|apply not_elem_of_empty|exact T].
Qed.

Lemma e2_inv : ∃ g, two_tables g e2 ∧ private_page g tfx.
Proof.
  assert (tfx ≠ 0) as Hn by (by vm_compute). destruct e1_inv as (g & T). destruct (page_inv g e1 T Hn) as (g' & T' & _ & P). exists g'. exact (conj T' P).
Qed.

#[local] Opaque e2 tfx.

Lemma e3_inv : ∃ g, two_tables g e3 ∧ private_page g tfx ∧ private_page g ax.
Proof.
  assert (ax ≠ 0) as Hn by (by vm_compute). destruct e2_inv as (g & T & P). destruct (page_inv g e2 T Hn) as (g' & T' & Pr & P').
  exists g'. split; [exact T'|]. split; [|exact P']. apply (pv_page _ _ _ _ _ Pr); [exact P|apply not_elem_of_empty].
Qed.

#[local] Opaque e3 ax.

Lemma e4_inv : ∃ g, two_tables g e4 ∧ private_page g tfx ∧ kstring g (mem e4) ax ls_str.
Proof.
  destruct e3_inv as (g & T & P1 & P2). exists g. pose proof T as (V & R1 & R2 & _).
  assert (bytes_ok (mem e4)) as Hb by (apply bytes_ok_store_bytes; [apply V|by repeat constructor]).
  assert (∀ x, x < ax ∨ ax + PGSIZE ≤ x → mem e4 x = mem e3 x) as Hm.
  { intros x Hx. unfold e4. cbn [mem set_mem]. unfold store_bytes. cbn [length ls_str app] in *. unfold PGSIZE in Hx. mem_cases; [lia|done..]. }
  destruct (preserves_write g e3 ax (mem e4) V P2 Hb Hm) as [V4 Pr]. change (set_mem (mem e4) e3) with e4 in *.
  assert (own g r1 = OPT r1 2 0 ∧ own g rx = OPT rx 2 0) as [L1 L2] by (split; by apply (root_label _ _ V)). destruct P2 as [O2 P2].
  split; [eapply (two_tables_preserved {[ax]} g e3); [exact V4|exact Pr|apply not_elem_of_singleton; congruence|apply not_elem_of_singleton; congruence|exact T]|].
  split; [exact P1|]. split; [exact (conj O2 P2)|]. split; [done|]. split; [by repeat constructor|]. by vm_compute.
Qed.

#[local] Opaque e4.

Definition shell : proc := set_trapframe tfx (set_pagetable r1 running7).
Definition kx : K :=
  mkKst (λ _, initlock) (mkCpu 0 true true) 0 (Some 0%nat) (shell :: replicate (NPROC - 1) blank) 8 None 0 e4 f0.

Lemma kx_procs i p : procs kx !! i = Some p → i = 0%nat ∧ p = shell ∨ p = blank.
Proof. destruct i as [|i]; [intros [= <-]; by left|]. intros [-> _]%lookup_replicate. by right. Qed.

Lemma kx_inv g : two_tables g e4 → private_page g tfx → pinv g kx.
Proof.
  intros (V & R1 & R2 & Hv) P. assert (¬ used blank) as Hb by (by intros []). assert (used shell) as Hsh by (intros [=]). split.
  - exact V.
  - intros i p [[-> ->]| ->]%kx_procs Hu; [|destruct (Hb Hu)]. split; [exact R1|exact P|split; [reflexivity|by vm_compute]|].
    intros v Hv'. apply Hv; [by left|]. change UPAGES with (2 ^ 26 - 2) in Hv'. change VPAGES with (2 ^ 26). change (npg (sz shell)) with 0 in Hv'. lia.
  - intros i p [[-> ->]| ->]%kx_procs Hu; [destruct (Hu Hsh)|]. split_and!; reflexivity.
  - intros i p [[-> ->]| ->]%kx_procs; split; [reflexivity|intros _; reflexivity|reflexivity|intros _; reflexivity].
  - intros i j p q Hne [[-> ->]| ->]%kx_procs [[-> ->]| ->]%kx_procs Hu Hu'; [destruct (Hne eq_refl)|destruct (Hb Hu')|destruct (Hb Hu)|destruct (Hb Hu)].
  - intros i j p q Hne [[-> ->]| ->]%kx_procs [[-> ->]| ->]%kx_procs Hu Hu'; [destruct (Hne eq_refl)|destruct (Hb Hu')|destruct (Hb Hu)|destruct (Hb Hu)].
  - reflexivity.
  - intros i p [[-> ->]| ->]%kx_procs Hu; [split; reflexivity|destruct (Hb Hu)].
  - intros i j p q Hne [[-> ->]| ->]%kx_procs [[-> ->]| ->]%kx_procs Hu Hu'; [destruct (Hne eq_refl)|destruct (Hb Hu')|destruct (Hb Hu)|destruct (Hb Hu)].
Qed.

Lemma exec_builds_stack_witness :
  let c := exec_stack (ls_str) [ax] rx 0 0x400 in
  value 0 c kx = 1 ∧ ∃ a, reads_at (mach (exec c kx)) rx a (ls_str ++ [0]) ∧ load64 (mem (mach (exec c kx))) (tfx + TF_EPC) = 0x400.
Proof.
  cbv zeta. assert (value 0 (exec_stack ls_str [ax] rx 0 0x400) kx = 1) as Hv by (by vm_compute). split; [exact Hv|].
  destruct e4_inv as (g & T & P & Ks). pose proof T as (V & R1 & R2 & Hi). pose proof (kx_inv g T P) as I.
  assert (cpu_ok (kcpu kx)) as Hc by (split; simpl; lia). assert (used shell) as Hu by (intros [=]). assert (rx ≠ r1) as Hne by (by vm_compute).
  assert (∀ j q, procs kx !! j = Some q → used q → pagetable q ≠ rx) as Hd.
  { intros j q [[-> ->]| ->]%kx_procs Huq; [intros E; by destruct Hne|by destruct Huq]. }
  assert (topped (mach kx) rx 0) as Ht.
  { intros v Hv'. apply Hi; [by right|]. change UPAGES with (2 ^ 26 - 2) in Hv'. change VPAGES with (2 ^ 26). change (npg 0) with 0 in Hv'. lia. }
  assert (0 + 3 * PGSIZE ≤ TRAPFRAME) as Hs by (by vm_compute). assert (Forall2 (kstring g (mem (mach kx))) [ax] [ls_str]) as Hk by (apply Forall2_cons_2; [exact Ks|apply Forall2_nil_2]).
  pose proof (exec_builds_stack 0 shell ls_str rx 0 0x400 [ax] [ls_str] g kx I Hc eq_refl eq_refl Hu R2 Hd ltac:(lia) Hs Ht ltac:(lia) Hk) as W.
  apply (wp_exec 0) in W. destruct W as (g' & _ & [[E _]|(_ & sp & D)]); [rewrite Hv in E; discriminate E|].
  pose proof (ed_args _ _ _ _ _ _ _ _ _ _ _ _ D) as Ha. apply Forall2_cons_1 in Ha as [Ha _]. eexists. split; [exact Ha|exact (ed_epc _ _ _ _ _ _ _ _ _ _ _ _ D)].
Defined.
